(* ===== verification/_CoqProject ===== *)
-Q . S2P
Prelude.v
Mem.v
CString.v
Digits.v
Alloc.v
StrFunc.v
NumConv.v
Algo.v
Supervisor.v
Init.v
Malloc.v
MallocProofs.v
MallocSpec.v
MallocAligned.v
MallocHeap.v
MallocThms.v
Calendar.v
Strftime.v
StrftimeSpec.v
AsctimeSpec.v
Strptime.v
StrptimeSpec.v
TimeRoundTrip.v
FpFmt.v
FpFmtSpec.v
FpRound.v
Format.v
FormatSim.v
FormatText.v
FormatTypes.v
FormatFixed.v
FormatNumbers.v
FormatThms.v
Stdio.v
StdioSpec.v
StdioThms.v
Big.v
BigSpec.v
Nearest.v
Strtod.v
StrtodRound.v
StrtodParse.v
StrtodConv.v
StrtodThms.v
FpReadBack.v
Words.v
Scan.v
ScanSim.v
ScanFile.v
ScanSafe.v
ScanTape.v
ScanNum.v
ScanFloat.v
ScanThms.v
Getopt.v
GetoptSpec.v
GetoptThms.v
Env.v
EnvSpec.v
EnvThms.v
Exit.v
ExitThms.v
Clients.v
