(* ===== verification/Prelude.v ===== *)
(** * MoQiOS user space: a verification of its C library and of init

    MoQiOS is an operating system whose kernel is written in Zig and whose
    user space (a C library, three servers and the test programs) is written
    in C.  This development models that C code: the string, number, time,
    formatting, stream and allocation parts of lib/moqi_libc and the process
    supervisor in servers/init.

    ** The parts and the files

    Foundations
    - Prelude.v: characters, machine integers with their wrap-around, array
      access, the tactics and the hint database [moqi].
    - Mem.v: byte memory as a finite map (loads and stores of unmapped
      addresses fail), C strings in it, C strings and arrays given as lists.
    - Digits.v: positional digits and their values.
    - Alloc.v: the interface [Allocator] between malloc and its clients.
    - Words.v: little-endian integers and arrays of pointers in memory.

    Strings and numbers
    - CString.v: src/string.c, on the memory of Mem.v.
    - StrFunc.v: src/strfunc.c; strdup and strndup against [Allocator].
    - NumConv.v: src/numconv.c (strtol family, abs, div, rand).
    - Algo.v: src/algo.c (qsort, bsearch, rand_r).

    Allocation
    - Malloc.v: src/malloc.c, src/sbrk.c and the sbrk of src/unistd.c: block
      headers linked from [heap_head], the lock word, deferred frees, brk.
    - MallocProofs.v, MallocSpec.v, MallocAligned.v: the heap as a list of
      blocks, and what each operation does to it.
    - MallocHeap.v: the kernel's brk, reachable heaps, the instance of
      [Allocator].
    - MallocThms.v: the theorems a caller reads.

    Time
    - Calendar.v: src/timeconv.c, gmtime, localtime, timegm, mktime.
    - Strftime.v with StrftimeSpec.v and AsctimeSpec.v: strftime, asctime and
      ctime, and the reference texts they refine.
    - Strptime.v with StrptimeSpec.v: strptime with its pending state, and its
      termination.
    - TimeRoundTrip.v: strptime against strftime.

    Formatted output
    - FpFmt.v with FpFmtSpec.v and FpRound.v: src/fpfmt.h, the exact decimal
      expansion of a double and its rounding.
    - Format.v: src/format.c, the printf engine, written against the output
      interface [Writer], with the [fmt_out] of the source as an instance.
    - FormatSim.v: the text itself as a second instance, and the simulation
      between the two; FormatText.v: the text of each conversion;
      FormatTypes.v: the argument types of a format string;
      FormatFixed.v, FormatNumbers.v, FormatThms.v: the theorems.

    Floating-point input
    - Big.v with BigSpec.v: the big numbers of src/strtod.c.
    - Nearest.v: what it means to be the nearest number of a binary format,
      in integers.
    - Strtod.v: the rest of src/strtod.c; StrtodRound.v, StrtodParse.v and
      StrtodConv.v: its rounding, its parser and its conversion;
      StrtodThms.v: the theorem.
    - FpReadBack.v: strtod against printf.

    Streams
    - Stdio.v: src/stdio_file.c over the system calls of a [Kernel].
    - StdioSpec.v: a file as bytes and a position ([afile]), the simulation
      [stands] between it and a [FILE_s]; StdioThms.v: the theorems.

    Formatted input
    - Scan.v: src/scan.c, the scanf engine, written against the source
      interface [ScanSource] of src/scan.h, with the string source of
      src/scanf.c and the stream source of src/stdio_file.c as instances.
    - ScanSim.v: a text as a third instance ([tape]) and the simulation that
      carries its runs over to every [TextSource]; ScanFile.v: a stream is
      one.
    - ScanSafe.v: every run on a tape ends and stays inside the arguments.
    - ScanTape.v, ScanNum.v, ScanFloat.v: the number conversions byte by byte;
      ScanThms.v: the theorems.

    Command lines
    - Getopt.v: src/getopt.c; GetoptSpec.v: its diagnostics and the choice of
      a long option; GetoptThms.v: a reference that reads a command line once,
      and the simulation between it and the calls.

    Processes
    - Env.v: src/env.c and the getenv of src/stdlib.c, on memory and against
      [Allocator]; EnvSpec.v: its loops; EnvThms.v: the environment as a map.
    - Exit.v: src/exit.c against [Allocator]; ExitThms.v: its blocks as a
      stack, and the events of a process.
    - Clients.v: both over malloc.c.

    Servers
    - Supervisor.v: servers/init/supervisor.h and spawn_report.h.
    - Init.v: servers/init/main.c, PID 1.

    ** How the code is represented

    A w-bit integer is a [Z]; wrap-around is written out ([u64], [i32], ...)
    where the C code can wrap, and casts are explicit.  C division is [÷] and
    [Z.rem] where operands can be negative.  A function that touches memory
    returns [option]: [None] is an access outside the memory or array it was
    given, a read of an argument with the wrong type, or a loop that ran out
    of its fuel, so a theorem that an operation returns [Some] says that it
    stays in bounds and terminates.  Strings that are only read are lists of
    bytes up to the NUL, and a pointer into one is a suffix.  State (heap,
    supervisor, output, parser state) is a record passed through.  errno is
    passed in and out of the functions that set it.

    ** Fuel

    Loops over strings in memory use [mem_fuel] (the number of mapped bytes
    plus one), loops over the block list [list_fuel] (the number of headers
    plus one); the drain loop of the allocator runs at most twice.  digits
    loops run 64 times, the width of the type.  strftime and strptime nest
    formats to a fixed depth and consume their format in every round; the
    printf loop consumes a character of its format in every round
    ([format_fuel]) and the output loops empty a buffer in every second round
    ([out_fuel]).  The loops of a stream around read and write take one round
    for every byte and every interruption by a signal the kernel will report.
    getdelim takes its fuel as an argument, a bound on the
    length of the line.  The loops over environ and over the blocks of atexit
    are bounded by the memory mapped and by the blocks.  The loops of strtod
    over its big numbers run once for each limb, bit or digit.  A loop of scanf
    takes a byte of its input in every round, and the fuel of a call is the
    length of the input plus two.  Each of these bounds is shown to be enough
    by the theorems that the operation returns a result.

    ** What the theorems show

    - Heap: every sequence of calls keeps the block list well formed and the
      live blocks disjoint and in place; malloc, free, calloc, realloc and
      posix_memalign do what their callers rely on, for every size but the few
      within the heap's extent of 2^64; those make the break move down and
      malloc write a header above it.  A free from a signal
      handler is carried out by the call it interrupted, or counted as leaked
      when every slot is taken.
    - Strings and numbers: each routine against its specification, with the
      memory it leaves; strtoll and strtoull on every numeral; rand against
      its recurrence; qsort is a stable sort and bsearch finds.
    - Supervisor and init: the restart budget is an invariant of every run, a
      finished service is never started again, and init spawns, announces and
      reaps its programs in order.
    - Time: the calendar functions enumerate the Gregorian calendar and are
      inverse to each other; strftime writes the reference text or nothing
      beyond max, the week numbers being counted there day by day, for all
      fields whose arithmetic stays within an int; ISO weeks are right;
      strptime always returns and reads back what strftime printed.
    - printf: a format string has a type, and a call with arguments of that
      type returns; vsnprintf truncates as C99 has it and touches nothing else;
      a sink gets the same text in chunks; fp_exact is exact and
      fp_round_digits rounds half to even, so %f is correctly rounded; the
      integer conversions read back through strtoll and strtoull under all
      length modifiers, flags, widths and precisions.
    - strtod and strtof: the result is the nearest number, ties to even, for
      every decimal text, with the end pointer as C99 has it and errno where it
      settles it; a double printed with 17 significant digits reads back bit for bit.
    - Streams: a program of stream calls behaves as the same calls on the
      bytes of the file, through descriptors that append too; ungetc, failing
      system calls and seeks to impossible offsets are left out of it; fprintf
      writes the text of its format; a failed fseek
      loses the bytes read ahead.
    - scanf: fscanf on a file is sscanf on its bytes; a call with enough
      arguments always returns and writes only through them; the integer
      conversions agree with strtoll and strtoull, except on a base prefix
      without a digit, where they fail; and the floating-point conversions are
      correctly rounded.
    - getopt: the calls on a command line give what a reference gives that
      reads the line once, and leave argv permuted with the operands last.
    - Environment: every call answers as a map from names to values does.
    - exit: registered functions run last in, first out, whatever they do
      themselves, and the blocks atexit allocates are freed.

    ** Not modelled

    The kernel (Zig) and its drivers; system call stubs and the parts of the
    C library that only wrap one (fdops, mman, poll, select, epoll, stat,
    signal, rlimit, sysinfo, setjmp, crt0); the mathematical
    functions, which compute in floating point; pthread; dirent, netdb; the
    devmgr and syslogd servers; and the programs in user/, which are tests and
    a shell. *)

From Stdlib Require Export ZArith Lia ZifyBool Ascii String.
From stdpp Require Export base option numbers strings fin_maps sets gmap list.

#[global] Open Scope Z_scope.

(** ** Characters

    C characters and bytes are integers in [0, 255].  [chr "x"] is the code
    of a character, expanded to its literal when the file is read, so that
    [lia] sees numbers; [str "..."] is the byte list of a string literal. *)

Definition byte_of (c : Ascii.ascii) : Z := Z.of_N (Ascii.N_of_ascii c).

Notation "'chr' c" :=
  (ltac:(let v := eval vm_compute in (byte_of c%char) in exact v))
  (at level 1, c at level 0, only parsing).

Fixpoint str (s : string) : list Z :=
  match s with
  | EmptyString => []
  | String c s' => byte_of c :: str s'
  end.

(** A character that may occur inside a C string. *)
Definition nonzero_byte (c : Z) : Prop := 0 < c < 256.

#[export] Instance nonzero_byte_dec c : Decision (nonzero_byte c).
Proof. unfold nonzero_byte. apply _. Defined.

(** ** Machine integers

    A w-bit integer is a [Z] in its range; arithmetic that the C code lets
    wrap is written with these functions, everything else is exact. *)

Definition u8 (x : Z) : Z := x mod 2 ^ 8.
Definition u16 (x : Z) : Z := x mod 2 ^ 16.
Definition u32 (x : Z) : Z := x mod 2 ^ 32.
Definition u64 (x : Z) : Z := x mod 2 ^ 64.

(** Two's complement reinterpretation of the low [w] bits. *)
Definition swrap (w x : Z) : Z := (x + 2 ^ (w - 1)) mod 2 ^ w - 2 ^ (w - 1).
Definition i8 (x : Z) : Z := swrap 8 x.
Definition i16 (x : Z) : Z := swrap 16 x.
Definition i32 (x : Z) : Z := swrap 32 x.
Definition i64 (x : Z) : Z := swrap 64 x.

Definition INT_MAX : Z := 2147483647.
Definition INT_MIN : Z := -2147483648.
Definition LLONG_MAX : Z := 9223372036854775807.
Definition LLONG_MIN : Z := -9223372036854775808.
Definition SIZE_MAX : Z := 18446744073709551615.

Definition is_u64 (x : Z) : Prop := 0 <= x < 2 ^ 64.
Definition is_i64 (x : Z) : Prop := - 2 ^ 63 <= x < 2 ^ 63.
Definition is_i32 (x : Z) : Prop := - 2 ^ 31 <= x < 2 ^ 31.
Definition in_i64 (x : Z) : bool := (LLONG_MIN <=? x) && (x <=? LLONG_MAX).

(** errno values used by the modelled code (include/errno.h). *)
Definition EINVAL : Z := 22.
Definition ENOMEM : Z := 12.
Definition ERANGE : Z := 34.
Definition EOVERFLOW : Z := 75.
Definition EILSEQ : Z := 84.

Declare Scope cint_scope.
Delimit Scope cint_scope with cint.
Notation "x +u y" := (u64 (x + y)) (at level 50, left associativity) : cint_scope.
Notation "x -u y" := (u64 (x - y)) (at level 50, left associativity) : cint_scope.
Notation "x *u y" := (u64 (x * y)) (at level 40, left associativity) : cint_scope.

(** ** Arrays

    A C array is the list of its elements; an access outside of it is [None]. *)

Definition at_index {A} (l : list A) (i : Z) : option A := if i <? 0 then None else l !! Z.to_nat i.
Definition set_index {A} (l : list A) (i : Z) (x : A) : option (list A) :=
  if (i <? 0) || (Z.of_nat (length l) <=? i) then None else Some (<[Z.to_nat i := x]> l).

(** Appending to the used part [l] of an array of [cap] elements: [l[n++] = x]. *)
Definition push {A} (cap : Z) (l : list A) (x : A) : option (list A) :=
  if Z.of_nat (length l) <? cap then Some (l ++ [x]) else None.

(** ** Tactics *)

(** [lia] with division and modulo by constants. *)
Ltac zdm := Z.to_euclidean_division_equations; lia.

(** Case analysis on the next boolean test or match of the goal, keeping the
    equation; [bcases] repeats it and closes the absurd branches. *)
Ltac bcase :=
  match goal with
  | |- context [if ?b then _ else _] => destruct b eqn:?
  | |- context [match ?x with _ => _ end] => destruct x eqn:?
  end.
Ltac bcases := repeat (bcase; simplify_eq/=; try lia).

(** The same in a hypothesis. *)
Ltac bcase_in H :=
  match type of H with
  | context [if ?b then _ else _] => destruct b eqn:?
  | context [match ?x with _ => _ end] => destruct x eqn:?
  end.
Ltac bcases_in H := repeat (bcase_in H; simplify_eq/=; try lia).

(** [bool_if]: decide the first [if] of the goal on integer tests by [lia]. *)
Ltac bool_true := match goal with
  | |- context [if ?b then _ else _] => replace b with true by (symmetry; lia) end.
Ltac bool_false := match goal with
  | |- context [if ?b then _ else _] => replace b with false by (symmetry; lia) end.
(** One step of the option monad. *)
Ltac obind := cbn [mbind option_bind].

(** [zbool]: decide an integer comparison of the goal by [lia]. *)
Ltac ztest b := first [replace b with true by lia | replace b with false by lia].
Ltac zbool :=
  match goal with
  | |- context [?a =? ?b] => ztest (a =? b)
  | |- context [?a <? ?b] => ztest (a <? b)
  | |- context [?a <=? ?b] => ztest (a <=? b)
  end.
Ltac bool_if := first [bool_true | bool_false]; cbn iota.

Create HintDb moqi discriminated.
#[export] Hint Constants Transparent : moqi.

(** ** Wrap-around lemmas *)

Lemma u8_range x : 0 <= u8 x < 256.
Proof. unfold u8. zdm. Qed.
Lemma u32_range x : 0 <= u32 x < 2 ^ 32.
Proof. unfold u32. zdm. Qed.
Lemma u64_range x : 0 <= u64 x < 2 ^ 64.
Proof. unfold u64. zdm. Qed.
Lemma u8_small x : 0 <= x < 256 -> u8 x = x.
Proof. intros. unfold u8. zdm. Qed.
Lemma u32_small x : 0 <= x < 2 ^ 32 -> u32 x = x.
Proof. intros. unfold u32. zdm. Qed.
Lemma u64_small x : 0 <= x < 2 ^ 64 -> u64 x = x.
Proof. intros. unfold u64. zdm. Qed.
Lemma i32_small x : is_i32 x -> i32 x = x.
Proof. unfold is_i32, i32, swrap. intros. zdm. Qed.
(** Negation through the unsigned type. *)
Lemma i64_u64_neg v : 0 <= v <= 2 ^ 63 -> i64 (u64 (0 - v)) = - v.
Proof. unfold i64, swrap, u64. intros. zdm. Qed.
Lemma i64_small x : is_i64 x -> i64 x = x.
Proof. unfold is_i64, i64, swrap. intros. zdm. Qed.
Lemma i32_range x : is_i32 (i32 x).
Proof. unfold is_i32, i32, swrap. zdm. Qed.
Lemma i64_range x : is_i64 (i64 x).
Proof. unfold is_i64, i64, swrap. zdm. Qed.
Lemma in_i64_spec x : in_i64 x = true <-> is_i64 x.
Proof. unfold in_i64, is_i64, LLONG_MIN, LLONG_MAX. lia. Qed.

#[export] Hint Resolve u8_range u32_range u64_range i32_range i64_range : moqi.

(** Rounding down to a power of two by masking, as the C code writes it. *)
Lemma land_round_down x k :
  0 <= k <= 64 -> 0 <= x < 2 ^ 64 -> Z.land x (u64 (Z.lnot (2 ^ k - 1))) = 2 ^ k * (x / 2 ^ k).
Proof.
  intros Hk Hx. unfold u64. rewrite <- (Z.land_ones _ 64) by lia.
  rewrite Z.land_assoc, (Z.land_comm x), <- Z.land_assoc, (Z.land_ones x 64) by lia.
  rewrite (Z.mod_small x) by lia. rewrite Z.land_comm, <- Z.ldiff_land.
  replace (2 ^ k - 1) with (Z.ones k) by (rewrite Z.ones_equiv; lia).
  rewrite Z.ldiff_ones_r, Z.shiftl_mul_pow2, Z.shiftr_div_pow2 by lia. lia.
Qed.

(** ** List lemmas *)

Lemma Forall_str s : (forall c, In c (list_ascii_of_string s) -> c <> Ascii.zero) ->
  Forall nonzero_byte (str s).
Proof.
  induction s as [|c s IH]; simpl; intros H; constructor; auto.
  specialize (H c (or_introl eq_refl)).
  unfold nonzero_byte, byte_of.
  pose proof (Ascii.N_ascii_bounded c) as Hb.
  destruct (decide (Ascii.N_of_ascii c = 0%N)) as [E|E]; [|lia].
  destruct H. rewrite <- (Ascii.ascii_N_embedding c), E. reflexivity.
Qed.

Lemma lookup_Z_cons {A} (x : A) l (i : nat) : (0 < i)%nat -> (x :: l) !! i = l !! (i - 1)%nat.
Proof. destruct i; [lia|]. intros _. simpl. f_equal. lia. Qed.

Lemma take_snoc_lookup {A} (l : list A) i x : l !! i = Some x -> take (S i) l = take i l ++ [x].
Proof. intros H. by apply take_S_r. Qed.

Lemma list_filter_all {A} (P : A -> Prop) `{!forall x, Decision (P x)} (l : list A) :
  Forall P l -> filter P l = l.
Proof. induction 1; [done|]. rewrite filter_cons_True by done. by f_equal. Qed.

Lemma list_filter_in {A} (P Q : A -> Prop) `{!forall x, Decision (P x), !forall x, Decision (Q x)} (l : list A) :
  (forall x, x ∈ l -> P x <-> Q x) -> filter P l = filter Q l.
Proof.
  induction l as [|x l IH]; intros Hx; [done|]. rewrite !filter_cons.
  assert (HPQ : P x <-> Q x) by (apply Hx; apply list_elem_of_here).
  rewrite IH by (intros y Hy; apply Hx; by apply list_elem_of_further).
  destruct (decide (P x)), (decide (Q x)); tauto.
Qed.

(** Overwriting an occurrence of [y] by [z] changes the elements only at these two. *)
Lemma elem_of_insert_other {A} (l : list A) i (x y z : A) :
  l !! i = Some y -> x <> y -> x ∈ <[i:=z]> l <-> x = z \/ x ∈ l.
Proof.
  intros Hi Hxy. rewrite insert_take_drop by (by eapply lookup_lt_Some).
  rewrite <- (take_drop_middle l i y Hi) at 3. rewrite !elem_of_app, !elem_of_cons. tauto.
Qed.

Lemma str_inj s t : str s = str t -> s = t.
Proof.
  revert t; induction s as [|c s IH]; intros [|d t] H; try done. injection H as Hc Hs. f_equal; [|by apply IH].
  apply (inj Z.of_N) in Hc. rewrite <- (Ascii.ascii_N_embedding c), <- (Ascii.ascii_N_embedding d). by f_equal.
Qed.

Lemma filter_none {A} (f : A -> bool) l : (forall x, x ∈ l -> f x = false) -> List.filter f l = [].
Proof.
  induction l as [|x l IH]; intros H; simpl; [done|]. rewrite H by apply list_elem_of_here.
  apply IH. intros y Hy. apply H. by apply list_elem_of_further.
Qed.
