(* ===== verification/Mem.v ===== *)
(** * Byte memory

    The memory the C string routines work on: a finite map from addresses to
    bytes.  Reading or writing an unmapped address is a fault ([None]), so a
    theorem that an operation returns [Some] also says that it stays inside
    the buffers it was given.  A loop that walks a string reads a different
    mapped address in each round, so [S (size m)] rounds are enough for it:
    that is the fuel [mem_fuel m] of every such loop. *)

From S2P Require Import Prelude.

Abbreviation mem := (gmap Z Z).

Definition load (m : mem) (a : Z) : option Z := m !! a.

Definition store (m : mem) (a v : Z) : option mem :=
  match m !! a with
  | Some _ => Some (<[a := v]> m)
  | None => None
  end.

Definition mem_fuel (m : mem) : nat := S (size m).
Arguments mem_fuel : simpl never.

(** [bytes_at m a l]: the bytes [l] are stored from address [a] on. *)
Fixpoint bytes_at (m : mem) (a : Z) (l : list Z) : Prop :=
  match l with
  | [] => True
  | v :: l' => m !! a = Some v /\ bytes_at m (a + 1) l'
  end.

(** [cstr_at m a s]: a NUL-terminated string with the characters [s]. *)
Definition cstr_at (m : mem) (a : Z) (s : list Z) : Prop :=
  bytes_at m a (s ++ [0]) /\ Forall nonzero_byte s.

(** Every address of [a, a + n) is mapped. *)
Definition mapped (m : mem) (a n : Z) : Prop :=
  forall k, a <= k < a + n -> is_Some (m !! k).

(** The effect of writing the bytes [l] from [a] on. *)
Fixpoint write_bytes (m : mem) (a : Z) (l : list Z) : mem :=
  match l with
  | [] => m
  | v :: l' => write_bytes (<[a := v]> m) (a + 1) l'
  end.

Abbreviation len l := (Z.of_nat (length l)).

(** Reading a C string that is given as its byte list: the terminating NUL
    (and, in the model, everything behind it) reads as 0. *)
Definition peek (p : list Z) : Z := match p with [] => 0 | c :: _ => c end.
Definition peek_at (p : list Z) (k : nat) : Z := default 0 (p !! k).

(** Writing [bytes] into a C array given as the list of its elements: a write
    that is not inside the array is a fault. *)
Definition array_write (buf : list Z) (at_ : Z) (bytes : list Z) : option (list Z) :=
  if (0 <=? at_) && (at_ + len bytes <=? len buf)
  then Some (take (Z.to_nat at_) buf ++ bytes ++ drop (Z.to_nat at_ + length bytes) buf)
  else None.

(** ** Lemmas *)

Lemma bytes_at_lookup m a l :
  bytes_at m a l <-> forall i v, l !! i = Some v -> m !! (a + Z.of_nat i) = Some v.
Proof.
  revert a; induction l as [|x l IH]; intros a; simpl.
  - split; [intros _ i v; by rewrite lookup_nil | done].
  - rewrite IH. split.
    + intros [Hx Hl] [|i] v Hi; simplify_eq/=.
      * by rewrite Z.add_0_r.
      * rewrite <- (Hl i v Hi). f_equal. lia.
    + intros H. split.
      * specialize (H 0%nat x eq_refl). by rewrite Z.add_0_r in H.
      * intros i v Hi. specialize (H (S i) v Hi).
        rewrite <- H. f_equal. lia.
Qed.

Lemma bytes_at_app m a l1 l2 :
  bytes_at m a (l1 ++ l2) <-> bytes_at m a l1 /\ bytes_at m (a + len l1) l2.
Proof.
  revert a; induction l1 as [|x l1 IH]; intros a; simpl.
  - rewrite Z.add_0_r. tauto.
  - rewrite IH. replace (a + Z.of_nat (S (length l1))) with (a + 1 + len l1) by lia. tauto.
Qed.

Lemma bytes_at_mapped m a l : bytes_at m a l -> mapped m a (len l).
Proof.
  rewrite bytes_at_lookup. intros H k Hk.
  destruct (lookup_lt_is_Some_2 l (Z.to_nat (k - a))) as [v Hv]; [lia|].
  exists v. apply H in Hv. rewrite Z2Nat.id in Hv by lia.
  rewrite <- Hv. f_equal. lia.
Qed.

Lemma mapped_le m a n n' : mapped m a n -> n' <= n -> mapped m a n'.
Proof. intros H ? k ?. apply H. lia. Qed.

Lemma mapped_sub m a n a' n' : mapped m a n -> a <= a' -> a' + n' <= a + n -> mapped m a' n'.
Proof. intros H ?? k ?. apply H. lia. Qed.

Lemma mapped_insert m a n k v : mapped m a n -> mapped (<[k := v]> m) a n.
Proof.
  intros H j Hj. destruct (decide (k = j)) as [->|].
  - rewrite lookup_insert_eq; eauto.
  - rewrite lookup_insert_ne by done. by apply H.
Qed.

Lemma store_mapped m a v : is_Some (m !! a) -> store m a v = Some (<[a := v]> m).
Proof. intros [x Hx]. unfold store. by rewrite Hx. Qed.

Lemma store_at m a n k v : mapped m a n -> a <= k < a + n -> store m k v = Some (<[k := v]> m).
Proof. intros H ?. apply store_mapped, H. done. Qed.

(** A run of [n] mapped addresses has at most [size m] elements. *)
Lemma mapped_size m a (n : nat) : mapped m a (Z.of_nat n) -> (n <= size m)%nat.
Proof.
  intros H.
  assert (Hs : (list_to_set (seqZ a (Z.of_nat n)) : gset Z) ⊆ dom m).
  { intros k Hk. apply elem_of_list_to_set, elem_of_seqZ in Hk.
    apply elem_of_dom, H. lia. }
  apply subseteq_size in Hs. rewrite size_dom in Hs.
  rewrite size_list_to_set in Hs by apply NoDup_seqZ.
  rewrite length_seqZ in Hs. lia.
Qed.

Lemma bytes_at_fuel m a l : bytes_at m a l -> (length l < mem_fuel m)%nat.
Proof. intros H%bytes_at_mapped%mapped_size. unfold mem_fuel. lia. Qed.

Lemma cstr_at_fuel m a s : cstr_at m a s -> (S (length s) < mem_fuel m)%nat.
Proof. intros [H _]. apply bytes_at_fuel in H. rewrite length_app in H. simpl in H. lia. Qed.

Lemma cstr_at_cons m a c s :
  cstr_at m a (c :: s) <-> m !! a = Some c /\ nonzero_byte c /\ cstr_at m (a + 1) s.
Proof. unfold cstr_at. simpl. rewrite Forall_cons_iff. tauto. Qed.

Lemma cstr_at_nil m a : cstr_at m a [] <-> m !! a = Some 0.
Proof. unfold cstr_at. simpl. split; [tauto|]. intros; repeat split; auto. Qed.

Lemma cstr_at_app m a s1 s2 :
  cstr_at m a (s1 ++ s2) -> bytes_at m a s1 /\ cstr_at m (a + len s1) s2.
Proof.
  unfold cstr_at. rewrite <- app_assoc, bytes_at_app, Forall_app. tauto.
Qed.

Lemma cstr_at_mapped m a s : cstr_at m a s -> mapped m a (len s + 1).
Proof.
  intros [H _]. apply bytes_at_mapped in H. rewrite length_app in H. simpl in H.
  eapply mapped_le; [exact H|lia].
Qed.

(** *** [write_bytes] *)

Lemma write_bytes_lookup m a l k :
  write_bytes m a l !! k =
    if (a <=? k) && (k <? a + len l) then l !! Z.to_nat (k - a) else m !! k.
Proof.
  revert m a; induction l as [|x l IH]; intros m a; simpl.
  - bcase; [lia|done].
  - rewrite IH. destruct (decide (k = a)) as [->|Hne].
    + replace ((a + 1 <=? a) && (a <? a + 1 + len l)) with false by lia.
      replace ((a <=? a) && (a <? a + Z.of_nat (S (length l)))) with true by lia.
      rewrite lookup_insert_eq. by replace (Z.to_nat (a - a)) with 0%nat by lia.
    + rewrite lookup_insert_ne by done.
      replace ((a + 1 <=? k) && (k <? a + 1 + len l))
        with ((a <=? k) && (k <? a + Z.of_nat (S (length l)))) by lia.
      bcase; [|done]. apply andb_prop in Heqb.
      rewrite lookup_Z_cons by lia. f_equal. lia.
Qed.

Lemma write_bytes_out m a l k : k < a \/ a + len l <= k -> write_bytes m a l !! k = m !! k.
Proof. intros H. rewrite write_bytes_lookup. bool_if. done. Qed.

Lemma bytes_at_write m a l : bytes_at (write_bytes m a l) a l.
Proof.
  apply bytes_at_lookup. intros i v Hi.
  pose proof (lookup_lt_Some _ _ _ Hi). rewrite write_bytes_lookup. bool_if.
  rewrite <- Hi. f_equal. lia.
Qed.

Lemma bytes_at_write_disjoint m a l b l' :
  b + len l' <= a \/ a + len l <= b -> bytes_at m b l' -> bytes_at (write_bytes m a l) b l'.
Proof.
  intros Hd. rewrite !bytes_at_lookup. intros H i v Hi.
  pose proof (lookup_lt_Some _ _ _ Hi). rewrite write_bytes_out by lia. auto.
Qed.

Lemma bytes_at_insert_disjoint m k x b l :
  k < b \/ b + len l <= k -> bytes_at m b l -> bytes_at (<[k := x]> m) b l.
Proof.
  intros Hd. rewrite !bytes_at_lookup. intros H i v Hi.
  pose proof (lookup_lt_Some _ _ _ Hi). rewrite lookup_insert_ne by lia. auto.
Qed.

Lemma cstr_at_write_disjoint m a l b s :
  b + len s < a \/ a + len l <= b -> cstr_at m b s -> cstr_at (write_bytes m a l) b s.
Proof.
  intros Hd [H1 H2]. split; [|done]. apply bytes_at_write_disjoint; [|done].
  rewrite length_app. simpl. lia.
Qed.

Lemma mapped_write m a l b n : mapped m b n -> mapped (write_bytes m a l) b n.
Proof.
  revert m a; induction l as [|x l IH]; intros m a H; simpl; auto.
  apply IH. by apply mapped_insert.
Qed.

Lemma write_bytes_dom (m : mem) a l : mapped m a (len l) -> dom (write_bytes m a l) = dom m.
Proof.
  revert m a; induction l as [|x l IH]; intros m a H; [done|]. cbn [write_bytes].
  cbn [length] in H. rewrite IH.
  - rewrite dom_insert_lookup_L; [done|]. apply H. lia.
  - apply mapped_insert. eapply mapped_sub; [done|lia..].
Qed.

Lemma write_bytes_app m a l1 l2 :
  write_bytes m a (l1 ++ l2) = write_bytes (write_bytes m a l1) (a + len l1) l2.
Proof.
  revert m a; induction l1 as [|x l1 IH]; intros m a; simpl.
  - by rewrite Z.add_0_r.
  - rewrite IH. f_equal. lia.
Qed.

Lemma write_bytes_insert_comm m a l k v :
  k < a \/ a + len l <= k -> write_bytes (<[k := v]> m) a l = <[k := v]> (write_bytes m a l).
Proof.
  intros H. apply map_eq. intros j. rewrite lookup_insert, !write_bytes_lookup, lookup_insert.
  repeat case_decide; subst; bcases; try done.
Qed.

Lemma write_bytes_id m a l : bytes_at m a l -> write_bytes m a l = m.
Proof.
  rewrite bytes_at_lookup. intros H. apply map_eq. intros k. rewrite write_bytes_lookup.
  bcase; [|done]. apply andb_prop in Heqb.
  destruct (lookup_lt_is_Some_2 l (Z.to_nat (k - a))) as [v Hv]; [lia|].
  rewrite Hv. apply H in Hv. rewrite <- Hv. f_equal. lia.
Qed.

#[export] Hint Resolve bytes_at_write bytes_at_write_disjoint cstr_at_write_disjoint
  mapped_write mapped_insert bytes_at_mapped cstr_at_mapped : moqi.

(** The bytes of a mapped range. *)
Lemma mapped_bytes m a (n : nat) :
  mapped m a (Z.of_nat n) -> exists l, length l = n /\ bytes_at m a l.
Proof.
  revert a; induction n as [|n IH]; intros a H; [by exists []|].
  destruct (H a ltac:(lia)) as [v Hv].
  destruct (IH (a + 1)) as (l & Hl & Hb); [eapply mapped_sub; [done|lia..]|].
  exists (v :: l). simpl. auto.
Qed.

(** Decide a [bytes_at] or [mapped] goal on a concrete memory. *)
Fixpoint bytes_atb (m : mem) (a : Z) (l : list Z) : bool :=
  match l with
  | [] => true
  | v :: l' => bool_decide (m !! a = Some v) && bytes_atb m (a + 1) l'
  end.

Lemma bytes_atb_sound m a l : bytes_atb m a l = true -> bytes_at m a l.
Proof.
  revert a; induction l as [|v l IH]; intros a; simpl; [done|].
  intros [H1 H2]%andb_prop. apply bool_decide_eq_true in H1. auto.
Qed.

Definition cstr_atb (m : mem) (a : Z) (s : list Z) : bool :=
  bytes_atb m a (s ++ [0]) && forallb (fun c => (0 <? c) && (c <? 256)) s.

Lemma cstr_atb_sound m a s : cstr_atb m a s = true -> cstr_at m a s.
Proof.
  intros [H1 H2]%andb_prop. split; [by apply bytes_atb_sound|].
  apply Forall_forall. intros c Hc.
  apply list_elem_of_In, (proj1 (forallb_forall _ _) H2) in Hc.
  unfold nonzero_byte. lia.
Qed.

(** [mem_of a l]: the memory that holds exactly [l] at [a]. *)
Definition mem_of (a : Z) (l : list Z) : mem := write_bytes ∅ a l.
