(* ===== verification/CString.v ===== *)
(** * lib/moqi_libc/src/string.c

    The memory and string routines every other part of the library calls,
    on the byte memory of [Mem].  Each function returns the C result together
    with the memory it leaves, or [None] when it would touch an unmapped
    address.  A pointer result is an address, 0 being NULL. *)

From S2P Require Import Prelude Mem.

(** ** Operations *)

Fixpoint copy_up (k : nat) (m : mem) (d s i : Z) : option mem :=
  match k with
  | O => Some m
  | S k' => c ← load m (s + i); m' ← store m (d + i) c; copy_up k' m' d s (i + 1)
  end.

Fixpoint copy_down (k : nat) (m : mem) (d s : Z) : option mem :=
  match k with
  | O => Some m
  | S k' =>
      c ← load m (s + Z.of_nat k');
      m' ← store m (d + Z.of_nat k') c;
      copy_down k' m' d s
  end.

Definition memcpy (m : mem) (dst src n : Z) : option (Z * mem) :=
  m' ← copy_up (Z.to_nat n) m dst src 0; Some (dst, m').

Definition memmove (m : mem) (dst src n : Z) : option (Z * mem) :=
  if dst =? src then Some (dst, m)
  else if dst <? src then m' ← copy_up (Z.to_nat n) m dst src 0; Some (dst, m')
  else m' ← copy_down (Z.to_nat n) m dst src; Some (dst, m').

Fixpoint set_loop (k : nat) (m : mem) (d c i : Z) : option mem :=
  match k with
  | O => Some m
  | S k' => m' ← store m (d + i) (u8 c); set_loop k' m' d c (i + 1)
  end.

Definition memset (m : mem) (dst c n : Z) : option (Z * mem) :=
  m' ← set_loop (Z.to_nat n) m dst c 0; Some (dst, m').

Fixpoint memcmp_loop (k : nat) (m : mem) (a b i : Z) : option Z :=
  match k with
  | O => Some 0
  | S k' =>
      x ← load m (a + i);
      y ← load m (b + i);
      if negb (x =? y) then Some (x - y) else memcmp_loop k' m a b (i + 1)
  end.

Definition memcmp (m : mem) (a b n : Z) : option Z := memcmp_loop (Z.to_nat n) m a b 0.

Fixpoint strlen_loop (fuel : nat) (m : mem) (s n : Z) : option Z :=
  match fuel with
  | O => None
  | S f => c ← load m (s + n); if c =? 0 then Some n else strlen_loop f m s (n + 1)
  end.

Definition strlen (m : mem) (s : Z) : option Z := strlen_loop (mem_fuel m) m s 0.

Fixpoint strcmp_loop (fuel : nat) (m : mem) (a b : Z) : option Z :=
  match fuel with
  | O => None
  | S f =>
      x ← load m a;
      if x =? 0 then y ← load m b; Some (x - y)
      else
        y ← load m b;
        if x =? y then strcmp_loop f m (a + 1) (b + 1) else Some (x - y)
  end.

Definition strcmp (m : mem) (a b : Z) : option Z := strcmp_loop (mem_fuel m) m a b.

Fixpoint strncmp_loop (k : nat) (m : mem) (a b i : Z) : option Z :=
  match k with
  | O => Some 0
  | S k' =>
      x ← load m (a + i);
      y ← load m (b + i);
      if negb (x =? y) then Some (x - y)
      else if x =? 0 then Some 0
      else strncmp_loop k' m a b (i + 1)
  end.

(** The count may be any [size_t]; a string ends within [mem_fuel] bytes, so
    only that many rounds of the bounded loop are ever run. *)
Definition strncmp (m : mem) (a b n : Z) : option Z :=
  strncmp_loop (Nat.min (Z.to_nat n) (mem_fuel m)) m a b 0.

(** The copy loop shared by strcpy and strcat: the NUL is copied too. *)
Fixpoint copy_str (fuel : nat) (m : mem) (d s : Z) : option mem :=
  match fuel with
  | O => None
  | S f =>
      c ← load m s;
      m' ← store m d c;
      if c =? 0 then Some m' else copy_str f m' (d + 1) (s + 1)
  end.

Definition strcpy (m : mem) (dst src : Z) : option (Z * mem) :=
  m' ← copy_str (mem_fuel m) m dst src; Some (dst, m').

Fixpoint strncpy_loop (k : nat) (m : mem) (dst src i : Z) : option (Z * mem) :=
  match k with
  | O => Some (i, m)
  | S k' =>
      c ← load m (src + i);
      if c =? 0 then Some (i, m)
      else m' ← store m (dst + i) c; strncpy_loop k' m' dst src (i + 1)
  end.

Fixpoint pad_zero (k : nat) (m : mem) (d i : Z) : option mem :=
  match k with
  | O => Some m
  | S k' => m' ← store m (d + i) 0; pad_zero k' m' d (i + 1)
  end.

Definition strncpy (m : mem) (dst src n : Z) : option (Z * mem) :=
  r ← strncpy_loop (Z.to_nat n) m dst src 0;
  m' ← pad_zero (Z.to_nat (n - r.1)) r.2 dst r.1;
  Some (dst, m').

Definition strcat (m : mem) (dst src : Z) : option (Z * mem) :=
  n ← strlen m dst;
  m' ← copy_str (mem_fuel m) m (dst + n) src;
  Some (dst, m').

Fixpoint strchr_loop (fuel : nat) (m : mem) (s c : Z) : option Z :=
  match fuel with
  | O => None
  | S f =>
      x ← load m s;
      if x =? u8 c then Some s
      else if x =? 0 then Some 0
      else strchr_loop f m (s + 1) c
  end.

Definition strchr (m : mem) (s c : Z) : option Z := strchr_loop (mem_fuel m) m s c.

Fixpoint strrchr_loop (fuel : nat) (m : mem) (s c last : Z) : option Z :=
  match fuel with
  | O => None
  | S f =>
      x ← load m s;
      let last := if x =? u8 c then s else last in
      if x =? 0 then Some last else strrchr_loop f m (s + 1) c last
  end.

Definition strrchr (m : mem) (s c : Z) : option Z := strrchr_loop (mem_fuel m) m s c 0.

(** ** Reference definitions on lists *)

(** Difference at the first position where two byte lists differ, a list that
    ends first being continued by NUL. *)
Fixpoint first_diff (l1 l2 : list Z) : Z :=
  match l1, l2 with
  | [], [] => 0
  | [], y :: _ => 0 - y
  | x :: _, [] => x
  | x :: l1', y :: l2' => if x =? y then first_diff l1' l2' else x - y
  end.

(** Strict lexicographic order on byte lists. *)
Fixpoint lex_lt (l1 l2 : list Z) : Prop :=
  match l1, l2 with
  | _, [] => False
  | [], _ :: _ => True
  | x :: l1', y :: l2' => x < y \/ x = y /\ lex_lt l1' l2'
  end.

(** Index of the first or last element satisfying a test. *)
Fixpoint index_of (f : Z -> bool) (l : list Z) : option nat :=
  match l with
  | [] => None
  | x :: l' => if f x then Some O else S <$> index_of f l'
  end.

Fixpoint last_index_of (f : Z -> bool) (l : list Z) : option nat :=
  match l with
  | [] => None
  | x :: l' =>
      match last_index_of f l' with
      | Some i => Some (S i)
      | None => if f x then Some O else None
      end
  end.

(** An optional offset from a base address, NULL when there is none. *)
Definition ptr_at (a : Z) (o : option nat) : Z :=
  match o with
  | Some i => a + Z.of_nat i
  | None => 0
  end.

(** ** Copying *)

Lemma copy_up_spec l : forall m d s i,
  bytes_at m (s + i) l -> mapped m (d + i) (len l) ->
  d <= s \/ s + i + len l <= d + i ->
  copy_up (length l) m d s i = Some (write_bytes m (d + i) l).
Proof.
  induction l as [|c l IH]; intros m d s i Hs Hd Hov; simpl in *; [done|].
  destruct Hs as [Hc Hs]. unfold load. rewrite Hc. simpl.
  rewrite (store_at _ _ _ _ _ Hd) by lia. simpl.
  replace (d + i + 1) with (d + (i + 1)) by lia. destruct (decide (d = s)) as [->|Hne].
  - rewrite insert_id by done. apply IH.
    + by rewrite Z.add_assoc.
    + eapply mapped_sub; [done|lia..].
    + lia.
  - apply IH.
    + rewrite Z.add_assoc. apply bytes_at_insert_disjoint; [lia|done].
    + apply mapped_insert. eapply mapped_sub; [done|lia..].
    + lia.
Qed.

Lemma copy_down_spec l : forall m d s,
  bytes_at m s l -> mapped m d (len l) -> s <= d ->
  copy_down (length l) m d s = Some (write_bytes m d l).
Proof.
  induction l as [|c l IH] using rev_ind; intros m d s Hs Hd Hle; [done|].
  rewrite length_app in *. simpl in *. rewrite Nat.add_1_r in *. simpl.
  apply bytes_at_app in Hs as [Hs [Hc _]]. unfold load. rewrite Hc. simpl.
  rewrite (store_at _ _ _ _ _ Hd) by lia. simpl. rewrite IH.
  - rewrite write_bytes_app. simpl. f_equal. apply write_bytes_insert_comm. lia.
  - apply bytes_at_insert_disjoint; [lia|done].
  - apply mapped_insert. eapply mapped_le; [done|lia].
  - done.
Qed.

Lemma memcpy_spec m d s l :
  bytes_at m s l -> mapped m d (len l) -> d <= s \/ s + len l <= d ->
  memcpy m d s (len l) = Some (d, write_bytes m d l).
Proof.
  intros Hs Hd Hov. unfold memcpy. rewrite Nat2Z.id, copy_up_spec; rewrite ?Z.add_0_r; auto.
Qed.

(** C24. memmove copies correctly whatever the overlap of the two buffers. *)
Theorem memmove_correct m d s l :
  bytes_at m s l -> mapped m d (len l) ->
  memmove m d s (len l) = Some (d, write_bytes m d l).
Proof.
  intros Hs Hd. unfold memmove. rewrite Nat2Z.id.
  destruct (d =? s) eqn:E1; [|destruct (d <? s) eqn:E2].
  - apply Z.eqb_eq in E1 as ->. by rewrite write_bytes_id.
  - rewrite copy_up_spec; rewrite ?Z.add_0_r; auto. lia.
  - rewrite copy_down_spec; auto. lia.
Qed.

Lemma set_loop_spec k : forall m d c i,
  mapped m (d + i) (Z.of_nat k) ->
  set_loop k m d c i = Some (write_bytes m (d + i) (replicate k (u8 c))).
Proof.
  induction k as [|k IH]; intros m d c i Hd; [done|]. cbn [set_loop replicate write_bytes].
  rewrite (store_at _ _ _ _ _ Hd) by lia. obind.
  replace (d + i + 1) with (d + (i + 1)) by lia. apply IH.
  apply mapped_insert. eapply mapped_sub; [done|lia..].
Qed.

Lemma memset_spec m d c n :
  0 <= n -> mapped m d n ->
  memset m d c n = Some (d, write_bytes m d (replicate (Z.to_nat n) (u8 c))).
Proof.
  intros Hn Hd. unfold memset. rewrite set_loop_spec, Z.add_0_r; [done|].
  by rewrite Z.add_0_r, Z2Nat.id.
Qed.

(** ** Comparison *)

Lemma memcmp_loop_spec l1 : forall l2 m a b i,
  length l1 = length l2 -> bytes_at m (a + i) l1 -> bytes_at m (b + i) l2 ->
  memcmp_loop (length l1) m a b i = Some (first_diff l1 l2).
Proof.
  induction l1 as [|x l1 IH]; intros [|y l2] m a b i Hl H1 H2; simplify_eq/=; [done|].
  destruct H1 as [Hx H1], H2 as [Hy H2]. unfold load. rewrite Hx, Hy. simpl.
  destruct (x =? y); simpl; [|done].
  apply IH; [done|by rewrite Z.add_assoc..].
Qed.

Lemma strcmp_loop_spec l1 : forall l2 m a b fuel,
  cstr_at m a l1 -> cstr_at m b l2 -> (length l1 < fuel)%nat ->
  strcmp_loop fuel m a b = Some (first_diff l1 l2).
Proof.
  induction l1 as [|x l1 IH]; intros l2 m a b [|fuel] H1 H2 Hf; simpl in Hf; try lia; simpl.
  - apply cstr_at_nil in H1. unfold load. rewrite H1. simpl. destruct l2 as [|y l2].
    + apply cstr_at_nil in H2. by rewrite H2.
    + apply cstr_at_cons in H2 as [-> _]. done.
  - apply cstr_at_cons in H1 as (Hx & Hnz & H1). unfold load, nonzero_byte in *. rewrite Hx. simpl.
    bool_if. destruct l2 as [|y l2].
    + apply cstr_at_nil in H2. rewrite H2. simpl. bool_if. f_equal. lia.
    + apply cstr_at_cons in H2 as (Hy & _ & H2). rewrite Hy. simpl.
      destruct (x =? y); [|done]. apply IH; auto. lia.
Qed.

Lemma strcmp_spec m a b l1 l2 :
  cstr_at m a l1 -> cstr_at m b l2 -> strcmp m a b = Some (first_diff l1 l2).
Proof.
  intros H1 H2. apply strcmp_loop_spec; auto. apply cstr_at_fuel in H1. lia.
Qed.

Lemma first_diff_zero l1 l2 :
  Forall nonzero_byte l1 -> Forall nonzero_byte l2 -> first_diff l1 l2 = 0 <-> l1 = l2.
Proof.
  intros H1. revert l2. induction H1 as [|x l1 Hx H1 IH]; intros [|y l2] H2; simpl; try done.
  - inversion H2; subst. unfold nonzero_byte in *. split; [lia|done].
  - unfold nonzero_byte in *. split; [lia|done].
  - inversion H2; subst. destruct (x =? y) eqn:E.
    + rewrite IH by done. split; [intros ->; f_equal; lia|by intros [= _ ->]].
    + split; [lia|]. intros [= -> ->]. lia.
Qed.

Lemma first_diff_neg l1 l2 :
  Forall nonzero_byte l1 -> Forall nonzero_byte l2 -> first_diff l1 l2 < 0 <-> lex_lt l1 l2.
Proof.
  intros H1. revert l2. induction H1 as [|x l1 Hx H1 IH]; intros [|y l2] H2; simpl; try lia.
  - inversion H2; subst. unfold nonzero_byte in *. split; [done|lia].
  - unfold nonzero_byte in *. lia.
  - inversion H2; subst. destruct (x =? y) eqn:E.
    + rewrite IH by done. split; [intros; right; split; [lia|done]|intros [|[]]; [lia|done]].
    + lia.
Qed.

(** strcmp decides equality and the lexicographic order of the two strings. *)
Theorem strcmp_order m a b l1 l2 :
  cstr_at m a l1 -> cstr_at m b l2 ->
  exists r, strcmp m a b = Some r /\ (r = 0 <-> l1 = l2) /\ (r < 0 <-> lex_lt l1 l2).
Proof.
  intros H1 H2. exists (first_diff l1 l2). split; [by apply strcmp_spec|].
  destruct H1, H2. split; [by apply first_diff_zero|by apply first_diff_neg].
Qed.

Lemma strncmp_loop_spec k : forall l1 l2 m a b i,
  cstr_at m (a + i) l1 -> cstr_at m (b + i) l2 ->
  strncmp_loop k m a b i = Some (first_diff (take k l1) (take k l2)).
Proof.
  induction k as [|k IH]; intros l1 l2 m a b i H1 H2; [by rewrite !take_0|]. cbn [strncmp_loop].
  destruct l1 as [|x l1]; [apply cstr_at_nil in H1|apply cstr_at_cons in H1 as (Hx & Hnx & H1)];
    (destruct l2 as [|y l2]; [apply cstr_at_nil in H2|apply cstr_at_cons in H2 as (Hy & Hny & H2)]);
    unfold load, nonzero_byte in *.
  - rewrite H1, H2. done.
  - rewrite H1, Hy. obind. by zbool.
  - rewrite Hx, H2. obind. zbool. cbn. f_equal. lia.
  - rewrite Hx, Hy. simpl. destruct (x =? y) eqn:E; simpl; [|done]. bool_if.
    apply IH; by rewrite Z.add_assoc.
Qed.

Lemma take_min_fuel {A} (l : list A) (n f : nat) : (length l <= f)%nat -> take (Nat.min n f) l = take n l.
Proof.
  intros H. destruct (decide (n <= f)%nat).
  - by rewrite Nat.min_l.
  - rewrite Nat.min_r by lia. by rewrite !take_ge by lia.
Qed.

Lemma strncmp_spec m a b l1 l2 n :
  cstr_at m a l1 -> cstr_at m b l2 ->
  strncmp m a b n = Some (first_diff (take (Z.to_nat n) l1) (take (Z.to_nat n) l2)).
Proof.
  intros H1 H2. unfold strncmp.
  rewrite (strncmp_loop_spec _ l1 l2) by (by rewrite Z.add_0_r).
  apply cstr_at_fuel in H1, H2. by rewrite !take_min_fuel by lia.
Qed.

(** ** Strings *)

Lemma strlen_loop_spec l : forall m s n fuel,
  cstr_at m (s + n) l -> (length l < fuel)%nat ->
  strlen_loop fuel m s n = Some (n + len l).
Proof.
  induction l as [|c l IH]; intros m s n [|fuel] H Hf; simpl in Hf; try lia; cbn [strlen_loop].
  - apply cstr_at_nil in H. unfold load. rewrite H. simpl. f_equal. lia.
  - apply cstr_at_cons in H as (Hc & Hnz & H). unfold load, nonzero_byte in *. rewrite Hc. simpl.
    bool_if. rewrite IH; [f_equal; lia|by rewrite Z.add_assoc|lia].
Qed.

Lemma strlen_spec m s l : cstr_at m s l -> strlen m s = Some (len l).
Proof.
  intros H. unfold strlen. rewrite (strlen_loop_spec l); [done|by rewrite Z.add_0_r|].
  apply cstr_at_fuel in H. lia.
Qed.

Lemma copy_str_spec l : forall m d s fuel,
  cstr_at m s l -> mapped m d (len l + 1) -> d + len l + 1 <= s \/ s + len l + 1 <= d ->
  (length l < fuel)%nat ->
  copy_str fuel m d s = Some (write_bytes m d (l ++ [0])).
Proof.
  induction l as [|c l IH]; intros m d s [|fuel] H Hd Hov Hf; simpl in Hf, Hd, Hov; try lia; simpl.
  - apply cstr_at_nil in H. unfold load. rewrite H. simpl.
    by rewrite (store_at _ _ _ _ _ Hd) by lia.
  - apply cstr_at_cons in H as (Hc & Hnz & H). unfold load, nonzero_byte in *. rewrite Hc. simpl.
    rewrite (store_at _ _ _ _ _ Hd) by lia. simpl. bool_if. apply IH; [|..|lia].
    + apply (cstr_at_write_disjoint m d [c]); [simpl; lia|done].
    + apply mapped_insert. eapply mapped_sub; [done|lia..].
    + lia.
Qed.

Lemma strcpy_spec m d s l :
  cstr_at m s l -> mapped m d (len l + 1) -> d + len l + 1 <= s \/ s + len l + 1 <= d ->
  strcpy m d s = Some (d, write_bytes m d (l ++ [0])).
Proof.
  intros H Hd Hov. unfold strcpy. rewrite (copy_str_spec l); auto.
  apply cstr_at_fuel in H. lia.
Qed.

(** strcat leaves the concatenation of the two strings at [dst]. *)
Theorem strcat_concat m d s l1 l2 :
  cstr_at m d l1 -> cstr_at m s l2 -> mapped m d (len l1 + len l2 + 1) ->
  d + len l1 + len l2 + 1 <= s \/ s + len l2 + 1 <= d + len l1 ->
  exists m', strcat m d s = Some (d, m') /\ cstr_at m' d (l1 ++ l2) /\
    forall k, k < d + len l1 \/ d + len l1 + len l2 < k -> m' !! k = m !! k.
Proof.
  intros H1 H2 Hd Hov. exists (write_bytes m (d + len l1) (l2 ++ [0])).
  unfold strcat. rewrite (strlen_spec _ _ _ H1). obind.
  rewrite (copy_str_spec l2); [|done|eapply mapped_sub; [done|lia..]|lia|].
  2:{ apply cstr_at_fuel in H2. lia. }
  destruct H1 as [H1 Hz1], H2 as [H2 Hz2].
  split; [done|]. split; [split|].
  - rewrite <- app_assoc, bytes_at_app. split; [|apply bytes_at_write].
    apply bytes_at_app in H1 as [H1 _]. apply bytes_at_write_disjoint; [lia|done].
  - by apply Forall_app.
  - intros k Hk. apply write_bytes_out. rewrite length_app. simpl. lia.
Qed.

Lemma strncpy_loop_spec k : forall l m d s i,
  cstr_at m (s + i) l -> mapped m (d + i) (Z.of_nat k) ->
  d + i + Z.of_nat k <= s + i \/ s + i + len l + 1 <= d + i ->
  strncpy_loop k m d s i =
    Some (i + len (take k l), write_bytes m (d + i) (take k l)).
Proof.
  induction k as [|k IH]; intros l m d s i H Hd Hov; cbn [strncpy_loop].
  { rewrite take_0. simpl. by rewrite Z.add_0_r. }
  destruct l as [|c l].
  - apply cstr_at_nil in H. unfold load. rewrite H. simpl. by rewrite Z.add_0_r.
  - apply cstr_at_cons in H as (Hc & Hnz & H). unfold load, nonzero_byte in *. rewrite Hc. simpl in *.
    bool_if. rewrite (store_at _ _ _ _ _ Hd) by lia. simpl. rewrite (IH l).
    + do 2 f_equal; [lia|]. by rewrite Z.add_assoc.
    + rewrite Z.add_assoc. apply (cstr_at_write_disjoint m (d + i) [c]); [simpl; lia|done].
    + apply mapped_insert. eapply mapped_sub; [done|lia..].
    + lia.
Qed.

Lemma pad_zero_spec k : forall m d i,
  mapped m (d + i) (Z.of_nat k) ->
  pad_zero k m d i = Some (write_bytes m (d + i) (replicate k 0)).
Proof.
  induction k as [|k IH]; intros m d i Hd; [done|]. cbn [pad_zero replicate write_bytes].
  rewrite (store_at _ _ _ _ _ Hd) by lia. obind.
  replace (d + i + 1) with (d + (i + 1)) by lia. apply IH.
  apply mapped_insert. eapply mapped_sub; [done|lia..].
Qed.

(** strncpy writes exactly [n] bytes: the string cut to [n], NUL padded. *)
Theorem strncpy_exact m d s l n :
  0 <= n -> cstr_at m s l -> mapped m d n -> d + n <= s \/ s + len l + 1 <= d ->
  strncpy m d s n =
    Some (d, write_bytes m d (take (Z.to_nat n) l ++ replicate (Z.to_nat n - length l) 0)).
Proof.
  intros Hn H Hd Hov. unfold strncpy.
  rewrite (strncpy_loop_spec _ l); rewrite ?Z.add_0_r; [|done|by rewrite Z2Nat.id|lia].
  cbn -[write_bytes take replicate]. rewrite length_take in *.
  rewrite pad_zero_spec.
  - rewrite write_bytes_app. cbn -[write_bytes take replicate]. rewrite length_take.
    do 3 f_equal. f_equal. lia.
  - apply mapped_write. eapply mapped_sub; [done|lia..].
Qed.

(** ** Searching *)

Lemma strchr_loop_spec l : forall m s c fuel,
  cstr_at m s l -> (length l < fuel)%nat ->
  strchr_loop fuel m s c = Some (ptr_at s (index_of (fun x => x =? u8 c) (l ++ [0]))).
Proof.
  induction l as [|x l IH]; intros m s c [|fuel] H Hf; simpl in Hf; try lia;
    cbn [strchr_loop strrchr_loop index_of last_index_of app].
  - apply cstr_at_nil in H. unfold load. rewrite H. obind.
    destruct (0 =? u8 c); simpl; [f_equal; lia|done].
  - apply cstr_at_cons in H as (Hc & Hnz & H). unfold load, nonzero_byte in *. rewrite Hc.
    obind. destruct (x =? u8 c); simpl; [f_equal; lia|]. bool_if.
    rewrite IH by (auto; lia). destruct (index_of _ (l ++ [0])); simpl; [f_equal; lia|done].
Qed.

(** strchr returns the first occurrence, the terminator included. *)
Theorem strchr_first m s c l :
  cstr_at m s l -> strchr m s c = Some (ptr_at s (index_of (fun x => x =? u8 c) (l ++ [0]))).
Proof. intros H. apply strchr_loop_spec; [done|]. apply cstr_at_fuel in H. lia. Qed.

Lemma strrchr_loop_spec l : forall m s c last fuel,
  cstr_at m s l -> (length l < fuel)%nat ->
  strrchr_loop fuel m s c last =
    Some (match last_index_of (fun x => x =? u8 c) (l ++ [0]) with
          | Some i => s + Z.of_nat i
          | None => last
          end).
Proof.
  induction l as [|x l IH]; intros m s c last [|fuel] H Hf; simpl in Hf; try lia;
    cbn [strchr_loop strrchr_loop index_of last_index_of app].
  - apply cstr_at_nil in H. unfold load. rewrite H. obind.
    destruct (0 =? u8 c); simpl; [f_equal; lia|done].
  - apply cstr_at_cons in H as (Hc & Hnz & H). unfold load, nonzero_byte in *. rewrite Hc.
    obind. bool_if. rewrite IH by (auto; lia).
    destruct (last_index_of _ (l ++ [0])); [f_equal; lia|].
    destruct (x =? u8 c); simpl; [f_equal; lia|done].
Qed.

Lemma strrchr_spec m s c l :
  cstr_at m s l -> strrchr m s c = Some (ptr_at s (last_index_of (fun x => x =? u8 c) (l ++ [0]))).
Proof.
  intros H. unfold strrchr. rewrite (strrchr_loop_spec l); [|done|].
  - by destruct (last_index_of _ _).
  - apply cstr_at_fuel in H. lia.
Qed.

(** ** Instances *)

(** Moving "abcd" one byte up over itself. *)
Lemma memmove_correct_witness :
  memmove (mem_of 100 (str "abcdef")) 101 100 4
  = Some (101, write_bytes (mem_of 100 (str "abcdef")) 101 (str "abcd")).
Proof.
  apply (memmove_correct (mem_of 100 (str "abcdef")) 101 100 (str "abcd")).
  - apply bytes_atb_sound. vm_compute. reflexivity.
  - apply (bytes_at_mapped _ 101 (str "bcde")), bytes_atb_sound. vm_compute. reflexivity.
Defined.

Lemma strcmp_order_witness :
  exists r, strcmp (mem_of 100 (str "abd" ++ [0] ++ str "abc" ++ [0])) 104 100 = Some r /\
    (r = 0 <-> str "abc" = str "abd") /\ (r < 0 <-> lex_lt (str "abc") (str "abd")).
Proof.
  apply (strcmp_order (mem_of 100 (str "abd" ++ [0] ++ str "abc" ++ [0])) 104 100).
  - apply cstr_atb_sound. vm_compute. reflexivity.
  - apply cstr_atb_sound. vm_compute. reflexivity.
Defined.
