(* ===== verification/Digits.v ===== *)
(** * Positional digits

    The loop [do { d[n++] = v % base; v /= base; } while (v)] occurs in
    strerror, strsignal, the printf engine and strftime.  [digits_rev] is that
    loop, least significant digit first; 64 rounds are enough for any 64-bit
    value in a base of at least 2. *)

From S2P Require Import Prelude Mem.

Fixpoint digits_loop (fuel : nat) (base v : Z) : list Z :=
  match fuel with
  | O => []
  | S f => (v mod base) :: (if v / base =? 0 then [] else digits_loop f base (v / base))
  end.

Definition digits_rev (base v : Z) : list Z := digits_loop 64 base v.

(** Value of a digit list, least significant first. *)
Fixpoint value_rev (base : Z) (l : list Z) : Z :=
  match l with
  | [] => 0
  | d :: l' => d + base * value_rev base l'
  end.

(** Value of a digit list, most significant first. *)
Definition value (base : Z) (l : list Z) : Z := foldl (fun a d => a * base + d) 0 l.

(** The decimal text of a non-negative number. *)
Definition decimal (v : Z) : list Z := rev (map (fun d => chr "0" + d) (digits_rev 10 v)).

(** ** Lemmas *)

Lemma digits_loop_value fuel : forall base v,
  2 <= base -> 0 <= v < base ^ Z.of_nat fuel -> value_rev base (digits_loop fuel base v) = v.
Proof.
  induction fuel as [|f IH]; intros base v Hb Hv; cbn [digits_loop value_rev].
  - simpl in Hv. lia.
  - rewrite Nat2Z.inj_succ, Z.pow_succ_r in Hv by lia.
    pose proof (Z.div_mod v base ltac:(lia)). destruct (v / base =? 0) eqn:E; cbn [value_rev].
    + apply Z.eqb_eq in E. lia.
    + rewrite IH; [lia|lia|]. split; [apply Z.div_pos; lia|].
      apply Z.div_lt_upper_bound; lia.
Qed.

Lemma pow_fuel base v : 2 <= base -> 0 <= v < 2 ^ 64 -> 0 <= v < base ^ Z.of_nat 64.
Proof.
  intros Hb Hv. split; [lia|]. apply Z.lt_le_trans with (2 ^ 64); [lia|].
  apply Z.pow_le_mono_l. lia.
Qed.

Lemma digits_rev_value base v :
  2 <= base -> 0 <= v < 2 ^ 64 -> value_rev base (digits_rev base v) = v.
Proof. intros. by apply digits_loop_value, pow_fuel. Qed.

Lemma digits_loop_range fuel : forall base v,
  2 <= base -> Forall (fun d => 0 <= d < base) (digits_loop fuel base v).
Proof.
  induction fuel as [|f IH]; intros base v Hb; simpl; constructor.
  - apply Z.mod_pos_bound. lia.
  - destruct (v / base =? 0); auto.
Qed.

Lemma digits_rev_range base v : 2 <= base -> Forall (fun d => 0 <= d < base) (digits_rev base v).
Proof. apply digits_loop_range. Qed.

(** At most [n] digits when the value is below [base ^ n]. *)
Lemma digits_loop_length fuel : forall base v (n : nat),
  2 <= base -> (1 <= n)%nat -> 0 <= v < base ^ Z.of_nat n ->
  (length (digits_loop fuel base v) <= n)%nat.
Proof.
  induction fuel as [|f IH]; intros base v n Hb Hn Hv; simpl; [lia|].
  destruct (v / base =? 0) eqn:E; simpl; [lia|].
  destruct n as [|n]; [lia|]. rewrite Nat2Z.inj_succ, Z.pow_succ_r in Hv by lia.
  assert (Hd : 0 <= v / base < base ^ Z.of_nat n).
  { split; [apply Z.div_pos; lia|apply Z.div_lt_upper_bound; lia]. }
  destruct n as [|n]; [simpl in Hd; lia|]. apply le_n_S, IH; [done|lia|done].
Qed.

Lemma digits_rev_length base v (n : nat) :
  2 <= base -> (1 <= n)%nat -> 0 <= v < base ^ Z.of_nat n ->
  (1 <= length (digits_rev base v) <= n)%nat.
Proof.
  intros. split; [unfold digits_rev; cbn [digits_loop length]; lia|].
  by apply digits_loop_length.
Qed.

(** No leading zero. *)
Lemma digits_loop_last fuel : forall base v,
  2 <= base -> 0 < v < base ^ Z.of_nat fuel ->
  exists d, last (digits_loop fuel base v) = Some d /\ 0 < d.
Proof.
  induction fuel as [|f IH]; intros base v Hb Hv; [simpl in Hv; lia|].
  rewrite Nat2Z.inj_succ, Z.pow_succ_r in Hv by lia. cbn [digits_loop].
  pose proof (Z.div_mod v base ltac:(lia)).
  pose proof (Z.mod_pos_bound v base ltac:(lia)). destruct (v / base =? 0) eqn:E.
  - exists (v mod base). split; [done|]. apply Z.eqb_eq in E. lia.
  - destruct (IH base (v / base) Hb) as (d & Hd & Hp).
    + split; [|apply Z.div_lt_upper_bound; lia].
      pose proof (Z.div_pos v base ltac:(lia) ltac:(lia)). lia.
    + exists d. split; [|done]. rewrite last_cons, Hd. done.
Qed.

Lemma value_rev_app base l1 l2 :
  0 <= base -> value_rev base (l1 ++ l2) = value_rev base l1 + base ^ len l1 * value_rev base l2.
Proof.
  intros Hb. induction l1 as [|d l1 IH]; simpl; [lia|].
  rewrite IH, Nat2Z.inj_succ, Z.pow_succ_r by lia. lia.
Qed.

Lemma value_snoc base l d : value base (l ++ [d]) = value base l * base + d.
Proof. unfold value. by rewrite foldl_app. Qed.

Lemma value_of_rev base l : value base (rev l) = value_rev base l.
Proof.
  induction l as [|d l IH]; simpl; [done|]. rewrite value_snoc, IH. lia.
Qed.

Lemma value_nonneg base l : 0 <= base -> Forall (fun d => 0 <= d < base) l -> 0 <= value_rev base l.
Proof. intros Hb H. induction H; simpl; nia. Qed.

Lemma value_rev_bound base l :
  0 < base -> Forall (fun d => 0 <= d < base) l -> 0 <= value_rev base l < base ^ len l.
Proof.
  intros Hb H. induction H as [|d l Hd H IH]; simpl; [lia|].
  rewrite Nat2Z.inj_succ, Z.pow_succ_r by lia. nia.
Qed.

(** [decimal] consists of digits and denotes its argument. *)
Lemma decimal_value v :
  0 <= v < 2 ^ 64 -> value 10 (map (fun c => c - chr "0") (decimal v)) = v.
Proof.
  intros Hv. unfold decimal. rewrite map_rev, map_map, value_of_rev.
  rewrite (map_ext _ (fun d => d)) by (intros; lia). rewrite map_id.
  apply digits_rev_value; lia.
Qed.

Lemma decimal_digits v : Forall (fun c => chr "0" <= c <= chr "9") (decimal v).
Proof.
  unfold decimal. apply Forall_rev, Forall_map.
  eapply Forall_impl; [apply (digits_rev_range 10); lia|]. simpl. intros; lia.
Qed.

Lemma decimal_length v (n : nat) :
  (1 <= n)%nat -> 0 <= v < 10 ^ Z.of_nat n -> (1 <= length (decimal v) <= n)%nat.
Proof.
  intros. unfold decimal. rewrite length_rev, length_map. apply digits_rev_length; lia.
Qed.

Lemma value_app base l1 l2 : 0 <= base -> value base (l1 ++ l2) = value base l1 * base ^ len l2 + value base l2.
Proof.
  intros Hb. rewrite <- (rev_involutive l1), <- (rev_involutive l2), <- rev_app_distr, !value_of_rev.
  rewrite value_rev_app by done. rewrite !length_rev. lia.
Qed.

Lemma value_cons base d l : 0 <= base -> value base (d :: l) = d * base ^ len l + value base l.
Proof. intros Hb. change (d :: l) with ([d] ++ l). rewrite value_app by done. unfold value at 1. simpl. lia. Qed.

Lemma value_bound base l : 0 < base -> Forall (fun d => 0 <= d < base) l -> 0 <= value base l < base ^ len l.
Proof.
  intros Hb H. rewrite <- (rev_involutive l), value_of_rev, length_rev. apply value_rev_bound; [done|]. by apply Forall_rev.
Qed.

Lemma value_rev_zeros base k : value_rev base (replicate k 0) = 0.
Proof. induction k as [|k IH]; simpl; [done|]. rewrite IH. lia. Qed.

Lemma value_zeros base k : value base (replicate k 0) = 0.
Proof. unfold value. induction k as [|k IH]; [done|]. exact IH. Qed.
