(* ===== verification/Alloc.v ===== *)
(** * The allocator interface

    What [strdup], [setenv] and the other clients of malloc rely on.  [hmem h]
    is the memory the program may touch in heap state [h]: its static data
    and the payloads of the live blocks, which [hblocks h] lists.  The laws
    say that a successful malloc adds a fresh block to that memory and changes
    nothing else, and that free takes away exactly the block it is given.
    [MallocHeap] provides the instance for malloc.c. *)

From S2P Require Import Prelude Mem.

Class Allocator (H : Type) := {
  hmem : H -> mem;                 (** the memory visible to the program *)
  hblocks : H -> list (Z * Z);     (** the live blocks: address and size *)
  hwrite : H -> mem -> H;          (** the program writes to its memory *)
  hmalloc : H -> Z -> Z * H;
  hfree : H -> Z -> H;
}.

(** Requests the allocator serves correctly: a request of 2^63 bytes or more
    would reach sbrk as a negative increment. *)
Definition request (n : Z) : Prop := 0 <= n /\ n + 64 < 2 ^ 63.

(** The effect of a malloc of [n] bytes that returned [p]: NULL and no visible change, or a
    block of at least [n] bytes where nothing was visible before. *)
Definition alloc_effect `{Allocator H} (n p : Z) (h h' : H) : Prop :=
  (p = 0 /\ hmem h' = hmem h /\ hblocks h' = hblocks h) \/
  (p <> 0 /\ exists n', n <= n' /\ hblocks h' ≡ₚ (p, n') :: hblocks h /\ mapped (hmem h') p n' /\
    (forall k, p <= k < p + n' -> hmem h !! k = None) /\
    (forall k, k < p \/ p + n' <= k -> hmem h' !! k = hmem h !! k)).

(** The effect of freeing the block [(p, n)]. *)
Definition free_effect `{Allocator H} (p n : Z) (h h' : H) : Prop :=
  hblocks h ≡ₚ (p, n) :: hblocks h' /\
  (forall k, p <= k < p + n -> hmem h' !! k = None) /\
  (forall k, k < p \/ p + n <= k -> hmem h' !! k = hmem h !! k).

Class AllocatorLaws (H : Type) `{!Allocator H} := {
  hinv : H -> Prop;
  hblocks_mapped h p n : hinv h -> (p, n) ∈ hblocks h -> p <> 0 /\ mapped (hmem h) p n;
  hblocks_range h p n : hinv h -> (p, n) ∈ hblocks h -> 0 < p /\ p + n <= 2 ^ 47; (** user space *)
  hwrite_inv h m : hinv h -> dom m = dom (hmem h) -> hinv (hwrite h m);
  hwrite_mem h m : hinv h -> dom m = dom (hmem h) -> hmem (hwrite h m) = m;
  hwrite_blocks h m : hinv h -> dom m = dom (hmem h) -> hblocks (hwrite h m) = hblocks h;
  hmalloc_inv h n p h' : hinv h -> request n -> hmalloc h n = (p, h') -> hinv h';
  hmalloc_effect h n p h' : hinv h -> request n -> hmalloc h n = (p, h') -> alloc_effect n p h h';
  hfree_null h : hinv h -> hfree h 0 = h;
  hfree_inv h p n : hinv h -> (p, n) ∈ hblocks h -> hinv (hfree h p);
  hfree_effect h p n : hinv h -> (p, n) ∈ hblocks h -> free_effect p n h (hfree h p);
}.

(** ** Consequences the clients use *)

Lemma bytes_at_subseteq (m m' : mem) a l : m ⊆ m' -> bytes_at m a l -> bytes_at m' a l.
Proof.
  intros Hs. rewrite !bytes_at_lookup. intros H i v Hi. eapply lookup_weaken; eauto.
Qed.

Lemma cstr_at_subseteq (m m' : mem) a s : m ⊆ m' -> cstr_at m a s -> cstr_at m' a s.
Proof. intros Hs [H1 H2]. split; [by eapply bytes_at_subseteq|done]. Qed.

(** A fresh block is disjoint from every mapped range. *)
Lemma fresh_disjoint (m : mem) p n a k :
  (forall j, p <= j < p + n -> m !! j = None) -> mapped m a k -> 0 < n -> 0 < k ->
  p + n <= a \/ a + k <= p.
Proof.
  intros Hf Hm Hn Hk. destruct (decide (p + n <= a \/ a + k <= p)) as [|Hc]; [done|].
  assert (Hov : a <= Z.max a p < a + k) by lia.
  destruct (Hm _ Hov) as [v Hv]. rewrite Hf in Hv by lia. done.
Qed.

(** What a client sees of a successful malloc. *)
Lemma alloc_effect_block `{AllocatorLaws H} (n p : Z) (h h' : H) :
  alloc_effect n p h h' -> p <> 0 ->
  hmem h ⊆ hmem h' /\ mapped (hmem h') p n /\ forall k, p <= k < p + n -> hmem h !! k = None.
Proof.
  intros [[-> _]|(_ & n' & Hn & _ & Hm & Hf & Hs)] Hp; [done|].
  split; [|split; [eapply mapped_le; [done|lia]|intros k Hk; apply Hf; lia]].
  apply map_subseteq_spec. intros k v Hk.
  destruct (decide (p <= k < p + n')) as [Hin|]; [by rewrite Hf in Hk|]. by rewrite Hs by lia.
Qed.
