(* ===== verification/StrFunc.v ===== *)
(** * lib/moqi_libc/src/strfunc.c

    The rest of string.h: bounded and searching variants, tokenising,
    duplication on the heap, and the error and signal texts. *)

From S2P Require Import Prelude Mem CString Digits Alloc.

(** ** Operations *)

Fixpoint skip_str (fuel : nat) (m : mem) (d : Z) : option Z :=
  match fuel with
  | O => None
  | S f => c ← load m d; if c =? 0 then Some d else skip_str f m (d + 1)
  end.

Fixpoint strncat_loop (k : nat) (m : mem) (d src i : Z) : option (Z * mem) :=
  match k with
  | O => Some (i, m)
  | S k' =>
      c ← load m (src + i);
      if c =? 0 then Some (i, m)
      else m' ← store m (d + i) c; strncat_loop k' m' d src (i + 1)
  end.

Definition strncat (m : mem) (dst src n : Z) : option (Z * mem) :=
  d ← skip_str (mem_fuel m) m dst;
  r ← strncat_loop (Z.to_nat n) m d src 0;
  m' ← store r.2 (d + r.1) 0;
  Some (dst, m').

Fixpoint stpcpy_loop (fuel : nat) (m : mem) (dst src : Z) : option (Z * mem) :=
  match fuel with
  | O => None
  | S f =>
      c ← load m src;
      m' ← store m dst c;
      if negb (c =? 0) then stpcpy_loop f m' (dst + 1) (src + 1) else Some (dst, m')
  end.

Definition stpcpy (m : mem) (dst src : Z) : option (Z * mem) :=
  stpcpy_loop (mem_fuel m) m dst src.

Fixpoint strnlen_loop (k : nat) (m : mem) (s i : Z) : option Z :=
  match k with
  | O => Some i
  | S k' => c ← load m (s + i); if c =? 0 then Some i else strnlen_loop k' m s (i + 1)
  end.

Definition strnlen (m : mem) (s n : Z) : option Z :=
  strnlen_loop (Nat.min (Z.to_nat n) (mem_fuel m)) m s 0.

(** The inner loop of strstr: the needle matches at [h], or not. *)
Fixpoint strstr_match (fuel : nat) (m : mem) (h n : Z) : option bool :=
  match fuel with
  | O => None
  | S f =>
      y ← load m n;
      if y =? 0 then Some true
      else
        x ← load m h;
        if x =? y then strstr_match f m (h + 1) (n + 1) else Some false
  end.

Fixpoint strstr_loop (fuel : nat) (m : mem) (haystack needle : Z) : option Z :=
  match fuel with
  | O => None
  | S f =>
      c ← load m haystack;
      if c =? 0 then Some 0
      else
        b ← strstr_match (mem_fuel m) m haystack needle;
        if (b : bool) then Some haystack else strstr_loop f m (haystack + 1) needle
  end.

Definition strstr (m : mem) (haystack needle : Z) : option Z :=
  c ← load m needle;
  if c =? 0 then Some haystack else strstr_loop (mem_fuel m) m haystack needle.

Fixpoint memchr_loop (k : nat) (m : mem) (s c i : Z) : option Z :=
  match k with
  | O => Some 0
  | S k' => x ← load m (s + i); if x =? u8 c then Some (s + i) else memchr_loop k' m s c (i + 1)
  end.

Definition memchr (m : mem) (s c n : Z) : option Z := memchr_loop (Z.to_nat n) m s c 0.

Fixpoint memrchr_loop (k : nat) (m : mem) (s c : Z) : option Z :=
  match k with
  | O => Some 0
  | S k' =>
      x ← load m (s + Z.of_nat k');
      if x =? u8 c then Some (s + Z.of_nat k') else memrchr_loop k' m s c
  end.

Definition memrchr (m : mem) (s c n : Z) : option Z := memrchr_loop (Z.to_nat n) m s c.

Fixpoint in_set_loop (fuel : nat) (m : mem) (c set : Z) : option bool :=
  match fuel with
  | O => None
  | S f =>
      x ← load m set;
      if x =? 0 then Some false
      else if x =? c then Some true
      else in_set_loop f m c (set + 1)
  end.

Definition in_set (m : mem) (c set : Z) : option bool := in_set_loop (mem_fuel m) m c set.

(** strspn and strcspn: the length of the prefix whose membership in the set is [want]. *)
Fixpoint span_loop (fuel : nat) (m : mem) (s set : Z) (want : bool) (n : Z) : option Z :=
  match fuel with
  | O => None
  | S f =>
      c ← load m (s + n);
      if c =? 0 then Some n
      else
        b ← in_set m c set;
        if Bool.eqb b want then span_loop f m s set want (n + 1) else Some n
  end.

Definition strspn (m : mem) (s accept : Z) : option Z := span_loop (mem_fuel m) m s accept true 0.

Definition strcspn (m : mem) (s reject : Z) : option Z := span_loop (mem_fuel m) m s reject false 0.

Definition strpbrk (m : mem) (s accept : Z) : option Z :=
  n ← strcspn m s accept;
  c ← load m (s + n);
  Some (if c =? 0 then 0 else s + n).

Definition lower (c : Z) : Z :=
  if (chr "A" <=? c) && (c <=? chr "Z") then c + (chr "a" - chr "A") else c.

Fixpoint strcasecmp_loop (fuel : nat) (m : mem) (a b : Z) : option Z :=
  match fuel with
  | O => None
  | S f =>
      x ← load m a;
      y ← load m b;
      if negb (x =? 0) && (lower x =? lower y) then strcasecmp_loop f m (a + 1) (b + 1)
      else Some (lower x - lower y)
  end.

Definition strcasecmp (m : mem) (a b : Z) : option Z := strcasecmp_loop (mem_fuel m) m a b.

Fixpoint strncasecmp_loop (k : nat) (m : mem) (a b i : Z) : option Z :=
  match k with
  | O => Some 0
  | S k' =>
      x ← load m (a + i);
      y ← load m (b + i);
      if negb (lower x =? lower y) then Some (lower x - lower y)
      else if lower x =? 0 then Some 0
      else strncasecmp_loop k' m a b (i + 1)
  end.

Definition strncasecmp (m : mem) (a b n : Z) : option Z :=
  strncasecmp_loop (Nat.min (Z.to_nat n) (mem_fuel m)) m a b 0.

Section heap.
Context {H : Type} `{!Allocator H}.

Definition strndup (h : H) (s n : Z) : option (Z * H) :=
  l ← strnlen (hmem h) s n;
  let '(p, h1) := hmalloc h (u64 (l + 1)) in
  if p =? 0 then Some (0, h1)
  else
    r ← memcpy (hmem h1) p s l;
    m' ← store r.2 (p + l) 0;
    Some (p, hwrite h1 m').

Definition strdup (h : H) (s : Z) : option (Z * H) :=
  l ← strlen (hmem h) s;
  let '(p, h1) := hmalloc h (u64 (l + 1)) in
  if p =? 0 then Some (0, h1)
  else
    r ← memcpy (hmem h1) p s (u64 (l + 1));
    Some (p, hwrite h1 r.2).
End heap.

(** strtok_r: the token, the new save pointer and the memory.  [s = 0] continues from [save]. *)
Definition strtok_r (m : mem) (s delim save : Z) : option (Z * Z * mem) :=
  let s := if s =? 0 then save else s in
  n ← strspn m s delim;
  let s := s + n in
  c ← load m s;
  if c =? 0 then Some (0, s, m)
  else
    let token := s in
    n ← strcspn m s delim;
    let s := s + n in
    c ← load m s;
    if c =? 0 then Some (token, s, m)
    else m' ← store m s 0; Some (token, s + 1, m').

(** strtok keeps the save pointer in the static [strtok_state]. *)
Definition strtok (strtok_state : Z) (m : mem) (s delim : Z) : option (Z * Z * mem) :=
  strtok_r m s delim strtok_state.

Fixpoint memmem_match (k : nat) (m : mem) (h n i j : Z) : option bool :=
  match k with
  | O => Some true
  | S k' =>
      x ← load m (h + i + j);
      y ← load m (n + j);
      if x =? y then memmem_match k' m h n i (j + 1) else Some false
  end.

Fixpoint memmem_loop (rounds : nat) (m : mem) (h n needle_len i : Z) : option Z :=
  match rounds with
  | O => Some 0
  | S r =>
      b ← memmem_match (Z.to_nat needle_len) m h n i 0;
      if (b : bool) then Some (h + i) else memmem_loop r m h n needle_len (i + 1)
  end.

(** [i + needle_len <= haystack_len] holds for [haystack_len - needle_len + 1] values of [i]. *)
Definition memmem (m : mem) (haystack haystack_len needle needle_len : Z) : option Z :=
  if needle_len =? 0 then Some haystack
  else if haystack_len <? needle_len then Some 0
  else memmem_loop (Z.to_nat (haystack_len - needle_len + 1)) m haystack needle needle_len 0.

Fixpoint strcasestr_match (fuel : nat) (m : mem) (h n : Z) : option bool :=
  match fuel with
  | O => None
  | S f =>
      y ← load m n;
      if y =? 0 then Some true
      else
        x ← load m h;
        if lower x =? lower y then strcasestr_match f m (h + 1) (n + 1) else Some false
  end.

Fixpoint strcasestr_loop (fuel : nat) (m : mem) (haystack needle : Z) : option Z :=
  match fuel with
  | O => None
  | S f =>
      c ← load m haystack;
      if c =? 0 then Some 0
      else
        b ← strcasestr_match (mem_fuel m) m haystack needle;
        if (b : bool) then Some haystack else strcasestr_loop f m (haystack + 1) needle
  end.

Definition strcasestr (m : mem) (haystack needle : Z) : option Z :=
  c ← load m needle;
  if c =? 0 then Some haystack else strcasestr_loop (mem_fuel m) m haystack needle.

(** The texts of strerror (errno 0..135) and strsignal (signals 0..31); [None] is a NULL entry. *)
Definition error_text : list (option string) :=
  [
    Some "Success"; Some "Operation not permitted"; Some "No such file or directory";
    Some "No such process"; Some "Interrupted system call"; Some "Input/output error";
    Some "No such device or address"; Some "Argument list too long"; Some "Exec format error";
    Some "Bad file descriptor"; Some "No child processes"; Some "Resource temporarily unavailable";
    Some "Cannot allocate memory"; Some "Permission denied"; Some "Bad address";
    Some "Block device required"; Some "Device or resource busy"; Some "File exists";
    Some "Invalid cross-device link"; Some "No such device"; Some "Not a directory";
    Some "Is a directory"; Some "Invalid argument"; Some "Too many open files in system";
    Some "Too many open files"; Some "Inappropriate ioctl for device"; Some "Text file busy";
    Some "File too large"; Some "No space left on device"; Some "Illegal seek";
    Some "Read-only file system"; Some "Too many links"; Some "Broken pipe";
    Some "Numerical argument out of domain"; Some "Numerical result out of range";
    Some "Resource deadlock avoided"; Some "File name too long"; Some "No locks available";
    Some "Function not implemented"; Some "Directory not empty";
    Some "Too many levels of symbolic links"; None; Some "No message of desired type";
    Some "Identifier removed"; Some "Channel number out of range"; Some "Level 2 not synchronized";
    Some "Level 3 halted"; Some "Level 3 reset"; Some "Link number out of range";
    Some "Protocol driver not attached"; Some "No CSI structure available"; Some "Level 2 halted";
    Some "Invalid exchange"; Some "Invalid request descriptor"; Some "Exchange full";
    Some "No anode"; Some "Invalid request code"; Some "Invalid slot"; None;
    Some "Bad font file format"; Some "Device not a stream"; Some "No data available";
    Some "Timer expired"; Some "Out of streams resources"; Some "Machine is not on the network";
    Some "Package not installed"; Some "Object is remote"; Some "Link has been severed";
    Some "Advertise error"; Some "Srmount error"; Some "Communication error on send";
    Some "Protocol error"; Some "Multihop attempted"; Some "RFS specific error"; Some "Bad message";
    Some "Value too large for defined data type"; Some "Name not unique on network";
    Some "File descriptor in bad state"; Some "Remote address changed";
    Some "Can not access a needed shared library"; Some "Accessing a corrupted shared library";
    Some ".lib section in a.out corrupted"; Some "Attempting to link in too many shared libraries";
    Some "Cannot exec a shared library directly";
    Some "Invalid or incomplete multibyte or wide character";
    Some "Interrupted system call should be restarted"; Some "Streams pipe error";
    Some "Too many users"; Some "Socket operation on non-socket";
    Some "Destination address required"; Some "Message too long";
    Some "Protocol wrong type for socket"; Some "Protocol not available";
    Some "Protocol not supported"; Some "Socket type not supported"; Some "Operation not supported";
    Some "Protocol family not supported"; Some "Address family not supported by protocol";
    Some "Address already in use"; Some "Cannot assign requested address"; Some "Network is down";
    Some "Network is unreachable"; Some "Network dropped connection on reset";
    Some "Software caused connection abort"; Some "Connection reset by peer";
    Some "No buffer space available"; Some "Transport endpoint is already connected";
    Some "Transport endpoint is not connected";
    Some "Cannot send after transport endpoint shutdown"; Some "Too many references: cannot splice";
    Some "Connection timed out"; Some "Connection refused"; Some "Host is down";
    Some "No route to host"; Some "Operation already in progress"; Some "Operation now in progress";
    Some "Stale file handle"; Some "Structure needs cleaning"; Some "Not a XENIX named type file";
    Some "No XENIX semaphores available"; Some "Is a named type file"; Some "Remote I/O error";
    Some "Disk quota exceeded"; Some "No medium found"; Some "Wrong medium type";
    Some "Operation canceled"; Some "Required key not available"; Some "Key has expired";
    Some "Key has been revoked"; Some "Key was rejected by service"; Some "Owner died";
    Some "State not recoverable"; Some "Operation not possible due to RF-kill";
    Some "Memory page has hardware error"; Some "Inappropriate file type or format"; None
  ]%string.

Definition signal_text : list (option string) :=
  [
    None; Some "Hangup"; Some "Interrupt"; Some "Quit"; Some "Illegal instruction";
    Some "Trace/breakpoint trap"; Some "Aborted"; Some "Bus error"; Some "Floating point exception";
    Some "Killed"; Some "User defined signal 1"; Some "Segmentation fault";
    Some "User defined signal 2"; Some "Broken pipe"; Some "Alarm clock"; Some "Terminated";
    Some "Stack fault"; Some "Child exited"; Some "Continued"; Some "Stopped (signal)";
    Some "Stopped"; Some "Stopped (tty input)"; Some "Stopped (tty output)";
    Some "Urgent I/O condition"; Some "CPU time limit exceeded"; Some "File size limit exceeded";
    Some "Virtual timer expired"; Some "Profiling timer expired"; Some "Window changed";
    Some "I/O possible"; Some "Power failure"; Some "Bad system call"
  ]%string.

(** [i >= 0 && i < n && table[i]] *)
Definition table_entry (table : list (option string)) (n i : Z) : option string :=
  if (0 <=? i) && (i <? n) then mjoin (table !! Z.to_nat i) else None.

(** What strerror and strsignal leave in their static buffer: the prefix, a sign, the decimal digits. *)
Definition numbered_text (prefix : string) (negative : bool) (v : Z) : list Z :=
  str prefix ++ (if negative then [chr "-"] else []) ++ decimal v.

Definition strerror (errnum : Z) : list Z :=
  match table_entry error_text 136 errnum with
  | Some t => str t
  | None =>
      let v := if errnum <? 0 then u32 (0 - u32 errnum) else u32 errnum in
      numbered_text "Unknown error " (errnum <? 0) v
  end.

Definition strsignal (sig : Z) : list Z :=
  match table_entry signal_text 32 sig with
  | Some t => str t
  | None =>
      let rt := (34 <=? sig) && (sig <=? 64) in
      let prefix := if rt then "Real-time signal "%string else "Unknown signal "%string in
      let value := if rt then sig - 34 else sig in
      let v := if value <? 0 then u64 (0 - u64 value) else u64 value in
      numbered_text prefix (value <? 0) v
  end.

(** ** Searching *)

Fixpoint prefixb (n h : list Z) : bool :=
  match n, h with
  | [], _ => true
  | _ :: _, [] => false
  | y :: n', x :: h' => (x =? y) && prefixb n' h'
  end.

(** Offset of the first occurrence of [n] in [h]. *)
Fixpoint find_sub (n h : list Z) : option nat :=
  if prefixb n h then Some O
  else match h with
       | [] => None
       | _ :: h' => S <$> find_sub n h'
       end.

Lemma prefixb_spec n h : prefixb n h = true <-> n `prefix_of` h.
Proof.
  revert h; induction n as [|y n IH]; intros h; simpl.
  - split; [intros _; apply prefix_nil|done].
  - destruct h as [|x h].
    + split; [done|]. by intros ?%prefix_nil_not.
    + rewrite andb_true_iff, IH, Z.eqb_eq. split.
      * intros [-> Hp]. by apply prefix_cons.
      * intros Hp. split; [symmetry; by eapply prefix_cons_inv_1|by eapply prefix_cons_inv_2].
Qed.

Lemma find_sub_Some n h i :
  find_sub n h = Some i ->
  n `prefix_of` drop i h /\ forall j, (j < i)%nat -> ~ n `prefix_of` drop j h.
Proof.
  revert i; induction h as [|x h IH]; intros i; simpl; (destruct (prefixb n _) eqn:E; [intros [= <-]|]).
  1,3: split; [by apply prefixb_spec|intros; lia].
  - done.
  - intros Hf. apply fmap_Some in Hf as (k & Hk & ->). destruct (IH _ Hk) as [Hp Hn].
    split; [done|]. intros [|j] Hj; simpl.
    + rewrite <- prefixb_spec, E. done.
    + apply Hn. lia.
Qed.

Lemma find_sub_None n h : find_sub n h = None -> forall j, ~ n `prefix_of` drop j h.
Proof.
  induction h as [|x h IH]; simpl; (destruct (prefixb n _) eqn:E; [done|]).
  - intros _ j. rewrite drop_nil, <- prefixb_spec, E. done.
  - intros Hf j. apply fmap_None in Hf. destruct j as [|j]; simpl.
    + rewrite <- prefixb_spec, E. done.
    + by apply IH.
Qed.

(** [r] points to the first occurrence of [n] in the bytes [h] stored at [a], or is NULL. *)
Definition first_occurrence (a : Z) (h n : list Z) (r : Z) : Prop :=
  (r = 0 /\ forall j, ~ n `prefix_of` drop j h) \/
  exists i, r = a + Z.of_nat i /\ n `prefix_of` drop i h /\
            forall j, (j < i)%nat -> ~ n `prefix_of` drop j h.

Lemma find_sub_first a h n : first_occurrence a h n (ptr_at a (find_sub n h)).
Proof.
  destruct (find_sub n h) eqn:E.
  - right. exists n0. split; [done|]. by apply find_sub_Some.
  - left. split; [done|]. by apply find_sub_None.
Qed.

Lemma strstr_match_spec ln : forall lh m h n fuel,
  cstr_at m h lh -> cstr_at m n ln -> (length ln < fuel)%nat ->
  strstr_match fuel m h n = Some (prefixb ln lh).
Proof.
  induction ln as [|y ln IH]; intros lh m h n [|fuel] Hh Hn Hf; simpl in Hf; try lia;
    cbn [strstr_match prefixb].
  - apply cstr_at_nil in Hn. unfold load. by rewrite Hn.
  - apply cstr_at_cons in Hn as (Hy & Hny & Hn). unfold load, nonzero_byte in *. rewrite Hy. obind.
    bool_if. destruct lh as [|x lh].
    + apply cstr_at_nil in Hh. rewrite Hh. obind. by bool_if.
    + apply cstr_at_cons in Hh as (Hx & _ & Hh). rewrite Hx. obind.
      destruct (x =? y); simpl; [|done]. apply IH; auto. lia.
Qed.

Lemma strstr_loop_spec lh : forall ln m h n fuel,
  ln <> [] -> cstr_at m h lh -> cstr_at m n ln -> (length lh < fuel)%nat ->
  strstr_loop fuel m h n = Some (ptr_at h (find_sub ln lh)).
Proof.
  induction lh as [|x lh IH]; intros ln m h n [|fuel] Hne Hh Hn Hf; simpl in Hf; try lia;
    cbn [strstr_loop].
  - apply cstr_at_nil in Hh. unfold load. rewrite Hh. by destruct ln.
  - pose proof Hh as Hh'. apply cstr_at_cons in Hh' as (Hx & Hnx & Hh'). unfold load, nonzero_byte in *.
    rewrite Hx. obind. bool_if. rewrite (strstr_match_spec ln (x :: lh)); [|done|done|].
    2:{ apply cstr_at_fuel in Hn. lia. }
    obind. cbn [find_sub]. destruct (prefixb ln (x :: lh)); [simpl; f_equal; lia|].
    rewrite (IH ln) by (auto; lia). destruct (find_sub ln lh); simpl; [f_equal; lia|done].
Qed.

Lemma strstr_spec m h n lh ln :
  cstr_at m h lh -> cstr_at m n ln -> strstr m h n = Some (ptr_at h (find_sub ln lh)).
Proof.
  intros Hh Hn. unfold strstr. destruct ln as [|y ln].
  - apply cstr_at_nil in Hn. unfold load. rewrite Hn. simpl. destruct lh; simpl; f_equal; lia.
  - pose proof Hn as Hn'. apply cstr_at_cons in Hn' as (Hy & Hny & _). unfold load, nonzero_byte in *.
    rewrite Hy. obind. bool_if. apply strstr_loop_spec; auto. apply cstr_at_fuel in Hh. lia.
Qed.

(** C25. strstr finds the leftmost occurrence of the needle, or returns NULL when there is none. *)
Theorem strstr_leftmost m h n lh ln :
  cstr_at m h lh -> cstr_at m n ln ->
  exists r, strstr m h n = Some r /\ first_occurrence h lh ln r.
Proof. intros. eexists. split; [by apply strstr_spec|apply find_sub_first]. Qed.

Lemma lower_pos c : 0 < c -> 0 < lower c.
Proof. unfold lower. bcases. Qed.

Lemma strcasestr_match_spec ln : forall lh m h n fuel,
  cstr_at m h lh -> cstr_at m n ln -> (length ln < fuel)%nat ->
  strcasestr_match fuel m h n = Some (prefixb (map lower ln) (map lower lh)).
Proof.
  induction ln as [|y ln IH]; intros lh m h n [|fuel] Hh Hn Hf; simpl in Hf; try lia;
    cbn [strcasestr_match prefixb map].
  - apply cstr_at_nil in Hn. unfold load. by rewrite Hn.
  - apply cstr_at_cons in Hn as (Hy & Hny & Hn). unfold load, nonzero_byte in *. rewrite Hy. obind.
    bool_if. destruct lh as [|x lh].
    + apply cstr_at_nil in Hh. rewrite Hh. obind. pose proof (lower_pos y).
      change (lower 0) with 0. by bool_if.
    + apply cstr_at_cons in Hh as (Hx & _ & Hh). rewrite Hx. obind. cbn [map].
      destruct (lower x =? lower y); simpl; [|done]. apply IH; auto. lia.
Qed.

Lemma strcasestr_loop_spec lh : forall ln m h n fuel,
  ln <> [] -> cstr_at m h lh -> cstr_at m n ln -> (length lh < fuel)%nat ->
  strcasestr_loop fuel m h n = Some (ptr_at h (find_sub (map lower ln) (map lower lh))).
Proof.
  induction lh as [|x lh IH]; intros ln m h n [|fuel] Hne Hh Hn Hf; simpl in Hf; try lia;
    cbn [strcasestr_loop].
  - apply cstr_at_nil in Hh. unfold load. rewrite Hh. by destruct ln.
  - pose proof Hh as Hh'. apply cstr_at_cons in Hh' as (Hx & Hnx & Hh'). unfold load, nonzero_byte in *.
    rewrite Hx. obind. bool_if. rewrite (strcasestr_match_spec ln (x :: lh)); [|done|done|].
    2:{ apply cstr_at_fuel in Hn. lia. }
    obind. cbn [find_sub map]. destruct (prefixb _ _); [simpl; f_equal; lia|].
    rewrite (IH ln) by (auto; lia).
    destruct (find_sub (map lower ln) (map lower lh)); simpl; [f_equal; lia|done].
Qed.

Lemma memmem_match_spec ln : forall lh m h n i j,
  (length ln <= length lh)%nat ->
  bytes_at m (h + i + j) lh -> bytes_at m (n + j) ln ->
  memmem_match (length ln) m h n i j = Some (prefixb ln lh).
Proof.
  induction ln as [|y ln IH]; intros [|x lh] m h n i j Hl Hh Hn; simpl in Hl; try lia;
    cbn [memmem_match prefixb length bytes_at] in *; try done.
  destruct Hh as [Hx Hh], Hn as [Hy Hn]. unfold load. rewrite Hx, Hy. obind.
  destruct (x =? y); simpl; [|done].
  apply IH; [lia|by rewrite Z.add_assoc..].
Qed.

Lemma find_sub_short n h : (length h < length n)%nat -> find_sub n h = None.
Proof.
  induction h as [|x h IH]; intros Hl; simpl.
  - destruct n; [simpl in Hl; lia|done].
  - destruct (prefixb n (x :: h)) eqn:E.
    + apply prefixb_spec, prefix_length in E. lia.
    + rewrite IH; [done|]. simpl in Hl. lia.
Qed.

Lemma memmem_loop_spec r : forall lh ln m h n i,
  (length lh + 1 = length ln + r)%nat -> bytes_at m (h + i) lh -> bytes_at m n ln ->
  memmem_loop r m h n (len ln) i =
    Some (match find_sub ln lh with Some k => h + i + Z.of_nat k | None => 0 end).
Proof.
  induction r as [|r IH]; intros lh ln m h n i Hl Hh Hn; cbn [memmem_loop].
  - by rewrite find_sub_short by lia.
  - rewrite Nat2Z.id. rewrite (memmem_match_spec ln lh); rewrite ?Z.add_0_r; [|lia|done|done].
    obind. destruct lh as [|x lh]; cbn [find_sub].
    + destruct ln; simpl in *; [f_equal; lia|]. assert (r = 0)%nat as -> by lia. done.
    + destruct (prefixb ln (x :: lh)); [simpl; f_equal; lia|].
      destruct Hh as [_ Hh]. simpl in Hl. rewrite (IH lh); [|lia|by rewrite Z.add_assoc|done].
      destruct (find_sub ln lh); simpl; [f_equal; lia|done].
Qed.

(** memmem: the same for byte ranges that may contain NULs. *)
Theorem memmem_leftmost m h n lh ln :
  bytes_at m h lh -> bytes_at m n ln ->
  exists r, memmem m h (len lh) n (len ln) = Some r /\ first_occurrence h lh ln r.
Proof.
  intros Hh Hn. exists (ptr_at h (find_sub ln lh)). split; [|apply find_sub_first].
  unfold memmem. destruct (len ln =? 0) eqn:E1; [|destruct (len lh <? len ln) eqn:E2].
  - destruct ln; [|simpl in E1; lia]. destruct lh; simpl; f_equal; lia.
  - by rewrite find_sub_short by lia.
  - rewrite (memmem_loop_spec _ lh); [|lia|by rewrite Z.add_0_r|done].
    destruct (find_sub ln lh); simpl; [f_equal; lia|done].
Qed.

(** ** Spans and tokens *)

Definition inb (set : list Z) (c : Z) : bool := existsb (fun x => x =? c) set.

Fixpoint takew (f : Z -> bool) (l : list Z) : list Z :=
  match l with
  | [] => []
  | c :: l' => if f c then c :: takew f l' else []
  end.

Fixpoint dropw (f : Z -> bool) (l : list Z) : list Z :=
  match l with
  | [] => []
  | c :: l' => if f c then dropw f l' else l
  end.

Lemma takew_dropw f l : takew f l ++ dropw f l = l.
Proof. induction l as [|c l IH]; simpl; [done|]. destruct (f c); simpl; congruence. Qed.

Lemma takew_all f l : Forall (fun c => f c = true) (takew f l).
Proof. induction l as [|c l IH]; simpl; [done|]. destruct (f c) eqn:E; by constructor. Qed.

Lemma dropw_head f c l l' : dropw f l = c :: l' -> f c = false.
Proof. induction l as [|x l IH]; simpl; [done|]. destruct (f x) eqn:E; [done|]. congruence. Qed.

Lemma dropw_length f l : len l = len (takew f l) + len (dropw f l).
Proof. rewrite <- (takew_dropw f l) at 1. rewrite length_app. lia. Qed.

Lemma in_set_loop_spec ls : forall m c set fuel,
  cstr_at m set ls -> (length ls < fuel)%nat -> in_set_loop fuel m c set = Some (inb ls c).
Proof.
  induction ls as [|x ls IH]; intros m c set [|fuel] H Hf; simpl in Hf; try lia; cbn [in_set_loop].
  - apply cstr_at_nil in H. unfold load. by rewrite H.
  - apply cstr_at_cons in H as (Hx & Hnx & H). unfold load, nonzero_byte in *. rewrite Hx. obind.
    bool_if. unfold inb. cbn [existsb]. destruct (x =? c); [done|]. apply IH; auto. lia.
Qed.

Lemma in_set_spec m c set ls : cstr_at m set ls -> in_set m c set = Some (inb ls c).
Proof. intros H. apply in_set_loop_spec; [done|]. apply cstr_at_fuel in H. lia. Qed.

Lemma span_loop_spec l : forall ls m s set want n fuel,
  cstr_at m (s + n) l -> cstr_at m set ls -> (length l < fuel)%nat ->
  span_loop fuel m s set want n = Some (n + len (takew (fun c => Bool.eqb (inb ls c) want) l)).
Proof.
  induction l as [|c l IH]; intros ls m s set want n [|fuel] H Hs Hf; simpl in Hf; try lia;
    cbn [span_loop takew].
  - apply cstr_at_nil in H. unfold load. rewrite H. simpl. f_equal. lia.
  - apply cstr_at_cons in H as (Hc & Hnc & H). unfold load, nonzero_byte in *. rewrite Hc. obind.
    bool_if. rewrite (in_set_spec _ _ _ _ Hs). obind.
    destruct (Bool.eqb (inb ls c) want).
    + rewrite (IH ls); [simpl; f_equal; lia|by rewrite Z.add_assoc|done|lia].
    + simpl. f_equal. lia.
Qed.

Definition is_in (ls : list Z) (c : Z) : bool := Bool.eqb (inb ls c) true.
Definition not_in (ls : list Z) (c : Z) : bool := Bool.eqb (inb ls c) false.

Lemma strspn_spec m s set l ls :
  cstr_at m s l -> cstr_at m set ls -> strspn m s set = Some (len (takew (is_in ls) l)).
Proof.
  intros H Hs. unfold strspn. rewrite (span_loop_spec l ls); [done|by rewrite Z.add_0_r|done|].
  apply cstr_at_fuel in H. lia.
Qed.

Lemma strcspn_spec m s set l ls :
  cstr_at m s l -> cstr_at m set ls -> strcspn m s set = Some (len (takew (not_in ls) l)).
Proof.
  intros H Hs. unfold strcspn. rewrite (span_loop_spec l ls); [done|by rewrite Z.add_0_r|done|].
  apply cstr_at_fuel in H. lia.
Qed.

Lemma cstr_at_dropw m s f l : cstr_at m s l -> cstr_at m (s + len (takew f l)) (dropw f l).
Proof. intros H. rewrite <- (takew_dropw f l) in H. by apply cstr_at_app in H as [_ H]. Qed.

Lemma cstr_at_insert_disjoint m k x a s :
  k < a \/ a + len s < k -> cstr_at m a s -> cstr_at (<[k := x]> m) a s.
Proof. intros Hd. apply (cstr_at_write_disjoint m k [x]). simpl. lia. Qed.

(** The effect of one call on the string [l] at [s]: [None] when only
    delimiters are left, otherwise the offset of the token, the token, the
    offset of the save pointer and the rest of the string after it. *)
Definition next_token (ls l : list Z) : option (Z * list Z * Z * list Z) :=
  match dropw (is_in ls) l with
  | [] => None
  | (_ :: _) as l1 =>
      let off := len (takew (is_in ls) l) in
      let tok := takew (not_in ls) l1 in
      match dropw (not_in ls) l1 with
      | [] => Some (off, tok, off + len tok, [])
      | _ :: rest => Some (off, tok, off + len tok + 1, rest)
      end
  end.

Lemma strtok_r_none m s d save l ls :
  let s0 := if s =? 0 then save else s in
  cstr_at m s0 l -> cstr_at m d ls -> next_token ls l = None ->
  strtok_r m s d save = Some (0, s0 + len l, m).
Proof.
  intros s0 Hl Hd Hn. unfold strtok_r. fold s0. rewrite (strspn_spec _ _ _ _ _ Hl Hd). obind.
  pose proof (cstr_at_dropw _ _ (is_in ls) _ Hl) as Hr. unfold next_token in Hn.
  rewrite (dropw_length (is_in ls) l).
  destruct (dropw (is_in ls) l) as [|c l1] eqn:E1; [|by destruct (dropw (not_in ls) _)].
  apply cstr_at_nil in Hr. unfold load. rewrite Hr. simpl. do 3 f_equal. lia.
Qed.

Lemma strtok_r_token m s d save l ls off tok soff rest :
  let s0 := if s =? 0 then save else s in
  cstr_at m s0 l -> cstr_at m d ls -> s0 + len l + 1 <= d \/ d + len ls + 1 <= s0 ->
  next_token ls l = Some (off, tok, soff, rest) ->
  exists m', strtok_r m s d save = Some (s0 + off, s0 + soff, m') /\
    cstr_at m' (s0 + off) tok /\ cstr_at m' (s0 + soff) rest /\ cstr_at m' d ls /\
    soff + len rest = len l /\ 0 <= off /\
    (off + len tok < soff \/ off + len tok = soff /\ rest = []) /\
    (forall k, k < s0 + off \/ s0 + soff <= k -> m' !! k = m !! k).
Proof.
  intros s0 Hl Hd Hov Hn. unfold strtok_r. fold s0. rewrite (strspn_spec _ _ _ _ _ Hl Hd). obind.
  pose proof (cstr_at_dropw _ _ (is_in ls) _ Hl) as Hr. unfold next_token in Hn.
  pose proof (dropw_length (is_in ls) l) as Hlen. cbv zeta in Hn.
  destruct (dropw (is_in ls) l) as [|c l1] eqn:E1; [done|].
  pose proof Hr as Hr'. apply cstr_at_cons in Hr' as (Hc & Hnc & _). unfold load, nonzero_byte in *.
  rewrite Hc. obind. bool_if. rewrite (strcspn_spec _ _ _ _ _ Hr Hd). obind.
  pose proof (cstr_at_dropw _ _ (not_in ls) _ Hr) as Hq.
  pose proof (dropw_length (not_in ls) (c :: l1)) as Hlen2.
  pose proof Hr as [Hb Hz]. rewrite <- (takew_dropw (not_in ls) (c :: l1)) in Hb, Hz.
  rewrite <- app_assoc in Hb. apply bytes_at_app in Hb as [Hb _]. apply Forall_app in Hz as [Hz _].
  set (tk := takew (not_in ls) (c :: l1)) in *. clearbody tk.
  destruct (dropw (not_in ls) (c :: l1)) as [|e l2]; injection Hn as <- <- <- <-.
  - apply cstr_at_nil in Hq. rewrite Hq. obind. exists m. cbn [length] in *.
    rewrite !Z.add_assoc. split; [done|]. split; [|split; [by apply cstr_at_nil|]].
    + split; [|done]. apply bytes_at_app. by repeat split.
    + split; [done|]. split_and!; [lia|lia|by right|done].
  - apply cstr_at_cons in Hq as (He & Hne & Hq). unfold nonzero_byte in *. rewrite He. obind. bool_if.
    rewrite (store_mapped _ _ _ ltac:(eauto)). obind. cbn [length] in *.
    eexists. rewrite !Z.add_assoc. split; [done|]. split; [|split; [|split; [|split_and!]]].
    + split; [|done]. apply bytes_at_app. split; [apply bytes_at_insert_disjoint; [lia|done]|].
      split; [apply lookup_insert_eq|done].
    + apply cstr_at_insert_disjoint; [lia|done].
    + apply cstr_at_insert_disjoint; [lia|done].
    + lia.
    + lia.
    + lia.
    + intros k Hk. rewrite lookup_insert_ne by lia. done.
Qed.

(** The tokens of a string: the maximal runs of non-delimiters. *)
Fixpoint split_tokens (ls cur l : list Z) : list (list Z) :=
  match l with
  | [] => match cur with [] => [] | _ => [cur] end
  | c :: l' =>
      if inb ls c then
        match cur with [] => split_tokens ls [] l' | _ => cur :: split_tokens ls [] l' end
      else split_tokens ls (cur ++ [c]) l'
  end.

(** Calling strtok_r until it returns NULL, as its callers do. *)
Fixpoint strtok_all (fuel : nat) (m : mem) (s delim save : Z) : option (list Z * mem) :=
  match fuel with
  | O => None
  | S f =>
      r ← strtok_r m s delim save;
      let '(tok, save', m') := r in
      if tok =? 0 then Some ([], m')
      else q ← strtok_all f m' 0 delim save'; Some (tok :: q.1, q.2)
  end.

Lemma split_tokens_skip ls l : split_tokens ls [] l = split_tokens ls [] (dropw (is_in ls) l).
Proof.
  induction l as [|c l IH]; simpl; [done|]. unfold is_in.
  destruct (inb ls c) eqn:E; simpl; [done|]. by rewrite E.
Qed.

Lemma split_tokens_take ls l : forall cur, cur ++ takew (not_in ls) l <> [] ->
  split_tokens ls cur l =
    (cur ++ takew (not_in ls) l) ::
    (match dropw (not_in ls) l with [] => [] | _ :: rest => split_tokens ls [] rest end).
Proof.
  induction l as [|c l IH]; intros cur Hne; simpl in *.
  - rewrite app_nil_r in *. by destruct cur.
  - unfold not_in in *. destruct (inb ls c) eqn:E; simpl in *.
    + rewrite app_nil_r in *. by destruct cur.
    + rewrite IH; rewrite <- app_assoc; done.
Qed.

Lemma split_next ls l :
  match next_token ls l with
  | None => split_tokens ls [] l = []
  | Some (off, tok, soff, rest) => split_tokens ls [] l = tok :: split_tokens ls [] rest
  end.
Proof.
  rewrite split_tokens_skip. unfold next_token.
  destruct (dropw (is_in ls) l) as [|c l1] eqn:E; [done|].
  rewrite split_tokens_take.
  - by destruct (dropw (not_in ls) (c :: l1)).
  - simpl. apply dropw_head in E. unfold is_in, not_in in *. by destruct (inb ls c).
Qed.

(** C26. Tokenising the string at [a] to the end gives exactly its maximal runs of
    non-delimiters, in order, each NUL-terminated in the final memory. *)
Theorem strtok_all_tokens fuel : forall m s d save l ls,
  let s0 := if s =? 0 then save else s in
  cstr_at m s0 l -> cstr_at m d ls -> s0 + len l + 1 <= d \/ d + len ls + 1 <= s0 ->
  0 < s0 -> (length l < fuel)%nat ->
  exists toks m', strtok_all fuel m s d save = Some (toks, m') /\
    Forall2 (cstr_at m') toks (split_tokens ls [] l) /\
    (forall k, k < s0 \/ s0 + len l <= k -> m' !! k = m !! k).
Proof.
  induction fuel as [|fuel IH]; intros m s d save l ls s0 Hl Hd Hov Hpos Hf; [lia|].
  cbn [strtok_all]. pose proof (split_next ls l) as Hs.
  destruct (next_token ls l) as [[[[off tok] soff] rest]|] eqn:E.
  - destruct (strtok_r_token m s d save l ls _ _ _ _ Hl Hd Hov E)
      as (m1 & Hr & Ht & Hrest & Hd1 & Hlen & H0 & Hle & Hout).
    fold s0 in Hr, Ht, Hrest, Hout. rewrite Hr. obind. bool_if.
    assert (0 < len tok).
    { unfold next_token in E. destruct (dropw (is_in ls) l) as [|c l1] eqn:E1; [done|].
      apply dropw_head in E1. unfold is_in in E1.
      assert (tok = takew (not_in ls) (c :: l1)) as -> by (by destruct (dropw (not_in ls) _); simplify_eq).
      simpl. unfold not_in. destruct (inb ls c); simpl in *; [done|lia]. }
    destruct (IH m1 0 d (s0 + soff) rest ls) as (toks & m2 & Hr2 & Hf2 & Hout2); simpl; auto; try lia.
    rewrite Hr2. obind. eexists _, _. split; [done|]. rewrite Hs. simpl in Hout2. split.
    + constructor; [|done]. destruct Ht as [Ht Hz]. split; [|done].
      apply bytes_at_lookup. intros i v Hi.
      pose proof (lookup_lt_Some _ _ _ Hi) as Hlt. rewrite length_app in Hlt. simpl in Hlt.
      rewrite Hout2; [by apply (proj1 (bytes_at_lookup _ _ _) Ht)|].
      destruct Hle as [Hle|[Hle ->]]; simpl; lia.
    + intros k Hk. rewrite Hout2, Hout by lia. done.
  - rewrite (strtok_r_none m s d save l ls Hl Hd E). fold s0. obind. simpl.
    eexists _, _. split; [done|]. rewrite Hs. split; [constructor|done].
Qed.

(** ** Bounded concatenation and case-insensitive comparison *)

Lemma skip_str_spec l : forall m d fuel,
  cstr_at m d l -> (length l < fuel)%nat -> skip_str fuel m d = Some (d + len l).
Proof.
  induction l as [|c l IH]; intros m d [|fuel] H Hf; simpl in Hf; try lia; cbn [skip_str].
  - apply cstr_at_nil in H. unfold load. rewrite H. simpl. f_equal. lia.
  - apply cstr_at_cons in H as (Hc & Hnc & H). unfold load, nonzero_byte in *. rewrite Hc. obind.
    bool_if. rewrite IH by (auto; lia). simpl. f_equal. lia.
Qed.

Lemma strncat_loop_spec k : forall l m d s i,
  cstr_at m (s + i) l -> mapped m (d + i) (len (take k l)) ->
  d + i + len (take k l) <= s + i \/ s + i + len l + 1 <= d + i ->
  strncat_loop k m d s i = Some (i + len (take k l), write_bytes m (d + i) (take k l)).
Proof.
  induction k as [|k IH]; intros l m d s i H Hd Hov; cbn [strncat_loop].
  { rewrite take_0. simpl. by rewrite Z.add_0_r. }
  destruct l as [|c l].
  - apply cstr_at_nil in H. unfold load. rewrite H. simpl. by rewrite Z.add_0_r.
  - apply cstr_at_cons in H as (Hc & Hnz & H). unfold load, nonzero_byte in *. rewrite Hc. simpl in *.
    bool_if. rewrite (store_at _ _ _ _ _ Hd) by lia. simpl. rewrite (IH l).
    + do 2 f_equal; [lia|]. by rewrite Z.add_assoc.
    + rewrite Z.add_assoc. apply cstr_at_insert_disjoint; [lia|done].
    + apply mapped_insert. eapply mapped_sub; [done|lia..].
    + lia.
Qed.

(** strncat appends at most [n] characters and always terminates the result. *)
Theorem strncat_appends m d s l1 l2 n :
  0 <= n -> cstr_at m d l1 -> cstr_at m s l2 ->
  mapped m d (len l1 + len (take (Z.to_nat n) l2) + 1) ->
  d + len l1 + len (take (Z.to_nat n) l2) + 1 <= s \/ s + len l2 + 1 <= d + len l1 ->
  exists m', strncat m d s n = Some (d, m') /\ cstr_at m' d (l1 ++ take (Z.to_nat n) l2) /\
    forall k, k < d + len l1 \/ d + len l1 + len (take (Z.to_nat n) l2) < k -> m' !! k = m !! k.
Proof.
  intros Hn H1 H2 Hd Hov. set (t := take (Z.to_nat n) l2) in *.
  exists (write_bytes m (d + len l1) (t ++ [0])). unfold strncat.
  rewrite (skip_str_spec l1); [|done|apply cstr_at_fuel in H1; lia]. obind.
  rewrite (strncat_loop_spec _ l2); rewrite ?Z.add_0_r; [|done|eapply mapped_sub; [done|fold t; lia..]|fold t; lia].
  fold t. cbn [fst snd mbind option_bind]. rewrite Z.add_0_l.
  rewrite (store_at _ d (len l1 + len t + 1)); [|by apply mapped_write|lia]. obind.
  destruct H1 as [H1 Hz1]. split; [|split; [split|]].
  - by rewrite write_bytes_app.
  - rewrite <- app_assoc, bytes_at_app. split; [|apply bytes_at_write].
    apply bytes_at_app in H1 as [H1 _]. apply bytes_at_write_disjoint; [lia|done].
  - apply Forall_app. split; [done|]. apply Forall_take, H2.
  - intros k Hk. apply write_bytes_out. rewrite length_app. simpl. lia.
Qed.

Lemma strcasecmp_loop_spec l1 : forall l2 m a b fuel,
  cstr_at m a l1 -> cstr_at m b l2 -> (length l1 < fuel)%nat ->
  strcasecmp_loop fuel m a b = Some (first_diff (map lower l1) (map lower l2)).
Proof.
  induction l1 as [|x l1 IH]; intros l2 m a b [|fuel] H1 H2 Hf; simpl in Hf; try lia;
    cbn [strcasecmp_loop].
  - apply cstr_at_nil in H1. unfold load. rewrite H1. obind. destruct l2 as [|y l2].
    + apply cstr_at_nil in H2. by rewrite H2.
    + apply cstr_at_cons in H2 as [-> _]. done.
  - apply cstr_at_cons in H1 as (Hx & Hnx & H1). unfold load, nonzero_byte in *. rewrite Hx. obind.
    pose proof (lower_pos x). destruct l2 as [|y l2].
    + apply cstr_at_nil in H2. rewrite H2. obind. change (lower 0) with 0.
      replace (lower x =? 0) with false by lia. rewrite andb_false_r. cbn. f_equal. lia.
    + apply cstr_at_cons in H2 as (Hy & _ & H2). rewrite Hy. obind.
      replace (x =? 0) with false by lia. cbn [negb andb map first_diff].
      destruct (lower x =? lower y) eqn:E; [|done]. apply IH; auto. lia.
Qed.

(** strcasecmp compares the lower-cased strings; 0 means equal up to case. *)
Theorem strcasecmp_fold m a b l1 l2 :
  cstr_at m a l1 -> cstr_at m b l2 ->
  exists r, strcasecmp m a b = Some r /\ (r = 0 <-> map lower l1 = map lower l2).
Proof.
  intros H1 H2. exists (first_diff (map lower l1) (map lower l2)). split.
  - apply strcasecmp_loop_spec; auto. apply cstr_at_fuel in H1. lia.
  - assert (Hl : forall c, nonzero_byte c -> nonzero_byte (lower c)).
    { unfold nonzero_byte, lower. intros. bcases. }
    destruct H1, H2. apply first_diff_zero; apply Forall_map; eapply Forall_impl; eauto.
Qed.

(** ** Duplication *)

Section dup.
Context {H : Type} {AH : Allocator H} {LH : AllocatorLaws H}.

(** A copy of [l] in a fresh block at [p], everything else as it was. *)
Definition fresh_copy (l : list Z) (p : Z) (h h' : H) : Prop :=
  p <> 0 /\ cstr_at (hmem h') p l /\ exists n, len l + 1 <= n /\ hblocks h' ≡ₚ (p, n) :: hblocks h /\
    (forall k, p <= k < p + n -> hmem h !! k = None) /\
    (forall k, k < p \/ p + n <= k -> hmem h' !! k = hmem h !! k).

Lemma strdup_spec (h : H) s l :
  hinv h -> cstr_at (hmem h) s l -> request (len l + 1) ->
  exists p h', strdup h s = Some (p, h') /\ hinv h' /\
    ((p = 0 /\ hmem h' = hmem h /\ hblocks h' = hblocks h) \/ fresh_copy l p h h').
Proof.
  intros Hi Hs Hrq. unfold strdup. rewrite (strlen_spec _ _ _ Hs). obind. pose proof Hrq as [Hr0 Hr1].
  rewrite u64_small by lia. destruct (hmalloc h (len l + 1)) as [p h1] eqn:E.
  pose proof (hmalloc_inv h (len l + 1) p h1 Hi Hrq E) as Hi1.
  pose proof (hmalloc_effect h (len l + 1) p h1 Hi Hrq E) as Heff.
  destruct (decide (p = 0)) as [->|Hp].
  { destruct Heff as [(_ & ? & ?)|[? _]]; [|done]. exists 0, h1. cbn. auto 6. }
  destruct (alloc_effect_block _ _ _ _ Heff Hp) as (Hsub & Hmap & Hfresh).
  destruct Heff as [[? _]|(_ & n & Hn & Hbl & Hmap' & Hfresh' & Hsame)]; [done|].
  bool_if. pose proof (cstr_at_mapped _ _ _ Hs) as Hms.
  pose proof (fresh_disjoint _ _ _ _ _ Hfresh Hms ltac:(lia) ltac:(lia)) as Hdis.
  apply (cstr_at_subseteq _ _ _ _ Hsub) in Hs as [Hb Hz].
  assert (Hlen : len (l ++ [0]) = len l + 1) by (rewrite length_app; simpl; lia).
  rewrite <- Hlen, memcpy_spec; [|done|by rewrite Hlen|lia]. obind. cbn [snd].
  assert (Hdom : dom (write_bytes (hmem h1) p (l ++ [0])) = dom (hmem h1)).
  { apply write_bytes_dom. by rewrite Hlen. }
  exists p, (hwrite h1 (write_bytes (hmem h1) p (l ++ [0]))).
  split; [done|]. split; [by apply hwrite_inv|]. right. unfold fresh_copy.
  rewrite hwrite_mem, hwrite_blocks by done.
  split; [done|]. split; [split; [apply bytes_at_write|done]|].
  exists n. split; [done|]. split; [done|]. split; [done|].
  intros k Hk. rewrite write_bytes_out by lia. auto.
Qed.

(** strdup returns NULL and leaves the program's memory alone, or a fresh
    block that holds a copy of the string, everything else unchanged. *)
Theorem strdup_copies (h : H) s l :
  hinv h -> cstr_at (hmem h) s l -> request (len l + 1) ->
  exists p h', strdup h s = Some (p, h') /\ hinv h' /\
    ((p = 0 /\ hmem h' = hmem h) \/
     (p <> 0 /\ cstr_at (hmem h') p l /\ cstr_at (hmem h') s l /\
      (forall k, p <= k < p + len l + 1 -> hmem h !! k = None))).
Proof.
  intros Hi Hs Hrq. destruct (strdup_spec h s l Hi Hs Hrq) as (p & h' & E & Hi' & Hc).
  exists p, h'. split; [done|]. split; [done|].
  destruct Hc as [(? & ? & _)|(Hp & Hcp & n & Hn & _ & Hf & Hsame)]; [by left|right].
  split; [done|]. split; [done|]. split; [|intros k Hk; apply Hf; lia].
  eapply cstr_at_subseteq; [|exact Hs]. apply map_subseteq_spec. intros k v Hk.
  destruct (decide (p <= k < p + n)); [by rewrite Hf in Hk|]. by rewrite Hsame by lia.
Qed.
End dup.

(** ** Error texts *)

Lemma numbered_text_length prefix b v (n : nat) :
  (1 <= n)%nat -> 0 <= v < 10 ^ Z.of_nat n ->
  (length (numbered_text prefix b v) <= length (str prefix) + 1 + n)%nat.
Proof.
  intros Hn Hv. unfold numbered_text. rewrite !length_app.
  pose proof (decimal_length v n Hn Hv). destruct b; simpl; lia.
Qed.

(** The static buffers of strerror (32 bytes) and strsignal (40 bytes) hold the
    longest text with its NUL, for every int. *)
Theorem numbered_texts_fit errnum :
  is_i32 errnum ->
  (table_entry error_text 136 errnum = None -> (length (strerror errnum) < 32)%nat) /\
  (table_entry signal_text 32 errnum = None -> (length (strsignal errnum) < 40)%nat).
Proof.
  intros Hr. unfold is_i32 in Hr. split; intros Hout; unfold strerror, strsignal; rewrite Hout; cbv zeta.
  - eapply Nat.le_lt_trans; [apply (numbered_text_length _ _ _ 10); [lia|]|simpl; lia].
    bcase; unfold u32; zdm.
  - eapply Nat.le_lt_trans; [apply (numbered_text_length _ _ _ 20); [lia|]|].
    + destruct ((34 <=? errnum) && (errnum <=? 64)); bcase; unfold u64; zdm.
    + destruct ((34 <=? errnum) && (errnum <=? 64)); simpl; lia.
Qed.

(** An errno without a text of its own is reported by its number, in decimal. *)
Lemma strerror_unknown errnum :
  is_i32 errnum -> table_entry error_text 136 errnum = None ->
  strerror errnum = str "Unknown error " ++ (if errnum <? 0 then [chr "-"] else []) ++ decimal (Z.abs errnum).
Proof.
  intros Hr Hout. unfold strerror, numbered_text, is_i32 in *. rewrite Hout. cbv zeta. do 2 f_equal.
  f_equal. unfold u32. bcase; zdm.
Qed.

(** ** Instances *)

Lemma strstr_leftmost_witness :
  exists r, strstr (mem_of 100 (str "xabab" ++ [0] ++ str "ab" ++ [0])) 100 106 = Some r /\
    first_occurrence 100 (str "xabab") (str "ab") r.
Proof.
  apply (strstr_leftmost (mem_of 100 (str "xabab" ++ [0] ++ str "ab" ++ [0])) 100 106).
  - apply cstr_atb_sound. vm_compute. reflexivity.
  - apply cstr_atb_sound. vm_compute. reflexivity.
Defined.

Lemma strtok_all_tokens_witness :
  exists toks m', strtok_all 9 (mem_of 100 (str ",a,,bc," ++ [0] ++ str "," ++ [0])) 100 108 0 = Some (toks, m') /\
    Forall2 (cstr_at m') toks (split_tokens (str ",") [] (str ",a,,bc,")) /\
    (forall k, k < 100 \/ 100 + len (str ",a,,bc,") <= k ->
       m' !! k = mem_of 100 (str ",a,,bc," ++ [0] ++ str "," ++ [0]) !! k).
Proof.
  apply (strtok_all_tokens 9 (mem_of 100 (str ",a,,bc," ++ [0] ++ str "," ++ [0])) 100 108 0).
  - apply cstr_atb_sound. vm_compute. reflexivity.
  - apply cstr_atb_sound. vm_compute. reflexivity.
  - left. vm_compute. discriminate.
  - reflexivity.
  - vm_compute. lia.
Defined.

Lemma numbered_texts_fit_witness : (length (strerror 4000) < 32)%nat.
Proof.
  apply (numbered_texts_fit 4000).
  - unfold is_i32. lia.
  - reflexivity.
Defined.
