(* ===== verification/NumConv.v ===== *)
(** * Number conversion and random numbers: numconv.c

    The strtol family works on a C string given as the list of its bytes up
    to the NUL; a pointer into the string is the suffix it points to, and
    reading the end of a suffix gives the NUL.  [rand] keeps the ring buffer
    of the source. *)

From S2P Require Import Prelude Mem Digits.

Definition digit_value (c : Z) : Z :=
  if (chr "0" <=? c) && (c <=? chr "9") then c - chr "0"
  else if (chr "a" <=? c) && (c <=? chr "z") then c - chr "a" + 10
  else if (chr "A" <=? c) && (c <=? chr "Z") then c - chr "A" + 10
  else 99.

(** space, \t, \n, \v, \f, \r *)
Definition is_space_c (c : Z) : bool :=
  (c =? 32) || (c =? 9) || (c =? 10) || (c =? 11) || (c =? 12) || (c =? 13).

Fixpoint skip_spaces (p : list Z) : list Z :=
  match p with
  | c :: p' => if is_space_c c then skip_spaces p' else p
  | [] => p
  end.

(** An optional sign: the flag [neg] and the rest. *)
Definition take_sign (p : list Z) : bool * list Z :=
  if (peek p =? chr "-") || (peek p =? chr "+") then (peek p =? chr "-", drop 1 p) else (false, p).

(** The effective base and the position after a 0x or 0b prefix. *)
Definition take_prefix (base : Z) (p : list Z) : Z * list Z :=
  if ((base =? 0) || (base =? 16)) && (peek p =? chr "0")
     && ((peek_at p 1 =? chr "x") || (peek_at p 1 =? chr "X")) && (digit_value (peek_at p 2) <? 16)
  then (16, drop 2 p)
  else if ((base =? 0) || (base =? 2)) && (peek p =? chr "0")
     && ((peek_at p 1 =? chr "b") || (peek_at p 1 =? chr "B")) && (digit_value (peek_at p 2) <? 2)
  then (2, drop 2 p)
  else if base =? 0 then (if peek p =? chr "0" then 8 else 10, p)
  else (base, p).

(** The digit loop: accumulator, whether a digit was seen, overflow, and the position after it. *)
Fixpoint digit_loop (p : list Z) (base acc : Z) (any overflow : bool) : Z * bool * bool * list Z :=
  match p with
  | [] => (acc, any, overflow, p)
  | c :: p' =>
      let d := digit_value c in
      if base <=? d then (acc, any, overflow, p)
      else
        let limit := u64 (-1) / base in
        if (limit <? acc) || ((acc =? limit) && (u64 (-1) mod base <? d))
        then digit_loop p' base acc true true
        else digit_loop p' base (u64 (acc * base + d)) true overflow
  end.

(** The magnitude, [neg], [overflow] and [used]. *)
Definition parse_magnitude (s : list Z) (base : Z) : Z * bool * bool * Z :=
  let '(neg, p) := take_sign (skip_spaces s) in
  let '(base', p') := take_prefix base p in
  let '(acc, any, overflow, e) := digit_loop p' base' 0 false false in
  (acc, neg, overflow, if (any : bool) then len s - len e else -1).

Definition base_valid (base : Z) : bool := (base =? 0) || ((2 <=? base) && (base <=? 36)).

(** The value, the offset stored through [end] ([None]: not written), and errno. *)
Definition strtoull (err : Z) (s : list Z) (base : Z) : Z * option Z * Z :=
  if negb (base_valid base) then (0, None, EINVAL)
  else
    let '(v, neg, over, used) := parse_magnitude s base in
    let e := if used <? 0 then 0 else used in
    if (over : bool) then (u64 (-1), Some e, ERANGE)
    else (if (neg : bool) then u64 (0 - v) else v, Some e, err).

Definition strtoul (err : Z) (s : list Z) (base : Z) : Z * option Z * Z := strtoull err s base.

Definition strtoll (err : Z) (s : list Z) (base : Z) : Z * option Z * Z :=
  if negb (base_valid base) then (0, None, EINVAL)
  else
    let '(v, neg, over, used) := parse_magnitude s base in
    let e := if used <? 0 then 0 else used in
    let max := 9223372036854775807 in
    if (over : bool) || (negb neg && (max <? v)) || (neg && (max + 1 <? v))
    then (if (neg : bool) then -9223372036854775807 - 1 else 9223372036854775807, Some e, ERANGE)
    else (if (neg : bool) then i64 (u64 (0 - v)) else i64 v, Some e, err).

Definition strtol (err : Z) (s : list Z) (base : Z) : Z * option Z * Z := strtoll err s base.

Definition atol (s : list Z) : Z := (strtol 0 s 10).1.1.
Definition atoll (s : list Z) : Z := (strtoll 0 s 10).1.1.

(** ** abs and div *)

Definition abs (x : Z) : Z := if x <? 0 then i32 (u32 (0 - u32 x)) else x.
Definition labs (x : Z) : Z := if x <? 0 then i64 (u64 (0 - u64 x)) else x.
Definition llabs (x : Z) : Z := if x <? 0 then i64 (u64 (0 - u64 x)) else x.

(** Division truncates; a zero divisor and the quotient 2^(w-1) trap. *)
Definition div_w (w num den : Z) : option (Z * Z) :=
  if (den =? 0) || ((num =? - 2 ^ (w - 1)) && (den =? -1)) then None else Some (Z.quot num den, Z.rem num den).

Definition div (num den : Z) : option (Z * Z) := div_w 32 num den.
Definition ldiv (num den : Z) : option (Z * Z) := div_w 64 num den.
Definition lldiv (num den : Z) : option (Z * Z) := div_w 64 num den.

(** ** rand *)

Definition RAND_LAG : Z := 31.
Definition RAND_TAP : Z := 3.
Definition RAND_WORDS : Z := 34.

Record rand_state := mkRand { rand_ring : list Z; rand_head : Z; rand_seeded : bool }.

Definition ring_at (r : list Z) (i : Z) : Z := default 0 (r !! Z.to_nat i).

Definition rand_next_word (st : rand_state) : Z * rand_state :=
  let a := ring_at (rand_ring st) ((rand_head st + (RAND_WORDS - RAND_LAG)) mod RAND_WORDS) in
  let b := ring_at (rand_ring st) ((rand_head st + (RAND_WORDS - RAND_TAP)) mod RAND_WORDS) in
  let w := u32 (a + b) in
  (w, mkRand (<[Z.to_nat (rand_head st) := w]> (rand_ring st)) ((rand_head st + 1) mod RAND_WORDS) (rand_seeded st)).

(** The next seed word: 16807 * x mod 2147483647 without overflow (Schrage). *)
Definition seed_step (x : Z) : Z :=
  let hi := Z.quot x 127773 in
  let lo := Z.rem x 127773 in
  let word := 16807 * lo - 2836 * hi in
  i32 (if word <? 0 then word + 2147483647 else word).

Fixpoint seed_words (k : nat) (x : Z) : list Z :=
  match k with
  | O => []
  | S k' => x :: seed_words k' (seed_step x)
  end.

Fixpoint discard (k : nat) (st : rand_state) : rand_state :=
  match k with
  | O => st
  | S k' => discard k' (rand_next_word st).2
  end.

Definition srand (seed : Z) : rand_state :=
  let seed := if seed =? 0 then 1 else seed in
  let w := seed_words 31 (i32 seed) in
  let words := w ++ take 3 w in
  discard 310 (mkRand (map u32 words) 0 true).

Definition rand (st : rand_state) : Z * rand_state :=
  let st := if rand_seeded st then st else srand 1 in
  let '(w, st') := rand_next_word st in
  (i32 (Z.shiftr w 1), st').

(** ** The strtol family *)

(** The value of a digit string continued from [acc]. *)
Definition value_from (base acc : Z) (ds : list Z) : Z := foldl (fun a c => a * base + digit_value c) acc ds.

Definition is_digit_of (base c : Z) : Prop := 0 <= digit_value c < base.

Lemma digit_value_nonneg c : 0 <= digit_value c.
Proof. unfold digit_value. repeat bcase; lia. Qed.

Lemma value_from_ge base ds : forall acc, 2 <= base -> 0 <= acc -> acc <= value_from base acc ds.
Proof.
  induction ds as [|c ds IH]; intros acc Hb Ha; simpl; [lia|].
  pose proof (digit_value_nonneg c). pose proof (IH (acc * base + digit_value c) Hb ltac:(nia)). nia.
Qed.

(** The overflow test of the digit loop is exact. *)
Lemma overflow_test base acc d : 2 <= base <= 36 -> 0 <= acc < 2 ^ 64 -> 0 <= d < base ->
  (u64 (-1) / base <? acc) || ((acc =? u64 (-1) / base) && (u64 (-1) mod base <? d)) = negb (acc * base + d <? 2 ^ 64).
Proof.
  intros Hb Ha Hd. change (u64 (-1)) with (2 ^ 64 - 1). set (M := 2 ^ 64 - 1).
  assert (Hdm : M = base * (M / base) + M mod base /\ 0 <= M mod base < base) by (unfold M; zdm).
  set (q := M / base) in *. set (r := M mod base) in *.
  replace (2 ^ 64) with (base * q + r + 1) by (unfold M in *; lia).
  destruct (decide (acc < q)); [|destruct (decide (acc = q)) as [->|]].
  - assert (acc * base + d < base * q) by nia. lia.
  - lia.
  - assert (base * q + base <= acc * base) by nia. lia.
Qed.

(** The digit loop computes the exact value, and reports overflow exactly when it exceeds 64 bits. *)
Lemma digit_loop_spec base ds rest : forall acc any over,
  2 <= base <= 36 -> 0 <= acc < 2 ^ 64 -> Forall (is_digit_of base) ds -> base <= digit_value (peek rest) ->
  exists acc', digit_loop (ds ++ rest) base acc any over =
    (acc', any || negb (bool_decide (ds = [])), over || negb (value_from base acc ds <? 2 ^ 64), rest) /\
    0 <= acc' < 2 ^ 64 /\
    (value_from base acc ds < 2 ^ 64 -> acc' = value_from base acc ds).
Proof.
  induction ds as [|c ds IH]; intros acc any over Hb Ha Hds Hr; simpl.
  - exists acc. split; [|lia]. replace (acc <? 2 ^ 64) with true by lia. rewrite !orb_false_r.
    destruct rest as [|c rest]; simpl in *; [done|]. by bool_if.
  - apply Forall_cons in Hds as [Hc Hds]. unfold is_digit_of in Hc. replace (base <=? digit_value c) with false by lia.
    rewrite overflow_test by done. rewrite orb_true_r.
    pose proof (value_from_ge base ds (acc * base + digit_value c) ltac:(lia) ltac:(nia)) as Hge.
    destruct (acc * base + digit_value c <? 2 ^ 64) eqn:E; cbn [negb].
    + rewrite u64_small by nia. destruct (IH (acc * base + digit_value c) true over Hb ltac:(nia) Hds Hr)
        as (acc' & -> & Ha' & Hv). exists acc'. done.
    + destruct (IH acc true true Hb Ha Hds Hr) as (acc' & -> & Ha' & _). exists acc'.
      replace (value_from base (acc * base + digit_value c) ds <? 2 ^ 64) with false by lia.
      rewrite orb_true_r. split; [done|]. split; [done|]. lia.
Qed.

Lemma skip_spaces_app ws p :
  Forall (fun c => is_space_c c = true) ws -> is_space_c (peek p) = false -> skip_spaces (ws ++ p) = p.
Proof.
  intros Hw Hp. induction Hw as [|c ws Hc _ IH]; simpl; [|by rewrite Hc].
  destruct p as [|c p]; simpl in *; [done|]. by rewrite Hp.
Qed.

(** How base and prefix determine the radix: 0x and 0b count only before a digit of their base. *)
Definition hex_prefix (base : Z) (p : list Z) : Prop :=
  (base = 0 \/ base = 16) /\ peek p = chr "0" /\ (peek_at p 1 = chr "x" \/ peek_at p 1 = chr "X") /\
  digit_value (peek_at p 2) < 16.
Definition bin_prefix (base : Z) (p : list Z) : Prop :=
  (base = 0 \/ base = 2) /\ peek p = chr "0" /\ (peek_at p 1 = chr "b" \/ peek_at p 1 = chr "B") /\
  digit_value (peek_at p 2) < 2.

Inductive radix (base : Z) : list Z -> list Z -> Z -> Prop :=
  | radix_hex c p : hex_prefix base (chr "0" :: c :: p) -> radix base [chr "0"; c] p 16
  | radix_bin c p : bin_prefix base (chr "0" :: c :: p) -> radix base [chr "0"; c] p 2
  | radix_oct p : base = 0 -> peek p = chr "0" -> ~ hex_prefix base p -> ~ bin_prefix base p -> radix base [] p 8
  | radix_dec p : base = 0 -> peek p <> chr "0" -> radix base [] p 10
  | radix_given p : 2 <= base <= 36 -> ~ hex_prefix base p -> ~ bin_prefix base p -> radix base [] p base.

Lemma hex_prefixb base p :
  ((base =? 0) || (base =? 16)) && (peek p =? chr "0")
     && ((peek_at p 1 =? chr "x") || (peek_at p 1 =? chr "X")) && (digit_value (peek_at p 2) <? 16) = true
  <-> hex_prefix base p.
Proof. unfold hex_prefix. lia. Qed.

Lemma bin_prefixb base p :
  ((base =? 0) || (base =? 2)) && (peek p =? chr "0")
     && ((peek_at p 1 =? chr "b") || (peek_at p 1 =? chr "B")) && (digit_value (peek_at p 2) <? 2) = true
  <-> bin_prefix base p.
Proof. unfold bin_prefix. lia. Qed.

Lemma take_prefix_spec base pre p eff : radix base pre p eff -> take_prefix base (pre ++ p) = (eff, p).
Proof.
  intros Hr. unfold take_prefix.
  destruct Hr as [c p Hp|c p Hp|p -> H0 Hh Hb|p -> H0|p Hb Hh Hbin]; cbn [app].
  - rewrite (proj2 (hex_prefixb base _)) by done. done.
  - destruct (_ && (digit_value (peek_at (_ :: c :: p) 2) <? 16)) eqn:E.
    + apply hex_prefixb in E. unfold hex_prefix, bin_prefix, peek_at in *. simpl in *. lia.
    + rewrite (proj2 (bin_prefixb base _)) by done. done.
  - rewrite <- hex_prefixb in Hh. rewrite <- bin_prefixb in Hb. apply not_true_is_false in Hh, Hb. rewrite Hh, Hb. rewrite H0, !Z.eqb_refl. done.
  - replace (peek p =? chr "0") with false by lia. by rewrite !andb_false_r.
  - rewrite <- hex_prefixb in Hh. rewrite <- bin_prefixb in Hbin. apply not_true_is_false in Hh, Hbin.
    rewrite Hh, Hbin. by bool_if.
Qed.

Inductive sign : list Z -> bool -> Prop :=
  | sign_none : sign [] false
  | sign_plus : sign [chr "+"] false
  | sign_minus : sign [chr "-"] true.

(** [numeral base s neg eff ds n]: [s] starts with white space, a sign, a prefix and the digits
    [ds] of base [eff], [n] characters in all. *)
Definition numeral (base : Z) (s : list Z) (neg : bool) (eff : Z) (ds : list Z) (n : Z) : Prop :=
  exists ws sg pre rest, s = ws ++ sg ++ pre ++ ds ++ rest /\ n = len (ws ++ sg ++ pre ++ ds) /\
    Forall (fun c => is_space_c c = true) ws /\ sign sg neg /\ radix base pre (ds ++ rest) eff /\
    ds <> [] /\ Forall (is_digit_of eff) ds /\ eff <= digit_value (peek rest).

Lemma radix_bounds base pre p eff : radix base pre p eff -> 2 <= eff <= 36.
Proof. intros []; lia. Qed.

Lemma digit_not_special c : digit_value c < 99 -> is_space_c c = false /\ c <> chr "-" /\ c <> chr "+".
Proof. unfold digit_value, is_space_c. repeat bcase; lia. Qed.

Lemma take_sign_none p : digit_value (peek p) < 99 -> take_sign p = (false, p).
Proof. intros (_ & H1 & H2)%digit_not_special. unfold take_sign. by bool_if. Qed.

(** The first character after the sign is a digit, also when it belongs to a prefix. *)
Lemma numeral_head base pre ds rest eff :
  radix base pre (ds ++ rest) eff -> ds <> [] -> Forall (is_digit_of eff) ds ->
  digit_value (peek (pre ++ ds ++ rest)) < 99.
Proof.
  intros Hr Hne Hds. pose proof (radix_bounds _ _ _ _ Hr). destruct ds as [|d ds]; [done|].
  apply Forall_inv in Hds. unfold is_digit_of in Hds.
  inversion Hr; subst; simpl; try lia; done.
Qed.

Lemma parse_magnitude_spec base s neg eff ds n :
  numeral base s neg eff ds n ->
  exists acc, parse_magnitude s base = (acc, neg, negb (value_from eff 0 ds <? 2 ^ 64), n) /\
    0 <= acc < 2 ^ 64 /\ (value_from eff 0 ds < 2 ^ 64 -> acc = value_from eff 0 ds) /\ 0 <= n.
Proof.
  intros (ws & sg & pre & rest & -> & -> & Hws & Hsg & Hr & Hne & Hds & Hrest).
  pose proof (numeral_head _ _ _ _ _ Hr Hne Hds) as Hhd.
  assert (Hsk : skip_spaces (ws ++ sg ++ pre ++ ds ++ rest) = sg ++ pre ++ ds ++ rest).
  { apply skip_spaces_app; [done|]. destruct Hsg; [|done..]. by apply digit_not_special in Hhd as [? _]. }
  assert (Htk : take_sign (sg ++ pre ++ ds ++ rest) = (neg, pre ++ ds ++ rest)).
  { destruct Hsg; [by apply take_sign_none|done..]. }
  unfold parse_magnitude. rewrite Hsk, Htk, (take_prefix_spec _ _ _ _ Hr).
  destruct (digit_loop_spec eff ds rest 0 false false (radix_bounds _ _ _ _ Hr) ltac:(lia) Hds Hrest)
    as (acc & -> & Ha & Hv). exists acc.
  rewrite (bool_decide_eq_false_2 _ Hne). cbn [orb negb]. split; [|split; [done|split; [done|lia]]].
  f_equal. rewrite !length_app. lia.
Qed.

Lemma base_valid_radix base pre p eff : radix base pre p eff -> base_valid base = true.
Proof. unfold base_valid. intros []; unfold hex_prefix, bin_prefix in *; lia. Qed.

Lemma numeral_valid base s neg eff ds n : numeral base s neg eff ds n -> base_valid base = true.
Proof. intros (ws & sg & pre & rest & _ & _ & _ & _ & Hr & _). by eapply base_valid_radix. Qed.

Lemma strtoll_spec err base s neg eff ds n :
  numeral base s neg eff ds n ->
  let v := if neg then - value_from eff 0 ds else value_from eff 0 ds in
  strtoll err s base =
    if in_i64 v then (v, Some n, err)
    else (if neg then - 2 ^ 63 else 2 ^ 63 - 1, Some n, ERANGE).
Proof.
  intros Hn v. pose proof (numeral_valid _ _ _ _ _ _ Hn) as Hbv.
  destruct (parse_magnitude_spec _ _ _ _ _ _ Hn) as (acc & Hp & Ha & Hv & Hn0).
  unfold strtoll. rewrite Hbv, Hp. cbn [negb]. replace (n <? 0) with false by lia.
  assert (Hge : 0 <= value_from eff 0 ds).
  { destruct Hn as (ws & sg & pre & rest & _ & _ & _ & _ & Hr & _). apply radix_bounds in Hr.
    apply value_from_ge; lia. }
  unfold v. set (V := value_from eff 0 ds) in *. unfold in_i64, LLONG_MIN, LLONG_MAX.
  destruct (V <? 2 ^ 64) eqn:E; cbn [negb orb].
  - rewrite (Hv ltac:(lia)). destruct neg; cbn [negb andb orb].
    + destruct (V <=? 2 ^ 63) eqn:E2; repeat bool_if; [by rewrite i64_u64_neg by lia|done].
    + rewrite orb_false_r. destruct (V <? 2 ^ 63) eqn:E2; repeat bool_if; [by rewrite i64_small by (unfold is_i64; lia)|done].
  - destruct neg; repeat bool_if; done.
Qed.

Lemma strtoull_spec err base s neg eff ds n :
  numeral base s neg eff ds n ->
  let v := if neg then - value_from eff 0 ds else value_from eff 0 ds in
  strtoull err s base =
    (if value_from eff 0 ds <? 2 ^ 64 then (u64 v, Some n, err) else (2 ^ 64 - 1, Some n, ERANGE)).
Proof.
  intros Hn v. pose proof (numeral_valid _ _ _ _ _ _ Hn) as Hbv.
  destruct (parse_magnitude_spec _ _ _ _ _ _ Hn) as (acc & Hp & Ha & Hv & Hn0).
  unfold strtoull. rewrite Hbv, Hp. cbn [negb]. replace (n <? 0) with false by lia. unfold v.
  destruct (value_from eff 0 ds <? 2 ^ 64) eqn:E; cbn [negb]; [|done]. rewrite <- (Hv ltac:(lia)).
  destruct neg; [by rewrite Z.sub_0_l|]. by rewrite u64_small.
Qed.

(** No digits: the value is 0, the end pointer the start of the string, errno untouched. *)
Lemma strtoll_no_digits err base s :
  base_valid base = true ->
  (let '(_, p) := take_sign (skip_spaces s) in let '(b, p') := take_prefix base p in b <= digit_value (peek p')) ->
  strtoll err s base = (0, Some 0, err).
Proof.
  intros Hb. unfold strtoll, parse_magnitude. rewrite Hb. cbn [negb].
  destruct (take_sign (skip_spaces s)) as [neg p]. destruct (take_prefix base p) as [b p'].
  intros Hd. assert (Hl : digit_loop p' b 0 false false = (0, false, false, p')).
  { destruct p' as [|c p']; simpl in *; [done|]. by bool_if. }
  rewrite Hl. by destruct neg.
Qed.

(** C27. On a numeral (white space, sign, 0x or 0b prefix, digits) strtoll
    returns the value when it fits in 64 signed bits, and otherwise the
    nearest bound with ERANGE; strtoull the value or its negation modulo
    2^64, and ULLONG_MAX with ERANGE when the digits exceed 64 bits.  In each
    case [end] is set right behind the last digit. *)
Theorem strtoll_clamps err base s neg eff ds n :
  numeral base s neg eff ds n ->
  let v := if neg then - value_from eff 0 ds else value_from eff 0 ds in
  strtoll err s base =
    (if in_i64 v then (v, Some n, err) else (if neg then - 2 ^ 63 else 2 ^ 63 - 1, Some n, ERANGE)) /\
  strtoull err s base =
    (if value_from eff 0 ds <? 2 ^ 64 then (u64 v, Some n, err) else (2 ^ 64 - 1, Some n, ERANGE)).
Proof.
  intros Hn v. split; [by apply strtoll_spec|by apply strtoull_spec].
Qed.

(** ** rand *)

(** The recurrence r[i] = r[i-31] + r[i-3] on the whole history. *)
Definition extend_history (l : list Z) : list Z :=
  l ++ [u32 (nth (length l - 31) l 0 + nth (length l - 3) l 0)].

Fixpoint history (k : nat) (l : list Z) : list Z :=
  match k with
  | O => l
  | S k' => history k' (extend_history l)
  end.

(** The ring holds the last 34 words of the history, oldest first from [rand_head]. *)
Definition ring_holds (st : rand_state) (l : list Z) : Prop :=
  length (rand_ring st) = 34%nat /\ 0 <= rand_head st < 34 /\ (34 <= length l)%nat /\
  forall k : nat, (k < 34)%nat ->
    ring_at (rand_ring st) ((rand_head st + Z.of_nat k) mod 34) = nth (length l - 34 + k) l 0.

Lemma rand_next_word_spec st l :
  ring_holds st l ->
  (rand_next_word st).1 = u32 (nth (length l - 31) l 0 + nth (length l - 3) l 0) /\
  ring_holds (rand_next_word st).2 (extend_history l) /\ rand_seeded (rand_next_word st).2 = rand_seeded st.
Proof.
  intros (Hr & Hh & Hl & Hk). unfold rand_next_word, RAND_WORDS, RAND_LAG, RAND_TAP. cbn [fst snd].
  set (w := u32 _). assert (Hw : w = u32 (nth (length l - 31) l 0 + nth (length l - 3) l 0)).
  { unfold w. change (34 - 31) with (Z.of_nat 3). change (34 - 3) with (Z.of_nat 31).
    rewrite !Hk by lia. do 3 f_equal; f_equal; lia. }
  split; [done|]. split; [|done]. unfold ring_holds, extend_history. rewrite <- Hw. cbn [rand_ring rand_head].
  rewrite length_insert, length_app. simpl length.
  split; [done|]. split; [zdm|]. split; [lia|]. intros k Hlt. unfold ring_at.
  destruct (decide (k = 33)%nat) as [->|].
  - replace ((_ + Z.of_nat 33) mod 34) with (rand_head st) by zdm.
    rewrite list_lookup_insert_eq by lia. simpl. rewrite app_nth2 by lia.
    by replace (length l + 1 - 34 + 33 - length l)%nat with 0%nat by lia.
  - rewrite app_nth1 by lia. rewrite list_lookup_insert_ne by zdm.
    replace (length l + 1 - 34 + k)%nat with (length l - 34 + S k)%nat by lia. rewrite <- Hk by lia.
    unfold ring_at. do 3 f_equal. zdm.
Qed.

(** The first 34 words that srand computes, and the calls of rand that follow it. *)
Definition seed_list (seed : Z) : list Z :=
  let w := seed_words 31 (i32 (if seed =? 0 then 1 else seed)) in map u32 (w ++ take 3 w).

Fixpoint rand_calls (k : nat) (st : rand_state) : list Z :=
  match k with
  | O => []
  | S k' => (rand st).1 :: rand_calls k' (rand st).2
  end.

Lemma length_seed_words k x : length (seed_words k x) = k.
Proof. revert x; induction k as [|k IH]; intros x; simpl; [done|]. by rewrite IH. Qed.

Lemma seed_holds seed : ring_holds (mkRand (seed_list seed) 0 true) (seed_list seed).
Proof.
  assert (Hl : length (seed_list seed) = 34%nat).
  { unfold seed_list. by rewrite length_map, length_app, length_take, length_seed_words. }
  split; [done|]. split; [simpl; lia|]. split; [lia|]. intros k Hk. unfold ring_at. cbn [rand_ring rand_head].
  rewrite Z.mod_small, Z.add_0_l, Nat2Z.id, Hl by lia.
  symmetry. apply nth_lookup.
Qed.

Lemma discard_spec k : forall st l, ring_holds st l ->
  ring_holds (discard k st) (history k l) /\ rand_seeded (discard k st) = rand_seeded st.
Proof.
  induction k as [|k IH]; intros st l H; cbn [discard history]; [done|].
  destruct (rand_next_word_spec st l H) as (_ & H1 & H2). destruct (IH _ _ H1) as [H3 H4]. split; [done|congruence].
Qed.

Lemma rand_spec st l : ring_holds st l -> rand_seeded st = true ->
  (rand st).1 = Z.shiftr (nth (length l) (extend_history l) 0) 1 /\ 0 <= (rand st).1 <= INT_MAX /\
  ring_holds (rand st).2 (extend_history l) /\ rand_seeded (rand st).2 = true.
Proof.
  intros H Hs. unfold rand. rewrite Hs. destruct (rand_next_word_spec st l H) as (Hw & H1 & H2).
  destruct (rand_next_word st) as [w st']. cbn [fst snd] in *.
  assert (Hn : nth (length l) (extend_history l) 0 = w).
  { unfold extend_history. rewrite app_nth2, Nat.sub_diag by lia. by rewrite Hw. }
  assert (Hr : 0 <= w < 2 ^ 32) by (rewrite Hw; apply u32_range).
  assert (Hsh : 0 <= Z.shiftr w 1 < 2 ^ 31) by (rewrite Z.shiftr_div_pow2 by lia; change (2 ^ 1) with 2; zdm).
  rewrite Hn, i32_small by (unfold is_i32; lia). unfold INT_MAX.
  split; [done|]. split; [lia|]. split; [done|congruence].
Qed.

Lemma length_history k : forall l, length (history k l) = (length l + k)%nat.
Proof.
  induction k as [|k IH]; intros l; simpl; [lia|]. rewrite IH. unfold extend_history. rewrite length_app. simpl. lia.
Qed.

Lemma history_prefix k : forall l, l `prefix_of` history k l.
Proof.
  induction k as [|k IH]; intros l; simpl; [done|]. etransitivity; [|apply IH]. by eexists.
Qed.

Lemma nth_prefix (l l' : list Z) n : l `prefix_of` l' -> (n < length l)%nat -> nth n l' 0 = nth n l 0.
Proof. intros [k ->] Hn. by rewrite app_nth1. Qed.

Lemma rand_calls_spec k : forall st l, ring_holds st l -> rand_seeded st = true ->
  forall n, (n < k)%nat ->
    rand_calls k st !! n = Some (Z.shiftr (nth (length l + n) (history k l) 0) 1) /\
    0 <= Z.shiftr (nth (length l + n) (history k l) 0) 1 <= INT_MAX.
Proof.
  induction k as [|k IH]; intros st l H Hs n Hn; [lia|]. cbn [rand_calls history].
  destruct (rand_spec st l H Hs) as (Hv & Hb & H' & Hs').
  assert (Hlen : length (extend_history l) = S (length l)) by (unfold extend_history; rewrite length_app; simpl; lia).
  destruct n as [|n]; cbn [lookup list_lookup].
  - rewrite Nat.add_0_r, (nth_prefix (extend_history l)) by (apply history_prefix || lia).
    rewrite <- Hv. done.
  - destruct (IH _ _ H' Hs' n ltac:(lia)) as [E1 E2]. rewrite Hlen in E1, E2.
    replace (length l + S n)%nat with (S (length l) + n)%nat by lia. done.
Qed.

(** C28. After srand(seed), the n-th call of rand returns word 344 + n of the
    sequence r[i] = r[i-31] + r[i-3] (mod 2^32) over the 34 seed words,
    without its lowest bit: the 34-word ring computes the recurrence of the
    whole history, and every value lies within [0, RAND_MAX]. *)
Theorem rand_follows_recurrence seed k n :
  (n < k)%nat ->
  let r := history (310 + k) (seed_list seed) in
  rand_calls k (srand seed) !! n = Some (Z.shiftr (nth (344 + n) r 0) 1) /\
  0 <= Z.shiftr (nth (344 + n) r 0) 1 <= INT_MAX.
Proof.
  intros Hn r. unfold r.
  assert (Hh : history (310 + k) (seed_list seed) = history k (history 310 (seed_list seed))).
  { generalize 310%nat as j. intros j. generalize (seed_list seed) as l. induction j as [|j IH]; intros l; [done|]. apply IH. }
  destruct (discard_spec 310 _ _ (seed_holds seed)) as [H1 H2].
  destruct (rand_calls_spec k (srand seed) (history 310 (seed_list seed)) H1 H2 n Hn) as [E1 E2].
  rewrite length_history in E1, E2.
  assert (Hl : length (seed_list seed) = 34%nat) by apply (seed_holds seed).
  rewrite Hl in E1, E2. rewrite Hh. done.
Qed.

(** ** Instances *)

Lemma strtoll_clamps_witness :
  strtoll 0 (str " -0x1Fz") 0 = (-31, Some 6, 0) /\ strtoull 0 (str " -0x1Fz") 0 = (2 ^ 64 - 31, Some 6, 0).
Proof.
  apply (strtoll_clamps 0 0 (str " -0x1Fz") true 16 (str "1F") 6).
  exists (str " "), (str "-"), (str "0x"), (str "z"). split; [reflexivity|]. split; [reflexivity|].
  split; [repeat constructor|]. split; [constructor|].
  split; [apply radix_hex; repeat split; vm_compute; auto|].
  split; [discriminate|]. split; [repeat constructor; vm_compute; discriminate|]. vm_compute. discriminate.
Defined.

Lemma rand_follows_recurrence_witness :
  rand_calls 3 (srand 1) !! 1%nat = Some (Z.shiftr (nth 345 (history 313 (seed_list 1)) 0) 1) /\
  0 <= Z.shiftr (nth 345 (history 313 (seed_list 1)) 0) 1 <= INT_MAX.
Proof. apply (rand_follows_recurrence 1 3 1). lia. Defined.
