(* ===== verification/Algo.v ===== *)
(** * Sorting and searching: algo.c

    qsort, bsearch and rand_r.  An array is the list of its elements (each
    [size] bytes wide); the comparison function is a parameter, as in C.
    Indices are size_t, with the additions of the code taken modulo 2^64.  A
    read or write outside an array is a fault. *)

From Stdlib Require Import Sorted.
From S2P Require Import Prelude Mem Alloc.

Section sort.
Context {A : Type} (cmp : A -> A -> Z).

(** ** merge_sort *)

(** memcpy of [n] elements from [src + i] to [dst + k]. *)
Fixpoint copy_elems (n : nat) (src dst : list A) (i k : Z) : option (list A) :=
  match n with
  | O => Some dst
  | S n' => x ← at_index src i; dst' ← set_index dst k x; copy_elems n' src dst' (i + 1) (k + 1)
  end.

(** while (i < mid && j < hi) *)
Fixpoint merge_loop (fuel : nat) (src dst : list A) (i j k mid hi : Z) : option (list A * Z * Z * Z) :=
  match fuel with
  | O => None
  | S f =>
      if (i <? mid) && (j <? hi) then
        y ← at_index src j;
        x ← at_index src i;
        if cmp y x <? 0 then
          dst' ← set_index dst k y; merge_loop f src dst' i (j + 1) (k + 1) mid hi
        else
          dst' ← set_index dst k x; merge_loop f src dst' (i + 1) j (k + 1) mid hi
      else Some (dst, i, j, k)
  end.

(** The body of the loop over [lo]: merge the runs [lo, mid) and [mid, hi), then copy what is
    left of one of them. *)
Definition merge_rest (src : list A) (mid hi : Z) (r : list A * Z * Z * Z) : option (list A) :=
  let '(dst, i, j, k) := r in
  if i <? mid then copy_elems (Z.to_nat (mid - i)) src dst i k
  else if j <? hi then copy_elems (Z.to_nat (hi - j)) src dst j k
  else Some dst.

Definition merge_runs (src dst : list A) (lo mid hi : Z) : option (list A) :=
  r ← merge_loop (S (Z.to_nat (hi - lo))) src dst lo mid lo mid hi; merge_rest src mid hi r.

Fixpoint pass_loop (fuel : nat) (src dst : list A) (n width lo : Z) : option (list A) :=
  match fuel with
  | O => None
  | S f =>
      if lo <? n then
        let mid := if u64 (lo + width) <? n then u64 (lo + width) else n in
        let hi := if u64 (lo + u64 (2 * width)) <? n then u64 (lo + u64 (2 * width)) else n in
        dst' ← merge_runs src dst lo mid hi;
        pass_loop f src dst' n width (u64 (lo + u64 (2 * width)))
      else Some dst
  end.

(** The loop over [width]; [in_base] says whether [src] is [base]. Returns [src] and the flag. *)
Fixpoint width_loop (fuel : nat) (src dst : list A) (in_base : bool) (n width : Z) : option (list A * list A * bool) :=
  match fuel with
  | O => None
  | S f =>
      if width <? n then
        dst' ← pass_loop (S (Z.to_nat n)) src dst n width 0;
        width_loop f dst' src (negb in_base) n (u64 (width * 2))
      else Some (src, dst, in_base)
  end.

(** The final contents of [base]; 64 doublings exceed any size_t. *)
Definition merge_sort (base tmp : list A) (n : Z) : option (list A) :=
  r ← width_loop 65 base tmp true n 1;
  let '(src, dst, in_base) := r in
  if (in_base : bool) then Some src else copy_elems (Z.to_nat n) src dst 0 0.

(** ** insertion_sort *)

(** while (j > 0 && cmp(base[j-1], base[j]) > 0) swap them *)
Fixpoint sink (j : nat) (base : list A) : option (list A) :=
  match j with
  | O => Some base
  | S j' =>
      x ← base !! j';
      y ← base !! j;
      if 0 <? cmp x y then sink j' (<[j' := y]> (<[j := x]> base)) else Some base
  end.

Fixpoint insertion_loop (k : nat) (i : nat) (base : list A) : option (list A) :=
  match k with
  | O => Some base
  | S k' => base' ← sink i base; insertion_loop k' (S i) base'
  end.

Definition insertion_sort (base : list A) (n : Z) : option (list A) :=
  insertion_loop (Z.to_nat (n - 1)) 1 base.

(** ** qsort *)

(** [scratch] is what the malloc'ed memory happens to hold. *)
Definition qsort `{Allocator H} (h : H) (base : list A) (nmemb size : Z) (scratch : list A) : option (list A * H) :=
  if (nmemb <? 2) || (size =? 0) then Some (base, h)
  else if negb (size =? 0) && (SIZE_MAX / size <? nmemb) then
    b ← insertion_sort base nmemb; Some (b, h)
  else
    let '(tmp, h1) := hmalloc h (u64 (nmemb * size)) in
    if tmp =? 0 then b ← insertion_sort base nmemb; Some (b, h1)
    else b ← merge_sort base scratch nmemb; Some (b, hfree h1 tmp).

(** ** bsearch *)

(** The comparison of the key with an element; the result is the index of the hit. *)
Fixpoint bsearch_loop (fuel : nat) (cmpk : A -> Z) (base : list A) (lo hi : Z) : option (option Z) :=
  match fuel with
  | O => None
  | S f =>
      if lo <? hi then
        let mid := lo + (hi - lo) / 2 in
        p ← at_index base mid;
        let c := cmpk p in
        if c <? 0 then bsearch_loop f cmpk base lo mid
        else if 0 <? c then bsearch_loop f cmpk base (mid + 1) hi
        else Some (Some mid)
      else Some None
  end.

Definition bsearch (cmpk : A -> Z) (base : list A) (nmemb : Z) : option (option Z) :=
  bsearch_loop 65 cmpk base 0 nmemb.
End sort.

(** ** rand_r *)

(** One step of the generator. *)
Definition lcg (next : Z) : Z := u32 (u32 (next * 1103515245) + 12345).

(** The value and the new seed. *)
Definition rand_r (seed : Z) : Z * Z :=
  let n1 := lcg seed in
  let r1 := n1 / 65536 mod 2048 in
  let n2 := lcg n1 in
  let r2 := Z.lxor (u32 (Z.shiftl r1 10)) (n2 / 65536 mod 1024) in
  let n3 := lcg n2 in
  let r3 := Z.lxor (u32 (Z.shiftl r2 10)) (n3 / 65536 mod 1024) in
  (i32 r3, n3).

(** ** The reference: stable sorting *)

(** [seg l i xs]: the elements of [l] from index [i] on are [xs]. *)
Fixpoint seg {A} (l : list A) (i : nat) (xs : list A) : Prop :=
  match xs with
  | [] => True
  | x :: xs' => l !! i = Some x /\ seg l (S i) xs'
  end.

Lemma seg_drop {A} (l : list A) i xs : seg l i xs <-> xs `prefix_of` drop i l.
Proof.
  revert i; induction xs as [|x xs IH]; intros i; simpl.
  { split; [intros _; apply prefix_nil|done]. }
  rewrite IH. split.
  - intros [Hx Hp]. rewrite (drop_S _ _ _ Hx). by apply prefix_cons.
  - intros Hp. destruct (l !! i) as [y|] eqn:Hy.
    + rewrite (drop_S _ _ _ Hy) in Hp. apply prefix_cons_inv_1 in Hp as Hxy. apply prefix_cons_inv_2 in Hp.
      by subst y.
    + apply lookup_ge_None in Hy. rewrite drop_ge in Hp by done. by apply prefix_nil_not in Hp.
Qed.

Lemma seg_app {A} (l : list A) i xs ys : seg l i (xs ++ ys) <-> seg l i xs /\ seg l (i + length xs) ys.
Proof.
  revert i; induction xs as [|x xs IH]; intros i; simpl; [rewrite Nat.add_0_r; tauto|].
  rewrite IH, <- Nat.add_succ_comm. tauto.
Qed.

Lemma seg_bound {A} (l : list A) i xs : seg l i xs -> xs <> [] -> (i + length xs <= length l)%nat.
Proof.
  intros H Hne. apply seg_drop in H as [k Hk]. apply (f_equal length) in Hk.
  rewrite length_drop, length_app in Hk. destruct xs; [done|]. simpl in *. lia.
Qed.

Section reference.
Context {A : Type} (cmp : A -> A -> Z).

(** On a tie the left element comes first. *)
Fixpoint merge_lists (xs : list A) : list A -> list A :=
  fix aux ys :=
    match xs, ys with
    | [], _ => ys
    | _, [] => xs
    | x :: xs', y :: ys' => if cmp y x <? 0 then y :: aux ys' else x :: merge_lists xs' ys
    end.

(** The runs of width [w], merged two by two. *)
Fixpoint merge_pass (fuel : nat) (w : nat) (l : list A) : list A :=
  match fuel with
  | O => []
  | S f =>
      match l with
      | [] => []
      | _ => merge_lists (take w l) (take w (drop w l)) ++ merge_pass f w (drop (w + w) l)
      end
  end.

Definition cmp_le (x y : A) : Prop := cmp x y <= 0.
Definition eqv (x y : A) : bool := cmp x y =? 0.

(** [l'] is the stable sort of [l]: sorted, the same elements, equivalent ones in their old order. *)
Definition stable_sort_of (l l' : list A) : Prop :=
  StronglySorted cmp_le l' /\ l ≡ₚ l' /\ forall z, List.filter (eqv z) l' = List.filter (eqv z) l.

Lemma merge_nil_l ys : merge_lists [] ys = ys.
Proof. by destruct ys. Qed.

Lemma merge_nil_r xs : merge_lists xs [] = xs.
Proof. by destruct xs. Qed.

Lemma merge_cons x xs y ys :
  merge_lists (x :: xs) (y :: ys) = if cmp y x <? 0 then y :: merge_lists (x :: xs) ys else x :: merge_lists xs (y :: ys).
Proof. done. Qed.

Lemma length_merge xs ys : length (merge_lists xs ys) = (length xs + length ys)%nat.
Proof.
  revert ys; induction xs as [|x xs IHx]; intros ys; [by destruct ys|].
  induction ys as [|y ys IHy]; [by rewrite merge_nil_r, Nat.add_0_r|]. rewrite merge_cons.
  destruct (cmp y x <? 0); simpl in *; [rewrite IHy|rewrite IHx; simpl]; lia.
Qed.

(** Laws of a qsort comparison: a total preorder. *)
Record cmp_order : Prop := {
  cmp_flip x y : cmp x y < 0 <-> 0 < cmp y x;
  cmp_trans x y z : cmp x y <= 0 -> cmp y z <= 0 -> cmp x z <= 0;
}.
Context (Hcmp : cmp_order).

Lemma merge_perm xs ys : xs ++ ys ≡ₚ merge_lists xs ys.
Proof.
  revert ys; induction xs as [|x xs IHx]; intros ys; [by rewrite merge_nil_l|].
  induction ys as [|y ys IHy]; [by rewrite app_nil_r|]. rewrite merge_cons.
  destruct (cmp y x <? 0).
  - rewrite <- IHy. symmetry. apply Permutation_middle.
  - simpl. by rewrite <- IHx.
Qed.

Lemma Forall_merge (P : A -> Prop) xs ys : Forall P xs -> Forall P ys -> Forall P (merge_lists xs ys).
Proof. intros. rewrite <- merge_perm. by apply Forall_app. Qed.

Lemma le_all x y l : cmp_le x y -> Forall (cmp_le y) l -> Forall (cmp_le x) l.
Proof. intros Hxy Hl. eapply Forall_impl; [done|]. intros z Hz. by eapply (cmp_trans Hcmp). Qed.

Lemma merge_sorted xs ys : StronglySorted cmp_le xs -> StronglySorted cmp_le ys -> StronglySorted cmp_le (merge_lists xs ys).
Proof.
  revert ys; induction xs as [|x xs IHx]; intros ys Hx Hy; [by rewrite merge_nil_l|].
  induction ys as [|y ys IHy]; [done|]. rewrite merge_cons.
  apply StronglySorted_inv in Hx as [Hx Hfx]. apply StronglySorted_inv in Hy as [Hy Hfy].
  destruct (cmp y x <? 0) eqn:E; constructor.
  - apply IHy; auto.
  - assert (Hyx : cmp_le y x) by (unfold cmp_le; lia). apply Forall_merge; [|done]. constructor; [done|]. by eapply le_all.
  - apply IHx; [done|]. by constructor.
  - assert (Hxy : cmp_le x y) by (unfold cmp_le; pose proof (cmp_flip Hcmp y x); lia).
    apply Forall_merge; [done|]. constructor; [done|]. by eapply le_all.
Qed.

Lemma eqv_spec z x : eqv z x = true <-> cmp_le z x /\ cmp_le x z.
Proof. unfold eqv, cmp_le. pose proof (cmp_flip Hcmp z x). pose proof (cmp_flip Hcmp x z). rewrite Z.eqb_eq. lia. Qed.

(** Nothing equivalent to [z] among elements strictly above it. *)
Lemma filter_above z y l : cmp_le z y -> eqv z y = true -> Forall (fun x => cmp y x < 0) l -> List.filter (eqv z) l = [].
Proof.
  intros Hzy Hez. induction 1 as [|x l Hx Hl IH]; [done|]. simpl. rewrite IH.
  destruct (eqv z x) eqn:E; [|done]. exfalso. apply eqv_spec in E as [_ Hxz].
  pose proof (cmp_trans Hcmp x z y Hxz Hzy). pose proof (cmp_flip Hcmp y x). lia.
Qed.

Lemma merge_stable z xs ys : StronglySorted cmp_le xs -> StronglySorted cmp_le ys ->
  List.filter (eqv z) (merge_lists xs ys) = List.filter (eqv z) xs ++ List.filter (eqv z) ys.
Proof.
  revert ys; induction xs as [|x xs IHx]; intros ys Hx Hy; [by rewrite merge_nil_l|].
  induction ys as [|y ys IHy]; [by rewrite merge_nil_r, app_nil_r|]. rewrite merge_cons.
  pose proof (StronglySorted_inv Hx) as [Hx' Hfx]. pose proof (StronglySorted_inv Hy) as [Hy' Hfy].
  destruct (cmp y x <? 0) eqn:E.
  - cbn [List.filter] in *. rewrite IHy by done. destruct (eqv z y) eqn:Ez; [|done].
    assert (Hnil : List.filter (eqv z) (x :: xs) = []).
    { apply (filter_above z y); [by destruct (proj1 (eqv_spec z y) Ez)|done|]. constructor; [lia|].
      eapply Forall_impl; [exact Hfx|]. intros w Hw. simpl in Hw.
      destruct (decide (cmp y w < 0)) as [|Hn]; [done|exfalso].
      assert (Hwy : cmp_le w y) by (unfold cmp_le; pose proof (cmp_flip Hcmp y w); pose proof (cmp_flip Hcmp w y); lia).
      pose proof (cmp_trans Hcmp x w y Hw Hwy). pose proof (cmp_flip Hcmp y x). lia. }
    cbn [List.filter] in Hnil. by rewrite Hnil.
  - cbn [List.filter]. rewrite IHx by done. cbn [List.filter]. by destruct (eqv z x).
Qed.

(** [runs w l]: the consecutive runs of width [w] are sorted. *)
Inductive runs (w : nat) : list A -> Prop :=
  | runs_nil : runs w []
  | runs_step l : StronglySorted cmp_le (take w l) -> runs w (drop w l) -> runs w l.

Lemma runs_inv w l : runs w l -> StronglySorted cmp_le (take w l) /\ runs w (drop w l).
Proof. intros [|l' H1 H2]; [|done]. rewrite take_nil, drop_nil. split; constructor. Qed.

Lemma runs_one fuel : forall l, (length l <= fuel)%nat -> runs 1 l.
Proof.
  induction fuel as [|fuel IH]; intros [|x l] Hl; simpl in Hl; try (constructor; fail); [lia|].
  apply runs_step; simpl; [by repeat constructor|]. rewrite drop_0. apply IH. lia.
Qed.

Lemma runs_all w l : runs w l -> (length l <= w)%nat -> StronglySorted cmp_le l.
Proof. intros [H _]%runs_inv Hl. by rewrite firstn_all2 in H. Qed.

Lemma length_merge_pass w fuel : forall l, (0 < w)%nat -> (length l <= fuel)%nat ->
  length (merge_pass fuel w l) = length l.
Proof.
  induction fuel as [|fuel IH]; intros l Hw Hl; simpl; [by destruct l; simpl in *; [|lia]|].
  destruct l as [|x l]; [done|]. set (L := x :: l) in *.
  rewrite length_app, length_merge, IH, !length_take, !length_drop; [lia|done|].
  rewrite length_drop. simpl in *. lia.
Qed.

Lemma merge_pass_fuel w fuel : forall fuel' l, (0 < w)%nat -> (length l <= fuel)%nat -> (length l <= fuel')%nat ->
  merge_pass fuel w l = merge_pass fuel' w l.
Proof.
  induction fuel as [|fuel IH]; intros [|fuel'] l Hw H1 H2; destruct l as [|x l]; simpl in *; try done; try lia.
  f_equal. apply IH; [done|rewrite length_drop; simpl; lia..].
Qed.

Lemma merge_pass_runs w fuel : forall l, (0 < w)%nat -> (length l <= fuel)%nat -> runs w l ->
  runs (w + w) (merge_pass fuel w l).
Proof.
  induction fuel as [|fuel IH]; intros l Hw Hl Hr; simpl; [constructor|].
  destruct l as [|x l]; [constructor|]. set (L := x :: l) in *.
  apply runs_inv in Hr as [H1 Hr]. apply runs_inv in Hr as [H2 Hr]. rewrite drop_drop in Hr.
  set (M := merge_lists (take w L) (take w (drop w L))).
  assert (HM : StronglySorted cmp_le M) by (by apply merge_sorted).
  assert (Hlen : length M = Nat.min (w + w) (length L)).
  { unfold M. rewrite length_merge, !length_take, length_drop. lia. }
  destruct (decide (length L <= w + w)%nat) as [Hs|Hs].
  - rewrite (drop_ge L) by lia. replace (merge_pass fuel w []) with (@nil A) by (by destruct fuel).
    rewrite app_nil_r. apply runs_step; [rewrite firstn_all2 by lia; done|rewrite drop_ge by lia; constructor].
  - apply runs_step.
    + rewrite take_app_le, firstn_all2 by lia. done.
    + rewrite drop_app_ge, (proj2 (Nat.sub_0_le _ _)), drop_0 by lia. apply IH; [done| |done].
      rewrite length_drop. simpl in *. lia.
Qed.

Lemma merge_pass_perm w fuel : forall l, (0 < w)%nat -> (length l <= fuel)%nat -> l ≡ₚ merge_pass fuel w l.
Proof.
  induction fuel as [|fuel IH]; intros l Hw Hl; simpl; [by destruct l; simpl in *; [|lia]|].
  destruct l as [|x l]; [done|]. set (L := x :: l) in *.
  rewrite <- IH; [|done|rewrite length_drop; simpl in *; lia].
  rewrite <- merge_perm, <- app_assoc, <- (drop_drop L w w), !take_drop. done.
Qed.

Lemma merge_pass_stable z w fuel : forall l, (0 < w)%nat -> (length l <= fuel)%nat -> runs w l ->
  List.filter (eqv z) (merge_pass fuel w l) = List.filter (eqv z) l.
Proof.
  induction fuel as [|fuel IH]; intros l Hw Hl Hr; cbn [merge_pass]; [by destruct l; simpl in *; [|lia]|].
  destruct l as [|x l]; [done|]. set (L := x :: l) in *.
  apply runs_inv in Hr as [H1 Hr]. apply runs_inv in Hr as [H2 Hr]. rewrite drop_drop in Hr.
  rewrite List.filter_app, merge_stable, IH by (done || (rewrite length_drop; simpl in *; lia)).
  rewrite <- (drop_drop L w w), <- !List.filter_app, <- app_assoc, !take_drop. done.
Qed.

(** Merging passes of width [w], [2 w], ... until one run is left. *)
Fixpoint merge_passes (fuel : nat) (w : nat) (l : list A) : list A :=
  match fuel with
  | O => l
  | S f => if decide (w < length l)%nat then merge_passes f (w + w) (merge_pass (length l) w l) else l
  end.

Lemma stable_sort_trans l1 l2 l3 :
  l1 ≡ₚ l2 -> (forall z, List.filter (eqv z) l2 = List.filter (eqv z) l1) -> stable_sort_of l2 l3 ->
  stable_sort_of l1 l3.
Proof. intros H1 H2 (H3 & H4 & H5). split; [done|]. split; [by rewrite H1|]. intros z. by rewrite H5. Qed.

Lemma merge_passes_sorts fuel : forall w l, (0 < w)%nat -> runs w l -> Z.of_nat (length l) <= Z.of_nat w * 2 ^ Z.of_nat fuel ->
  stable_sort_of l (merge_passes fuel w l).
Proof.
  induction fuel as [|fuel IH]; intros w l Hw Hr Hl; cbn [merge_passes].
  { split; [|done]. apply (runs_all w); [done|]. change (2 ^ Z.of_nat 0) with 1 in Hl. lia. }
  destruct (decide (w < length l)%nat) as [Hlt|Hge]; [|split; [apply (runs_all w); [done|lia]|done]].
  apply (stable_sort_trans _ (merge_pass (length l) w l)).
  - by apply merge_pass_perm.
  - intros z. by apply merge_pass_stable.
  - apply IH; [lia|by apply merge_pass_runs|]. rewrite length_merge_pass by done.
    rewrite Nat2Z.inj_succ, Z.pow_succ_r in Hl by lia. lia.
Qed.
End reference.

(** ** The loops compute the reference *)

Section code.
Context {A : Type} (cmp : A -> A -> Z).

Lemma elem_nat (l : list A) (i : nat) : at_index l (Z.of_nat i) = l !! i.
Proof. unfold at_index. bool_if. by rewrite Nat2Z.id. Qed.

Lemma put_app (a b : list A) x y : set_index (a ++ x :: b) (Z.of_nat (length a)) y = Some ((a ++ [y]) ++ b).
Proof.
  unfold set_index. rewrite length_app. simpl. bool_if. rewrite Nat2Z.id, insert_app_r_alt by lia.
  by rewrite Nat.sub_diag, <- app_assoc.
Qed.

Lemma copy_elems_spec xs : forall src (a b : list A) (i k : nat),
  seg src i xs -> k = length a -> (length xs <= length b)%nat ->
  copy_elems (length xs) src (a ++ b) (Z.of_nat i) (Z.of_nat k) = Some (a ++ xs ++ drop (length xs) b).
Proof.
  induction xs as [|x xs IH]; intros src a b i k Hs -> Hb; cbn [copy_elems length]; [by rewrite drop_0|].
  destruct Hs as [Hx Hs]. rewrite elem_nat, Hx. obind.
  destruct b as [|y b]; simpl in Hb; [lia|]. rewrite put_app. obind.
  replace (Z.of_nat i + 1) with (Z.of_nat (S i)) by lia.
  replace (Z.of_nat (length a) + 1) with (Z.of_nat (length (a ++ [x]))) by (rewrite length_app; simpl; lia).
  rewrite IH by (done || lia). by rewrite <- app_assoc.
Qed.

Lemma merge_rest_spec xs ys src (a b : list A) (i j : nat) :
  seg src i xs -> seg src j ys -> (length xs + length ys <= length b)%nat -> xs = [] \/ ys = [] ->
  merge_rest src (Z.of_nat (i + length xs)) (Z.of_nat (j + length ys)) (a ++ b, Z.of_nat i, Z.of_nat j, Z.of_nat (length a))
  = Some (a ++ merge_lists cmp xs ys ++ drop (length xs + length ys) b).
Proof.
  intros Hx Hy Hb Hne. unfold merge_rest. destruct xs as [|x xs].
  - rewrite merge_nil_l. simpl. destruct ys as [|y ys].
    + simpl. rewrite drop_0, !Nat.add_0_r, !Z.ltb_irrefl. done.
    + rewrite Nat.add_0_r, Z.ltb_irrefl. cbn [length]. bool_if.
      replace (Z.to_nat _) with (length (y :: ys)) by (simpl; lia). by apply copy_elems_spec.
  - destruct Hne as [| ->]; [done|]. rewrite merge_nil_r, !Nat.add_0_r. cbn [length] in *. bool_if.
    replace (Z.to_nat _) with (length (x :: xs)) by (simpl; lia).
    apply (copy_elems_spec (x :: xs)); simpl; auto. lia.
Qed.

Lemma merge_loop_spec fuel : forall xs ys src (a b : list A) (i j : nat),
  seg src i xs -> seg src j ys -> (length xs + length ys <= length b)%nat -> (length xs + length ys < fuel)%nat ->
  (r ← merge_loop cmp fuel src (a ++ b) (Z.of_nat i) (Z.of_nat j) (Z.of_nat (length a))
         (Z.of_nat (i + length xs)) (Z.of_nat (j + length ys));
   merge_rest src (Z.of_nat (i + length xs)) (Z.of_nat (j + length ys)) r)
  = Some (a ++ merge_lists cmp xs ys ++ drop (length xs + length ys) b).
Proof.
  induction fuel as [|fuel IH]; intros xs ys src a b i j Hx Hy Hb Hf; [lia|]. cbn [merge_loop].
  destruct xs as [|x xs]; [|destruct ys as [|y ys]].
  - replace (_ <? _) with false by (simpl; lia). cbn [andb]. obind. apply merge_rest_spec; auto.
  - replace (Z.of_nat j <? _) with false by (simpl; lia). rewrite andb_false_r. obind. apply merge_rest_spec; auto.
  - cbn [length] in *. bool_if. pose proof Hx as [Hx1 Hx2]. pose proof Hy as [Hy1 Hy2].
    rewrite !elem_nat, Hx1, Hy1. obind. rewrite merge_cons. destruct b as [|c b]; simpl in Hb; [lia|].
    destruct (cmp y x <? 0); rewrite put_app; obind.
    + replace (Z.of_nat j + 1) with (Z.of_nat (S j)) by lia.
      replace (Z.of_nat (length a) + 1) with (Z.of_nat (length (a ++ [y]))) by (rewrite length_app; simpl; lia).
      replace (j + S (length ys))%nat with (S j + length ys)%nat by lia.
      pose proof (IH (x :: xs) ys src (a ++ [y]) b i (S j) Hx Hy2 ltac:(simpl; lia) ltac:(simpl; lia)) as E.
      cbn [length] in E. rewrite E, <- app_assoc. simpl. do 4 f_equal. rewrite Nat.add_succ_r. done.
    + replace (Z.of_nat i + 1) with (Z.of_nat (S i)) by lia.
      replace (Z.of_nat (length a) + 1) with (Z.of_nat (length (a ++ [x]))) by (rewrite length_app; simpl; lia).
      replace (i + S (length xs))%nat with (S i + length xs)%nat by lia.
      pose proof (IH xs (y :: ys) src (a ++ [x]) b (S i) j Hx2 Hy ltac:(simpl; lia) ltac:(simpl; lia)) as E.
      cbn [length] in E. rewrite E, <- app_assoc. done.
Qed.

Lemma seg_take_drop (l : list A) i n : seg l i (take n (drop i l)).
Proof. apply seg_drop. exists (drop n (drop i l)). by rewrite take_drop. Qed.

Lemma pass_loop_spec w fuel : forall (src a b : list A) (lo : nat),
  (0 < w)%nat -> length a = Nat.min lo (length src) -> length (a ++ b) = length src ->
  Z.of_nat (length src) < 2 ^ 61 -> Z.of_nat w < 2 ^ 61 -> Z.of_nat lo < 2 ^ 63 -> (length (drop lo src) < fuel)%nat ->
  pass_loop cmp fuel src (a ++ b) (Z.of_nat (length src)) (Z.of_nat w) (Z.of_nat lo)
  = Some (a ++ merge_pass cmp fuel w (drop lo src)).
Proof.
  induction fuel as [|fuel IH]; intros src a b lo Hw Ha Hab Hn Hw2 Hlo Hf; [lia|]. cbn [pass_loop merge_pass].
  rewrite length_app in Hab. rewrite length_drop in Hf.
  destruct (decide (lo < length src)%nat) as [Hlt|Hge].
  2:{ bool_if. rewrite drop_ge by lia. by destruct b; simpl in *; [|lia]. }
  bool_if. rewrite !u64_small by (rewrite ?u64_small by lia; lia).
  destruct (drop lo src) as [|z zs] eqn:Ed.
  { apply (f_equal length) in Ed. rewrite length_drop in Ed. simpl in Ed. lia. }
  rewrite <- Ed. set (xs := take w (drop lo src)). set (ys := take w (drop w (drop lo src))).
  assert (Hlx : length xs = Nat.min w (length src - lo)) by (unfold xs; rewrite length_take, length_drop; lia).
  assert (Hly : length ys = Nat.min w (length src - lo - w)) by (unfold ys; rewrite length_take, !length_drop; lia).
  replace (if _ <? _ then _ else _) with (Z.of_nat (lo + length xs)) by (repeat bcase; lia).
  replace (if _ <? _ then _ else _) with (Z.of_nat (lo + length xs + length ys)) by (repeat bcase; lia).
  assert (Hlo' : lo = length a) by lia.
  unfold merge_runs.
  assert (Hsx : seg src lo xs) by apply seg_take_drop.
  assert (Hsy : seg src (lo + length xs) ys).
  { destruct (decide (lo + w <= length src)%nat).
    - replace (lo + length xs)%nat with (lo + w)%nat by lia. unfold ys. rewrite drop_drop. apply seg_take_drop.
    - assert (ys = []) as -> by (apply nil_length_inv; lia). done. }
  pose proof (merge_loop_spec (S (Z.to_nat (Z.of_nat (lo + length xs + length ys) - Z.of_nat lo))) xs ys src a b lo
    (lo + length xs) Hsx Hsy ltac:(lia) ltac:(lia)) as E.
  replace (len a) with (Z.of_nat lo) in E by lia. rewrite E. obind.
  replace (Z.of_nat lo + 2 * Z.of_nat w) with (Z.of_nat (lo + (w + w))) by lia. rewrite app_assoc, IH; try done; try lia.
  - by rewrite <- app_assoc, drop_drop.
  - rewrite length_app, length_merge. lia.
  - rewrite !length_app, length_merge, length_drop. lia.
  - rewrite length_drop. lia.
Qed.

Lemma width_loop_S f (src dst : list A) b n w :
  width_loop cmp (S f) src dst b n w =
    if w <? n then
      dst' ← pass_loop cmp (S (Z.to_nat n)) src dst n w 0; width_loop cmp f dst' src (negb b) n (u64 (w * 2))
    else Some (src, dst, b).
Proof. done. Qed.

Lemma width_loop_spec fuel : forall (src dst : list A) in_base (w : nat),
  (0 < w)%nat -> length dst = length src -> Z.of_nat (length src) < 2 ^ 61 -> Z.of_nat w < 2 ^ 62 ->
  Z.of_nat (length src) <= Z.of_nat w * 2 ^ Z.of_nat fuel ->
  exists dst' in_base', width_loop cmp (S fuel) src dst in_base (Z.of_nat (length src)) (Z.of_nat w)
    = Some (merge_passes cmp fuel w src, dst', in_base') /\ length dst' = length src /\
      length (merge_passes cmp fuel w src) = length src /\
      (in_base' = in_base \/ length dst = length src).
Proof.
  induction fuel as [|fuel IH]; intros src dst in_base w Hw Hd Hn Hw2 Hf; rewrite width_loop_S; cbn [merge_passes].
  { change (2 ^ Z.of_nat 0) with 1 in Hf. bool_if. exists dst, in_base. auto. }
  destruct (decide (w < length src)%nat) as [Hlt|Hge].
  2:{ bool_if. exists dst, in_base. auto. }
  bool_if. rewrite (pass_loop_spec w _ src [] dst 0); try done; try lia.
  2:{ rewrite drop_0. lia. }
  obind. rewrite drop_0. cbn [app].
  assert (Hfuel : merge_pass cmp (S (Z.to_nat (len src))) w src = merge_pass cmp (length src) w src).
  { apply merge_pass_fuel; lia. }
  rewrite Hfuel, u64_small by lia. replace (Z.of_nat w * 2) with (Z.of_nat (w + w)) by lia.
  assert (Hl : length (merge_pass cmp (length src) w src) = length src) by (by apply length_merge_pass).
  destruct (IH (merge_pass cmp (length src) w src) src (negb in_base) (w + w)%nat) as (d' & b' & E & E1 & E2 & _);
    try lia.
  { rewrite Hl. rewrite Nat2Z.inj_succ, Z.pow_succ_r in Hf by lia. lia. }
  rewrite Hl in E. exists d', b'. split; [exact E|]. split; [lia|]. split; [lia|auto].
Qed.

Lemma merge_sort_fuel f (base tmp : list A) :
  length tmp = length base -> Z.of_nat (length base) < 2 ^ 61 -> Z.of_nat (length base) <= 2 ^ Z.of_nat f ->
  (r ← width_loop cmp (S f) base tmp true (Z.of_nat (length base)) 1;
   let '(src, dst, in_base) := r in
   if (in_base : bool) then Some src else copy_elems (Z.to_nat (Z.of_nat (length base))) src dst 0 0)
  = Some (merge_passes cmp f 1 base).
Proof.
  intros Ht Hn Hf.
  destruct (width_loop_spec f base tmp true 1) as (d' & b' & E & E1 & E2 & _); try lia.
  change (Z.of_nat 1) with 1 in E. rewrite E. obind. destruct b'; [done|].
  rewrite Nat2Z.id, <- E2.
  pose proof (copy_elems_spec (merge_passes cmp f 1 base) (merge_passes cmp f 1 base) [] d' 0 0) as Ec.
  cbn [app length] in Ec. change (Z.of_nat 0) with 0 in Ec.
  rewrite Ec; [|apply seg_drop; by rewrite drop_0|done|lia].
  rewrite drop_ge by lia. by rewrite app_nil_r.
Qed.

Lemma merge_sort_spec (base tmp : list A) :
  length tmp = length base -> Z.of_nat (length base) < 2 ^ 61 ->
  merge_sort cmp base tmp (Z.of_nat (length base)) = Some (merge_passes cmp 64 1 base).
Proof. intros Ht Hn. apply merge_sort_fuel; [done|done|]. change (2 ^ Z.of_nat 64) with (2 ^ 64). lia. Qed.
End code.

(** ** insertion_sort *)

Section insertion.
Context {A : Type} (cmp : A -> A -> Z) (Hcmp : cmp_order cmp).

Lemma StronglySorted_app_iff (R : A -> A -> Prop) (l1 l2 : list A) :
  StronglySorted R (l1 ++ l2) <->
  StronglySorted R l1 /\ StronglySorted R l2 /\ Forall (fun x => Forall (R x) l2) l1.
Proof.
  induction l1 as [|x l1 IH]; simpl.
  { split; [intros H; split; [constructor|split; [done|constructor]]|tauto]. }
  split.
  - intros [H Hx]%StronglySorted_inv. apply IH in H as (H1 & H2 & H3). apply Forall_app in Hx as [Hx1 Hx2].
    split; [by constructor|]. split; [done|]. by constructor.
  - intros (H1 & H2 & H3). apply StronglySorted_inv in H1 as [H1 Hx]. apply Forall_cons in H3 as [H3 H4].
    constructor; [by apply IH|]. by apply Forall_app.
Qed.

(** Sinking [y] into the sorted prefix: it stops right after the last element not above it. *)
Lemma sink_spec (xs : list A) : forall y rest, StronglySorted (cmp_le cmp) xs ->
  exists xs1 xs2, xs = xs1 ++ xs2 /\ sink cmp (length xs) (xs ++ y :: rest) = Some (xs1 ++ y :: xs2 ++ rest) /\
    Forall (fun x => 0 < cmp x y) xs2 /\ Forall (fun x => cmp x y <= 0) xs1.
Proof.
  induction xs as [|x xs IH] using rev_ind; intros y rest Hs.
  { exists [], []. done. }
  apply StronglySorted_app_iff in Hs as (Hs1 & _ & Hle). rewrite length_app, Nat.add_1_r. cbn [sink].
  rewrite <- app_assoc. simpl ([x] ++ _).
  rewrite (list_lookup_middle xs (y :: rest) x (length xs)) by done. obind.
  assert (Hy : (xs ++ x :: y :: rest) !! S (length xs) = Some y).
  { rewrite lookup_app_r by lia. by replace (S (length xs) - length xs)%nat with 1%nat by lia. }
  rewrite Hy. obind. destruct (0 <? cmp x y) eqn:E.
  - assert (Hsw : <[length xs:=y]> (<[S (length xs):=x]> (xs ++ x :: y :: rest)) = xs ++ y :: x :: rest).
    { rewrite !insert_app_r_alt by lia.
      replace (S (length xs) - length xs)%nat with 1%nat by lia. rewrite Nat.sub_diag. done. }
    rewrite Hsw. destruct (IH y (x :: rest) Hs1) as (xs1 & xs2 & -> & -> & H2 & H1).
    exists xs1, (xs2 ++ [x]). rewrite <- !app_assoc. split; [done|]. split; [done|]. split; [|done].
    apply Forall_app. split; [done|]. constructor; [lia|constructor].
  - exists (xs ++ [x]), []. rewrite app_nil_r, <- app_assoc. split; [done|]. split; [done|]. split; [constructor|].
    apply Forall_app. split; [|constructor; [lia|constructor]].
    eapply Forall_impl; [exact Hle|]. intros z Hz. apply Forall_inv in Hz.
    eapply (cmp_trans _ Hcmp); [exact Hz|]. lia.
Qed.

Lemma insert_stable l xs1 xs2 y :
  stable_sort_of cmp l (xs1 ++ xs2) -> Forall (fun x => 0 < cmp x y) xs2 -> Forall (fun x => cmp x y <= 0) xs1 ->
  stable_sort_of cmp (l ++ [y]) (xs1 ++ y :: xs2).
Proof.
  intros (Hs & Hp & Hf) H2 H1. apply StronglySorted_app_iff in Hs as (Hs1 & Hs2 & Hle).
  assert (Hy2 : Forall (cmp_le cmp y) xs2).
  { eapply Forall_impl; [exact H2|]. intros x Hx. unfold cmp_le. pose proof (cmp_flip _ Hcmp y x). simpl in Hx. lia. }
  split; [|split].
  - apply StronglySorted_app_iff. split; [done|]. split; [by constructor|].
    apply Forall_forall. intros x Hx. apply Forall_cons. split.
    + apply (proj1 (Forall_forall _ _) H1 x Hx).
    + apply (proj1 (Forall_forall _ _) Hle x Hx).
  - rewrite Hp. rewrite <- Permutation_cons_append. apply Permutation_middle.
  - intros z. rewrite !List.filter_app, <- Hf, List.filter_app. cbn [List.filter].
    destruct (eqv cmp z y) eqn:E; [|by rewrite app_nil_r].
    assert (Hn : List.filter (eqv cmp z) xs2 = []).
    { apply (filter_above cmp Hcmp z y); [apply (proj1 (eqv_spec cmp Hcmp z y)) in E; tauto|done|].
      eapply Forall_impl; [exact H2|]. intros x Hx. simpl in *. pose proof (cmp_flip _ Hcmp y x). lia. }
    rewrite Hn. by rewrite app_nil_r.
Qed.

Lemma insertion_loop_spec k : forall (l p r : list A),
  stable_sort_of cmp l p -> length r = k ->
  exists q, insertion_loop cmp k (length p) (p ++ r) = Some q /\ stable_sort_of cmp (l ++ r) q.
Proof.
  induction k as [|k IH]; intros l p r Hl Hr; cbn [insertion_loop].
  - destruct r; [|done]. rewrite !app_nil_r. by exists p.
  - destruct r as [|y r]; [done|]. injection Hr as Hr.
    destruct (sink_spec p y r) as (p1 & p2 & -> & -> & H2 & H1); [apply Hl|]. obind.
    pose proof (insert_stable l p1 p2 y Hl H2 H1) as Hst.
    destruct (IH (l ++ [y]) (p1 ++ y :: p2) r Hst Hr) as (q & Hq & Hs).
    exists q. rewrite <- app_assoc in Hs. simpl in Hs. split; [|done]. rewrite <- Hq.
    rewrite <- !app_assoc. f_equal. rewrite !length_app. simpl. lia.
Qed.

Lemma insertion_sort_spec (base : list A) :
  exists q, insertion_sort cmp base (Z.of_nat (length base)) = Some q /\ stable_sort_of cmp base q.
Proof.
  unfold insertion_sort. destruct base as [|x base].
  { exists []. split; [done|]. split; [constructor|done]. }
  destruct (insertion_loop_spec (length base) [x] [x] base) as (q & Hq & Hs).
  - split; [by repeat constructor|done].
  - done.
  - exists q. split; [|done]. rewrite <- Hq. f_equal. simpl. lia.
Qed.

Lemma merge_sort_sorts (base tmp : list A) :
  length tmp = length base -> Z.of_nat (length base) < 2 ^ 61 ->
  exists q, merge_sort cmp base tmp (Z.of_nat (length base)) = Some q /\ stable_sort_of cmp base q.
Proof.
  intros Ht Hn. eexists. split; [by apply merge_sort_spec|].
  apply (merge_passes_sorts cmp Hcmp); [lia|by eapply runs_one|].
  change (2 ^ Z.of_nat 64) with (2 ^ 64). lia.
Qed.

(** A stable sort is unique. *)
Lemma stable_unique l : forall p q, stable_sort_of cmp l p -> stable_sort_of cmp l q -> p = q.
Proof.
  intros p q (Hp & Ep & Fp) (Hq & Eq & Fq). rewrite Ep in Eq. clear Ep.
  assert (F : forall z, List.filter (eqv cmp z) p = List.filter (eqv cmp z) q) by (intros z; by rewrite Fp, Fq).
  clear Fp Fq. revert q Hq Eq F. induction p as [|x p IH]; intros q Hq Eq F.
  { by apply Permutation_nil in Eq. }
  destruct q as [|y q]; [by apply Permutation_sym, Permutation_nil in Eq|].
  apply StronglySorted_inv in Hp as [Hp Hx]. apply StronglySorted_inv in Hq as [Hq Hy].
  assert (Hrefl : forall z, cmp_le cmp z z).
  { intros z. unfold cmp_le. pose proof (cmp_flip _ Hcmp z z). lia. }
  assert (Hxy : cmp_le cmp x y).
  { assert (Hin : y ∈ x :: p) by (rewrite Eq; apply list_elem_of_here).
    apply elem_of_cons in Hin as [->|Hin]; [done|]. by apply (proj1 (Forall_forall _ _) Hx). }
  assert (Hyx : cmp_le cmp y x).
  { assert (Hin : x ∈ y :: q) by (rewrite <- Eq; apply list_elem_of_here).
    apply elem_of_cons in Hin as [->|Hin]; [done|]. by apply (proj1 (Forall_forall _ _) Hy). }
  pose proof (F x) as Fx. cbn [List.filter] in Fx.
  rewrite (proj2 (eqv_spec cmp Hcmp x x)), (proj2 (eqv_spec cmp Hcmp x y)) in Fx by auto.
  injection Fx as -> _. f_equal. apply IH; [done|done|by apply Permutation_cons_inv in Eq|].
  intros z. pose proof (F z) as Fz. cbn [List.filter] in Fz. destruct (eqv cmp z y); [by injection Fz|done].
Qed.

(** C29. For a comparison that is a total preorder and an array of less than
    2^61 bytes, qsort returns, leaves in [base] the stable sort of the array (sorted,
    a permutation, equal elements in their original order), frees its scratch
    memory, and the result is the same whether or not malloc succeeded and
    whatever the scratch memory held. *)
Theorem qsort_stable `{AllocatorLaws H} (h : H) (base scratch : list A) size :
  hinv h -> 0 < size -> Z.of_nat (length base) * size + 64 < 2 ^ 61 -> length scratch = length base ->
  exists q h', qsort cmp h base (Z.of_nat (length base)) size scratch = Some (q, h') /\
    stable_sort_of cmp base q /\ hinv h' /\ hblocks h' ≡ₚ hblocks h /\
    forall q', stable_sort_of cmp base q' -> q' = q.
Proof.
  intros Hh Hs Hn Hl. unfold qsort.
  assert (Hlt : Z.of_nat (length base) < 2 ^ 61) by nia.
  assert (Hdone : forall q h', stable_sort_of cmp base q -> hinv h' -> hblocks h' ≡ₚ hblocks h ->
    exists q0 h0, Some (q, h') = Some (q0, h0) /\ stable_sort_of cmp base q0 /\ hinv h0 /\ hblocks h0 ≡ₚ hblocks h /\
      forall q', stable_sort_of cmp base q' -> q' = q0).
  { intros q h' Hq Hi Hb. exists q, h'. split_and!; try done. intros q' Hq'. by eapply stable_unique. }
  destruct ((Z.of_nat (length base) <? 2) || (size =? 0)) eqn:E2.
  { apply Hdone; [|done|done]. split; [|done]. destruct base as [|x [|y base]]; [constructor|by repeat constructor|].
    simpl in E2. lia. }
  destruct (insertion_sort_spec base) as (qi & Ei & Hqi).
  destruct (negb (size =? 0) && _) eqn:E3; [rewrite Ei; by apply Hdone|].
  rewrite u64_small by nia. destruct (hmalloc h _) as [tmp h1] eqn:Em.
  assert (Hrq : request (Z.of_nat (length base) * size)) by (split; nia).
  pose proof (hmalloc_inv h _ tmp h1 Hh Hrq Em) as Hh1.
  destruct (hmalloc_effect h _ tmp h1 Hh Hrq Em) as [(-> & _ & Hb)|(Hnz & n & Hn' & Hb & _)].
  - rewrite Z.eqb_refl, Ei. obind. apply Hdone; [done|done|by rewrite Hb].
  - bool_if. destruct (merge_sort_sorts base scratch Hl Hlt) as (q & -> & Hq). obind.
    assert (Hin : (tmp, n) ∈ hblocks h1) by (rewrite Hb; apply list_elem_of_here).
    apply Hdone; [done|by eapply hfree_inv|].
    destruct (hfree_effect h1 tmp n Hh1 Hin) as [Hf _]. rewrite Hb in Hf. by apply Permutation_cons_inv in Hf.
Qed.
End insertion.

(** ** bsearch *)

Section bsearch.
Context {A : Type} (cmpk : A -> Z).

(** The array is in ascending order with respect to the key. *)
Definition ascending (l : list A) : Prop :=
  forall i j x y, (i <= j)%nat -> l !! i = Some x -> l !! j = Some y ->
    (cmpk x < 0 -> cmpk y < 0) /\ (0 < cmpk y -> 0 < cmpk x).

Lemma bsearch_loop_S f (l : list A) lo hi :
  bsearch_loop (S f) cmpk l lo hi =
    if lo <? hi then
      p ← at_index l (lo + (hi - lo) / 2);
      if cmpk p <? 0 then bsearch_loop f cmpk l lo (lo + (hi - lo) / 2)
      else if 0 <? cmpk p then bsearch_loop f cmpk l (lo + (hi - lo) / 2 + 1) hi
      else Some (Some (lo + (hi - lo) / 2))
    else Some None.
Proof. done. Qed.

Lemma bsearch_loop_spec fuel : forall (l : list A) lo hi,
  ascending l -> 0 <= lo -> lo <= hi <= Z.of_nat (length l) -> hi - lo < 2 ^ Z.of_nat fuel ->
  exists r, bsearch_loop (S fuel) cmpk l lo hi = Some r /\
    match r with
    | Some i => lo <= i < hi /\ exists x, l !! Z.to_nat i = Some x /\ cmpk x = 0
    | None => forall i x, lo <= Z.of_nat i < hi -> l !! i = Some x -> cmpk x <> 0
    end.
Proof.
  induction fuel as [|fuel IH]; intros l lo hi Ha H0 Hb Hf; rewrite bsearch_loop_S.
  { change (2 ^ Z.of_nat 0) with 1 in Hf. bool_if. exists None. split; [done|]. intros i x Hi. lia. }
  destruct (lo <? hi) eqn:E; [|exists None; split; [done|]; intros i x Hi; lia].
  rewrite Nat2Z.inj_succ, Z.pow_succ_r in Hf by lia.
  set (mid := lo + (hi - lo) / 2). assert (Hm : lo <= mid < hi /\ 2 * (mid - lo) <= hi - lo < 2 * (mid - lo) + 2).
  { unfold mid. zdm. }
  destruct (lookup_lt_is_Some_2 l (Z.to_nat mid)) as [p Hp]; [lia|].
  unfold at_index. replace (mid <? 0) with false by lia. rewrite Hp. obind.
  destruct (cmpk p <? 0) eqn:E1; [|destruct (0 <? cmpk p) eqn:E2].
  - destruct (IH l lo mid Ha H0 ltac:(lia) ltac:(lia)) as (r & -> & Hr). exists r. split; [done|].
    destruct r as [i|]; [destruct Hr as [? Hx]; split; [lia|exact Hx]|].
    intros i x Hi Hx. destruct (decide (Z.of_nat i < mid)); [apply (Hr i); [lia|done]|].
    destruct (Ha (Z.to_nat mid) i p x ltac:(lia) Hp Hx) as [Hlt _]. lia.
  - destruct (IH l (mid + 1) hi Ha ltac:(lia) ltac:(lia) ltac:(lia)) as (r & -> & Hr). exists r. split; [done|].
    destruct r as [i|]; [destruct Hr as [? Hx]; split; [lia|exact Hx]|].
    intros i x Hi Hx. destruct (decide (mid < Z.of_nat i)); [apply (Hr i); [lia|done]|].
    destruct (Ha i (Z.to_nat mid) x p ltac:(lia) Hx Hp) as [_ Hgt]. lia.
  - exists (Some mid). split; [done|]. split; [lia|]. exists p. split; [done|]. lia.
Qed.

(** bsearch on an array in ascending order terminates; it returns an
    element that compares equal to the key when there is one, and NULL only
    when there is none. *)
Theorem bsearch_finds (l : list A) :
  ascending l -> Z.of_nat (length l) < 2 ^ 64 ->
  exists r, bsearch cmpk l (Z.of_nat (length l)) = Some r /\
    match r with
    | Some i => exists x, l !! Z.to_nat i = Some x /\ cmpk x = 0
    | None => Forall (fun x => cmpk x <> 0) l
    end.
Proof.
  intros Ha Hl. unfold bsearch.
  destruct (bsearch_loop_spec 64 l 0 (Z.of_nat (length l)) Ha ltac:(lia) ltac:(lia)) as (r & -> & Hr).
  { change (2 ^ Z.of_nat 64) with (2 ^ 64). lia. }
  exists r. split; [done|]. destruct r as [i|]; [by destruct Hr|].
  apply Forall_lookup. intros i x Hx. apply (Hr i); [|done]. apply lookup_lt_Some in Hx. lia.
Qed.
End bsearch.

(** ** rand_r *)

(** Appending ten bits. *)
Lemma append_bits a b : 0 <= a < 2 ^ 22 -> 0 <= b < 1024 -> Z.lxor (u32 (Z.shiftl a 10)) b = a * 1024 + b.
Proof.
  intros Ha Hb. rewrite Z.shiftl_mul_pow2 by lia. rewrite u32_small by lia.
  rewrite <- Z.add_nocarry_lxor; [lia|]. apply Z.bits_inj'. intros k Hk. rewrite Z.land_spec, Z.bits_0.
  destruct (decide (k < 10)).
  - by rewrite Z.mul_pow2_bits_low.
  - rewrite (Z.bits_above_log2 b), andb_false_r; [done|lia|].
    destruct (decide (b = 0)) as [->|]; [simpl; lia|]. apply Z.log2_lt_pow2; [lia|].
    assert (2 ^ 10 <= 2 ^ k) by (apply Z.pow_le_mono_r; lia). lia.
Qed.

(** rand_r stays within [0, RAND_MAX] and packs 11, 10 and 10 bits of three successive states. *)
Lemma rand_r_bits seed :
  let n1 := lcg seed in let n2 := lcg n1 in let n3 := lcg n2 in
  rand_r seed = ((n1 / 65536 mod 2048) * 2 ^ 20 + (n2 / 65536 mod 1024) * 2 ^ 10 + n3 / 65536 mod 1024, n3) /\
  0 <= (rand_r seed).1 <= INT_MAX.
Proof.
  simpl. unfold rand_r. set (n1 := lcg seed). set (n2 := lcg n1). set (n3 := lcg n2).
  assert (H1 : 0 <= n1 / 65536 mod 2048 < 2048) by (apply Z.mod_pos_bound; lia).
  assert (H2 : 0 <= n2 / 65536 mod 1024 < 1024) by (apply Z.mod_pos_bound; lia).
  assert (H3 : 0 <= n3 / 65536 mod 1024 < 1024) by (apply Z.mod_pos_bound; lia).
  rewrite !append_bits by (rewrite ?append_bits by lia; lia). unfold INT_MAX. cbn [fst].
  rewrite i32_small by (unfold is_i32; lia). split; [f_equal; lia|lia].
Qed.

(** ** Instances *)

Lemma bsearch_finds_witness :
  exists r, bsearch (fun x => 5 - x) [1; 3; 5; 8] 4 = Some r /\
    match r with
    | Some i => exists x, [1; 3; 5; 8] !! Z.to_nat i = Some x /\ 5 - x = 0
    | None => Forall (fun x => 5 - x <> 0) [1; 3; 5; 8]
    end.
Proof.
  apply (bsearch_finds (fun x => 5 - x) [1; 3; 5; 8]).
  - intros i j x y Hij Hi Hj.
    destruct i as [|[|[|[|i]]]], j as [|[|[|[|j]]]]; simpl in *; try lia; simplify_eq; lia.
  - simpl. lia.
Defined.
