(* ===== verification/Supervisor.v ===== *)
(** * The service supervisor of init: supervisor.h, spawn_report.h

    A table of four service slots.  The world outside (the spawn system call)
    is a state [W] with an arbitrary spawn function; what init does to it is
    recorded as a list of actions, latest last. *)

From stdpp Require Import relations.
From S2P Require Import Prelude Mem.

Definition INIT_SUPERVISOR_CAPACITY : Z := 4.
Definition INIT_SUPERVISOR_RESTART_BUDGET : Z := 3.

Inductive init_service_state :=
  | INIT_SERVICE_UNUSED | INIT_SERVICE_REGISTERED | INIT_SERVICE_RUNNING
  | INIT_SERVICE_STOPPED | INIT_SERVICE_DISABLED.

Inductive init_supervisor_result :=
  | INIT_SUPERVISOR_IGNORED | INIT_SUPERVISOR_RESTARTED | INIT_SUPERVISOR_CLEAN_STOP | INIT_SUPERVISOR_DISABLED.

#[export] Instance init_service_state_eq_dec : EqDecision init_service_state.
Proof. solve_decision. Defined.
#[export] Instance init_supervisor_result_eq_dec : EqDecision init_supervisor_result.
Proof. solve_decision. Defined.

(** A [const char *]: NULL or a string. *)
Definition cname := option (list Z).

Record init_supervisor_service := mkService {
  name : cname;
  tid : Z;
  restarts_used : Z;
  state : init_service_state;
}.

(** struct init_supervisor is its array of slots. *)
Abbreviation init_supervisor := (list init_supervisor_service).

(** What init does: it creates tasks and prints lines. *)
Inductive action :=
  | Spawned (n : cname) (tid : Z)       (* ops->spawn and what it returned *)
  | SpawnFailed (n : cname)             (* ops->report_spawn_failure *)
  | ServiceDisabled (n : cname)         (* ops->report_disabled *)
  | Printed (text : list Z).

(** The string comparison loop. *)
Fixpoint name_loop (left right : list Z) : bool :=
  match left, right with
  | l :: left', r :: right' => if l =? r then name_loop left' right' else false
  | [], [] => true
  | _, _ => false
  end.

Definition init_supervisor_name_equal (left right : cname) : bool :=
  match left, right with
  | None, None => true
  | Some l, Some r => name_loop l r
  | _, _ => false
  end.

Definition init_supervisor_valid_slot (slot : Z) : bool := (0 <=? slot) && (slot <? INIT_SUPERVISOR_CAPACITY).

Definition unused : init_supervisor_service := mkService None (-1) 0 INIT_SERVICE_UNUSED.

Definition init_supervisor_init : init_supervisor := replicate (Z.to_nat INIT_SUPERVISOR_CAPACITY) unused.

Definition is_state (s : init_service_state) (x : init_supervisor_service) : bool := bool_decide (state x = s).

(** The first slot that satisfies [f]. *)
Fixpoint find_slot (f : init_supervisor_service -> bool) (slot : Z) (sup : init_supervisor) : Z :=
  match sup with
  | [] => -1
  | x :: sup' => if f x then slot else find_slot f (slot + 1) sup'
  end.

(** The slot, or -1. *)
Definition init_supervisor_register (sup : init_supervisor) (n : cname) : Z * init_supervisor :=
  match n with
  | None | Some [] => (-1, sup)
  | Some _ =>
      if existsb (fun x => negb (is_state INIT_SERVICE_UNUSED x) && init_supervisor_name_equal (name x) n) sup
      then (-1, sup)
      else
        let slot := find_slot (is_state INIT_SERVICE_UNUSED) 0 sup in
        if slot <? 0 then (-1, sup)
        else (slot, <[Z.to_nat slot := mkService n (-1) 0 INIT_SERVICE_REGISTERED]> sup)
  end.

Section ops.
Context {W : Type}.

(** struct init_supervisor_ops; [report_disabled] may be NULL. *)
Record init_supervisor_ops := mkOps {
  spawn : W -> cname -> Z * W;
  has_report_disabled : bool;
}.
Context (ops : init_supervisor_ops).

(** The world and the log. *)
Record io := mkIO { world : W; log : list action }.

Definition emit (a : action) (w : io) : io := mkIO (world w) (log w ++ [a]).

Definition do_spawn (w : io) (n : cname) : Z * io :=
  let '(t, w') := spawn ops (world w) n in (t, mkIO w' (log w ++ [Spawned n t])).

Definition init_spawn_created (t : Z) (n : cname) (w : io) : bool * io :=
  if t <? 0 then (false, emit (SpawnFailed n) w) else (true, w).

Definition init_supervisor_disable (s : init_supervisor_service) (w : io) : init_supervisor_service * io :=
  (mkService (name s) (-1) (restarts_used s) INIT_SERVICE_DISABLED,
   if has_report_disabled ops then emit (ServiceDisabled (name s)) w else w).

(** The for loop; [None] means it did not end within [fuel] rounds. *)
Fixpoint spawn_loop (fuel : nat) (s : init_supervisor_service) (is_restart : bool) (w : io)
  : option (bool * init_supervisor_service * io) :=
  match fuel with
  | O => None
  | S f =>
      if is_restart && (INIT_SUPERVISOR_RESTART_BUDGET <=? restarts_used s) then
        let '(s', w') := init_supervisor_disable s w in Some (false, s', w')
      else
        let s1 := if is_restart then mkService (name s) (tid s) (u32 (restarts_used s + 1)) (state s) else s in
        let '(t, w1) := do_spawn w (name s1) in
        let '(created, w2) := init_spawn_created t (name s1) w1 in
        if (created : bool) then Some (true, mkService (name s1) t (restarts_used s1) INIT_SERVICE_RUNNING, w2)
        else spawn_loop f s1 true w2
  end.

(** One attempt without and up to three with the budget, then the disabling round. *)
Definition init_supervisor_spawn_until_running (s : init_supervisor_service) (first_attempt_is_restart : bool) (w : io)
  : option (bool * init_supervisor_service * io) :=
  spawn_loop 5 s first_attempt_is_restart w.

Definition init_supervisor_start (sup : init_supervisor) (slot : Z) (w : io) : option (init_supervisor * io) :=
  if negb (init_supervisor_valid_slot slot) then Some (sup, w)
  else
    s ← sup !! Z.to_nat slot;
    if negb (is_state INIT_SERVICE_REGISTERED s) then Some (sup, w)
    else
      r ← init_supervisor_spawn_until_running s false w;
      let '(_, s', w') := r in
      Some (<[Z.to_nat slot := s']> sup, w').

Definition init_supervisor_find_tid (sup : init_supervisor) (t : Z) : Z :=
  find_slot (fun x => is_state INIT_SERVICE_RUNNING x && (tid x =? t)) 0 sup.

Definition init_supervisor_child_exit (sup : init_supervisor) (t status : Z) (w : io)
  : option (init_supervisor_result * init_supervisor * io) :=
  let slot := init_supervisor_find_tid sup t in
  if slot <? 0 then Some (INIT_SUPERVISOR_IGNORED, sup, w)
  else
    s ← sup !! Z.to_nat slot;
    let s1 := mkService (name s) (-1) (restarts_used s) (state s) in
    if status =? 0 then
      Some (INIT_SUPERVISOR_CLEAN_STOP,
            <[Z.to_nat slot := mkService (name s1) (tid s1) (restarts_used s1) INIT_SERVICE_STOPPED]> sup, w)
    else
      r ← init_supervisor_spawn_until_running s1 true w;
      let '(ok, s', w') := r in
      Some (if (ok : bool) then INIT_SUPERVISOR_RESTARTED else INIT_SUPERVISOR_DISABLED,
            <[Z.to_nat slot := s']> sup, w').
End ops.

Arguments init_supervisor_ops : clear implicits.
Arguments io : clear implicits.

(** ** Invariants *)

(** How often a program was spawned. *)
Definition is_spawn_of (n : cname) (a : action) : bool :=
  match a with Spawned m _ => bool_decide (m = n) | _ => false end.
Definition spawns (n : cname) (l : list action) : Z := len (List.filter (is_spawn_of n) l).

Lemma spawns_app n l1 l2 : spawns n (l1 ++ l2) = spawns n l1 + spawns n l2.
Proof. unfold spawns. rewrite List.filter_app, length_app. lia. Qed.

Lemma spawns_nonneg n l : 0 <= spawns n l.
Proof. unfold spawns. lia. Qed.

(** The attempts a service has used up: the first spawn and its restarts. *)
Definition attempts (s : init_supervisor_service) : Z :=
  match state s with
  | INIT_SERVICE_UNUSED | INIT_SERVICE_REGISTERED => 0
  | _ => 1 + restarts_used s
  end.

Record wf_service (s : init_supervisor_service) : Prop := {
  wf_budget : 0 <= restarts_used s <= INIT_SUPERVISOR_RESTART_BUDGET;
  wf_tid : if is_state INIT_SERVICE_RUNNING s then 0 <= tid s else tid s = -1;
  wf_new : state s = INIT_SERVICE_UNUSED \/ state s = INIT_SERVICE_REGISTERED -> restarts_used s = 0;
  wf_name : is_Some (name s) <-> state s <> INIT_SERVICE_UNUSED;
}.

(** The table: four well-formed slots, no name twice. *)
Record wf_table (sup : init_supervisor) : Prop := {
  wf_length : length sup = 4%nat;
  wf_services : Forall wf_service sup;
  wf_unique i j x y : sup !! i = Some x -> sup !! j = Some y -> is_Some (name x) -> name x = name y -> i = j;
}.

Lemma is_state_spec s x : is_state s x = true <-> state x = s.
Proof. unfold is_state. apply bool_decide_eq_true. Qed.

Lemma name_loop_spec l : forall r, name_loop l r = true <-> l = r.
Proof.
  induction l as [|x l IH]; intros [|y r]; simpl; try (split; [done|congruence]).
  destruct (x =? y) eqn:E; [rewrite IH|]; (split; [intros; f_equal; [lia|done] || done|intros [=]; done || lia]).
Qed.

Lemma name_equal_spec a b : init_supervisor_name_equal a b = true <-> a = b.
Proof. destruct a, b; simpl; rewrite ?name_loop_spec; split; congruence. Qed.

Lemma find_slot_spec f sup : forall k,
  (find_slot f k sup = -1 /\ Forall (fun x => f x = false) sup) \/
  (exists i x, sup !! i = Some x /\ f x = true /\ find_slot f k sup = k + Z.of_nat i).
Proof.
  induction sup as [|x sup IH]; intros k; simpl; [by left|].
  destruct (f x) eqn:E; [right; exists 0%nat, x; split; [done|]; split; [done|lia]|].
  destruct (IH (k + 1)) as [[-> H]|(i & y & Hy & Hf & ->)]; [left; auto|].
  right. exists (S i), y. split; [done|]. split; [done|lia].
Qed.

Section spec.
Context {W : Type} (ops : init_supervisor_ops W).

(** The spawn loop ends: the service runs, or its budget is used up and it is disabled. *)
Definition loop_done (s : init_supervisor_service) (r : bool) (w : io W) (res : bool * init_supervisor_service * io W) : Prop :=
  let '(ok, s', w') := res in
  name s' = name s /\ restarts_used s <= restarts_used s' <= INIT_SUPERVISOR_RESTART_BUDGET /\
  (if ok : bool then state s' = INIT_SERVICE_RUNNING /\ 0 <= tid s' /\ (r = true -> restarts_used s < restarts_used s')
   else state s' = INIT_SERVICE_DISABLED /\ tid s' = -1 /\ restarts_used s' = INIT_SUPERVISOR_RESTART_BUDGET) /\
  exists new, log w' = log w ++ new /\
    (forall n, n <> name s -> spawns n new = 0) /\
    spawns (name s) new = restarts_used s' - restarts_used s + (if r then 0 else 1).

Lemma spawn_loop_spec fuel : forall s (r : bool) w,
  0 <= restarts_used s <= INIT_SUPERVISOR_RESTART_BUDGET ->
  INIT_SUPERVISOR_RESTART_BUDGET - restarts_used s + (if r then 1 else 2) <= Z.of_nat fuel ->
  exists res, spawn_loop ops fuel s r w = Some res /\ loop_done s r w res.
Proof.
  unfold INIT_SUPERVISOR_RESTART_BUDGET.
  induction fuel as [|fuel IH]; intros s r w Hb Hf; [destruct r; lia|]. cbn [spawn_loop].
  unfold INIT_SUPERVISOR_RESTART_BUDGET at 1.
  destruct (r && (3 <=? restarts_used s)) eqn:E.
  { eexists. split; [reflexivity|]. apply andb_prop in E as [-> E]. unfold loop_done. simpl.
    unfold INIT_SUPERVISOR_RESTART_BUDGET. split; [done|]. split; [lia|]. split; [split_and!; [done|done|lia]|].
    exists (if has_report_disabled ops then [ServiceDisabled (name s)] else []).
    split; [by destruct (has_report_disabled ops); simpl; rewrite ?app_nil_r|].
    split; [intros n _; by destruct (has_report_disabled ops)|].
    destruct (has_report_disabled ops); unfold spawns; simpl; lia. }
  set (s1 := if r then _ else s).
  assert (Hs1 : name s1 = name s /\ restarts_used s1 = restarts_used s + (if r then 1 else 0)).
  { unfold s1. destruct r; simpl; [|split; [done|lia]]. rewrite u32_small; [done|]. simpl in E. lia. }
  destruct Hs1 as [Hn Hr1]. unfold do_spawn. destruct (spawn ops (world w) (name s1)) as [t w1].
  unfold init_spawn_created. destruct (t <? 0) eqn:Et.
  - destruct (IH s1 true (emit (SpawnFailed (name s1)) (mkIO w1 (log w ++ [Spawned (name s1) t]))))
      as ([[ok s'] w'] & -> & Hname & Hres & Hok & new & Hlog & Hoth & Hown).
    { destruct r; simpl in *; lia. }
    { destruct r; simpl in *; lia. }
    eexists. split; [reflexivity|]. split; [congruence|]. split; [destruct r; lia|].
    split; [destruct ok; [destruct Hok as (? & ? & Hlt); split_and!; try done; intros ->; specialize (Hlt eq_refl); lia|done]|].
    exists ([Spawned (name s1) t; SpawnFailed (name s1)] ++ new). split.
    { rewrite Hlog. simpl. by rewrite <- !app_assoc. }
    assert (Hpre : forall n, spawns n [Spawned (name s1) t; SpawnFailed (name s1)] = if bool_decide (name s1 = n) then 1 else 0).
    { intros n. unfold spawns. simpl. by destruct (bool_decide (name s1 = n)). }
    split.
    + intros n Hne. rewrite spawns_app, Hpre, bool_decide_eq_false_2, Hoth by congruence. done.
    + rewrite spawns_app, Hpre, Hn, bool_decide_eq_true_2 by done. rewrite <- Hn, Hown. destruct r; lia.
  - eexists. split; [reflexivity|]. unfold loop_done. cbn [name restarts_used state tid log].
    unfold INIT_SUPERVISOR_RESTART_BUDGET.
    split; [done|]. split; [destruct r; simpl in *; lia|].
    split; [split; [done|]; split; [lia|]; intros ->; lia|].
    exists [Spawned (name s1) t]. split; [done|]. split.
    + intros n Hne. unfold spawns. simpl. rewrite bool_decide_eq_false_2 by congruence. done.
    + unfold spawns. simpl. rewrite bool_decide_eq_true_2 by done. simpl. destruct r; lia.
Qed.

(** ** Reachable states *)

Inductive sup_step : init_supervisor * io W -> init_supervisor * io W -> Prop :=
  | step_register sup w n slot sup' :
      init_supervisor_register sup n = (slot, sup') -> sup_step (sup, w) (sup', w)
  | step_start sup w slot sup' w' :
      init_supervisor_start ops sup slot w = Some (sup', w') -> sup_step (sup, w) (sup', w')
  | step_exit sup w t status r sup' w' :
      init_supervisor_child_exit ops sup t status w = Some (r, sup', w') -> sup_step (sup, w) (sup', w').

(** The log agrees with the table: each service was spawned as often as its slot says. *)
Record sup_inv (sup : init_supervisor) (w : io W) : Prop := {
  inv_table : wf_table sup;
  inv_attempts i x : sup !! i = Some x -> is_Some (name x) -> spawns (name x) (log w) = attempts x;
  inv_others n : is_Some n -> (forall x, x ∈ sup -> name x <> n) -> spawns n (log w) = 0;
}.

Lemma sup_inv_init w : sup_inv init_supervisor_init (mkIO w []).
Proof.
  assert (Hu : forall i x, init_supervisor_init !! i = Some x -> x = unused).
  { intros i x Hx. by apply lookup_replicate in Hx as [-> _]. }
  constructor; [constructor|..].
  - done.
  - apply Forall_replicate. constructor; simpl; done || lia.
  - intros i j x y Hx Hy [n Hn]. apply Hu in Hx as ->. done.
  - intros i x Hx [n Hn]. apply Hu in Hx as ->. done.
  - done.
Qed.

(** Replacing the service in a slot. *)
Lemma wf_table_update sup i x x' :
  wf_table sup -> sup !! i = Some x -> name x' = name x -> wf_service x' -> wf_table (<[i:=x']> sup).
Proof.
  intros [Hl Hf Hu] Hx Hn Hw. constructor.
  - by rewrite length_insert.
  - by apply Forall_insert.
  - intros a b y z Ha Hb Hs Hyz. apply list_lookup_insert_Some in Ha as [(<- & -> & _)|[Hia Ha]];
      apply list_lookup_insert_Some in Hb as [(<- & -> & _)|[Hib Hb]]; try done.
    + eapply (Hu i b); eauto; congruence.
    + eapply (Hu a i); eauto; congruence.
    + eapply (Hu a b); eauto.
Qed.

Lemma sup_inv_update sup w w' i x x' new :
  sup_inv sup w -> sup !! i = Some x -> is_Some (name x) -> name x' = name x -> wf_service x' ->
  log w' = log w ++ new -> (forall n, n <> name x -> spawns n new = 0) ->
  attempts x' = attempts x + spawns (name x) new -> sup_inv (<[i:=x']> sup) w'.
Proof.
  intros [Ht Ha Ho] Hx Hs Hn Hw Hlog Hoth Hatt. constructor.
  - by eapply wf_table_update.
  - intros j y Hy Hsy. rewrite Hlog, spawns_app.
    apply list_lookup_insert_Some in Hy as [(<- & -> & _)|[Hij Hy]].
    + rewrite Hn, (Ha i x Hx Hs). lia.
    + rewrite (Ha j y Hy Hsy), Hoth; [lia|]. intros E. apply Hij. symmetry.
      by eapply (wf_unique _ Ht j i y x).
  - intros n Hsn Hne. rewrite Hlog, spawns_app.
    assert (Hnx : n <> name x).
    { intros ->. apply (Hne x'); [|done]. apply list_elem_of_lookup. exists i.
      apply list_lookup_insert_eq. by eapply lookup_lt_Some. }
    rewrite Hoth, Ho by (done || (intros y Hy E; apply list_elem_of_lookup in Hy as [j Hj];
      destruct (decide (i = j)) as [->|Hij]; [congruence|];
      apply (Hne y); [apply list_elem_of_lookup; exists j; by rewrite list_lookup_insert_ne|done])).
    lia.
Qed.

Lemma wf_lookup sup i x : wf_table sup -> sup !! i = Some x -> wf_service x.
Proof. intros [_ Hf _] Hx. by eapply Forall_lookup in Hf. Qed.

(** A finished spawn loop gives a well-formed service. *)
Lemma loop_done_wf s r (w : io W) ok s' w' :
  is_Some (name s) -> 0 <= restarts_used s -> loop_done s r w (ok, s', w') -> wf_service s'.
Proof.
  intros Hs H0 (Hn & Hr & Hok & _). destruct ok.
  - destruct Hok as (Hst & Ht & _). constructor; unfold is_state; rewrite ?Hst; simpl; try lia; try done.
    + intros [|]; done.
    + rewrite Hn. split; [done|]. done.
  - destruct Hok as (Hst & Ht & _). constructor; unfold is_state; rewrite ?Hst; simpl; try lia; try done.
    + intros [|]; done.
    + rewrite Hn. split; [done|]. done.
Qed.

Lemma existsb_false_lookup {A} (f : A -> bool) l i x : existsb f l = false -> l !! i = Some x -> f x = false.
Proof.
  intros He Hx. destruct (f x) eqn:E; [|done].
  assert (existsb f l = true); [|congruence]. apply existsb_exists. exists x.
  split; [|done]. apply list_elem_of_In, list_elem_of_lookup. by exists i.
Qed.

Lemma register_spec sup n slot sup' :
  wf_table sup -> init_supervisor_register sup n = (slot, sup') ->
  sup' = sup \/
  exists i x, sup !! i = Some x /\ state x = INIT_SERVICE_UNUSED /\ is_Some n /\
    sup' = <[i := mkService n (-1) 0 INIT_SERVICE_REGISTERED]> sup /\
    (forall j y, sup !! j = Some y -> name y <> n).
Proof.
  intros Ht. unfold init_supervisor_register. destruct n as [[|c n]|]; [intros [= _ <-]; by left| |intros [= _ <-]; by left].
  set (N := Some (c :: n)). destruct (existsb _ sup) eqn:Eex; [intros [= _ <-]; by left|].
  destruct (find_slot_spec (is_state INIT_SERVICE_UNUSED) sup 0) as [[-> _]|(i & x & Hx & Hf & ->)];
    [intros [= _ <-]; by left|].
  replace (_ <? 0) with false by lia. intros [= _ <-]. rewrite Z.add_0_l, Nat2Z.id. apply is_state_spec in Hf.
  right. exists i, x. split; [done|]. split; [done|]. split; [by eexists|]. split; [done|].
  intros j y Hy En. pose proof (existsb_false_lookup _ _ _ _ Eex Hy) as E. cbv beta in E.
  assert (Hun : state y <> INIT_SERVICE_UNUSED) by (apply (wf_name _ (wf_lookup _ _ _ Ht Hy)); rewrite En; by eexists).
  rewrite (proj2 (name_equal_spec (name y) N) En), andb_true_r in E. apply negb_false_iff, is_state_spec in E. done.
Qed.

Lemma register_wf sup n slot sup' :
  wf_table sup -> init_supervisor_register sup n = (slot, sup') -> wf_table sup'.
Proof.
  intros Ht Hr. destruct (register_spec _ _ _ _ Ht Hr) as [->|(i & x & Hx & Hu & Hn & -> & Hfresh)]; [done|].
  constructor.
  - rewrite length_insert. apply Ht.
  - apply Forall_insert; [apply Ht|]. constructor; simpl; try done; unfold INIT_SUPERVISOR_RESTART_BUDGET; try lia.
  - intros a b y z Hy Hz Hs E. apply list_lookup_insert_Some in Hy as [(<- & <- & _)|[Hia Hy]];
      apply list_lookup_insert_Some in Hz as [(<- & <- & _)|[Hib Hz]]; try done.
    + by apply Hfresh in Hz.
    + by apply Hfresh in Hy.
    + by eapply (wf_unique _ Ht).
Qed.

Lemma register_inv sup w n slot sup' :
  sup_inv sup w -> init_supervisor_register sup n = (slot, sup') -> sup_inv sup' w.
Proof.
  intros [Ht Ha Ho] Hr. pose proof (register_wf _ _ _ _ Ht Hr) as Ht'.
  destruct (register_spec _ _ _ _ Ht Hr) as [->|(i & x & Hx & Hu & Hn & -> & Hfresh)]; [done|].
  constructor; [done|..].
  - intros j y Hy Hs. apply list_lookup_insert_Some in Hy as [(<- & <- & _)|[Hij Hy]]; [|by apply (Ha j)].
    simpl. apply Ho; [done|]. intros y Hy. apply list_elem_of_lookup in Hy as [j Hj]. by eapply Hfresh.
  - intros m Hm Hne. apply Ho; [done|]. intros y Hy. apply list_elem_of_lookup in Hy as [j Hj].
    destruct (decide (i = j)) as [->|Hij].
    + assert (y = x) as -> by congruence. intros E. assert (Hun : state x <> INIT_SERVICE_UNUSED); [|done].
      apply (wf_name _ (wf_lookup _ _ _ Ht Hj)). by rewrite E.
    + apply Hne. apply list_elem_of_lookup. exists j. by rewrite list_lookup_insert_ne.
Qed.

Lemma attempts_running s : state s <> INIT_SERVICE_UNUSED -> state s <> INIT_SERVICE_REGISTERED -> attempts s = 1 + restarts_used s.
Proof. unfold attempts. by destruct (state s). Qed.

Lemma start_total sup w slot :
  sup_inv sup w ->
  exists sup' w', init_supervisor_start ops sup slot w = Some (sup', w') /\ sup_inv sup' w'.
Proof.
  intros Hi. unfold init_supervisor_start, init_supervisor_valid_slot, INIT_SUPERVISOR_CAPACITY.
  destruct ((0 <=? slot) && (slot <? 4)) eqn:E; cbn [negb]; [|eauto].
  pose proof (wf_length _ (inv_table _ _ Hi)) as Hl.
  destruct (lookup_lt_is_Some_2 sup (Z.to_nat slot)) as [s Hs]; [lia|]. rewrite Hs. obind.
  destruct (is_state INIT_SERVICE_REGISTERED s) eqn:Er; cbn [negb]; [|eauto]. apply is_state_spec in Er.
  pose proof (wf_lookup _ _ _ (inv_table _ _ Hi) Hs) as Hw.
  pose proof (wf_new _ Hw (or_intror Er)) as H0. pose proof (wf_budget _ Hw) as Hb.
  assert (Hn : is_Some (name s)) by (apply (wf_name _ Hw); by rewrite Er).
  destruct (spawn_loop_spec 5 s false w Hb) as ([[ok s'] w'] & Hsp & Hd).
  { unfold INIT_SUPERVISOR_RESTART_BUDGET. lia. }
  unfold init_supervisor_spawn_until_running. rewrite Hsp. obind.
  eexists _, _. split; [done|].
  pose proof (loop_done_wf _ _ _ _ _ _ Hn ltac:(lia) Hd) as Hw'.
  destruct Hd as (Hnm & Hr & Hok & new & Hlog & Hoth & Hown).
  eapply (sup_inv_update sup w w' _ s s' new); try done.
  rewrite (attempts_running s') by (destruct ok; destruct Hok as [-> _]; done).
  unfold attempts. rewrite Er, Hown, H0. lia.
Qed.

Lemma exit_total sup w t status :
  sup_inv sup w ->
  exists r sup' w', init_supervisor_child_exit ops sup t status w = Some (r, sup', w') /\ sup_inv sup' w' /\
    (r = INIT_SUPERVISOR_IGNORED <-> init_supervisor_find_tid sup t = -1) /\
    (r = INIT_SUPERVISOR_IGNORED -> sup' = sup /\ w' = w).
Proof.
  intros Hi. unfold init_supervisor_child_exit.
  destruct (find_slot_spec (fun x => is_state INIT_SERVICE_RUNNING x && (tid x =? t)) sup 0)
    as [[E _]|(i & s & Hs & Hf & E)]; unfold init_supervisor_find_tid; rewrite E.
  { exists INIT_SUPERVISOR_IGNORED, sup, w. split_and!; try done. }
  replace (_ <? 0) with false by lia. rewrite Z.add_0_l, Nat2Z.id, Hs. obind. cbn [name tid restarts_used state].
  apply andb_prop in Hf as [Hrun Htid]. apply is_state_spec in Hrun.
  pose proof (wf_lookup _ _ _ (inv_table _ _ Hi) Hs) as Hw. pose proof (wf_budget _ Hw) as Hb.
  assert (Hn : is_Some (name s)) by (apply (wf_name _ Hw); by rewrite Hrun).
  destruct (status =? 0).
  - eexists _, _, _. split; [done|]. split; [|split; [split; [done|lia]|done]].
    eapply (sup_inv_update sup w w _ s _ []); try done.
    + constructor; simpl; try done. by intros [|].
    + by rewrite app_nil_r.
    + unfold attempts. simpl. rewrite Hrun. unfold spawns. simpl. lia.
  - destruct (spawn_loop_spec 5 (mkService (name s) (-1) (restarts_used s) (state s)) true w Hb)
      as ([[ok s'] w'] & Hsp & Hd).
    { unfold INIT_SUPERVISOR_RESTART_BUDGET. simpl. lia. }
    unfold init_supervisor_spawn_until_running. rewrite Hsp. obind. eexists _, _, _. split; [done|].
    split; [|split; [destruct ok; split; done || lia|by destruct ok]].
    pose proof (loop_done_wf (mkService (name s) (-1) (restarts_used s) (state s)) true w ok s' w' Hn ltac:(simpl; lia) Hd) as Hw'.
    destruct Hd as (Hnm & Hr & Hok & new & Hlog & Hoth & Hown). cbn [name restarts_used] in *.
    eapply (sup_inv_update sup w w' _ s s' new); try done.
    rewrite (attempts_running s') by (destruct ok; destruct Hok as [-> _]; done).
    unfold attempts. rewrite Hrun, Hown. lia.
Qed.

Lemma step_inv st st' : sup_inv st.1 st.2 -> sup_step st st' -> sup_inv st'.1 st'.2.
Proof.
  intros Hi Hst. revert Hi.
  destruct Hst as [sup w n slot sup' E|sup w slot sup' w' E|sup w t status r sup' w' E]; cbn [fst snd]; intros Hi.
  - exact (register_inv _ _ _ _ _ Hi E).
  - destruct (start_total sup w slot Hi) as (? & ? & E' & ?). congruence.
  - destruct (exit_total sup w t status Hi) as (? & ? & ? & E' & ? & _). congruence.
Qed.

Lemma reachable_inv w st : rtc sup_step (init_supervisor_init, mkIO w []) st -> sup_inv st.1 st.2.
Proof.
  assert (Hi : sup_inv (init_supervisor_init, mkIO w []).1 (init_supervisor_init, mkIO w []).2) by apply sup_inv_init.
  revert Hi. generalize (init_supervisor_init, mkIO w []). intros s0 Hi. induction 1 as [|s1 s2 s3 H _ IH]; [done|].
  apply IH. by eapply step_inv.
Qed.

(** C30. Whatever the spawn system call returns and whichever children exit, in
    any order of registrations, starts and exits: the table stays well formed
    (four slots, distinct names, a tid exactly for the running services), no
    service is ever spawned more than 1 + INIT_SUPERVISOR_RESTART_BUDGET
    times, and start and child_exit always return. *)
Theorem supervisor_spawn_budget w0 sup w :
  rtc sup_step (init_supervisor_init, mkIO w0 []) (sup, w) ->
  wf_table sup /\
  (forall n, is_Some n -> spawns n (log w) <= 1 + INIT_SUPERVISOR_RESTART_BUDGET) /\
  (forall slot, is_Some (init_supervisor_start ops sup slot w)) /\
  (forall t status, is_Some (init_supervisor_child_exit ops sup t status w)).
Proof.
  intros Hi%reachable_inv. cbn [fst snd] in Hi. split; [apply Hi|]. split; [|split].
  - intros n Hn. destruct (decide (Exists (fun x => name x = n) sup)) as [Hex|Hno].
    + apply Exists_exists in Hex as (x & Hx & <-). apply list_elem_of_lookup in Hx as [i Hx].
      rewrite (inv_attempts _ _ Hi i x Hx Hn). pose proof (wf_budget _ (wf_lookup _ _ _ (inv_table _ _ Hi) Hx)).
      unfold attempts, INIT_SUPERVISOR_RESTART_BUDGET in *. destruct (state x); lia.
    + rewrite (inv_others _ _ Hi n Hn); [unfold INIT_SUPERVISOR_RESTART_BUDGET; lia|].
      intros x Hx E. apply Hno, Exists_exists. by exists x.
  - intros slot. destruct (start_total sup w slot Hi) as (? & ? & -> & _). eauto.
  - intros t status. destruct (exit_total sup w t status Hi) as (? & ? & ? & -> & _). eauto.
Qed.

(** A service that was stopped cleanly or disabled. *)
Definition finished (x : init_supervisor_service) : Prop :=
  state x = INIT_SERVICE_STOPPED \/ state x = INIT_SERVICE_DISABLED.

Lemma insert_other_lookup (sup : init_supervisor) i j x y z :
  sup !! i = Some x -> sup !! j = Some y -> state x <> state y -> <[j:=z]> sup !! i = Some x.
Proof. intros Hx Hy Hne. rewrite list_lookup_insert_ne; [done|]. intros ->. congruence. Qed.

(** A service that stopped with status 0 or was disabled stays as it is:
    no later registration, start or child exit changes its slot. *)
Theorem supervisor_finished_is_final sup w sup' w' i x :
  sup_step (sup, w) (sup', w') -> sup !! i = Some x -> finished x -> sup' !! i = Some x.
Proof.
  intros Hst Hx Hf. remember (sup, w) as a eqn:Ea. remember (sup', w') as b eqn:Eb.
  destruct Hst as [s1 w1 n slot s1' E|s1 w1 slot s1' w1' E|s1 w1 t status r s1' w1' E]; simplify_eq.
  - unfold init_supervisor_register in E. destruct n as [[|c n]|]; [congruence| |congruence].
    destruct (existsb _ sup); [congruence|].
    destruct (find_slot_spec (is_state INIT_SERVICE_UNUSED) sup 0) as [[Es _]|(j & y & Hy & Hfy & Es)]; rewrite Es in E.
    { simpl in E. congruence. }
    replace (_ <? 0) with false in E by lia. injection E as _ <-. rewrite Z.add_0_l, Nat2Z.id.
    apply is_state_spec in Hfy. eapply insert_other_lookup; [done|done|]. destruct Hf; congruence.
  - unfold init_supervisor_start in E. destruct (negb (init_supervisor_valid_slot slot)); [congruence|].
    destruct (sup !! Z.to_nat slot) as [y|] eqn:Hy; [|done]. cbn [mbind option_bind] in E.
    destruct (is_state INIT_SERVICE_REGISTERED y) eqn:Er; cbn [negb] in E; [|congruence]. apply is_state_spec in Er.
    destruct (init_supervisor_spawn_until_running ops y false w) as [[[ok y'] w2]|]; [|done].
    injection E as <- _. eapply insert_other_lookup; [done|done|]. destruct Hf; congruence.
  - unfold init_supervisor_child_exit in E.
    destruct (find_slot_spec (fun x => is_state INIT_SERVICE_RUNNING x && (tid x =? t)) sup 0)
      as [[Es _]|(j & y & Hy & Hfy & Es)]; unfold init_supervisor_find_tid in E; rewrite Es in E.
    { simpl in E. congruence. }
    replace (_ <? 0) with false in E by lia. rewrite Z.add_0_l, Nat2Z.id, Hy in E. cbn [mbind option_bind] in E.
    apply andb_prop in Hfy as [Hrun _]. apply is_state_spec in Hrun.
    assert (Hne : state x <> state y) by (destruct Hf; congruence).
    destruct (status =? 0); [injection E as _ <- _; by eapply insert_other_lookup|].
    destruct (init_supervisor_spawn_until_running ops _ true w) as [[[ok y'] w2]|]; [|done].
    injection E as _ <- _. by eapply insert_other_lookup.
Qed.
(** ** Exits that init still has to handle *)

(** A running service can exit once more for each restart it has left. *)
Definition potential (s : init_supervisor_service) : Z :=
  if is_state INIT_SERVICE_RUNNING s then 1 + INIT_SUPERVISOR_RESTART_BUDGET - restarts_used s else 0.

Definition total_potential (sup : init_supervisor) : Z := foldr (fun s a => potential s + a) 0 sup.

Lemma total_potential_insert sup : forall i s s',
  sup !! i = Some s -> total_potential (<[i:=s']> sup) = total_potential sup - potential s + potential s'.
Proof.
  induction sup as [|x sup IH]; intros [|i] s s' Hs; simplify_eq/=; [lia|]. rewrite (IH i s s' Hs). lia.
Qed.

Lemma potential_bound sup : wf_table sup -> 0 <= total_potential sup <= 16.
Proof.
  intros [Hl Hf _]. enough (H : 0 <= total_potential sup <= 4 * Z.of_nat (length sup)) by lia.
  clear Hl. induction Hf as [|x l Hx _ IH]; simpl; [lia|]. pose proof (wf_budget _ Hx) as Hb.
  unfold potential, INIT_SUPERVISOR_RESTART_BUDGET in *. destruct (is_state INIT_SERVICE_RUNNING x); lia.
Qed.

(** An operation keeps the names of the table and spawns nothing but its services. *)
Definition same_names (sup sup' : init_supervisor) (w w' : io W) : Prop :=
  map name sup' = map name sup /\
  exists new, log w' = log w ++ new /\ forall n, n ∉ map name sup -> spawns n new = 0.

Lemma same_names_refl sup w : same_names sup sup w w.
Proof. split; [done|]. exists []. by rewrite app_nil_r. Qed.

Lemma same_names_insert sup i s s' w w' new :
  sup !! i = Some s -> name s' = name s -> log w' = log w ++ new -> (forall n, n <> name s -> spawns n new = 0) ->
  same_names sup (<[i:=s']> sup) w w'.
Proof.
  intros Hs Hn Hl Hsp. split.
  - change (map name (<[i:=s']> sup)) with (name <$> <[i:=s']> sup). rewrite list_fmap_insert.
    apply list_insert_id. rewrite Hn. by rewrite list_lookup_fmap, Hs.
  - exists new. split; [done|]. intros n Hin. apply Hsp. intros ->. apply Hin.
    apply (list_elem_of_fmap_2 name). apply list_elem_of_lookup. by exists i.
Qed.

(** On a well-formed table child_exit returns with a well-formed table; a handled exit uses up
    potential, an ignored one changes nothing. *)
Lemma exit_wf sup t status (w : io W) :
  wf_table sup ->
  exists r sup' w', init_supervisor_child_exit ops sup t status w = Some (r, sup', w') /\ wf_table sup' /\
    same_names sup sup' w w' /\
    if bool_decide (r = INIT_SUPERVISOR_IGNORED) then sup' = sup /\ w' = w
    else total_potential sup' < total_potential sup.
Proof.
  intros Ht. unfold init_supervisor_child_exit.
  destruct (find_slot_spec (fun x => is_state INIT_SERVICE_RUNNING x && (tid x =? t)) sup 0)
    as [[E _]|(i & s & Hs & Hf & E)]; unfold init_supervisor_find_tid; rewrite E.
  { exists INIT_SUPERVISOR_IGNORED, sup, w. split_and!; try done. by apply same_names_refl. }
  replace (_ <? 0) with false by lia. rewrite Z.add_0_l, Nat2Z.id, Hs. obind. cbn [name tid restarts_used state].
  apply andb_prop in Hf as [Hrun _]. pose proof (wf_lookup _ _ _ Ht Hs) as Hw. pose proof (wf_budget _ Hw) as Hb.
  assert (Hp : potential s = 1 + INIT_SUPERVISOR_RESTART_BUDGET - restarts_used s) by (unfold potential; by rewrite Hrun).
  apply is_state_spec in Hrun.
  assert (Hn : is_Some (name s)) by (apply (wf_name _ Hw); by rewrite Hrun).
  destruct (status =? 0).
  - eexists _, _, _. split; [done|]. split.
    + eapply wf_table_update; [done|done|done|]. constructor; simpl; try done. by intros [|].
    + split; [by eapply (same_names_insert _ _ s _ _ _ []); [..|rewrite app_nil_r|]|].
      rewrite (bool_decide_eq_false_2 (_ = _)) by done. rewrite (total_potential_insert sup i s) by done.
      change (potential (mkService _ _ _ INIT_SERVICE_STOPPED)) with 0. lia.
  - destruct (spawn_loop_spec 5 (mkService (name s) (-1) (restarts_used s) (state s)) true w Hb)
      as ([[ok s'] w1] & Hsp & Hd).
    { unfold INIT_SUPERVISOR_RESTART_BUDGET. simpl. lia. }
    unfold init_supervisor_spawn_until_running. rewrite Hsp. obind. eexists _, _, _. split; [done|].
    pose proof (loop_done_wf (mkService (name s) (-1) (restarts_used s) (state s)) true w ok s' w1 Hn ltac:(simpl; lia) Hd) as Hw'.
    destruct Hd as (Hnm & Hr & Hok & new & Hlog & Hoth & _). split; [by eapply wf_table_update|].
    split; [by eapply same_names_insert|].
    rewrite (bool_decide_eq_false_2 (_ = _)) by (by destruct ok).
    rewrite (total_potential_insert sup i s) by done. cbn [restarts_used] in *. unfold potential, is_state in *.
    destruct ok; [destruct Hok as (-> & _ & Hlt); specialize (Hlt eq_refl)|destruct Hok as (-> & _)]; simpl in *; lia.
Qed.

Lemma start_wf sup slot (w : io W) :
  wf_table sup -> exists sup' w', init_supervisor_start ops sup slot w = Some (sup', w') /\ wf_table sup' /\
    same_names sup sup' w w'.
Proof.
  intros Ht. unfold init_supervisor_start, init_supervisor_valid_slot, INIT_SUPERVISOR_CAPACITY.
  destruct ((0 <=? slot) && (slot <? 4)) eqn:E; cbn [negb]; [|eauto using same_names_refl].
  pose proof (wf_length _ Ht) as Hl. destruct (lookup_lt_is_Some_2 sup (Z.to_nat slot)) as [s Hs]; [lia|]. rewrite Hs. obind.
  destruct (is_state INIT_SERVICE_REGISTERED s) eqn:Er; cbn [negb]; [|eauto using same_names_refl]. apply is_state_spec in Er.
  pose proof (wf_lookup _ _ _ Ht Hs) as Hw. pose proof (wf_budget _ Hw) as Hb.
  destruct (spawn_loop_spec 5 s false w Hb) as ([[ok s'] w'] & Hsp & Hd).
  { unfold INIT_SUPERVISOR_RESTART_BUDGET. lia. }
  unfold init_supervisor_spawn_until_running. rewrite Hsp. obind. eexists _, _. split; [done|].
  split.
  - eapply wf_table_update; [done|done|apply Hd|]. eapply loop_done_wf; [| |exact Hd]; [|lia].
    apply (wf_name _ Hw). by rewrite Er.
  - destruct Hd as (Hnm & _ & _ & new & Hlog & Hoth & _). by eapply same_names_insert.
Qed.
End spec.

(** ** Instances *)

(** A kernel that refuses every second spawn. *)
Definition flaky : init_supervisor_ops Z :=
  mkOps (fun w _ => (if Z.even w then -11 else w, w + 1)) true.

Lemma supervisor_spawn_budget_witness :
  is_Some (init_supervisor_start flaky (init_supervisor_register init_supervisor_init (Some (str "devmgr"))).2 0 (mkIO 4 [])).
Proof.
  apply (supervisor_spawn_budget flaky 4 (init_supervisor_register init_supervisor_init (Some (str "devmgr"))).2 (mkIO 4 [])).
  apply rtc_once. eapply (step_register flaky _ _ (Some (str "devmgr")) 0). reflexivity.
Defined.

Lemma supervisor_finished_is_final_witness :
  let s := mkService (Some (str "syslogd")) (-1) 2 INIT_SERVICE_STOPPED in
  (init_supervisor_register [s; unused; unused; unused] (Some (str "devmgr"))).2 !! 0%nat = Some s.
Proof.
  apply (supervisor_finished_is_final flaky
    [mkService (Some (str "syslogd")) (-1) 2 INIT_SERVICE_STOPPED; unused; unused; unused] (mkIO 4 [])
    _ (mkIO 4 []) 0).
  - eapply (step_register flaky _ _ (Some (str "devmgr")) 1). reflexivity.
  - reflexivity.
  - left. reflexivity.
Defined.
