(* ===== verification/Init.v ===== *)
(** * PID 1: servers/init/main.c

    The start-up sequence of init: each test program is spawned, announced,
    reaped and announced again, then the persistent services are started
    under the supervisor, and init reaps children for ever.  The kernel is a
    state [W] with arbitrary spawn, waitpid, mq_open, close and nanosleep;
    the console is what the actions print. *)

From S2P Require Import Prelude Mem Digits Supervisor.

Inductive test := Test (n : string) | Quiet (n : string).

Definition test_name (t : test) : string := match t with Test n => n | Quiet n => n end.

Definition tests_basic : list test :=
  [
    Test "hello3"; Test "hello4"; Test "hello5"; Test "hello7"; Test "hello8"; Test "hello12";
    Quiet "hello13"; Quiet "hello14"; Quiet "hello15"; Quiet "hello16"; Test "hello17";
    Test "hello18"; Test "hello19"; Test "hello20"; Test "hello22"; Test "hello26"; Test "hello27";
    Test "hello23"; Test "hello24"; Test "hello25"; Test "hello29"; Test "hello30"; Test "hello31";
    Test "hello32"; Test "hello33"; Test "hello34"; Test "hello35"; Test "hello36"; Test "hello37";
    Test "hello38"; Test "hello40"; Test "hello39"; Test "hello41"; Test "hello42"; Test "hello43";
    Test "hello44"; Test "hello45"; Test "hello46"; Test "hello47"; Test "hello48"; Test "hello49";
    Test "hello50"; Test "hello51"; Test "hello52"; Test "hello53"; Test "hello54"; Test "hello56";
    Test "hello57"; Test "hello58"; Test "hello59"; Test "hello60"; Test "hello61"; Test "hello62";
    Test "hello63"; Test "hello64"; Test "hello65"; Test "hello66"; Test "hello67"; Test "hello68";
    Test "hello69"; Test "hello70"; Test "hello71"; Test "hello72"; Test "hello73"; Test "hello74";
    Test "hello75"; Test "hello76"; Test "hello77"; Test "hello78"; Test "hello79"
  ]%string.

Definition tests_kernel : list test :=
  [
    Test "hello80"; Test "hello81"; Test "hello82"; Test "hello83"; Test "hello84"; Test "hello85";
    Test "hello86"; Test "hello87"; Test "hello88"; Test "hello89"; Test "hello90"; Test "hello91";
    Test "hello92"; Test "hello93"; Test "hello94"; Test "hello95"; Test "hello96"; Test "hello97";
    Test "hello98"; Test "hello99"; Test "hello100"; Test "hello101"; Test "hello102";
    Test "hello103"; Test "hello104"; Test "hello105"; Test "hello106"; Test "hello107";
    Test "hello108"; Test "hello109"; Test "hello110"; Test "hello111"; Test "hello112";
    Test "hello113"; Test "hello114"; Test "hello115"; Test "hello117"; Test "hello118";
    Test "hello119"; Test "hello120"; Test "hello121"; Test "hello122"; Test "hello123";
    Test "hello124"; Test "hello125"; Test "hello126"; Test "hello127"; Test "hello128";
    Test "hello129"; Test "hello130"; Test "hello131"; Test "hello132"; Test "hello133";
    Test "hello134"; Test "hello135"; Test "hello136"; Test "hello137"; Test "hello138";
    Test "hello139"; Test "hello140"; Test "hello141"; Test "hello142"; Test "hello143";
    Test "hello144"; Test "hello145"; Test "hello146"; Test "hello147"; Test "hello148";
    Test "hello150"; Test "hello151"; Test "hello152"; Test "hello153"; Test "hello154";
    Test "hello155"; Test "hello156"; Test "hello157"; Test "hello158"; Test "hello159";
    Test "hello160"; Test "hello161"; Test "hello162"; Test "hello163"; Test "hello164";
    Test "hello165"; Test "hello166"; Test "hello167"
  ]%string.

Definition tests_libc : list test :=
  [
    Test "hello168"; Test "hello169"; Test "hello170"; Test "hello171"; Test "hello172";
    Test "hello173"; Test "hello174"; Test "hello175"; Test "hello176"; Test "hello177";
    Test "hello178"; Test "hello179"; Test "hello180"; Test "hello181"; Test "hello182";
    Test "hello183"; Test "hello184"; Test "hello185"; Test "hello186"; Test "hello187";
    Test "hello188"; Test "hello189"; Test "hello195"; Test "hello196"; Test "hello197";
    Test "hello198"; Test "hello199"; Test "hello200"; Test "hello201"; Test "hello202";
    Test "hello203"; Test "hello204"; Test "hello205"; Test "hello206"; Test "hello207";
    Test "hello208"; Test "hello209"; Test "hello210"; Test "hello211"; Test "hello212";
    Test "hello213"; Test "hello214"; Test "hello215"; Test "hello216"; Test "hello217";
    Test "hello218"; Test "hello219"; Test "hello220"; Test "hello221"; Test "hello222";
    Test "hello223"; Test "hello224"; Test "hello225"; Test "hello226"; Test "hello227";
    Test "hello228"; Test "hello229"; Test "hello234"; Test "hello235"; Test "hello236";
    Test "hello237"; Test "hello238"; Test "hello239"; Test "hello240"; Test "hello241";
    Test "hello242"; Test "hello243"; Test "hello244"; Test "hello245"; Test "hello246";
    Test "hello248"; Test "hello249"; Test "hello250"; Test "hello251"; Test "hello252";
    Test "hello253"; Test "hello254"; Test "hello255"; Test "hello256"; Test "hello257";
    Test "hello190"; Test "hello191"; Test "hello192"; Test "hello193"
  ]%string.

Definition tests_last : list test :=
  [
    Test "hello9"; Test "hello10"; Test "hello21"
  ]%string.

Definition persistent_services : list string := ["syslogd"; "devmgr"]%string.

Definition cstring (n : string) : cname := Some (str n).

(** "spawned %s\n" and "%s done\n" *)
Definition spawned_line (n : string) : list Z := str "spawned " ++ str n ++ [10].
Definition done_line (n : string) : list Z := str n ++ str " done" ++ [10].

Section init.
Context {W : Type}.

(** The system calls. *)
Record kernel := mkKernel {
  sys_spawn : W -> cname -> Z * W;
  sys_waitpid : W -> Z * Z * W;              (* waitpid(-1, &status, 0): tid and status *)
  sys_mq_open : W -> string -> Z -> Z * W;   (* name and mode *)
  sys_close : W -> Z -> W;
  sys_nanosleep : W -> Z -> W;               (* seconds *)
  sys_getpid : W -> Z;
}.
Context (k : kernel).

Definition supervisor_ops : init_supervisor_ops W := mkOps (sys_spawn k) true.

(** init's state: the supervisor table, the kernel and the log. *)
Definition init_state : Type := init_supervisor * io W.

Definition printed (text : list Z) (st : init_state) : init_state := (st.1, emit (Printed text) st.2).

Definition spawn_created (n : string) (st : init_state) : bool * init_state :=
  let '(t, w) := do_spawn supervisor_ops st.2 (cstring n) in
  let '(ok, w') := init_spawn_created t (cstring n) w in
  (ok, (st.1, w')).

(** The tid, or -1. *)
Definition spawn_child (n : string) (st : init_state) : Z * init_state :=
  let '(t, w) := do_spawn supervisor_ops st.2 (cstring n) in
  let '(ok, w') := init_spawn_created t (cstring n) w in
  (if (ok : bool) then t else -1, (st.1, w')).

(** The for loop of reap_child: tid and status of the first child that is no service. *)
Fixpoint reap_loop (fuel : nat) (st : init_state) : option (Z * Z * init_state) :=
  match fuel with
  | O => None
  | S f =>
      let '(t, status, w) := sys_waitpid k (world st.2) in
      let io := mkIO w (log st.2) in
      if t <? 0 then Some (t, status, (st.1, io))
      else
        r ← init_supervisor_child_exit supervisor_ops st.1 t status io;
        let '(res, sup, io') := r in
        if bool_decide (res = INIT_SUPERVISOR_IGNORED) then Some (t, status, (sup, io'))
        else reap_loop f (sup, io')
  end.

(** Four services, each with at most four exits to handle. *)
Definition reap_child (st : init_state) : option (Z * Z * init_state) := reap_loop 17 st.

Definition run_test (n : string) (st : init_state) : option init_state :=
  let '(t, st1) := spawn_child n st in
  if t =? -1 then Some st1
  else
    r ← reap_child (printed (spawned_line n) st1);
    Some (printed (done_line n) r.2).

Definition run_test_quiet (n : string) (st : init_state) : option init_state :=
  let '(t, st1) := spawn_child n st in
  if t =? -1 then Some st1
  else r ← reap_child (printed (spawned_line n) st1); Some r.2.

Definition run_one (t : test) (st : init_state) : option init_state :=
  match t with Test n => run_test n st | Quiet n => run_test_quiet n st end.

Fixpoint run_tests (l : list test) (st : init_state) : option init_state :=
  match l with
  | [] => Some st
  | t :: l' => st' ← run_one t st; run_tests l' st'
  end.

Fixpoint start_services (l : list string) (st : init_state) : option init_state :=
  match l with
  | [] => Some st
  | n :: l' =>
      let '(slot, sup) := init_supervisor_register st.1 (cstring n) in
      st' ← (if 0 <=? slot then init_supervisor_start supervisor_ops sup slot st.2 else Some (sup, st.2));
      start_services l' st'
  end.

Definition start_persistent_services (st : init_state) : option init_state :=
  start_services persistent_services (init_supervisor_init, st.2).

Definition run_hello2 (st : init_state) : option init_state :=
  let '(t, st1) := spawn_child "hello2" st in
  if t =? -1 then Some st1
  else
    r ← reap_child (printed (spawned_line "hello2") st1);
    Some (printed (str "child exited" ++ [10]) r.2).

(** The message queue fixture of hello80. *)
Definition mq_fixture (st : init_state) : init_state :=
  let open_close w n mode :=
    let '(q, w1) := sys_mq_open k w n mode in if 0 <=? q then sys_close k w1 q else w1 in
  let w1 := open_close (world st.2) "/h80-root"%string 384 in    (* 0600 *)
  let w2 := open_close w1 "/h80-open"%string 438 in              (* 0666 *)
  (st.1, mkIO w2 (log st.2)).

(** main up to the endless reap loop; the static supervisor starts zeroed. *)
Definition zeroed_service : init_supervisor_service := mkService None 0 0 INIT_SERVICE_UNUSED.

Definition main_start (w : W) : option init_state :=
  let st0 : init_state := (replicate 4 zeroed_service, mkIO w []) in
  let st1 := printed (str "init (pid " ++ decimal (sys_getpid k w) ++ str ") started" ++ [10]) st0 in
  let st2 := printed (str "Hello from init!" ++ [10]) st1 in
  st3 ← run_hello2 st2;
  st4 ← run_tests tests_basic st3;
  st5 ← run_tests tests_kernel (mq_fixture st4);
  st6 ← run_tests tests_libc st5;
  st7 ← start_persistent_services st6;
  st8 ← run_tests tests_last st7;
  Some (spawn_created "sh" st8).2.

(** One round of the final loop. *)
Definition main_round (st : init_state) : option init_state :=
  r ← reap_child st;
  let '(t, _, st') := r in
  Some (if t <? 0 then (st'.1, mkIO (sys_nanosleep k (world st'.2) 1) (log st'.2)) else st').
End init.

Arguments kernel : clear implicits.

(** ** Termination and spawn counts *)

Section proofs.
Context {W : Type} (k : kernel W).
#[local] Abbreviation st_t := (@init_state W).

(** The programs the supervisor may spawn. *)
Definition services : list cname := map cstring persistent_services.

(** The supervisor table during the start-up: still zeroed, or well formed with known names. *)
Definition table_ok (sup : init_supervisor) : Prop :=
  sup = replicate 4 zeroed_service \/
  (wf_table sup /\ forall n, n ∈ map name sup -> is_Some n -> n ∈ services).

(** A step that adds [spawned] to the spawned programs, restarts of services aside. *)
Definition spawn_step (spawned : list string) (st st' : st_t) : Prop :=
  table_ok st'.1 /\
  forall n, is_Some n -> n ∉ services ->
    spawns n (log st'.2) = spawns n (log st.2) + len (List.filter (fun m => bool_decide (cstring m = n)) spawned).

Lemma spawn_step_trans l1 l2 st1 st2 st3 :
  spawn_step l1 st1 st2 -> spawn_step l2 st2 st3 -> spawn_step (l1 ++ l2) st1 st3.
Proof.
  intros [_ H1] [H2 H3]. split; [done|]. intros n Hn Hs. rewrite H3, H1, List.filter_app, length_app by done. lia.
Qed.

Lemma spawns_ext (n : cname) (l1 l2 : list action) : l1 = l2 -> spawns n l1 = spawns n l2.
Proof. by intros ->. Qed.

(** Before the services are started every exit is ignored. *)
Lemma exit_zeroed t status (w : io W) :
  init_supervisor_child_exit (supervisor_ops k) (replicate 4 zeroed_service) t status w
  = Some (INIT_SUPERVISOR_IGNORED, replicate 4 zeroed_service, w).
Proof. done. Qed.

Lemma reap_loop_wf fuel : forall (st : st_t),
  wf_table st.1 -> total_potential st.1 < Z.of_nat fuel ->
  exists t status st', reap_loop k fuel st = Some (t, status, st') /\ wf_table st'.1 /\
    map name st'.1 = map name st.1 /\
    exists new, log st'.2 = log st.2 ++ new /\ forall n, n ∉ map name st.1 -> spawns n new = 0.
Proof.
  induction fuel as [|fuel IH]; intros st Hw Hf; [pose proof (potential_bound _ Hw); lia|]. cbn [reap_loop].
  destruct (sys_waitpid k (world st.2)) as [[t status] w1]. destruct (t <? 0).
  { eexists _, _, _. split; [done|]. split; [done|]. split; [done|]. exists []. by rewrite app_nil_r. }
  destruct (exit_wf (supervisor_ops k) st.1 t status (mkIO w1 (log st.2)) Hw)
    as (r & sup' & w' & -> & Hw' & (Hnm & new & Hlog & Hsp) & Hr). obind.
  destruct (bool_decide (r = INIT_SUPERVISOR_IGNORED)) eqn:Er.
  - eexists _, _, _. split; [done|]. destruct Hr as [-> ->]. split; [done|]. split; [done|].
    exists []. by rewrite app_nil_r.
  - destruct (IH (sup', w') Hw') as (t' & s' & st' & -> & Hw2 & Hnm2 & new2 & Hlog2 & Hsp2); [simpl in *; lia|].
    eexists _, _, _. split; [done|]. split; [done|]. simpl in *. split; [congruence|].
    exists (new ++ new2). split; [rewrite Hlog2, Hlog; by rewrite app_assoc|].
    intros n Hn. rewrite spawns_app, Hsp, Hsp2; [done| |done]. by rewrite Hnm.
Qed.

Lemma reap_child_ok (st : st_t) : table_ok st.1 ->
  exists t status st', reap_child k st = Some (t, status, st') /\ spawn_step [] st st'.
Proof.
  intros [Hz|[Hw Hn]]; unfold reap_child.
  - destruct st as [sup w]. simpl in Hz. subst sup. cbn [reap_loop fst snd].
    destruct (sys_waitpid k (world w)) as [[t status] w1]. destruct (t <? 0).
    + eexists _, _, _. split; [done|]. split; [by left|]. intros. simpl. lia.
    + rewrite exit_zeroed. obind. rewrite bool_decide_eq_true_2 by done. eexists _, _, _. split; [done|].
      split; [by left|]. intros. simpl. lia.
  - destruct (reap_loop_wf 17 st Hw) as (t & s & st' & -> & Hw' & Hnm & new & Hlog & Hsp).
    { pose proof (potential_bound _ Hw). lia. }
    eexists _, _, _. split; [done|]. split; [right; split; [done|by rewrite Hnm]|].
    intros n Hs Hns. rewrite Hlog, spawns_app, Hsp; [simpl; lia|]. intros Hin. apply Hns. by apply Hn.
Qed.

Lemma spawn_child_ok (st : st_t) n : table_ok st.1 ->
  spawn_step [n] st (spawn_child k n st).2.
Proof.
  intros Ht. unfold spawn_child, do_spawn. destruct (spawn (supervisor_ops k) (world st.2) (cstring n)) as [t w1].
  unfold init_spawn_created. split; [by destruct (t <? 0)|]. intros m Hm Hs. cbn [List.filter].
  destruct (t <? 0); simpl; rewrite !spawns_app; unfold spawns; simpl;
    destruct (bool_decide (cstring n = m)); simpl; lia.
Qed.

Lemma printed_ok l (st st' : st_t) text : spawn_step l st st' -> spawn_step l st (printed text st').
Proof.
  intros [H1 H2]. split; [done|]. intros n Hn Hs. simpl. rewrite spawns_app, H2 by done. unfold spawns at 2. simpl. lia.
Qed.

Lemma run_one_ok (st : st_t) t : table_ok st.1 ->
  exists st', run_one k t st = Some st' /\ spawn_step [test_name t] st st'.
Proof.
  intros Ht. destruct t as [n|n]; cbn [run_one test_name]; unfold run_test, run_test_quiet;
    pose proof (spawn_child_ok st n Ht) as Hs; destruct (spawn_child k n st) as [tid st1]; cbn [snd] in Hs;
    (destruct (tid =? -1); [by eexists|]);
    pose proof (printed_ok _ _ _ (spawned_line n) Hs) as Hp;
    (destruct (reap_child_ok (printed (spawned_line n) st1)) as (t & s & st2 & -> & H2); [apply Hp|]); obind;
    eexists; (split; [done|]); change [n] with ([n] ++ []); [apply printed_ok|]; by eapply spawn_step_trans.
Qed.

Lemma run_tests_ok l : forall (st : st_t), table_ok st.1 ->
  exists st', run_tests k l st = Some st' /\ spawn_step (map test_name l) st st'.
Proof.
  induction l as [|t l IH]; intros st Ht; cbn [run_tests map].
  - exists st. split; [done|]. split; [done|]. intros. simpl. lia.
  - destruct (run_one_ok st t Ht) as (st1 & -> & H1). obind. destruct (IH st1 (proj1 H1)) as (st2 & -> & H2).
    exists st2. split; [done|]. change (test_name t :: map test_name l) with ([test_name t] ++ map test_name l).
    by eapply spawn_step_trans.
Qed.

Lemma start_services_ok l : forall (st : st_t), wf_table st.1 ->
  (forall n, n ∈ map name st.1 -> is_Some n -> n ∈ services) -> (forall n, n ∈ l -> cstring n ∈ services) ->
  exists st', start_services k l st = Some st' /\ spawn_step [] st st'.
Proof.
  induction l as [|n l IH]; intros st Hw Hn Hl; cbn [start_services].
  - exists st. split; [done|]. split; [by right|]. intros. simpl. lia.
  - destruct (init_supervisor_register st.1 (cstring n)) as [slot sup] eqn:Er.
    pose proof (register_wf _ _ _ _ Hw Er) as Hw1.
    assert (Hn1 : forall m, m ∈ map name sup -> is_Some m -> m ∈ services).
    { intros m Hm Hsm. destruct (register_spec _ _ _ _ Hw Er) as [->|(i & x & Hx & _ & _ & -> & _)]; [by apply Hn|].
      apply (list_elem_of_fmap_1 name) in Hm as (y & -> & Hy). apply list_elem_of_lookup in Hy as [j Hj].
      apply list_lookup_insert_Some in Hj as [(<- & <- & _)|[_ Hj]].
      - simpl. apply Hl. apply list_elem_of_here.
      - apply Hn; [|done]. apply (list_elem_of_fmap_2 name). apply list_elem_of_lookup. by exists j. }
    assert (Hst : exists sup' w', (if 0 <=? slot then init_supervisor_start (supervisor_ops k) sup slot st.2 else Some (sup, st.2))
      = Some (sup', w') /\ wf_table sup' /\ same_names sup sup' st.2 w').
    { destruct (0 <=? slot); [by apply start_wf|]. exists sup, st.2. split; [done|]. split; [done|]. by apply same_names_refl. }
    destruct Hst as (sup' & w' & Est & Hw' & Hnm & new & Hlog & Hsp). unfold init_state. rewrite Est. obind.
    destruct (IH (sup', w')) as (st2 & -> & H2 & H3); [done|by simpl; rewrite Hnm|intros m Hm; apply Hl; by apply list_elem_of_further|].
    exists st2. split; [done|]. split; [done|]. intros m Hm Hs. rewrite H3 by done. simpl.
    rewrite Hlog, spawns_app, Hsp; [lia|]. intros Hin. apply Hs. by apply Hn1.
Qed.

Lemma spawn_created_ok (st : st_t) n : table_ok st.1 -> spawn_step [n] st (spawn_created k n st).2.
Proof.
  intros Ht. pose proof (spawn_child_ok st n Ht) as H. unfold spawn_child, spawn_created in *.
  destruct (do_spawn (supervisor_ops k) st.2 (cstring n)) as [t w1].
  by destruct (init_spawn_created t (cstring n) w1).
Qed.

Lemma run_hello2_ok (st : st_t) : table_ok st.1 ->
  exists st', run_hello2 k st = Some st' /\ spawn_step ["hello2"%string] st st'.
Proof.
  intros Ht. unfold run_hello2. pose proof (spawn_child_ok st "hello2" Ht) as Hs.
  destruct (spawn_child k "hello2" st) as [tid st1]. cbn [snd] in Hs. destruct (tid =? -1); [by eexists|].
  pose proof (printed_ok _ _ _ (spawned_line "hello2") Hs) as Hp.
  destruct (reap_child_ok (printed (spawned_line "hello2") st1)) as (t & s & st2 & -> & H2); [apply Hp|]. obind.
  eexists. split; [done|]. change ["hello2"%string] with (["hello2"%string] ++ []). apply printed_ok.
  by eapply spawn_step_trans.
Qed.

Lemma mq_fixture_ok l (st st' : st_t) : spawn_step l st st' -> spawn_step l st (mq_fixture k st').
Proof. intros [H1 H2]. done. Qed.

(** The programs init starts by itself, in order. *)
Definition programs : list string :=
  "hello2"%string :: map test_name tests_basic ++ map test_name tests_kernel ++ map test_name tests_libc
  ++ map test_name tests_last ++ ["sh"%string].

Lemma init_names n : n ∈ map name init_supervisor_init -> is_Some n -> n ∈ services.
Proof.
  intros (x & -> & Hx)%(list_elem_of_fmap_1 name). apply list_elem_of_lookup in Hx as [i Hx].
  apply lookup_replicate in Hx as [-> _]. by intros [m [=]].
Qed.

Lemma main_start_ok w :
  exists st, main_start k w = Some st /\ table_ok st.1 /\
    forall n, is_Some n -> n ∉ services ->
      spawns n (log st.2) = len (List.filter (fun m => bool_decide (cstring m = n)) programs).
Proof.
  unfold main_start. set (st2 := printed _ _).
  assert (H2 : table_ok st2.1) by (by left).
  destruct (run_hello2_ok st2 H2) as (st3 & -> & H3). obind.
  destruct (run_tests_ok tests_basic st3 (proj1 H3)) as (st4 & -> & H4). obind.
  pose proof (mq_fixture_ok _ _ _ H4) as H4'.
  destruct (run_tests_ok tests_kernel (mq_fixture k st4) (proj1 H4')) as (st5 & -> & H5). obind.
  destruct (run_tests_ok tests_libc st5 (proj1 H5)) as (st6 & -> & H6). obind.
  unfold start_persistent_services.
  destruct (start_services_ok persistent_services (init_supervisor_init, st6.2)) as (st7 & -> & H7).
  { apply (inv_table _ _ (sup_inv_init (world st6.2))). }
  { apply init_names. }
  { intros n Hn. by apply (list_elem_of_fmap_2 cstring). }
  obind. destruct (run_tests_ok tests_last st7 (proj1 H7)) as (st8 & -> & H8). obind.
  pose proof (spawn_created_ok st8 "sh" (proj1 H8)) as H9. eexists. split; [done|]. split; [apply H9|].
  intros n Hn Hs. unfold programs.
  change ("hello2"%string :: ?l) with (["hello2"%string] ++ l). rewrite !List.filter_app, !length_app.
  rewrite (proj2 H9), (proj2 H8), (proj2 H7) by done. cbn [snd].
  rewrite (proj2 H6), (proj2 H5), (proj2 H4'), (proj2 H3) by done.
  assert (E0 : spawns n (log st2.2) = 0) by done. rewrite E0. simpl (len (List.filter _ [])). lia.
Qed.

(** The endless loop, [j] rounds of it. *)
Fixpoint main_rounds (j : nat) (st : st_t) : option st_t :=
  match j with
  | O => Some st
  | S j' => st' ← main_round k st; main_rounds j' st'
  end.

Lemma main_rounds_ok j : forall st : st_t, table_ok st.1 -> exists st', main_rounds j st = Some st' /\ spawn_step [] st st'.
Proof.
  induction j as [|j IH]; intros st Ht; cbn [main_rounds].
  { exists st. split; [done|]. split; [done|]. intros. simpl. lia. }
  unfold main_round. destruct (reap_child_ok st Ht) as (t & s & st1 & -> & H1). obind.
  destruct (t <? 0); obind.
  - destruct (IH (st1.1, mkIO (sys_nanosleep k (world st1.2) 1) (log st1.2)) (proj1 H1)) as (st3 & -> & H3).
    exists st3. split; [done|]. apply (spawn_step_trans [] [] _ st1); done.
  - destruct (IH st1 (proj1 H1)) as (st3 & -> & H3). exists st3. split; [done|]. by apply (spawn_step_trans [] [] _ st1).
Qed.

Lemma spawn_count n : List.filter (fun m => bool_decide (cstring m = cstring n)) programs
  = List.filter (fun m => bool_decide (m = n)) programs.
Proof.
  apply List.filter_ext. intros m. apply bool_decide_ext. unfold cstring. split; [|by intros ->].
  intros [= E]. by apply str_inj.
Qed.

(** C31. init gets through its start-up whatever the kernel answers: each
    program of the fixed sequence is spawned exactly once, nothing but these
    programs and the persistent services is ever spawned (so never hello6,
    hello11 or hello28), and each of the later rounds of the reap loop
    returns without spawning anything but services. *)
Theorem init_spawns_sequence w :
  exists st, main_start k w = Some st /\
    (forall n, n ∈ programs -> spawns (cstring n) (log st.2) = 1) /\
    (forall n, n ∉ programs -> n ∉ persistent_services -> spawns (cstring n) (log st.2) = 0) /\
    (forall n, n ∈ ["hello6"; "hello11"; "hello28"]%string -> n ∉ programs) /\
    (forall j, exists st', main_rounds j st = Some st' /\
       forall n, n ∉ persistent_services -> spawns (cstring n) (log st'.2) = spawns (cstring n) (log st.2)).
Proof.
  destruct (main_start_ok w) as (st & E & Ht & Hc). exists st. split; [done|].
  assert (Hserv : forall n, n ∉ persistent_services -> cstring n ∉ services).
  { intros n Hn Hin. apply (list_elem_of_fmap_1 cstring) in Hin as (m & [= Em] & Hm). apply str_inj in Em. by subst m. }
  assert (Hcount : forall n, n ∉ persistent_services ->
    spawns (cstring n) (log st.2) = len (List.filter (fun m => bool_decide (m = n)) programs)).
  { intros n Hn. rewrite Hc, spawn_count; [done|by eexists|by apply Hserv]. }
  assert (Hdis : forallb (fun n => bool_decide (n ∉ persistent_services)) programs = true) by (vm_compute; done).
  assert (Hone : forallb (fun n => len (List.filter (fun m => bool_decide (m = n)) programs) =? 1) programs = true)
    by (vm_compute; done).
  split; [|split; [|split]].
  - intros n Hn. pose proof (proj1 (forallb_forall _ _) Hdis n (proj1 (list_elem_of_In _ _) Hn)) as H1.
    pose proof (proj1 (forallb_forall _ _) Hone n (proj1 (list_elem_of_In _ _) Hn)) as H2. cbv beta in *.
    apply bool_decide_eq_true in H1. rewrite Hcount by done. lia.
  - intros n Hn Hs. rewrite Hcount by done. rewrite (filter_none _ programs); [done|].
    intros m Hm. apply bool_decide_eq_false. intros ->. exact (Hn Hm).
  - intros n Hn. apply elem_of_cons in Hn as [->|Hn]; [by apply (bool_decide_unpack _); vm_compute|].
    apply elem_of_cons in Hn as [->|Hn]; [by apply (bool_decide_unpack _); vm_compute|].
    apply elem_of_cons in Hn as [->|Hn]; [by apply (bool_decide_unpack _); vm_compute|]. exfalso. exact (not_elem_of_nil _ Hn).
  - intros j. destruct (main_rounds_ok j st Ht) as (st' & E' & _ & Hs'). exists st'. split; [done|].
    intros n Hn. rewrite Hs' by (by eexists || by apply Hserv). simpl. lia.
Qed.
End proofs.
