(* ===== verification/Malloc.v ===== *)
(** * lib/moqi_libc/src/malloc.c, sbrk.c and the sbrk of unistd.c

    The first-fit allocator at the level of its pointer structure: a header
    per address, linked through [bnext] from [heap_head]; the heap lock word,
    the deferred frees of signal handlers, and the growth of the heap through
    the kernel's brk.  Operations return [None] when the C code would
    dereference an address without a header, walk a cyclic list, or spin on a
    lock another thread holds.  [MallocProofs] relates them to lists of
    blocks. *)

From S2P Require Import Prelude Mem CString.

(** ** The kernel's brk (kernel/mm/brk.zig)

    [grow_ok cur addr] stands for the checks and page allocations of a
    growth (resource limits, occupied pages, free frames): any of them can
    refuse it. *)

Section kernel_brk.
Context (grow_ok : Z -> Z -> bool) (brk_start ceiling : Z).

Definition page_ceil (addr : Z) : Z := (addr + 4095) / 4096.

Definition sys_brk (cur addr : Z) : Z :=
  if addr =? 0 then cur
  else if (brk_start =? 0) || (cur =? 0) then cur
  else if addr <? brk_start then cur
  else if ceiling <? addr then cur
  else if page_ceil cur <? page_ceil addr then
    (if grow_ok cur addr then addr else cur)
  else addr.
End kernel_brk.

(** ** State *)

Definition ALIGN : Z := 16.
Definition HDR : Z := 32.                (* sizeof(struct block) *)
Definition MIN_SPLIT : Z := HDR + ALIGN.
Definition GROW_CHUNK : Z := 4096.
Definition BLOCK_MAGIC : Z := 0x4d6f5169.
Definition DEFERRED_MAX : nat := 8.

(** struct block *)
Record block := mkBlock {
  bsize : Z;       (* payload bytes *)
  bfree : bool;
  bmagic : Z;
  bnext : Z;       (* address of the next header, 0 at the end *)
}.

Record heap := mkHeap {
  heap_head : Z;
  blocks : gmap Z block;       (* the headers *)
  raw : mem;                   (* all bytes of the address space *)
  hbrk : Z;                    (* the program break *)
  heap_owner : Z;              (* 0: unlocked *)
  deferred : list Z;           (* parked frees, 0: empty slot *)
  free_rejected : Z;
  deferred_leaked : Z;
  herrno : Z;
}.

Definition set_head (a : Z) (h : heap) : heap :=
  mkHeap a (blocks h) (raw h) (hbrk h) (heap_owner h) (deferred h)
    (free_rejected h) (deferred_leaked h) (herrno h).
Definition set_blocks (B : gmap Z block) (h : heap) : heap :=
  mkHeap (heap_head h) B (raw h) (hbrk h) (heap_owner h) (deferred h)
    (free_rejected h) (deferred_leaked h) (herrno h).
Definition set_raw (m : mem) (h : heap) : heap :=
  mkHeap (heap_head h) (blocks h) m (hbrk h) (heap_owner h) (deferred h)
    (free_rejected h) (deferred_leaked h) (herrno h).
Definition set_brk (b : Z) (h : heap) : heap :=
  mkHeap (heap_head h) (blocks h) (raw h) b (heap_owner h) (deferred h)
    (free_rejected h) (deferred_leaked h) (herrno h).
Definition set_owner (o : Z) (h : heap) : heap :=
  mkHeap (heap_head h) (blocks h) (raw h) (hbrk h) o (deferred h)
    (free_rejected h) (deferred_leaked h) (herrno h).
Definition set_deferred (d : list Z) (h : heap) : heap :=
  mkHeap (heap_head h) (blocks h) (raw h) (hbrk h) (heap_owner h) d
    (free_rejected h) (deferred_leaked h) (herrno h).
Definition count_rejected (h : heap) : heap :=
  mkHeap (heap_head h) (blocks h) (raw h) (hbrk h) (heap_owner h) (deferred h)
    (u64 (free_rejected h + 1)) (deferred_leaked h) (herrno h).
Definition count_leaked (h : heap) : heap :=
  mkHeap (heap_head h) (blocks h) (raw h) (hbrk h) (heap_owner h) (deferred h)
    (free_rejected h) (u64 (deferred_leaked h + 1)) (herrno h).
Definition set_err (e : Z) (h : heap) : heap :=
  mkHeap (heap_head h) (blocks h) (raw h) (hbrk h) (heap_owner h) (deferred h)
    (free_rejected h) (deferred_leaked h) e.

(** The header as it lies in memory (little endian; the last 8 bytes, [_pad2], are never written). *)
Fixpoint le_bytes (n : nat) (v : Z) : list Z :=
  match n with
  | O => []
  | S n' => v mod 256 :: le_bytes n' (v / 256)
  end.

Definition encode_block (b : block) : list Z :=
  le_bytes 8 (bsize b) ++ le_bytes 4 (if bfree b then 1 else 0) ++ le_bytes 4 (bmagic b)
  ++ le_bytes 8 (bnext b).

(** Writing a header that has been read: the structured view and the bytes under it. *)
Definition put_block (a : Z) (b : block) (h : heap) : heap :=
  set_raw (write_bytes (raw h) a (encode_block b)) (set_blocks (<[a := b]> (blocks h)) h).

(** Writing a header to memory that is not known to hold one: the stores fault when it is not mapped. *)
Definition header_ok (h : heap) (a : Z) : bool :=
  forallb (fun i => bool_decide (is_Some (raw h !! (a + i)))) (seqZ 0 24).

Definition new_block (a : Z) (b : block) (h : heap) : option heap :=
  if header_ok h a then Some (put_block a b h) else None.

(** A walk over the list visits each header at most once. *)
Definition list_fuel (h : heap) : nat := S (size (blocks h)).

Section malloc.
(** The kernel's brk as a function of the current break and the request, and
    the identity of the calling thread ([heap_self]: the TCB address, or 1
    before crt0 has installed one). *)
Context (brk_call : Z -> Z -> Z) (self : Z).

(** ** Growing the heap *)

(** The heap segment follows the break: fresh bytes are zero; released ones are gone, with the
    headers that lay there.  The kernel maps whole pages; bytes above the break in the last of
    them do not belong to the heap and are not mapped here. *)
Definition resize_heap (h : heap) (cur next : Z) : heap :=
  if cur <=? next then set_raw (write_bytes (raw h) cur (replicate (Z.to_nat (next - cur)) 0)) (set_brk next h)
  else set_raw (filter (fun kv => ~ (next <= kv.1 < cur)) (raw h)) (set_blocks (filter (fun kv => kv.1 + HDR <= next) (blocks h)) (set_brk next h)).

(** unistd.c: the address or -1, and the heap with the new break. *)
Definition sbrk (h : heap) (increment : Z) : Z * heap :=
  let cur := brk_call (hbrk h) 0 in
  if cur =? 0 then (-1, h)
  else if increment =? 0 then (cur, h)
  else
    let next := brk_call (hbrk h) (u64 (cur + increment)) in
    let h' := resize_heap h cur next in
    if negb (next =? cur + increment) then (-1, h') else (cur, h').

(** sbrk.c: the [(long)] cast of the byte count is a two's complement reinterpretation. *)
Definition heap_grow (h : heap) (bytes : Z) : Z * heap :=
  let '(old, h') := sbrk h (i64 bytes) in
  if (old =? -1) || (old =? 0) then (0, h') else (old, h').

Definition align_up (n : Z) : Z := Z.land (u64 (n + ALIGN - 1)) (u64 (Z.lnot (ALIGN - 1))).

Fixpoint tail_loop (fuel : nat) (h : heap) (tail : Z) : option Z :=
  match fuel with
  | O => None
  | S f => t ← blocks h !! tail; if bnext t =? 0 then Some tail else tail_loop f h (bnext t)
  end.

(** Returns the new block, or 0. *)
Definition grow (h : heap) (payload : Z) : option (Z * heap) :=
  let need := u64 (payload + HDR) in
  let ask := if need <? GROW_CHUNK then GROW_CHUNK else align_up need in
  let '(b, h1) := heap_grow h ask in
  if b =? 0 then Some (0, h1)
  else
    h2 ← new_block b (mkBlock (u64 (ask - HDR)) true BLOCK_MAGIC 0) h1;
    if heap_head h2 =? 0 then Some (b, set_head b h2)
    else
      tail ← tail_loop (list_fuel h2) h2 (heap_head h2);
      t ← blocks h2 !! tail;
      Some (b, put_block tail (mkBlock (bsize t) (bfree t) (bmagic t) b) h2).

(** ** Allocation *)

Definition split (h : heap) (b size : Z) : option heap :=
  x ← blocks h !! b;
  if bsize x <? u64 (size + MIN_SPLIT) then Some h
  else
    let rest := b + HDR + size in
    h1 ← new_block rest (mkBlock (u64 (bsize x - size - HDR)) true BLOCK_MAGIC (bnext x)) h;
    Some (put_block b (mkBlock size (bfree x) (bmagic x) rest) h1).

Definition set_free (h : heap) (b : Z) (f : bool) : option heap :=
  x ← blocks h !! b; Some (put_block b (mkBlock (bsize x) f (bmagic x) (bnext x)) h).

(** [if (heap_self() != (void * )1) errno = e] *)
Definition set_errno (e : Z) (h : heap) : heap := if negb (self =? 1) then set_err e h else h.

Definition SIZE_LIMIT : Z := u64 (-1) - (ALIGN - 1) - HDR.

(** The first free block with room, or 0. *)
Fixpoint first_fit (fuel : nat) (h : heap) (b want : Z) : option Z :=
  match fuel with
  | O => None
  | S f =>
      if b =? 0 then Some 0
      else
        x ← blocks h !! b;
        if bfree x && (want <=? bsize x) then Some b else first_fit f h (bnext x) want
  end.

Definition take_block (h : heap) (b want : Z) : option (Z * heap) :=
  h1 ← split h b want; h2 ← set_free h1 b false; Some (b + HDR, h2).

Definition malloc_locked (h : heap) (want : Z) : option (Z * heap) :=
  b ← first_fit (list_fuel h) h (heap_head h) want;
  if negb (b =? 0) then take_block h b want
  else
    g ← grow h want;
    let '(b, h1) := g in
    if b =? 0 then Some (0, h1) else take_block h1 b want.

(** ** Release *)

(** The inner while of coalesce: swallow free, adjacent successors of [b]. *)
Fixpoint merge_loop (fuel : nat) (h : heap) (b : Z) : option heap :=
  match fuel with
  | O => None
  | S f =>
      x ← blocks h !! b;
      if bfree x && negb (bnext x =? 0) then
        gone ← blocks h !! bnext x;
        if bfree gone && (b + HDR + bsize x =? bnext x) then
          let h1 := put_block b (mkBlock (u64 (bsize x + (HDR + bsize gone))) (bfree x) (bmagic x) (bnext gone)) h in
          merge_loop f (put_block (bnext x) (mkBlock (bsize gone) (bfree gone) 0 (bnext gone)) h1) b
        else Some h
      else Some h
  end.

Fixpoint coalesce_loop (fuel : nat) (h : heap) (b : Z) : option heap :=
  match fuel with
  | O => None
  | S f =>
      if b =? 0 then Some h
      else
        x ← blocks h !! b;
        if bnext x =? 0 then Some h
        else
          h1 ← merge_loop (list_fuel h) h b;
          x1 ← blocks h1 !! b;
          coalesce_loop f h1 (bnext x1)
  end.

Definition coalesce (h : heap) : option heap := coalesce_loop (list_fuel h) h (heap_head h).

(** The header whose payload starts at [ptr], or 0. *)
Fixpoint find_payload (fuel : nat) (h : heap) (b ptr : Z) : option Z :=
  match fuel with
  | O => None
  | S f =>
      if b =? 0 then Some 0
      else
        x ← blocks h !! b;
        if negb (b + HDR =? ptr) then find_payload f h (bnext x) ptr
        else if negb (bmagic x =? BLOCK_MAGIC) || bfree x then Some 0
        else Some b
  end.

Definition free_locked (h : heap) (ptr : Z) : option heap :=
  b ← find_payload (list_fuel h) h (heap_head h) ptr;
  if b =? 0 then Some (count_rejected h)
  else h1 ← set_free h b true; coalesce h1.

(** ** The lock and deferred frees *)

(** 1 once acquired, 0 when this thread already holds the lock; [None]: another
    thread holds it and this one spins. *)
Definition heap_acquire (h : heap) : option (bool * heap) :=
  if heap_owner h =? self then Some (false, h)
  else if heap_owner h =? 0 then Some (true, set_owner self h)
  else None.

(** One pass over the deferred slots; the flag says whether any was taken. *)
Fixpoint drain_pass (k : nat) (i : nat) (h : heap) (again : bool) : option (bool * heap) :=
  match k with
  | O => Some (again, h)
  | S k' =>
      let p := default 0 (deferred h !! i) in
      let h1 := set_deferred (<[i := 0]> (deferred h)) h in
      if negb (p =? 0) then h2 ← free_locked h1 p; drain_pass k' (S i) h2 true
      else drain_pass k' (S i) h1 again
  end.

Fixpoint drain_loop (fuel : nat) (h : heap) : option heap :=
  match fuel with
  | O => None
  | S f =>
      r ← drain_pass DEFERRED_MAX 0 h false;
      let '(again, h1) := r in
      if (again : bool) then drain_loop f h1 else Some h1
  end.

(** Without an interruption the second pass finds every slot empty. *)
Definition heap_release (h : heap) : option heap :=
  h1 ← drain_loop 2 h; Some (set_owner 0 h1).

Fixpoint defer_loop (k i : nat) (h : heap) (ptr : Z) : heap :=
  match k with
  | O => count_leaked h
  | S k' =>
      if default 0 (deferred h !! i) =? 0 then set_deferred (<[i := ptr]> (deferred h)) h
      else defer_loop k' (S i) h ptr
  end.

Definition defer_free (h : heap) (ptr : Z) : heap := defer_loop DEFERRED_MAX 0 h ptr.

(** ** Entry points *)

Definition malloc (h : heap) (size : Z) : option (Z * heap) :=
  if SIZE_LIMIT <? size then Some (0, set_errno ENOMEM h)
  else
    let want := align_up (if size =? 0 then 1 else size) in
    a ← heap_acquire h;
    let '(ok, h1) := a in
    if negb ok then Some (0, set_errno ENOMEM h1)
    else
      r ← malloc_locked h1 want;
      let '(p, h2) := r in
      h3 ← heap_release h2;
      Some (p, if p =? 0 then set_errno ENOMEM h3 else h3).

Definition free (h : heap) (ptr : Z) : option heap :=
  if ptr =? 0 then Some h
  else
    a ← heap_acquire h;
    let '(ok, h1) := a in
    if negb ok then Some (defer_free h1 ptr)
    else h2 ← free_locked h1 ptr; heap_release h2.

Definition calloc (h : heap) (nmemb size : Z) : option (Z * heap) :=
  let total := u64 (nmemb * size) in
  if negb (size =? 0) && negb (total / size =? nmemb) then Some (0, set_errno ENOMEM h)
  else
    r ← malloc h total;
    let '(p, h1) := r in
    if p =? 0 then Some (p, h1)
    else s ← memset (raw h1) p 0 total; Some (p, set_raw s.2 h1).

(** The live block at [ptr], or 0 with the pointer counted as rejected. *)
Definition find_live (h : heap) (ptr : Z) : option (Z * heap) :=
  b ← find_payload (list_fuel h) h (heap_head h) ptr;
  Some (b, if b =? 0 then count_rejected h else h).

Definition adjacent (a : Z) (x : block) (b : Z) : bool := a + HDR + bsize x =? b.

(** The scan of realloc_locked: the bytes available from [last] on, and where it stopped. *)
Fixpoint avail_loop (fuel : nat) (h : heap) (last : Z) (lx : block) (n want avail : Z) : option (Z * Z) :=
  match fuel with
  | O => None
  | S f =>
      if n =? 0 then Some (avail, n)
      else
        x ← blocks h !! n;
        if bfree x && adjacent last lx n && (avail <? want)
        then avail_loop f h n x (bnext x) want (u64 (avail + (HDR + bsize x)))
        else Some (avail, n)
  end.

Fixpoint absorb_loop (fuel : nat) (h : heap) (b want : Z) : option heap :=
  match fuel with
  | O => None
  | S f =>
      x ← blocks h !! b;
      if bsize x <? want then
        gone ← blocks h !! bnext x;
        let h1 := put_block b (mkBlock (u64 (bsize x + (HDR + bsize gone))) (bfree x) (bmagic x) (bnext gone)) h in
        absorb_loop f (put_block (bnext x) (mkBlock (bsize gone) (bfree gone) 0 (bnext gone)) h1) b want
      else Some h
  end.

(** The two tries to enlarge [b] in place. *)
Fixpoint extend (tries : nat) (h : heap) (b want : Z) (first : bool) : option heap :=
  match tries with
  | O => Some h
  | S t =>
      x ← blocks h !! b;
      r ← avail_loop (list_fuel h) h b x (bnext x) want (bsize x);
      let '(avail, n) := r in
      if want <=? avail then absorb_loop (list_fuel h) h b want
      else if first && (n =? 0) then
        g ← grow h (u64 (want - avail));
        let '(nb, h1) := g in
        if negb (nb =? 0) then extend t h1 b want false else Some h1
      else Some h
  end.

(** The result, the error code and the heap. *)
Definition realloc_locked (h : heap) (ptr want : Z) : option (Z * Z * heap) :=
  l ← find_live h ptr;
  let '(b, h0) := l in
  if b =? 0 then Some (0, EINVAL, h0)
  else
    x0 ← blocks h0 !! b;
    h1 ← (if bsize x0 <? want then extend 2 h0 b want true else Some h0);
    x1 ← blocks h1 !! b;
    if want <=? bsize x1 then
      h2 ← split h1 b want; h3 ← coalesce h2; Some (ptr, 0, h3)
    else
      r ← malloc_locked h1 want;
      let '(np, h2) := r in
      if np =? 0 then Some (0, ENOMEM, h2)
      else
        x2 ← blocks h2 !! b;
        c ← memcpy (raw h2) np ptr (bsize x2);
        h3 ← free_locked (set_raw c.2 h2) ptr;
        Some (np, 0, h3).

Definition realloc (h : heap) (ptr size : Z) : option (Z * heap) :=
  if ptr =? 0 then malloc h size
  else if size =? 0 then h1 ← free h ptr; Some (0, h1)
  else if SIZE_LIMIT <? size then Some (0, set_errno ENOMEM h)
  else
    let want := align_up size in
    a ← heap_acquire h;
    let '(ok, h1) := a in
    if negb ok then Some (0, set_errno ENOMEM h1)
    else
      r ← realloc_locked h1 ptr want;
      let '(p, err, h2) := r in
      h3 ← heap_release h2;
      Some (p, if p =? 0 then set_errno err h3 else h3).

Definition reallocarray (h : heap) (ptr nmemb size : Z) : option (Z * heap) :=
  let total := u64 (nmemb * size) in
  if negb (size =? 0) && negb (total / size =? nmemb) then Some (0, set_errno ENOMEM h)
  else realloc h ptr total.

(** ** Aligned allocation *)

(** The placement test of aligned_locked: the aligned payload address in a free
    block with payload [p] and size [sz], when there is room. *)
Definition aligned_place (align want p sz : Z) : option Z :=
  let a := Z.land (u64 (p + align - 1)) (u64 (Z.lnot (align - 1))) in
  let a := if negb (a =? p) && (u64 (a - p) <? HDR) then u64 (a + align) else a in
  if (a <? p) || (sz <? a - p) || (sz - (a - p) <? want) then None else Some a.

Fixpoint aligned_fit (fuel : nat) (h : heap) (b align want : Z) : option (option (Z * Z)) :=
  match fuel with
  | O => None
  | S f =>
      if b =? 0 then Some None
      else
        x ← blocks h !! b;
        if negb (bfree x) then aligned_fit f h (bnext x) align want
        else match aligned_place align want (b + HDR) (bsize x) with
             | None => aligned_fit f h (bnext x) align want
             | Some a => Some (Some (b, a))
             end
  end.

(** Cut the block at [b] so that a payload starts at [a], and take that part. *)
Definition aligned_cut (h : heap) (b a want : Z) : option (Z * heap) :=
  let p := b + HDR in
  if a =? p then take_block h b want
  else
    x ← blocks h !! b;
    let nb := a - HDR in
    h1 ← new_block nb (mkBlock (u64 (bsize x - (a - p))) true BLOCK_MAGIC (bnext x)) h;
    take_block (put_block b (mkBlock (u64 (a - p - HDR)) (bfree x) (bmagic x) nb) h1) nb want.

Fixpoint aligned_tries (tries : nat) (h : heap) (align want : Z) (first : bool) : option (Z * heap) :=
  match tries with
  | O => Some (0, h)
  | S t =>
      r ← aligned_fit (list_fuel h) h (heap_head h) align want;
      match r with
      | Some (b, a) => aligned_cut h b a want
      | None =>
          if first then
            g ← grow h (u64 (want + align + HDR));
            let '(nb, h1) := g in
            if nb =? 0 then Some (0, h1) else aligned_tries t h1 align want false
          else aligned_tries t h align want false
      end
  end.

Definition aligned_locked (h : heap) (align want : Z) : option (Z * heap) :=
  aligned_tries 2 h align want true.

(** Returns (error code, pointer, heap). *)
Definition aligned_alloc_impl (h : heap) (align size : Z) : option (Z * Z * heap) :=
  if align <=? ALIGN then
    r ← malloc h size;
    let '(p, h1) := r in
    Some (if p =? 0 then ENOMEM else 0, p, h1)
  else if (u64 (SIZE_LIMIT - HDR) <? align) || (u64 (SIZE_LIMIT - HDR - align) <? size)
  then Some (ENOMEM, 0, h)
  else
    let want := align_up (if size =? 0 then 1 else size) in
    a ← heap_acquire h;
    let '(ok, h1) := a in
    if negb ok then Some (ENOMEM, 0, h1)
    else
      r ← aligned_locked h1 align want;
      let '(p, h2) := r in
      h3 ← heap_release h2;
      Some (if p =? 0 then ENOMEM else 0, p, h3).

Definition is_pow2 (n : Z) : bool := negb (n =? 0) && (Z.land n (u64 (n - 1)) =? 0).

(** The return code, the pointer stored through [memptr] ([None]: not written), the heap. *)
Definition posix_memalign (h : heap) (align size : Z) : option (Z * option Z * heap) :=
  if negb (is_pow2 align) || negb (align mod 8 =? 0) then Some (EINVAL, None, h)
  else
    r ← aligned_alloc_impl h align size;
    let '(rc, p, h1) := r in
    Some (rc, if rc =? 0 then Some p else None, h1).

Definition aligned_alloc (h : heap) (align size : Z) : option (Z * heap) :=
  r ← (if is_pow2 align then aligned_alloc_impl h align size else Some (EINVAL, 0, h));
  let '(rc, p, h1) := r in
  if negb (rc =? 0) then Some (0, set_errno rc h1) else Some (p, h1).

Fixpoint round_pow2 (fuel : nat) (up align : Z) : Z :=
  match fuel with
  | O => up
  | S f => if up <? align then round_pow2 f (u64 (Z.shiftl up 1)) align else up
  end.

Definition memalign (h : heap) (align size : Z) : option (Z * heap) :=
  let align := if align =? 0 then 1 else align in
  if negb (is_pow2 align) && (2 ^ 63 <? align) then Some (0, set_errno EINVAL h)
  else
    let align := if is_pow2 align then align else round_pow2 64 1 align in
    r ← aligned_alloc_impl h align size;
    let '(rc, p, h1) := r in
    if negb (rc =? 0) then Some (0, set_errno rc h1) else Some (p, h1).
End malloc.
