(* ===== verification/MallocProofs.v ===== *)
(** * The allocator as a list of blocks

    The linked headers of [Malloc] represent a list of blocks laid out in
    increasing address order inside the heap segment.  Each operation of the
    C code is shown to act on that list as a simple list function; the
    invariants and the guarantees to the callers are then facts about
    lists. *)

From S2P Require Import Prelude Mem CString Malloc.

(** ** Lists of blocks *)

Record ablk := mkAblk { addr : Z; asize : Z; afree : bool; amagic : Z }.

Definition aend (x : ablk) : Z := addr x + HDR + asize x.
Definition payload (x : ablk) : Z := addr x + HDR.

(** [lseg B p l q]: following the links of [B] from [p] gives the blocks [l] and ends at [q]. *)
Fixpoint lseg (B : gmap Z block) (p : Z) (l : list ablk) (q : Z) : Prop :=
  match l with
  | [] => p = q
  | x :: l' =>
      p = addr x /\ addr x <> 0 /\
      exists nx, B !! addr x = Some (mkBlock (asize x) (afree x) (amagic x) nx) /\ lseg B nx l' q
  end.

(** [laid lo hi l]: the blocks lie in increasing order, without overlap, in
    [lo, hi), 16-aligned, with 16-aligned sizes and intact headers. *)
Fixpoint laid (lo hi : Z) (l : list ablk) : Prop :=
  match l with
  | [] => lo <= hi
  | x :: l' =>
      lo <= addr x /\ addr x mod 16 = 0 /\ 0 <= asize x /\ asize x mod 16 = 0 /\
      amagic x = BLOCK_MAGIC /\ laid (aend x) hi l'
  end.

(** The live payloads: address and size of every block in use. *)
Fixpoint live (l : list ablk) : list (Z * Z) :=
  match l with
  | [] => []
  | x :: l' => if afree x then live l' else (payload x, asize x) :: live l'
  end.

(** Bytes occupied by a list of blocks, headers included. *)
Fixpoint footprint (l : list ablk) : Z :=
  match l with
  | [] => 0
  | x :: l' => HDR + asize x + footprint l'
  end.

(** *** The list functions of the operations *)

Definition split_list (x : ablk) (size : Z) : list ablk :=
  if asize x <? size + MIN_SPLIT then [x]
  else [mkAblk (addr x) size (afree x) (amagic x);
        mkAblk (addr x + HDR + size) (asize x - size - HDR) true BLOCK_MAGIC].

Definition with_free (f : bool) (x : ablk) : ablk := mkAblk (addr x) (asize x) f (amagic x).

Definition merge2 (x y : ablk) : ablk :=
  mkAblk (addr x) (asize x + (HDR + asize y)) (afree x) (amagic x).

Definition mergeable (x y : ablk) : bool := afree x && afree y && (aend x =? addr y).

(** coalesce from the block [x] followed by [l]. *)
Fixpoint co (x : ablk) (l : list ablk) : list ablk :=
  match l with
  | [] => [x]
  | y :: l' => if mergeable x y then co (merge2 x y) l' else x :: co y l'
  end.

Definition coalesce_list (l : list ablk) : list ablk :=
  match l with
  | [] => []
  | x :: l' => co x l'
  end.

(** No two neighbours could still be merged. *)
Fixpoint coalesced (l : list ablk) : Prop :=
  match l with
  | x :: ((y :: _) as l') => mergeable x y = false /\ coalesced l'
  | _ => True
  end.

(** [lia] over the constants of malloc.c. *)
Ltac mlia := unfold MIN_SPLIT, ALIGN, GROW_CHUNK, aend, payload, HDR in *; cbn [addr asize afree amagic] in *; lia.

(** ** Segments *)

Lemma lseg_app B p l1 l2 q :
  lseg B p (l1 ++ l2) q <-> exists r, lseg B p l1 r /\ lseg B r l2 q.
Proof.
  revert p; induction l1 as [|x l1 IH]; intros p; simpl.
  - split; [intros H; by exists p|intros (r & -> & H); done].
  - split.
    + intros (-> & Hnz & nx & Hx & H). apply IH in H as (r & H1 & H2). eauto 10.
    + intros (r & (-> & Hnz & nx & Hx & H1) & H2). split; [done|]. split; [done|].
      exists nx. split; [done|]. apply IH. eauto.
Qed.

Lemma lseg_frame B B' p l q :
  lseg B p l q -> (forall x, x ∈ l -> B' !! addr x = B !! addr x) -> lseg B' p l q.
Proof.
  revert p; induction l as [|x l IH]; intros p; simpl; [done|].
  intros (-> & Hnz & nx & Hx & H) Hf. split; [done|]. split; [done|]. exists nx. split.
  - rewrite Hf; [done|]. apply list_elem_of_here.
  - apply IH; [done|]. intros y Hy. apply Hf. by apply list_elem_of_further.
Qed.

Lemma lseg_insert B p l q a b :
  lseg B p l q -> (forall x, x ∈ l -> addr x <> a) -> lseg (<[a := b]> B) p l q.
Proof.
  intros H Hf. eapply lseg_frame; [done|]. intros x Hx. apply lookup_insert_ne.
  intros ->. by eapply Hf.
Qed.

(** A walk is no longer than the header table. *)
Lemma lseg_nodup_size B p l q : lseg B p l q -> NoDup (map addr l) -> (length l <= size B)%nat.
Proof.
  intros H Hnd.
  assert (Hs : (list_to_set (map addr l) : gset Z) ⊆ dom B).
  { intros a Ha. apply elem_of_list_to_set, list_elem_of_fmap in Ha as (x & -> & Hx).
    apply list_elem_of_split in Hx as (l1 & l2 & ->).
    apply lseg_app in H as (r & _ & -> & _ & nx & Hx & _). apply elem_of_dom. eauto. }
  apply subseteq_size in Hs. rewrite size_dom, size_list_to_set, length_map in Hs by done. done.
Qed.

(** ** Layout *)

Lemma laid_app lo hi l1 l2 :
  laid lo hi (l1 ++ l2) <-> exists mid, laid lo mid l1 /\ laid mid hi l2.
Proof.
  revert lo; induction l1 as [|x l1 IH]; intros lo; simpl.
  - split; [|intros (mid & Hle & H)].
    + intros H. exists lo. split; [lia|done].
    + destruct l2; simpl in *; [lia|]. intuition lia.
  - rewrite IH. split.
    + intros (Ha & Hb & Hc & Hd & He & mid & H1 & H2). exists mid. tauto.
    + intros (mid & (Ha & Hb & Hc & Hd & He & H1) & H2). eauto 10.
Qed.

Lemma laid_bounds lo hi l : laid lo hi l -> lo <= hi.
Proof.
  revert lo; induction l as [|x l IH]; intros lo; simpl; [done|].
  intros (? & _ & ? & _ & _ & H). apply IH in H. unfold aend, HDR in *. lia.
Qed.

Lemma laid_weaken lo lo' hi hi' l : laid lo hi l -> lo' <= lo -> hi <= hi' -> laid lo' hi' l.
Proof.
  revert lo lo'; induction l as [|x l IH]; intros lo lo'; simpl; [lia|].
  intros (? & ? & ? & ? & ? & H) ? ?. split_and!; try done; try lia. eapply IH; [done|lia..].
Qed.

Lemma laid_elem lo hi l x :
  laid lo hi l -> x ∈ l ->
  lo <= addr x /\ aend x <= hi /\ addr x mod 16 = 0 /\ 0 <= asize x /\ asize x mod 16 = 0 /\
  amagic x = BLOCK_MAGIC.
Proof.
  intros H Hx. apply list_elem_of_split in Hx as (l1 & l2 & ->).
  apply laid_app in H as (mid & H1 & H2). simpl in H2.
  destruct H2 as (Ha & Hb & Hc & Hd & He & H2). apply laid_bounds in H1, H2. split_and!; try done; lia.
Qed.

Lemma laid_nodup lo hi l : laid lo hi l -> NoDup (map addr l).
Proof.
  revert lo; induction l as [|x l IH]; intros lo; simpl; [constructor|].
  intros (? & ? & ? & ? & ? & H). constructor; [|by eapply IH].
  intros Hin. apply list_elem_of_fmap in Hin as (y & Hy & Hin).
  eapply laid_elem in Hin; [|done]. unfold aend, HDR in *. lia.
Qed.

(** Addresses before and after a block of the list. *)
Lemma laid_mid lo hi l1 x l2 :
  laid lo hi (l1 ++ x :: l2) ->
  lo <= addr x /\ aend x <= hi /\ addr x mod 16 = 0 /\ 0 <= asize x /\ asize x mod 16 = 0 /\
  amagic x = BLOCK_MAGIC /\ laid lo (addr x) l1 /\ laid (aend x) hi l2.
Proof.
  intros H. apply laid_app in H as (mid & H1 & Ha & Hb & Hc & Hd & He & H2).
  pose proof (laid_bounds _ _ _ H1). pose proof (laid_bounds _ _ _ H2).
  split_and!; try done; try lia. eapply laid_weaken; [done|lia..].
Qed.

Lemma laid_before lo hi l x a : laid lo hi l -> hi <= a -> x ∈ l -> addr x + HDR <= a.
Proof. intros H Ha Hx. eapply laid_elem in Hx; [|done]. unfold aend in *. lia. Qed.

(** ** Live payloads and footprint *)

Lemma live_app l1 l2 : live (l1 ++ l2) = live l1 ++ live l2.
Proof. induction l1 as [|x l1 IH]; simpl; [done|]. destruct (afree x); rewrite IH; done. Qed.

Lemma footprint_app l1 l2 : footprint (l1 ++ l2) = footprint l1 + footprint l2.
Proof. induction l1 as [|x l1 IH]; simpl; lia. Qed.

Lemma live_elem l p n : (p, n) ∈ live l -> exists x, x ∈ l /\ afree x = false /\ p = payload x /\ n = asize x.
Proof.
  induction l as [|x l IH]; simpl.
  - intros H. by apply elem_of_nil in H.
  - destruct (afree x) eqn:E.
    + intros (y & Hy & H)%IH. exists y. split; [by apply list_elem_of_further|done].
    + intros [[= -> ->]|(y & Hy & H)%IH]%elem_of_cons.
      * exists x. split; [apply list_elem_of_here|done].
      * exists y. split; [by apply list_elem_of_further|done].
Qed.

(** Distinct live payloads do not overlap, each is aligned and inside the segment. *)
Lemma live_disjoint lo hi l i j p n p' n' :
  laid lo hi l -> live l !! i = Some (p, n) -> live l !! j = Some (p', n') -> (i < j)%nat ->
  p + n + HDR <= p'.
Proof.
  revert lo i j; induction l as [|x l IH]; intros lo i j; simpl; [done|].
  intros (? & ? & ? & ? & ? & H) Hi Hj Hlt. destruct (afree x); [by eapply IH|].
  destruct j as [|j]; [lia|]. destruct i as [|i]; simpl in *.
  - simplify_eq. apply list_elem_of_lookup_2, live_elem in Hj as (y & Hy & _ & -> & ->).
    eapply laid_elem in Hy; [|done]. unfold payload, aend in *. lia.
  - eapply IH; [done..|lia].
Qed.

Lemma live_aligned lo hi l p n :
  laid lo hi l -> (p, n) ∈ live l -> p mod 16 = 0 /\ lo + HDR <= p /\ p + n <= hi.
Proof.
  intros H (x & Hx & _ & -> & ->)%live_elem. eapply laid_elem in Hx; [|done].
  unfold payload, aend, HDR in *. zdm.
Qed.

(** ** The list functions preserve the layout *)

Lemma split_list_live x size : live (split_list x size) =
  if afree x then [] else [(payload x, if asize x <? size + MIN_SPLIT then asize x else size)].
Proof. unfold split_list, payload. bcase; simpl; by destruct (afree x). Qed.

Lemma split_list_footprint x size : footprint (split_list x size) = HDR + asize x.
Proof. unfold split_list. bcase; simpl; lia. Qed.

Lemma mergeable_spec x y :
  mergeable x y = true <-> afree x = true /\ afree y = true /\ aend x = addr y.
Proof. unfold mergeable. rewrite !andb_true_iff, Z.eqb_eq. tauto. Qed.

Lemma merge2_end x y : aend x = addr y -> aend (merge2 x y) = aend y.
Proof. unfold aend, merge2. simpl. lia. Qed.

Lemma co_laid l : forall lo hi x, laid lo hi (x :: l) -> laid lo hi (co x l).
Proof.
  induction l as [|y l IH]; intros lo hi x H; cbn [co]; [done|].
  destruct (mergeable x y) eqn:E.
  - apply mergeable_spec in E as (_ & _ & E). apply IH. simpl in *.
    destruct H as (Ha & Hb & Hc & Hd & He & Ha' & Hb' & Hc' & Hd' & He' & H).
    rewrite merge2_end by done. unfold HDR. split_and!; try done; try lia. zdm.
  - simpl in *. destruct H as (? & ? & ? & ? & ? & H). split_and!; try done.
    by apply IH.
Qed.

Lemma co_live l : forall x, live (co x l) = live (x :: l).
Proof.
  induction l as [|y l IH]; intros x; cbn [co]; [done|].
  destruct (mergeable x y) eqn:E.
  - apply mergeable_spec in E as (E1 & E2 & E3). rewrite IH. simpl. by rewrite E1, E2.
  - simpl. rewrite IH. done.
Qed.

Lemma co_footprint l : forall x, footprint (co x l) = footprint (x :: l).
Proof.
  induction l as [|y l IH]; intros x; cbn [co]; [done|].
  destruct (mergeable x y); simpl in *; rewrite IH; simpl; lia.
Qed.

Lemma co_head l : forall x, exists y l', co x l = y :: l' /\ addr y = addr x /\ afree y = afree x /\
  (asize x <= asize y \/ exists z, z ∈ l /\ asize z < - HDR).
Proof.
  induction l as [|z l IH]; intros x; cbn [co]; [exists x, []; split_and!; auto; left; lia|].
  destruct (mergeable x z) eqn:E.
  - destruct (IH (merge2 x z)) as (y & l' & -> & Ha & Hf & Hs). exists y, l'. split_and!; auto.
    simpl in Hs. destruct Hs as [Hs|(w & Hw & Hs)].
    + destruct (decide (0 <= HDR + asize z)); [left; lia|right].
      exists z. split; [apply list_elem_of_here|lia].
    + right. exists w. split; [by apply list_elem_of_further|done].
  - exists x, (co z l). split_and!; auto. left. lia.
Qed.

Lemma co_coalesced l : forall x, coalesced (co x l).
Proof.
  induction l as [|y l IH]; intros x; cbn [co]; [done|].
  destruct (mergeable x y) eqn:E; [apply IH|].
  pose proof (IH y) as Hc. destruct (co_head l y) as (z & l' & Hz & Ha & Hf & _).
  rewrite Hz in *. split; [|done]. unfold mergeable in *. by rewrite Hf, Ha.
Qed.

(** ** Representation of a heap *)

Lemma length_encode_block b : length (encode_block b) = 24%nat.
Proof. done. Qed.

#[local] Opaque encode_block.

Lemma raw_put_block a b h k : k < a \/ a + HDR <= k -> raw (put_block a b h) !! k = raw h !! k.
Proof. intros H. apply write_bytes_out. rewrite length_encode_block. unfold HDR in H. lia. Qed.

Lemma new_block_mapped a b h : mapped (raw h) a HDR -> new_block a b h = Some (put_block a b h).
Proof.
  intros Hm. unfold new_block, header_ok. replace (forallb _ _) with true; [done|]. symmetry. apply forallb_forall. intros i Hi. apply list_elem_of_In, elem_of_seqZ in Hi. apply bool_decide_eq_true. apply Hm. unfold HDR. lia.
Qed.

Lemma new_block_unmapped a b h : raw h !! a = None -> new_block a b h = None.
Proof.
  intros Hn. unfold new_block. replace (header_ok h a) with false; [done|]. unfold header_ok. change (seqZ 0 24) with (0 :: seqZ 1 23). cbn [forallb]. by rewrite Z.add_0_r, Hn.
Qed.

Lemma mapped_put_block a b h x n : mapped (raw h) x n -> mapped (raw (put_block a b h)) x n.
Proof. apply mapped_write. Qed.

(** Replacing the header of one block of a segment, and what follows it. *)
Lemma lseg_update B p l1 x l2 q :
  lseg B p (l1 ++ x :: l2) q ->
  exists nx, B !! addr x = Some (mkBlock (asize x) (afree x) (amagic x) nx) /\ lseg B nx l2 q /\
    addr x <> 0 /\
    forall B' s f m r l2', (forall y, y ∈ l1 -> B' !! addr y = B !! addr y) ->
      B' !! addr x = Some (mkBlock s f m r) -> lseg B' r l2' q ->
      lseg B' p (l1 ++ mkAblk (addr x) s f m :: l2') q.
Proof.
  intros H. apply lseg_app in H as (r0 & H1 & -> & Hnz & nx & Hx & H2).
  exists nx. split_and!; try done. intros B' s f m r l2' Hf Hx' H2'.
  apply lseg_app. exists (addr x). split; [by eapply lseg_frame|].
  simpl. split; [done|]. split; [done|]. by exists r.
Qed.

(** [live_at l k]: the byte [k] belongs to a live payload. *)
Definition live_at (l : list ablk) (k : Z) : Prop := exists p n, (p, n) ∈ live l /\ p <= k < p + n.

Lemma live_at_app l1 l2 k : live_at (l1 ++ l2) k <-> live_at l1 k \/ live_at l2 k.
Proof. unfold live_at. rewrite live_app. setoid_rewrite elem_of_app. naive_solver. Qed.

Lemma live_at_range lo hi l k : laid lo hi l -> live_at l k -> lo + HDR <= k < hi.
Proof. intros H (p & n & Hin & Hk). eapply live_aligned in Hin; [|done]. lia. Qed.

Lemma live_at_cons x l k :
  live_at (x :: l) k <-> (afree x = false /\ payload x <= k < payload x + asize x) \/ live_at l k.
Proof.
  unfold live_at. simpl. destruct (afree x); [naive_solver|].
  setoid_rewrite elem_of_cons. naive_solver.
Qed.

(** No live byte lies in a header. *)
Lemma live_at_header lo hi l1 x l2 k :
  laid lo hi (l1 ++ x :: l2) -> live_at (l1 ++ x :: l2) k -> k < addr x \/ addr x + HDR <= k.
Proof.
  intros H Hk. apply laid_mid in H as (? & ? & ? & ? & ? & ? & Hl1 & Hl2).
  apply live_at_app in Hk as [Hk|Hk].
  - eapply live_at_range in Hk; [|done]. lia.
  - apply live_at_cons in Hk as [[_ Hk]|Hk].
    + unfold payload in Hk. lia.
    + eapply live_at_range in Hk; [|done]. unfold aend, HDR in *. lia.
Qed.

Section sim.
(** The kernel's brk as the allocator sees it; [lo] is the break the process
    started with, [ceiling] the highest break the kernel grants. *)
Context (brk_call : Z -> Z -> Z) (lo ceiling : Z).

Record brk_spec : Prop := {
  brk_query cur : brk_call cur 0 = cur;
  brk_result cur a : brk_call cur a = a \/ brk_call cur a = cur;
  brk_limit cur a : brk_call cur a <= Z.max cur ceiling;
  brk_low cur a : a < lo -> brk_call cur a = cur;
  lo_pos : 0 < lo;
  lo_align : lo mod 16 = 0;
  ceiling_user : ceiling < 2 ^ 47;
}.

Context (Hbrk : brk_spec).

(** A heap [h] represents the block list [l]. *)
Record hrep (h : heap) (l : list ablk) : Prop := {
  rep_lseg : lseg (blocks h) (heap_head h) l 0;
  rep_laid : laid lo (hbrk h) l;
  rep_align : hbrk h mod 16 = 0;
  rep_brk : lo <= hbrk h <= ceiling;
  rep_mapped : mapped (raw h) lo (hbrk h - lo);
  rep_fresh k : hbrk h <= k < ceiling -> raw h !! k = None;
}.

(** The fields an operation on the blocks leaves alone. *)
Definition same_ctl (h h' : heap) : Prop :=
  heap_owner h' = heap_owner h /\ deferred h' = deferred h /\ free_rejected h' = free_rejected h /\
  deferred_leaked h' = deferred_leaked h /\ herrno h' = herrno h.

(** The bytes an operation leaves alone: live payloads, and all outside the heap segment. *)
Definition same_bytes (l : list ablk) (h h' : heap) : Prop :=
  hbrk h <= hbrk h' /\
  forall k, live_at l k \/ k < lo \/ hbrk h' <= k -> raw h' !! k = raw h !! k.

Lemma same_ctl_refl h : same_ctl h h.
Proof. done. Qed.
Lemma same_ctl_trans h1 h2 h3 : same_ctl h1 h2 -> same_ctl h2 h3 -> same_ctl h1 h3.
Proof. unfold same_ctl. intuition congruence. Qed.
Lemma same_bytes_refl l h : same_bytes l h h.
Proof. split; [lia|done]. Qed.
Lemma same_bytes_trans l h1 h2 h3 : same_bytes l h1 h2 -> same_bytes l h2 h3 -> same_bytes l h1 h3.
Proof.
  intros [Hb1 H1] [Hb2 H2]. split; [lia|]. intros k Hk. rewrite H2 by done. apply H1.
  destruct Hk as [|[|]]; [auto|auto|]. right. right. lia.
Qed.
Lemma same_bytes_incl l l' h h' :
  (forall k, live_at l' k -> live_at l k) -> same_bytes l h h' -> same_bytes l' h h'.
Proof. intros Hi [Hb H]. split; [done|]. intros k [|]; apply H; auto. Qed.
Lemma same_ctl_put a b h : same_ctl h (put_block a b h).
Proof. done. Qed.

Lemma rep_fuel h l : hrep h l -> (length l < list_fuel h)%nat.
Proof.
  intros H. unfold list_fuel. apply le_n_S. eapply lseg_nodup_size; [apply H|].
  eapply laid_nodup, H.
Qed.

(** A header write inside the segment and outside the live payloads. *)
Lemma same_bytes_put l a b h :
  lo <= a -> a + HDR <= hbrk h -> (forall k, live_at l k -> k < a \/ a + HDR <= k) ->
  same_bytes l h (put_block a b h).
Proof.
  intros Ha Hb Hl. split; [done|]. intros k Hk. apply raw_put_block.
  destruct Hk as [Hk|[Hk|Hk]]; [by apply Hl|lia|]. simpl in Hk. lia.
Qed.

Lemma fresh_put h a b :
  (forall k, hbrk h <= k < ceiling -> raw h !! k = None) -> a + HDR <= hbrk h ->
  forall k, hbrk h <= k < ceiling -> raw (put_block a b h) !! k = None.
Proof. intros H Ha k Hk. rewrite raw_put_block by lia. by apply H. Qed.

(** *** split *)

(** The two parts of [x] when a second header is put [size] bytes into its payload. *)
Definition cut_list (x : ablk) (size : Z) : list ablk :=
  [mkAblk (addr x) size (afree x) (amagic x);
   mkAblk (addr x + HDR + size) (asize x - size - HDR) true BLOCK_MAGIC].

(** The two header writes of a cut; [nx] is the successor of [x]. *)
Definition cut_heap (h : heap) (x : ablk) (size nx : Z) : heap :=
  put_block (addr x) (mkBlock size (afree x) (amagic x) (addr x + HDR + size))
    (put_block (addr x + HDR + size) (mkBlock (asize x - size - HDR) true BLOCK_MAGIC nx) h).

Lemma cut_laid h l1 x l2 size :
  hrep h (l1 ++ x :: l2) -> 0 <= size -> size mod 16 = 0 -> size + HDR <= asize x ->
  laid lo (hbrk h) (l1 ++ cut_list x size ++ l2).
Proof.
  intros Hr H0 Hm Hle. pose proof (laid_mid _ _ _ _ _ (rep_laid _ _ Hr)) as
    (Hlo & Hhi & Ha16 & Hs0 & Hs16 & Hmg & Hl1 & Hl2).
  apply laid_app. exists (addr x). split; [done|]. simpl. unfold aend. simpl.
  replace (addr x + HDR + size + HDR + (asize x - size - HDR)) with (aend x) by (unfold aend; lia).
  unfold HDR in *. split_and!; try done; try lia; zdm.
Qed.

Lemma cut_sim h l1 x l2 size nx :
  hrep h (l1 ++ x :: l2) -> 0 <= size -> size mod 16 = 0 -> size + HDR <= asize x ->
  blocks h !! addr x = Some (mkBlock (asize x) (afree x) (amagic x) nx) ->
  hrep (cut_heap h x size nx) (l1 ++ cut_list x size ++ l2) /\
  same_bytes (l1 ++ cut_list x size ++ l2) h (cut_heap h x size nx).
Proof.
  intros Hr H0 Hm Hle Hnx. pose proof (laid_mid _ _ _ _ _ (rep_laid _ _ Hr)) as
    (Hlo & Hhi & Ha16 & Hs0 & Hs16 & Hmg & Hl1 & Hl2).
  destruct (lseg_update _ _ _ _ _ _ (rep_lseg _ _ Hr)) as (nx' & Hx & Hn2 & Hnz & Hupd).
  assert (nx' = nx) as -> by congruence.
  pose proof (rep_brk _ _ Hr). pose proof (lo_pos Hbrk). unfold aend in Hhi.
  pose proof (cut_laid _ _ _ _ _ Hr H0 Hm Hle) as Hlaid. unfold cut_heap, cut_list in *.
  set (rest := addr x + HDR + size) in *.
  set (bR := mkBlock (asize x - size - HDR) true BLOCK_MAGIC nx).
  set (bX := mkBlock size (afree x) (amagic x) rest).
  set (X := mkAblk (addr x) size (afree x) (amagic x)) in *.
  set (R := mkAblk rest (asize x - size - HDR) true BLOCK_MAGIC) in *.
  assert (Hne : rest <> addr x) by (unfold rest, HDR; lia).
  assert (Hsb : forall k, live_at (l1 ++ [X; R] ++ l2) k ->
    (k < addr x \/ addr x + HDR <= k) /\ (k < rest \/ rest + HDR <= k)).
  { intros k Hk. split.
    - by apply (live_at_header lo (hbrk h) l1 X (R :: l2)).
    - apply (live_at_header lo (hbrk h) (l1 ++ [X]) R l2); by rewrite <- app_assoc. }
  split; [constructor; [|exact Hlaid|apply (rep_align _ _ Hr)|apply (rep_brk _ _ Hr)| |]|].
  - apply (Hupd _ _ _ _ rest (R :: l2)).
    + intros y Hy. eapply laid_before in Hy; [|exact Hl1|reflexivity]. simpl.
      unfold HDR in *. rewrite !lookup_insert_ne by (unfold rest; lia). done.
    + simpl. apply lookup_insert_eq.
    + simpl. split; [done|]. split; [unfold rest, HDR; lia|]. exists nx. split.
      * rewrite lookup_insert_ne by done. apply lookup_insert_eq.
      * apply lseg_insert; [apply lseg_insert; [done|]|]; intros y Hy;
          pose proof (laid_elem _ _ _ _ Hl2 Hy) as (Hy1 & _); unfold rest; mlia.
  - do 2 apply mapped_put_block. apply (rep_mapped _ _ Hr).
  - apply (fresh_put (put_block rest bR h) (addr x) bX);
      [apply (fresh_put h rest bR); [apply (rep_fresh _ _ Hr)|]|]; simpl; unfold rest; mlia.
  - apply (same_bytes_trans _ _ (put_block rest bR h)); apply same_bytes_put;
      try (intros k Hk; apply Hsb in Hk; tauto); simpl; unfold rest; mlia.
Qed.

Lemma split_sim h l1 x l2 size :
  hrep h (l1 ++ x :: l2) -> 0 <= size -> size mod 16 = 0 -> size <= asize x ->
  exists h', split h (addr x) size = Some h' /\ hrep h' (l1 ++ split_list x size ++ l2) /\
    same_ctl h h' /\ hbrk h' = hbrk h /\ same_bytes (l1 ++ split_list x size ++ l2) h h'.
Proof.
  intros Hr H0 Hm Hle. pose proof (laid_mid _ _ _ _ _ (rep_laid _ _ Hr)) as (Hlo & Hhi & _).
  destruct (lseg_update _ _ _ _ _ _ (rep_lseg _ _ Hr)) as (nx & Hx & _).
  pose proof (rep_brk _ _ Hr). pose proof (ceiling_user Hbrk). pose proof (lo_pos Hbrk).
  unfold split. rewrite Hx. cbn [mbind option_bind bsize bfree bmagic bnext].
  unfold aend in Hhi. rewrite u64_small by (unfold MIN_SPLIT, HDR, ALIGN in *; lia).
  unfold split_list. destruct (asize x <? size + MIN_SPLIT) eqn:E.
  { exists h. by split_and!. }
  rewrite u64_small by mlia. rewrite new_block_mapped by (eapply mapped_sub; [apply (rep_mapped _ _ Hr)|mlia..]). obind. eexists. split; [done|].
  destruct (cut_sim h l1 x l2 size nx Hr H0 Hm) as [Hc1 Hc2]; [mlia|done|]. done.
Qed.

(** *** Changing the free flag *)

Lemma set_free_sim h l1 x l2 f :
  hrep h (l1 ++ x :: l2) ->
  exists h', set_free h (addr x) f = Some h' /\ hrep h' (l1 ++ with_free f x :: l2) /\
    same_ctl h h' /\ hbrk h' = hbrk h /\ same_bytes (l1 ++ x :: l2) h h' /\
    same_bytes (l1 ++ with_free f x :: l2) h h'.
Proof.
  intros Hr. pose proof (laid_mid _ _ _ _ _ (rep_laid _ _ Hr)) as
    (Hlo & Hhi & Ha16 & Hs0 & Hs16 & Hmg & Hl1 & Hl2).
  destruct (lseg_update _ _ _ _ _ _ (rep_lseg _ _ Hr)) as (nx & Hx & Hn2 & Hnz & Hupd).
  pose proof (rep_brk _ _ Hr). unfold aend in Hhi.
  assert (Hlaid : laid lo (hbrk h) (l1 ++ with_free f x :: l2)).
  { apply laid_app. exists (addr x). split; [done|]. simpl. split_and!; try done; lia. }
  unfold set_free. rewrite Hx. cbn [mbind option_bind bsize bfree bmagic bnext].
  eexists. split; [done|]. split; [constructor; [|exact Hlaid|apply (rep_align _ _ Hr)|apply (rep_brk _ _ Hr)| |]|].
  - apply Hupd with (r := nx).
    + intros y Hy. eapply laid_before in Hy; [|exact Hl1|reflexivity]. simpl.
      unfold HDR in *. rewrite lookup_insert_ne by lia. done.
    + simpl. apply lookup_insert_eq.
    + apply lseg_insert; [done|]. intros y Hy.
      pose proof (laid_elem _ _ _ _ Hl2 Hy) as (Hy1 & _). mlia.
  - apply mapped_put_block, (rep_mapped _ _ Hr).
  - eapply (fresh_put h (addr x)); [apply (rep_fresh _ _ Hr)|mlia].
  - split; [done|]. split; [done|]. split; apply same_bytes_put; try lia;
      intros k Hk; [by eapply live_at_header in Hk; [|apply Hr]|].
    by eapply live_at_header in Hk.
Qed.

(** *** First fit *)

Definition fits (want : Z) (x : ablk) : bool := afree x && (want <=? asize x).

Lemma first_fit_sim want l : forall h p fuel,
  lseg (blocks h) p l 0 -> (length l < fuel)%nat ->
  (first_fit fuel h p want = Some 0 /\ Forall (fun x => fits want x = false) l) \/
  exists l1 x l2, l = l1 ++ x :: l2 /\ first_fit fuel h p want = Some (addr x) /\ addr x <> 0 /\
    fits want x = true /\ Forall (fun x => fits want x = false) l1.
Proof.
  induction l as [|x l IH]; intros h p [|fuel] H Hf; simpl in Hf; try lia; cbn [first_fit lseg] in *.
  - subst p. left. done.
  - destruct H as (-> & Hnz & nx & Hx & H). bool_if. rewrite Hx. obind. cbn [bfree bsize bnext].
    change (afree x && (want <=? asize x)) with (fits want x). destruct (fits want x) eqn:E.
    + right. exists [], x, l. done.
    + destruct (IH h nx fuel H ltac:(lia)) as [[H1 H2]|(l1 & y & l2 & -> & H1 & Hy & H2 & H3)].
      * left. split; [done|]. by constructor.
      * right. exists (x :: l1), y, l2. split_and!; try done. by constructor.
Qed.

(** *** Growing *)

Definition grow_ask (payload : Z) : Z :=
  if payload + HDR <? GROW_CHUNK then GROW_CHUNK else 16 * ((payload + HDR + 15) / 16).

Lemma align_up_spec n : 0 <= n -> n + 15 < 2 ^ 64 -> align_up n = 16 * ((n + 15) / 16).
Proof.
  intros H0 H1. unfold align_up, ALIGN. rewrite u64_small by lia.
  change (16 - 1) with (2 ^ 4 - 1). rewrite land_round_down by lia.
  replace (n + 16 - 1) with (n + 15) by lia. done.
Qed.

Lemma align_up_bounds n :
  0 <= n -> n + 15 < 2 ^ 64 -> n <= align_up n < n + 16 /\ align_up n mod 16 = 0.
Proof. intros. rewrite align_up_spec by done. zdm. Qed.

Lemma grow_ask_bounds n : 0 <= n ->
  n + HDR <= grow_ask n /\ GROW_CHUNK <= grow_ask n <= Z.max GROW_CHUNK (n + HDR + 15) /\
  grow_ask n mod 16 = 0.
Proof. intros. unfold grow_ask, GROW_CHUNK, HDR. bcase; zdm. Qed.

Lemma tail_loop_sim l : forall h p x fuel,
  lseg (blocks h) p (l ++ [x]) 0 -> (length l < fuel)%nat -> tail_loop fuel h p = Some (addr x).
Proof.
  induction l as [|y l IH]; intros h p x [|fuel] H Hf; simpl in Hf; try lia; cbn [tail_loop].
  - destruct H as (-> & _ & nx & Hx & Hn). rewrite Hx. simpl in Hn. by subst nx.
  - destruct H as (-> & _ & nx & Hy & H). rewrite Hy. obind. cbn [bnext].
    assert (nx <> 0) by (destruct l; destruct H as (-> & ? & _); done). bool_if.
    apply IH; [done|lia].
Qed.

Lemma i64_high x : 2 ^ 63 <= x < 2 ^ 64 -> i64 x = x - 2 ^ 64.
Proof. intros Hx. unfold i64, swrap. change (64 - 1) with 63. zdm. Qed.

Lemma resize_same h : resize_heap h (hbrk h) (hbrk h) = h.
Proof. unfold resize_heap. rewrite Z.leb_refl, Z.sub_diag. by destruct h. Qed.

(** A break below the start of the heap is refused, also when the address wraps around. *)
Lemma brk_refused cur a : lo <= cur <= ceiling -> - 2 ^ 63 <= a < lo -> brk_call cur (u64 a) = cur.
Proof.
  intros Hc Ha. pose proof (lo_pos Hbrk). pose proof (ceiling_user Hbrk). destruct (decide (0 <= a)) as [Hp|Hn].
  - rewrite u64_small by lia. apply (brk_low Hbrk). lia.
  - assert (Hu : u64 a = a + 2 ^ 64) by (unfold u64; zdm). pose proof (brk_limit Hbrk cur (u64 a)). destruct (brk_result Hbrk cur (u64 a)) as [E|E]; lia.
Qed.

(** A granted request: the break moves up and the new bytes are zero.  A request
    of 2^63 bytes or more becomes a negative increment; it is refused as long as
    it would take the break below the start of the heap. *)
Lemma heap_grow_sim h ask :
  lo <= hbrk h <= ceiling -> 0 < ask -> ask + (hbrk h - lo) < 2 ^ 64 ->
  heap_grow brk_call h ask = (0, h) \/
  (heap_grow brk_call h ask =
     (hbrk h, set_raw (write_bytes (raw h) (hbrk h) (replicate (Z.to_nat ask) 0))
                (set_brk (hbrk h + ask) h)) /\ hbrk h + ask <= ceiling).
Proof.
  intros Hb Ha Hw. pose proof (lo_pos Hbrk). pose proof (ceiling_user Hbrk). unfold heap_grow, sbrk. rewrite (brk_query Hbrk). bool_if.
  destruct (decide (2 ^ 63 <= ask)) as [Hbig|Hsmall].
  { left. rewrite i64_high by lia. bool_if. rewrite brk_refused by lia. replace (hbrk h =? hbrk h + (ask - 2 ^ 64)) with false by lia. cbn [negb].
    by rewrite resize_same. }
  rewrite i64_small by (unfold is_i64; lia). bool_if. rewrite u64_small by lia.
  pose proof (brk_limit Hbrk (hbrk h) (hbrk h + ask)) as Hlim.
  destruct (brk_result Hbrk (hbrk h) (hbrk h + ask)) as [E|E]; rewrite E in *.
  - right. unfold resize_heap. rewrite Z.eqb_refl. cbn [negb].
    replace (hbrk h <=? hbrk h + ask) with true by lia.
    replace ((hbrk h =? -1) || (hbrk h =? 0)) with false by lia.
    replace (hbrk h + ask - hbrk h) with ask by lia. split; [done|lia].
  - left. replace (hbrk h =? hbrk h + ask) with false by lia. cbn [negb]. by rewrite resize_same.
Qed.

Lemma grow_sim h l payload :
  hrep h l -> 0 <= payload -> payload + 47 + (hbrk h - lo) < 2 ^ 64 ->
  grow brk_call h payload = Some (0, h) \/
  exists h', grow brk_call h payload = Some (hbrk h, h') /\
    hrep h' (l ++ [mkAblk (hbrk h) (grow_ask payload - HDR) true BLOCK_MAGIC]) /\
    hbrk h' = hbrk h + grow_ask payload /\ same_ctl h h' /\ same_bytes l h h'.
Proof.
  intros Hr H0 H1. pose proof (grow_ask_bounds payload H0) as (Hask & [Hask2 Hask3] & Hask4).
  pose proof (rep_brk _ _ Hr) as Hb. pose proof (lo_pos Hbrk). pose proof (ceiling_user Hbrk).
  unfold grow. rewrite (u64_small (payload + HDR)) by mlia.
  assert (Hgk : (if payload + HDR <? GROW_CHUNK then GROW_CHUNK else align_up (payload + HDR)) = grow_ask payload).
  { unfold grow_ask. bcase; [done|]. rewrite align_up_spec by mlia. done. }
  rewrite Hgk. set (ask := grow_ask payload) in *.
  destruct (heap_grow_sim h ask Hb ltac:(mlia) ltac:(mlia)) as [->|[-> Hc]]; [by left|right].
  bool_if. rewrite u64_small by mlia. set (h1 := set_raw _ _).
  set (nb := mkBlock (ask - HDR) true BLOCK_MAGIC 0). set (x := mkAblk (hbrk h) (ask - HDR) true BLOCK_MAGIC).
  set (h2 := put_block (hbrk h) nb h1).
  assert (Hnb : new_block (hbrk h) nb h1 = Some h2).
  { apply new_block_mapped. intros k Hk. cbn [h1 raw set_raw]. rewrite write_bytes_lookup, length_replicate. bool_if. exists 0. apply lookup_replicate. mlia. }
  rewrite Hnb. obind.
  assert (Hlaid : laid lo (hbrk h + ask) (l ++ [x])).
  { apply laid_app. exists (hbrk h). split; [apply Hr|]. pose proof (rep_align _ _ Hr).
    simpl. split_and!; try done; try mlia; [unfold HDR; zdm|]. unfold aend, x. simpl. lia. }
  assert (Hold : forall y, y ∈ l -> addr y + HDR <= hbrk h).
  { intros y Hy. eapply laid_before; [apply Hr|done|done]. }
  assert (Hx2 : lseg (blocks h2) (hbrk h) [x] 0).
  { simpl. split; [done|]. split; [lia|]. exists 0. split; [apply lookup_insert_eq|done]. }
  assert (Hl2 : lseg (blocks h2) (heap_head h) l 0).
  { apply lseg_insert; [apply Hr|]. intros y Hy. apply Hold in Hy. mlia. }
  assert (Hm2 : mapped (raw h2) lo (hbrk h + ask - lo)).
  { apply mapped_put_block. intros k Hk. simpl. rewrite write_bytes_lookup, length_replicate.
    destruct (decide (hbrk h <= k)).
    - bool_if. exists 0. apply lookup_replicate. mlia.
    - bool_if. apply (rep_mapped _ _ Hr). lia. }
  assert (Hf2 : forall k, hbrk h + ask <= k < ceiling -> raw h2 !! k = None).
  { apply (fresh_put h1 (hbrk h) nb); [|simpl; mlia]. intros k Hk. simpl in *.
    rewrite write_bytes_out by (rewrite length_replicate; lia). apply (rep_fresh _ _ Hr). mlia. }
  assert (Hs2 : same_bytes l h h2).
  { split; [simpl; mlia|]. intros k Hk. unfold h2. simpl in Hk.
    assert (k < hbrk h \/ hbrk h + ask <= k).
    { destruct Hk as [Hk|Hk]; [|mlia]. eapply live_at_range in Hk; [|apply Hr]. lia. }
    rewrite raw_put_block by mlia. simpl. apply write_bytes_out. rewrite length_replicate. mlia. }
  pose proof (rep_align _ _ Hr) as Hal.
  destruct (decide (l = [])) as [->|Hne].
  - simpl in Hl2. change (heap_head h2) with (heap_head h). rewrite Hl2. bool_if.
    eexists. split; [done|]. split_and!; try done. constructor; simpl; try done; try mlia. zdm.
  - destruct (exists_last Hne) as (l0 & t & ->). change (heap_head h2) with (heap_head h).
    assert (heap_head h <> 0) as Hhd.
    { pose proof (rep_lseg _ _ Hr) as Hs. destruct l0; destruct Hs as (-> & ? & _); done. }
    bool_if.
    assert (Hfu : (length l0 < list_fuel h2)%nat).
    { apply lseg_nodup_size in Hl2; [|eapply laid_nodup, Hr]. rewrite length_app in Hl2.
      unfold list_fuel. simpl in *. lia. }
    rewrite (tail_loop_sim l0 _ _ t _ Hl2 Hfu). obind.
    destruct (lseg_update _ _ _ _ _ _ Hl2) as (nx & Ht & _ & Htz & Hupd). rewrite Ht. obind.
    cbn [bsize bfree bmagic].
    pose proof (laid_mid _ _ _ _ _ (rep_laid _ _ Hr)) as (Ht1 & Ht2 & _ & _ & _ & _ & Hl0 & _).
    assert (addr t + HDR <= hbrk h). { apply Hold, elem_of_app. right. apply list_elem_of_here. }
    eexists. split; [done|]. split_and!; try done.
    + constructor; simpl; try done; try mlia; [|zdm|..].
      * rewrite <- app_assoc.
        assert (Ht' : mkAblk (addr t) (asize t) (afree t) (amagic t) = t) by (by destruct t).
        specialize (Hupd (<[addr t := mkBlock (asize t) (afree t) (amagic t) (hbrk h)]> (blocks h2))
          (asize t) (afree t) (amagic t) (hbrk h) [x]). rewrite Ht' in Hupd. apply Hupd.
        -- intros y Hy. eapply laid_before in Hy; [|exact Hl0|reflexivity]. rewrite lookup_insert_ne by mlia. done.
        -- apply lookup_insert_eq.
        -- apply lseg_insert; [done|]. intros y Hy%list_elem_of_singleton. subst y. simpl. mlia.
      * apply (mapped_put_block (addr t) _ h2). done.
      * apply (fresh_put h2 (addr t)); [done|simpl; mlia].
    + eapply same_bytes_trans; [done|]. apply same_bytes_put; [mlia|simpl; mlia|].
      intros k Hk. by eapply live_at_header in Hk; [|apply Hr].
Qed.

(** *** Taking a block *)

Definition taken_size (x : ablk) (want : Z) : Z :=
  if asize x <? want + MIN_SPLIT then asize x else want.

(** What becomes of a free block [x] when [want] bytes of it are taken. *)
Definition take_list (x : ablk) (want : Z) : list ablk :=
  match split_list x want with
  | y :: r => with_free false y :: r
  | [] => []
  end.

Lemma take_list_live x want : live (take_list x want) = [(payload x, taken_size x want)].
Proof. unfold take_list, split_list, taken_size. bcase; done. Qed.

Lemma take_list_footprint x want : footprint (take_list x want) = HDR + asize x.
Proof. unfold take_list, split_list. bcase; simpl; lia. Qed.

(** The outcome of a step that turns the block list [l] of [h] into [l']. *)
Definition step_to (h h' : heap) (l l' : list ablk) : Prop :=
  hrep h' l' /\ same_ctl h h' /\ same_bytes l h h'.

Lemma step_to_trans h1 h2 h3 l1 l2 l3 :
  step_to h1 h2 l1 l2 -> step_to h2 h3 l2 l3 -> (forall k, live_at l1 k -> live_at l2 k) ->
  step_to h1 h3 l1 l3.
Proof.
  intros (_ & Hc1 & Hb1) (Hr2 & Hc2 & Hb2) Hi. split; [done|]. split.
  - by eapply same_ctl_trans.
  - eapply same_bytes_trans; [done|]. by eapply same_bytes_incl.
Qed.

Lemma take_block_sim h l1 x l2 want :
  hrep h (l1 ++ x :: l2) -> afree x = true -> 0 <= want <= asize x -> want mod 16 = 0 ->
  exists h', take_block h (addr x) want = Some (payload x, h') /\ hbrk h' = hbrk h /\
    step_to h h' (l1 ++ x :: l2) (l1 ++ take_list x want ++ l2).
Proof.
  intros Hr Hf Hw Hw16. unfold take_block.
  destruct (split_sim h l1 x l2 want Hr ltac:(lia) Hw16 ltac:(lia))
    as (h1 & -> & Hr1 & Hc1 & Hb1 & Hs1). obind.
  assert (Hlv : forall k, live_at (l1 ++ x :: l2) k -> live_at (l1 ++ split_list x want ++ l2) k).
  { intros k Hk. unfold live_at in *. rewrite !live_app, split_list_live, Hf in *. simpl in Hk.
    by rewrite Hf in Hk. }
  unfold take_list. destruct (split_list x want) as [|y r] eqn:E; [by unfold split_list in E; bcases_in E|].
  assert (addr y = addr x) as Hy by (unfold split_list in E; bcases_in E).
  destruct (set_free_sim h1 l1 y (r ++ l2) false Hr1) as (h2 & Hs & Hr2 & Hc2 & Hb2 & Hs2 & _).
  rewrite <- Hy, Hs. obind. exists h2. unfold payload. rewrite <- Hy. split; [done|].
  split; [congruence|]. split; [done|]. split; [by eapply same_ctl_trans|].
  eapply same_bytes_trans; eapply same_bytes_incl; eauto.
Qed.

(** *** malloc_locked *)

(** A successful allocation of at least [want] bytes at [p]: one live payload
    more, everything else as before. *)
Definition allocated (want p : Z) (l l' : list ablk) : Prop :=
  exists A B n, live l = A ++ B /\ live l' = A ++ (p, n) :: B /\ want <= n.

Lemma take_allocated h l1 x l2 want :
  hrep h (l1 ++ x :: l2) -> afree x = true -> 0 <= want <= asize x ->
  allocated want (payload x) (l1 ++ x :: l2) (l1 ++ take_list x want ++ l2).
Proof.
  intros Hr Hf Hw. exists (live l1), (live l2), (taken_size x want).
  rewrite !live_app, take_list_live. simpl. rewrite Hf.
  split; [done|]. split; [done|]. unfold taken_size. bcase; lia.
Qed.

Lemma payload_pos h l x : hrep h l -> x ∈ l -> payload x <> 0.
Proof.
  intros Hr Hx. pose proof (laid_elem _ _ _ _ (rep_laid _ _ Hr) Hx). pose proof (lo_pos Hbrk). mlia.
Qed.

Lemma malloc_locked_sim h l want :
  hrep h l -> 0 <= want -> want mod 16 = 0 -> want + 47 + (hbrk h - lo) < 2 ^ 64 ->
  malloc_locked brk_call h want = Some (0, h) \/
  exists p h' l', malloc_locked brk_call h want = Some (p, h') /\ p <> 0 /\
    step_to h h' l l' /\ allocated want p l l' /\
    footprint l' - footprint l = hbrk h' - hbrk h.
Proof.
  intros Hr H0 H16 Hlt. unfold malloc_locked.
  destruct (first_fit_sim want l h (heap_head h) (list_fuel h) (rep_lseg _ _ Hr) (rep_fuel _ _ Hr))
    as [[-> Hno]|(l1 & x & l2 & -> & -> & Hnz & Hfit & _)]; obind.
  - rewrite Z.eqb_refl. cbn [negb].
    destruct (grow_sim h l want Hr H0 Hlt) as [->|(h1 & -> & Hr1 & Hb1 & Hc1 & Hs1)]; obind; [by left|].
    pose proof (rep_brk _ _ Hr). pose proof (lo_pos Hbrk). bool_if. right.
    pose proof (grow_ask_bounds want H0) as (Ha & [Ha2 _] & _).
    set (x := mkAblk (hbrk h) (grow_ask want - HDR) true BLOCK_MAGIC) in *.
    destruct (take_block_sim h1 l x [] want Hr1 eq_refl) as (h2 & Ht & Hb2 & Hst); [simpl; mlia|done|].
    change (hbrk h) with (addr x). rewrite Ht. exists (payload x), h2, (l ++ take_list x want ++ []).
    assert (Hlv : live (l ++ [x]) = live l) by (rewrite live_app; simpl; by rewrite app_nil_r).
    split; [done|]. split; [|split; [|split]].
    + eapply payload_pos; [exact Hr1|]. apply elem_of_app. right. apply list_elem_of_here.
    + eapply step_to_trans; [by split|exact Hst|]. unfold live_at. by rewrite Hlv.
    + destruct (take_allocated h1 l x [] want Hr1 eq_refl) as (A & B & n & E1 & E2 & E3); [simpl; mlia|].
      exists A, B, n. rewrite Hlv in E1. done.
    + rewrite !footprint_app, take_list_footprint, Hb2, Hb1. simpl. lia.
  - bool_if. right. unfold fits in Hfit. apply andb_prop in Hfit as [Hf Hsz].
    destruct (take_block_sim h l1 x l2 want Hr Hf) as (h2 & Ht & Hb2 & Hst); [lia|done|].
    rewrite Ht. exists (payload x), h2, (l1 ++ take_list x want ++ l2).
    split; [done|]. split; [|split; [done|split]].
    + eapply payload_pos; [exact Hr|]. apply elem_of_app. right. apply list_elem_of_here.
    + by eapply take_allocated; [|..|lia].
    + rewrite !footprint_app, take_list_footprint, Hb2. simpl. lia.
Qed.

(** *** Merging with the successor *)

(** The two header writes that swallow the block [gone] at [g] into [b]. *)
Definition swallow (h : heap) (b : Z) (x : block) (g : Z) (gone : block) : heap :=
  put_block g (mkBlock (bsize gone) (bfree gone) 0 (bnext gone))
    (put_block b (mkBlock (u64 (bsize x + (HDR + bsize gone))) (bfree x) (bmagic x) (bnext gone)) h).

Lemma size_put_block a b h : is_Some (blocks h !! a) -> size (blocks (put_block a b h)) = size (blocks h).
Proof. intros H. simpl. by apply map_size_insert_Some. Qed.

(** The headers of two neighbours, as the code reads them. *)
Lemma lseg_pair B p l1 x y l2 q :
  lseg B p (l1 ++ x :: y :: l2) q ->
  B !! addr x = Some (mkBlock (asize x) (afree x) (amagic x) (addr y)) /\
  exists n, B !! addr y = Some (mkBlock (asize y) (afree y) (amagic y) n) /\ lseg B n l2 q.
Proof.
  intros H. apply lseg_app in H as (r & _ & -> & _ & nx & Hx & -> & _ & n & Hy & H). eauto.
Qed.

Lemma swallow_sim h l1 x y l2 n :
  hrep h (l1 ++ x :: y :: l2) -> aend x = addr y ->
  blocks h !! addr y = Some (mkBlock (asize y) (afree y) (amagic y) n) ->
  lseg (blocks h) n l2 0 ->
  exists h', swallow h (addr x) (mkBlock (asize x) (afree x) (amagic x) (addr y)) (addr y)
               (mkBlock (asize y) (afree y) (amagic y) n) = h' /\
    step_to h h' (l1 ++ x :: y :: l2) (l1 ++ merge2 x y :: l2) /\
    hbrk h' = hbrk h /\ size (blocks h') = size (blocks h).
Proof.
  intros Hr Hadj Hy Hn2. eexists. split; [reflexivity|].
  pose proof (laid_mid _ _ _ _ _ (rep_laid _ _ Hr)) as (Hlo & Hhi & Ha16 & Hs0 & Hs16 & Hmg & Hl1 & Hl2).
  simpl in Hl2. destruct Hl2 as (Hy1 & Hy2 & Hy3 & Hy4 & Hy5 & Hl2).
  pose proof (laid_bounds _ _ _ Hl2) as Hyhi.
  pose proof (rep_brk _ _ Hr). pose proof (ceiling_user Hbrk). pose proof (lo_pos Hbrk).
  destruct (lseg_update _ _ _ _ _ _ (rep_lseg _ _ Hr)) as (nx & Hx & _ & Hnz & Hupd).
  assert (Hxy : addr x <> addr y) by mlia.
  assert (Hsz : u64 (asize x + (HDR + asize y)) = asize x + (HDR + asize y)) by (apply u64_small; mlia).
  unfold swallow. cbn [bsize bfree bmagic bnext]. rewrite Hsz.
  split; [|split; [done|]].
  - split; [|split; [done|]].
    + constructor; [| |apply (rep_align _ _ Hr)|apply (rep_brk _ _ Hr)| |].
      * apply (Hupd _ _ _ _ n l2).
        -- intros z Hz. eapply laid_before in Hz; [|exact Hl1|reflexivity]. simpl.
           rewrite !lookup_insert_ne by mlia. done.
        -- simpl. rewrite lookup_insert_ne by done. apply lookup_insert_eq.
        -- apply lseg_insert; [apply lseg_insert; [done|]|]; intros z Hz;
             pose proof (laid_elem _ _ _ _ Hl2 Hz) as (Hz1 & _); mlia.
      * apply laid_app. exists (addr x). split; [done|]. simpl.
        rewrite merge2_end by done. unfold HDR. split_and!; try done; try lia. zdm.
      * do 2 apply mapped_put_block. apply (rep_mapped _ _ Hr).
      * eapply (fresh_put (put_block _ _ h) (addr y)); [|simpl; mlia].
        eapply (fresh_put h (addr x)); [apply (rep_fresh _ _ Hr)|mlia].
    + eapply same_bytes_trans; apply same_bytes_put; simpl; try mlia; intros k Hk.
      * by eapply live_at_header in Hk; [|apply Hr].
      * eapply (live_at_header _ _ (l1 ++ [x]) y l2); rewrite <- app_assoc; [apply Hr|done].
  - rewrite !size_put_block; [done|by rewrite Hx|]. simpl. rewrite lookup_insert_ne by done. by rewrite Hy.
Qed.

(** *** coalesce *)

Definition co_rest (l : list ablk) : list ablk :=
  match l with
  | [] => []
  | y :: l' => co y l'
  end.

Lemma merge_loop_sim l1 l2 : forall h x fuel,
  hrep h (l1 ++ x :: l2) -> (length l2 < fuel)%nat ->
  exists h' x' l2', merge_loop fuel h (addr x) = Some h' /\
    step_to h h' (l1 ++ x :: l2) (l1 ++ x' :: l2') /\ hbrk h' = hbrk h /\
    size (blocks h') = size (blocks h) /\ addr x' = addr x /\
    co x l2 = x' :: co_rest l2' /\ (length l2' <= length l2)%nat /\
    live (x' :: l2') = live (x :: l2).
Proof.
  induction l2 as [|y l2 IH]; intros h x [|fuel] Hr Hf; simpl in Hf; try lia; cbn [merge_loop].
  - destruct (lseg_update _ _ _ _ _ _ (rep_lseg _ _ Hr)) as (nx & Hx & Hn & _). simpl in Hn. subst nx.
    rewrite Hx. obind. cbn [bfree bnext]. rewrite andb_false_r.
    exists h, x, []. split_and!; try done.
  - destruct (lseg_pair _ _ _ _ _ _ _ (rep_lseg _ _ Hr)) as (Hx & n & Hy & Hn).
    pose proof (laid_mid _ _ _ _ _ (rep_laid _ _ Hr)) as (Hlo & _ & _ & Hs0 & _ & _ & _ & Hl2).
    destruct Hl2 as (Hy1 & _). pose proof (lo_pos Hbrk).
    rewrite Hx. obind. cbn [bfree bnext bsize]. replace (addr y =? 0) with false by (symmetry; mlia).
    rewrite andb_true_r. cbn [co].
    destruct (mergeable x y) eqn:E.
    + pose proof E as (E1 & E2 & E3)%mergeable_spec. rewrite E1, Hy. obind. cbn [bfree]. rewrite E2.
      replace (addr x + HDR + asize x =? addr y) with true by (symmetry; mlia). cbn [andb].
      destruct (swallow_sim h l1 x y l2 n Hr E3 Hy Hn) as (h1 & Hsw & Hst & Hb & Hsz).
      unfold swallow in Hsw. cbn [bsize bfree bmagic bnext] in Hsw. rewrite E1, E2 in Hsw.
      cbn [bnext bmagic bsize]. rewrite Hsw.
      destruct (IH h1 (merge2 x y) fuel) as (h' & x' & l2' & Hm & Hst' & Hb' & Hsz' & Ha' & Hco & Hle & Hlv);
        [apply Hst|lia|].
      exists h', x', l2'. cbn [merge2 addr] in Hm, Ha'.
      assert (Hlive : live (merge2 x y :: l2) = live (x :: y :: l2)) by (simpl; by rewrite E1, E2).
      split; [done|]. split_and!; try done; try congruence; [|simpl; lia].
      eapply step_to_trans; [done|done|]. intros k. unfold live_at. by rewrite !live_app, Hlive.
    + exists h, x, (y :: l2). assert (Hend : (if afree x then
        blocks h !! addr y ≫= (fun gone => if bfree gone && (addr x + HDR + asize x =? addr y)
          then merge_loop fuel (put_block (addr y) (mkBlock (bsize gone) (bfree gone) 0 (bnext gone))
            (put_block (addr x) (mkBlock (u64 (asize x + (HDR + bsize gone))) (afree x) (amagic x) (bnext gone)) h)) (addr x)
          else Some h) else Some h) = Some h).
      { destruct (afree x) eqn:Ex; [|done]. rewrite Hy. obind. cbn [bfree].
        unfold mergeable, aend in E. rewrite Ex in E. cbn [andb] in E. by rewrite E. }
      split; [exact Hend|]. split_and!; done.
Qed.

Lemma coalesce_loop_sim fuel : forall l1 x l2 h,
  hrep h (l1 ++ x :: l2) -> (length l2 < fuel)%nat ->
  exists h', coalesce_loop fuel h (addr x) = Some h' /\
    step_to h h' (l1 ++ x :: l2) (l1 ++ co x l2) /\ hbrk h' = hbrk h.
Proof.
  induction fuel as [|fuel IH]; intros l1 x l2 h Hr Hf; [lia|]. cbn [coalesce_loop].
  destruct (lseg_update _ _ _ _ _ _ (rep_lseg _ _ Hr)) as (nx & Hx & Hn & Hnz & _).
  bool_if. rewrite Hx. obind. cbn [bnext]. destruct l2 as [|y l2].
  - simpl in Hn. subst nx. exists h. split; [done|]. split; [by split|done].
  - destruct Hn as (-> & Hyz & _). bool_if.
    assert (Hfu : (length (y :: l2) < list_fuel h)%nat).
    { pose proof (rep_fuel _ _ Hr) as Hl. rewrite length_app in Hl. simpl in *. lia. }
    destruct (merge_loop_sim l1 (y :: l2) h x (list_fuel h) Hr Hfu)
      as (h1 & x' & l2' & -> & Hst & Hb & Hsz & Ha & Hco & Hle & Hlv). obind.
    destruct (lseg_update _ _ _ _ _ _ (rep_lseg _ _ (proj1 Hst))) as (nx' & Hx' & Hn' & _ & _).
    rewrite <- Ha, Hx'. obind. cbn [bnext]. rewrite Hco.
    destruct l2' as [|z l2']; cbn [co_rest].
    + simpl in Hn'. subst nx'. exists h1. split; [|done]. destruct fuel; [simpl in Hf; lia|done].
    + destruct Hn' as (-> & _ & _). destruct (IH (l1 ++ [x']) z l2' h1) as (h' & Hc & Hst' & Hb').
      * rewrite <- app_assoc. apply Hst.
      * simpl in *. lia.
      * exists h'. rewrite <- !app_assoc in Hst'. split; [done|]. split; [|congruence].
        eapply step_to_trans; [done|done|]. intros k. unfold live_at. rewrite !live_app.
        cbn [app]. by rewrite Hlv.
Qed.

Lemma coalesce_sim h l :
  hrep h l -> exists h', coalesce h = Some h' /\ step_to h h' l (coalesce_list l) /\ hbrk h' = hbrk h.
Proof.
  intros Hr. unfold coalesce. pose proof (rep_fuel _ _ Hr) as Hfu. destruct l as [|x l].
  - pose proof (rep_lseg _ _ Hr) as Hs. simpl in Hs. rewrite Hs. exists h. split; [done|].
    split; [by split|done].
  - pose proof (rep_lseg _ _ Hr) as (-> & _). apply (coalesce_loop_sim _ [] x l h Hr). simpl in Hfu. lia.
Qed.

Lemma coalesce_list_live l : live (coalesce_list l) = live l.
Proof. destruct l; [done|]. apply co_live. Qed.
Lemma coalesce_list_footprint l : footprint (coalesce_list l) = footprint l.
Proof. destruct l; [done|]. apply co_footprint. Qed.
Lemma coalesce_list_coalesced l : coalesced (coalesce_list l).
Proof. destruct l; [done|]. apply co_coalesced. Qed.

(** *** free_locked *)

Lemma find_payload_sim ptr l : forall a b h p fuel,
  laid a b l -> lseg (blocks h) p l 0 -> (length l < fuel)%nat ->
  (find_payload fuel h p ptr = Some 0 /\ forall n, (ptr, n) ∉ live l) \/
  exists l1 x l2, l = l1 ++ x :: l2 /\ find_payload fuel h p ptr = Some (addr x) /\
    payload x = ptr /\ afree x = false /\ addr x <> 0.
Proof.
  induction l as [|x l IH]; intros a b h p [|fuel] Hl H Hf; simpl in Hf; try lia;
    cbn [find_payload lseg live laid] in *.
  - subst p. left. split; [done|]. intros n Hn. by apply elem_of_nil in Hn.
  - destruct H as (-> & Hnz & nx & Hx & H). destruct Hl as (Hl1 & Hl2 & Hl3 & Hl4 & Hmg & Hl).
    bool_if. rewrite Hx. obind. cbn [bfree bmagic bnext].
    destruct (addr x + HDR =? ptr) eqn:E; cbn [negb].
    + rewrite Hmg, Z.eqb_refl. cbn [negb orb]. destruct (afree x) eqn:Ef.
      * left. split; [done|]. intros n Hn. eapply live_aligned in Hn; [|done]. mlia.
      * right. exists [], x, l. split_and!; try done. mlia.
    + destruct (IH _ _ h nx fuel Hl H ltac:(lia)) as [[H1 H2]|(l1 & y & l2 & -> & H1 & H2 & H3 & H4)].
      * left. split; [done|]. intros n. destruct (afree x); [done|].
        rewrite elem_of_cons. intros [[= Hp _]|Hn]; [unfold payload in Hp; lia|by eapply H2].
      * right. exists (x :: l1), y, l2. done.
Qed.

(** A release: the payload at [p] is no longer live, everything else as before. *)
Definition released (p : Z) (l l' : list ablk) : Prop :=
  exists A B n, live l = A ++ (p, n) :: B /\ live l' = A ++ B.

Lemma released_incl p l l' k : released p l l' -> live_at l' k -> live_at l k.
Proof.
  intros (A & B & n & E1 & E2) (q & m & Hin & Hk). exists q, m. split; [|done].
  rewrite E1. rewrite E2 in Hin. apply elem_of_app in Hin as [|]; apply elem_of_app; [by left|right].
  by apply list_elem_of_further.
Qed.

Lemma free_locked_sim h l ptr :
  hrep h l ->
  (free_locked h ptr = Some (count_rejected h) /\ forall n, (ptr, n) ∉ live l) \/
  exists h' l', free_locked h ptr = Some h' /\ hrep h' l' /\ released ptr l l' /\ coalesced l' /\
    footprint l' = footprint l /\ same_ctl h h' /\ hbrk h' = hbrk h /\ same_bytes l' h h'.
Proof.
  intros Hr. unfold free_locked.
  destruct (find_payload_sim ptr l _ _ h (heap_head h) (list_fuel h)
    (rep_laid _ _ Hr) (rep_lseg _ _ Hr) (rep_fuel _ _ Hr))
    as [[-> Hno]|(l1 & x & l2 & -> & -> & Hp & Hf & Hnz)]; obind.
  - left. rewrite Z.eqb_refl. done.
  - right. bool_if. destruct (set_free_sim h l1 x l2 true Hr) as (h1 & -> & Hr1 & Hc1 & Hb1 & _ & Hs1). obind.
    destruct (coalesce_sim h1 _ Hr1) as (h2 & -> & (Hr2 & Hc2 & Hs2) & Hb2).
    exists h2, (coalesce_list (l1 ++ with_free true x :: l2)). split; [done|]. split; [done|].
    assert (Hlv : live (coalesce_list (l1 ++ with_free true x :: l2)) = live l1 ++ live l2).
    { by rewrite coalesce_list_live, live_app. }
    split; [|split; [apply coalesce_list_coalesced|split; [|split; [|split]]]].
    + exists (live l1), (live l2), (asize x). split; [|done]. rewrite live_app. simpl. by rewrite Hf, Hp.
    + rewrite coalesce_list_footprint, !footprint_app. done.
    + by eapply same_ctl_trans.
    + congruence.
    + assert (Hi : forall k, live_at (coalesce_list (l1 ++ with_free true x :: l2)) k ->
        live_at (l1 ++ with_free true x :: l2) k).
      { intros k. unfold live_at. by rewrite coalesce_list_live. }
      eapply same_bytes_trans; eapply same_bytes_incl; eauto.
Qed.

(** *** Lock and release *)

Lemma hrep_ctl h h' l :
  heap_head h' = heap_head h -> blocks h' = blocks h -> raw h' = raw h -> hbrk h' = hbrk h ->
  hrep h l -> hrep h' l.
Proof. intros E1 E2 E3 E4 [? ? ? ? ? ?]. constructor; rewrite ?E1, ?E2, ?E3, ?E4; done. Qed.

Definition no_deferred (h : heap) : Prop := deferred h = replicate DEFERRED_MAX 0.

Lemma drain_pass_empty h b : no_deferred h -> drain_pass DEFERRED_MAX 0 h b = Some (b, h).
Proof. unfold no_deferred. intros H. destruct h. simpl in *. by subst. Qed.

Lemma heap_release_empty h : no_deferred h -> heap_release h = Some (set_owner 0 h).
Proof. intros H. unfold heap_release. cbn [drain_loop]. by rewrite drain_pass_empty. Qed.

(** *** realloc: extending in place *)

(** Extend [x] by its free, adjacent successors until it has [want] bytes. *)
Fixpoint ext (x : ablk) (l : list ablk) (want : Z) : ablk * list ablk :=
  match l with
  | [] => (x, [])
  | y :: l' =>
      if afree y && (aend x =? addr y) && (asize x <? want) then ext (merge2 x y) l' want else (x, l)
  end.

Lemma ext_keeps x l want :
  addr (ext x l want).1 = addr x /\ afree (ext x l want).1 = afree x /\
  live (ext x l want).2 = live l /\
  HDR + asize (ext x l want).1 + footprint (ext x l want).2 = footprint (x :: l).
Proof.
  revert x; induction l as [|y l IH]; intros x; simpl; [done|].
  destruct (afree y && (aend x =? addr y) && (asize x <? want)) eqn:Hm; simpl; [|done].
  destruct (IH (merge2 x y)) as (-> & -> & -> & E). simpl in *.
  apply andb_prop in Hm as [[-> _]%andb_prop _]. split_and!; try done. lia.
Qed.

Lemma ext_end a b x l want : laid a b (x :: l) -> aend (ext x l want).1 <= b.
Proof.
  revert a x; induction l as [|y l IH]; intros a x H; simpl; [apply H|]. pose proof H as (_ & _ & _ & _ & _ & Hb%laid_bounds).
  destruct (afree y && (aend x =? addr y) && (asize x <? want)) eqn:Hm; simpl; [|done].
  apply andb_prop in Hm as [[_ E]%andb_prop _]. apply Z.eqb_eq in E.
  destruct H as (H1 & H2 & H3 & H4 & H5 & H6 & H7 & H8 & H9 & H10 & H11).
  apply (IH a). simpl. rewrite merge2_end by done. split_and!; try done; try mlia. unfold HDR. zdm.
Qed.

Lemma ext_grows a b x l want : laid a b (x :: l) -> asize x <= asize (ext x l want).1.
Proof.
  revert a x; induction l as [|y l IH]; intros a x H; simpl; [lia|].
  destruct (afree y && (aend x =? addr y) && (asize x <? want)) eqn:Hm; simpl; [|lia].
  apply andb_prop in Hm as [[_ E]%andb_prop _]. apply Z.eqb_eq in E.
  destruct H as (H1 & H2 & H3 & H4 & H5 & H6 & H7 & H8 & H9 & H10 & H11).
  etransitivity; [|apply (IH a)]; simpl; [mlia|].
  rewrite merge2_end by done. split_and!; try done; try mlia. unfold HDR. zdm.
Qed.

Definition head_addr (l : list ablk) : Z := match l with [] => 0 | x :: _ => addr x end.

Lemma avail_loop_sim want l : forall h last x n fuel,
  lseg (blocks h) n l 0 -> (length l < fuel)%nat -> aend last = aend x -> 0 <= asize x ->
  laid (aend x) ceiling l -> 0 <= aend x - asize x ->
  avail_loop fuel h (addr last) (mkBlock (asize last) (afree last) (amagic last) n) n want (asize x) =
    Some (asize (ext x l want).1, head_addr (ext x l want).2).
Proof.
  induction l as [|y l IH]; intros h last x n [|fuel] H Hf He H0 Hl Hb; simpl in Hf; try lia;
    cbn [avail_loop lseg] in *.
  - subst n. done.
  - destruct H as (-> & Hnz & ny & Hy & H). bool_if. rewrite Hy. obind. cbn [bfree bsize bnext ext].
    unfold adjacent. cbn [bsize]. destruct Hl as (H1 & H2 & H3 & H4 & H5 & Hl).
    pose proof (laid_bounds _ _ _ Hl). pose proof (ceiling_user Hbrk).
    change (addr last + HDR + asize last) with (aend last). rewrite He.
    destruct (afree y && (aend x =? addr y) && (asize x <? want)) eqn:E; [|done].
    apply andb_prop in E as [[Ef E1]%andb_prop E2]. apply Z.eqb_eq in E1.
    rewrite u64_small by mlia. apply (IH h y (merge2 x y) ny); try done; [lia|..].
    + by rewrite merge2_end.
    + simpl. mlia.
    + by rewrite merge2_end.
    + rewrite merge2_end by done. simpl. mlia.
Qed.

Lemma absorb_loop_sim l1 want l2 : forall h x fuel,
  hrep h (l1 ++ x :: l2) -> afree x = false -> (length l2 < fuel)%nat ->
  want <= asize (ext x l2 want).1 ->
  exists h', absorb_loop fuel h (addr x) want = Some h' /\ hbrk h' = hbrk h /\
    step_to h h' (l1 ++ x :: l2) (l1 ++ (ext x l2 want).1 :: (ext x l2 want).2).
Proof.
  induction l2 as [|y l2 IH]; intros h x [|fuel] Hr Hfx Hf Hw; simpl in Hf; try lia; cbn [absorb_loop].
  - destruct (lseg_update _ _ _ _ _ _ (rep_lseg _ _ Hr)) as (nx & Hx & _). simpl in Hw.
    rewrite Hx. obind. cbn [bsize]. bool_if. exists h. split; [done|]. split; [done|]. by split.
  - destruct (lseg_pair _ _ _ _ _ _ _ (rep_lseg _ _ Hr)) as (Hx & n & Hy & Hn).
    rewrite Hx. obind. cbn [bsize bnext ext] in *.
    destruct (afree y && (aend x =? addr y) && (asize x <? want)) eqn:E.
    + apply andb_prop in E as [[Efy E1]%andb_prop E2]. apply Z.eqb_eq in E1. rewrite E2, Hy. obind.
      destruct (swallow_sim h l1 x y l2 n Hr E1 Hy Hn) as (h1 & Hsw & Hst & Hb & _).
      unfold swallow in Hsw. cbn [bsize bfree bmagic bnext] in *. rewrite Hsw.
      destruct (IH h1 (merge2 x y) fuel) as (h' & Ha & Hb' & Hst'); [apply Hst|done|lia|done|].
      exists h'. split; [done|]. split; [congruence|]. eapply step_to_trans; [done|done|].
      intros k. rewrite !live_at_app, !live_at_cons. unfold payload. simpl.
      pose proof (laid_mid _ _ _ _ _ (rep_laid _ _ Hr)) as (_ & _ & _ & _ & _ & _ & _ & Hl2).
      destruct Hl2 as (_ & _ & Hs & _). rewrite Efy. intros [|[[]|[[]|]]]; auto; try done.
      right. left. unfold HDR in *. split; [done|lia].
    + simpl in Hw. bool_if. exists h. split; [done|]. split; [done|]. by split.
Qed.

(** Extending keeps the other live payloads and the bytes, and does not shrink the block. *)
Definition extended (x : ablk) (l1 l2 : list ablk) (l' : list ablk) : Prop :=
  exists x' l2', l' = l1 ++ x' :: l2' /\ addr x' = addr x /\ afree x' = false /\
    asize x <= asize x' /\ live l2' = live l2.

Lemma extended_incl x l1 l2 l' k :
  extended x l1 l2 l' -> afree x = false -> live_at (l1 ++ x :: l2) k -> live_at l' k.
Proof.
  intros (x' & l2' & -> & Ha & Hf & Hs & Hl) Hfx. rewrite !live_at_app, !live_at_cons.
  unfold payload. rewrite Ha. intros [|[[_ ?]|Hk]]; [by left|right; left; split; [done|lia]|].
  right. right. unfold live_at in *. by rewrite Hl.
Qed.

Lemma extend_sim tries : forall first h l1 x l2 want,
  hrep h (l1 ++ x :: l2) -> afree x = false -> asize x < want -> want + 47 + (hbrk h - lo) < 2 ^ 64 ->
  exists h' l', extend brk_call tries h (addr x) want first = Some h' /\
    step_to h h' (l1 ++ x :: l2) l' /\ extended x l1 l2 l' /\ (hbrk h' = hbrk h \/ want < 2 ^ 48).
Proof.
  induction tries as [|t IH]; intros first h l1 x l2 want Hr Hfx Hlt Hw; cbn [extend].
  { exists h, (l1 ++ x :: l2). split; [done|]. split; [by split|]. split; [|by left]. exists x, l2. split_and!; try done. }
  destruct (lseg_update _ _ _ _ _ _ (rep_lseg _ _ Hr)) as (nx & Hx & Hn & Hnz & _). rewrite Hx. obind.
  pose proof (laid_mid _ _ _ _ _ (rep_laid _ _ Hr)) as (Hlo & Hhi & _ & Hs0 & _ & _ & _ & Hl2).
  pose proof (rep_brk _ _ Hr) as Hb. pose proof (lo_pos Hbrk).
  assert (Hfu : (length l2 < list_fuel h)%nat).
  { pose proof (rep_fuel _ _ Hr) as Hl. rewrite length_app in Hl. simpl in *. lia. }
  cbn [bnext bsize]. rewrite (avail_loop_sim want l2 h x x nx); try done; try mlia.
  2:{ eapply laid_weaken; [done|lia..]. }
  assert (Hge : asize x <= asize (ext x l2 want).1).
  { pose proof (rep_laid _ _ Hr) as Hld. apply laid_app in Hld as (mid & _ & Hld). by eapply ext_grows. }
  obind. destruct (want <=? asize (ext x l2 want).1) eqn:Ew.
  - destruct (absorb_loop_sim l1 want l2 h x (list_fuel h) Hr Hfx Hfu ltac:(lia)) as (h' & Ha & Hbh & Hst).
    exists h', (l1 ++ (ext x l2 want).1 :: (ext x l2 want).2). split; [done|]. split; [done|]. split; [|by left].
    destruct (ext_keeps x l2 want) as (E1 & E2 & E3 & _).
    exists (ext x l2 want).1, (ext x l2 want).2. split_and!; try done. congruence.
  - destruct (first && (head_addr (ext x l2 want).2 =? 0)) eqn:Ef.
    2:{ exists h, (l1 ++ x :: l2). split; [done|]. split; [by split|]. split; [|by left]. exists x, l2. split_and!; try done. }
    rewrite u64_small by lia. assert (Hav : asize (ext x l2 want).1 <= hbrk h - lo).
    { pose proof (rep_laid _ _ Hr) as Hld. apply laid_app in Hld as (mid & Hm1 & Hld). apply laid_bounds in Hm1. pose proof (ext_end _ _ _ _ want Hld) as He. pose proof (proj1 (ext_keeps x l2 want)). destruct Hld as [Hld _]. unfold aend, HDR in He. lia. }
    pose proof (ceiling_user Hbrk) as Hcu.
    destruct (grow_sim h _ (want - asize (ext x l2 want).1) Hr ltac:(lia) ltac:(lia))
      as [->|(h1 & -> & Hr1 & Hb1 & Hc1 & Hs1)]; obind.
    { rewrite Z.eqb_refl. exists h, (l1 ++ x :: l2). split; [done|]. split; [by split|]. split; [|by left]. exists x, l2. split_and!; try done. }
    replace (hbrk h =? 0) with false by lia. cbn [negb]. rewrite <- app_assoc in Hr1. cbn [app] in Hr1.
    pose proof (grow_ask_bounds (want - asize (ext x l2 want).1) ltac:(lia)) as (Hask & _). pose proof (rep_brk _ _ Hr1) as Hb1'.
    assert (Hw48 : want < 2 ^ 48) by (unfold HDR in *; lia).
    destruct (IH false h1 l1 x _ want Hr1 Hfx Hlt ltac:(lia)) as (h' & l' & He & Hst & (x' & l2' & -> & E1 & E2 & E3 & E4) & _).
    exists h', (l1 ++ x' :: l2'). split; [done|]. split; [|split; [|by right]].
    + eapply step_to_trans; [|exact Hst|]; [by split|]. intros k. unfold live_at. rewrite !live_app. simpl.
      rewrite Hfx, live_app. simpl. by rewrite app_nil_r.
    + exists x', l2'. split_and!; try done. rewrite E4, live_app. simpl. by rewrite app_nil_r.
Qed.
End sim.
