(* ===== verification/MallocSpec.v ===== *)
(** * What malloc.c guarantees

    The entry points of malloc.c on a heap that represents a block list:
    allocation, release, resizing and the aligned variants, stated on the
    live payloads and on the bytes of the memory.  [Malloc_Allocator] shows
    that the allocator provides the interface [Alloc.Allocator]. *)

From S2P Require Import Prelude Mem CString Alloc Malloc MallocProofs.

(** ** Live payloads are disjoint *)

Lemma live_sep lo hi l p n q m :
  laid lo hi l -> (p, n) ∈ live l -> (q, m) ∈ live l -> (p, n) <> (q, m) ->
  p + n <= q \/ q + m <= p.
Proof.
  intros Hl [i Hi]%list_elem_of_lookup [j Hj]%list_elem_of_lookup Hne.
  destruct (decide (i < j)%nat); [|destruct (decide (j < i)%nat)].
  - pose proof (live_disjoint _ _ _ _ _ _ _ _ _ Hl Hi Hj ltac:(done)). mlia.
  - pose proof (live_disjoint _ _ _ _ _ _ _ _ _ Hl Hj Hi ltac:(done)). mlia.
  - assert (i = j) as -> by lia. congruence.
Qed.

Lemma live_size lo hi l p n : laid lo hi l -> (p, n) ∈ live l -> 0 <= n.
Proof. intros Hl (x & Hx & _ & -> & ->)%live_elem. eapply laid_elem in Hx; [|done]. lia. Qed.

Lemma live_unique lo hi l p n m :
  laid lo hi l -> (p, n) ∈ live l -> (p, m) ∈ live l -> n = m.
Proof.
  intros Hl [i Hi]%list_elem_of_lookup [j Hj]%list_elem_of_lookup.
  pose proof (live_size _ _ _ _ _ Hl (list_elem_of_lookup_2 _ _ _ Hi)).
  pose proof (live_size _ _ _ _ _ Hl (list_elem_of_lookup_2 _ _ _ Hj)).
  destruct (decide (i < j)%nat); [|destruct (decide (j < i)%nat)].
  - pose proof (live_disjoint _ _ _ _ _ _ _ _ _ Hl Hi Hj ltac:(done)). mlia.
  - pose proof (live_disjoint _ _ _ _ _ _ _ _ _ Hl Hj Hi ltac:(done)). mlia.
  - assert (i = j) as -> by lia. congruence.
Qed.

Lemma live_nodup lo hi l : laid lo hi l -> NoDup (live l).
Proof.
  revert lo; induction l as [|x l IH]; intros lo H; simpl; [constructor|].
  destruct H as (H1 & H2 & H3 & H4 & H5 & H). destruct (afree x); [by eapply IH|].
  constructor; [|by eapply IH]. intros Hin. eapply live_aligned in Hin; [|done]. mlia.
Qed.

Lemma live_block lo ceiling h l p n :
  hrep lo ceiling h l -> (p, n) ∈ live l ->
  exists l1 x l2, l = l1 ++ x :: l2 /\ afree x = false /\ payload x = p /\ asize x = n.
Proof.
  intros Hr (x & Hx & Hf & -> & ->)%live_elem. apply list_elem_of_split in Hx as (l1 & l2 & ->).
  exists l1, x, l2. done.
Qed.

Section spec.
Context (brk_call : Z -> Z -> Z) (lo ceiling self : Z).
Context (Hbrk : brk_spec brk_call lo ceiling).
#[local] Abbreviation hrep := (MallocProofs.hrep lo ceiling).
#[local] Abbreviation same_bytes := (MallocProofs.same_bytes lo).

(** ** Resizing *)

Lemma hrep_write h l a bs :
  hrep h l -> lo <= a -> a + len bs <= hbrk h -> hrep (set_raw (write_bytes (raw h) a bs) h) l.
Proof.
  intros [H1 H2 H3 H4 H5 H6] Ha Hb. constructor; try done; simpl.
  - by apply mapped_write.
  - intros k Hk. rewrite write_bytes_out by lia. by apply H6.
Qed.

(** The bytes of the heap segment around a live payload are mapped. *)
Lemma live_mapped h l p n : hrep h l -> (p, n) ∈ live l -> mapped (raw h) p n.
Proof.
  intros Hr Hp. eapply mapped_sub; [apply (rep_mapped _ _ _ _ Hr)|..];
    pose proof (live_aligned _ _ _ _ _ (rep_laid _ _ _ _ Hr) Hp); mlia.
Qed.

(** The walk to a live payload ends at its header. *)
Lemma find_payload_here h l1 x l2 :
  hrep h (l1 ++ x :: l2) -> afree x = false ->
  find_payload (list_fuel h) h (heap_head h) (payload x) = Some (addr x).
Proof.
  intros Hr Hf.
  destruct (find_payload_sim (payload x) _ _ _ h (heap_head h) (list_fuel h)
    (rep_laid _ _ _ _ Hr) (rep_lseg _ _ _ _ Hr) (rep_fuel _ _ _ _ Hr))
    as [[_ Hno]|(M1 & y & M2 & E & -> & Hp & _)].
  - exfalso. apply (Hno (asize x)). rewrite live_app. simpl. rewrite Hf.
    apply elem_of_app. right. apply list_elem_of_here.
  - unfold payload in Hp. f_equal. lia.
Qed.

Lemma perm_move {A} (a b c : A) (L1 L2 M K : list A) :
  a :: (L1 ++ b :: L2) ≡ₚ M -> M ≡ₚ b :: K -> K ≡ₚ a :: L1 ++ L2.
Proof.
  intros H1 H2. apply (Permutation_cons_inv (a := b)). rewrite <- H2, <- H1.
  rewrite <- Permutation_middle. apply perm_swap.
Qed.

(** The outcome of a resize of the payload [x] between [l1] and [l2] to [want] bytes at [p]. *)
Definition resized (h h' : heap) (l1 : list ablk) (x : ablk) (l2 l' : list ablk) (want p : Z) : Prop :=
  exists m, live l' ≡ₚ (p, m) :: live l1 ++ live l2 /\ want <= m /\
    (forall i, 0 <= i < Z.min (asize x) want -> raw h' !! (p + i) = raw h !! (payload x + i)) /\
    (forall k, live_at l1 k \/ live_at l2 k -> raw h' !! k = raw h !! k).

(** Moving: allocate, copy, free. *)
Lemma realloc_move h l1 x l2 want np h2 L2 :
  hrep h (l1 ++ x :: l2) -> afree x = false -> asize x < want ->
  step_to lo ceiling h h2 (l1 ++ x :: l2) L2 -> allocated want np (l1 ++ x :: l2) L2 ->
  exists x2 c h3 l', blocks h2 !! addr x = Some x2 /\ bsize x2 = asize x /\
    memcpy (raw h2) np (payload x) (bsize x2) = Some c /\
    free_locked (set_raw c.2 h2) (payload x) = Some h3 /\
    hrep h3 l' /\ same_ctl h h3 /\ hbrk h3 = hbrk h2 /\ resized h h3 l1 x l2 l' want np.
Proof.
  intros Hr Hf Hlt (Hr2 & Hc2 & Hs2) (A & B & n & EA & EB & Hn).
  assert (Hold : live (l1 ++ x :: l2) = live l1 ++ (payload x, asize x) :: live l2).
  { rewrite live_app. simpl. by rewrite Hf. }
  assert (Hperm : live L2 ≡ₚ (np, n) :: live l1 ++ (payload x, asize x) :: live l2).
  { rewrite EB, <- Permutation_middle, <- EA, Hold. done. }
  assert (Hnp : (np, n) ∈ live L2) by (rewrite Hperm; apply list_elem_of_here).
  assert (Hpx : (payload x, asize x) ∈ live L2).
  { rewrite Hperm. apply list_elem_of_further, elem_of_app. right. apply list_elem_of_here. }
  pose proof (rep_laid _ _ _ _ Hr2) as Hl2.
  assert (Hs0 : 0 <= asize x) by (by eapply live_size).
  assert (Hsep : np + n <= payload x \/ payload x + asize x <= np).
  { eapply live_sep; [exact Hl2|done|done|]. intros [= E1 E2]. lia. }
  pose proof (live_aligned _ _ _ _ _ Hl2 Hnp) as (_ & Hn1 & Hn2).
  destruct (mapped_bytes (raw h2) (payload x) (Z.to_nat (asize x))) as (bs & Hbl & Hbs).
  { rewrite Z2Nat.id by done. by eapply live_mapped. }
  assert (Hlen : len bs = asize x) by lia.
  destruct (live_block _ _ _ _ _ _ Hr2 Hpx) as (M1 & y & M2 & -> & Hfy & Hpy & Hsy).
  destruct (lseg_update _ _ _ _ _ _ (rep_lseg _ _ _ _ Hr2)) as (nx & Hy & _).
  assert (Hay : addr y = addr x) by (unfold payload in Hpy; lia). rewrite Hay in Hy.
  eexists _, (np, write_bytes (raw h2) np bs). cbn [snd].
  assert (Hr3 : hrep (set_raw (write_bytes (raw h2) np bs) h2) (M1 ++ y :: M2)).
  { apply hrep_write; [done|mlia|mlia]. }
  destruct (free_locked_sim brk_call lo ceiling Hbrk _ _ (payload x) Hr3)
    as [[_ Hno]|(h3 & l' & Hfr & Hr4 & (A' & B' & s' & ER & ER') & _ & _ & Hc & Hb & Hs)].
  { exfalso. by eapply Hno. }
  exists h3, l'. split; [done|]. split; [done|]. cbn [bsize]. rewrite Hsy, <- Hlen.
  split; [apply memcpy_spec; [done| |lia]|].
  { eapply mapped_le; [by eapply live_mapped|lia]. }
  split; [done|]. split; [done|]. split; [by eapply same_ctl_trans|]. split; [done|].
  assert (s' = asize x) as ->.
  { eapply (live_unique _ _ _ (payload x)); [exact Hl2| |done]. rewrite ER.
    apply elem_of_app. right. apply list_elem_of_here. }
  assert (Hfin : live l' ≡ₚ (np, n) :: live l1 ++ live l2).
  { apply (perm_move (np, n) (payload x, asize x) (np, n) (live l1) (live l2) (live (M1 ++ y :: M2)));
      [by rewrite Hperm|]. rewrite ER, ER'. symmetry. apply Permutation_middle. }
  exists n. split; [done|]. split; [done|]. split.
  - intros i Hi. rewrite (proj2 Hs).
    2:{ left. exists np, n. split; [|lia]. rewrite Hfin. apply list_elem_of_here. }
    simpl. rewrite write_bytes_lookup. bool_if. replace (np + i - np) with i by lia.
    rewrite <- (proj2 Hs2).
    2:{ left. exists (payload x), (asize x). split; [|lia]. rewrite Hold. apply elem_of_app. right. apply list_elem_of_here. }
    destruct (lookup_lt_is_Some_2 bs (Z.to_nat i)) as [v Hv]; [lia|]. rewrite Hv. symmetry.
    rewrite <- (proj1 (bytes_at_lookup _ _ _) Hbs _ _ Hv). f_equal. lia.
  - intros k Hk.
    assert (Hkl : live_at (l1 ++ x :: l2) k).
    { apply live_at_app. rewrite live_at_cons. tauto. }
    assert (Hk' : exists q m, (q, m) ∈ live l1 ++ live l2 /\ q <= k < q + m).
    { destruct Hk as [(q & m & ? & ?)|(q & m & ? & ?)]; exists q, m; rewrite elem_of_app; auto. }
    destruct Hk' as (q & m & Hq & Hkq). rewrite (proj2 Hs).
    2:{ left. exists q, m. split; [|done]. rewrite Hfin. by apply list_elem_of_further. }
    simpl. rewrite write_bytes_out; [apply (proj2 Hs2); by left|].
    assert (Hne : np + n <= q \/ q + m <= np); [|lia].
    assert (HND : NoDup ((np, n) :: live l1 ++ live l2)).
    { rewrite <- Hfin. eapply live_nodup. apply (rep_laid _ _ _ _ Hr4). }
    apply NoDup_cons in HND as [HND _].
    eapply (live_sep _ _ (M1 ++ y :: M2)); [exact Hl2|done| |].
    + rewrite Hperm. apply list_elem_of_further. apply elem_of_app in Hq as [|]; apply elem_of_app; [by left|right].
      by apply list_elem_of_further.
    + intros E. apply HND. by rewrite E.
Qed.

(** Enlarging first does not change what a resize keeps. *)
Lemma resized_pre h h1 h3 l1 x x' l2 l2' l' want p :
  step_to lo ceiling h h1 (l1 ++ x :: l2) (l1 ++ x' :: l2') ->
  addr x' = addr x -> afree x = false -> asize x <= asize x' -> live l2' = live l2 ->
  resized h1 h3 l1 x' l2' l' want p -> resized h h3 l1 x l2 l' want p.
Proof.
  intros (_ & _ & Hs) Ha Hf Hle Hlv (m & Hp & Hm & Hc & Ho). exists m. rewrite Hlv in Hp.
  assert (Hpay : payload x' = payload x) by (unfold payload; lia).
  split; [done|]. split; [done|]. split.
  - intros i Hi. rewrite Hc, Hpay by lia. apply (proj2 Hs). left.
    rewrite live_at_app, live_at_cons. right. left. split; [done|]. lia.
  - intros k Hk. rewrite Ho.
    + apply (proj2 Hs). left. rewrite live_at_app, live_at_cons. tauto.
    + unfold live_at in *. by rewrite Hlv.
Qed.

(** Shrinking in place: split and coalesce. *)
Lemma realloc_shrink h l1 x l2 want :
  hrep h (l1 ++ x :: l2) -> afree x = false -> 0 <= want <= asize x -> want mod 16 = 0 ->
  exists h2 h3 l', split h (addr x) want = Some h2 /\ coalesce h2 = Some h3 /\
    hrep h3 l' /\ same_ctl h h3 /\ hbrk h3 = hbrk h /\ resized h h3 l1 x l2 l' want (payload x).
Proof.
  intros Hr Hf Hw H16.
  destruct (split_sim _ _ _ Hbrk h l1 x l2 want Hr ltac:(lia) H16 ltac:(lia)) as (h2 & E2 & Hr2 & Hc2 & Hb2 & Hs2).
  destruct (coalesce_sim _ _ _ Hbrk h2 _ Hr2) as (h3 & E3 & (Hr3 & Hc3 & Hs3) & Hb3).
  exists h2, h3, (coalesce_list (l1 ++ split_list x want ++ l2)).
  split; [done|]. split; [done|]. split; [done|]. split; [by eapply same_ctl_trans|]. split; [congruence|].
  assert (Hlv : live (l1 ++ split_list x want ++ l2)
    = live l1 ++ (payload x, taken_size x want) :: live l2).
  { by rewrite !live_app, split_list_live, Hf. }
  exists (taken_size x want). rewrite coalesce_list_live, Hlv. split; [by rewrite <- Permutation_middle|].
  assert (Ht : want <= taken_size x want) by (unfold taken_size; bcase; lia). split; [done|].
  assert (Hk : forall k, live_at (l1 ++ split_list x want ++ l2) k -> raw h3 !! k = raw h !! k).
  { intros k Hk. rewrite (proj2 Hs3) by (by left). apply (proj2 Hs2). by left. }
  split.
  - intros i Hi. apply Hk. exists (payload x), (taken_size x want). split; [|lia].
    rewrite Hlv. apply elem_of_app. right. apply list_elem_of_here.
  - intros k Hin. apply Hk. rewrite !live_at_app. tauto.
Qed.

Lemma realloc_locked_sim h l1 x l2 want :
  hrep h (l1 ++ x :: l2) -> afree x = false -> 0 <= want -> want mod 16 = 0 -> want + 47 + (hbrk h - lo) < 2 ^ 64 ->
  exists p e h' l', realloc_locked brk_call h (payload x) want = Some (p, e, h') /\
    hrep h' l' /\ same_ctl h h' /\
    ((p = 0 /\ e = ENOMEM /\ extended x l1 l2 l' /\ same_bytes (l1 ++ x :: l2) h h') \/
     (p <> 0 /\ e = 0 /\ resized h h' l1 x l2 l' want p)).
Proof.
  intros Hr Hf H0 H16 Hw. unfold realloc_locked, find_live.
  assert (Hin : (payload x, asize x) ∈ live (l1 ++ x :: l2)).
  { rewrite live_app. simpl. rewrite Hf. apply elem_of_app. right. apply list_elem_of_here. }
  rewrite (find_payload_here _ _ _ _ Hr Hf). obind.
  assert (Hnz : addr x =? 0 = false).
  { destruct (lseg_update _ _ _ _ _ _ (rep_lseg _ _ _ _ Hr)) as (nx & _ & _ & Hnz & _). lia. }
  rewrite Hnz.
  destruct (lseg_update _ _ _ _ _ _ (rep_lseg _ _ _ _ Hr)) as (nx & Hx & _). rewrite Hx. obind. cbn [bsize].
  assert (Hext : exists h1 x' l2', (if asize x <? want then extend brk_call 2 h (addr x) want true else Some h) = Some h1
    /\ step_to lo ceiling h h1 (l1 ++ x :: l2) (l1 ++ x' :: l2') /\ addr x' = addr x /\ afree x' = false /\
    asize x <= asize x' /\ live l2' = live l2 /\ (hbrk h1 = hbrk h \/ want < 2 ^ 48)).
  { bcase.
    - destruct (extend_sim _ _ _ Hbrk 2 true h l1 x l2 want Hr Hf ltac:(lia) Hw)
        as (h1 & ? & He & Hst & (x' & l2' & -> & ?) & ?). exists h1, x', l2'. tauto.
    - exists h, x, l2. split_and!; try done. by left. }
  destruct Hext as (h1 & x' & l2' & -> & Hst & Ha & Hf' & Hle & Hlv & Hhb). obind.
  pose proof (proj1 Hst) as Hr1. pose proof (proj1 (proj2 Hst)) as Hc1.
  destruct (lseg_update _ _ _ _ _ _ (rep_lseg _ _ _ _ Hr1)) as (nx' & Hx' & _). rewrite <- Ha, Hx'. obind.
  assert (Hpay : payload x = payload x') by (unfold payload; lia). rewrite Hpay. cbn [bsize]. bcase.
  - destruct (realloc_shrink h1 l1 x' l2' want Hr1 Hf' ltac:(lia) H16)
      as (h2 & h3 & l' & -> & E3 & Hr3 & Hc3 & Hb3 & Hres). obind. rewrite E3. obind.
    exists (payload x'), 0, h3, l'. split; [done|]. split; [done|]. split; [by eapply same_ctl_trans|].
    right. split; [eapply payload_pos; [done|exact Hr1|]; apply elem_of_app; right; apply list_elem_of_here|].
    split; [done|]. by eapply resized_pre.
  - destruct (malloc_locked_sim _ _ _ Hbrk h1 _ want Hr1 H0 H16 ltac:(pose proof (rep_brk _ _ _ _ Hr1); pose proof (ceiling_user _ _ _ Hbrk); pose proof (lo_pos _ _ _ Hbrk); lia))
      as [->|(np & h2 & L2 & -> & Hnp & Hst2 & Hall & _)]; obind.
    + rewrite Z.eqb_refl. exists 0, ENOMEM, h1, (l1 ++ x' :: l2'). split; [done|]. split; [done|].
      split; [done|]. left. split; [done|]. split; [done|]. split; [by exists x', l2'|apply Hst].
    + bool_if. destruct (realloc_move h1 l1 x' l2' want np h2 L2 Hr1 Hf' ltac:(lia) Hst2 Hall)
        as (x2 & c & h3 & l' & E1 & E2 & E3 & E4 & Hr3 & Hc3 & Hb3 & Hres).
      rewrite E1. obind. rewrite E3. obind. rewrite E4. obind.
      exists np, 0, h3, l'. split; [done|]. split; [done|]. split; [by eapply same_ctl_trans|].
      right. split; [done|]. split; [done|]. by eapply resized_pre.
Qed.

(** ** The entry points *)

(** Between calls: the lock is free and no free is parked. *)
Definition ready (h : heap) (l : list ablk) : Prop :=
  hrep h l /\ heap_owner h = 0 /\ no_deferred h.

Context (Hself : self <> 0).

Lemma acquire_ready h l :
  ready h l -> heap_acquire self h = Some (true, set_owner self h) /\ hrep (set_owner self h) l.
Proof.
  intros (Hr & Ho & _). unfold heap_acquire. rewrite Ho. bool_if. bool_if. split; [done|]. eapply hrep_ctl; [| | | |exact Hr]; done.
Qed.

Lemma release_ready h h1 l :
  no_deferred h -> hrep h1 l -> deferred h1 = deferred h ->
  heap_release h1 = Some (set_owner 0 h1) /\ ready (set_owner 0 h1) l.
Proof.
  intros Hd Hr E. assert (Hd1 : no_deferred h1) by (unfold no_deferred in *; congruence).
  split; [by apply heap_release_empty|]. split; [eapply hrep_ctl; [| | | |exact Hr]; done|]. done.
Qed.

Lemma set_owner_back h o : heap_owner h = 0 -> set_owner 0 (set_owner o h) = h.
Proof. by destruct h; simpl; intros ->. Qed.

(** The sizes that can be asked for: all but those so close to 2^64 that growing
    the heap by them would move the break down into the heap. *)
Definition sound_size (h : heap) (size : Z) : Prop :=
  is_u64 size /\ (size + 48 + (hbrk h - lo) <= 2 ^ 64 \/ SIZE_LIMIT < size).

(** A product that calloc can be asked for: it does not fit 64 bits, or is such a size. *)
Definition sound_product (h : heap) (nmemb size : Z) : Prop :=
  is_u64 nmemb /\ is_u64 size /\ (2 ^ 64 <= nmemb * size \/ sound_size h (nmemb * size)).

Lemma want_bounds h l size : hrep h l -> 0 <= size -> size + 48 + (hbrk h - lo) <= 2 ^ 64 ->
  let want := align_up (if size =? 0 then 1 else size) in
  size <= want /\ want mod 16 = 0 /\ want + 47 + (hbrk h - lo) < 2 ^ 64 /\ 0 < want <= size + 16.
Proof.
  intros Hr H0 H1. simpl. set (s := if size =? 0 then 1 else size). pose proof (rep_brk _ _ _ _ Hr) as Hb. pose proof (rep_align _ _ _ _ Hr) as Ha. pose proof (lo_align _ _ _ Hbrk) as Hl. pose proof (lo_pos _ _ _ Hbrk). pose proof (ceiling_user _ _ _ Hbrk).
  assert (size <= s <= size + 1 /\ 0 < s /\ s + 48 + (hbrk h - lo) <= 2 ^ 64) as (? & ? & ?) by (unfold s; bcase; lia). clearbody s. set (g := hbrk h - lo) in *.
  assert (Hg : g mod 16 = 0) by (unfold g; zdm). assert (0 <= g) by lia. clearbody g. rewrite align_up_spec by lia. zdm.
Qed.

Lemma SIZE_LIMIT_above size : size + 48 <= 2 ^ 64 -> SIZE_LIMIT <? size = false.
Proof. intros H. change SIZE_LIMIT with 18446744073709551568. lia. Qed.

(** A fresh payload is aligned, mapped and apart from every live one. *)
Definition fresh_payload (h' : heap) (l l' : list ablk) (size p : Z) : Prop :=
  p mod 16 = 0 /\ exists n, size <= n /\ mapped (raw h') p n /\ live l' ≡ₚ (p, n) :: live l /\
    forall q m, (q, m) ∈ live l -> p + n <= q \/ q + m <= p.

Lemma allocated_fresh h' l l' want size p :
  hrep h' l' -> allocated want p l l' -> size <= want -> fresh_payload h' l l' size p.
Proof.
  intros Hr (A & B & n & EA & EB & Hn) Hw.
  assert (Hp : live l' ≡ₚ (p, n) :: live l) by (rewrite EB, EA; symmetry; apply Permutation_middle).
  assert (Hin : (p, n) ∈ live l') by (rewrite Hp; apply list_elem_of_here).
  split; [apply (live_aligned _ _ _ _ _ (rep_laid _ _ _ _ Hr) Hin)|].
  exists n. split; [lia|]. split; [by eapply live_mapped|]. split; [done|]. intros q m Hq.
  eapply live_sep; [apply (rep_laid _ _ _ _ Hr)|done|rewrite Hp; by apply list_elem_of_further|].
  intros [= -> ->]. pose proof (live_nodup _ _ _ (rep_laid _ _ _ _ Hr)) as HN.
  rewrite Hp in HN. by apply NoDup_cons in HN as [? _].
Qed.

Lemma malloc_spec h l size :
  ready h l -> sound_size h size ->
  malloc brk_call self h size = Some (0, set_errno self ENOMEM h) \/
  exists p h' l', malloc brk_call self h size = Some (p, h') /\ p <> 0 /\ ready h' l' /\
    fresh_payload h' l l' size p /\ same_bytes l h h' /\
    footprint l' - footprint l = hbrk h' - hbrk h.
Proof.
  intros Hrd [[H0 _] H1]. unfold malloc. destruct H1 as [H1|H1]; [|left; by bool_if]. pose proof (rep_brk _ _ _ _ (proj1 Hrd)). rewrite SIZE_LIMIT_above by lia.
  destruct (want_bounds h l size (proj1 Hrd) H0 H1) as (Hw1 & Hw2 & Hw3 & Hw4).
  destruct (acquire_ready _ _ Hrd) as [-> Hr]. obind. cbn [negb]. destruct Hrd as (_ & Ho & Hd).
  destruct (malloc_locked_sim _ _ _ Hbrk _ _ (align_up (if size =? 0 then 1 else size)) Hr
    ltac:(lia) Hw2 Hw3) as [->|(p & h2 & l' & -> & Hp & (Hr2 & Hc & Hs) & Ha & Hft)]; obind.
  - left. rewrite heap_release_empty by done. obind. by rewrite set_owner_back.
  - right. destruct (release_ready h h2 l' Hd Hr2) as [-> Hrd]; [apply Hc|]. obind.
    bool_if. exists p, (set_owner 0 h2), l'. split; [done|]. split; [done|]. split; [done|].
    split; [eapply allocated_fresh; [apply Hrd|done|lia]|]. done.
Qed.

Lemma free_spec h l ptr :
  ready h l -> ptr <> 0 ->
  (free self h ptr = Some (count_rejected h) /\ forall n, (ptr, n) ∉ live l) \/
  exists h' l', free self h ptr = Some h' /\ ready h' l' /\ released ptr l l' /\ coalesced l' /\
    footprint l' = footprint l /\ hbrk h' = hbrk h /\ same_bytes l' h h' /\
    free_rejected h' = free_rejected h.
Proof.
  intros Hrd Hp. unfold free. bool_if.
  destruct (acquire_ready _ _ Hrd) as [-> Hr]. obind. cbn [negb]. destruct Hrd as (_ & Ho & Hd).
  destruct (free_locked_sim _ _ _ Hbrk _ _ ptr Hr)
    as [[-> Hno]|(h' & l' & -> & Hr' & Hrel & Hco & Hft & Hc & Hb & Hs)]; obind.
  - left. split; [|done]. rewrite heap_release_empty by done.
    destruct h; simpl in *; by subst.
  - right. destruct (release_ready h h' l' Hd Hr') as [-> Hrd]; [apply Hc|].
    exists (set_owner 0 h'), l'. split_and!; try done; apply Hrd || apply Hs || apply Hc.
Qed.

Lemma ready_errno h l e : ready h l -> ready (set_errno self e h) l.
Proof.
  intros (Hr & Ho & Hd). unfold set_errno. destruct (negb (self =? 1)); [|done].
  split; [eapply hrep_ctl; [| | | |exact Hr]; done|done].
Qed.

Lemma same_bytes_errno h l e : same_bytes l h (set_errno self e h).
Proof. unfold set_errno. destruct (negb (self =? 1)); split; done || (simpl; lia). Qed.

(** A resize of the payload [(ptr, n)] that moves it to [p]: the common prefix of the contents is
    kept, and so is every other payload. *)
Definition moved (h h' : heap) (l' : list ablk) (rest : list (Z * Z)) (ptr n size p : Z) : Prop :=
  p <> 0 /\ p mod 16 = 0 /\ exists m, size <= m /\ live l' ≡ₚ (p, m) :: rest /\
    (forall i, 0 <= i < Z.min n size -> raw h' !! (p + i) = raw h !! (ptr + i)) /\
    (forall q m' k, (q, m') ∈ rest -> q <= k < q + m' -> raw h' !! k = raw h !! k).

Lemma realloc_spec h l ptr n size :
  ready h l -> (ptr, n) ∈ live l -> 0 < size -> sound_size h size ->
  exists rest p h' l', live l ≡ₚ (ptr, n) :: rest /\
    realloc brk_call self h ptr size = Some (p, h') /\ ready h' l' /\
    ((p = 0 /\ same_bytes l h h' /\ exists m, n <= m /\ live l' ≡ₚ (ptr, m) :: rest) \/
     moved h h' l' rest ptr n size p).
Proof.
  intros Hrd Hin H0 [_ H1]. unfold realloc.
  destruct (live_block _ _ _ _ _ _ (proj1 Hrd) Hin) as (l1 & x & l2 & -> & Hf & <- & <-).
  assert (Hpx : payload x <> 0).
  { eapply payload_pos; [done|apply Hrd|]. apply elem_of_app. right. apply list_elem_of_here. }
  bool_if. replace (size =? 0) with false by lia. destruct H1 as [H1|H1].
  2:{ replace (SIZE_LIMIT <? size) with true by lia. exists (live l1 ++ live l2), 0, (set_errno self ENOMEM h), (l1 ++ x :: l2).
      assert (Hp : live (l1 ++ x :: l2) ≡ₚ (payload x, asize x) :: live l1 ++ live l2) by (rewrite live_app; simpl; rewrite Hf; symmetry; apply Permutation_middle).
      split; [done|]. split; [done|]. split; [by apply ready_errno|]. left. split; [done|]. split; [apply same_bytes_errno|]. by exists (asize x). }
  pose proof (rep_brk _ _ _ _ (proj1 Hrd)). rewrite SIZE_LIMIT_above by lia.
  destruct (want_bounds h _ size (proj1 Hrd) ltac:(lia) H1) as (Hw1 & Hw2 & Hw3 & Hw4). replace (size =? 0) with false in * by lia.
  destruct (acquire_ready _ _ Hrd) as [-> Hr]. obind. cbn [negb]. pose proof Hrd as (_ & Ho & Hd).
  exists (live l1 ++ live l2).
  destruct (realloc_locked_sim _ l1 x l2 (align_up size) Hr Hf ltac:(lia) Hw2 Hw3)
    as (p & e & h2 & l' & -> & Hr2 & Hc & Hcase). obind.
  destruct (release_ready h h2 l' Hd Hr2) as [-> Hrd']; [apply Hc|]. obind.
  exists p, (if p =? 0 then set_errno self e (set_owner 0 h2) else set_owner 0 h2), l'.
  split; [rewrite live_app; simpl; rewrite Hf; symmetry; apply Permutation_middle|]. split; [done|].
  destruct Hcase as [(-> & -> & (x' & l2' & -> & Ha & Hf' & Hle & Hlv) & Hs)|(Hp & -> & m & Hpm & Hm & Hcont & Hoth)].
  - rewrite Z.eqb_refl. unfold set_errno.
    split; [destruct (negb (self =? 1)); [|done]; destruct Hrd' as (? & ? & ?);
      split; [eapply hrep_ctl; [| | | |done]; done|done]|].
    left. split; [done|]. split; [by destruct (negb (self =? 1))|]. exists (asize x'). split; [done|].
    rewrite live_app. simpl. rewrite Hf', Hlv. unfold payload. rewrite Ha. symmetry. apply Permutation_middle.
  - bool_if. split; [done|]. right. split; [done|]. split.
    { eapply (live_aligned _ _ _ p m); [apply (rep_laid _ _ _ _ Hr2)|]. rewrite Hpm. apply list_elem_of_here. }
    exists m. split; [lia|]. split; [done|]. split; [intros i Hi; apply Hcont; lia|].
    intros q m' k Hq Hk. apply Hoth. apply elem_of_app in Hq as [|]; [left|right]; by exists q, m'.
Qed.

(** ** calloc *)

Lemma calloc_total n s : is_u64 n -> is_u64 s -> n * s < 2 ^ 64 ->
  negb (s =? 0) && negb (u64 (n * s) / s =? n) = false /\ u64 (n * s) = n * s.
Proof.
  unfold is_u64. intros Hn Hs Hlt. rewrite u64_small by nia. split; [|done].
  destruct (s =? 0) eqn:E; [done|]. rewrite Z.div_mul by lia. rewrite Z.eqb_refl. done.
Qed.

Lemma calloc_overflow_test n s : is_u64 n -> is_u64 s -> 2 ^ 64 <= n * s ->
  negb (s =? 0) && negb (u64 (n * s) / s =? n) = true.
Proof.
  unfold is_u64. intros Hn Hs Hge. assert (0 < s) by nia.
  pose proof (u64_range (n * s)) as Hr. unfold is_u64 in Hr.
  assert (u64 (n * s) / s < n) by (apply Z.div_lt_upper_bound; lia). lia.
Qed.

Lemma calloc_spec h l nmemb size :
  ready h l -> is_u64 nmemb -> is_u64 size -> sound_size h (nmemb * size) ->
  calloc brk_call self h nmemb size = Some (0, set_errno self ENOMEM h) \/
  exists p h' l', calloc brk_call self h nmemb size = Some (p, h') /\ p <> 0 /\ ready h' l' /\
    fresh_payload h' l l' (nmemb * size) p /\ same_bytes l h h' /\
    forall i, 0 <= i < nmemb * size -> raw h' !! (p + i) = Some 0.
Proof.
  intros Hrd Hn Hs Hb. unfold calloc.
  pose proof (proj1 Hb) as H0. unfold is_u64 in H0.
  destruct (calloc_total nmemb size Hn Hs ltac:(lia)) as [-> ->].
  destruct (malloc_spec h l (nmemb * size) Hrd Hb)
    as [->|(p & h' & l' & -> & Hp & Hrd' & Hfr & Hsb & Hft)]; obind; [by left|].
  right. bool_if. pose proof Hfr as (Hp16 & n & Hn' & Hmap & Hperm & Hdis).
  rewrite memset_spec; [|lia|eapply mapped_le; [exact Hmap|lia]]. obind. cbn [snd].
  set (bs := replicate (Z.to_nat (nmemb * size)) (u8 0)).
  assert (Hlen : len bs = nmemb * size) by (unfold bs; rewrite length_replicate; lia).
  assert (Hin : (p, n) ∈ live l') by (rewrite Hperm; apply list_elem_of_here).
  pose proof (live_aligned _ _ _ _ _ (rep_laid _ _ _ _ (proj1 Hrd')) Hin) as (_ & Hb1 & Hb2).
  exists p, (set_raw (write_bytes (raw h') p bs) h'), l'. split; [done|]. split; [done|].
  split; [|split; [|split]].
  - destruct Hrd' as (Hr & ? & ?). split; [|done]. apply hrep_write; [done|mlia|mlia].
  - split; [done|]. exists n. split; [done|]. split; [by apply mapped_write|]. done.
  - split; [apply Hsb|]. simpl. intros k Hk. rewrite write_bytes_out; [by apply (proj2 Hsb)|].
    destruct Hk as [(q & m & Hq & Hk)|Hk]; [pose proof (Hdis q m Hq); lia|mlia].
  - intros i Hi. simpl. rewrite write_bytes_lookup. bool_if. replace (p + i - p) with i by lia.
    unfold bs. apply lookup_replicate. split; [done|lia].
Qed.

(** ** Frees parked while the lock is held *)

Lemma live_addr_nodup lo' hi l : laid lo' hi l -> NoDup (live l).*1.
Proof.
  intros Hl. apply NoDup_alt. intros i j p Hi Hj.
  rewrite list_lookup_fmap in Hi, Hj.
  destruct (live l !! i) as [[p1 n1]|] eqn:E1; [|done]. destruct (live l !! j) as [[p2 n2]|] eqn:E2; [|done].
  simpl in *. assert (p1 = p2) as -> by congruence. clear Hi Hj.
  pose proof (list_elem_of_lookup_2 _ _ _ E1) as H1. pose proof (list_elem_of_lookup_2 _ _ _ E2) as H2.
  assert (n1 = n2) as -> by (by eapply live_unique).
  eapply NoDup_lookup; [by eapply live_nodup|done|done].
Qed.

(** One slot: what is live afterwards is what was live at another address. *)
Lemma free_locked_filter h l p :
  hrep h l ->
  exists h' l', free_locked h p = Some h' /\ hrep h' l' /\
    live l' = filter (fun b => b.1 <> p) (live l) /\ hbrk h' = hbrk h /\ same_bytes l' h h' /\
    deferred h' = deferred h.
Proof.
  intros Hr. destruct (free_locked_sim _ _ _ Hbrk h l p Hr)
    as [[-> Hno]|(h' & l' & -> & Hr' & (A & B & n & EA & EB) & _ & _ & Hc & Hb & Hs)].
  - exists (count_rejected h), l. split; [done|]. split; [eapply hrep_ctl; [| | | |exact Hr]; done|].
    split; [|split; [done|split; [by split|done]]].
    symmetry. apply list_filter_all. apply Forall_forall. intros [q m] Hq Hqp. simpl in Hqp. subst q.
    by eapply Hno.
  - exists h', l'. split; [done|]. split; [done|]. split; [|split; [done|split; [done|apply Hc]]].
    pose proof (live_addr_nodup _ _ _ (rep_laid _ _ _ _ Hr)) as HN. rewrite EA, fmap_app, fmap_cons in HN.
    apply NoDup_app in HN as (_ & HA & HB). apply NoDup_cons in HB as [HB _].
    rewrite EA, EB, filter_app, filter_cons_False by (simpl; tauto).
    f_equal; symmetry; apply list_filter_all, Forall_forall; intros [q m] Hq Hqp; simpl in Hqp; subst q.
    + apply (HA p); [by apply (list_elem_of_fmap_2 fst _ (p, m))|apply list_elem_of_here].
    + apply HB. by apply (list_elem_of_fmap_2 fst _ (p, m)).
Qed.

Lemma drain_pass_sim k : forall i h l again,
  hrep h l -> length (deferred h) = (i + k)%nat ->
  exists again' h' l', drain_pass k i h again = Some (again', h') /\ hrep h' l' /\
    deferred h' = take i (deferred h) ++ replicate k 0 /\ hbrk h' = hbrk h /\
    live l' = filter (fun b => b.1 ∉ drop i (deferred h)) (live l) /\ same_bytes l' h h'.
Proof.
  induction k as [|k IH]; intros i h l again Hr Hlen; cbn [drain_pass].
  { exists again, h, l. split; [done|]. split; [done|]. rewrite firstn_all2, drop_ge, app_nil_r by lia.
    split; [done|]. split; [done|]. split; [|apply same_bytes_refl].
    symmetry. apply list_filter_all, Forall_forall. intros b _. apply not_elem_of_nil. }
  destruct (lookup_lt_is_Some_2 (deferred h) i) as [p Hp]; [lia|]. rewrite Hp. change (default 0 (Some p)) with p. cbv zeta.
  set (h1 := set_deferred (<[i:=0]> (deferred h)) h).
  assert (Hr1 : hrep h1 l) by (eapply hrep_ctl; [| | | |exact Hr]; done).
  assert (Hslot : exists h2 l2, (if negb (p =? 0) then free_locked h1 p else Some h1) = Some h2 /\ hrep h2 l2 /\
    live l2 = filter (fun b => b.1 <> p) (live l) /\ hbrk h2 = hbrk h /\ same_bytes l2 h h2 /\
    deferred h2 = <[i:=0]> (deferred h)).
  { destruct (p =? 0) eqn:E; cbn [negb]; [|by apply (free_locked_filter h1 l p)].
    exists h1, l. split; [done|]. split; [done|]. split; [|split_and!; try done].
    symmetry. apply list_filter_all, Forall_forall. intros [q m] Hq Hqp. simpl in Hqp.
    apply (live_aligned _ _ _ _ _ (rep_laid _ _ _ _ Hr)) in Hq. pose proof (lo_pos _ _ _ Hbrk). mlia. }
  destruct Hslot as (h2 & l2 & E2 & Hr2 & Hl2 & Hb2 & Hs2 & Hd2).
  destruct (IH (S i) h2 l2 (if negb (p =? 0) then true else again) Hr2) as (a' & h' & l' & E & Hr' & Hd & Hb & Hl & Hs).
  { rewrite Hd2, length_insert. lia. }
  exists a', h', l'. split; [destruct (negb (p =? 0)); [rewrite E2; done|injection E2 as ->; done]|].
  split; [done|]. rewrite Hd2 in Hd, Hl. split; [|split; [congruence|split]].
  - rewrite Hd, (take_S_r _ _ 0), take_insert_ge by (done || apply list_lookup_insert_eq; lia).
    by rewrite <- app_assoc.
  - rewrite Hl, Hl2, list_filter_filter, (drop_S _ p i), drop_insert_lt by (done || lia).
    apply list_filter_iff. intros b. rewrite not_elem_of_cons. tauto.
  - eapply same_bytes_trans; [|exact Hs]. eapply same_bytes_incl; [|exact Hs2].
    intros q (b & n & Hin & Hq). exists b, n. split; [|done]. rewrite Hl in Hin.
    by apply list_elem_of_filter in Hin as [_ ?].
Qed.

(** Releasing the lock frees everything that was parked. *)
Lemma heap_release_sim h l :
  hrep h l -> length (deferred h) = DEFERRED_MAX ->
  exists h' l', heap_release h = Some h' /\ ready h' l' /\
    live l' = filter (fun b => b.1 ∉ deferred h) (live l) /\ same_bytes l' h h'.
Proof.
  intros Hr Hlen. unfold heap_release. cbn [drain_loop].
  destruct (drain_pass_sim DEFERRED_MAX 0 h l false Hr Hlen) as (a1 & h1 & l1 & -> & Hr1 & Hd1 & Hb1 & Hl1 & Hs1).
  obind. assert (Hn1 : no_deferred h1) by done.
  assert (Hrd : ready (set_owner 0 h1) l1).
  { split; [|done]. eapply hrep_ctl; [| | | |exact Hr1]; done. }
  exists (set_owner 0 h1), l1. split; [|done]. destruct a1; [|done].
  by rewrite drain_pass_empty.
Qed.

(** A free that finds the lock held by its own thread parks the pointer in an empty slot. *)
Lemma defer_loop_spec k : forall i h ptr,
  length (deferred h) = (i + k)%nat -> (exists j, (i <= j)%nat /\ deferred h !! j = Some 0) ->
  exists j, (i <= j)%nat /\ deferred h !! j = Some 0 /\
    defer_loop k i h ptr = set_deferred (<[j := ptr]> (deferred h)) h.
Proof.
  induction k as [|k IH]; intros i h ptr Hlen (j & Hj & Hz).
  - apply lookup_lt_Some in Hz. lia.
  - cbn [defer_loop]. destruct (lookup_lt_is_Some_2 (deferred h) i) as [p Hp]; [lia|].
    rewrite Hp. change (default 0 (Some p)) with p. cbv zeta. destruct (p =? 0) eqn:E.
    + exists i. split; [done|]. split; [rewrite Hp; f_equal; lia|done].
    + destruct (IH (S i) h ptr) as (j' & Hj' & Hz' & Hd); [lia| |].
      { exists j. split; [|done]. destruct (decide (i = j)) as [->|]; [|lia]. rewrite Hp in Hz. injection Hz as ->. done. }
      exists j'. split; [lia|]. done.
Qed.

(** With every slot taken the pointer is lost, and counted. *)
Lemma defer_loop_full k : forall i h ptr, 0 ∉ deferred h -> length (deferred h) = (i + k)%nat -> defer_loop k i h ptr = count_leaked h.
Proof.
  induction k as [|k IH]; intros i h ptr Hno Hlen; [done|]. cbn [defer_loop]. destruct (lookup_lt_is_Some_2 (deferred h) i) as [p Hp]; [lia|]. rewrite Hp. change (default 0 (Some p)) with p.
  destruct (decide (p = 0)) as [->|Hne]; [by apply list_elem_of_lookup_2 in Hp|]. bool_if. apply IH; [done|lia].
Qed.
End spec.
