(* ===== verification/MallocAligned.v ===== *)
(** * Aligned allocation

    aligned_locked of malloc.c places a payload at a multiple of a power of
    two: the placement arithmetic, the search, the cut of the chosen block,
    and the guarantee that the second try succeeds once the heap has grown. *)

From S2P Require Import Prelude Mem Malloc MallocProofs MallocSpec.

(** ** Placement *)

Lemma is_pow2_spec n : 0 <= n < 2 ^ 64 -> is_pow2 n = true <-> exists k, 0 <= k < 64 /\ n = 2 ^ k.
Proof.
  intros Hn. unfold is_pow2. rewrite andb_true_iff, negb_true_iff, Z.eqb_neq, Z.eqb_eq. split.
  - intros [Hnz Hl]. rewrite u64_small in Hl by lia. set (k := Z.log2 n).
    assert (Hk0 : 0 <= k) by apply Z.log2_nonneg.
    pose proof (Z.log2_spec n ltac:(lia)) as [Hlo Hhi]. fold k in Hlo, Hhi.
    exists k. split; [split; [done|]; apply (Z.pow_lt_mono_r_iff 2); lia|].
    destruct (decide (n = 2 ^ k)); [done|exfalso].
    assert (Hb1 : Z.testbit n k = true) by (apply Z.bit_log2; lia).
    assert (Hb2 : Z.testbit (n - 1) k = true).
    { replace k with (Z.log2 (n - 1)) by (apply Z.log2_unique; [done|]; rewrite <- Z.add_1_r in *; lia).
      apply Z.bit_log2. lia. }
    apply (f_equal (fun v => Z.testbit v k)) in Hl. rewrite Z.land_spec, Hb1, Hb2, Z.bits_0 in Hl. done.
  - intros (k & Hk & ->). split; [pose proof (Z.pow_pos_nonneg 2 k); lia|].
    assert (0 < 2 ^ k) by (apply Z.pow_pos_nonneg; lia). rewrite u64_small by lia.
    replace (2 ^ k - 1) with (Z.ones k) by (rewrite Z.ones_equiv; lia).
    rewrite Z.land_ones by lia. apply Z.mod_same. lia.
Qed.

Section place.
Context (k want p sz : Z).
Context (Hk : 5 <= k <= 63) (Hp : 0 < p) (Hp16 : p mod 16 = 0) (Hsz : 0 <= sz)
  (Hend : p + sz < 2 ^ 48) (Hw : 0 <= want).

Lemma align_facts : 32 <= 2 ^ k /\ 2 ^ k mod 16 = 0 /\ 2 ^ k <= 2 ^ 63.
Proof.
  replace k with (5 + (k - 5)) at 1 2 by lia. rewrite Z.pow_add_r by lia.
  assert (0 < 2 ^ (k - 5)) by (apply Z.pow_pos_nonneg; lia).
  change (2 ^ 5) with 32. split; [lia|]. split; [zdm|]. apply Z.pow_le_mono_r; lia.
Qed.

(** The address the code computes: round up, and once more past a gap too small for a header. *)
Definition placed : Z :=
  let a := 2 ^ k * ((p + 2 ^ k - 1) / 2 ^ k) in
  if negb (a =? p) && (a - p <? HDR) then a + 2 ^ k else a.

Lemma placed_facts :
  placed mod 2 ^ k = 0 /\ p <= placed /\ (placed = p \/ p + HDR <= placed) /\
  placed - p <= 2 ^ k + HDR /\ placed mod 16 = 0.
Proof.
  destruct align_facts as (H1 & H2 & H3). unfold placed, HDR. set (A := 2 ^ k) in *.
  set (q := (p + A - 1) / A).
  assert (Hq : p <= A * q /\ A * q < p + A) by (unfold q; zdm).
  assert (HA : A * q mod A = 0) by (rewrite Z.mul_comm; apply Z.mod_mul; lia).
  assert (HA' : (A * q + A) mod A = 0) by (rewrite <- (Z.mul_1_r A) at 2; rewrite <- Z.mul_add_distr_l, Z.mul_comm; apply Z.mod_mul; lia).
  assert (H16 : A * q mod 16 = 0) by (rewrite Z.mul_mod, H2 by lia; done).
  assert (H16' : (A * q + A) mod 16 = 0) by zdm.
  destruct (negb (A * q =? p) && (A * q - p <? 32)) eqn:E; split_and!; try done; lia.
Qed.

Lemma aligned_place_spec :
  aligned_place (2 ^ k) want p sz = if placed + want <=? p + sz then Some placed else None.
Proof.
  destruct align_facts as (H1 & H2 & H3). pose proof placed_facts as (F1 & F2 & F3 & F4 & F5).
  unfold aligned_place. rewrite (u64_small (p + 2 ^ k - 1)) by lia. rewrite land_round_down by lia.
  unfold placed in *. set (A := 2 ^ k) in *. set (a := A * ((p + A - 1) / A)) in *.
  assert (Ha : p <= a < p + A) by (unfold a; zdm).
  assert (Ha' : A * 1 <= A * ((p + A - 1) / A)) by (apply Z.mul_le_mono_nonneg_l; [lia|]; apply Z.div_le_lower_bound; lia). fold a in Ha'. rewrite (u64_small (a - p)) by lia.
  destruct (negb (a =? p) && (a - p <? HDR)) eqn:E; [rewrite u64_small by (apply andb_prop in E as [_ E]; apply Z.ltb_lt in E; unfold HDR in E; lia)|]; repeat bcase; done || lia.
Qed.
End place.

Section aligned.
Context (brk_call : Z -> Z -> Z) (lo ceiling self : Z).
Context (Hbrk : brk_spec brk_call lo ceiling) (Hself : self <> 0).
#[local] Abbreviation hrep := (MallocProofs.hrep lo ceiling).
#[local] Abbreviation same_bytes := (MallocProofs.same_bytes lo).
#[local] Abbreviation ready := (MallocSpec.ready lo ceiling).
#[local] Abbreviation step_to := (MallocProofs.step_to lo ceiling).

Lemma aligned_fit_sim align want l : forall h p fuel,
  lseg (blocks h) p l 0 -> (length l < fuel)%nat ->
  (aligned_fit fuel h p align want = Some None /\
   forall x, x ∈ l -> afree x = true -> aligned_place align want (payload x) (asize x) = None) \/
  exists l1 x l2 a, l = l1 ++ x :: l2 /\ afree x = true /\
    aligned_fit fuel h p align want = Some (Some (addr x, a)) /\
    aligned_place align want (payload x) (asize x) = Some a.
Proof.
  induction l as [|x l IH]; intros h p [|fuel] H Hf; simpl in Hf; try lia; cbn [aligned_fit lseg] in *.
  - subst p. left. split; [done|]. intros x Hx. by apply elem_of_nil in Hx.
  - destruct H as (-> & Hnz & nx & Hx & H). bool_if. rewrite Hx. obind. cbn [bfree bsize bnext].
    change (addr x + HDR) with (payload x).
    destruct (afree x) eqn:Hfx; [destruct (aligned_place align want (payload x) (asize x)) as [a|] eqn:Ea|];
      cbn [negb]; [right; by exists [], x, l, a| |];
      (destruct (IH h nx fuel H ltac:(lia)) as [[H1 H2]|(l1 & y & l2 & b & -> & Hy)];
        [left; split; [done|]; intros y [->|Hy]%elem_of_cons; [congruence|auto]
        |right; by exists (x :: l1), y, l2, b]).
Qed.

(** Cutting a payload at [a] out of the free block [x]. *)
Lemma aligned_cut_sim h l1 x l2 a want :
  hrep h (l1 ++ x :: l2) -> afree x = true -> 0 <= want -> want mod 16 = 0 -> a mod 16 = 0 ->
  payload x <= a -> a + want <= aend x -> (a = payload x \/ payload x + HDR <= a) ->
  exists h' l', aligned_cut h (addr x) a want = Some (a, h') /\ hbrk h' = hbrk h /\
    step_to h h' (l1 ++ x :: l2) l' /\ allocated want a (l1 ++ x :: l2) l' /\
    footprint l' = footprint (l1 ++ x :: l2).
Proof.
  intros Hr Hf H0 H16 Ha16 Hpa Hae Hcase. unfold aligned_cut. change (addr x + HDR) with (payload x).
  pose proof (laid_mid _ _ _ _ _ (rep_laid _ _ _ _ Hr)) as (Hlo & Hhi & Hx16 & Hs0 & Hs16 & _).
  unfold aend, payload in *. bcase.
  - destruct (take_block_sim _ _ _ Hbrk h l1 x l2 want Hr Hf ltac:(lia) H16) as (h' & Ht & Hb & Hst).
    exists h', (l1 ++ take_list x want ++ l2). unfold payload in Ht.
    assert (Hax : addr x + HDR = a) by lia. rewrite Hax in Ht. split; [done|]. split; [done|]. split; [done|].
    split; [|by rewrite !footprint_app, take_list_footprint].
    pose proof (take_allocated _ _ h l1 x l2 want Hr Hf ltac:(lia)) as Hal.
    unfold payload in Hal. by rewrite Hax in Hal.
  - destruct (lseg_update _ _ _ _ _ _ (rep_lseg _ _ _ _ Hr)) as (nx & Hx & _). rewrite Hx. obind.
    cbn [bsize bfree bmagic bnext]. destruct Hcase as [|Hge]; [lia|].
    pose proof (rep_brk _ _ _ _ Hr). pose proof (ceiling_user _ _ _ Hbrk). pose proof (lo_pos _ _ _ Hbrk).
    rewrite !u64_small by mlia. rewrite new_block_mapped by (eapply mapped_sub; [apply (rep_mapped _ _ _ _ Hr)|mlia..]). obind. set (sz := a - (addr x + HDR) - HDR).
    destruct (cut_sim _ _ _ Hbrk h l1 x l2 sz nx Hr) as [Hr1 Hs1]; [unfold sz; mlia|unfold sz, HDR in *; zdm|unfold sz; mlia|done|].
    unfold cut_heap, cut_list in *.
    replace (addr x + HDR + sz) with (a - HDR) in * by (unfold sz; lia).
    replace (asize x - sz - HDR) with (asize x - (a - (addr x + HDR))) in * by (unfold sz; lia).
    set (X := mkAblk (addr x) sz (afree x) (amagic x)) in *.
    set (R := mkAblk (a - HDR) (asize x - (a - (addr x + HDR))) true BLOCK_MAGIC) in *.
    assert (EL : l1 ++ [X; R] ++ l2 = (l1 ++ [X]) ++ R :: l2) by (by rewrite <- app_assoc).
    rewrite EL in Hr1, Hs1.
    destruct (take_block_sim _ _ _ Hbrk _ (l1 ++ [X]) R l2 want Hr1 eq_refl) as (h' & Ht & Hb & Hst);
      [simpl; lia|done|]. unfold payload in Ht. simpl in Ht. replace (a - HDR + HDR) with a in Ht by lia.
    eexists h', _. split; [exact Ht|]. split; [done|].
    assert (Hlv : live ((l1 ++ [X]) ++ R :: l2) = live (l1 ++ x :: l2)).
    { rewrite <- app_assoc, !live_app. simpl. by rewrite Hf. }
    split; [|split].
    + eapply step_to_trans; [|exact Hst|]; [split; [done|]; split; [done|]|unfold live_at; by rewrite Hlv].
      eapply same_bytes_incl; [|exact Hs1]. intros k0. unfold live_at. by rewrite Hlv.
    + destruct (take_allocated _ _ _ (l1 ++ [X]) R l2 want Hr1 eq_refl) as (A & B & n & E1 & E2 & E3); [simpl; lia|].
      exists A, B, n. rewrite Hlv in E1. unfold payload in E2. simpl in E2.
      replace (a - HDR + HDR) with a in E2 by lia. done.
    + rewrite !footprint_app, take_list_footprint. simpl. unfold sz. lia.
Qed.

(** A placement found in a block of the heap can be cut. *)
Lemma aligned_found h l1 x l2 k a want :
  hrep h (l1 ++ x :: l2) -> afree x = true -> 5 <= k <= 63 -> 0 <= want -> want mod 16 = 0 ->
  aligned_place (2 ^ k) want (payload x) (asize x) = Some a ->
  exists h' l', aligned_cut h (addr x) a want = Some (a, h') /\ a <> 0 /\ a mod 2 ^ k = 0 /\
    step_to h h' (l1 ++ x :: l2) l' /\ allocated want a (l1 ++ x :: l2) l' /\
    footprint l' - footprint (l1 ++ x :: l2) = hbrk h' - hbrk h.
Proof.
  intros Hr Hf Hk H0 H16 Hpl.
  pose proof (laid_mid _ _ _ _ _ (rep_laid _ _ _ _ Hr)) as (Hlo & Hhi & Hx16 & Hs0 & Hs16 & _).
  pose proof (rep_brk _ _ _ _ Hr). pose proof (ceiling_user _ _ _ Hbrk). pose proof (lo_pos _ _ _ Hbrk).
  assert (Hp16 : payload x mod 16 = 0) by (unfold payload, HDR; zdm).
  assert (Hp0 : 0 < payload x) by (unfold payload, HDR; lia). unfold aend in Hhi.
  assert (Hend : payload x + asize x < 2 ^ 48) by (unfold payload; lia).
  rewrite (aligned_place_spec k want _ _ Hk Hp0 Hp16 Hs0 Hend H0) in Hpl.
  pose proof (placed_facts k (payload x) Hk Hp0 Hp16) as (F1 & F2 & F3 & F4 & F5).
  destruct (_ <=? _) eqn:E in Hpl; [|done]. injection Hpl as <-.
  destruct (aligned_cut_sim h l1 x l2 (placed k (payload x)) want Hr Hf H0 H16 F5 F2)
    as (h' & l' & Hc & Hb & Hst & Ha & Hft); [unfold aend, payload in *; lia|done|].
  exists h', l'. split; [done|]. split; [lia|]. split; [done|]. split; [done|]. split; [done|]. lia.
Qed.

Lemma aligned_locked_sim h l k want :
  hrep h l -> 5 <= k <= 63 -> 0 <= want -> want mod 16 = 0 -> want + 2 ^ k + 79 + (hbrk h - lo) < 2 ^ 64 ->
  aligned_locked brk_call h (2 ^ k) want = Some (0, h) \/
  exists a h' l', aligned_locked brk_call h (2 ^ k) want = Some (a, h') /\ a <> 0 /\ a mod 2 ^ k = 0 /\
    step_to h h' l l' /\ allocated want a l l' /\ footprint l' - footprint l = hbrk h' - hbrk h.
Proof.
  intros Hr Hk H0 H16 Hb. unfold aligned_locked. cbn [aligned_tries].
  destruct (aligned_fit_sim (2 ^ k) want l h (heap_head h) (list_fuel h) (rep_lseg _ _ _ _ Hr) (rep_fuel _ _ _ _ Hr))
    as [[-> Hno]|(l1 & x & l2 & a & -> & Hf & -> & Hpl)]; obind.
  2:{ right. destruct (aligned_found h l1 x l2 k a want Hr Hf Hk H0 H16 Hpl) as (h' & l' & Hc & ?).
      exists a, h', l'. done. }
  assert (Hpow : 0 < 2 ^ k) by (apply Z.pow_pos_nonneg; lia). pose proof (rep_brk _ _ _ _ Hr) as Hbr0.
  rewrite u64_small by (unfold HDR; lia).
  destruct (grow_sim _ _ _ Hbrk h l (want + 2 ^ k + HDR) Hr ltac:(unfold HDR; lia) ltac:(unfold HDR; lia))
    as [->|(h1 & -> & Hr1 & Hb1 & Hc1 & Hs1)]; obind; [by left|].
  pose proof (rep_brk _ _ _ _ Hr). pose proof (lo_pos _ _ _ Hbrk). bool_if. right.
  pose proof (grow_ask_bounds (want + 2 ^ k + HDR) ltac:(unfold HDR; lia)) as (Ha & [Ha2 _] & _).
  set (y := mkAblk (hbrk h) (grow_ask (want + 2 ^ k + HDR) - HDR) true BLOCK_MAGIC) in *.
  assert (Hlv : live (l ++ [y]) = live l) by (rewrite live_app; simpl; by rewrite app_nil_r).
  destruct (aligned_fit_sim (2 ^ k) want (l ++ [y]) h1 (heap_head h1) (list_fuel h1)
    (rep_lseg _ _ _ _ Hr1) (rep_fuel _ _ _ _ Hr1)) as [[_ Hno1]|(l1 & x & l2 & a & E & Hf & -> & Hpl)]; obind.
  - exfalso. pose proof (laid_mid _ _ _ _ _ (rep_laid _ _ _ _ Hr1)) as (Hlo & Hhi & Hx16 & Hs0 & Hs16 & _).
    pose proof (rep_brk _ _ _ _ Hr1). pose proof (ceiling_user _ _ _ Hbrk). unfold aend in Hhi.
    assert (Hy : aligned_place (2 ^ k) want (payload y) (asize y) = None).
    { apply Hno1; [|done]. apply elem_of_app. right. apply list_elem_of_here. }
    assert (Hp16 : payload y mod 16 = 0) by (unfold payload, HDR; zdm).
    assert (Hp0 : 0 < payload y) by (unfold payload, HDR; simpl; lia).
    rewrite aligned_place_spec in Hy; try (done || lia || (unfold payload, HDR in *; lia)).
    pose proof (placed_facts k (payload y) Hk Hp0 Hp16) as (F1 & F2 & F3 & F4 & F5).
    destruct (_ <=? _) eqn:E in Hy; [done|]. simpl in E. lia.
  - rewrite E in Hr1. destruct (aligned_found h1 l1 x l2 k a want Hr1 Hf Hk H0 H16 Hpl)
      as (h' & l' & Hc & Hn & Hm & Hst & (A & B & n & EA & EB & Hn2) & Hft).
    rewrite <- E in *. exists a, h', l'. split; [done|]. split; [done|]. split; [done|].
    split; [|split].
    + eapply step_to_trans; [|exact Hst|]; [by split|unfold live_at; by rewrite Hlv].
    + exists A, B, n. by rewrite <- Hlv.
    + rewrite footprint_app in Hft. simpl in Hft. lia.
Qed.

(** ** Entry points *)

(** The alignments and sizes that can be asked for together: growing the heap
    takes both. *)
Definition sound_aligned (h : heap) (align size : Z) : Prop :=
  size + align + 96 + (hbrk h - lo) <= 2 ^ 64 \/ 2 ^ 64 <= size + align.

(** A fresh payload at a multiple of [align]. *)
Definition aligned_result (align size : Z) (h : heap) (l : list ablk) (p : Z) (h' : heap) : Prop :=
  exists l', p <> 0 /\ p mod align = 0 /\ ready h' l' /\ fresh_payload h' l l' size p /\ same_bytes l h h' /\
    footprint l' - footprint l = hbrk h' - hbrk h.

Lemma aligned_alloc_impl_spec h l k size :
  ready h l -> 0 <= k <= 63 -> is_u64 size -> sound_aligned h (2 ^ k) size ->
  (exists h', aligned_alloc_impl brk_call self h (2 ^ k) size = Some (ENOMEM, 0, h') /\
     (h' = h \/ h' = set_errno self ENOMEM h)) \/
  exists p h', aligned_alloc_impl brk_call self h (2 ^ k) size = Some (0, p, h') /\
    aligned_result (2 ^ k) size h l p h'.
Proof.
  intros Hrd Hk [H0 H0'] Hb. unfold sound_aligned in Hb. assert (Hpow : 0 < 2 ^ k) by (apply Z.pow_pos_nonneg; lia). assert (Hp63 : 2 ^ k <= 2 ^ 63) by (apply Z.pow_le_mono_r; lia). pose proof (rep_brk _ _ _ _ (proj1 Hrd)) as Hbr.
  unfold aligned_alloc_impl, ALIGN. destruct (decide (k <= 4)) as [Hk4|Hk4].
  - assert (Hp16 : 2 ^ k <= 2 ^ 4) by (apply Z.pow_le_mono_r; lia). change (2 ^ 4) with 16 in Hp16. bool_if.
    destruct (malloc_spec _ _ _ _ Hbrk Hself h l size Hrd)
      as [->|(p & h' & l' & -> & Hp & Hrd' & Hfr & Hs & Hft)]; obind.
    + split; [done|]. change SIZE_LIMIT with 18446744073709551568. lia.
    + left. exists (set_errno self ENOMEM h). auto.
    + right. bool_if. exists p, h'. split; [done|]. exists l'. split; [done|]. split; [|done].
      destruct Hfr as [Hm _]. apply Z.mod_divide in Hm; [|lia]. apply Z.mod_divide; [lia|].
      transitivity 16; [|done]. exists (2 ^ (4 - k)). rewrite <- Z.pow_add_r by lia.
      by replace (4 - k + k) with 4 by lia.
  - assert (Hp5 : 2 ^ 5 <= 2 ^ k) by (apply Z.pow_le_mono_r; lia). change (2 ^ 5) with 32 in Hp5. bool_if.
    change SIZE_LIMIT with 18446744073709551568. unfold HDR. rewrite !u64_small by lia. destruct Hb as [Hb|Hb]; [|left; exists h; bool_if; auto]. bool_if.
    destruct (want_bounds _ _ _ Hbrk h l size (proj1 Hrd) H0 ltac:(lia)) as (Hw1 & Hw2 & Hw3 & Hw4).
    destruct (acquire_ready _ _ _ Hself _ _ Hrd) as [-> Hr]. obind. cbn [negb]. destruct Hrd as (_ & Ho & Hd).
    destruct (aligned_locked_sim _ _ k (align_up (if size =? 0 then 1 else size)) Hr
      ltac:(lia) ltac:(lia) Hw2 ltac:(simpl; lia)) as [->|(p & h2 & l' & -> & Hp & Hm & (Hr2 & Hc & Hs) & Ha & Hft)]; obind.
    + left. rewrite heap_release_empty by done. obind. rewrite set_owner_back by done. exists h. auto.
    + right. destruct (release_ready lo ceiling h h2 l' Hd Hr2) as [-> Hrd]; [apply Hc|]. obind.
      bool_if. exists p, (set_owner 0 h2). split; [done|]. exists l'. split; [done|]. split; [done|].
      split; [done|]. split; [eapply allocated_fresh; [apply Hrd|done|lia]|]. done.
Qed.
End aligned.
