(* ===== verification/MallocHeap.v ===== *)
(** * The allocator in place

    malloc.c on top of the kernel's brk: the brk of brk.zig meets what the
    allocator needs of it, the empty heap a process starts with satisfies the
    invariant, every sequence of calls keeps it, and the allocator provides
    the interface of [Alloc]. *)

From stdpp Require Import relations.
From S2P Require Import Prelude Mem Alloc Malloc MallocProofs MallocSpec MallocAligned.

(** ** The kernel's brk *)

(** The addresses of a process: its heap starts at a 16-aligned [lo] and stays below
    [ceiling]; [self] identifies the thread. *)
Record layout (lo ceiling self : Z) : Prop := {
  lay_lo : 0 < lo;
  lay_align : lo mod 16 = 0;
  lay_ceiling : lo <= ceiling;
  lay_user : ceiling < 2 ^ 47;
  lay_self : self <> 0;
}.

Lemma sys_brk_spec grow_ok lo ceiling :
  0 < lo -> lo mod 16 = 0 -> ceiling < 2 ^ 47 -> brk_spec (sys_brk grow_ok lo ceiling) lo ceiling.
Proof.
  intros Hlo Hal Hc. constructor; try done; unfold sys_brk; intros cur.
  - intros a. destruct (a =? 0), ((lo =? 0) || (cur =? 0)), (a <? lo), (ceiling <? a),
      (page_ceil cur <? page_ceil a), (grow_ok cur a); auto.
  - intros a. destruct (ceiling <? a) eqn:E; repeat bcase; lia.
  - intros a Ha. repeat bcase; done || lia.
Qed.

(** The heap before the first call. *)
Definition init_heap (lo : Z) (m : mem) : heap := mkHeap 0 ∅ m lo 0 (replicate DEFERRED_MAX 0) 0 0 0.

(** The block list of a heap, read off the headers. *)
Fixpoint walk (fuel : nat) (B : gmap Z block) (p : Z) : list ablk :=
  match fuel with
  | O => []
  | S f =>
      if p =? 0 then []
      else match B !! p with
           | Some x => mkAblk p (bsize x) (bfree x) (bmagic x) :: walk f B (bnext x)
           | None => []
           end
  end.

Definition blist (h : heap) : list ablk := walk (list_fuel h) (blocks h) (heap_head h).

Lemma walk_lseg B l : forall p fuel, lseg B p l 0 -> (length l < fuel)%nat -> walk fuel B p = l.
Proof.
  induction l as [|x l IH]; intros p [|fuel] H Hf; simpl in Hf; try lia; cbn [walk lseg] in *.
  - by subst p.
  - destruct H as (-> & Hnz & nx & Hx & H). bool_if. rewrite Hx. simpl.
    rewrite (IH nx) by (done || lia). by destruct x.
Qed.

Lemma blist_rep lo ceiling h l : hrep lo ceiling h l -> blist h = l.
Proof. intros Hr. apply walk_lseg; [apply Hr|by eapply rep_fuel]. Qed.

(** ** Any sequence of calls *)

Section heap.
Context (grow_ok : Z -> Z -> bool) (lo ceiling self : Z).
#[local] Abbreviation kbrk := (sys_brk grow_ok lo ceiling).
#[local] Abbreviation ready := (MallocSpec.ready lo ceiling).

(** What a program may do: call the allocator with any pointers, any alignments and any sizes but
    those that would move the break down, and write inside its live payloads. *)
Inductive heap_step (h : heap) : heap -> Prop :=
  | step_malloc size p h' : sound_size lo h size -> malloc kbrk self h size = Some (p, h') -> heap_step h h'
  | step_calloc n size p h' : sound_product lo h n size ->
      calloc kbrk self h n size = Some (p, h') -> heap_step h h'
  | step_realloc ptr size p h' : sound_size lo h size -> realloc kbrk self h ptr size = Some (p, h') -> heap_step h h'
  | step_free ptr h' : free self h ptr = Some h' -> heap_step h h'
  | step_memalign align size rc p h' : is_u64 align -> is_u64 size -> sound_aligned lo h align size ->
      posix_memalign kbrk self h align size = Some (rc, p, h') -> heap_step h h'
  | step_write p n a bs : (p, n) ∈ live (blist h) -> p <= a -> a + len bs <= p + n ->
      heap_step h (set_raw (write_bytes (raw h) a bs) h).

Context (Hlay : layout lo ceiling self).

Lemma kbrk_spec : brk_spec kbrk lo ceiling.
Proof. apply sys_brk_spec; apply Hlay. Qed.

Lemma init_ready m : (forall k, lo <= k < ceiling -> m !! k = None) -> ready (init_heap lo m) [].
Proof.
  intros Hm. destruct Hlay. split; [|done]. constructor; simpl; try done; try lia.
  intros k Hk. lia.
Qed.

(** A request below 2^63 can always be asked for. *)
Lemma request_sound h l n : ready h l -> request n -> sound_size lo h n.
Proof.
  intros Hrd [H0 H1]. pose proof (rep_brk _ _ _ _ (proj1 Hrd)). destruct Hlay. split; [split; lia|]. left. lia.
Qed.

Lemma ready_rejected h l : ready h l -> ready (count_rejected h) l.
Proof. intros (Hr & Ho & Hd). split; [eapply hrep_ctl; [| | | |exact Hr]; done|done]. Qed.

#[local] Hint Resolve kbrk_spec lay_self : core.

Lemma free_any h l ptr : ready h l -> exists h' l', free self h ptr = Some h' /\ ready h' l'.
Proof.
  intros Hrd. destruct (decide (ptr = 0)) as [->|Hp]; [by exists h, l|].
  destruct (free_spec _ _ _ _ kbrk_spec (lay_self _ _ _ Hlay) h l ptr Hrd Hp)
    as [[E _]|(h' & l' & E & Hrd' & _)]; [|by exists h', l'].
  exists (count_rejected h), l. split; [done|]. by apply ready_rejected.
Qed.

(** A pointer that is not a live payload is rejected with EINVAL. *)
Lemma realloc_reject h l ptr size :
  ready h l -> ptr <> 0 -> ptr ∉ (live l).*1 -> 0 < size <= SIZE_LIMIT ->
  realloc kbrk self h ptr size = Some (0, set_errno self EINVAL (count_rejected h)).
Proof.
  intros Hrd Hp Hno [H0 Hrq]. unfold realloc. repeat bool_if.
  destruct (acquire_ready _ _ _ (lay_self _ _ _ Hlay) _ _ Hrd) as [-> Hr]. obind. cbn [negb].
  unfold realloc_locked, find_live.
  destruct (find_payload_sim ptr l _ _ (set_owner self h) _ (list_fuel (set_owner self h))
    (rep_laid _ _ _ _ Hr) (rep_lseg _ _ _ _ Hr) (rep_fuel _ _ _ _ Hr))
    as [[-> _]|(l1 & x & l2 & -> & _ & Hpx & Hfx & _)]; obind.
  - rewrite Z.eqb_refl. obind. destruct Hrd as (_ & Ho & Hd). rewrite heap_release_empty by done. obind.
    rewrite Z.eqb_refl. do 3 f_equal. destruct h; simpl in *; by subst.
  - exfalso. apply Hno. rewrite live_app. simpl. rewrite Hfx, fmap_app, elem_of_app, fmap_cons, Hpx.
    right. apply list_elem_of_here.
Qed.

Lemma malloc_any h l size : ready h l -> sound_size lo h size ->
  exists p h' l', malloc kbrk self h size = Some (p, h') /\ ready h' l'.
Proof.
  intros Hrd Hs.
  destruct (malloc_spec _ _ _ _ kbrk_spec (lay_self _ _ _ Hlay) h l size Hrd Hs)
    as [E|(p & h' & l' & E & _ & Hrd' & _)]; [|by exists p, h', l'].
  exists 0, (set_errno self ENOMEM h), l. split; [done|]. by apply ready_errno.
Qed.

Lemma realloc_any h l ptr size : ready h l -> sound_size lo h size ->
  exists p h' l', realloc kbrk self h ptr size = Some (p, h') /\ ready h' l'.
Proof.
  intros Hrd Hrq. destruct (decide (ptr = 0)) as [->|Hp].
  { destruct (malloc_any h l size Hrd Hrq) as (p & h' & l' & E & ?). by exists p, h', l'. }
  destruct (decide (size = 0)) as [->|Hs].
  { destruct (free_any h l ptr Hrd) as (h' & l' & E & ?). exists 0, h', l'. split; [|done].
    unfold realloc. repeat bool_if. by rewrite E. }
  pose proof (proj1 Hrq) as [H0 H1]. destruct (decide (ptr ∈ (live l).*1)) as [Hin|Hno].
  - apply list_elem_of_fmap in Hin as ([q n] & -> & Hin).
    destruct (realloc_spec _ _ _ _ kbrk_spec (lay_self _ _ _ Hlay) h l q n size Hrd Hin ltac:(lia) Hrq)
      as (rest & p & h' & l' & _ & E & Hrd' & _). by exists p, h', l'.
  - destruct (decide (size <= SIZE_LIMIT)) as [Hle|Hgt].
    2:{ exists 0, (set_errno self ENOMEM h), l. split; [|by apply ready_errno]. unfold realloc. repeat bool_if. done. }
    exists 0, (set_errno self EINVAL (count_rejected h)), l. split.
    + apply (realloc_reject h l); try done. lia.
    + by apply ready_errno, ready_rejected.
Qed.

Lemma calloc_any h l n size : ready h l -> sound_product lo h n size ->
  exists p h' l', calloc kbrk self h n size = Some (p, h') /\ ready h' l'.
Proof.
  intros Hrd (Hn & Hs & [Hov|H1]).
  { exists 0, (set_errno self ENOMEM h), l. split; [|by apply ready_errno]. unfold calloc. by rewrite calloc_overflow_test. }
  destruct (calloc_spec _ _ _ _ kbrk_spec (lay_self _ _ _ Hlay) h l n size Hrd Hn Hs H1)
    as [E|(p & h' & l' & E & _ & Hrd' & _)]; [|by exists p, h', l'].
  exists 0, (set_errno self ENOMEM h), l. split; [done|]. by apply ready_errno.
Qed.

Lemma memalign_any h l align size : ready h l -> is_u64 align -> is_u64 size -> sound_aligned lo h align size ->
  exists rc p h' l', posix_memalign kbrk self h align size = Some (rc, p, h') /\ ready h' l'.
Proof.
  intros Hrd Ha H0 H1. unfold posix_memalign.
  destruct (is_pow2 align) eqn:Ep; cbn [negb orb]; [|by exists EINVAL, None, h, l].
  destruct (align mod 8 =? 0); cbn [negb]; [|by exists EINVAL, None, h, l].
  apply is_pow2_spec in Ep as (k & Hk & ->); [|done].
  destruct (aligned_alloc_impl_spec _ _ _ _ kbrk_spec (lay_self _ _ _ Hlay) h l k size Hrd ltac:(lia) H0 H1)
    as [(h' & -> & Hh')|(p & h' & -> & l' & _ & _ & Hrd' & _)]; obind; [|by exists 0, (Some p), h', l'].
  exists ENOMEM, None, h', l. split; [done|]. destruct Hh' as [->| ->]; [done|by apply ready_errno].
Qed.

Lemma step_ready h h' l : ready h l -> heap_step h h' -> exists l', ready h' l'.
Proof.
  intros Hrd Hst. destruct Hst as [size p h' Hrq E|n size p h' Hrq E|ptr size p h' Hrq E|ptr h' E|align size rc p h' Hk H0 Hrq E|p n a bs Hin Ha Hb].
  - destruct (malloc_any h l size Hrd Hrq) as (? & ? & l' & E' & ?). exists l'. congruence.
  - destruct (calloc_any h l n size Hrd Hrq) as (? & ? & l' & E' & ?). exists l'. congruence.
  - destruct (realloc_any h l ptr size Hrd Hrq) as (? & ? & l' & E' & ?). exists l'. congruence.
  - destruct (free_any h l ptr Hrd) as (? & l' & E' & ?). exists l'. congruence.
  - destruct (memalign_any h l align size Hrd Hk H0 Hrq) as (? & ? & ? & l' & E' & ?). exists l'. congruence.
  - exists l. destruct Hrd as (Hr & ? & ?). split; [|done]. rewrite (blist_rep _ _ _ _ Hr) in Hin.
    pose proof (live_aligned _ _ _ _ _ (rep_laid _ _ _ _ Hr) Hin) as (_ & Hb1 & Hb2).
    apply hrep_write; [done|mlia|mlia].
Qed.

Lemma reachable_ready m h :
  (forall k, lo <= k < ceiling -> m !! k = None) -> rtc heap_step (init_heap lo m) h -> exists l, ready h l.
Proof.
  intros Hm Hrt. assert (Hi : exists l, ready (init_heap lo m) l) by (exists []; by apply init_ready).
  revert Hi. generalize (init_heap lo m) Hrt. clear - Hlay. induction 1 as [|h1 h2 h3 Hst _ IH]; [done|].
  intros [l Hrd]. apply IH. by eapply step_ready.
Qed.

(** ** The interface of [Alloc] *)

(** What the program sees: everything outside the heap segment, and the live payloads. *)
Definition visible (h : heap) (k : Z) : bool :=
  (k <? lo) || (ceiling <=? k) || existsb (fun b => (b.1 <=? k) && (k <? b.1 + b.2)) (live (blist h)).

Definition heap_mem (h : heap) : mem := filter (fun kv => visible h kv.1 = true) (raw h).

#[export] Instance Malloc_Allocator : Allocator heap := {
  hmem := heap_mem;
  hblocks h := live (blist h);
  hwrite h m := set_raw (m ∪ raw h) h;
  hmalloc h n := default (0, h) (malloc kbrk self h n);
  hfree h p := default h (free self h p);
}.

Lemma visible_spec h k :
  visible h k = true <-> k < lo \/ ceiling <= k \/ live_at (blist h) k.
Proof.
  unfold visible. rewrite !orb_true_iff, existsb_exists. unfold live_at. split.
  - intros [[|]|([p n] & Hin & Hk)]; [lia|lia|]. right. right. exists p, n.
    split; [by apply list_elem_of_In|]. simpl in Hk. lia.
  - intros [|[|(p & n & Hin & Hk)]]; [left; left; lia|left; right; lia|right].
    exists (p, n). split; [by apply list_elem_of_In|]. simpl. lia.
Qed.

Lemma heap_mem_lookup h k : heap_mem h !! k = if visible h k then raw h !! k else None.
Proof.
  unfold heap_mem. rewrite map_lookup_filter.
  destruct (raw h !! k) as [v|]; cbn [mbind option_bind fst]; [|by destruct (visible h k)].
  destruct (visible h k) eqn:E; [by rewrite option_guard_True|by rewrite option_guard_False].
Qed.

Lemma blist_errno h e : blist (set_errno self e h) = blist h.
Proof. unfold set_errno. by destruct (negb (self =? 1)). Qed.

Lemma heap_mem_errno h e : heap_mem (set_errno self e h) = heap_mem h.
Proof. unfold heap_mem, set_errno. by destruct (negb (self =? 1)). Qed.

(** The bytes an allocator operation leaves alone are the same to the program. *)
Lemma visible_same h h' l l' l2 k :
  ready h l -> ready h' l' -> same_bytes lo l2 h h' -> hbrk h' <= ceiling ->
  (live_at l k <-> live_at l' k) -> (live_at l k -> live_at l2 k) -> heap_mem h' !! k = heap_mem h !! k.
Proof.
  intros Hrd Hrd' Hs Hb Hk Hl2. rewrite !heap_mem_lookup.
  assert (Hv : visible h' k = visible h k).
  { apply eq_true_iff_eq. rewrite !visible_spec, (blist_rep _ _ _ _ (proj1 Hrd)), (blist_rep _ _ _ _ (proj1 Hrd')). tauto. }
  rewrite Hv. destruct (visible h k) eqn:E; [|done]. apply (proj2 Hs).
  apply visible_spec in E. rewrite (blist_rep _ _ _ _ (proj1 Hrd)) in E.
  destruct E as [|[|]]; [by right; left|right; right; lia|left; auto].
Qed.

Lemma live_at_perm l l' p n k :
  live l' ≡ₚ (p, n) :: live l -> live_at l' k <-> p <= k < p + n \/ live_at l k.
Proof.
  intros Hp. unfold live_at. split.
  - intros (q & m & Hin & Hk). rewrite Hp in Hin. apply elem_of_cons in Hin as [[= -> ->]|Hin]; [by left|].
    right. by exists q, m.
  - intros [Hk|(q & m & Hin & Hk)]; [exists p, n|exists q, m]; (split; [|done]); rewrite Hp.
    + apply list_elem_of_here.
    + by apply list_elem_of_further.
Qed.

Lemma live_visible h l p n k :
  ready h l -> (p, n) ∈ live l -> p <= k < p + n -> heap_mem h !! k = raw h !! k.
Proof.
  intros Hrd Hin Hk. rewrite heap_mem_lookup.
  assert (Hv : visible h k = true); [|by rewrite Hv].
  apply visible_spec. rewrite (blist_rep _ _ _ _ (proj1 Hrd)). right. right. by exists p, n.
Qed.

Lemma not_live_hidden h l k :
  ready h l -> lo <= k < ceiling -> ~ live_at l k -> heap_mem h !! k = None.
Proof.
  intros Hrd Hk Hl. rewrite heap_mem_lookup. destruct (visible h k) eqn:Hv; [|done].
  apply visible_spec in Hv. rewrite (blist_rep _ _ _ _ (proj1 Hrd)) in Hv. destruct Hv as [|[|]]; [lia|lia|done].
Qed.

Lemma mem_blocks_mapped h l p n :
  ready h l -> (p, n) ∈ live l -> p <> 0 /\ mapped (heap_mem h) p n.
Proof.
  intros Hrd Hin. pose proof (live_aligned _ _ _ _ _ (rep_laid _ _ _ _ (proj1 Hrd)) Hin) as (_ & Hb1 & Hb2).
  pose proof (lay_lo _ _ _ Hlay). split; [mlia|]. intros k Hk. rewrite (live_visible _ _ _ _ _ Hrd Hin Hk).
  by apply (live_mapped lo ceiling h l p n (proj1 Hrd) Hin).
Qed.

Lemma mem_blocks_range h l p n : ready h l -> (p, n) ∈ live l -> 0 < p /\ p + n <= 2 ^ 47.
Proof.
  intros Hrd Hin. pose proof (live_aligned _ _ _ _ _ (rep_laid _ _ _ _ (proj1 Hrd)) Hin) as (_ & Hb1 & Hb2).
  pose proof (lay_lo _ _ _ Hlay). pose proof (lay_user _ _ _ Hlay). pose proof (rep_brk _ _ _ _ (proj1 Hrd)). mlia.
Qed.

Lemma mem_write_ready h l m :
  ready h l -> dom m = dom (heap_mem h) -> ready (set_raw (m ∪ raw h) h) l.
Proof.
  intros (Hr & Ho & Hd) Hdom. split; [|done]. destruct Hr as [H1 H2 H3 H4 H5 H6].
  constructor; try done; simpl.
  - intros k Hk. apply lookup_union_is_Some. right. by apply H5.
  - intros k Hk. apply lookup_union_None. split; [|by apply H6]. apply not_elem_of_dom.
    rewrite Hdom. apply not_elem_of_dom. rewrite heap_mem_lookup. rewrite H6 by done. by destruct (visible h k).
Qed.

Lemma mem_write_mem h m : dom m = dom (heap_mem h) -> heap_mem (set_raw (m ∪ raw h) h) = m.
Proof.
  intros Hdom. apply map_eq. intros k. rewrite heap_mem_lookup. simpl.
  change (visible (set_raw (m ∪ raw h) h) k) with (visible h k).
  destruct (m !! k) as [v|] eqn:E.
  - assert (Hin : k ∈ dom (heap_mem h)) by (rewrite <- Hdom; by eapply elem_of_dom_2).
    apply elem_of_dom in Hin as [w Hw]. rewrite heap_mem_lookup in Hw.
    destruct (visible h k); [|done]. by rewrite (lookup_union_Some_l _ _ _ v).
  - assert (Hn : heap_mem h !! k = None) by (apply not_elem_of_dom; rewrite <- Hdom; by apply not_elem_of_dom).
    rewrite heap_mem_lookup in Hn. destruct (visible h k); [|done]. by rewrite lookup_union_r.
Qed.

Lemma mem_malloc h l size : ready h l -> request size ->
  exists p h' l', malloc kbrk self h size = Some (p, h') /\ ready h' l' /\
    alloc_effect size p h h'.
Proof.
  intros Hrd Hrq.
  destruct (malloc_spec _ _ _ _ kbrk_spec (lay_self _ _ _ Hlay) h l size Hrd (request_sound _ _ _ Hrd Hrq))
    as [E|(p & h' & l' & E & Hp & Hrd' & (_ & n & Hn & Hm & Hperm & Hdis) & Hs & _)].
  { exists 0, (set_errno self ENOMEM h), l. split; [done|]. split; [by apply ready_errno|].
    left. split; [done|]. simpl. by rewrite heap_mem_errno, blist_errno. }
  exists p, h', l'. split; [done|]. split; [done|]. right. split; [done|]. exists n. simpl.
  rewrite (blist_rep _ _ _ _ (proj1 Hrd)), (blist_rep _ _ _ _ (proj1 Hrd')).
  assert (Hin : (p, n) ∈ live l') by (rewrite Hperm; apply list_elem_of_here).
  pose proof (live_aligned _ _ _ _ _ (rep_laid _ _ _ _ (proj1 Hrd')) Hin) as (_ & Hb1 & Hb2).
  pose proof (rep_brk _ _ _ _ (proj1 Hrd')) as Hbr.
  split; [done|]. split; [done|]. split; [by eapply mem_blocks_mapped|]. split.
  - intros k Hk. eapply not_live_hidden; [done|mlia|]. intros (q & m & Hq & Hkq).
    pose proof (Hdis q m Hq). lia.
  - intros k Hk. eapply visible_same; [done|done|done|lia| |done]. rewrite (live_at_perm _ _ _ _ _ Hperm).
    split; [auto|]. intros [|]; [lia|done].
Qed.

Lemma mem_free h l p n : ready h l -> (p, n) ∈ live l ->
  exists h' l', free self h p = Some h' /\ ready h' l' /\ free_effect p n h h'.
Proof.
  intros Hrd Hin. destruct (mem_blocks_mapped _ _ _ _ Hrd Hin) as [Hp _].
  destruct (free_spec _ _ _ _ kbrk_spec (lay_self _ _ _ Hlay) h l p Hrd Hp)
    as [[_ Hno]|(h' & l' & E & Hrd' & (A & B & n' & EA & EB) & _ & _ & Hb & Hs & _)]; [by apply Hno in Hin|].
  assert (n' = n) as ->.
  { eapply live_unique; [apply (rep_laid _ _ _ _ (proj1 Hrd))| |exact Hin]. rewrite EA. apply elem_of_app. right.
    apply list_elem_of_here. }
  assert (Hperm : live l ≡ₚ (p, n) :: live l') by (rewrite EA, EB; symmetry; apply Permutation_middle).
  exists h', l'. split; [done|]. split; [done|]. unfold free_effect. simpl.
  rewrite (blist_rep _ _ _ _ (proj1 Hrd)), (blist_rep _ _ _ _ (proj1 Hrd')). split; [done|].
  pose proof (live_aligned _ _ _ _ _ (rep_laid _ _ _ _ (proj1 Hrd)) Hin) as (_ & Hb1 & Hb2).
  pose proof (rep_brk _ _ _ _ (proj1 Hrd)) as Hbr. split.
  - intros k Hk. eapply not_live_hidden; [done|mlia|]. intros (q & m & Hq & Hkq).
    assert (Hne : (p, n) <> (q, m)).
    { intros [= <- <-]. pose proof (live_nodup _ _ _ (rep_laid _ _ _ _ (proj1 Hrd))) as HN.
      rewrite Hperm in HN. by apply NoDup_cons in HN as [? _]. }
    assert (Hq' : (q, m) ∈ live l) by (rewrite Hperm; by apply list_elem_of_further).
    pose proof (live_sep _ _ _ _ _ _ _ (rep_laid _ _ _ _ (proj1 Hrd)) Hin Hq' Hne). lia.
  - intros k Hk. assert (Hiff : live_at l k <-> live_at l' k).
    { rewrite (live_at_perm _ _ _ _ _ Hperm). split; [intros [|]; [lia|done]|auto]. }
    eapply visible_same; [done|done|done|lia|done|tauto].
Qed.

#[export] Instance Malloc_Laws : AllocatorLaws heap.
Proof.
  refine {| hinv := fun h => exists l, ready h l |}.
  - intros h p n [l Hrd]. simpl. rewrite (blist_rep _ _ _ _ (proj1 Hrd)). by apply mem_blocks_mapped.
  - intros h p n [l Hrd]. simpl. rewrite (blist_rep _ _ _ _ (proj1 Hrd)). by eapply mem_blocks_range.
  - intros h m [l Hrd] Hd. exists l. by apply mem_write_ready.
  - intros h m _ Hd. by apply mem_write_mem.
  - done.
  - intros h n p h' [l Hrd] Hrq. destruct (mem_malloc h l n Hrd Hrq) as (p1 & h1 & l1 & E & Hrd1 & _).
    simpl. rewrite E. intros [= <- <-]. by exists l1.
  - intros h n p h' [l Hrd] Hrq. destruct (mem_malloc h l n Hrd Hrq) as (p1 & h1 & l1 & E & _ & Heff).
    simpl. rewrite E. by intros [= <- <-].
  - done.
  - intros h p n [l Hrd]. simpl. rewrite (blist_rep _ _ _ _ (proj1 Hrd)). intros Hin.
    destruct (mem_free h l p n Hrd Hin) as (h1 & l1 & E & Hrd1 & _). rewrite E. by exists l1.
  - intros h p n [l Hrd]. simpl. rewrite (blist_rep _ _ _ _ (proj1 Hrd)). intros Hin.
    destruct (mem_free h l p n Hrd Hin) as (h1 & l1 & E & _ & Heff). by rewrite E.
Defined.
End heap.
