(* ===== verification/MallocThms.v ===== *)
(** * The guarantees of malloc.c

    The theorems about the allocator on top of the kernel's brk, for every
    outcome of the kernel's page allocation ([grow_ok]), with concrete
    instances. *)

From stdpp Require Import relations.
From S2P Require Import Prelude Mem Alloc StrFunc Algo Malloc MallocProofs MallocSpec MallocAligned MallocHeap.

(** The concrete heaps of the instances: break at 4096, thread 1, all growth granted. *)
Definition always (cur a : Z) : bool := true.

Lemma layout_4096 : layout 4096 (2 ^ 46) 1.
Proof. constructor; done || lia. Qed.

(** One block of 32 bytes, free or live. *)
Definition one_heap (f : bool) : heap :=
  mkHeap 4096 {[4096 := mkBlock 32 f BLOCK_MAGIC 0]} (write_bytes ∅ 4096 (replicate 64 7)) 4160
    0 (replicate DEFERRED_MAX 0) 0 0 0.

Definition one_blk (f : bool) : list ablk := [mkAblk 4096 32 f BLOCK_MAGIC].
Definition one_block : heap := one_heap false.
Definition one_list : list ablk := one_blk false.

Lemma one_heap_ready f : ready 4096 (2 ^ 46) (one_heap f) (one_blk f).
Proof.
  split; [constructor|done].
  - simpl. split; [done|]. split; [done|]. exists 0. split; [apply lookup_singleton_eq|done].
  - simpl. unfold aend, HDR. simpl. split_and!; done || lia.
  - done.
  - simpl. lia.
  - intros k Hk. cbn [raw one_heap hbrk] in *. rewrite write_bytes_lookup, length_replicate. bool_if.
    apply lookup_lt_is_Some_2. rewrite length_replicate. lia.
  - intros k Hk. cbn [raw one_heap hbrk] in *. rewrite write_bytes_out; [apply lookup_empty|].
    rewrite length_replicate. lia.
Qed.

Lemma one_block_ready : ready 4096 (2 ^ 46) one_block one_list.
Proof. apply one_heap_ready. Qed.

Lemma ready_init : ready 4096 (2 ^ 46) (init_heap 4096 ∅) [].
Proof. apply (init_ready 4096 (2 ^ 46) 1 layout_4096). intros. apply lookup_empty. Qed.

Section claims.
Context (grow_ok : Z -> Z -> bool) (lo ceiling self : Z).
#[local] Abbreviation kbrk := (sys_brk grow_ok lo ceiling).
#[local] Abbreviation ready := (MallocSpec.ready lo ceiling).

(** C1. However a program calls malloc, calloc, realloc, posix_memalign and
    free, with arbitrary (also foreign or already freed) pointers, any
    alignments and any sizes, and writes inside its own payloads, starting from
    the empty heap: every call returns, the live payloads are 16-aligned,
    mapped, inside the heap segment and pairwise disjoint.  Left out are only
    the sizes within the extent of the heap (and a few bytes) of 2^64:
    [sound_size], [sound_product] and [sound_aligned] say which, and the
    theorem on huge requests below says why. *)
Theorem heap_calls_safe m h :
  layout lo ceiling self -> (forall k, lo <= k < ceiling -> m !! k = None) ->
  rtc (heap_step grow_ok lo ceiling self) (init_heap lo m) h ->
  (forall size, sound_size lo h size -> is_Some (malloc kbrk self h size)) /\
  (forall nmemb size, sound_product lo h nmemb size -> is_Some (calloc kbrk self h nmemb size)) /\
  (forall ptr size, sound_size lo h size -> is_Some (realloc kbrk self h ptr size)) /\
  (forall align size, is_u64 align -> is_u64 size -> sound_aligned lo h align size -> is_Some (posix_memalign kbrk self h align size)) /\
  (forall ptr, is_Some (free self h ptr)) /\
  (forall p n, (p, n) ∈ live (blist h) ->
     p mod 16 = 0 /\ lo + HDR <= p /\ p + n <= hbrk h /\ mapped (raw h) p n) /\
  (forall p n q m, (p, n) ∈ live (blist h) -> (q, m) ∈ live (blist h) -> (p, n) <> (q, m) ->
     p + n <= q \/ q + m <= p).
Proof.
  intros Hlay Hm Hrt. destruct (reachable_ready _ _ _ _ Hlay m h Hm Hrt) as [l Hrd].
  rewrite (blist_rep _ _ _ _ (proj1 Hrd)). split_and!.
  - intros size Hs. destruct (malloc_any grow_ok _ _ _ Hlay h l size Hrd Hs) as (p & h' & l' & -> & _). eauto.
  - intros n size Hs. destruct (calloc_any grow_ok _ _ _ Hlay h l n size Hrd Hs) as (p & h' & l' & -> & _). eauto.
  - intros ptr size Hs. destruct (realloc_any grow_ok _ _ _ Hlay h l ptr size Hrd Hs) as (p & h' & l' & -> & _). eauto.
  - intros align size Ha Hs Hb. destruct (memalign_any grow_ok _ _ _ Hlay h l align size Hrd Ha Hs Hb) as (rc & p & h' & l' & -> & _). eauto.
  - intros ptr. destruct (free_any grow_ok _ _ _ Hlay h l ptr Hrd) as (h' & l' & -> & _). eauto.
  - intros p n Hin. pose proof (live_aligned _ _ _ _ _ (rep_laid _ _ _ _ (proj1 Hrd)) Hin) as (? & ? & ?).
    split; [done|]. split; [done|]. split; [done|]. eapply live_mapped; [apply Hrd|done].
  - intros p n q k Hp Hq Hne. eapply live_sep; [apply (rep_laid _ _ _ _ (proj1 Hrd))|done..].
Qed.

(** C2. For every size but those within the extent of the heap of 2^64, malloc
    refuses with NULL and ENOMEM and leaves the heap as it was, or returns a new
    16-aligned payload of at least [size] mapped bytes, disjoint from every live
    one; no live byte changes, and the blocks account for exactly what the break
    moved. *)
Theorem malloc_correct h l size :
  layout lo ceiling self -> ready h l -> sound_size lo h size ->
  malloc kbrk self h size = Some (0, set_errno self ENOMEM h) \/
  exists p h' l', malloc kbrk self h size = Some (p, h') /\ p <> 0 /\ ready h' l' /\
    fresh_payload h' l l' size p /\ same_bytes lo l h h' /\
    footprint l' - footprint l = hbrk h' - hbrk h.
Proof.
  intros Hlay Hrd Hs. apply (malloc_spec _ _ _ _ (kbrk_spec grow_ok _ _ _ Hlay) (lay_self _ _ _ Hlay)); done.
Qed.

(** C3. free of a live payload takes exactly that payload away and keeps the
    bytes of all the others; afterwards no two adjacent blocks are free, the
    blocks cover the same bytes, and freeing the pointer again is rejected
    and counted without touching the heap. *)
Theorem free_correct h l ptr n :
  layout lo ceiling self -> ready h l -> (ptr, n) ∈ live l ->
  exists h' l', free self h ptr = Some h' /\ ready h' l' /\ live l ≡ₚ (ptr, n) :: live l' /\
    same_bytes lo l' h h' /\ coalesced l' /\ footprint l' = footprint l /\ hbrk h' = hbrk h /\
    free self h' ptr = Some (count_rejected h').
Proof.
  intros Hlay Hrd Hin. pose proof (lay_self _ _ _ Hlay) as Hself.
  pose proof (kbrk_spec grow_ok _ _ _ Hlay) as Hk.
  destruct (mem_blocks_mapped _ _ _ Hlay _ _ _ _ Hrd Hin) as [Hp _].
  destruct (free_spec _ _ _ _ Hk Hself h l ptr Hrd Hp)
    as [[_ Hno]|(h' & l' & E & Hrd' & (A & B & n' & EA & EB) & Hco & Hft & Hb & Hs & _)]; [by apply Hno in Hin|].
  assert (n' = n) as ->.
  { eapply live_unique; [apply (rep_laid _ _ _ _ (proj1 Hrd))| |exact Hin]. rewrite EA. apply elem_of_app. right.
    apply list_elem_of_here. }
  exists h', l'. split; [done|]. split; [done|].
  split; [rewrite EA, EB; symmetry; apply Permutation_middle|]. split_and!; try done.
  destruct (free_spec _ _ _ _ Hk Hself h' l' ptr Hrd' Hp) as [[E' _]|(h2 & l2 & _ & _ & (A' & B' & k & EA' & _) & _)]; [done|].
  exfalso. pose proof (live_addr_nodup _ _ _ (rep_laid _ _ _ _ (proj1 Hrd))) as HN.
  assert (Hpm : live l ≡ₚ (ptr, n) :: live l') by (rewrite EA, EB; symmetry; apply Permutation_middle).
  rewrite Hpm, fmap_cons in HN. apply NoDup_cons in HN as [HN _]. apply HN. rewrite EA', fmap_app, fmap_cons.
  apply elem_of_app. right. apply list_elem_of_here.
Qed.

(** C4. Freeing what malloc returned restores the heap: the same payloads are
    live as before the malloc, with the same bytes.  The sizes are those of the
    theorem on malloc. *)
Theorem malloc_free_inverse h l size p h1 :
  layout lo ceiling self -> ready h l -> sound_size lo h size ->
  malloc kbrk self h size = Some (p, h1) -> p <> 0 ->
  exists h2 l2, free self h1 p = Some h2 /\ ready h2 l2 /\ live l2 ≡ₚ live l /\
    forall k, live_at l k -> raw h2 !! k = raw h !! k.
Proof.
  intros Hlay Hrd Hs E Hp. pose proof (lay_self _ _ _ Hlay) as Hself.
  pose proof (kbrk_spec grow_ok _ _ _ Hlay) as Hk.
  destruct (malloc_spec _ _ _ _ Hk Hself h l size Hrd Hs)
    as [E'|(p' & h1' & l1 & E' & _ & Hrd1 & (_ & n & _ & _ & Hperm & _) & Hs1 & _)]; [congruence|].
  assert (p' = p /\ h1' = h1) as [-> ->] by (split; congruence).
  assert (Hin : (p, n) ∈ live l1) by (rewrite Hperm; apply list_elem_of_here).
  destruct (free_spec _ _ _ _ Hk Hself h1 l1 p Hrd1 Hp)
    as [[_ Hno]|(h2 & l2 & E2 & Hrd2 & (A & B & n' & EA & EB) & _ & _ & _ & Hs2 & _)]; [by apply Hno in Hin|].
  assert (n' = n) as ->.
  { eapply live_unique; [apply (rep_laid _ _ _ _ (proj1 Hrd1))| |exact Hin]. rewrite EA. apply elem_of_app. right.
    apply list_elem_of_here. }
  assert (Hl2 : live l2 ≡ₚ live l).
  { apply (Permutation_cons_inv (a := (p, n))). rewrite <- Hperm, EA, EB. apply Permutation_middle. }
  exists h2, l2. split; [done|]. split; [done|]. split; [done|]. intros k Hk'.
  rewrite (proj2 Hs2), (proj2 Hs1); [done|by left|]. left.
  destruct Hk' as (q & m & Hq & ?). exists q, m. by rewrite Hl2.
Qed.

(** C5. realloc of a live payload to a positive size: on failure it returns
    NULL and the payload stays live with its bytes; on success the result is
    16-aligned and of at least [size] bytes, holds the first
    min(old size, size) bytes of the old payload, and all other payloads are
    live with their bytes, whether the block was resized in place, extended
    into its free neighbours, or moved.  The sizes are those of the theorem on
    malloc. *)
Theorem realloc_correct h l ptr n size :
  layout lo ceiling self -> ready h l -> (ptr, n) ∈ live l -> 0 < size -> sound_size lo h size ->
  exists rest p h' l', live l ≡ₚ (ptr, n) :: rest /\
    realloc kbrk self h ptr size = Some (p, h') /\ ready h' l' /\
    ((p = 0 /\ same_bytes lo l h h' /\ exists m, n <= m /\ live l' ≡ₚ (ptr, m) :: rest) \/
     moved h h' l' rest ptr n size p).
Proof.
  intros Hlay Hrd Hin H0 Hs.
  apply (realloc_spec _ _ _ _ (kbrk_spec grow_ok _ _ _ Hlay) (lay_self _ _ _ Hlay)); done.
Qed.

(** C6. calloc never lets [nmemb * size] wrap around: a product beyond 64 bits
    is refused with ENOMEM; for any other product, but those within the extent
    of the heap of 2^64, the result is NULL with ENOMEM or a fresh payload of at
    least that many bytes, all zero, with no live byte changed. *)
Theorem calloc_correct h l nmemb size :
  layout lo ceiling self -> ready h l -> sound_product lo h nmemb size ->
  calloc kbrk self h nmemb size = Some (0, set_errno self ENOMEM h) \/
  nmemb * size < 2 ^ 64 /\
  exists p h' l', calloc kbrk self h nmemb size = Some (p, h') /\ p <> 0 /\ ready h' l' /\
    fresh_payload h' l l' (nmemb * size) p /\ same_bytes lo l h h' /\
    forall i, 0 <= i < nmemb * size -> raw h' !! (p + i) = Some 0.
Proof.
  intros Hlay Hrd (Hn & Hs & [Hov|Hb]).
  - left. unfold calloc. by rewrite calloc_overflow_test.
  - destruct (calloc_spec _ _ _ _ (kbrk_spec grow_ok _ _ _ Hlay) (lay_self _ _ _ Hlay) h l nmemb size Hrd Hn Hs Hb) as [E|Hok]; [by left|right]. split; [apply (proj1 Hb)|done].
Qed.

(** C7. posix_memalign: an alignment that is no power of two or no multiple of 8
    is EINVAL, whatever the size.  For any other alignment and any size, but
    those whose sum is within the extent of the heap and 96 bytes of 2^64:
    ENOMEM, or a fresh payload at a multiple of the alignment. *)
Theorem posix_memalign_correct h l align size :
  layout lo ceiling self -> ready h l -> is_u64 align -> is_u64 size ->
  (is_pow2 align = false \/ align mod 8 <> 0 -> posix_memalign kbrk self h align size = Some (EINVAL, None, h)) /\
  (is_pow2 align = true -> align mod 8 = 0 -> sound_aligned lo h align size ->
     (exists h', posix_memalign kbrk self h align size = Some (ENOMEM, None, h') /\ ready h' l) \/
     (exists p h', posix_memalign kbrk self h align size = Some (0, Some p, h') /\
        aligned_result lo ceiling align size h l p h')).
Proof.
  intros Hlay Hrd Ha Hs. unfold posix_memalign. split.
  - intros [->|Hm]; [done|]. replace (align mod 8 =? 0) with false by lia. by rewrite orb_true_r.
  - intros Ep E8 Hb. rewrite Ep, E8. cbn [negb orb Z.eqb]. apply is_pow2_spec in Ep as (k & Hk & ->); [|done].
    destruct (aligned_alloc_impl_spec _ _ _ _ (kbrk_spec grow_ok _ _ _ Hlay) (lay_self _ _ _ Hlay) h l k size Hrd ltac:(lia) Hs Hb)
      as [(h' & -> & Hh')|(p & h' & -> & Hres)]; obind.
    + left. exists h'. split; [done|]. destruct Hh' as [->| ->]; [done|by apply ready_errno].
    + right. by exists p, h'.
Qed.

(** C8. A free that interrupts an allocator call of its own thread (a signal
    handler finds the lock held by itself) touches no block.  With one of the 8
    slots empty it parks the pointer, and the interrupted call's release of the
    lock frees it together with all other parked pointers, and nothing else.
    With every slot taken the pointer is counted as leaked: the release frees
    the parked ones, and the block stays live. *)
Theorem deferred_free_handled h l ptr :
  layout lo ceiling self -> hrep lo ceiling h l -> heap_owner h = self -> ptr <> 0 ->
  length (deferred h) = DEFERRED_MAX ->
  exists h1 h2 l2, free self h ptr = Some h1 /\ blocks h1 = blocks h /\ raw h1 = raw h /\
    heap_release h1 = Some h2 /\ ready h2 l2 /\ same_bytes lo l2 h h2 /\
    (0 ∈ deferred h -> deferred_leaked h1 = deferred_leaked h /\
       live l2 = filter (fun b => b.1 ∉ ptr :: deferred h) (live l)) /\
    (0 ∉ deferred h -> deferred_leaked h1 = u64 (deferred_leaked h + 1) /\
       live l2 = filter (fun b => b.1 ∉ deferred h) (live l)).
Proof.
  intros Hlay Hr Ho Hp Hlen.
  assert (Hfree : free self h ptr = Some (defer_loop DEFERRED_MAX 0 h ptr)).
  { unfold free, heap_acquire. rewrite Ho, Z.eqb_refl. bool_if. done. }
  destruct (decide (0 ∈ deferred h)) as [Hin|Hno].
  - pose proof Hin as [j Hj]%list_elem_of_lookup.
    destruct (defer_loop_spec DEFERRED_MAX 0 h ptr Hlen) as (i & _ & Hi & Hd); [exists j; split; [lia|done]|].
    set (h1 := set_deferred (<[i:=ptr]> (deferred h)) h) in *.
    assert (Hr1 : hrep lo ceiling h1 l) by (eapply hrep_ctl; [| | | |exact Hr]; done).
    destruct (heap_release_sim _ _ _ (kbrk_spec grow_ok _ _ _ Hlay) h1 l Hr1) as (h2 & l2 & E2 & Hrd2 & Hl2 & Hs2).
    { unfold h1. cbn [deferred set_deferred]. by rewrite length_insert. }
    exists h1, h2, l2. rewrite Hd in Hfree. split_and!; try done. intros _. split; [done|]. rewrite Hl2. unfold h1. cbn [deferred set_deferred].
    apply list_filter_in. intros [q n] Hq. simpl.
    assert (Hq0 : q <> 0).
    { pose proof (live_aligned _ _ _ _ _ (rep_laid _ _ _ _ Hr) Hq). pose proof (lay_lo _ _ _ Hlay). mlia. }
    rewrite (elem_of_insert_other _ _ _ _ _ Hi Hq0), elem_of_cons. done.
  - rewrite (defer_loop_full DEFERRED_MAX 0 h ptr Hno Hlen) in Hfree.
    assert (Hr1 : hrep lo ceiling (count_leaked h) l) by (eapply hrep_ctl; [| | | |exact Hr]; done).
    destruct (heap_release_sim _ _ _ (kbrk_spec grow_ok _ _ _ Hlay) _ l Hr1 Hlen) as (h2 & l2 & E2 & Hrd2 & Hl2 & Hs2).
    exists (count_leaked h), h2, l2. split_and!; try done.
Qed.

(** Growing by a size that sbrk sees as a small negative increment moves the break down. *)
Lemma heap_grow_shrinks h l ask : layout lo ceiling self -> hrep lo ceiling h l -> 2 ^ 64 - (hbrk h - lo) <= ask < 2 ^ 64 ->
  heap_grow kbrk h ask = (hbrk h, resize_heap h (hbrk h) (hbrk h - (2 ^ 64 - ask))).
Proof.
  intros Hlay Hr Ha. pose proof (rep_brk _ _ _ _ Hr) as Hb. pose proof (kbrk_spec grow_ok _ _ _ Hlay) as Hk. destruct Hlay. unfold heap_grow, sbrk. rewrite (brk_query _ _ _ Hk), i64_high by lia.
  replace (hbrk h =? 0) with false by lia. replace (ask - 2 ^ 64 =? 0) with false by lia. rewrite u64_small by lia.
  assert (Hbrk : kbrk (hbrk h) (hbrk h + (ask - 2 ^ 64)) = hbrk h + (ask - 2 ^ 64)).
  { unfold sys_brk. replace (page_ceil (hbrk h) <? page_ceil (hbrk h + (ask - 2 ^ 64))) with false by (unfold page_ceil; symmetry; apply Z.ltb_ge, Z.div_le_mono; lia).
    set (a := hbrk h + (ask - 2 ^ 64)) in *. assert (Hal : lo <= a <= ceiling) by lia. replace (a =? 0) with false by lia. replace ((lo =? 0) || (hbrk h =? 0)) with false by lia. replace (a <? lo) with false by lia. by replace (ceiling <? a) with false by lia. }
  rewrite Hbrk, Z.eqb_refl. cbn [negb]. replace ((hbrk h =? -1) || (hbrk h =? 0)) with false by lia. do 2 f_equal. lia.
Qed.

(** C9. The sizes that the theorems above leave out are not refused, as
    malloc's size check means to: for each of them the growth of the heap
    reaches sbrk as a negative increment.  The kernel grants it, so the break
    moves down, bytes of the heap are gone, and malloc is about to write the
    header of the block it believes it got to the old break, above the new
    one: memory that is not the heap's, and here a fault. *)
Theorem malloc_huge_shrinks_break h l size :
  layout lo ceiling self -> ready h l -> hbrk h < ceiling -> 2 ^ 64 - 48 - (hbrk h - lo) < size <= SIZE_LIMIT ->
  malloc kbrk self h size = None /\
  exists h', heap_grow kbrk h (align_up size + HDR) = (hbrk h, h') /\ lo <= hbrk h' < hbrk h /\
    forall k, hbrk h' <= k < ceiling -> raw h' !! k = None.
Proof.
  intros Hlay Hrd Hc Hs. change SIZE_LIMIT with (2 ^ 64 - 48) in Hs. pose proof (rep_brk _ _ _ _ (proj1 Hrd)) as Hb. pose proof (rep_align _ _ _ _ (proj1 Hrd)) as Hal. pose proof Hlay as [Hlo Hlo16 _ Hu Hself].
  assert (Hgap : (hbrk h - lo) mod 16 = 0) by zdm. assert (Hw : size <= align_up size <= 2 ^ 64 - 48 /\ 2 ^ 64 - 32 - (hbrk h - lo) <= align_up size /\ align_up size mod 16 = 0) by (assert (Hg47 : 0 <= hbrk h - lo < 2 ^ 47) by lia; set (g := hbrk h - lo) in *; clearbody g; rewrite align_up_spec by lia; zdm).
  set (want := align_up size) in *. set (nb := hbrk h - (2 ^ 64 - (want + HDR))). assert (Hnb : lo <= nb < hbrk h) by (unfold nb, HDR; lia).
  assert (Hraw : forall g, raw g = raw h -> hbrk g = hbrk h -> forall k, nb <= k < ceiling -> raw (resize_heap g (hbrk h) nb) !! k = None).
  { intros g Hg Hbg k Hk. unfold resize_heap. replace (hbrk h <=? nb) with false by lia. cbn [raw set_raw]. rewrite Hg. apply map_lookup_filter_None. destruct (decide (k < hbrk h)) as [Hlt|Hge]; [right; intros v _ Hn; apply Hn; cbn; lia|left; apply (rep_fresh _ _ _ _ (proj1 Hrd)); lia]. }
  split.
  - unfold malloc. change SIZE_LIMIT with (2 ^ 64 - 48). replace (2 ^ 64 - 48 <? size) with false by lia. replace (size =? 0) with false by lia. fold want.
    destruct (acquire_ready _ _ _ Hself _ _ Hrd) as [-> Hr]. obind. cbn [negb]. unfold malloc_locked.
    destruct (first_fit_sim want l _ _ _ (rep_lseg _ _ _ _ Hr) (rep_fuel _ _ _ _ Hr)) as [[-> _]|(l1 & x & l2 & -> & _ & _ & Hfit & _)].
    2:{ exfalso. unfold fits in Hfit. pose proof (laid_mid _ _ _ _ _ (rep_laid _ _ _ _ Hr)) as (Hx1 & Hx2 & _). cbn [hbrk set_owner] in Hx2. unfold aend, HDR in Hx2. lia. }
    obind. cbn [Z.eqb negb]. unfold grow. rewrite u64_small by (unfold HDR; lia). replace (want + HDR <? GROW_CHUNK) with false by (unfold GROW_CHUNK, HDR; lia).
    assert (Hau : align_up (want + HDR) = want + HDR) by (unfold HDR in *; rewrite align_up_spec by lia; zdm). rewrite Hau, (heap_grow_shrinks _ l) by (done || (cbn [hbrk set_owner]; unfold HDR; lia)). cbn [hbrk set_owner].
    replace (hbrk h =? 0) with false by lia. rewrite new_block_unmapped; [done|]. apply Hraw; [done..|]. fold nb. lia.
  - eexists. rewrite (heap_grow_shrinks _ l) by (done || (unfold HDR; lia) || apply Hrd). fold nb. split; [done|]. assert (Hh : hbrk (resize_heap h (hbrk h) nb) = nb) by (unfold resize_heap; by destruct (hbrk h <=? nb)). rewrite Hh. split; [done|]. by apply Hraw.
Qed.
End claims.

(** ** Instances *)

#[local] Abbreviation kbrk0 := (sys_brk always 4096 (2 ^ 46)).

(** A program that allocates twice and frees a wild pointer. *)
Definition run_malloc (size : Z) (h : heap) : heap := default h (snd <$> malloc kbrk0 1 h size).
Definition used_heap : heap := default (init_heap 4096 ∅) (free 1 (run_malloc 200 (run_malloc 100 (init_heap 4096 ∅))) 12345).

Lemma heap_calls_safe_witness :
  is_Some (calloc kbrk0 1 used_heap (2 ^ 32) (2 ^ 33)) /\ is_Some (posix_memalign kbrk0 1 used_heap 4096 (2 ^ 63)) /\
  (4128, 112) ∈ live (blist used_heap) /\ (4272, 208) ∈ live (blist used_heap) /\ (4128 + 112 <= 4272 \/ 4272 + 208 <= 4128).
Proof.
  destruct (heap_calls_safe always 4096 (2 ^ 46) 1 ∅ used_heap) as (_ & Hc & _ & Hp & _ & _ & Hd).
  - exact layout_4096.
  - intros. apply lookup_empty.
  - apply (rtc_l _ _ (run_malloc 100 (init_heap 4096 ∅))); [apply (step_malloc _ _ _ _ _ 100 4128); [split; [split; lia|left; cbn; lia]|vm_compute; reflexivity]|].
    apply (rtc_l _ _ (run_malloc 200 (run_malloc 100 (init_heap 4096 ∅)))); [apply (step_malloc _ _ _ _ _ 200 4272); [split; [split; lia|left; vm_compute; discriminate]|vm_compute; reflexivity]|].
    apply rtc_once. apply (step_free _ _ _ _ _ 12345). vm_compute. reflexivity.
  - split; [apply Hc; split; [split; lia|]; split; [split; lia|]; left; lia|]. split; [apply Hp; [split; lia..|]; left; vm_compute; discriminate|].
    assert (H1 : (4128, 112) ∈ live (blist used_heap)) by (apply (bool_decide_unpack _); vm_compute; exact I). assert (H2 : (4272, 208) ∈ live (blist used_heap)) by (apply (bool_decide_unpack _); vm_compute; exact I).
    split; [exact H1|]. split; [exact H2|]. apply (Hd _ _ _ _ H1 H2). discriminate.
Defined.

Lemma malloc_correct_witness :
  malloc kbrk0 1 one_block 100 = Some (0, set_errno 1 ENOMEM one_block) \/
  exists p h' l', malloc kbrk0 1 one_block 100 = Some (p, h') /\ p <> 0 /\ ready 4096 (2 ^ 46) h' l' /\
    fresh_payload h' one_list l' 100 p /\ same_bytes 4096 one_list one_block h' /\
    footprint l' - footprint one_list = hbrk h' - hbrk one_block.
Proof.
  apply (malloc_correct always 4096 (2 ^ 46) 1 one_block one_list 100).
  - exact layout_4096.
  - exact one_block_ready.
  - split; [split; lia|left; cbn; lia].
Defined.

Lemma free_correct_witness :
  exists h' l', free 1 one_block 4128 = Some h' /\ ready 4096 (2 ^ 46) h' l' /\
    live one_list ≡ₚ (4128, 32) :: live l' /\ same_bytes 4096 l' one_block h' /\ coalesced l' /\
    footprint l' = footprint one_list /\ hbrk h' = hbrk one_block /\ free 1 h' 4128 = Some (count_rejected h').
Proof.
  apply (free_correct always 4096 (2 ^ 46) 1 one_block one_list 4128 32).
  - exact layout_4096.
  - exact one_block_ready.
  - apply list_elem_of_here.
Defined.

Lemma malloc_free_inverse_witness :
  exists h2 l2, free 1 (default one_block (snd <$> malloc kbrk0 1 (one_heap true) 16)) 4128 = Some h2 /\
    ready 4096 (2 ^ 46) h2 l2 /\ live l2 ≡ₚ live (one_blk true) /\
    forall k, live_at (one_blk true) k -> raw h2 !! k = raw (one_heap true) !! k.
Proof.
  apply (malloc_free_inverse always 4096 (2 ^ 46) 1 (one_heap true) (one_blk true) 16 4128).
  - exact layout_4096.
  - apply one_heap_ready.
  - split; [split; lia|left; cbn; lia].
  - vm_compute. reflexivity.
  - discriminate.
Defined.

Lemma realloc_correct_witness :
  exists rest p h' l', live one_list ≡ₚ (4128, 32) :: rest /\
    realloc kbrk0 1 one_block 4128 5000 = Some (p, h') /\ ready 4096 (2 ^ 46) h' l' /\
    ((p = 0 /\ same_bytes 4096 one_list one_block h' /\ exists m, 32 <= m /\ live l' ≡ₚ (4128, m) :: rest) \/
     moved one_block h' l' rest 4128 32 5000 p).
Proof.
  apply (realloc_correct always 4096 (2 ^ 46) 1 one_block one_list 4128 32 5000).
  - exact layout_4096.
  - exact one_block_ready.
  - apply list_elem_of_here.
  - lia.
  - split; [split; lia|left; cbn; lia].
Defined.

(** The break is granted, so the second alternative of calloc is the one that holds. *)
Lemma calloc_correct_witness :
  exists p h' l', calloc kbrk0 1 one_block 10 10 = Some (p, h') /\ p <> 0 /\ ready 4096 (2 ^ 46) h' l' /\
    fresh_payload h' one_list l' (10 * 10) p /\ same_bytes 4096 one_list one_block h' /\
    forall i, 0 <= i < 10 * 10 -> raw h' !! (p + i) = Some 0.
Proof.
  destruct (calloc_correct always 4096 (2 ^ 46) 1 one_block one_list 10 10) as [E|[_ Hok]].
  - exact layout_4096.
  - exact one_block_ready.
  - split; [split; lia|]. split; [split; lia|]. right. split; [split; lia|left; cbn; lia].
  - exfalso. apply (f_equal (fun r => fst <$> r)) in E. vm_compute in E. discriminate E.
  - exact Hok.
Defined.

Lemma posix_memalign_correct_witness :
  posix_memalign kbrk0 1 one_block 24 (2 ^ 64 - 1) = Some (EINVAL, None, one_block) /\
  ((exists h', posix_memalign kbrk0 1 one_block 256 100 = Some (ENOMEM, None, h') /\ ready 4096 (2 ^ 46) h' one_list) \/
   (exists p h', posix_memalign kbrk0 1 one_block 256 100 = Some (0, Some p, h') /\
      aligned_result 4096 (2 ^ 46) 256 100 one_block one_list p h')).
Proof.
  split.
  - apply (posix_memalign_correct always 4096 (2 ^ 46) 1 one_block one_list 24 (2 ^ 64 - 1)).
    + exact layout_4096.
    + exact one_block_ready.
    + split; lia.
    + split; lia.
    + left. reflexivity.
  - apply (posix_memalign_correct always 4096 (2 ^ 46) 1 one_block one_list 256 100).
    + exact layout_4096.
    + exact one_block_ready.
    + split; lia.
    + split; lia.
    + reflexivity.
    + reflexivity.
    + left. cbn. lia.
Defined.

(** A heap whose owner is interrupted, with empty slots or with none. *)
Definition held_heap (d : list Z) : heap := set_deferred d (set_owner 1 one_block).

Lemma deferred_free_handled_witness :
  (exists h1 h2 l2, free 1 (held_heap (replicate 8 0)) 4128 = Some h1 /\ heap_release h1 = Some h2 /\ ready 4096 (2 ^ 46) h2 l2 /\
     live l2 = filter (fun b => b.1 ∉ 4128 :: replicate 8 0) (live one_list)) /\
  (exists h1 h2 l2, free 1 (held_heap (replicate 8 77)) 4128 = Some h1 /\ heap_release h1 = Some h2 /\ ready 4096 (2 ^ 46) h2 l2 /\
     live l2 = filter (fun b => b.1 ∉ replicate 8 77) (live one_list)).
Proof.
  split.
  - destruct (deferred_free_handled always 4096 (2 ^ 46) 1 (held_heap (replicate 8 0)) one_list 4128) as (h1 & h2 & l2 & E1 & _ & _ & E2 & Hr & _ & Hp & _).
    + exact layout_4096.
    + eapply hrep_ctl; [| | | |exact (proj1 one_block_ready)]; reflexivity.
    + reflexivity.
    + discriminate.
    + reflexivity.
    + exists h1, h2, l2. split; [exact E1|]. split; [exact E2|]. split; [exact Hr|]. apply Hp. apply list_elem_of_here.
  - destruct (deferred_free_handled always 4096 (2 ^ 46) 1 (held_heap (replicate 8 77)) one_list 4128) as (h1 & h2 & l2 & E1 & _ & _ & E2 & Hr & _ & _ & Hp).
    + exact layout_4096.
    + eapply hrep_ctl; [| | | |exact (proj1 one_block_ready)]; reflexivity.
    + reflexivity.
    + discriminate.
    + reflexivity.
    + exists h1, h2, l2. split; [exact E1|]. split; [exact E2|]. split; [exact Hr|]. apply Hp. apply (bool_decide_unpack _). vm_compute. exact I.
Defined.

(** One block of 32 bytes: any size above 2^64 - 112 that passes the check. *)
Lemma malloc_huge_shrinks_break_witness :
  malloc kbrk0 1 one_block SIZE_LIMIT = None /\
  exists h', heap_grow kbrk0 one_block (align_up SIZE_LIMIT + HDR) = (4160, h') /\ 4096 <= hbrk h' < 4160 /\
    forall k, hbrk h' <= k < 2 ^ 46 -> raw h' !! k = None.
Proof.
  apply (malloc_huge_shrinks_break always 4096 (2 ^ 46) 1 one_block one_list SIZE_LIMIT).
  - exact layout_4096.
  - exact one_block_ready.
  - reflexivity.
  - split; [reflexivity|discriminate].
Defined.

(** strdup on malloc.c: the program's string lies below the heap. *)
Definition dup_heap : heap := set_raw (mem_of 100 (str "hi" ++ [0])) (init_heap 4096 ∅).

Lemma dup_heap_ready : ready 4096 (2 ^ 46) dup_heap [].
Proof.
  apply (init_ready 4096 (2 ^ 46) 1 layout_4096). intros k Hk. apply write_bytes_out.
  change (len (str "hi" ++ [0])) with 3. lia.
Qed.

Lemma strdup_copies_witness :
  exists p h', strdup (Allocator0 := Malloc_Allocator always 4096 (2 ^ 46) 1) dup_heap 100 = Some (p, h') /\
    (exists l, ready 4096 (2 ^ 46) h' l) /\
    ((p = 0 /\ heap_mem 4096 (2 ^ 46) h' = heap_mem 4096 (2 ^ 46) dup_heap) \/
     (p <> 0 /\ cstr_at (heap_mem 4096 (2 ^ 46) h') p (str "hi") /\ cstr_at (heap_mem 4096 (2 ^ 46) h') 100 (str "hi") /\
      (forall k, p <= k < p + len (str "hi") + 1 -> heap_mem 4096 (2 ^ 46) dup_heap !! k = None))).
Proof.
  apply (strdup_copies (LH := Malloc_Laws always 4096 (2 ^ 46) 1 layout_4096) dup_heap 100 (str "hi")).
  - exists []. exact dup_heap_ready.
  - apply cstr_atb_sound. vm_compute. reflexivity.
  - split; vm_compute; [discriminate|reflexivity].
Defined.

(** qsort of numbers by their last digit, with malloc.c as the allocator. *)
Definition by_digit (x y : Z) : Z := x mod 10 - y mod 10.

Lemma by_digit_order : cmp_order by_digit.
Proof. constructor; unfold by_digit; intros; lia. Qed.

Lemma qsort_stable_witness :
  exists q h', qsort (H0 := Malloc_Allocator always 4096 (2 ^ 46) 1) by_digit (init_heap 4096 ∅) [21; 13; 1; 40] 4 8 [0; 0; 0; 0] = Some (q, h') /\
    stable_sort_of by_digit [21; 13; 1; 40] q /\ (exists l, ready 4096 (2 ^ 46) h' l) /\ live (blist h') ≡ₚ [] /\
    forall q', stable_sort_of by_digit [21; 13; 1; 40] q' -> q' = q.
Proof.
  apply (qsort_stable by_digit by_digit_order (H0 := Malloc_Laws always 4096 (2 ^ 46) 1 layout_4096)
    (init_heap 4096 ∅) [21; 13; 1; 40] [0; 0; 0; 0] 8).
  - exists []. exact ready_init.
  - lia.
  - simpl. lia.
  - reflexivity.
Defined.
