(* ===== verification/Calendar.v ===== *)
(** * Calendar conversion (lib/moqi_libc/src/timeconv.c, first part)

    [days_from_civil] and [civil_from_days] (the proleptic Gregorian
    calendar), [break_down], [gmtime_r], [localtime_r], [timegm] and [mktime].
    C's [/] and [%] on signed integers truncate: they are [÷] and [Z.rem].
    The 64-bit sums and products that the code does not check cannot leave
    64 bits on int fields and 64-bit times, and are exact here; the checked
    ones are [in_i64] tests, and every [(int)] cast is [i32].  A function that
    may set errno takes the old value and returns the new one; a pointer
    result is a boolean (not NULL), the structure it points to is the one
    passed in. *)

From S2P Require Import Prelude.

(** ** Data (include/time.h) *)

Record tm := mkTm {
  tm_sec : Z;
  tm_min : Z;
  tm_hour : Z;
  tm_mday : Z;
  tm_mon : Z;
  tm_year : Z;
  tm_wday : Z;
  tm_yday : Z;
  tm_isdst : Z;
  tm_gmtoff : Z;
  tm_zone : option (list Z);
}.

Definition set_sec v g := mkTm v (tm_min g) (tm_hour g) (tm_mday g) (tm_mon g) (tm_year g) (tm_wday g) (tm_yday g) (tm_isdst g) (tm_gmtoff g) (tm_zone g).
Definition set_min v g := mkTm (tm_sec g) v (tm_hour g) (tm_mday g) (tm_mon g) (tm_year g) (tm_wday g) (tm_yday g) (tm_isdst g) (tm_gmtoff g) (tm_zone g).
Definition set_hour v g := mkTm (tm_sec g) (tm_min g) v (tm_mday g) (tm_mon g) (tm_year g) (tm_wday g) (tm_yday g) (tm_isdst g) (tm_gmtoff g) (tm_zone g).
Definition set_mday v g := mkTm (tm_sec g) (tm_min g) (tm_hour g) v (tm_mon g) (tm_year g) (tm_wday g) (tm_yday g) (tm_isdst g) (tm_gmtoff g) (tm_zone g).
Definition set_mon v g := mkTm (tm_sec g) (tm_min g) (tm_hour g) (tm_mday g) v (tm_year g) (tm_wday g) (tm_yday g) (tm_isdst g) (tm_gmtoff g) (tm_zone g).
Definition set_year v g := mkTm (tm_sec g) (tm_min g) (tm_hour g) (tm_mday g) (tm_mon g) v (tm_wday g) (tm_yday g) (tm_isdst g) (tm_gmtoff g) (tm_zone g).
Definition set_wday v g := mkTm (tm_sec g) (tm_min g) (tm_hour g) (tm_mday g) (tm_mon g) (tm_year g) v (tm_yday g) (tm_isdst g) (tm_gmtoff g) (tm_zone g).
Definition set_yday v g := mkTm (tm_sec g) (tm_min g) (tm_hour g) (tm_mday g) (tm_mon g) (tm_year g) (tm_wday g) v (tm_isdst g) (tm_gmtoff g) (tm_zone g).
Definition set_isdst v g := mkTm (tm_sec g) (tm_min g) (tm_hour g) (tm_mday g) (tm_mon g) (tm_year g) (tm_wday g) (tm_yday g) v (tm_gmtoff g) (tm_zone g).
Definition set_gmtoff v g := mkTm (tm_sec g) (tm_min g) (tm_hour g) (tm_mday g) (tm_mon g) (tm_year g) (tm_wday g) (tm_yday g) (tm_isdst g) v (tm_zone g).
Definition set_zone v g := mkTm (tm_sec g) (tm_min g) (tm_hour g) (tm_mday g) (tm_mon g) (tm_year g) (tm_wday g) (tm_yday g) (tm_isdst g) (tm_gmtoff g) v.

Definition SECS_PER_DAY : Z := 86400.

(** ** Operations *)

Definition days_from_civil (y m d : Z) : Z :=
  let y := y - Z.b2z (m <=? 2) in
  let era := (if 0 <=? y then y else y - 399) ÷ 400 in
  let yoe := y - era * 400 in
  let doy := (153 * (m + (if 2 <? m then -3 else 9)) + 2) ÷ 5 + d - 1 in
  let doe := yoe * 365 + yoe ÷ 4 - yoe ÷ 100 + doy in
  era * 146097 + doe - 719468.

Definition civil_from_days (z : Z) : Z * Z * Z :=
  let z := z + 719468 in
  let era := (if 0 <=? z then z else z - 146096) ÷ 146097 in
  let doe := z - era * 146097 in
  let yoe := (doe - doe ÷ 1460 + doe ÷ 36524 - doe ÷ 146096) ÷ 365 in
  let yy := yoe + era * 400 in
  let doy := doe - (365 * yoe + yoe ÷ 4 - yoe ÷ 100) in
  let mp := (5 * doy + 2) ÷ 153 in
  let d := i32 (doy - (153 * mp + 2) ÷ 5 + 1) in
  let m := i32 (if mp <? 10 then mp + 3 else mp - 9) in
  (yy + Z.b2z (m <=? 2), m, d).

Definition floor_div (a b : Z) : Z :=
  let q := a ÷ b in
  if negb (Z.rem a b =? 0) && negb (Bool.eqb (a <? 0) (b <? 0)) then q - 1 else q.

Definition floor_mod (a b : Z) : Z := a - floor_div a b * b.

Definition break_down (t : Z) (out : tm) (zone : option (list Z)) : bool * tm :=
  let out := set_zone zone (set_gmtoff 0 (set_isdst 0 out)) in
  let days := floor_div t SECS_PER_DAY in
  let rem := t - days * SECS_PER_DAY in
  let out := set_hour (i32 (rem ÷ 3600)) out in
  let out := set_min (i32 (Z.rem rem 3600 ÷ 60)) out in
  let out := set_sec (i32 (Z.rem rem 60)) out in
  let out := set_wday (i32 (floor_mod (days + 4) 7)) out in
  let '(y, m, d) := civil_from_days days in
  let out := set_year (i32 (y - 1900)) out in
  if (2147483647 <? y - 1900) || (y - 1900 <? -2147483648) then (false, out)
  else
    let out := set_yday (i32 (days - days_from_civil y 1 1)) out in
    (true, set_mday d (set_mon (m - 1) out)).

Definition GMT : option (list Z) := Some (str "GMT").
Definition UTC : option (list Z) := Some (str "UTC").

Definition gmtime_r (t : Z) (out : tm) (errno : Z) : bool * tm * Z :=
  let '(ok, out) := break_down t out GMT in
  if ok then (true, out, errno) else (false, out, EOVERFLOW).

(** [gmtime] and [localtime] work on the one static structure. *)
Definition gmtime (t : Z) (static_tm : tm) (errno : Z) : bool * tm * Z := gmtime_r t static_tm errno.

Definition localtime_r (t : Z) (out : tm) (errno : Z) : bool * tm * Z :=
  let '(ok, out) := break_down t out UTC in
  if ok then (true, out, errno) else (false, out, EOVERFLOW).

Definition localtime (t : Z) (static_tm : tm) (errno : Z) : bool * tm * Z := localtime_r t static_tm errno.

(** The contents of an uninitialised local [struct tm probe] never matter: the
    caller's structure stands for them. *)
Definition to_seconds_hm (g : tm) : option Z :=
  let year := tm_year g + 1900 in
  let mon := tm_mon g in
  let year := year + floor_div mon 12 in
  let mon := floor_mod mon 12 in
  let days := days_from_civil year (i32 mon + 1) 1 in
  let total_days := days + (tm_mday g - 1) in
  let result := total_days * SECS_PER_DAY in
  if negb (in_i64 result) then None else
  let hm := tm_hour g * 3600 + tm_min g * 60 in
  let result := result + hm in
  if negb (in_i64 result) then None else
  if negb (fst (break_down result g GMT)) then None else
  Some result.

Definition to_seconds (g : tm) : option Z :=
  match to_seconds_hm g with
  | None => None
  | Some result => if in_i64 (result + tm_sec g) then Some (result + tm_sec g) else None
  end.

Definition timegm (g : tm) (errno : Z) : Z * tm * Z :=
  match to_seconds g with
  | None => (-1, set_isdst 0 g, EOVERFLOW)
  | Some secs =>
      let '(ok, normalised) := break_down secs g GMT in
      if ok then (secs, normalised, errno) else (-1, set_isdst 0 g, EOVERFLOW)
  end.

Definition to_epoch (g : tm) : option Z :=
  match to_seconds_hm g with
  | None => None
  | Some secs =>
      let dst := 0 <? tm_isdst g in
      if dst && negb (in_i64 (secs - 3600)) then None else
      let secs := if dst then secs - 3600 else secs in
      if dst && negb (fst (break_down secs g UTC)) then None else
      if negb (in_i64 (secs + tm_sec g)) then None else
      let secs := secs + tm_sec g in
      if negb (fst (break_down secs g UTC)) then None else Some secs
  end.

Definition mktime (g : tm) (errno : Z) : Z * tm * Z :=
  match to_epoch g with
  | None => (-1, g, EOVERFLOW)
  | Some secs =>
      let '(ok, normalised) := break_down secs g UTC in
      if ok then (secs, normalised, errno) else (-1, g, EOVERFLOW)
  end.

(** ** The Gregorian calendar *)

Definition leap (y : Z) : bool := (y mod 4 =? 0) && (negb (y mod 100 =? 0) || (y mod 400 =? 0)).

Definition month_length (y m : Z) : Z :=
  if m =? 2 then 28 + Z.b2z (leap y)
  else if (m =? 4) || (m =? 6) || (m =? 9) || (m =? 11) then 30 else 31.

Definition valid_date (p : Z * Z * Z) : Prop :=
  let '(y, m, d) := p in 1 <= m <= 12 /\ 1 <= d <= month_length y m.

Definition next_day (p : Z * Z * Z) : Z * Z * Z :=
  let '(y, m, d) := p in
  if d <? month_length y m then (y, m, d + 1) else if m <? 12 then (y, m + 1, 1) else (y + 1, 1, 1).

Definition day_number (p : Z * Z * Z) : Z := let '(y, m, d) := p in days_from_civil y m d.

(** ** Lemmas *)

Lemma floor_div_spec a b : 0 < b -> floor_div a b = a / b.
Proof. intros Hb. unfold floor_div. bcases; Z.to_euclidean_division_equations; nia. Qed.

Lemma floor_mod_spec a b : 0 < b -> floor_mod a b = a mod b.
Proof. intros Hb. unfold floor_mod. rewrite floor_div_spec by done. rewrite Z.mod_eq by lia. lia. Qed.

(** The months one by one. *)
Ltac mcases m H :=
  let Hc := fresh in
  assert (m = 0 \/ m = 1 \/ m = 2 \/ m = 3 \/ m = 4 \/ m = 5 \/ m = 6 \/ m = 7 \/ m = 8 \/ m = 9
          \/ m = 10 \/ m = 11 \/ m = 12) as Hc by lia;
  destruct Hc as [->|[->|[->|[->|[->|[->|[->|[->|[->|[->|[->|[->| ->]]]]]]]]]]]]; try (exfalso; lia); clear H.

(** Days before the first of March of year [y], counted from 0000-03-01. *)
Definition march1 (y : Z) : Z := 365 * y + y / 4 - y / 100 + y / 400.

Lemma days_from_civil_march y m d : 1 <= m <= 12 ->
  days_from_civil y m d =
  march1 (y - Z.b2z (m <=? 2)) + (153 * ((m + 9) mod 12) + 2) / 5 + d - 719469.
Proof.
  intros Hm. unfold days_from_civil, march1.
  assert (Hmp : m + (if 2 <? m then -3 else 9) = (m + 9) mod 12) by (bcases; zdm). rewrite Hmp.
  generalize (y - Z.b2z (m <=? 2)); intros y'. pose proof (Z.mod_pos_bound (m + 9) 12 ltac:(lia)).
  generalize dependent ((m + 9) mod 12). intros mp Hmp' Hb. bcases; zdm.
Qed.

Lemma year_of_era (doe y : Z) :
  0 <= y < 400 ->
  365 * y + y / 4 - y / 100 <= doe < 365 * (y + 1) + (y + 1) / 4 - (y + 1) / 100 + Z.b2z (y =? 399) ->
  (doe - doe ÷ 1460 + doe ÷ 36524 - doe ÷ 146096) ÷ 365 = y.
Proof. intros. zdm. Qed.

Lemma year_of_era_exists (doe : Z) :
  0 <= doe < 146097 ->
  exists y, 0 <= y < 400 /\
    365 * y + y / 4 - y / 100 <= doe < 365 * (y + 1) + (y + 1) / 4 - (y + 1) / 100 + Z.b2z (y =? 399).
Proof.
  intros. exists ((doe - doe / 1460 + doe / 36524 - doe / 146096) / 365).
  Z.to_euclidean_division_equations. lia.
Qed.

Lemma civil_from_days_march z era yoe doy :
  0 <= yoe < 400 -> z + 719468 = era * 146097 + (365 * yoe + yoe / 4 - yoe / 100) + doy ->
  0 <= doy < 365 + Z.b2z (leap (yoe + 1)) ->
  civil_from_days z =
  let mp := (5 * doy + 2) / 153 in
  let m := if mp <? 10 then mp + 3 else mp - 9 in
  (yoe + era * 400 + Z.b2z (m <=? 2), m, doy - (153 * mp + 2) / 5 + 1).
Proof.
  intros Hy Hz Hd. unfold civil_from_days.
  assert (Hdoe : 0 <= z + 719468 - era * 146097 < 146097) by (unfold leap in Hd; zdm).
  assert (Hera : (if 0 <=? z + 719468 then z + 719468 else z + 719468 - 146096) ÷ 146097 = era)
    by (bcases; zdm).
  rewrite Hera. rewrite (year_of_era _ yoe Hy) by (unfold leap in Hd; zdm).
  replace (z + 719468 - era * 146097 - (365 * yoe + yoe ÷ 4 - yoe ÷ 100)) with doy by zdm.
  assert (0 <= doy < 366) by lia. clear Hdoe Hera Hd Hz.
  assert (Hmp : (5 * doy + 2) ÷ 153 = (5 * doy + 2) / 153) by (apply Z.quot_div_nonneg; lia).
  cbv zeta. rewrite Hmp. set (mp := (5 * doy + 2) / 153).
  assert (0 <= mp <= 11) by (unfold mp; zdm).
  rewrite !i32_small by (unfold is_i32, mp; bcases; zdm).
  rewrite Z.quot_div_nonneg by lia. done.
Qed.

(** Every day is some day of some March-based year. *)
Lemma march_split z : exists era yoe doy,
  0 <= yoe < 400 /\ z + 719468 = era * 146097 + (365 * yoe + yoe / 4 - yoe / 100) + doy /\
  0 <= doy < 365 + Z.b2z (leap (yoe + 1)).
Proof.
  exists ((z + 719468) / 146097).
  destruct (year_of_era_exists ((z + 719468) mod 146097)) as (y & Hy & Hr); [apply Z.mod_pos_bound; lia|].
  exists y, ((z + 719468) mod 146097 - (365 * y + y / 4 - y / 100)). split; [done|]. split; [zdm|].
  unfold leap. zdm.
Qed.

Lemma leap_era y era : leap (y + era * 400) = leap y.
Proof. unfold leap. zdm. Qed.

Lemma civil_from_days_valid z : valid_date (civil_from_days z) /\ day_number (civil_from_days z) = z.
Proof.
  destruct (march_split z) as (era & yoe & doy & Hy & Hz & Hd).
  rewrite (civil_from_days_march z era yoe doy) by done. cbv zeta.
  set (mp := (5 * doy + 2) / 153). assert (Hmp : 0 <= mp <= 11) by (unfold mp; zdm).
  set (m := if mp <? 10 then mp + 3 else mp - 9).
  assert (Hm : 1 <= m <= 12) by (unfold m; bcases).
  assert (Hml : month_length (yoe + era * 400 + Z.b2z (m <=? 2)) m =
                if m =? 2 then 28 + Z.b2z (leap (yoe + 1)) else month_length 1 m).
  { unfold month_length. destruct (m =? 2) eqn:E; [|done].
    replace (yoe + era * 400 + Z.b2z (m <=? 2)) with (yoe + 1 + era * 400) by lia. by rewrite leap_era. }
  split.
  - unfold valid_date. split; [done|]. rewrite Hml. clear Hml Hz.
    assert (Hr : 153 * mp <= 5 * doy + 2 < 153 * mp + 153) by (unfold mp; zdm). clearbody mp. subst m.
    destruct (leap (yoe + 1)); cbn [Z.b2z] in *;
      mcases mp Hmp; match goal with |- 1 <= _ <= ?b => let v := eval vm_compute in b in change b with v end; zdm.
  - unfold day_number. rewrite days_from_civil_march by done.
    replace (yoe + era * 400 + Z.b2z (m <=? 2) - Z.b2z (m <=? 2)) with (yoe + era * 400) by lia.
    assert (Hmm : (m + 9) mod 12 = mp) by (unfold m; bcases; zdm). rewrite Hmm.
    unfold march1. zdm.
Qed.

Lemma days_from_civil_inverse y m d :
  valid_date (y, m, d) -> civil_from_days (days_from_civil y m d) = (y, m, d).
Proof.
  intros [Hm Hd]. rewrite days_from_civil_march by done.
  set (y' := y - Z.b2z (m <=? 2)). set (mp := (m + 9) mod 12).
  assert (Hmp : 0 <= mp <= 11) by (unfold mp; zdm).
  assert (Hl : leap (y' mod 400 + 1) = leap (y' + 1)).
  { rewrite <- (leap_era (y' mod 400 + 1) (y' / 400)). f_equal. zdm. }
  assert (Hdoy : 0 <= (153 * mp + 2) / 5 + d - 1 < 365 + Z.b2z (leap (y' mod 400 + 1))
                 /\ (5 * ((153 * mp + 2) / 5 + d - 1) + 2) / 153 = mp).
  { rewrite Hl. unfold month_length in Hd. subst y' mp.
    mcases m Hm; simpl in *;
      try replace (y - 1 + 1) with y by lia; try destruct (leap y); simpl in *; try destruct (leap _); simpl; zdm. }
  destruct Hdoy as [Hdoy Hback].
  rewrite (civil_from_days_march _ (y' / 400) (y' mod 400) ((153 * mp + 2) / 5 + d - 1));
    [|apply Z.mod_pos_bound; lia|unfold march1; zdm|done].
  cbv zeta. rewrite Hback. assert (Hm' : (if mp <? 10 then mp + 3 else mp - 9) = m) by (unfold mp; bcases; zdm).
  rewrite Hm'. repeat f_equal; unfold y'; zdm.
Qed.

Lemma next_day_spec p : valid_date p -> valid_date (next_day p) /\ day_number (next_day p) = day_number p + 1.
Proof.
  destruct p as [[y m] d]. intros [Hm Hd]. unfold next_day. destruct (d <? month_length y m) eqn:E1; [|destruct (m <? 12) eqn:E2].
  - split; [unfold valid_date; lia|]. unfold day_number. rewrite !days_from_civil_march by done. lia.
  - assert (d = month_length y m) by lia. split; [unfold valid_date, month_length; bcases|].
    unfold day_number. rewrite !days_from_civil_march by lia. subst d.
    unfold month_length, march1, leap. mcases m Hm; simpl; zdm.
  - assert (d = month_length y m) by lia. assert (m = 12) by lia. subst.
    split; [unfold valid_date; change (month_length (y + 1) 1) with 31; lia|].
    unfold day_number. rewrite !days_from_civil_march by lia. unfold march1.
    change (month_length y 12) with 31. simpl. zdm.
Qed.

Lemma leap_year_length y : days_from_civil (y + 1) 1 1 - days_from_civil y 1 1 = 365 + Z.b2z (leap y).
Proof. rewrite !days_from_civil_march by lia. unfold march1, leap. simpl. zdm. Qed.

(** C33. [civil_from_days] enumerates the proleptic Gregorian calendar: day 0 is
    1970-01-01; every day number gives an existing date (month 1 to 12, day 1
    to the length of that month in that year); the next day number gives the
    next date; [days_from_civil] is its two-sided inverse. *)
Theorem civil_days_calendar :
  civil_from_days 0 = (1970, 1, 1) /\
  (forall z, valid_date (civil_from_days z) /\
             civil_from_days (z + 1) = next_day (civil_from_days z) /\
             day_number (civil_from_days z) = z) /\
  (forall y m d, valid_date (y, m, d) -> civil_from_days (days_from_civil y m d) = (y, m, d)).
Proof.
  split; [done|]. split; [|apply days_from_civil_inverse]. intros z.
  destruct (civil_from_days_valid z) as [Hv Hn]. split_and!; [done| |done].
  destruct (next_day_spec _ Hv) as [Hv' Hn']. rewrite Hn in Hn'. rewrite <- Hn'.
  destruct (next_day (civil_from_days z)) as [[y m] d]. by apply days_from_civil_inverse.
Qed.

(** ** Broken-down time *)

Definition date_of (t : Z) : Z * Z * Z := civil_from_days (t / 86400).
Definition year_of (t : Z) : Z := fst (fst (date_of t)).

(** The times whose year fits [tm_year]. *)
Definition fits (t : Z) : bool := (INT_MIN <=? year_of t - 1900) && (year_of t - 1900 <=? INT_MAX).

(** The fields of the time [t]. *)
Definition broken_down (t : Z) (zone : option (list Z)) : tm :=
  let days := t / 86400 in
  let '(y, m, d) := date_of t in
  mkTm (t mod 60) (t / 60 mod 60) (t / 3600 mod 24) d (m - 1) (y - 1900)
    ((days + 4) mod 7) (days - days_from_civil y 1 1) 0 0 zone.

Lemma year_bounds y m d z : valid_date (y, m, d) -> days_from_civil y m d = z ->
  0 <= z - days_from_civil y 1 1 < 365 + Z.b2z (leap y).
Proof.
  intros [Hm Hd] <-. rewrite !days_from_civil_march by lia. unfold march1.
  unfold month_length in Hd. unfold leap in *. mcases m Hm; simpl in *; zdm.
Qed.

Lemma date_of_spec t y m d : date_of t = (y, m, d) ->
  valid_date (y, m, d) /\ days_from_civil y m d = t / 86400 /\ y = year_of t /\
  0 <= t / 86400 - days_from_civil y 1 1 < 365 + Z.b2z (leap y).
Proof.
  intros Hd. unfold year_of. rewrite Hd. unfold date_of in Hd.
  destruct (civil_from_days_valid (t / 86400)) as [Hv Hn]. rewrite Hd in Hv, Hn.
  split; [done|]. split; [done|]. split; [done|]. by eapply year_bounds.
Qed.

(** A year that fits an int is within some 2^56 seconds of the epoch. *)
Lemma fits_range t : fits t = true -> - 2 ^ 57 < t < 2 ^ 57.
Proof.
  unfold fits. destruct (date_of t) as [[y m] d] eqn:Hd. apply date_of_spec in Hd as (Hv & Hn & <- & Hr).
  rewrite days_from_civil_march in Hr by lia. unfold march1, INT_MIN, INT_MAX in *. simpl in *. zdm.
Qed.

Lemma break_down_eq t out zone :
  break_down t out zone =
  if fits t then (true, broken_down t zone)
  else (false, mkTm (t mod 60) (t / 60 mod 60) (t / 3600 mod 24) (tm_mday out) (tm_mon out)
                 (i32 (year_of t - 1900)) ((t / 86400 + 4) mod 7) (tm_yday out) 0 0 zone).
Proof.
  unfold break_down, broken_down, fits. rewrite floor_div_spec, floor_mod_spec by (unfold SECS_PER_DAY; lia).
  change SECS_PER_DAY with 86400. fold (date_of t). unfold year_of.
  destruct (date_of t) as [[y m] d] eqn:Hd. apply date_of_spec in Hd as ([Hm Hv] & Hn & _ & Hr).
  assert (Hrem : t - t / 86400 * 86400 = t mod 86400) by zdm. rewrite Hrem. cbn [fst].
  rewrite (i32_small (t mod 86400 ÷ 3600)), (i32_small (Z.rem (t mod 86400) 3600 ÷ 60)),
    (i32_small (Z.rem (t mod 86400) 60)), (i32_small ((t / 86400 + 4) mod 7)) by (unfold is_i32; zdm).
  assert (Hs : Z.rem (t mod 86400) 60 = t mod 60) by zdm.
  assert (Hmin : Z.rem (t mod 86400) 3600 ÷ 60 = t / 60 mod 60) by zdm.
  assert (Hh : t mod 86400 ÷ 3600 = t / 3600 mod 24) by zdm. rewrite Hs, Hmin, Hh.
  unfold INT_MIN, INT_MAX. destruct ((2147483647 <? y - 1900) || (y - 1900 <? -2147483648)) eqn:E.
  - bool_if. done.
  - bool_if. unfold set_mday, set_mon, set_yday, set_year; cbn -[i32 days_from_civil Z.div Z.modulo].
    rewrite !i32_small by (unfold is_i32; lia). done.
Qed.

(** ** From fields to seconds *)

(** Date, hours and minutes in seconds: the month is carried into the year, the
    other fields count from its first day. *)
Definition seconds_hm (g : tm) : Z :=
  86400 * (days_from_civil (tm_year g + 1900 + tm_mon g / 12) (tm_mon g mod 12 + 1) 1 + (tm_mday g - 1))
  + (tm_hour g * 3600 + tm_min g * 60).

Definition seconds (g : tm) : Z := seconds_hm g + tm_sec g.

(** The fields that are added up are C ints. *)
Definition int_fields (g : tm) : Prop := is_i32 (tm_hour g) /\ is_i32 (tm_min g) /\ is_i32 (tm_sec g).

Lemma fst_break_down t out zone : fst (break_down t out zone) = fits t.
Proof. rewrite break_down_eq. by destruct (fits t). Qed.

Lemma in_i64_false_fits x : in_i64 x = false -> fits x = false.
Proof.
  intros H. destruct (fits x) eqn:E; [|done]. apply fits_range in E.
  unfold in_i64, LLONG_MIN, LLONG_MAX in H. lia.
Qed.

Lemma to_seconds_hm_eq g : int_fields g ->
  to_seconds_hm g = if fits (seconds_hm g) then Some (seconds_hm g) else None.
Proof.
  intros (Hh & Hmi & Hs). unfold to_seconds_hm. rewrite floor_div_spec, floor_mod_spec by lia.
  rewrite i32_small by (unfold is_i32; zdm). change SECS_PER_DAY with 86400. rewrite fst_break_down.
  rewrite (Z.mul_comm _ 86400). fold (seconds_hm g).
  destruct (fits (seconds_hm g)) eqn:E.
  - apply fits_range in E. unfold seconds_hm, is_i32 in *. rewrite !(proj2 (in_i64_spec _)); [done|..];
      unfold is_i64; lia.
  - by repeat case_match.
Qed.

Lemma seconds_day g t y m d : date_of t = (y, m, d) -> tm_year g = y - 1900 -> tm_mon g = m - 1 -> tm_mday g = d ->
  seconds_hm g = 86400 * (t / 86400) + (tm_hour g * 3600 + tm_min g * 60).
Proof.
  intros Hd Hy Hm Hmd. apply date_of_spec in Hd as ([Hm' Hv] & Hn & _). unfold seconds_hm.
  rewrite Hy, Hm, Hmd, <- Hn, Z.div_small, Z.mod_small by lia.
  replace (y - 1900 + 1900 + 0) with y by lia. replace (m - 1 + 1) with m by lia.
  rewrite !days_from_civil_march by lia. lia.
Qed.

Lemma broken_down_seconds t zone :
  seconds_hm (broken_down t zone) = t - t mod 60 /\ seconds (broken_down t zone) = t /\
  int_fields (broken_down t zone) /\ year_of (t - t mod 60) = year_of t.
Proof.
  destruct (date_of t) as [[y m] d] eqn:Hd. unfold seconds.
  assert (Hb : broken_down t zone = mkTm (t mod 60) (t / 60 mod 60) (t / 3600 mod 24) d (m - 1) (y - 1900)
    ((t / 86400 + 4) mod 7) (t / 86400 - days_from_civil y 1 1) 0 0 zone) by (unfold broken_down; by rewrite Hd).
  rewrite (seconds_day _ t y m d) by (by rewrite ?Hb). rewrite Hb; cbn [tm_hour tm_min tm_sec].
  split; [zdm|]. split; [zdm|]. split; [unfold int_fields, is_i32; simpl; zdm|].
  unfold year_of, date_of. by replace ((t - t mod 60) / 86400) with (t / 86400) by zdm.
Qed.

Lemma timegm_eq g errno : int_fields g ->
  timegm g errno =
  if fits (seconds_hm g) && fits (seconds g) then (seconds g, broken_down (seconds g) GMT, errno)
  else (-1, set_isdst 0 g, EOVERFLOW).
Proof.
  intros Hi. unfold timegm, to_seconds. rewrite to_seconds_hm_eq by done.
  destruct (fits (seconds_hm g)); cbn [andb]; [|reflexivity]. fold (seconds g).
  destruct (in_i64 (seconds g)) eqn:E; [|by rewrite in_i64_false_fits].
  rewrite break_down_eq. by destruct (fits (seconds g)).
Qed.

Lemma mktime_eq g errno : int_fields g ->
  let dst := if 0 <? tm_isdst g then 3600 else 0 in
  mktime g errno =
  if fits (seconds_hm g) && fits (seconds_hm g - dst) && fits (seconds g - dst)
  then (seconds g - dst, broken_down (seconds g - dst) UTC, errno)
  else (-1, g, EOVERFLOW).
Proof.
  intros Hi dst. unfold mktime, to_epoch. rewrite to_seconds_hm_eq by done.
  destruct (fits (seconds_hm g)) eqn:E0; cbn [andb]; [|reflexivity]. cbv zeta. rewrite !fst_break_down.
  assert (Hs : (if 0 <? tm_isdst g then seconds_hm g - 3600 else seconds_hm g) = seconds_hm g - dst)
    by (unfold dst; destruct (0 <? tm_isdst g); lia). rewrite Hs.
  replace (seconds_hm g - dst + tm_sec g) with (seconds g - dst) by (unfold seconds; lia).
  assert (H1 : fits (seconds_hm g - dst) = true \/
    (0 <? tm_isdst g) && negb (fits (seconds_hm g - dst)) = true /\ fits (seconds_hm g - dst) = false).
  { unfold dst. destruct (0 <? tm_isdst g); [|left; by rewrite Z.sub_0_r].
    destruct (fits (seconds_hm g - 3600)); auto. }
  destruct H1 as [H1|[H1 H1']].
  - rewrite H1. apply fits_range in E0 as E0'. rewrite (proj2 (in_i64_spec (seconds_hm g - 3600))) by (unfold is_i64; lia).
    cbn [negb]. rewrite !andb_false_r. cbn [andb].
    destruct (in_i64 (seconds g - dst)) eqn:E; cbn [negb]; [|by rewrite in_i64_false_fits].
    destruct (fits (seconds g - dst)) eqn:E2; cbn [negb]; [|done]. by rewrite break_down_eq, E2.
  - rewrite H1, H1'. cbn [andb]. destruct ((0 <? tm_isdst g) && negb (in_i64 (seconds_hm g - 3600))); reflexivity.
Qed.

(** ** Theorems *)

(** C34. [gmtime_r] on any 64-bit time: when the year fits an int the result is
    the UTC calendar time of [t]: the fields are in range, the date exists, the
    fields add up to [t] again, [tm_wday] and [tm_yday] count from the Thursday
    1970-01-01 and from January 1 of the same year, and errno is unchanged;
    otherwise it is NULL with EOVERFLOW. *)
Theorem gmtime_r_correct t out errno :
  let '(ok, g, errno') := gmtime_r t out errno in
  if ok then
    let y := tm_year g + 1900 in
    0 <= tm_sec g < 60 /\ 0 <= tm_min g < 60 /\ 0 <= tm_hour g < 24 /\ is_i32 (tm_year g) /\
    valid_date (y, tm_mon g + 1, tm_mday g) /\
    t = 86400 * day_number (y, tm_mon g + 1, tm_mday g) + 3600 * tm_hour g + 60 * tm_min g + tm_sec g /\
    tm_wday g = (day_number (y, tm_mon g + 1, tm_mday g) + 4) mod 7 /\
    tm_yday g = day_number (y, tm_mon g + 1, tm_mday g) - day_number (y, 1, 1) /\
    0 <= tm_yday g < 365 + Z.b2z (leap y) /\
    tm_isdst g = 0 /\ tm_gmtoff g = 0 /\ tm_zone g = GMT /\ errno' = errno
  else errno' = EOVERFLOW /\ ~ is_i32 (year_of t - 1900).
Proof.
  unfold gmtime_r. rewrite break_down_eq. destruct (fits t) eqn:Hf.
  - unfold broken_down. unfold fits in Hf. destruct (date_of t) as [[y m] d] eqn:Hd.
    apply date_of_spec in Hd as (Hv & Hn & Hy & Hr). rewrite <- Hy in Hf.
    cbn [tm_sec tm_min tm_hour tm_mday tm_mon tm_year tm_wday tm_yday tm_isdst tm_gmtoff tm_zone].
    replace (y - 1900 + 1900) with y by lia. replace (m - 1 + 1) with m by lia. unfold day_number. rewrite Hn.
    unfold INT_MIN, INT_MAX, is_i32 in *. split_and!; try apply Hv; try reflexivity; zdm.
  - split; [reflexivity|]. unfold fits, INT_MIN, INT_MAX in Hf. unfold is_i32. lia.
Qed.

(** C35. [timegm] undoes [gmtime_r]: on a structure that [gmtime_r] filled it
    returns the original time and leaves the structure and errno as they are. *)
Theorem timegm_gmtime_roundtrip t out errno g errno' errno2 :
  gmtime_r t out errno = (true, g, errno') -> timegm g errno2 = (t, g, errno2).
Proof.
  unfold gmtime_r. rewrite break_down_eq. destruct (fits t) eqn:Hf; [|discriminate].
  intros H. injection H as <- _. destruct (broken_down_seconds t GMT) as (Hhm & Hs & Hi & Hy).
  rewrite timegm_eq by done. rewrite Hhm, Hs, Hf. unfold fits in *. rewrite Hy, Hf. reflexivity.
Qed.
Lemma timegm_gmtime_roundtrip_witness :
  exists g, gmtime_r 1700000000 (broken_down 0 UTC) 0 = (true, g, 0) /\ timegm g 5 = (1700000000, g, 5).
Proof.
  eexists. split; [vm_compute; reflexivity|].
  apply (timegm_gmtime_roundtrip 1700000000 (broken_down 0 UTC) 0 _ 0 5). vm_compute. reflexivity.
Defined.

(** [timegm] on arbitrary int fields, out of range ones included: when the
    total of date, hours and minutes and the total with the seconds both have
    a year that fits, it returns that number of seconds and rewrites the
    structure with the normalised UTC fields; in every other case (64-bit
    overflow of an intermediate included) it returns -1 with EOVERFLOW and
    only clears [tm_isdst]. *)
Theorem timegm_normalises g errno :
  int_fields g ->
  (fits (seconds_hm g) = true -> fits (seconds g) = true ->
   timegm g errno = (seconds g, broken_down (seconds g) GMT, errno)) /\
  (fits (seconds_hm g) = false \/ fits (seconds g) = false ->
   timegm g errno = (-1, set_isdst 0 g, EOVERFLOW)).
Proof.
  intros Hi. rewrite timegm_eq by done. split.
  - intros -> ->. reflexivity.
  - intros [-> | ->]; [reflexivity|]. by rewrite andb_false_r.
Qed.
Definition overfull : tm := mkTm (-1) 70 25 0 14 100 0 0 1 0 None.
Lemma timegm_normalises_witness :
  int_fields overfull /\
  timegm overfull 0 = (seconds overfull, broken_down (seconds overfull) GMT, 0) /\ seconds overfull = 983412599.
Proof.
  split; [unfold int_fields, is_i32; simpl; lia|]. split; [|vm_compute; reflexivity].
  apply (timegm_normalises overfull 0); [unfold int_fields, is_i32; simpl; lia|vm_compute; reflexivity..].
Defined.

(** [mktime] does not ignore [tm_isdst] although the zone is UTC: where
    [timegm] succeeds on a structure with [tm_isdst > 0] and the hour before is
    representable, [mktime] returns a time one hour earlier. *)
Theorem mktime_subtracts_dst_hour g errno :
  int_fields g -> 0 < tm_isdst g ->
  fits (seconds_hm g) = true -> fits (seconds_hm g - 3600) = true ->
  fits (seconds g) = true -> fits (seconds g - 3600) = true ->
  fst (fst (mktime g errno)) = fst (fst (timegm g errno)) - 3600.
Proof.
  intros Hi Hd H1 H2 H3 H4. rewrite mktime_eq, timegm_eq by done.
  replace (0 <? tm_isdst g) with true by lia. rewrite H1, H2, H3, H4. reflexivity.
Qed.
Definition summer_noon : tm := mkTm 0 0 12 1 6 124 0 0 1 0 None.
Lemma mktime_subtracts_dst_hour_witness :
  fst (fst (mktime summer_noon 0)) = fst (fst (timegm summer_noon 0)) - 3600.
Proof.
  apply mktime_subtracts_dst_hour; try (vm_compute; reflexivity). unfold int_fields, is_i32; simpl; lia.
Defined.
