(* ===== verification/Strftime.v ===== *)
(** * strftime and asctime (lib/moqi_libc/src/timeconv.c, middle part)

    The output buffer is the list of its bytes and every write is checked
    against it ([array_write]): a run that would write outside the buffer is
    [None].  A run otherwise gives the C return code (1 done, 0 does not fit,
    -1 unknown conversion) and the new sink.  Format strings are byte lists
    up to the NUL, a pointer into one is the suffix it points to.  [format]
    calls itself through [put_composite]; [depth] bounds that nesting, and
    the refinement theorem below shows that the depth used is enough.
    Arithmetic on int fields is exact where its range is known, wraps where
    the source wraps it, and is checked by [int_op] elsewhere: an overflow is
    undefined in C, and [None] here. *)

From S2P Require Import Prelude Mem Digits Calendar.

Record sink := mkSink { sk_p : list Z; sk_i : Z; sk_max : Z }.

Definition run := option (Z * sink).

Definition and_then (r : run) (k : sink -> run) : run :=
  match r with
  | None => None
  | Some (rc, o) => if rc =? 0 then Some (0, o) else k o
  end.

Declare Scope sink_scope.
Delimit Scope sink_scope with sink.
Notation "o '<~' r ; k" := (and_then r (fun o => k))
  (at level 100, r at next level, k at level 200, right associativity) : sink_scope.
#[local] Open Scope sink_scope.

Definition room (o : sink) (n : Z) : bool := n <? u64 (sk_max o - sk_i o).

(** The write of [n] bytes at the cursor, once there is room. *)
Definition append (o : sink) (bytes : list Z) : run :=
  match array_write (sk_p o) (sk_i o) bytes with
  | None => None
  | Some p => Some (1, mkSink p (sk_i o + len bytes) (sk_max o))
  end.

Definition put (o : sink) (s : list Z) : run :=
  if negb (room o (len s)) then Some (0, o) else append o s.

Definition put_fill (o : sink) (n c : Z) : run :=
  if negb (room o n) then Some (0, o) else append o (replicate (Z.to_nat n) c).

Definition up (c : Z) : Z := if (chr "a" <=? c) && (c <=? chr "z") then c - chr "a" + chr "A" else c.
Definition low (c : Z) : Z := if (chr "A" <=? c) && (c <=? chr "Z") then c - chr "A" + chr "a" else c.

Record spec := mkSpec { sp_pad : Z; sp_upper : bool; sp_swap : bool; sp_width : Z; sp_has_width : bool }.

(** [if (cond && !put_fill(...)) return 0;] *)
Definition fill_when (cond : bool) (o : sink) (n c : Z) : run := if cond then put_fill o n c else Some (1, o).

Definition put_text (o : sink) (s : list Z) (sp : spec) (force_upper force_lower : bool) : run :=
  o <~ fill_when (sp_has_width sp && (len s <? sp_width sp)) o (sp_width sp - len s)
         (if sp_pad sp =? chr "0" then chr "0" else chr " ");
  if negb (room o (len s)) then Some (0, o)
  else append o (map (fun c => if force_lower then low c else if force_upper then up c else c) s).

Definition put_when (cond : bool) (o : sink) (s : list Z) : run := if cond then put o s else Some (1, o).

Definition magnitude (value : Z) : Z := if value <? 0 then u64 (0 - u64 value) else u64 value.

Definition put_number (o : sink) (value digits dflt : Z) (sp : spec) : run :=
  let neg := value <? 0 in
  let buf := decimal (magnitude value) in
  let pad := if negb (sp_pad sp =? 0) then sp_pad sp else dflt in
  let text := len buf + (if neg then 1 else 0) in
  let target := digits in
  let target := if sp_has_width sp && (target <? sp_width sp) then sp_width sp else target in
  let target := if pad =? chr "-" then (if sp_has_width sp then sp_width sp else 0) else target in
  let fill := if text <? target then target - text else 0 in
  o <~ (if pad =? chr "0" then
          (o <~ put_when neg o [chr "-"]; put_fill o fill (chr "0"))
        else
          (o <~ put_fill o fill (chr " "); put_when neg o [chr "-"]));
  put o buf.

Definition day_long : list (list Z) :=
  [str "Sunday"; str "Monday"; str "Tuesday"; str "Wednesday"; str "Thursday"; str "Friday"; str "Saturday"].
Definition month_long : list (list Z) :=
  [str "January"; str "February"; str "March"; str "April"; str "May"; str "June"; str "July"; str "August";
   str "September"; str "October"; str "November"; str "December"].

Definition wrap_add (a b : Z) : Z := i32 (u32 (u32 a + u32 b)).
Definition wrap_sub (a b : Z) : Z := i32 (u32 (u32 a - u32 b)).

Definition cal_year (g : tm) : Z := wrap_add (tm_year g) 1900.

Definition leap_year (y : Z) : bool :=
  (Z.rem y 4 =? 0) && (negb (Z.rem y 100 =? 0) || (Z.rem y 400 =? 0)).

(** The result of an addition or subtraction of ints. *)
Definition int_op (x : Z) : option Z := if (INT_MIN <=? x) && (x <=? INT_MAX) then Some x else None.

Definition iso_week_days (yday wday : Z) : option Z :=
  let big_enough_multiple_of_7 := (366 ÷ 7 + 2) * 7 in
  a ← int_op (yday - wday);
  a ← int_op (a + 4);
  a ← int_op (a + big_enough_multiple_of_7);
  b ← int_op (yday - Z.rem a 7);
  int_op (b + 3).

Definition iso_week (g : tm) : option (Z * Z) :=
  let y := cal_year g in
  days ← iso_week_days (tm_yday g) (tm_wday g);
  '(y, days) ←
    (if days <? 0 then
      let y := wrap_sub y 1 in
      yday ← int_op (tm_yday g + (365 + Z.b2z (leap_year y)));
      days ← iso_week_days yday (tm_wday g);
      Some (y, days)
    else
      yday ← int_op (tm_yday g - (365 + Z.b2z (leap_year y)));
      d ← iso_week_days yday (tm_wday g);
      Some (if 0 <=? d then (wrap_add y 1, d) else (y, days)));
  Some (y, days ÷ 7 + 1).

Definition floor_div_int (a b : Z) : Z :=
  let q := a ÷ b in
  if negb (Z.rem a b =? 0) && negb (Bool.eqb (a <? 0) (b <? 0)) then q - 1 else q.

(** A nested [format] into the 64-byte array [tmp], whose contents do not
    matter before the call. *)
Definition formatter := sink -> list Z -> tm -> run.

Definition put_composite (format : formatter) (o : sink) (sub : list Z) (g : tm) (sp : spec) (force_upper : bool) : run :=
  match format (mkSink (replicate 64 0) 0 64) sub g with
  | None => None
  | Some (rc, t) =>
      if rc =? 0 then Some (0, o)
      else put_text o (take (Z.to_nat (sk_i t)) (sk_p t)) sp force_upper false
  end.

Definition convert (format : formatter) (o : sink) (c : Z) (sp : spec) (g : tm) : run :=
  let composite := put_composite format o in
  if c =? chr "%" then put_text o [chr "%"] sp false false
  else if c =? chr "n" then put_text o [10] sp false false
  else if c =? chr "t" then put_text o [9] sp false false
  else if (c =? chr "a") || (c =? chr "A") then
    let ok := (0 <=? tm_wday g) && (tm_wday g <=? 6) in
    let name := if ok then default [] (day_long !! Z.to_nat (tm_wday g)) else str "?" in
    let n := if ok then (if c =? chr "a" then 3 else len name) else 1 in
    put_text o (take (Z.to_nat n) name) sp (sp_upper sp || sp_swap sp) false
  else if (c =? chr "b") || (c =? chr "B") || (c =? chr "h") then
    let ok := (0 <=? tm_mon g) && (tm_mon g <=? 11) in
    let name := if ok then default [] (month_long !! Z.to_nat (tm_mon g)) else str "?" in
    let n := if ok then (if c =? chr "B" then len name else 3) else 1 in
    put_text o (take (Z.to_nat n) name) sp (sp_upper sp || sp_swap sp) false
  else if (c =? chr "p") || (c =? chr "P") then
    let ampm := if 11 <? tm_hour g then str "PM" else str "AM" in
    let lower := (c =? chr "P") || sp_swap sp in
    put_text o ampm sp false lower
  else if c =? chr "c" then composite (str "%a %b %e %H:%M:%S %Y") g sp (sp_upper sp)
  else if (c =? chr "x") || (c =? chr "D") then composite (str "%m/%d/%y") g sp false
  else if (c =? chr "X") || (c =? chr "T") then composite (str "%H:%M:%S") g sp false
  else if c =? chr "r" then composite (str "%I:%M:%S %p") g sp false
  else if c =? chr "R" then composite (str "%H:%M") g sp false
  else if c =? chr "F" then composite (str "%Y-%m-%d") g sp false
  else if c =? chr "C" then put_number o (floor_div_int (cal_year g) 100) 1 (chr "0") sp
  else if c =? chr "d" then put_number o (tm_mday g) 2 (chr "0") sp
  else if c =? chr "e" then put_number o (tm_mday g) 2 (chr "_") sp
  else if c =? chr "H" then put_number o (tm_hour g) 2 (chr "0") sp
  else if c =? chr "k" then put_number o (tm_hour g) 2 (chr "_") sp
  else if (c =? chr "I") || (c =? chr "l") then
    let hour12 := tm_hour g in
    let hour12 := if 12 <? hour12 then hour12 - 12 else if hour12 =? 0 then 12 else hour12 in
    put_number o hour12 2 (if c =? chr "I" then chr "0" else chr "_") sp
  else if c =? chr "j" then put_number o (tm_yday g + 1) 3 (chr "0") sp
  else if c =? chr "m" then put_number o (tm_mon g + 1) 2 (chr "0") sp
  else if c =? chr "M" then put_number o (tm_min g) 2 (chr "0") sp
  else if c =? chr "S" then put_number o (tm_sec g) 2 (chr "0") sp
  else if c =? chr "u" then
    a ← int_op (tm_wday g + 6); put_number o (Z.rem (Z.rem a 7 + 7) 7 + 1) 1 (chr "0") sp
  else if c =? chr "w" then put_number o (tm_wday g) 1 (chr "0") sp
  else if c =? chr "U" then
    a ← int_op (tm_yday g - tm_wday g); a ← int_op (a + 7); put_number o (a ÷ 7) 2 (chr "0") sp
  else if c =? chr "W" then
    a ← int_op (tm_wday g - 1); a ← int_op (a + 7);
    b ← int_op (tm_yday g - Z.rem a 7); b ← int_op (b + 7); put_number o (b ÷ 7) 2 (chr "0") sp
  else if c =? chr "V" then '(y, w) ← iso_week g; put_number o w 2 (chr "0") sp
  else if c =? chr "G" then '(y, w) ← iso_week g; put_number o y 1 (chr "0") sp
  else if c =? chr "g" then
    '(y, w) ← iso_week g; put_number o (Z.rem (Z.rem y 100 + 100) 100) 2 (chr "0") sp
  else if c =? chr "y" then put_number o (Z.rem (Z.rem (tm_year g) 100 + 100) 100) 2 (chr "0") sp
  else if c =? chr "Y" then put_number o (cal_year g) 1 (chr "0") sp
  else if c =? chr "s" then
    let secs := match to_epoch g with Some secs => secs | None => -1 end in
    let text := (if secs <? 0 then [chr "-"] else []) ++ decimal (magnitude secs) in
    put_text o text sp false false
  else if c =? chr "z" then
    if tm_isdst g <? 0 then Some (1, o) else
    let off := tm_gmtoff g in
    let mag := magnitude off in
    let hhmm := u64 (u64 ((mag / 3600) * 100) + (mag mod 3600) / 60) in
    let w := if sp_has_width sp then sp_width sp else 0 in
    let pad := if negb (sp_pad sp =? 0) then sp_pad sp else chr "0" in
    let digit_cols := if pad =? chr "-" then w else if 4 <? w then w else 4 in
    let buf := decimal hhmm in
    o <~ fill_when (1 <? w) o (w - 1) (if sp_pad sp =? chr "0" then chr "0" else chr " ");
    o <~ put o [if off <? 0 then chr "-" else chr "+"];
    o <~ fill_when (len buf <? digit_cols) o (digit_cols - len buf)
           (if pad =? chr "0" then chr "0" else chr " ");
    put o buf
  else if c =? chr "Z" then
    let zone := match tm_zone g with Some (b :: z) => Some (b :: z) | _ => None end in
    match zone with
    | None =>
        if tm_isdst g <? 0 then put_text o [] sp false false
        else put_text o (if 1 <? tm_isdst g then str "?" else str "UTC") sp (sp_upper sp) (sp_swap sp)
    | Some zone => put_text o zone sp (sp_upper sp) (sp_swap sp)
    end
  else Some (-1, o).

Definition modifier_accepts (mod_ c : Z) : bool :=
  let set := if mod_ =? chr "E" then str "CPRTXYZcnprstuxyz%"
             else str "BCGHIMPRSTUVWZbdeghjklmnprstuwyz%" in
  existsb (fun x => x =? c) set.

(** [for (;; f++) ...] over the flags. *)
Fixpoint flag_loop (f : list Z) (sp : spec) : list Z * spec :=
  match f with
  | [] => (f, sp)
  | c :: f' =>
      if (c =? chr "_") || (c =? chr "-") || (c =? chr "0")
      then flag_loop f' (mkSpec c (sp_upper sp) (sp_swap sp) (sp_width sp) (sp_has_width sp))
      else if c =? chr "^" then flag_loop f' (mkSpec (sp_pad sp) true (sp_swap sp) (sp_width sp) (sp_has_width sp))
      else if c =? chr "#" then flag_loop f' (mkSpec (sp_pad sp) (sp_upper sp) true (sp_width sp) (sp_has_width sp))
      else (f, sp)
  end.

Definition is_dig (c : Z) : bool := (chr "0" <=? c) && (c <=? chr "9").

Fixpoint fmt_width_loop (f : list Z) (w : Z) : list Z * Z :=
  match f with
  | [] => (f, w)
  | c :: f' =>
      if is_dig c then
        let w := if 100000000 <? w then 100000000 else w in
        fmt_width_loop f' (w * 10 + (c - chr "0"))
      else (f, w)
  end.

(** Flags, width and modifier of the conversion behind a percent sign. *)
Definition parse_spec (f : list Z) : list Z * spec * Z :=
  let '(f, sp) := flag_loop f (mkSpec 0 false false 0 false) in
  let '(f, sp) :=
    if is_dig (peek f)
    then let '(f, w) := fmt_width_loop f 0 in (f, mkSpec (sp_pad sp) (sp_upper sp) (sp_swap sp) w true)
    else (f, sp) in
  if (peek f =? chr "E") || (peek f =? chr "O") then (drop 1 f, sp, peek f) else (f, sp, 0).

(** The bytes from [start] up to [f], a suffix of it. *)
Definition between (start f : list Z) : list Z := take (length start - length f) start.

Definition echo_pad (o : sink) (sp : spec) (n : Z) : run :=
  fill_when (sp_has_width sp && (n <? sp_width sp)) o (sp_width sp - n)
    (if sp_pad sp =? chr "0" then chr "0" else chr " ").

(** An unknown or invalid conversion is copied through. *)
Definition echo (o : sink) (start f : list Z) (sp : spec) (mod_ c : Z) : run :=
  let n := len start - len f + 1 in
  let n := if (c =? chr "%") && (mod_ =? 0) then 2 else n in
  o <~ echo_pad o sp n;
  let shout := sp_upper sp || (sp_swap sp && (mod_ =? chr "E") && ((c =? chr "b") || (c =? chr "h"))) in
  if negb (room o n) then Some (0, o)
  else append o (map (fun c => if shout then up c else c) (take (Z.to_nat n) start)).

(** The loop of [format]; each round consumes at least one byte, so the length
    of the format string bounds the rounds. *)
Fixpoint format_loop (fuel : nat) (nested : formatter) (o : sink) (f : list Z) (g : tm) : run :=
  match fuel with
  | O => None
  | S fuel =>
      if peek f =? 0 then Some (1, o)
      else if negb (peek f =? chr "%") then
        o <~ put o [peek f]; format_loop fuel nested o (drop 1 f) g
      else
        let start := f in
        let '(f, sp, mod_) := parse_spec (drop 1 f) in
        let c := peek f in
        if c =? 0 then
          o <~ echo_pad o sp (len (between start f)); put o (between start f)
        else
          let r := if negb (mod_ =? 0) && negb (modifier_accepts mod_ c) then Some (-1, o)
                   else convert nested o c sp g in
          match r with
          | None => None
          | Some (rc, o) =>
              if rc =? 0 then Some (0, o)
              else o <~ (if rc <? 0 then echo o start f sp mod_ c else Some (1, o));
                   format_loop fuel nested o (drop 1 f) g
          end
  end.

(** Composites expand to formats without composites: nesting 2 suffices. *)
Fixpoint format_nested (depth : nat) : formatter :=
  fun o f g =>
    match depth with
    | O => None
    | S d => format_loop (S (length f)) (format_nested d) o f g
    end.

Definition format : formatter := format_nested 2.

(** [strftime] returns the number of bytes and the new contents of [buf]. *)
Definition strftime (buf : list Z) (max : Z) (fmt : list Z) (g : tm) : option (Z * list Z) :=
  if max =? 0 then Some (0, buf) else
  match format (mkSink buf 0 max) fmt g with
  | None => None
  | Some (rc, o) =>
      if rc =? 0 then Some (0, sk_p o)
      else buf' ← array_write (sk_p o) (sk_i o) [0]; Some (sk_i o, buf')
  end.

(** ** asctime and ctime *)

Definition ASCTIME_STATIC : nat := 80.

(** [put_int(dst + at, ...)]: the new array and the characters written. *)
Definition put_int (dst : list Z) (at_ value min_digits width : Z) : option (list Z * Z) :=
  let neg := value <? 0 in
  let mag := if neg then u32 (0 - u32 value) else u32 value in
  let digits := decimal mag in
  let digits := replicate (Z.to_nat (min_digits - len digits)) (chr "0") ++ digits in
  let tmp := (if neg then [chr "-"] else []) ++ digits in
  let fill := if len tmp <? width then width - len tmp else 0 in
  dst ← array_write dst at_ (replicate (Z.to_nat fill) (chr " ") ++ tmp);
  Some (dst, fill + len tmp).

Definition put_char (dst : list Z) (n c : Z) : option (list Z * Z) :=
  dst ← array_write dst n [c]; Some (dst, n + 1).

Definition int_field (dst : list Z) (n value min_digits width : Z) : option (list Z * Z) :=
  '(dst, k) ← put_int dst n value min_digits width; Some (dst, n + k).

(** None: a write outside [dst].  Otherwise the return code, the new [dst] and the length. *)
Definition asctime_text (g : tm) (dst : list Z) : option (Z * list Z * Z) :=
  let year := tm_year g + 1900 in
  if negb ((INT_MIN <=? year) && (year <=? INT_MAX)) then Some (-1, dst, 0) else
  let d := if (0 <=? tm_wday g) && (tm_wday g <=? 6)
           then take 3 (default [] (day_long !! Z.to_nat (tm_wday g))) else str "???" in
  let m := if (0 <=? tm_mon g) && (tm_mon g <=? 11)
           then take 3 (default [] (month_long !! Z.to_nat (tm_mon g))) else str "???" in
  let n := 0 in
  dst ← array_write dst n d;
  let n := n + 3 in
  '(dst, n) ← put_char dst n (chr " ");
  dst ← array_write dst n m;
  let n := n + 3 in
  '(dst, n) ← int_field dst n (tm_mday g) 1 3;
  '(dst, n) ← put_char dst n (chr " ");
  '(dst, n) ← int_field dst n (tm_hour g) 2 0;
  '(dst, n) ← put_char dst n (chr ":");
  '(dst, n) ← int_field dst n (tm_min g) 2 0;
  '(dst, n) ← put_char dst n (chr ":");
  '(dst, n) ← int_field dst n (tm_sec g) 2 0;
  '(dst, n) ← put_char dst n (chr " ");
  '(dst, n) ← int_field dst n year 1 0;
  '(dst, n) ← put_char dst n 10;
  dst ← array_write dst n [0];
  Some (0, dst, n).

(** [asctime] works on the static array; the result is true for a pointer to
    it, false for NULL, with the new array and errno.  [None] as an argument
    is the NULL pointer. *)
Definition asctime (g : option tm) (asctime_buf : list Z) (errno : Z) : option (bool * list Z * Z) :=
  match g with
  | None => Some (false, asctime_buf, EINVAL)
  | Some g =>
      '(rc, buf, n) ← asctime_text g asctime_buf;
      if negb (rc =? 0) then Some (false, buf, EOVERFLOW) else Some (true, buf, errno)
  end.

Definition asctime_r (g : option tm) (buf : option (list Z)) (errno : Z) : option (bool * option (list Z) * Z) :=
  match g, buf with
  | Some g, Some buf =>
      '(rc, tmp, n) ← asctime_text g (replicate ASCTIME_STATIC 0);
      if negb (rc =? 0) then Some (false, Some buf, EOVERFLOW)
      else if 26 <=? n then
        buf ← array_write buf 0 (take 25 tmp);
        buf ← array_write buf 25 [0];
        Some (false, Some buf, EOVERFLOW)
      else
        buf ← array_write buf 0 (take (Z.to_nat (n + 1)) tmp);
        Some (true, Some buf, errno)
  | _, _ => Some (false, buf, EINVAL)
  end.

Definition ctime (t : Z) (static_tm : tm) (asctime_buf : list Z) (errno : Z) : option (bool * list Z * Z) :=
  let '(ok, g, errno) := localtime t static_tm errno in
  if ok then asctime (Some g) asctime_buf errno else asctime None asctime_buf errno.

Definition ctime_r (t : Z) (g0 : tm) (buf : option (list Z)) (errno : Z) : option (bool * option (list Z) * Z) :=
  let '(ok, g, errno) := localtime_r t g0 errno in
  if ok then asctime_r (Some g) buf errno else asctime_r None buf errno.
