(* ===== verification/StrftimeSpec.v ===== *)
(** * What strftime prints

    The reference semantics of [strftime]: [strftime_text] is the text of a
    format without any buffer, and the refinement theorem says that the
    buffer code produces exactly this text when it fits and fails, without
    touching anything outside the buffer, when it does not. *)

From S2P Require Import Prelude Mem Digits Calendar Strftime.
#[local] Open Scope sink_scope.

(** ** Reference semantics *)

Inductive outcome : Type :=
  | Text (s : list Z)
  | TooLong
  | Unknown.

Definition seq_text (s : list Z) (k : outcome) : outcome :=
  match k with Text t => Text (s ++ t) | TooLong => TooLong | Unknown => Unknown end.

Definition spaces_or_zeros (sp : spec) (n : Z) : list Z :=
  replicate (Z.to_nat n) (if sp_pad sp =? chr "0" then chr "0" else chr " ").

(** Left padding of a text of [n] characters to the width, if there is one. *)
Definition left_pad (sp : spec) (n : Z) : list Z :=
  if sp_has_width sp then spaces_or_zeros sp (sp_width sp - n) else [].

Definition text_text (s : list Z) (sp : spec) (upper lower : bool) : list Z :=
  left_pad sp (len s) ++ map (fun c => if lower then low c else if upper then up c else c) s.

(** A signed decimal number filled to a number of columns. *)
Definition number_text (value digits dflt : Z) (sp : spec) : list Z :=
  let sign := if value <? 0 then [chr "-"] else [] in
  let body := decimal (Z.abs value) in
  let pad := if sp_pad sp =? 0 then dflt else sp_pad sp in
  let cols :=
    if pad =? chr "-" then (if sp_has_width sp then sp_width sp else 0)
    else if sp_has_width sp then Z.max digits (sp_width sp) else digits in
  let fill := Z.to_nat (cols - len (sign ++ body)) in
  if pad =? chr "0" then sign ++ replicate fill (chr "0") ++ body
  else replicate fill (chr " ") ++ sign ++ body.

Definition plain : spec := mkSpec 0 false false 0 false.
Definition num (value digits : Z) : list Z := number_text value digits (chr "0") plain.

Definition day_name (g : tm) (short : bool) : list Z :=
  if (0 <=? tm_wday g) && (tm_wday g <=? 6) then
    let name := default [] (day_long !! Z.to_nat (tm_wday g)) in if short then take 3 name else name
  else str "?".
Definition month_name (g : tm) (short : bool) : list Z :=
  if (0 <=? tm_mon g) && (tm_mon g <=? 11) then
    let name := default [] (month_long !! Z.to_nat (tm_mon g)) in if short then take 3 name else name
  else str "?".
Definition am_pm (g : tm) : list Z := if 11 <? tm_hour g then str "PM" else str "AM".
Definition hour12 (g : tm) : Z :=
  if 12 <? tm_hour g then tm_hour g - 12 else if tm_hour g =? 0 then 12 else tm_hour g.
Definition year2 (g : tm) : Z := tm_year g mod 100.

(** A weekday and a day of the year. *)
Definition in_year (g : tm) : bool := (0 <=? tm_wday g) && (tm_wday g <=? 6) && (0 <=? tm_yday g) && (tm_yday g <=? 365).

(** How many of the days 0 to [n] of a year that starts on weekday [jan1] are a [day]. *)
Fixpoint weekday_count (day jan1 : Z) (n : nat) : Z :=
  (if (jan1 + Z.of_nat n) mod 7 =? day then 1 else 0) + match n with O => 0 | S n => weekday_count day jan1 n end.

(** The number of the week of the year, for weeks that start on weekday [day]. *)
Definition week_number (day : Z) (g : tm) : Z := weekday_count day (tm_wday g - tm_yday g) (Z.to_nat (tm_yday g)).

(** ISO 8601: a week belongs to the year of its Thursday, [th] days after January 1. *)
Definition iso_year_week (g : tm) : Z * Z :=
  let y := cal_year g in
  let days y := 365 + Z.b2z (leap y) in
  let th := tm_yday g - (tm_wday g + 6) mod 7 + 3 in
  if th <? 0 then let p := wrap_sub y 1 in (p, (th + days p) / 7 + 1)
  else if th <? days y then (y, th / 7 + 1)
  else (wrap_add y 1, (th - days y) / 7 + 1).

(** With fields that are no day of a year, the weeks are what the formulas of the source give. *)
Definition sunday_week (g : tm) : Z := if in_year g then week_number 0 g else (tm_yday g - tm_wday g + 7) ÷ 7.
Definition monday_week (g : tm) : Z :=
  if in_year g then week_number 1 g else (tm_yday g - Z.rem (tm_wday g - 1 + 7) 7 + 7) ÷ 7.
Definition week_date (g : tm) : Z * Z := if in_year g then iso_year_week g else default (0, 0) (iso_week g).

(** The composites, as the concatenation of their parts. *)
Definition text_HMS (g : tm) : list Z :=
  num (tm_hour g) 2 ++ str ":" ++ num (tm_min g) 2 ++ str ":" ++ num (tm_sec g) 2.
Definition text_c (g : tm) : list Z :=
  day_name g true ++ str " " ++ month_name g true ++ str " " ++
  number_text (tm_mday g) 2 (chr "_") plain ++ str " " ++ text_HMS g ++ str " " ++ num (cal_year g) 1.
Definition text_D (g : tm) : list Z :=
  num (tm_mon g + 1) 2 ++ str "/" ++ num (tm_mday g) 2 ++ str "/" ++ num (year2 g) 2.
Definition text_r (g : tm) : list Z :=
  num (hour12 g) 2 ++ str ":" ++ num (tm_min g) 2 ++ str ":" ++ num (tm_sec g) 2 ++ str " " ++ am_pm g.
Definition text_R (g : tm) : list Z := num (tm_hour g) 2 ++ str ":" ++ num (tm_min g) 2.
Definition text_F (g : tm) : list Z :=
  num (cal_year g) 1 ++ str "-" ++ num (tm_mon g + 1) 2 ++ str "-" ++ num (tm_mday g) 2.

(** A composite is assembled in 64 bytes. *)
Definition composite_text (s : list Z) (sp : spec) (upper : bool) : outcome :=
  if len s <? 64 then Text (text_text s sp upper false) else TooLong.

(** The offset from UTC. *)
Definition offset_text (g : tm) (sp : spec) : list Z :=
  if tm_isdst g <? 0 then [] else
  let off := Z.abs (tm_gmtoff g) in
  let body := decimal (off / 3600 * 100 + off mod 3600 / 60) in
  let w := if sp_has_width sp then sp_width sp else 0 in
  let pad := if sp_pad sp =? 0 then chr "0" else sp_pad sp in
  let cols := if pad =? chr "-" then w else Z.max 4 w in
  spaces_or_zeros sp (w - 1) ++ [if tm_gmtoff g <? 0 then chr "-" else chr "+"]
  ++ replicate (Z.to_nat (cols - len body)) (if pad =? chr "0" then chr "0" else chr " ") ++ body.

Definition epoch_text (g : tm) : list Z :=
  let secs := match to_epoch g with Some secs => secs | None => -1 end in
  (if secs <? 0 then [chr "-"] else []) ++ decimal (Z.abs secs).

Definition zone_text (g : tm) (sp : spec) : list Z :=
  match tm_zone g with
  | Some (b :: z) => text_text (b :: z) sp (sp_upper sp) (sp_swap sp)
  | _ => if tm_isdst g <? 0 then text_text [] sp false false
         else text_text (if 1 <? tm_isdst g then str "?" else str "UTC") sp (sp_upper sp) (sp_swap sp)
  end.

Definition conv_text (c : Z) (sp : spec) (g : tm) : outcome :=
  let number v digits := Text (number_text v digits (chr "0") sp) in
  let numberb v digits := Text (number_text v digits (chr "_") sp) in
  if c =? chr "%" then Text (text_text (str "%") sp false false)
  else if c =? chr "n" then Text (text_text [10] sp false false)
  else if c =? chr "t" then Text (text_text [9] sp false false)
  else if (c =? chr "a") || (c =? chr "A") then
    Text (text_text (day_name g (c =? chr "a")) sp (sp_upper sp || sp_swap sp) false)
  else if (c =? chr "b") || (c =? chr "B") || (c =? chr "h") then
    Text (text_text (month_name g (negb (c =? chr "B"))) sp (sp_upper sp || sp_swap sp) false)
  else if (c =? chr "p") || (c =? chr "P") then Text (text_text (am_pm g) sp false ((c =? chr "P") || sp_swap sp))
  else if c =? chr "c" then composite_text (text_c g) sp (sp_upper sp)
  else if (c =? chr "x") || (c =? chr "D") then composite_text (text_D g) sp false
  else if (c =? chr "X") || (c =? chr "T") then composite_text (text_HMS g) sp false
  else if c =? chr "r" then composite_text (text_r g) sp false
  else if c =? chr "R" then composite_text (text_R g) sp false
  else if c =? chr "F" then composite_text (text_F g) sp false
  else if c =? chr "C" then number (cal_year g / 100) 1
  else if c =? chr "d" then number (tm_mday g) 2
  else if c =? chr "e" then numberb (tm_mday g) 2
  else if c =? chr "H" then number (tm_hour g) 2
  else if c =? chr "k" then numberb (tm_hour g) 2
  else if (c =? chr "I") || (c =? chr "l") then
    if c =? chr "I" then number (hour12 g) 2 else numberb (hour12 g) 2
  else if c =? chr "j" then number (tm_yday g + 1) 3
  else if c =? chr "m" then number (tm_mon g + 1) 2
  else if c =? chr "M" then number (tm_min g) 2
  else if c =? chr "S" then number (tm_sec g) 2
  else if c =? chr "u" then number ((tm_wday g - 1) mod 7 + 1) 1
  else if c =? chr "w" then number (tm_wday g) 1
  else if c =? chr "U" then number (sunday_week g) 2
  else if c =? chr "W" then number (monday_week g) 2
  else if c =? chr "V" then number (snd (week_date g)) 2
  else if c =? chr "G" then number (fst (week_date g)) 1
  else if c =? chr "g" then number (fst (week_date g) mod 100) 2
  else if c =? chr "y" then number (year2 g) 2
  else if c =? chr "Y" then number (cal_year g) 1
  else if c =? chr "s" then Text (text_text (epoch_text g) sp false false)
  else if c =? chr "z" then Text (offset_text g sp)
  else if c =? chr "Z" then Text (zone_text g sp)
  else Unknown.

(** An unknown conversion is printed as it is written. *)
Definition echo_text (raw : list Z) (sp : spec) (shout : bool) : list Z :=
  left_pad sp (len raw) ++ map (fun c => if shout then up c else c) raw.

Fixpoint format_text (fuel : nat) (f : list Z) (g : tm) : outcome :=
  match fuel with
  | O => TooLong
  | S fuel =>
      if peek f =? 0 then Text []
      else if negb (peek f =? chr "%") then seq_text [peek f] (format_text fuel (drop 1 f) g)
      else
        let '(f', sp, mod_) := parse_spec (drop 1 f) in
        let c := peek f' in
        if c =? 0 then Text (echo_text (between f f') sp false)
        else
          let rest := format_text fuel (drop 1 f') g in
          match (if negb (mod_ =? 0) && negb (modifier_accepts mod_ c) then Unknown else conv_text c sp g) with
          | Text s => seq_text s rest
          | TooLong => TooLong
          | Unknown =>
              let shout := sp_upper sp || (sp_swap sp && (mod_ =? chr "E") && ((c =? chr "b") || (c =? chr "h"))) in
              seq_text (echo_text (between f (drop 1 f')) sp shout) rest
          end
  end.

(** The text of a format, [TooLong] when a composite exceeds its 63 characters. *)
Definition strftime_text (fmt : list Z) (g : tm) : outcome := format_text (S (length fmt)) fmt g.

(** The fields are C ints, the offset is a C long. *)
Definition typed (g : tm) : Prop :=
  is_i32 (tm_sec g) /\ is_i32 (tm_min g) /\ is_i32 (tm_hour g) /\ is_i32 (tm_mday g) /\ is_i32 (tm_mon g) /\
  is_i32 (tm_year g) /\ is_i32 (tm_wday g) /\ is_i32 (tm_yday g) /\ is_i64 (tm_gmtoff g).

(** The weekday and the day of the year are not so large that the sums of the
    week conversions overflow an int. *)
Definition printable (g : tm) : Prop :=
  typed g /\ - 10 ^ 9 <= tm_wday g <= 10 ^ 9 /\ - 10 ^ 9 <= tm_yday g <= 10 ^ 9.

(** ** Sinks *)

Definition good (o : sink) : Prop :=
  0 <= sk_i o < sk_max o /\ sk_max o <= len (sk_p o) /\ sk_max o < 2 ^ 64.

Definition extend (o : sink) (s : list Z) : sink :=
  mkSink (take (Z.to_nat (sk_i o)) (sk_p o) ++ s ++ drop (Z.to_nat (sk_i o) + length s) (sk_p o))
    (sk_i o + len s) (sk_max o).

(** Nothing outside the buffer's first [max] bytes has changed. *)
Definition kept (o o' : sink) : Prop :=
  sk_max o' = sk_max o /\ len (sk_p o') = len (sk_p o) /\
  drop (Z.to_nat (sk_max o)) (sk_p o') = drop (Z.to_nat (sk_max o)) (sk_p o).

Definition stops (r : sink -> run) (o : sink) : Prop := exists o', r o = Some (0, o') /\ good o' /\ kept o o'.

Definition emits (r : sink -> run) (out : outcome) : Prop :=
  forall o, good o ->
    match out with
    | Text s => if sk_i o + len s <? sk_max o then r o = Some (1, extend o s) else stops r o
    | TooLong => stops r o
    | Unknown => r o = Some (-1, o)
    end.

Lemma kept_refl o : kept o o.
Proof. done. Qed.

Lemma kept_trans o1 o2 o3 : kept o1 o2 -> kept o2 o3 -> kept o1 o3.
Proof. unfold kept. intros (H1 & H2 & H3) (H4 & H5 & H6). rewrite H1 in *. split_and!; congruence. Qed.

Lemma extend_good o s : good o -> sk_i o + len s < sk_max o -> good (extend o s) /\ kept o (extend o s).
Proof.
  intros (Hi & Hm & Hb) Hs. unfold good, kept, extend; simpl.
  assert (Hl : length (take (Z.to_nat (sk_i o)) (sk_p o) ++ s ++ drop (Z.to_nat (sk_i o) + length s) (sk_p o))
               = length (sk_p o)) by (rewrite !length_app, length_take, length_drop; lia).
  split_and!; try lia. rewrite app_assoc, drop_app_ge by (rewrite length_app, length_take; lia).
  rewrite drop_drop. f_equal. rewrite length_app, length_take. lia.
Qed.

Lemma extend_app o s t : good o -> sk_i o + len s < sk_max o -> extend (extend o s) t = extend o (s ++ t).
Proof.
  intros (Hi & Hm & Hb) Hs. unfold extend; simpl.
  rewrite (app_assoc (take _ _) s), take_app_length' by (rewrite length_app, length_take; lia).
  rewrite (drop_app_ge (take _ _ ++ s)) by (rewrite length_app, length_take; lia).
  rewrite drop_drop, length_app, length_take, <- !app_assoc. f_equal; [|rewrite length_app; lia].
  do 4 f_equal. rewrite length_app. lia.
Qed.

Lemma extend_nil o : good o -> extend o [] = o.
Proof.
  intros (Hi & Hm & Hb). unfold extend. destruct o as [p i mx]; simpl in *.
  rewrite Nat.add_0_r, take_drop, Z.add_0_r. done.
Qed.

Lemma room_spec o n : good o -> room o n = (sk_i o + n <? sk_max o).
Proof. intros (Hi & Hm & Hb). unfold room. rewrite u64_small by lia. lia. Qed.

Lemma append_extend o s : good o -> sk_i o + len s < sk_max o -> append o s = Some (1, extend o s).
Proof. intros (Hi & Hm & Hb) Hs. unfold append, array_write. bool_if. done. Qed.

Lemma emits_ext r r' out : (forall o, good o -> r o = r' o) -> emits r out -> emits r' out.
Proof.
  intros He H o Ho. specialize (H o Ho). unfold stops in *.
  destruct out as [s| |]; [destruct (_ <? _)|..]; by rewrite <- He.
Qed.

(** The guarded write of [n] bytes. *)
Lemma emits_write s n : n = len s ->
  emits (fun o => if negb (room o n) then Some (0, o) else append o s) (Text s).
Proof.
  intros -> o Ho. rewrite room_spec by done. destruct (_ <? _) eqn:E; cbn [negb].
  - apply append_extend; [done|lia].
  - exists o. split; [|done]. rewrite room_spec, E by done. done.
Qed.

Lemma emits_put s : emits (fun o => put o s) (Text s).
Proof. by apply emits_write. Qed.

Lemma emits_fill n c : 0 <= n -> emits (fun o => put_fill o n c) (Text (replicate (Z.to_nat n) c)).
Proof. intros Hn. apply emits_write. rewrite length_replicate. lia. Qed.

Lemma emits_nil : emits (fun o => Some (1, o)) (Text []).
Proof.
  intros o Ho. rewrite extend_nil by done. destruct (_ <? _) eqn:E; [done|].
  destruct Ho as (Hi & _). simpl in E. lia.
Qed.

Lemma emits_seq r1 r2 s k : k <> Unknown ->
  emits r1 (Text s) -> emits r2 k -> emits (fun o => o <~ r1 o; r2 o) (seq_text s k).
Proof.
  intros Hk H1 H2 o Ho. specialize (H1 o Ho). simpl in H1. destruct (_ <? _) eqn:E1 in H1.
  - destruct (extend_good o s Ho ltac:(lia)) as [Hg Hkp].
    assert (Hst : stops r2 (extend o s) -> stops (fun o => o <~ r1 o; r2 o) o).
    { intros (o' & Hr & Hg' & Hk'). exists o'. rewrite H1. simpl. split; [done|]. split; [done|].
      by eapply kept_trans. }
    specialize (H2 _ Hg). destruct k as [t| |]; simpl in *; [|by apply Hst|done].
    destruct (_ <? _) eqn:E2 in H2; rewrite length_app.
    + bool_if. rewrite H1. simpl. rewrite H2, extend_app by (done || lia). done.
    + bool_if. by apply Hst.
  - destruct H1 as (o' & Hr & Hg' & Hk').
    assert (Hst : stops (fun o => o <~ r1 o; r2 o) o) by (exists o'; rewrite Hr; done).
    destruct k as [t| |]; simpl; [|done|done]. rewrite length_app. by bool_if.
Qed.

Lemma emits_then r1 r2 s t :
  emits r1 (Text s) -> emits r2 (Text t) -> emits (fun o => o <~ r1 o; r2 o) (Text (s ++ t)).
Proof. apply (emits_seq r1 r2 s (Text t)). done. Qed.

Lemma emits_fill_when b n c :
  (b = true -> 0 <= n) ->
  emits (fun o => fill_when b o n c) (Text (if b then replicate (Z.to_nat n) c else [])).
Proof. destruct b; simpl; intros; [apply emits_fill; auto|apply emits_nil]. Qed.

Lemma emits_put_when b s : emits (fun o => put_when b o s) (Text (if b then s else [])).
Proof. destruct b; [apply emits_put|apply emits_nil]. Qed.

Lemma left_pad_eq sp n :
  (if sp_has_width sp && (n <? sp_width sp)
   then replicate (Z.to_nat (sp_width sp - n)) (if sp_pad sp =? chr "0" then chr "0" else chr " ") else [])
  = left_pad sp n.
Proof.
  unfold left_pad, spaces_or_zeros. destruct (sp_has_width sp); [|done]. simpl. destruct (_ <? _) eqn:E; [done|].
  replace (Z.to_nat (sp_width sp - n)) with O by lia. done.
Qed.

Lemma emits_pad sp n :
  emits (fun o => fill_when (sp_has_width sp && (n <? sp_width sp)) o (sp_width sp - n)
                    (if sp_pad sp =? chr "0" then chr "0" else chr " ")) (Text (left_pad sp n)).
Proof. rewrite <- left_pad_eq. apply emits_fill_when. intros; lia. Qed.

Lemma emits_text s sp fu fl : emits (fun o => put_text o s sp fu fl) (Text (text_text s sp fu fl)).
Proof.
  unfold put_text, text_text. apply emits_then; [apply emits_pad|].
  apply emits_write. by rewrite length_map.
Qed.

Lemma magnitude_abs v : is_i64 v -> magnitude v = Z.abs v.
Proof. unfold is_i64, magnitude, u64. intros. bcases; zdm. Qed.

Lemma emits_number v digits dflt sp : is_i64 v -> 0 <= digits ->
  emits (fun o => put_number o v digits dflt sp) (Text (number_text v digits dflt sp)).
Proof.
  intros Hv Hd. unfold put_number, number_text. rewrite magnitude_abs by done.
  replace (if negb (sp_pad sp =? 0) then sp_pad sp else dflt) with (if sp_pad sp =? 0 then dflt else sp_pad sp)
    by (by destruct (_ =? 0)).
  set (pad := if sp_pad sp =? 0 then dflt else sp_pad sp). set (body := decimal (Z.abs v)). cbv zeta.
  set (sign := if v <? 0 then [chr "-"] else []).
  assert (Hs : len body + (if v <? 0 then 1 else 0) = len (sign ++ body))
    by (rewrite length_app; unfold sign; destruct (v <? 0); simpl; lia). rewrite Hs.
  set (cols := if pad =? chr "-" then _ else if sp_has_width sp then Z.max _ _ else _).
  replace (if pad =? chr "-" then _ else if sp_has_width sp && _ then _ else _) with cols
    by (unfold cols; destruct (pad =? _), (sp_has_width sp); simpl; try done; bcases; lia).
  set (n := len (sign ++ body)). replace (Z.to_nat (cols - n)) with (Z.to_nat (if n <? cols then cols - n else 0))
    by (bcases; lia).
  assert (0 <= if n <? cols then cols - n else 0) by (bcases; lia).
  destruct (pad =? chr "0").
  - rewrite app_assoc. apply emits_then; [|apply emits_put]. apply emits_then; [apply emits_put_when|by apply emits_fill].
  - rewrite app_assoc. apply emits_then; [|apply emits_put]. apply emits_then; [by apply emits_fill|apply emits_put_when].
Qed.

(** ** Conversions *)

Lemma emits_composite (nf : formatter) sub g s sp fu :
  emits (fun o => nf o sub g) (Text s) ->
  emits (fun o => put_composite nf o sub g sp fu) (composite_text s sp fu).
Proof.
  intros H. assert (Hg : good (mkSink (replicate 64 0) 0 64))
    by (unfold good; cbn [sk_i sk_max sk_p]; rewrite length_replicate; lia).
  specialize (H _ Hg). cbn [sk_i sk_max] in H. rewrite Z.add_0_l in H.
  unfold composite_text. destruct (len s <? 64) eqn:E.
  - eapply emits_ext; [|apply (emits_text s)]. intros o _. unfold put_composite. rewrite H.
    unfold extend; cbn [sk_i sk_p sk_max Z.eqb]. change (take (Z.to_nat 0) (replicate 64 0)) with (@nil Z).
    rewrite Z.add_0_l, Nat2Z.id, app_nil_l, take_app_length. reflexivity.
  - destruct H as (t & Ht & _). intros o Ho. exists o. unfold put_composite. rewrite Ht. done.
Qed.

(** What the six composite formats must print for a nested formatter. *)
Record composites (nf : formatter) (g : tm) : Prop := mkComposites {
  comp_c : emits (fun o => nf o (str "%a %b %e %H:%M:%S %Y") g) (Text (text_c g));
  comp_D : emits (fun o => nf o (str "%m/%d/%y") g) (Text (text_D g));
  comp_HMS : emits (fun o => nf o (str "%H:%M:%S") g) (Text (text_HMS g));
  comp_r : emits (fun o => nf o (str "%I:%M:%S %p") g) (Text (text_r g));
  comp_R : emits (fun o => nf o (str "%H:%M") g) (Text (text_R g));
  comp_F : emits (fun o => nf o (str "%Y-%m-%d") g) (Text (text_F g));
}.

Lemma i32_i64 x : is_i32 x -> is_i64 x.
Proof. unfold is_i32, is_i64. lia. Qed.

Lemma wrap_i32 a b : is_i32 (wrap_add a b) /\ is_i32 (wrap_sub a b).
Proof. split; apply i32_range. Qed.

(** *** Weeks *)

Lemma int_op_some x : is_i32 x -> int_op x = Some x.
Proof. unfold is_i32, int_op, INT_MIN, INT_MAX. intros Hx. by bool_if. Qed.

Lemma iso_week_days_some yday wday : - 10 ^ 9 - 400 <= yday <= 10 ^ 9 + 400 -> - 10 ^ 9 <= wday <= 10 ^ 9 ->
  iso_week_days yday wday = Some (yday - Z.rem (yday - wday + 382) 7 + 3).
Proof.
  intros Hy Hw. unfold iso_week_days. change ((366 ÷ 7 + 2) * 7) with 378. rewrite (int_op_some (yday - wday)) by (unfold is_i32; lia). obind. rewrite (int_op_some (_ + 4)) by (unfold is_i32; lia). obind. rewrite (int_op_some (_ + 378)) by (unfold is_i32; lia). obind.
  replace (yday - wday + 4 + 378) with (yday - wday + 382) by lia. set (r := Z.rem _ 7). assert (Hr : - 7 < r < 7) by (unfold r; zdm). rewrite (int_op_some (yday - r)) by (unfold is_i32; lia). obind. apply int_op_some. unfold is_i32. lia.
Qed.

(** The code of [iso_week] once nothing overflows. *)
Lemma iso_week_some g : printable g ->
  let off yday := yday - Z.rem (yday - tm_wday g + 382) 7 + 3 in
  let y := cal_year g in
  iso_week g = Some (
    if off (tm_yday g) <? 0 then (wrap_sub y 1, off (tm_yday g + (365 + Z.b2z (leap_year (wrap_sub y 1)))) ÷ 7 + 1)
    else if 0 <=? off (tm_yday g - (365 + Z.b2z (leap_year y))) then (wrap_add y 1, off (tm_yday g - (365 + Z.b2z (leap_year y))) ÷ 7 + 1)
    else (y, off (tm_yday g) ÷ 7 + 1)).
Proof.
  intros (_ & Hw & Hy) off y. unfold iso_week. fold y. rewrite iso_week_days_some by lia. obind. fold (off (tm_yday g)). destruct (off (tm_yday g) <? 0).
  - assert (Hb : 0 <= Z.b2z (leap_year (wrap_sub y 1)) <= 1) by (by destruct (leap_year _)). rewrite int_op_some by (unfold is_i32; lia). obind. rewrite iso_week_days_some by lia. done.
  - assert (Hb : 0 <= Z.b2z (leap_year y) <= 1) by (by destruct (leap_year _)). rewrite int_op_some by (unfold is_i32; lia). obind. rewrite iso_week_days_some by lia. obind. fold (off (tm_yday g - (365 + Z.b2z (leap_year y)))). by destruct (0 <=? _).
Qed.

Lemma leap_year_spec y : leap_year y = leap y.
Proof. unfold leap_year, leap. zdm. Qed.

Lemma iso_week_year g : printable g -> in_year g = true -> iso_week g = Some (iso_year_week g).
Proof.
  intros Hp Hin. rewrite iso_week_some by done. cbv zeta. rewrite !leap_year_spec. f_equal. unfold in_year in Hin. unfold iso_year_week. set (y := cal_year g). set (yd := tm_yday g) in *. set (wd := tm_wday g) in *. clearbody y yd wd.
  assert (Hb : forall z, 0 <= Z.b2z (leap z) <= 1) by (intros z; by destruct (leap z)). pose proof (Hb y) as Hb1. pose proof (Hb (wrap_sub y 1)) as Hb2. set (b1 := Z.b2z (leap y)) in *. set (b2 := Z.b2z (leap (wrap_sub y 1))) in *. clearbody b1 b2. assert (Hr : 0 <= wd <= 6 /\ 0 <= yd <= 365) by lia. clear Hin Hb.
  destruct (_ <? 0) eqn:E1; [replace (yd - (wd + 6) mod 7 + 3 <? 0) with true by (symmetry; apply Z.ltb_lt; zdm); f_equal; zdm|]. replace (yd - (wd + 6) mod 7 + 3 <? 0) with false by (symmetry; apply Z.ltb_ge; zdm).
  destruct (0 <=? _) eqn:E2; [replace (yd - (wd + 6) mod 7 + 3 <? 365 + b1) with false by (symmetry; apply Z.ltb_ge; zdm)|replace (yd - (wd + 6) mod 7 + 3 <? 365 + b1) with true by (symmetry; apply Z.ltb_lt; zdm)]; f_equal; zdm.
Qed.

Lemma week_date_range g : printable g -> iso_week g = Some (week_date g) /\ is_i64 (fst (week_date g)) /\ is_i64 (snd (week_date g)).
Proof.
  intros Hp. assert (He : iso_week g = Some (week_date g)). { unfold week_date. destruct (in_year g) eqn:E; [by apply iso_week_year|]. by rewrite iso_week_some. }
  split; [done|]. rewrite iso_week_some in He by done. injection He as <-. destruct Hp as (_ & Hw & Hy). cbv zeta.
  pose proof (wrap_i32 (tm_year g) 1900) as [Hc _]. fold (cal_year g) in Hc. apply i32_i64 in Hc. pose proof (wrap_i32 (cal_year g) 1) as [Ha Hs]. apply i32_i64 in Ha, Hs.
  assert (Hb : forall z, 0 <= Z.b2z (leap_year z) <= 1) by (intros z; by destruct (leap_year z)). pose proof (Hb (cal_year g)) as Hb1. pose proof (Hb (wrap_sub (cal_year g) 1)) as Hb2. set (b1 := Z.b2z (leap_year (cal_year g))) in *. set (b2 := Z.b2z (leap_year (wrap_sub (cal_year g) 1))) in *. clearbody b1 b2.
  destruct (_ <? 0); [|destruct (0 <=? _)]; cbn [fst snd]; (split; [done|unfold is_i64; zdm]).
Qed.

Lemma weekday_count_spec day jan1 n : 0 <= day <= 6 -> weekday_count day jan1 n = (Z.of_nat n - (jan1 + Z.of_nat n - day) mod 7 + 7) / 7.
Proof.
  intros Hd. induction n as [|n IH]; cbn [weekday_count].
  - destruct (_ =? _) eqn:E; zdm.
  - rewrite IH, Nat2Z.inj_succ. destruct (_ =? _) eqn:E; zdm.
Qed.

Lemma sunday_week_code g : sunday_week g = (tm_yday g - tm_wday g + 7) ÷ 7.
Proof. unfold sunday_week. destruct (in_year g) eqn:E; [|done]. unfold in_year in E. unfold week_number. rewrite weekday_count_spec, Z2Nat.id by lia. zdm. Qed.

Lemma monday_week_code g : monday_week g = (tm_yday g - Z.rem (tm_wday g - 1 + 7) 7 + 7) ÷ 7.
Proof. unfold monday_week. destruct (in_year g) eqn:E; [|done]. unfold in_year in E. unfold week_number. rewrite weekday_count_spec, Z2Nat.id by lia. zdm. Qed.

Lemma to_epoch_range g t : to_epoch g = Some t -> is_i64 t.
Proof.
  unfold to_epoch. destruct (to_seconds_hm g); [|done]. cbv zeta. intros H. apply in_i64_spec.
  repeat case_match; simplify_eq; try done;
    match goal with H : negb (in_i64 ?x) = false |- in_i64 ?x = true => by apply negb_false_iff end.
Qed.

Lemma epoch_text_eq g secs : secs = match to_epoch g with Some secs => secs | None => -1 end ->
  (if secs <? 0 then [chr "-"] else []) ++ decimal (magnitude secs) = epoch_text g.
Proof.
  intros ->. unfold epoch_text. rewrite magnitude_abs; [done|].
  destruct (to_epoch g) eqn:E; [by eapply to_epoch_range|unfold is_i64; lia].
Qed.

Lemma emits_offset g sp : is_i64 (tm_gmtoff g) ->
  emits (fun o => if tm_isdst g <? 0 then Some (1, o) else
    let mag := magnitude (tm_gmtoff g) in
    let hhmm := u64 (u64 ((mag / 3600) * 100) + (mag mod 3600) / 60) in
    let w := if sp_has_width sp then sp_width sp else 0 in
    let pad := if negb (sp_pad sp =? 0) then sp_pad sp else chr "0" in
    let digit_cols := if pad =? chr "-" then w else if 4 <? w then w else 4 in
    let buf := decimal hhmm in
    o <~ fill_when (1 <? w) o (w - 1) (if sp_pad sp =? chr "0" then chr "0" else chr " ");
    o <~ put o [if tm_gmtoff g <? 0 then chr "-" else chr "+"];
    o <~ fill_when (len buf <? digit_cols) o (digit_cols - len buf) (if pad =? chr "0" then chr "0" else chr " ");
    put o buf) (Text (offset_text g sp)).
Proof.
  intros Hg. unfold offset_text. destruct (tm_isdst g <? 0); [apply emits_nil|].
  rewrite magnitude_abs by done. cbv zeta.
  rewrite (u64_small (_ * _)), (u64_small (_ + _)) by (unfold is_i64 in Hg; zdm).
  set (body := decimal _). set (w := if sp_has_width sp then _ else _).
  replace (if negb (sp_pad sp =? 0) then sp_pad sp else chr "0") with (if sp_pad sp =? 0 then chr "0" else sp_pad sp)
    by (by destruct (_ =? 0)). set (pad := if sp_pad sp =? 0 then _ else _).
  replace (if pad =? chr "-" then w else if 4 <? w then w else 4) with (if pad =? chr "-" then w else Z.max 4 w)
    by (destruct (pad =? _); [done|bcases; lia]). set (cols := if pad =? chr "-" then w else Z.max 4 w).
  assert (Hf : forall (b : bool) n (c : Z), (b = false -> n <= 0) ->
    (if b then replicate (Z.to_nat n) c else []) = replicate (Z.to_nat n) c)
    by (intros [] n c Hn; [done|]; replace (Z.to_nat n) with O by lia; done).
  apply emits_then; [unfold spaces_or_zeros; rewrite <- (Hf (1 <? w)) by lia; apply emits_fill_when; lia|].
  apply emits_then; [apply emits_put|]. apply emits_then; [|apply emits_put].
  rewrite <- (Hf (len body <? cols)) by lia. apply emits_fill_when; lia.
Qed.

Lemma emits_number_as v v' digits dflt sp : v = v' -> is_i64 v' -> 0 <= digits ->
  emits (fun o => put_number o v digits dflt sp) (Text (number_text v' digits dflt sp)).
Proof. intros ->. apply emits_number. Qed.

(** The conversion whose letter is tested first; the others follow. *)
Ltac conv_cases := repeat match goal with |- emits _ (if ?b then _ else _) => destruct b eqn:? end.

Lemma floor_div_int_spec a b : 0 < b -> floor_div_int a b = a / b.
Proof. apply floor_div_spec. Qed.

Lemma name_take (ok short : bool) (name : list Z) : (3 <= length name)%nat ->
  take (Z.to_nat (if ok then (if short then 3 else len name) else 1)) (if ok then name else str "?")
  = if ok then (if short then take 3 name else name) else str "?".
Proof. intros Hn. destruct ok, short; try done. rewrite Nat2Z.id. by rewrite take_ge. Qed.

Lemma name_length (l : list (list Z)) k :
  Forall (fun s => 3 <= length s)%nat l -> (k < length l)%nat -> (3 <= length (default [] (l !! k)))%nat.
Proof.
  intros Hl Hk. destruct (lookup_lt_is_Some_2 l k Hk) as [s Hs]. rewrite Hs. simpl.
  by eapply (Forall_lookup_1 _ _ _ _ Hl).
Qed.

Lemma day_name_eq g (short : bool) :
  let ok := (0 <=? tm_wday g) && (tm_wday g <=? 6) in
  let name := if ok then default [] (day_long !! Z.to_nat (tm_wday g)) else str "?" in
  take (Z.to_nat (if ok then (if short then 3 else len name) else 1)) name = day_name g short.
Proof.
  unfold day_name. destruct ((0 <=? tm_wday g) && (tm_wday g <=? 6)) eqn:E; [|done]. cbv zeta.
  apply (name_take true). apply name_length; [repeat constructor; simpl; lia|]. change (length day_long) with 7%nat. lia.
Qed.

Lemma month_name_eq g (long : bool) :
  let ok := (0 <=? tm_mon g) && (tm_mon g <=? 11) in
  let name := if ok then default [] (month_long !! Z.to_nat (tm_mon g)) else str "?" in
  take (Z.to_nat (if ok then (if long then len name else 3) else 1)) name = month_name g (negb long).
Proof.
  unfold month_name. destruct ((0 <=? tm_mon g) && (tm_mon g <=? 11)) eqn:E; [|done]. cbv zeta.
  pose proof (name_take true (negb long) (default [] (month_long !! Z.to_nat (tm_mon g)))) as H.
  destruct long; apply H; (apply name_length; [repeat constructor; simpl; lia|]; change (length month_long) with 12%nat; lia).
Qed.

Definition is_composite (c : Z) : bool :=
  (c =? chr "c") || ((c =? chr "x") || (c =? chr "D")) || ((c =? chr "X") || (c =? chr "T")) ||
  (c =? chr "r") || (c =? chr "R") || (c =? chr "F").

Lemma emits_convert nf c sp g : printable g -> (is_composite c = true -> composites nf g) ->
  emits (fun o => convert nf o c sp g) (conv_text c sp g).
Proof.
  intros Ht Hcomp.
  pose proof (week_date_range g Ht) as (Hiso & Hiy & Hiw).
  pose proof Ht as ((Hs & Hmi & Hh & Hmd & Hmo & Hy & Hw & Hyd & Ho) & Hw9 & Hyd9).
  pose proof (proj1 (wrap_i32 (tm_year g) 1900)) as Hcy. fold (cal_year g) in Hcy. unfold is_i32 in *.
  unfold convert, conv_text. cbv zeta. conv_cases; try apply emits_text; try (apply emits_composite; apply Hcomp; unfold is_composite; lia);
    try (apply emits_number; unfold is_i64; lia).
  - pose proof (day_name_eq g (c =? chr "a")) as E. cbv zeta in E. rewrite E. apply emits_text.
  - pose proof (month_name_eq g (c =? chr "B")) as E. cbv zeta in E. rewrite E. apply emits_text.
  - rewrite floor_div_int_spec by lia. apply emits_number; unfold is_i64; zdm.
  - apply (emits_number (hour12 g)); unfold is_i64, hour12; repeat case_match; lia.
  - apply (emits_number (hour12 g)); unfold is_i64, hour12; repeat case_match; lia.
  - rewrite int_op_some by (unfold is_i32; lia). obind. apply emits_number_as; unfold is_i64; zdm.
  - rewrite sunday_week_code, int_op_some by (unfold is_i32; lia). obind. rewrite int_op_some by (unfold is_i32; lia). obind. apply emits_number; unfold is_i64; zdm.
  - rewrite monday_week_code, int_op_some by (unfold is_i32; lia). obind. rewrite int_op_some by (unfold is_i32; lia). obind. set (a := Z.rem _ 7). assert (Ha : - 7 < a < 7) by (unfold a; zdm). rewrite int_op_some by (unfold is_i32; lia). obind. rewrite int_op_some by (unfold is_i32; lia). obind. apply emits_number; unfold is_i64; zdm.
  - rewrite Hiso. destruct (week_date g) as [y w]. obind. by apply emits_number.
  - rewrite Hiso. destruct (week_date g) as [y w]. obind. by apply emits_number.
  - rewrite Hiso. destruct (week_date g) as [y w]. obind. apply emits_number_as; unfold is_i64; cbn [fst]; zdm.
  - apply emits_number_as; unfold is_i64, year2; zdm.
  - rewrite (epoch_text_eq g _ eq_refl). apply emits_text.
  - by apply emits_offset.
  - unfold zone_text. destruct (tm_zone g) as [[|b z]|]; try apply emits_text;
      (destruct (tm_isdst g <? 0); apply emits_text).
  - by intros o Hg.
Qed.

(** ** The format loop *)

(** The loop as a function of the sink. *)
Definition loop_at fuel nf f g : sink -> run := fun o => format_loop fuel nf o f g.

Lemma emits_loop_end fuel nf g : emits (loop_at (S fuel) nf [] g) (Text []).
Proof. apply emits_nil. Qed.

Lemma emits_loop_char fuel nf c f g k : k <> Unknown -> c <> 0 -> c <> chr "%" ->
  emits (loop_at fuel nf f g) k -> emits (loop_at (S fuel) nf (c :: f) g) (seq_text [c] k).
Proof.
  intros Hk Hc Hp H. eapply emits_ext; [|apply (emits_seq (fun o => put o [c])); [done|apply emits_put|exact H]].
  intros o _. unfold loop_at. cbn [format_loop peek drop]. do 2 bool_if. done.
Qed.

Lemma emits_loop_conv fuel nf f g f' sp mod_ s k :
  k <> Unknown -> parse_spec f = (f', sp, mod_) -> peek f' <> 0 ->
  (mod_ = 0 \/ modifier_accepts mod_ (peek f') = true) ->
  emits (fun o => convert nf o (peek f') sp g) s -> s <> Unknown ->
  emits (loop_at fuel nf (drop 1 f') g) k ->
  emits (loop_at (S fuel) nf (chr "%" :: f) g) (match s with Text s => seq_text s k | _ => TooLong end).
Proof.
  intros Hk Hp Hc Hm H Hs Hf.
  assert (Hr : forall o, loop_at (S fuel) nf (chr "%" :: f) g o =
    match convert nf o (peek f') sp g with
    | None => None
    | Some (rc, o) => if rc =? 0 then Some (0, o)
        else o <~ (if rc <? 0 then echo o (chr "%" :: f) f' sp mod_ (peek f') else Some (1, o));
             format_loop fuel nf o (drop 1 f') g
    end).
  { intros o. unfold loop_at. cbn [format_loop peek]. rewrite skipn_cons, drop_0, Hp. cbn -[format_loop convert drop peek].
    replace (peek f' =? 0) with false by lia.
    destruct Hm as [-> | ->]; cbn -[format_loop convert drop peek]; by rewrite ?andb_false_r. }
  destruct s as [s| |]; [|clear Hf|done].
  - eapply emits_ext; [|apply (emits_seq (fun o => convert nf o (peek f') sp g)); [exact Hk|exact H|exact Hf]].
    intros o Ho. rewrite Hr. specialize (H o Ho). simpl in H. destruct (_ <? _) in H.
    + rewrite H. done.
    + destruct H as (o' & -> & _). done.
  - intros o Ho. destruct (H o Ho) as (o' & Ho' & Hk'). exists o'. rewrite Hr, Ho'. done.
Qed.

Lemma flag_loop_suffix f : forall sp, exists pre, f = pre ++ fst (flag_loop f sp).
Proof.
  induction f as [|c f IH]; intros sp; cbn [flag_loop]; [by exists []|].
  repeat case_match; try (match goal with |- context [flag_loop f ?sp] => destruct (IH sp) as [pre Hpre] end;
    exists (c :: pre); cbn [app]; by rewrite <- Hpre). by exists [].
Qed.

Lemma fmt_width_loop_suffix f : forall w, exists pre, f = pre ++ fst (fmt_width_loop f w).
Proof.
  induction f as [|c f IH]; intros w; cbn [fmt_width_loop]; [by exists []|].
  destruct (is_dig c); [|by exists []]. cbv zeta.
  match goal with |- context [fmt_width_loop f ?w] => destruct (IH w) as [pre Hpre] end.
  exists (c :: pre). cbn [app]. by rewrite <- Hpre.
Qed.

Lemma parse_spec_suffix f f' sp mod_ : parse_spec f = (f', sp, mod_) -> exists pre, f = pre ++ f'.
Proof.
  unfold parse_spec. destruct (flag_loop_suffix f (mkSpec 0 false false 0 false)) as [p1 H1].
  destruct (flag_loop f _) as [f1 sp1]. cbn [fst] in H1.
  destruct (fmt_width_loop_suffix f1 0) as [p2 H2]. destruct (fmt_width_loop f1 0) as [f2 w]. cbn [fst] in H2.
  set (q := if is_dig (peek f1) then _ else _).
  assert (Hq : exists p3, f = p3 ++ fst q).
  { unfold q. destruct (is_dig (peek f1)); cbn [fst]; [exists (p1 ++ p2)|exists p1]; [|done].
    by rewrite <- app_assoc, <- H2. }
  destruct q as [f3 sp3]. cbn [fst] in Hq. destruct Hq as [p3 H3]. destruct (_ || _).
  - intros H. injection H as <- _ _. destruct f3 as [|c f3]; [by exists p3|].
    exists (p3 ++ [c]). rewrite skipn_cons, drop_0, <- app_assoc. done.
  - intros H. injection H as <- _ _. by exists p3.
Qed.

Lemma between_app pre f : between (pre ++ f) f = pre.
Proof. unfold between. rewrite length_app, take_app_length'; [done|lia]. Qed.

Lemma peek_cons f : peek f <> 0 -> exists c f', f = c :: f' /\ peek f = c.
Proof. destruct f as [|c f]; [done|]. intros _. by exists c, f. Qed.

Lemma emits_echo_pad sp n : emits (fun o => echo_pad o sp n) (Text (left_pad sp n)).
Proof. apply emits_pad. Qed.

Lemma emits_echo pre c f sp mod_ : (c =? chr "%") && (mod_ =? 0) = false ->
  let shout := sp_upper sp || (sp_swap sp && (mod_ =? chr "E") && ((c =? chr "b") || (c =? chr "h"))) in
  emits (fun o => echo o (pre ++ c :: f) (c :: f) sp mod_ c) (Text (echo_text (pre ++ [c]) sp shout)).
Proof.
  intros Hm shout. unfold echo, echo_text. rewrite Hm. cbv zeta.
  replace (len (pre ++ c :: f) - len (c :: f) + 1) with (len (pre ++ [c])) by (rewrite !length_app; simpl; lia).
  apply emits_then; [apply emits_echo_pad|]. replace (take _ (pre ++ c :: f)) with (pre ++ [c]).
  - apply emits_write. by rewrite length_map.
  - rewrite (cons_middle c pre f), (app_assoc pre [c] f), Nat2Z.id, take_app_length. done.
Qed.

Lemma format_text_known fuel : forall f g, format_text fuel f g <> Unknown.
Proof.
  induction fuel as [|n IH]; intros f g; cbn [format_text]; [done|].
  assert (Hs : forall s k, k <> Unknown -> seq_text s k <> Unknown) by (by intros s [| |]).
  destruct (_ =? 0); [done|]. destruct (negb _); [by apply Hs|].
  destruct (parse_spec _) as [[f' sp] mod_]. cbv zeta. destruct (_ =? 0); [done|].
  destruct (if negb (mod_ =? 0) && _ then _ else _); by try apply Hs.
Qed.

Lemma emits_loop_unknown fuel nf pre c f g sp mod_ k :
  k <> Unknown -> parse_spec (pre ++ c :: f) = (c :: f, sp, mod_) -> c <> 0 ->
  (c =? chr "%") && (mod_ =? 0) = false ->
  (negb (mod_ =? 0) && negb (modifier_accepts mod_ c) = true \/
   emits (fun o => convert nf o c sp g) Unknown) ->
  emits (loop_at fuel nf f g) k ->
  let shout := sp_upper sp || (sp_swap sp && (mod_ =? chr "E") && ((c =? chr "b") || (c =? chr "h"))) in
  emits (loop_at (S fuel) nf (chr "%" :: pre ++ c :: f) g)
    (seq_text (echo_text ((chr "%" :: pre) ++ [c]) sp shout) k).
Proof.
  intros Hk Hps Hc Hm Hu H shout.
  eapply emits_ext; [|apply (emits_seq _ _ _ k Hk (emits_echo (chr "%" :: pre) c f sp mod_ Hm) H)].
  intros o Ho. unfold loop_at. cbn [format_loop peek]. rewrite skipn_cons, drop_0, Hps.
  cbn -[format_loop convert echo drop modifier_accepts]. replace (c =? 0) with false by lia. rewrite skipn_cons, drop_0.
  destruct Hu as [-> | Hu]; [done|]. rewrite (Hu o Ho). by destruct (negb (mod_ =? 0) && _).
Qed.

Lemma conv_text_percent sp g : conv_text (chr "%") sp g <> Unknown.
Proof. done. Qed.

Lemma emits_loop fuel : forall nf f g, printable g -> (length f < fuel)%nat ->
  (Forall (fun c => is_composite c = false) f \/ composites nf g) ->
  emits (loop_at fuel nf f g) (format_text fuel f g).
Proof.
  induction fuel as [|n IH]; intros nf f g Ht Hl Hc; [lia|].
  assert (Hrest : forall pre f', f = pre ++ f' -> (0 < length pre)%nat -> emits (loop_at n nf f' g) (format_text n f' g)).
  { intros pre f' -> Hp. rewrite length_app in Hl. apply IH; [done|lia|].
    destruct Hc as [Hc|Hc]; [left; by apply Forall_app in Hc as [_ ?]|by right]. }
  pose proof (format_text_known n) as Hk. destruct f as [|c f]; [apply emits_nil|].
  cbn [format_text peek]. destruct (c =? 0) eqn:E0.
  { eapply emits_ext; [|apply emits_nil]. intros o _. unfold loop_at. cbn [format_loop peek]. by rewrite E0. }
  destruct (negb (c =? chr "%")) eqn:Ep.
  { rewrite skipn_cons, drop_0. apply emits_loop_char; [apply Hk|lia|lia|]. apply (Hrest [c]); simpl; (done || lia). }
  assert (c = chr "%") by lia. subst c. rewrite skipn_cons, drop_0.
  destruct (parse_spec f) as [[f' sp] mod_] eqn:Hps. cbv zeta.
  pose proof (parse_spec_suffix f f' sp mod_ Hps) as [pre Hpre].
  destruct (peek f' =? 0) eqn:Ec.
  { assert (Hb : between (chr "%" :: f) f' = chr "%" :: pre) by (subst f; apply (between_app (_ :: pre))).
    eapply emits_ext; [|unfold echo_text; apply emits_then; [apply emits_echo_pad|apply emits_put]].
    intros o _. unfold loop_at. cbn [format_loop peek]. rewrite skipn_cons, drop_0, Hps. cbn -[peek drop echo_pad put between].
    rewrite Ec, map_id. done. }
  destruct (peek_cons f' ltac:(lia)) as (c & f'' & Hf' & Hpk). rewrite Hpk in *. subst f'. rewrite skipn_cons, drop_0.
  assert (Hf : chr "%" :: f = (chr "%" :: pre) ++ c :: f'') by (by subst f).
  assert (Hf2 : chr "%" :: f = ((chr "%" :: pre) ++ [c]) ++ f'') by (rewrite <- app_assoc; done).
  pose proof (Hrest _ _ Hf2 ltac:(rewrite length_app; simpl; lia)) as Hr.
  assert (Hcv : emits (fun o => convert nf o c sp g) (conv_text c sp g)).
  { apply emits_convert; [done|]. intros Hcc. destruct Hc as [Hc|Hc]; [|done]. rewrite Hf in Hc.
    apply Forall_app in Hc as [_ Hc]. inversion Hc; simplify_eq/=. congruence. }
  destruct (negb (mod_ =? 0) && negb (modifier_accepts mod_ c)) eqn:Em;
    [|destruct (conv_text c sp g) as [s| |] eqn:Es].
  - replace (between _ f'') with ((chr "%" :: pre) ++ [c]) by (rewrite Hf2; symmetry; apply between_app).
    subst f. apply emits_loop_unknown; [apply Hk|done|lia|destruct (mod_ =? 0); [done|by rewrite andb_false_r]|by left|done].
  - apply (emits_loop_conv n nf f g (c :: f'') sp mod_ (Text s)); [apply Hk|done|cbn [peek]; lia| |done|done|done].
    cbn [peek]. destruct (modifier_accepts mod_ c); [by right|left; lia].
  - apply (emits_loop_conv n nf f g (c :: f'') sp mod_ TooLong _ (Hk f'' g)); [done|cbn [peek]; lia| |done|done|done].
    cbn [peek]. destruct (modifier_accepts mod_ c); [by right|left; lia].
  - replace (between _ f'') with ((chr "%" :: pre) ++ [c]) by (rewrite Hf2; symmetry; apply between_app).
    subst f. apply emits_loop_unknown; [apply Hk|done|lia| |by right|done].
    destruct (c =? chr "%") eqn:Ecp; [|done]. assert (c = chr "%") by lia. subst c.
    by destruct (conv_text_percent sp g).
Qed.

(** ** Composites *)

Lemma text_plain s : text_text s plain false false = s.
Proof. unfold text_text. apply map_id. Qed.

Lemma ft_char n c f g : c =? 0 = false -> c =? chr "%" = false ->
  format_text (S n) (c :: f) g = seq_text [c] (format_text n f g).
Proof. intros H0 Hp. cbn [format_text peek]. rewrite H0, Hp. cbn [negb]. by rewrite skipn_cons, drop_0. Qed.

(** A letter that is no flag, digit or modifier. *)
Definition letter (c : Z) : bool :=
  negb ((c =? 0) || (c =? chr "_") || (c =? chr "-") || (c =? chr "0") || (c =? chr "^") || (c =? chr "#")
        || is_dig c || (c =? chr "E") || (c =? chr "O")).

Lemma ft_conv n c f g s : letter c = true -> conv_text c plain g = Text s ->
  format_text (S n) (chr "%" :: c :: f) g = seq_text s (format_text n f g).
Proof.
  intros Hl Hs. unfold letter in Hl. rewrite !negb_orb in Hl. cbn [format_text peek]. rewrite skipn_cons, drop_0.
  assert (Hp : parse_spec (c :: f) = (c :: f, plain, 0)).
  { unfold parse_spec. cbn [flag_loop]. do 3 (bool_if). cbn [peek]. replace (is_dig c) with false by lia.
    cbn -[Z.eqb]. bool_if. done. }
  rewrite Hp. cbn -[format_text conv_text drop]. replace (c =? 0) with false by lia. rewrite skipn_cons, drop_0, Hs. done.
Qed.

(** Evaluate the text of a literal format without composites. *)
Ltac ft_literal :=
  match goal with |- context [str ?x] =>
    let v := eval vm_compute in (str x) in change (str x) with v end;
  match goal with |- context [length ?l] => let v := eval vm_compute in (length l) in change (length l) with v end;
  repeat first [rewrite ft_char by reflexivity | erewrite ft_conv by reflexivity];
  match goal with |- context [format_text (S ?n) [] ?g] => change (format_text (S n) [] g) with (Text []) end;
  cbn [seq_text]; rewrite ?text_plain, ?app_nil_r.

Lemma composite_formats d g : printable g -> composites (format_nested (S d)) g.
Proof.
  intros Ht.
  assert (H : forall sub s, Forall (fun c => is_composite c = false) sub -> format_text (S (length sub)) sub g = Text s ->
    emits (fun o => format_nested (S d) o sub g) (Text s)).
  { intros sub s Hs <-. apply (emits_loop (S (length sub))); [done|lia|by left]. }
  split; (apply H; [repeat constructor|]); ft_literal; f_equal;
    unfold text_c, text_HMS, text_D, text_r, text_R, text_F, num; rewrite <- ?app_assoc; reflexivity.
Qed.

(** ** Theorems *)

(** Both cases of the result. *)
Lemma strftime_cases buf max fmt g :
  printable g -> 0 <= max <= len buf -> max < 2 ^ 64 ->
  (forall s, strftime_text fmt g = Text s -> len s < max ->
   strftime buf max fmt g = Some (len s, s ++ 0 :: drop (S (length s)) buf)) /\
  ((forall s, strftime_text fmt g = Text s -> max <= len s) ->
   exists buf', strftime buf max fmt g = Some (0, buf') /\ length buf' = length buf /\
     drop (Z.to_nat max) buf' = drop (Z.to_nat max) buf).
Proof.
  intros Ht Hm Hb. unfold strftime. destruct (max =? 0) eqn:E0.
  { split; [lia|]. intros _. by exists buf. }
  assert (Hg : good (mkSink buf 0 max)) by (unfold good; cbn; lia).
  pose proof (emits_loop (S (length fmt)) (format_nested 1) fmt g Ht ltac:(lia) (or_intror (composite_formats 0 g Ht)) _ Hg) as H.
  fold (strftime_text fmt g) in H. change (loop_at _ _ fmt g (mkSink buf 0 max)) with (format (mkSink buf 0 max) fmt g) in H.
  assert (Hst : stops (loop_at (S (length fmt)) (format_nested 1) fmt g) (mkSink buf 0 max) ->
    exists buf', match format (mkSink buf 0 max) fmt g with
      | None => None
      | Some (rc, o) => if rc =? 0 then Some (0, sk_p o) else buf' ← array_write (sk_p o) (sk_i o) [0]; Some (sk_i o, buf')
      end = Some (0, buf') /\ length buf' = length buf /\ drop (Z.to_nat max) buf' = drop (Z.to_nat max) buf).
  { intros (o' & Hr & _ & Hk1 & Hk2 & Hk3). change (loop_at _ _ fmt g (mkSink buf 0 max)) with (format (mkSink buf 0 max) fmt g) in Hr.
    rewrite Hr. exists (sk_p o'). cbn in *. split_and!; [done|lia|done]. }
  destruct (strftime_text fmt g) as [s| |] eqn:Hs; [|split; [done|auto]|].
  - cbn [sk_i sk_max] in H. rewrite Z.add_0_l in H. destruct (len s <? max) eqn:El.
    + split; [|intros Hl; specialize (Hl s eq_refl); lia]. intros s' Hs' _. injection Hs' as <-. rewrite H.
      unfold extend; cbn [sk_p sk_i sk_max Z.eqb Pos.eqb]. change (take (Z.to_nat 0) buf) with (@nil Z). cbn [app Nat.add].
      change (Z.to_nat 0 + length s)%nat with (length s). unfold array_write.
      rewrite Z.add_0_l, Nat2Z.id, !length_app, length_drop. cbn [length]. bool_if.
      rewrite take_app_length, drop_app_ge, drop_drop by lia. obind. f_equal. f_equal.
      change ([0] ++ ?l) with (0 :: l). do 3 f_equal. lia.
    + split; [intros s' Hs' Hl; injection Hs' as <-; lia|]. intros _. by apply Hst.
  - by destruct (format_text_known (S (length fmt)) fmt g).
Qed.

(** C32. [strftime] implements the reference text: for every format, every
    structure of C ints whose weekday and day of the year are at most a billion
    in magnitude (beyond that the int sums of the week conversions overflow)
    and every buffer of at least [max] bytes it never writes outside the first
    [max] bytes; when the text of the format and its NUL fit, the result is the
    length of the text and the buffer holds the text, the NUL and its old rest;
    otherwise (or when a composite exceeds 63 characters) the result is 0 and
    the bytes from [max] on are unchanged.  For a day of a year the reference
    counts the Sundays ([%U]) or Mondays ([%W]) up to it, and dates its ISO week
    ([%G], [%g], [%V]) by the week's Thursday. *)
Theorem strftime_refines buf max fmt g :
  printable g -> 0 <= max <= len buf -> max < 2 ^ 64 ->
  (forall s, strftime_text fmt g = Text s -> len s < max ->
   strftime buf max fmt g = Some (len s, s ++ 0 :: drop (S (length s)) buf)) /\
  ((forall s, strftime_text fmt g = Text s -> max <= len s) ->
   exists buf', strftime buf max fmt g = Some (0, buf') /\ length buf' = length buf /\
     drop (Z.to_nat max) buf' = drop (Z.to_nat max) buf).
Proof. apply strftime_cases. Qed.
Lemma strftime_refines_witness :
  strftime (replicate 30 7) 20 (str "%F %U %V") (broken_down 1700000000 GMT)
  = Some (16, str "2023-11-14 46 46" ++ 0 :: replicate 13 7) /\
  exists buf', strftime (replicate 30 7) 16 (str "%F %U %V") (broken_down 1700000000 GMT) = Some (0, buf') /\
    length buf' = 30%nat /\ drop 16 buf' = replicate 14 7.
Proof.
  assert (Ht : printable (broken_down 1700000000 GMT)) by (vm_compute; intuition discriminate).
  split.
  - apply (proj1 (strftime_refines (replicate 30 7) 20 (str "%F %U %V") _ Ht ltac:(done) ltac:(done)) (str "2023-11-14 46 46"));
      vm_compute; reflexivity.
  - apply (proj2 (strftime_refines (replicate 30 7) 16 (str "%F %U %V") _ Ht ltac:(done) ltac:(done))).
    intros s Hs. vm_compute in Hs. injection Hs as <-. done.
Defined.

(** ** ISO 8601 weeks *)

Lemma jan1_mono y y' : y <= y' -> days_from_civil y 1 1 <= days_from_civil y' 1 1.
Proof. intros H. rewrite !days_from_civil_march by lia. unfold march1. simpl. zdm. Qed.

Lemma year_unique z y : days_from_civil y 1 1 <= z < days_from_civil (y + 1) 1 1 -> fst (fst (civil_from_days z)) = y.
Proof.
  intros Hz. destruct (civil_from_days_valid z) as [Hv Hn]. destruct (civil_from_days z) as [[y' m] d]. cbn [fst].
  pose proof (year_bounds y' m d z Hv Hn) as Hb. pose proof (leap_year_length y') as Hl.
  destruct (Z.lt_trichotomy y y') as [Hlt|[Heq|Hlt]]; [|done|].
  - pose proof (jan1_mono (y + 1) y' ltac:(lia)). lia.
  - pose proof (jan1_mono (y' + 1) y ltac:(lia)). lia.
Qed.

Lemma wrap_small a b : is_i32 (a + b) -> wrap_add a b = a + b.
Proof. unfold is_i32, wrap_add, i32, u32, swrap. intros. zdm. Qed.

Lemma wrap_sub_small a b : is_i32 (a - b) -> wrap_sub a b = a - b.
Proof. unfold is_i32, wrap_sub, i32, u32, swrap. intros. zdm. Qed.

(** The Thursday of the week (Monday to Sunday) of a day. *)
Definition thursday (days : Z) : Z := days - (days + 3) mod 7 + 3.

(** The arithmetic of [iso_week_days] around January 1 of a year. *)
Lemma iso_week_days_spec days jan1 : -400 <= days - jan1 ->
  let off := (days - jan1) - Z.rem (days - jan1 - (days + 4) mod 7 + 382) 7 + 3 in
  (off < 0 <-> thursday days < jan1) /\ (0 <= off -> off ÷ 7 = (thursday days - jan1) / 7).
Proof. unfold thursday. intros H. cbv zeta. split; zdm. Qed.

Lemma broken_down_printable t : fits t = true -> printable (broken_down t GMT).
Proof.
  intros Hf. unfold fits, INT_MIN, INT_MAX in Hf. unfold broken_down. destruct (date_of t) as [[y m] d] eqn:Hd. apply date_of_spec in Hd as (Hv & _ & E & Hr). rewrite <- E in Hf. destruct Hv as [Hm Hv].
  assert (d <= 31) by (unfold month_length in Hv; destruct (leap y); cbn in Hv; repeat case_match; lia). destruct (leap y); cbn [Z.b2z] in Hr; unfold printable, typed, is_i32, is_i64; cbn [tm_sec tm_min tm_hour tm_mday tm_mon tm_year tm_wday tm_yday tm_gmtoff]; split_and!; zdm.
Qed.

(** C38. [%G] and [%V] are the ISO 8601 year and week: for every time that
    [gmtime_r] breaks down, with years next to it that fit an int, [iso_week]
    gives the calendar year that the Thursday of the day's week falls in and
    the number of Thursdays of that year up to it, between 1 and 53. *)
Theorem iso_week_correct t out errno g errno' :
  gmtime_r t out errno = (true, g, errno') ->
  is_i32 (year_of t - 1) -> is_i32 (year_of t + 1) ->
  let th := thursday (t / 86400) in
  let y := fst (fst (civil_from_days th)) in
  let w := (th - days_from_civil y 1 1) / 7 + 1 in
  iso_week g = Some (y, w) /\ 1 <= w <= 53.
Proof.
  intros H Hlo Hhi th y w. revert H. unfold gmtime_r. rewrite break_down_eq.
  destruct (fits t) eqn:Hf; [|discriminate]. intros H. injection H as <- _.
  assert (Hmain : iso_week (broken_down t GMT) = Some (y, w)).
  { rewrite iso_week_some by (by apply broken_down_printable). cbv zeta. f_equal. unfold w, broken_down, cal_year. destruct (date_of t) as [[Y m] d] eqn:Hd.
    apply date_of_spec in Hd as (_ & _ & HY & Hb). rewrite <- HY in Hlo, Hhi. cbn [tm_yday tm_wday tm_year].
    rewrite wrap_small by (unfold is_i32 in *; lia). replace (Y - 1900 + 1900) with Y by lia.
    rewrite wrap_sub_small, wrap_small by done. rewrite !leap_year_spec.
    set (days := t / 86400) in *.
    pose proof (leap_year_length (Y - 1)) as H1. replace (Y - 1 + 1) with Y in H1 by lia.
    pose proof (leap_year_length Y) as H2.
    replace (days - days_from_civil Y 1 1 + (365 + Z.b2z (leap (Y - 1)))) with (days - days_from_civil (Y - 1) 1 1) by lia.
    replace (days - days_from_civil Y 1 1 - (365 + Z.b2z (leap Y))) with (days - days_from_civil (Y + 1) 1 1) by lia.
    destruct (iso_week_days_spec days (days_from_civil Y 1 1) ltac:(lia)) as [A1 A2].
    destruct (iso_week_days_spec days (days_from_civil (Y - 1) 1 1) ltac:(lia)) as [B1 B2].
    destruct (iso_week_days_spec days (days_from_civil (Y + 1) 1 1) ltac:(lia)) as [C1 C2].
    assert (Hth : days - 3 <= th <= days + 3) by (unfold th, thursday; zdm). fold th in A1, A2, B1, B2, C1, C2.
    assert (Hy : forall y', days_from_civil y' 1 1 <= th < days_from_civil (y' + 1) 1 1 -> y = y')
      by (intros y' Hy'; by apply year_unique).
    destruct (_ <? 0) eqn:E1; [|destruct (0 <=? _) eqn:E2].
    - rewrite (Hy (Y - 1)) by (replace (Y - 1 + 1) with Y by lia; lia). rewrite B2 by lia. done.
    - pose proof (leap_year_length (Y + 1)). rewrite (Hy (Y + 1)) by lia. rewrite C2 by lia. done.
    - rewrite (Hy Y) by lia. rewrite A2 by lia. done. }
  split; [done|]. unfold w.
  destruct (civil_from_days_valid th) as [Hv Hn]. fold (date_of (86400 * th)) in *.
  unfold y. destruct (civil_from_days th) as [[y' m] d]. pose proof (year_bounds y' m d th Hv Hn). cbn [fst].
  destruct (leap y'); simpl in *; zdm.
Qed.
Lemma iso_week_correct_witness : exists g, gmtime_r 1609459200 (broken_down 0 UTC) 0 = (true, g, 0) /\
  iso_week g = Some (2020, 53).
Proof.
  eexists. split; [vm_compute; reflexivity|].
  refine (proj1 (iso_week_correct 1609459200 (broken_down 0 UTC) 0 _ 0 _ _ _));
    [vm_compute; reflexivity|vm_compute; intuition discriminate..].
Defined.

(** ** Composites are limited to 63 characters *)

Definition widest : tm := mkTm INT_MIN INT_MIN INT_MIN INT_MIN 0 INT_MIN 0 0 0 0 None.

(** A [%c] whose text needs more than 63 characters makes [strftime] return 0
    however large the buffer is, although the same text written out as
    ["%a %b %e %H:%M:%S %Y"] (67 characters here) is printed. *)
Theorem strftime_c_limit :
  (forall max buf, 0 <= max <= len buf -> max < 2 ^ 64 ->
   exists buf', strftime buf max (str "%c") widest = Some (0, buf')) /\
  (exists buf', strftime (replicate 100 0) 100 (str "%a %b %e %H:%M:%S %Y") widest = Some (67, buf')).
Proof.
  split; [|eexists; vm_compute; reflexivity]. intros max buf Hm Hb.
  assert (Ht : printable widest) by (vm_compute; intuition discriminate).
  unfold strftime. destruct (max =? 0); [by eexists|].
  assert (Hg : good (mkSink buf 0 max) \/ max = 0) by (unfold good; cbn; lia). destruct Hg as [Hg| ->].
  - pose proof (emits_loop 3 (format_nested 1) (str "%c") widest Ht ltac:(simpl; lia)
      (or_intror (composite_formats 0 widest Ht)) _ Hg) as H.
    replace (format_text 3 (str "%c") widest) with TooLong in H by (vm_compute; reflexivity).
    destruct H as (o' & Hr & _). change (format _ _ _) with (loop_at 3 (format_nested 1) (str "%c") widest (mkSink buf 0 max)).
    rewrite Hr. by eexists.
  - vm_compute. eauto.
Qed.
