(* ===== verification/AsctimeSpec.v ===== *)
(** * What asctime and ctime write

    The layout of the 26-byte text, for every structure of C ints, and the
    bounds of the buffers it is written to. *)

From S2P Require Import Prelude Mem Digits Calendar Strftime StrftimeSpec.

(** A number of at least [min_digits] digits behind its sign, right aligned. *)
Definition int_text (value min_digits width : Z) : list Z :=
  let digits := decimal (Z.abs value) in
  let text := (if value <? 0 then [chr "-"] else [])
              ++ replicate (Z.to_nat (min_digits - len digits)) (chr "0") ++ digits in
  replicate (Z.to_nat (width - len text)) (chr " ") ++ text.

Definition name3 (names : list (list Z)) (k : Z) : list Z :=
  if (0 <=? k) && (k <? len names) then take 3 (default [] (names !! Z.to_nat k)) else str "???".

(** "Tue Nov 14 22:13:20 2023\n" *)
Definition asctime_layout (g : tm) : list Z :=
  name3 day_long (tm_wday g) ++ str " " ++ name3 month_long (tm_mon g)
  ++ int_text (tm_mday g) 1 3 ++ str " "
  ++ int_text (tm_hour g) 2 0 ++ str ":" ++ int_text (tm_min g) 2 0 ++ str ":" ++ int_text (tm_sec g) 2 0
  ++ str " " ++ int_text (tm_year g + 1900) 1 0 ++ [10].

Lemma array_write_app pre rest s : (length s <= length rest)%nat ->
  array_write (pre ++ rest) (len pre) s = Some (pre ++ s ++ drop (length s) rest).
Proof.
  intros Hs. unfold array_write. rewrite length_app. bool_if. rewrite Nat2Z.id, take_app_length.
  rewrite drop_app_ge by lia. do 4 f_equal. lia.
Qed.

(** The array holds [pre], the cursor stands behind it, and [n] more bytes fit. *)
Definition cursor (dst : list Z) (pos : Z) (pre rest : list Z) : Prop := dst = pre ++ rest /\ pos = len pre.

Lemma cursor_write dst pos pre rest s : cursor dst pos pre rest -> (length s <= length rest)%nat ->
  exists dst', array_write dst pos s = Some dst' /\ cursor dst' (pos + len s) (pre ++ s) (drop (length s) rest).
Proof.
  intros [-> ->] Hs. eexists. split; [by apply array_write_app|]. split; [by rewrite app_assoc|].
  rewrite length_app. lia.
Qed.

Lemma put_int_text dst pos pre rest value md w :
  is_i32 value -> cursor dst pos pre rest -> (length (int_text value md w) <= length rest)%nat ->
  exists dst', int_field dst pos value md w = Some (dst', pos + len (int_text value md w)) /\
    cursor dst' (pos + len (int_text value md w)) (pre ++ int_text value md w) (drop (length (int_text value md w)) rest).
Proof.
  intros Hv Hc Hl. destruct (cursor_write _ _ _ _ _ Hc Hl) as (dst' & Hw & Hc'). exists dst'. split; [|done].
  unfold int_field, put_int. assert (Hm : (if value <? 0 then u32 (0 - u32 value) else u32 value) = Z.abs value)
    by (unfold is_i32, u32 in *; bcases; zdm). rewrite Hm. cbv zeta. unfold int_text in Hw, Hl |- *.
  set (digits := decimal (Z.abs value)) in *.
  set (text := (if value <? 0 then _ else _) ++ replicate _ _ ++ digits) in *.
  assert (Hf : Z.to_nat (if len text <? w then w - len text else 0) = Z.to_nat (w - len text)) by (bcases; lia).
  rewrite Hf, Hw. obind. do 2 f_equal. rewrite length_app, length_replicate. bcases; lia.
Qed.

Lemma put_char_cursor dst pos pre rest c : cursor dst pos pre rest -> (1 <= length rest)%nat ->
  exists dst', put_char dst pos c = Some (dst', pos + 1) /\ cursor dst' (pos + 1) (pre ++ [c]) (drop 1 rest).
Proof.
  intros Hc Hl. destruct (cursor_write _ _ _ _ [c] Hc Hl) as (dst' & Hw & Hc'). exists dst'. split; [|done].
  unfold put_char. by rewrite Hw.
Qed.

Lemma int_text_length value md w : is_i32 value -> 0 <= md <= 2 -> 0 <= w <= 3 -> (length (int_text value md w) <= 11)%nat.
Proof.
  intros Hv Hm Hw. unfold int_text. assert (Hd : (1 <= length (decimal (Z.abs value)) <= 10)%nat)
    by (apply decimal_length; [lia|]; change (10 ^ Z.of_nat 10) with 10000000000; unfold is_i32 in Hv; lia).
  rewrite !length_app, !length_replicate. destruct (value <? 0); cbn [length]; lia.
Qed.

Lemma name3_length names k : Forall (fun s => 3 <= length s)%nat names -> length (name3 names k) = 3%nat.
Proof.
  intros H. unfold name3. destruct (_ && _) eqn:E; [|done]. rewrite length_take.
  pose proof (name_length names (Z.to_nat k) H ltac:(lia)). lia.
Qed.

Lemma day_long_3 : Forall (fun s => 3 <= length s)%nat day_long.
Proof. repeat constructor; simpl; lia. Qed.
Lemma month_long_3 : Forall (fun s => 3 <= length s)%nat month_long.
Proof. repeat constructor; simpl; lia. Qed.

Lemma asctime_layout_length g : typed g -> is_i32 (tm_year g + 1900) -> (length (asctime_layout g) <= 67)%nat.
Proof.
  intros (Hs & Hmi & Hh & Hmd & _) Hy. unfold asctime_layout. rewrite !length_app.
  rewrite (name3_length day_long _ day_long_3), (name3_length month_long _ month_long_3).
  pose proof (int_text_length (tm_mday g) 1 3 Hmd ltac:(lia) ltac:(lia)).
  pose proof (int_text_length (tm_hour g) 2 0 Hh ltac:(lia) ltac:(lia)).
  pose proof (int_text_length (tm_min g) 2 0 Hmi ltac:(lia) ltac:(lia)).
  pose proof (int_text_length (tm_sec g) 2 0 Hs ltac:(lia) ltac:(lia)).
  pose proof (int_text_length (tm_year g + 1900) 1 0 Hy ltac:(lia) ltac:(lia)). simpl. lia.
Qed.

(** One write of the chain: [lem] gives the new array and the new cursor. *)
Ltac write_step lem :=
  let d := fresh "d" in let W := fresh "W" in let C := fresh "C" in
  edestruct lem as (d & W & C); [..|rewrite W; obind; clear W].
Ltac room_left := rewrite ?length_drop; cbn [length]; lia.

Lemma asctime_text_eq g dst : typed g -> is_i32 (tm_year g + 1900) -> (68 <= length dst)%nat ->
  asctime_text g dst =
  Some (0, asctime_layout g ++ 0 :: drop (S (length (asctime_layout g))) dst, len (asctime_layout g)).
Proof.
  intros Ht Hy Hl. pose proof (asctime_layout_length g Ht Hy) as Hlen.
  destruct Ht as (Hs & Hmi & Hh & Hmd & _). unfold asctime_text.
  replace (negb _) with false by (unfold is_i32, INT_MIN, INT_MAX in *; lia).
  assert (Hd : (if (0 <=? tm_wday g) && (tm_wday g <=? 6) then take 3 (default [] (day_long !! Z.to_nat (tm_wday g))) else str "???")
    = name3 day_long (tm_wday g))
    by (unfold name3; change (len day_long) with 7; by replace (tm_wday g <? 7) with (tm_wday g <=? 6) by lia).
  assert (Hm : (if (0 <=? tm_mon g) && (tm_mon g <=? 11) then take 3 (default [] (month_long !! Z.to_nat (tm_mon g))) else str "???")
    = name3 month_long (tm_mon g))
    by (unfold name3; change (len month_long) with 12; by replace (tm_mon g <? 12) with (tm_mon g <=? 11) by lia).
  rewrite Hd, Hm. cbv zeta. clear Hd Hm.
  pose proof (name3_length day_long (tm_wday g) day_long_3) as Hd. pose proof (name3_length month_long (tm_mon g) month_long_3) as Hm.
  unfold asctime_layout in Hlen. rewrite !length_app in Hlen. simpl in Hlen.
  write_step (cursor_write dst 0 [] dst (name3 day_long (tm_wday g))); [done|lia|]. rewrite Hd in C. change (Z.of_nat 3) with 3 in C.
  write_step (put_char_cursor _ _ _ _ (chr " ") C); [room_left|].
  write_step (cursor_write _ _ _ _ (name3 month_long (tm_mon g)) C0); [room_left|]. rewrite Hm in C1. change (Z.of_nat 3) with 3 in C1.
  write_step (put_int_text _ _ _ _ (tm_mday g) 1 3 Hmd C1); [room_left|].
  write_step (put_char_cursor _ _ _ _ (chr " ") C2); [room_left|].
  write_step (put_int_text _ _ _ _ (tm_hour g) 2 0 Hh C3); [room_left|].
  write_step (put_char_cursor _ _ _ _ (chr ":") C4); [room_left|].
  write_step (put_int_text _ _ _ _ (tm_min g) 2 0 Hmi C5); [room_left|].
  write_step (put_char_cursor _ _ _ _ (chr ":") C6); [room_left|].
  write_step (put_int_text _ _ _ _ (tm_sec g) 2 0 Hs C7); [room_left|].
  write_step (put_char_cursor _ _ _ _ (chr " ") C8); [room_left|].
  write_step (put_int_text _ _ _ _ (tm_year g + 1900) 1 0 Hy C9); [room_left|].
  write_step (put_char_cursor _ _ _ _ 10 C10); [room_left|].
  write_step (cursor_write _ _ _ _ [0] C11); [room_left|].
  destruct C12 as [-> _]. destruct C11 as [_ ->]. clear C C0 C1 C2 C3 C4 C5 C6 C7 C8 C9 C10.
  match goal with |- Some (0, (?pre ++ [0]) ++ _, _) = _ => assert (Hp : pre = asctime_layout g) end.
  { unfold asctime_layout. rewrite <- !app_assoc. reflexivity. }
  rewrite Hp. rewrite <- (app_assoc (asctime_layout g)). cbn [app]. do 5 f_equal. rewrite !drop_drop. f_equal.
  unfold asctime_layout. rewrite !length_app, Hd, Hm. cbn [length str]. lia.
Qed.

Lemma asctime_text_overflow g dst : ~ is_i32 (tm_year g + 1900) -> asctime_text g dst = Some (-1, dst, 0).
Proof. intros H. unfold asctime_text. by replace (negb _) with true by (unfold is_i32, INT_MIN, INT_MAX in *; lia). Qed.

(** C39. [asctime_r] on a caller's buffer of 26 bytes or more never writes past
    the 26th byte: a text of at most 25 characters is stored with its NUL; a
    longer one is cut to 25 characters and fails with EOVERFLOW; a year beyond
    an int fails with EOVERFLOW and leaves the buffer alone.  The same text,
    of at most 67 characters, always fits [asctime]'s static 80 bytes.  (NULL
    arguments are not considered.) *)
Theorem asctime_writes g buf static errno :
  typed g -> (26 <= length buf)%nat -> length static = 80%nat ->
  let text := asctime_layout g in
  (~ is_i32 (tm_year g + 1900) ->
   asctime_r (Some g) (Some buf) errno = Some (false, Some buf, EOVERFLOW) /\
   asctime (Some g) static errno = Some (false, static, EOVERFLOW)) /\
  (is_i32 (tm_year g + 1900) ->
   len text <= 67 /\
   asctime (Some g) static errno = Some (true, text ++ 0 :: drop (S (length text)) static, errno) /\
   asctime_r (Some g) (Some buf) errno =
     if len text <? 26 then Some (true, Some (text ++ 0 :: drop (S (length text)) buf), errno)
     else Some (false, Some (take 25 text ++ 0 :: drop 26 buf), EOVERFLOW)).
Proof.
  intros Ht Hb Hst text. split.
  { intros Hy. unfold asctime_r, asctime. by rewrite !asctime_text_overflow by done. }
  intros Hy. pose proof (asctime_layout_length g Ht Hy) as Hl. fold text in Hl. split; [lia|].
  unfold asctime_r, asctime. rewrite !asctime_text_eq by (done || (rewrite ?length_replicate; unfold ASCTIME_STATIC; lia)).
  obind. fold text. cbn [negb Z.eqb]. split; [done|]. destruct (len text <? 26) eqn:E.
  - replace (26 <=? len text) with false by lia.
    replace (Z.to_nat (len text + 1)) with (length (text ++ [0])) by (rewrite length_app; simpl; lia).
    assert (Htk : forall r, take (length (text ++ [0])) (text ++ 0 :: r) = text ++ [0])
      by (intros r; rewrite (cons_middle 0 text r), (app_assoc text [0] r); apply take_app_length). rewrite Htk.
    pose proof (array_write_app [] buf (text ++ [0])) as Hw. cbn [app length] in Hw. change (Z.of_nat 0) with 0 in Hw. rewrite Hw by (rewrite length_app; simpl; lia).
    obind. do 2 f_equal. rewrite <- app_assoc. do 2 f_equal. rewrite length_app, Nat.add_1_r. done.
  - replace (26 <=? len text) with true by lia. rewrite take_app_le by lia.
    assert (H25 : length (take 25 text) = 25%nat) by (rewrite length_take; lia).
    pose proof (array_write_app [] buf (take 25 text)) as Hw. cbn [app length] in Hw. change (Z.of_nat 0) with 0 in Hw. rewrite Hw by lia. obind. rewrite H25.
    pose proof (array_write_app (take 25 text) (drop 25 buf) [0]) as Hw2. rewrite H25 in Hw2.
    change (Z.of_nat 25) with 25 in Hw2. rewrite Hw2 by (rewrite length_drop; simpl; lia). obind.
    cbn [length app]. by rewrite drop_drop.
Qed.
Lemma asctime_writes_witness :
  asctime_r (Some (broken_down 1700000000 GMT)) (Some (replicate 30 7)) 0
  = Some (true, Some (str "Tue Nov 14 22:13:20 2023" ++ [10; 0; 7; 7; 7; 7]), 0).
Proof.
  assert (Ht : typed (broken_down 1700000000 GMT)) by (vm_compute; intuition discriminate).
  refine (proj2 (proj2 (proj2 (asctime_writes (broken_down 1700000000 GMT) (replicate 30 7) (replicate 80 0) 0 Ht _ _) _)));
    [simpl; lia|reflexivity|vm_compute; intuition discriminate].
Defined.
