(* ===== verification/Strptime.v ===== *)
(** * strptime (lib/moqi_libc/src/timeconv.c, last part)

    The input and the format are byte lists up to the NUL, pointers into them
    are suffixes, NULL is [None].  Parsing writes into the caller's [struct tm]
    as it goes, also when it fails later, so every step returns the structure
    and the pending state.  The flags of [pstate] that the source keeps as ints
    0 and 1 are booleans.  A run is [None] only when a loop exceeds its fuel,
    which the termination theorem excludes. *)

From S2P Require Import Prelude Mem Digits Calendar Strftime.

(** ** Tables and day arithmetic *)

Definition mon_yday_flat_tab : list Z :=
  [0;
   0; 31; 59; 90; 120; 151; 181; 212; 243; 273; 304; 334; 365;
   0; 31; 60; 91; 121; 152; 182; 213; 244; 274; 305; 335; 366].

Definition mon_yday_flat (index : Z) : Z :=
  if index <? -1 then 0
  else if 25 <? index then 2147483647
  else default 0 (mon_yday_flat_tab !! Z.to_nat (index + 1)).

Definition is_leap_year (y : Z) : bool :=
  (Z.rem y 4 =? 0) && (negb (Z.rem y 100 =? 0) || (Z.rem y 400 =? 0)).

Definition mon_yday_at (leap : bool) (month : Z) : Z := mon_yday_flat (Z.b2z leap * 13 + month).

Record pstate := mkPstate {
  have_I : bool;
  is_pm : bool;
  century : Z;
  want_century : bool;
  want_era : bool;
  want_xday : bool;
  have_wday : bool;
  have_yday : bool;
  have_mon : bool;
  have_mday : bool;
  have_uweek : bool;
  have_wweek : bool;
  week_no : Z;
  decided : Z;
}.

Definition set_have_I v s := mkPstate v (is_pm s) (century s) (want_century s) (want_era s) (want_xday s) (have_wday s) (have_yday s) (have_mon s) (have_mday s) (have_uweek s) (have_wweek s) (week_no s) (decided s).
Definition set_is_pm v s := mkPstate (have_I s) v (century s) (want_century s) (want_era s) (want_xday s) (have_wday s) (have_yday s) (have_mon s) (have_mday s) (have_uweek s) (have_wweek s) (week_no s) (decided s).
Definition set_century v s := mkPstate (have_I s) (is_pm s) v (want_century s) (want_era s) (want_xday s) (have_wday s) (have_yday s) (have_mon s) (have_mday s) (have_uweek s) (have_wweek s) (week_no s) (decided s).
Definition set_want_century v s := mkPstate (have_I s) (is_pm s) (century s) v (want_era s) (want_xday s) (have_wday s) (have_yday s) (have_mon s) (have_mday s) (have_uweek s) (have_wweek s) (week_no s) (decided s).
Definition set_want_era v s := mkPstate (have_I s) (is_pm s) (century s) (want_century s) v (want_xday s) (have_wday s) (have_yday s) (have_mon s) (have_mday s) (have_uweek s) (have_wweek s) (week_no s) (decided s).
Definition set_want_xday v s := mkPstate (have_I s) (is_pm s) (century s) (want_century s) (want_era s) v (have_wday s) (have_yday s) (have_mon s) (have_mday s) (have_uweek s) (have_wweek s) (week_no s) (decided s).
Definition set_have_wday v s := mkPstate (have_I s) (is_pm s) (century s) (want_century s) (want_era s) (want_xday s) v (have_yday s) (have_mon s) (have_mday s) (have_uweek s) (have_wweek s) (week_no s) (decided s).
Definition set_have_yday v s := mkPstate (have_I s) (is_pm s) (century s) (want_century s) (want_era s) (want_xday s) (have_wday s) v (have_mon s) (have_mday s) (have_uweek s) (have_wweek s) (week_no s) (decided s).
Definition set_have_mon v s := mkPstate (have_I s) (is_pm s) (century s) (want_century s) (want_era s) (want_xday s) (have_wday s) (have_yday s) v (have_mday s) (have_uweek s) (have_wweek s) (week_no s) (decided s).
Definition set_have_mday v s := mkPstate (have_I s) (is_pm s) (century s) (want_century s) (want_era s) (want_xday s) (have_wday s) (have_yday s) (have_mon s) v (have_uweek s) (have_wweek s) (week_no s) (decided s).
Definition set_have_uweek v s := mkPstate (have_I s) (is_pm s) (century s) (want_century s) (want_era s) (want_xday s) (have_wday s) (have_yday s) (have_mon s) (have_mday s) v (have_wweek s) (week_no s) (decided s).
Definition set_have_wweek v s := mkPstate (have_I s) (is_pm s) (century s) (want_century s) (want_era s) (want_xday s) (have_wday s) (have_yday s) (have_mon s) (have_mday s) (have_uweek s) v (week_no s) (decided s).
Definition set_week_no v s := mkPstate (have_I s) (is_pm s) (century s) (want_century s) (want_era s) (want_xday s) (have_wday s) (have_yday s) (have_mon s) (have_mday s) (have_uweek s) (have_wweek s) v (decided s).
Definition set_decided v s := mkPstate (have_I s) (is_pm s) (century s) (want_century s) (want_era s) (want_xday s) (have_wday s) (have_yday s) (have_mon s) (have_mday s) (have_uweek s) (have_wweek s) (week_no s) v.

Definition DECIDED_NOT : Z := 0.
Definition DECIDED_ALT : Z := 1.
Definition DECIDED_RAW : Z := 2.

Definition is_space (c : Z) : bool :=
  (c =? chr " ") || (c =? 9) || (c =? 10) || (c =? 11) || (c =? 12) || (c =? 13).

Definition wrap_mul (a b : Z) : Z := i32 (u32 (u32 a * u32 b)).

Definition day_of_the_week (g : tm) : tm :=
  let corr_year := wrap_sub (wrap_add 1900 (tm_year g)) (Z.b2z (tm_mon g <? 2)) in
  let q := corr_year ÷ 4 in
  let wday := -473 in
  let wday := wrap_add wday (wrap_mul 365 (wrap_sub (tm_year g) 70)) in
  let wday := wrap_add wday q in
  let wday := wrap_sub wday (q ÷ 25) in
  let wday := wrap_add wday (Z.b2z (Z.rem q 25 <? 0)) in
  let wday := wrap_add wday ((q ÷ 25) ÷ 4) in
  let wday := wrap_add wday (mon_yday_flat (tm_mon g)) in
  let wday := wrap_add wday (wrap_sub (tm_mday g) 1) in
  set_wday (Z.rem (Z.rem wday 7 + 7) 7) g.

Definition day_of_the_year (g : tm) : tm :=
  set_yday (mon_yday_at (is_leap_year (1900 + tm_year g)) (tm_mon g) + (tm_mday g - 1)) g.

(** [while (mon_yday_at(leap, t_mon) <= tm_yday) t_mon++] *)
Fixpoint mon_search (fuel : nat) (leap : bool) (yday t_mon : Z) : option Z :=
  match fuel with
  | O => None
  | S n => if mon_yday_at leap t_mon <=? yday then mon_search n leap yday (t_mon + 1) else Some t_mon
  end.

Definition yday_to_mon_mday (g : tm) (set_mon_ set_mday_ : bool) : option tm :=
  let leap := is_leap_year (1900 + tm_year g) in
  t_mon ← mon_search 32 leap (tm_yday g) 0;
  let g := if set_mon_ then set_mon (t_mon - 1) g else g in
  let g := if set_mday_ then set_mday (tm_yday g - mon_yday_at leap (t_mon - 1) + 1) g else g in
  Some g.

(** ** Matching *)

(** The rest behind the name, compared without case; [None] when it does not match. *)
Fixpoint match_name (a name : list Z) : option (list Z) :=
  match name with
  | [] => Some a
  | b :: name' => if negb (low (peek a) =? low b) then None else match_name (drop 1 a) name'
  end.

Definition match_abbr (a name : list Z) : option (list Z) := match_name a (take 3 name).

Fixpoint strp_spaces (rp : list Z) : list Z :=
  match rp with
  | c :: rp' => if is_space c then strp_spaces rp' else rp
  | [] => rp
  end.

(** The do-while of the NUMBER macro, [count] the digits still allowed. *)
Fixpoint number_loop (count : nat) (val : Z) (rp : list Z) (to : Z) : Z * list Z :=
  let val := val * 10 + (peek rp - chr "0") in
  let rp := drop 1 rp in
  match count with
  | S c => if (1 <=? Z.of_nat c) && (val * 10 <=? to) && is_dig (peek rp) then number_loop c val rp to else (val, rp)
  | O => (val, rp)
  end.

(** NUMBER(from, to, n): the value and the rest, [None] for "return NULL". *)
Definition number (rp : list Z) (from to : Z) (n : nat) : option (Z * list Z) :=
  let rp := strp_spaces rp in
  if negb (is_dig (peek rp)) then None else
  let '(val, rp) := number_loop n 0 rp to in
  if (val <? from) || (to <? val) then None else Some (val, rp).

(** Position of the longest match so far: pointer comparison, NULL below all. *)
Definition longer (trp : list Z) (longest : option (list Z)) : bool :=
  match longest with None => true | Some l => (length trp <? length l)%nat end.

(** rp, longest, cnt_longest, decided *)
Definition name_state : Type := list Z * option (list Z) * Z * Z.

(** The pass over the locale's names for one entry. *)
Definition locale_pass (name : list Z) (cnt : Z) (st : name_state) : name_state :=
  let '(rp, longest, best, dec) := st in
  if dec =? DECIDED_RAW then st else
  let '(longest, best) :=
    match match_name rp name with
    | Some trp => if longer trp longest then (Some trp, cnt) else (longest, best)
    | None => (longest, best)
    end in
  let '(longest, best) :=
    match match_abbr rp name with
    | Some trp => if longer trp longest then (Some trp, cnt) else (longest, best)
    | None => (longest, best)
    end in
  (rp, longest, best, dec).

(** The full name in the plain pass: the new position if it is a longer match. *)
Definition plain_full (name rp : list Z) (longest : option (list Z)) : option (list Z) :=
  match match_name rp name with
  | Some trp => if longer trp longest then Some trp else None
  | None => None
  end.

(** The plain pass for a day: the abbreviation moves [rp] itself. *)
Definition day_pass (name : list Z) (cnt : Z) (st : name_state) : name_state :=
  let '(rp, longest, best, dec) := st in
  if dec =? DECIDED_ALT then st else
  match plain_full name rp longest with
  | Some trp => (rp, Some trp, cnt, DECIDED_RAW)
  | None =>
      let trp := rp in
      match match_abbr rp name with
      | Some rp => if longer trp longest then (rp, Some trp, cnt, DECIDED_RAW) else (rp, longest, best, dec)
      | None => (rp, longest, best, dec)
      end
  end.

(** The plain pass for a month. *)
Definition month_pass (name : list Z) (cnt : Z) (st : name_state) : name_state :=
  let '(rp, longest, best, dec) := st in
  if dec =? DECIDED_ALT then st else
  match plain_full name rp longest with
  | Some trp => (rp, Some trp, cnt, DECIDED_RAW)
  | None =>
      match match_abbr rp name with
      | Some trp => if longer trp longest then (rp, Some trp, cnt, DECIDED_RAW) else (rp, longest, best, dec)
      | None => (rp, longest, best, dec)
      end
  end.

(** The for loop over the names. *)
Fixpoint name_loop (pass : list Z -> Z -> name_state -> name_state) (names : list (list Z)) (cnt : Z)
    (st : name_state) : name_state :=
  match names with
  | [] => st
  | name :: names' => name_loop pass names' (cnt + 1) (pass name cnt (locale_pass name cnt st))
  end.

(** ** Conversions *)

Definition result := option (option (list Z) * tm * pstate).

Definition stop (g : tm) (s : pstate) : result := Some (None, g, s).
Definition continue (rp : list Z) (g : tm) (s : pstate) : result := Some (Some rp, g, s).

Definition with_number (rp : list Z) (from to : Z) (n : nat) (g : tm) (s : pstate) (k : Z -> list Z -> result) : result :=
  match number rp from to n with None => stop g s | Some (val, rp) => k val rp end.

(** RECURSE: the scratch copies are kept only when the expansion matched. *)
Definition parser := list Z -> list Z -> tm -> pstate -> result.
Definition recurse (nested : parser) (rp sub : list Z) (g : tm) (s : pstate) (k : list Z -> tm -> pstate -> result) : result :=
  match nested rp sub g s with
  | None => None
  | Some (None, _, _) => stop g s
  | Some (Some next, g', s') => k next g' s'
  end.

(** The digits of a [%s] number, wrapping in 64 bits. *)
Fixpoint secs_loop (rp : list Z) (secs : Z) : Z * list Z :=
  match rp with
  | c :: rp' => if is_dig c then secs_loop rp' (u64 (secs * 10 + (c - chr "0"))) else (secs, rp)
  | [] => (secs, rp)
  end.

Fixpoint skip_digits (rp : list Z) : list Z :=
  match rp with
  | c :: rp' => if is_dig c then skip_digits rp' else rp
  | [] => rp
  end.

Fixpoint skip_word (rp : list Z) : list Z :=
  match rp with
  | c :: rp' => if negb (is_space c) && negb (c =? 0) then skip_word rp' else rp
  | [] => rp
  end.

(** Up to four digits of an offset, with a colon allowed behind the second. *)
Fixpoint zone_loop (fuel : nat) (rp : list Z) (val n : Z) : Z * Z * list Z :=
  match fuel with
  | O => (val, n, rp)
  | S fuel =>
      if is_dig (peek rp) then
        let val := val * 10 + (peek rp - chr "0") in
        let rp := drop 1 rp in
        let n := n + 1 in
        let rp := if (peek rp =? chr ":") && (n =? 2) && is_dig (peek_at rp 1) then drop 1 rp else rp in
        zone_loop fuel rp val n
      else (val, n, rp)
  end.

Definition zone_offset (rp : list Z) (g : tm) (s : pstate) : result :=
  let rp := strp_spaces rp in
  if peek rp =? chr "Z" then continue (drop 1 rp) (set_gmtoff 0 g) s else
  if negb (peek rp =? chr "+") && negb (peek rp =? chr "-") then stop g s else
  let neg := peek rp =? chr "-" in
  let '(val, n, rp) := zone_loop 4 (drop 1 rp) 0 0 in
  if negb (n =? 2) && (negb (n =? 4) || (60 <=? Z.rem val 100)) then stop g s else
  let val := if n =? 2 then val * 100 else val in
  let off := (val ÷ 100) * 3600 + Z.rem val 100 * 60 in
  continue rp (set_gmtoff (if neg then - off else off) g) s.

(** The case 'y', behind the optional number of [%Ey]. *)
Definition two_digit_year (mod_ : Z) (rp : list Z) (g : tm) (s : pstate) : result :=
  with_number rp 0 99 2 g s (fun val rp =>
    let g := set_year (if 69 <=? val then val else val + 100) g in
    let s := if negb (mod_ =? chr "O") then set_want_century true s else s in
    continue rp g (set_want_xday true s)).

(** [%EC] and [%EY]: fail in state ALT, commit to RAW; [None] is the failure. *)
Definition commit_raw (mod_ : Z) (s : pstate) : option pstate :=
  if mod_ =? chr "E" then
    if decided s =? DECIDED_ALT then None else Some (set_decided DECIDED_RAW s)
  else Some s.

(** The cases of the switch from 'S' on. *)
Definition parse_late (nested : parser) (conv mod_ : Z) (rp : list Z) (g : tm) (s : pstate) : result :=
  if conv =? chr "S" then
    with_number rp 0 61 2 g s (fun val rp => continue rp (set_sec val g) s)
  else if (conv =? chr "X") || (conv =? chr "T") then recurse nested rp (str "%H:%M:%S") g s continue
  else if conv =? chr "u" then
    with_number rp 1 7 1 g s (fun val rp => continue rp (set_wday (Z.rem val 7) g) (set_have_wday true s))
  else if conv =? chr "g" then with_number rp 0 99 2 g s (fun val rp => continue rp g s)
  else if conv =? chr "G" then
    if negb (is_dig (peek rp)) then stop g s else continue (skip_digits rp) g s
  else if conv =? chr "U" then
    with_number rp 0 53 2 g s (fun val rp => continue rp g (set_have_uweek true (set_week_no val s)))
  else if conv =? chr "W" then
    with_number rp 0 53 2 g s (fun val rp => continue rp g (set_have_wweek true (set_week_no val s)))
  else if conv =? chr "V" then with_number rp 0 53 2 g s (fun val rp => continue rp g s)
  else if conv =? chr "w" then
    with_number rp 0 6 1 g s (fun val rp => continue rp (set_wday val g) (set_have_wday true s))
  else if conv =? chr "y" then
    if (mod_ =? chr "E") && negb (decided s =? DECIDED_RAW) then
      with_number rp 0 9999 4 g s (fun val rp =>
        let g := set_year val g in
        let s := set_want_century true (set_want_xday true (set_want_era true s)) in
        if decided s =? DECIDED_ALT then stop g s
        else two_digit_year mod_ rp g (set_decided DECIDED_RAW s))
    else two_digit_year mod_ rp g s
  else if conv =? chr "Y" then
    match commit_raw mod_ s with
    | None => stop g s
    | Some s =>
        with_number rp 0 9999 4 g s (fun val rp =>
          continue rp (set_year (val - 1900) g) (set_want_xday true (set_want_century false s)))
    end
  else if conv =? chr "Z" then continue (skip_word (strp_spaces rp)) g s
  else if conv =? chr "z" then zone_offset rp g s
  else stop g s.

(** One case of the switch. *)
Definition parse_conv (nested : parser) (conv mod_ : Z) (rp : list Z) (g : tm) (s : pstate) : result :=
  if conv =? chr "%" then
    if negb (peek rp =? chr "%") then stop g s else continue (drop 1 rp) g s
  else if (conv =? chr "a") || (conv =? chr "A") then
    let '(rp', longest, best, dec) := name_loop day_pass day_long 0 (rp, None, -1, decided s) in
    let s := set_decided dec s in
    match longest with
    | None => stop g s
    | Some rp => continue rp (set_wday best g) (set_have_wday true s)
    end
  else if (conv =? chr "b") || (conv =? chr "B") || (conv =? chr "h") then
    let '(rp', longest, best, dec) := name_loop month_pass month_long 0 (rp, None, -1, decided s) in
    let s := set_decided dec s in
    match longest with
    | None => stop g s
    | Some rp => continue rp (set_mon best g) (set_want_xday true (set_have_mon true s))
    end
  else if conv =? chr "c" then
    recurse nested rp (str "%a %b %e %H:%M:%S %Y") g s (fun rp g s => continue rp g (set_want_xday true s))
  else if conv =? chr "C" then
    match commit_raw mod_ s with
    | None => stop g s
    | Some s => with_number rp 0 99 2 g s (fun val rp => continue rp g (set_want_xday true (set_century val s)))
    end
  else if (conv =? chr "d") || (conv =? chr "e") then
    with_number rp 1 31 2 g s (fun val rp => continue rp (set_mday val g) (set_want_xday true (set_have_mday true s)))
  else if conv =? chr "F" then
    recurse nested rp (str "%Y-%m-%d") g s (fun rp g s => continue rp g (set_want_xday true s))
  else if (conv =? chr "x") || (conv =? chr "D") then
    recurse nested rp (str "%m/%d/%y") g s (fun rp g s => continue rp g (set_want_xday true s))
  else if (conv =? chr "k") || (conv =? chr "H") then
    with_number rp 0 23 2 g s (fun val rp => continue rp (set_hour val g) (set_have_I false s))
  else if (conv =? chr "I") || (conv =? chr "l") then
    with_number rp 1 12 2 g s (fun val rp => continue rp (set_hour (Z.rem val 12) g) (set_have_I true s))
  else if conv =? chr "j" then
    with_number rp 1 366 3 g s (fun val rp => continue rp (set_yday (val - 1) g) (set_have_yday true s))
  else if conv =? chr "m" then
    with_number rp 1 12 2 g s (fun val rp => continue rp (set_mon (val - 1) g) (set_want_xday true (set_have_mon true s)))
  else if conv =? chr "M" then
    with_number rp 0 59 2 g s (fun val rp => continue rp (set_min val g) s)
  else if (conv =? chr "n") || (conv =? chr "t") then continue (strp_spaces rp) g s
  else if conv =? chr "p" then
    match match_name rp (str "AM") with
    | Some rp => continue rp g (set_is_pm false s)
    | None =>
        match match_name rp (str "PM") with
        | Some rp => continue rp g (set_is_pm true s)
        | None => stop g s
        end
    end
  else if conv =? chr "r" then recurse nested rp (str "%I:%M:%S %p") g s continue
  else if conv =? chr "R" then recurse nested rp (str "%H:%M") g s continue
  else if conv =? chr "s" then
    if negb (is_dig (peek rp)) then stop g s else
    let '(secs, rp) := secs_loop rp 0 in
    let '(ok, g, _) := localtime_r (i64 secs) g 0 in
    if ok then continue rp g s else stop g s
  else parse_late nested conv mod_ rp g s.

(** ** The format loop *)

Fixpoint skip_flags (fmt : list Z) : list Z :=
  match fmt with
  | c :: fmt' =>
      if (c =? chr "-") || (c =? chr "_") || (c =? chr "0") || (c =? chr "^") || (c =? chr "#")
      then skip_flags fmt' else fmt
  | [] => fmt
  end.

Definition strp_accepts (mod_ conv : Z) : bool :=
  existsb (fun x => x =? conv) (if mod_ =? chr "E" then str "CXYcxy" else str "BHIMSUVWbdehmwy").

(** The numeric O conversions and the state of alternative digits: [None] fails. *)
Definition alternative (mod_ conv : Z) (s : pstate) : option pstate :=
  if (mod_ =? chr "O") && negb (conv =? chr "B") && negb (conv =? chr "b") && negb (conv =? chr "h") then
    if decided s =? DECIDED_ALT then None
    else Some (if decided s =? DECIDED_NOT then set_decided DECIDED_ALT s else s)
  else Some s.

Fixpoint core_loop (fuel : nat) (nested : parser) (rp fmt : list Z) (g : tm) (s : pstate) : result :=
  match fuel with
  | O => None
  | S fuel =>
      if peek fmt =? 0 then continue rp g s
      else if is_space (peek fmt) then core_loop fuel nested (strp_spaces rp) (drop 1 fmt) g s
      else if negb (peek fmt =? chr "%") then
        if negb (peek fmt =? peek rp) then stop g s
        else core_loop fuel nested (drop 1 rp) (drop 1 fmt) g s
      else
        let fmt := skip_digits (skip_flags (drop 1 fmt)) in
        let conv := peek fmt in
        let fmt := drop 1 fmt in
        let modified := (conv =? chr "E") || (conv =? chr "O") in
        let mod_ := if modified then conv else 0 in
        let conv := if modified then peek fmt else conv in
        let fmt := if modified then drop 1 fmt else fmt in
        if modified && negb (strp_accepts mod_ conv) then stop g s else
        match alternative mod_ conv s with
        | None => stop g s
        | Some s =>
            match parse_conv nested conv mod_ rp g s with
            | Some (Some rp, g, s) => core_loop fuel nested rp fmt g s
            | r => r
            end
        end
  end.

(** Behind the loop of the outermost call: the fields that follow from others. *)
Definition finish_year (g : tm) (s : pstate) : tm :=
  let g := if have_I s && is_pm s then set_hour (tm_hour g + 12) g else g in
  if negb (century s =? -1) then
    if want_century s then set_year (Z.rem (tm_year g) 100 + (century s - 19) * 100) g
    else set_year ((century s - 19) * 100) g
  else if want_era s then
    if want_century s && (century s =? -1) && (tm_year g <? 69) then set_year (tm_year g + 100) g else g
  else g.

Definition finish_wday (g : tm) (s : pstate) : option (tm * pstate) :=
  if want_xday s && negb (have_wday s) then
    '(g, s) ← (if negb (have_mon s && have_mday s) && have_yday s then
                 g ← yday_to_mon_mday g (negb (have_mon s)) (negb (have_mday s));
                 Some (g, set_have_mday true (set_have_mon true s))
               else Some (g, s));
    Some (if have_mon s || (u32 (tm_mon g) <=? 11) then day_of_the_week g else g, s)
  else Some (g, s).

Definition restore_date (s : pstate) (save_mday save_mon : Z) (g : tm) : tm :=
  let g := if have_mday s then set_mday save_mday g else g in
  if have_mon s then set_mon save_mon g else g.

Definition week_yday (s : pstate) (w_offset save_wday : Z) (g : tm) : tm :=
  if negb (have_yday s)
  then set_yday (Z.rem (7 - (tm_wday g - w_offset)) 7 + (week_no s - 1) * 7
                 + Z.rem (save_wday - w_offset + 7) 7) g
  else g.

Definition finish_weeks (g : tm) (s : pstate) : option tm :=
  if (have_uweek s || have_wweek s) && have_wday s then
    let save_wday := tm_wday g in
    let save_mday := tm_mday g in
    let save_mon := tm_mon g in
    let w_offset := if have_uweek s then 0 else 1 in
    let g := restore_date s save_mday save_mon (day_of_the_week (set_mon 0 (set_mday 1 g))) in
    let g := week_yday s w_offset save_wday g in
    g ← (if negb (have_mday s) || negb (have_mon s)
         then yday_to_mon_mday g (negb (have_mon s)) (negb (have_mday s)) else Some g);
    Some (set_wday save_wday g)
  else Some g.

Definition finish (g : tm) (s : pstate) : option (tm * pstate) :=
  let g := finish_year g s in
  '(g, s) ← finish_wday g s;
  let g := if want_xday s && negb (have_yday s) && (have_mon s || (u32 (tm_mon g) <=? 11))
           then day_of_the_year g else g in
  g ← finish_weeks g s;
  Some (g, s).

(** [strptime_core] with [nested] set, calls nested at most [depth] deep. *)
Fixpoint core_nested (depth : nat) : parser :=
  fun rp fmt g s =>
    match depth with
    | O => None
    | S d => core_loop (S (length fmt)) (core_nested d) rp fmt g s
    end.

Definition strptime_core (rp fmt : list Z) (g : tm) (s : pstate) : result :=
  match core_nested 2 rp fmt g s with
  | Some (Some rp, g, s) => '(g, s) ← finish g s; continue rp g s
  | r => r
  end.

Definition strptime (buf format : list Z) (g : tm) : option (option (list Z) * tm) :=
  let s := mkPstate false false (-1) false false false false false false false false false 0 DECIDED_NOT in
  '(r, g, _) ← strptime_core buf format g s;
  Some (r, g).
