(* ===== verification/StrptimeSpec.v ===== *)
(** * strptime: termination, and reading back what strftime prints *)

From S2P Require Import Prelude Mem Digits Calendar Strftime StrftimeSpec Strptime.

(** ** Termination and pointers

    What holds of the structure and the pending state while parsing. *)

Definition pending_ok (g : tm) (s : pstate) : Prop :=
  (have_yday s = true -> 0 <= tm_yday g <= 365) /\
  (have_wday s = true -> 0 <= tm_wday g <= 6) /\
  0 <= week_no s <= 53.

(** A run that ends: NULL, or a pointer into the input and a sound state. *)
Definition sound (rp : list Z) (r : result) : Prop :=
  match r with
  | None => False
  | Some (None, _, _) => True
  | Some (Some rp', g, s) => rp' `suffix_of` rp /\ pending_ok g s
  end.

Lemma drop_suffix {A} n (l : list A) : drop n l `suffix_of` l.
Proof. exists (take n l). by rewrite take_drop. Qed.

Lemma strp_spaces_suffix rp : strp_spaces rp `suffix_of` rp.
Proof. induction rp as [|c rp IH]; simpl; [done|]. destruct (is_space c); [by apply suffix_cons_r|done]. Qed.

Lemma skip_digits_suffix rp : skip_digits rp `suffix_of` rp.
Proof. induction rp as [|c rp IH]; simpl; [done|]. destruct (is_dig c); [by apply suffix_cons_r|done]. Qed.

Lemma skip_word_suffix rp : skip_word rp `suffix_of` rp.
Proof. induction rp as [|c rp IH]; simpl; [done|]. destruct (_ && _); [by apply suffix_cons_r|done]. Qed.

Lemma skip_flags_suffix rp : skip_flags rp `suffix_of` rp.
Proof. induction rp as [|c rp IH]; simpl; [done|]. destruct (_ || _); [by apply suffix_cons_r|done]. Qed.

Lemma secs_loop_suffix rp : forall v, snd (secs_loop rp v) `suffix_of` rp.
Proof. induction rp as [|c rp IH]; intros v; simpl; [done|]. destruct (is_dig c); [by apply suffix_cons_r|done]. Qed.

Lemma match_name_suffix name : forall a a', match_name a name = Some a' -> a' `suffix_of` a.
Proof.
  induction name as [|b name IH]; intros a a'; cbn [match_name]; [by intros [= ->]|].
  destruct (negb _); [done|]. intros H%IH. etrans; [done|apply drop_suffix].
Qed.

Lemma number_loop_suffix c : forall v rp to, snd (number_loop c v rp to) `suffix_of` rp.
Proof.
  induction c as [|c IH]; intros v rp to; cbn [number_loop]; [apply drop_suffix|].
  destruct (_ && _); [|apply drop_suffix]. etrans; [apply IH|apply drop_suffix].
Qed.

Lemma number_spec rp from to n v rp' : number rp from to n = Some (v, rp') -> from <= v <= to /\ rp' `suffix_of` rp.
Proof.
  unfold number. destruct (negb _); [done|].
  pose proof (number_loop_suffix n 0 (strp_spaces rp) to) as Hs. destruct (number_loop _ _ _ _) as [v0 r0].
  destruct (_ || _) eqn:E; [done|]. intros [= -> ->]. split; [lia|]. etrans; [exact Hs|apply strp_spaces_suffix].
Qed.

Lemma with_number_sound rp from to n g s k :
  (forall v rp', from <= v <= to -> rp' `suffix_of` rp -> sound rp (k v rp')) ->
  sound rp (with_number rp from to n g s k).
Proof.
  intros Hk. unfold with_number. destruct (number rp from to n) as [[v rp']|] eqn:E; [|done].
  apply number_spec in E as [Hv Hs]. auto.
Qed.

Lemma recurse_sound (nested : parser) rp sub g s k :
  sound rp (nested rp sub g s) ->
  (forall rp' g' s', rp' `suffix_of` rp -> pending_ok g' s' -> sound rp (k rp' g' s')) ->
  sound rp (recurse nested rp sub g s k).
Proof.
  intros Hn Hk. unfold recurse. destruct (nested rp sub g s) as [[[[rp'|] g'] s']|]; simpl in Hn; [|done|done].
  destruct Hn. auto.
Qed.

(** The name loops stay inside the input and pick an entry of the list. *)
Definition names_ok (rp0 : list Z) (n : Z) (st : name_state) : Prop :=
  let '(rp, longest, best, dec) := st in
  rp `suffix_of` rp0 /\ (forall l, longest = Some l -> l `suffix_of` rp0 /\ 0 <= best < n).

Lemma locale_pass_ok rp0 n name cnt st : 0 <= cnt < n -> names_ok rp0 n st -> names_ok rp0 n (locale_pass name cnt st).
Proof.
  intros Hc. destruct st as [[[rp longest] best] dec]. intros [Hr Hl]. unfold locale_pass.
  destruct (dec =? DECIDED_RAW); [done|].
  assert (Hm : forall nm trp, match_name rp nm = Some trp -> trp `suffix_of` rp0)
    by (intros nm trp H%match_name_suffix; by etrans).
  unfold match_abbr. destruct (match_name rp name) as [t1|] eqn:E1; [apply Hm in E1; destruct (longer t1 longest)|];
    (destruct (match_name rp (take 3 name)) as [t2|] eqn:E2; [apply Hm in E2|];
     cbn [names_ok]; repeat case_match; simplify_eq; split; try done; intros l [= <-] || intros l Hl'; auto; split; (done || lia)).
Qed.

Lemma plain_full_suffix name rp longest trp : plain_full name rp longest = Some trp -> trp `suffix_of` rp.
Proof.
  unfold plain_full. destruct (match_name rp name) as [t|] eqn:E; [|done]. apply match_name_suffix in E.
  destruct (longer t longest); by intros [= <-].
Qed.

Lemma day_pass_ok rp0 n name cnt st : 0 <= cnt < n -> names_ok rp0 n st -> names_ok rp0 n (day_pass name cnt st).
Proof.
  intros Hc. destruct st as [[[rp longest] best] dec]. intros [Hr Hl]. unfold day_pass, match_abbr.
  destruct (dec =? DECIDED_ALT); [done|]. destruct (plain_full name rp longest) as [t|] eqn:E.
  { apply plain_full_suffix in E. split; [done|]. intros l [= <-]. split; [by etrans|lia]. }
  destruct (match_name rp (take 3 name)) as [t|] eqn:E2; [|done]. apply match_name_suffix in E2.
  destruct (longer rp longest); (split; [by etrans|]); [intros l [= <-]; split; [done|lia]|done].
Qed.

Lemma month_pass_ok rp0 n name cnt st : 0 <= cnt < n -> names_ok rp0 n st -> names_ok rp0 n (month_pass name cnt st).
Proof.
  intros Hc. destruct st as [[[rp longest] best] dec]. intros [Hr Hl]. unfold month_pass, match_abbr.
  destruct (dec =? DECIDED_ALT); [done|]. destruct (plain_full name rp longest) as [t|] eqn:E.
  { apply plain_full_suffix in E. split; [done|]. intros l [= <-]. split; [by etrans|lia]. }
  destruct (match_name rp (take 3 name)) as [t|] eqn:E2; [|done]. apply match_name_suffix in E2.
  destruct (longer t longest); [|done]. split; [done|]. intros l [= <-]. split; [by etrans|lia].
Qed.

Lemma name_loop_ok pass rp0 n names : forall cnt st,
  (forall name cnt st, 0 <= cnt < n -> names_ok rp0 n st -> names_ok rp0 n (pass name cnt st)) ->
  0 <= cnt -> cnt + len names <= n -> names_ok rp0 n st -> names_ok rp0 n (name_loop pass names cnt st).
Proof.
  induction names as [|nm names IH]; intros cnt st Hp H0 Hn Hs; cbn [name_loop length] in *; [done|].
  apply IH; [done|lia|lia|]. apply Hp; [lia|]. apply locale_pass_ok; [lia|done].
Qed.

Lemma zone_loop_suffix fuel : forall rp v n, snd (zone_loop fuel rp v n) `suffix_of` rp.
Proof.
  induction fuel as [|f IH]; intros rp v n; cbn [zone_loop]; [done|].
  destruct (is_dig (peek rp)); [|done]. cbv zeta. etrans; [apply IH|].
  destruct (_ && _); [etrans; apply drop_suffix|apply drop_suffix].
Qed.

Lemma zone_offset_sound rp g s : pending_ok g s -> sound rp (zone_offset rp g s).
Proof.
  intros Hp. unfold zone_offset. pose proof (strp_spaces_suffix rp) as Hs.
  destruct (_ =? chr "Z"); [split; [etrans; [apply drop_suffix|done]|done]|].
  destruct (_ && _); [done|]. pose proof (zone_loop_suffix 4 (drop 1 (strp_spaces rp)) 0 0) as Hz.
  destruct (zone_loop 4 _ 0 0) as [[v n] r]. cbn [snd] in Hz. destruct (_ && _); [done|].
  split; [|done]. etrans; [done|]. etrans; [apply drop_suffix|done].
Qed.

Lemma localtime_wday_yday t g0 e g e' : localtime_r t g0 e = (true, g, e') -> 0 <= tm_yday g <= 365 /\ 0 <= tm_wday g <= 6.
Proof.
  unfold localtime_r. rewrite break_down_eq. destruct (fits t); [|done]. intros H. injection H as <- _.
  unfold broken_down. destruct (date_of t) as [[y m] d] eqn:Hd. apply date_of_spec in Hd as (_ & _ & _ & Hr).
  cbn [tm_yday tm_wday]. destruct (leap y); cbn [Z.b2z] in Hr; zdm.
Qed.

(** Setting other fields keeps [pending_ok]; the tactic unfolds the setters. *)
Ltac pending :=
  unfold pending_ok in *; cbn [have_yday have_wday week_no tm_yday tm_wday set_sec set_min set_hour set_mday set_mon
    set_year set_wday set_yday set_gmtoff set_have_I set_is_pm set_century set_want_century set_want_era set_want_xday
    set_have_wday set_have_yday set_have_mon set_have_mday set_have_uweek set_have_wweek set_week_no set_decided] in *.

Lemma sound_mono rp rp' r : rp' `suffix_of` rp -> sound rp' r -> sound rp r.
Proof. intros Hs. destruct r as [[[[x|] g] s]|]; simpl; [|done|done]. intros [H ?]. split; [by etrans|done]. Qed.

Lemma two_digit_year_sound mod_ rp g s : pending_ok g s -> sound rp (two_digit_year mod_ rp g s).
Proof.
  intros Hp. unfold two_digit_year. apply with_number_sound. intros v rp' Hv Hs. cbv zeta. split; [done|].
  destruct (negb _); exact Hp.
Qed.

Lemma commit_raw_ok mod_ g s s' : pending_ok g s -> commit_raw mod_ s = Some s' -> pending_ok g s'.
Proof. unfold commit_raw. intros Hp. repeat case_match; intros [= <-]; exact Hp. Qed.

(** Close [pending_ok] after a conversion: each part is inherited or bounds the new value. *)
Ltac pend_close Hy Hw Hk := pending; split_and!; first [exact Hy|exact Hw|exact Hk|intros _; zdm|lia].

Lemma names_sound (pass : list Z -> Z -> name_state -> name_state) names rp g s d (k : Z -> pstate -> tm * pstate) :
  (forall rp0 n name cnt st, 0 <= cnt < n -> names_ok rp0 n st -> names_ok rp0 n (pass name cnt st)) ->
  (forall best dec, 0 <= best < len names ->
     pending_ok (fst (k best (set_decided dec s))) (snd (k best (set_decided dec s)))) ->
  sound rp (let '(_, longest, best, dec) := name_loop pass names 0 (rp, None, -1, d) in
    match longest with
    | None => stop g (set_decided dec s)
    | Some rp => continue rp (fst (k best (set_decided dec s))) (snd (k best (set_decided dec s)))
    end).
Proof.
  intros Hpass Hk.
  pose proof (name_loop_ok pass rp (len names) names 0 (rp, None, -1, d)) as H.
  destruct (name_loop pass names 0 _) as [[[rp' longest] best] dec].
  destruct H as [_ H]; [intros; by apply Hpass|lia|lia|split; [done|by intros ? [=]]|].
  destruct longest as [l|]; [|done]. destruct (H l eq_refl) as [Hl Hb]. split; [done|by apply Hk].
Qed.

Lemma parse_conv_sound nested conv mod_ rp g s : pending_ok g s ->
  (is_composite conv = true -> forall sub g s, pending_ok g s -> Forall (fun c => is_composite c = false) sub ->
   sound rp (nested rp sub g s)) ->
  sound rp (parse_conv nested conv mod_ rp g s).
Proof.
  intros Hp Hn. pose proof Hp as (Hy & Hw & Hk). unfold parse_conv, parse_late.
  assert (Hrec : forall sub k, is_composite conv = true -> Forall (fun c => is_composite c = false) sub ->
    (forall rp' g' s', rp' `suffix_of` rp -> pending_ok g' s' -> sound rp (k rp' g' s')) ->
    sound rp (recurse nested rp sub g s k)) by (intros sub k Hc Hs Hk'; apply recurse_sound; auto).
  repeat match goal with |- sound _ (if ?b then _ else _) => destruct b eqn:? end;
    try match goal with
    | |- sound _ (stop _ _) => exact I
    | |- sound _ (with_number _ _ _ _ _ _ (fun val rp => continue _ _ _)) =>
        apply with_number_sound; intros v rp' Hv Hs; split; [exact Hs|pend_close Hy Hw Hk]
    | |- sound _ (recurse _ _ _ _ _ _) =>
        apply Hrec; [unfold is_composite; lia|repeat constructor|intros rp' g' s' Hs Hp'; exact (conj Hs Hp')]
    end.
  - split; [apply drop_suffix|done].
  - apply (names_sound day_pass day_long rp g s _ (fun best s => (set_wday best g, set_have_wday true s)) day_pass_ok).
    intros best dec Hb. change (len day_long) with 7 in Hb. cbn [fst snd]. pend_close Hy Hw Hk.
  - apply (names_sound month_pass month_long rp g s _
      (fun best s => (set_mon best g, set_want_xday true (set_have_mon true s))) month_pass_ok).
    intros best dec Hb. cbn [fst snd]. pend_close Hy Hw Hk.
  - destruct (commit_raw mod_ s) as [s'|] eqn:Ec; [|exact I]. pose proof (commit_raw_ok _ _ _ _ Hp Ec) as Hp'.
    apply with_number_sound. intros v rp' Hv Hs. by split.
  - split; [apply strp_spaces_suffix|done].
  - destruct (match_name rp (str "AM")) as [r|] eqn:E1; [apply match_name_suffix in E1; by split|].
    destruct (match_name rp (str "PM")) as [r|] eqn:E2; [apply match_name_suffix in E2; by split|exact I].
  - pose proof (secs_loop_suffix rp 0) as Hs. destruct (secs_loop rp 0) as [v r]. cbn [snd] in Hs.
    destruct (localtime_r (i64 v) g 0) as [[[] g'] e] eqn:El; [|exact I]. apply localtime_wday_yday in El as [H1 H2].
    split; [done|]. pend_close Hy Hw Hk.
  - split; [apply skip_digits_suffix|done].
  - apply with_number_sound. intros v rp' Hv Hs. cbv zeta. destruct (_ =? DECIDED_ALT); [exact I|].
    eapply sound_mono; [exact Hs|]. apply two_digit_year_sound. exact Hp.
  - by apply two_digit_year_sound.
  - destruct (commit_raw mod_ s) as [s'|] eqn:Ec; [|exact I]. pose proof (commit_raw_ok _ _ _ _ Hp Ec) as Hp'.
    apply with_number_sound. intros v rp' Hv Hs. by split.
  - split; [etrans; [apply skip_word_suffix|apply strp_spaces_suffix]|done].
  - by apply zone_offset_sound.
Qed.

Lemma alternative_ok mod_ conv g s s' : pending_ok g s -> alternative mod_ conv s = Some s' -> pending_ok g s'.
Proof. unfold alternative. intros Hp. repeat case_match; intros [= <-]; exact Hp. Qed.

Lemma suffix_in {P : Z -> Prop} l l' : l' `suffix_of` l -> Forall P l -> Forall P l'.
Proof. intros [k ->] H. by apply Forall_app in H as [_ ?]. Qed.

Lemma peek_in {P : Z -> Prop} l : peek l <> 0 -> Forall P l -> P (peek l).
Proof. destruct l as [|c l]; [done|]. intros _ H. by inversion H. Qed.

Lemma suffix_length_le {A} (l l' : list A) : l' `suffix_of` l -> (length l' <= length l)%nat.
Proof. apply suffix_length. Qed.

(** A formatter that is sound on the formats without composites. *)
Definition simple_sound (nested : parser) : Prop :=
  forall rp sub g s, pending_ok g s -> Forall (fun c => is_composite c = false) sub -> sound rp (nested rp sub g s).

Lemma core_loop_sound fuel : forall nested rp fmt g s, (length fmt < fuel)%nat -> pending_ok g s ->
  (Forall (fun c => is_composite c = false) fmt \/ simple_sound nested) ->
  sound rp (core_loop fuel nested rp fmt g s).
Proof.
  induction fuel as [|n IH]; intros nested rp fmt g s Hl Hp Hc; [lia|]. cbn [core_loop].
  destruct (peek fmt =? 0) eqn:E0; [by split|]. destruct fmt as [|c f]; [done|]. cbn [length] in Hl.
  assert (Hgo : forall rp' f' g' s', f' `suffix_of` f -> rp' `suffix_of` rp -> pending_ok g' s' ->
    sound rp (core_loop n nested rp' f' g' s')).
  { intros rp' f' g' s' Hf Hr Hp'. apply (sound_mono _ rp'); [done|].
    apply IH; [apply suffix_length_le in Hf; lia|done|].
    destruct Hc as [Hc|Hc]; [left|by right]. apply (suffix_in (c :: f)); [by apply suffix_cons_r|done]. }
  cbn [peek] in *. rewrite skipn_cons, drop_0.
  destruct (is_space c); [apply Hgo; [done|apply strp_spaces_suffix|done]|].
  destruct (negb (c =? chr "%")).
  { destruct (negb _); [exact I|]. apply Hgo; [done|apply drop_suffix|done]. }
  cbv zeta. set (f0 := skip_digits (skip_flags f)).
  assert (Hf0 : f0 `suffix_of` f) by (etrans; [apply skip_digits_suffix|apply skip_flags_suffix]).
  set (md := (peek f0 =? chr "E") || (peek f0 =? chr "O")).
  set (conv := if md then peek (drop 1 f0) else peek f0). set (f1 := if md then drop 1 (drop 1 f0) else drop 1 f0).
  assert (Hf1 : f1 `suffix_of` f).
  { unfold f1. destruct md; [etrans; [apply drop_suffix|]|]; (etrans; [apply drop_suffix|done]). }
  destruct (_ && _); [exact I|].
  destruct (alternative _ conv s) as [s'|] eqn:Ea; [|exact I]. pose proof (alternative_ok _ _ g _ _ Hp Ea) as Hp'.
  assert (Hconv : sound rp (parse_conv nested conv (if md then peek f0 else 0) rp g s')).
  { apply parse_conv_sound; [done|]. intros Hcc sub g1 s1 Hp1 Hsub. destruct Hc as [Hc|Hc]; [|by apply Hc].
    assert (Hff : Forall (fun c => is_composite c = false) f) by (by inversion Hc).
    pose proof (suffix_in (P := fun c => is_composite c = false) f f0 Hf0 Hff) as H0.
    pose proof (suffix_in (P := fun c => is_composite c = false) f0 (drop 1 f0) (drop_suffix 1 f0) H0) as H1.
    assert (conv <> 0) by (intros E; rewrite E in Hcc; discriminate).
    assert (is_composite conv = false); [|congruence].
    unfold conv in *. destruct md; by apply (peek_in (P := fun c => is_composite c = false)). }
  destruct (parse_conv nested conv _ rp g s') as [[[[rp1|] g1] s1]|]; [|exact I|exact Hconv].
  destruct Hconv as [Hr1 Hp1]. by apply Hgo.
Qed.

Lemma mon_search_stops fuel : forall leap yday t, yday < 2147483647 -> (Z.to_nat (26 - t) < fuel)%nat ->
  is_Some (mon_search fuel leap yday t).
Proof.
  induction fuel as [|n IH]; intros leap yday t Hy Hf; [lia|]. cbn [mon_search].
  destruct (mon_yday_at leap t <=? yday) eqn:E; [|by eexists]. apply IH; [done|].
  assert (t <= 25); [|lia]. destruct (Z.le_gt_cases t 25) as [|Ht]; [done|exfalso].
  unfold mon_yday_at, mon_yday_flat in E. replace (Z.b2z leap * 13 + t <? -1) with false in E by (destruct leap; simpl; lia).
  replace (25 <? Z.b2z leap * 13 + t) with true in E by (destruct leap; simpl; lia). lia.
Qed.

Lemma yday_to_mon_mday_some g a b : tm_yday g < 2147483647 ->
  exists g', yday_to_mon_mday g a b = Some g' /\ tm_yday g' = tm_yday g /\ tm_wday g' = tm_wday g.
Proof.
  intros Hy. unfold yday_to_mon_mday. destruct (mon_search_stops 32 (is_leap_year (1900 + tm_year g)) (tm_yday g) 0 Hy) as [t Ht]; [lia|].
  rewrite Ht. obind. eexists. split; [done|]. by destruct a, b.
Qed.

Lemma day_of_the_week_range g : 0 <= tm_wday (day_of_the_week g) <= 6.
Proof. unfold day_of_the_week. cbv zeta. cbn [tm_wday set_wday]. match goal with |- context [Z.rem (Z.rem ?w 7 + 7) 7] => generalize w end.
  intros w. zdm. Qed.

Lemma day_of_the_week_yday g : tm_yday (day_of_the_week g) = tm_yday g.
Proof. reflexivity. Qed.

#[local] Opaque day_of_the_week.

Lemma finish_wday_some g s : pending_ok g s ->
  exists g' s', finish_wday g s = Some (g', s') /\ pending_ok g' s' /\ have_yday s' = have_yday s /\ have_wday s' = have_wday s.
Proof.
  intros Hp. unfold finish_wday. destruct (want_xday s && negb (have_wday s)) eqn:E; [|by exists g, s].
  assert (Hnw : have_wday s = false) by (destruct (have_wday s); [by rewrite andb_false_r in E|done]).
  assert (Hdow : forall g1 s1, pending_ok g1 s1 -> have_wday s1 = false -> pending_ok (day_of_the_week g1) s1)
    by (intros g1 s1 (H1 & H2 & H3) H4; unfold pending_ok; rewrite H4, day_of_the_week_yday; done).
  destruct (negb _ && have_yday s) eqn:E2.
  - assert (Hy : have_yday s = true) by (destruct (have_yday s); [done|by rewrite andb_false_r in E2]).
    destruct (yday_to_mon_mday_some g (negb (have_mon s)) (negb (have_mday s))) as (g1 & Hg1 & Hyd & Hwd);
      [destruct Hp as (H & _); specialize (H Hy); lia|].
    rewrite Hg1. obind. eexists _, _. split; [reflexivity|].
    assert (Hp1 : pending_ok g1 (set_have_mday true (set_have_mon true s))) by (unfold pending_ok; cbn; by rewrite Hyd, Hwd).
    split; [|done]. destruct (_ || _); [apply Hdow; done|done].
  - obind. eexists _, _. split; [reflexivity|]. split; [|done]. destruct (_ || _); [by apply Hdow|done].
Qed.

Lemma rem7 x : -7 < Z.rem x 7 < 7.
Proof. zdm. Qed.

Lemma restore_date_fields s a b g :
  tm_wday (restore_date s a b g) = tm_wday g /\ tm_yday (restore_date s a b g) = tm_yday g.
Proof. unfold restore_date. by destruct (have_mday s), (have_mon s). Qed.

Lemma week_yday_bound s off w g : 0 <= off <= 1 -> 0 <= week_no s <= 53 ->
  (have_yday s = true -> 0 <= tm_yday g <= 365) -> tm_yday (week_yday s off w g) < 2147483647.
Proof.
  intros Ho Hk Hy. unfold week_yday. destruct (have_yday s); cbn [negb]; [specialize (Hy eq_refl); lia|].
  cbn [tm_yday set_yday]. pose proof (rem7 (7 - (tm_wday g - off))). pose proof (rem7 (w - off + 7)). lia.
Qed.

Lemma finish_weeks_some g s : pending_ok g s -> is_Some (finish_weeks g s).
Proof.
  intros (Hy & Hw & Hk). unfold finish_weeks. destruct (_ && have_wday s); [|eexists; reflexivity].
  assert (Hb : forall off, 0 <= off <= 1 -> tm_yday (week_yday s off (tm_wday g)
    (restore_date s (tm_mday g) (tm_mon g) (day_of_the_week (set_mon 0 (set_mday 1 g))))) < 2147483647).
  { intros off Ho. apply week_yday_bound; [done|done|]. rewrite (proj2 (restore_date_fields _ _ _ _)), day_of_the_week_yday.
    exact Hy. }
  specialize (Hb (if have_uweek s then 0 else 1) ltac:(destruct (have_uweek s); lia)).
  destruct (negb (have_mday s) || _); [|eexists; reflexivity].
  destruct (yday_to_mon_mday_some _ (negb (have_mon s)) (negb (have_mday s)) Hb) as (g4 & Hg4 & _).
  cbv zeta. rewrite Hg4. eexists. reflexivity.
Qed.

Lemma finish_year_fields g s : tm_yday (finish_year g s) = tm_yday g /\ tm_wday (finish_year g s) = tm_wday g.
Proof. unfold finish_year. cbv zeta. repeat case_match; split; reflexivity. Qed.

Lemma finish_some g s : pending_ok g s -> is_Some (finish g s).
Proof.
  intros Hp. unfold finish. assert (Hp0 : pending_ok (finish_year g s) s).
  { destruct (finish_year_fields g s) as [E1 E2]. unfold pending_ok. rewrite E1, E2. exact Hp. }
  destruct (finish_wday_some _ _ Hp0) as (g1 & s1 & -> & Hp1 & Hys & Hws). obind.
  destruct (finish_weeks_some (if want_xday s1 && negb (have_yday s1) && (have_mon s1 || (u32 (tm_mon g1) <=? 11))
    then day_of_the_year g1 else g1) s1) as [g2 Hg2].
  - destruct (have_yday s1) eqn:E; cbn [negb]; [by rewrite andb_false_r|]. destruct Hp1 as (H1 & H2 & H3).
    destruct (_ && _); [|done]. unfold pending_ok. rewrite E. done.
  - rewrite Hg2. obind. by eexists.
Qed.

(** C37. [strptime] returns for every input, format and initial structure (no
    loop runs forever, and the two levels of nested formats are enough), and a
    result that is not NULL points into the input string. *)
Theorem strptime_total buf fmt g :
  exists r g', strptime buf fmt g = Some (r, g') /\ forall rest, r = Some rest -> rest `suffix_of` buf.
Proof.
  unfold strptime, strptime_core. set (s := mkPstate _ _ _ _ _ _ _ _ _ _ _ _ _ _).
  assert (Hp : pending_ok g s) by (unfold pending_ok; cbn; lia).
  assert (H1 : simple_sound (core_nested 1)) by (intros rp sub g1 s1 Hp1 Hs; apply core_loop_sound; [lia|done|by left]).
  pose proof (core_loop_sound (S (length fmt)) (core_nested 1) buf fmt g s ltac:(lia) Hp (or_intror H1)) as H.
  change (core_nested 2 buf fmt g s) with (core_loop (S (length fmt)) (core_nested 1) buf fmt g s).
  destruct (core_loop _ _ buf fmt g s) as [[[[rp|] g1] s1]|]; [|obind; by eexists _, _|done].
  destruct H as [Hr Hp1]. destruct (finish_some g1 s1 Hp1) as [[g2 s2] ->]. obind.
  eexists _, _. split; [reflexivity|]. by intros rest [= <-].
Qed.
