(* ===== verification/TimeRoundTrip.v ===== *)
(** * Printing a time and reading it back

    [strptime] on the text that [strftime] makes of a broken-down time gives
    the same fields again, the weekday and the day of the year included,
    which [strptime] recomputes with formulas of its own. *)

From S2P Require Import Prelude Mem Digits Calendar Strftime StrftimeSpec Strptime.

(** ** Numbers *)

(** The value of decimal digits read behind [v]. *)
Definition read_digits (v : Z) (ds : list Z) : Z := foldl (fun a c => a * 10 + (c - chr "0")) v ds.

Lemma read_digits_grows ds : forall v, Forall (fun c => is_dig c = true) ds -> 0 <= v -> v <= read_digits v ds.
Proof.
  induction ds as [|d ds IH]; intros v Hd Hv; cbn; [done|]. inversion Hd as [|? ? Hd1 Hd2]; subst.
  unfold is_dig in Hd1. etrans; [|apply (IH (v * 10 + (d - chr "0"))); [done|lia]]. lia.
Qed.

Lemma number_loop_digits ds : forall c v rest to,
  ds <> [] -> Forall (fun c => is_dig c = true) ds -> (length ds <= c)%nat -> is_dig (peek rest) = false -> 0 <= v ->
  read_digits v ds <= to -> number_loop c v (ds ++ rest) to = (read_digits v ds, rest).
Proof.
  induction ds as [|d ds IH]; intros c v rest to Hne Hd Hl Hr Hv Hto; [done|].
  inversion Hd as [|? ? Hd1 Hd2]; subst. assert (Hd1' := Hd1). unfold is_dig in Hd1'.
  destruct c as [|c]; cbn [length] in Hl; [lia|]. cbn [number_loop app peek]. rewrite skipn_cons, drop_0.
  destruct ds as [|d' ds].
  - cbn [app]. rewrite Hr, andb_false_r. done.
  - cbn [app peek]. inversion Hd2 as [|? ? Hd3 Hd4]; subst. rewrite Hd3.
    change (read_digits v (d :: d' :: ds)) with (read_digits (v * 10 + (d - chr "0")) (d' :: ds)) in *.
    assert (Hstep : (v * 10 + (d - chr "0")) * 10 <= to).
    { etrans; [|exact Hto]. etrans; [|apply (read_digits_grows ds); [done|unfold is_dig in Hd3; lia]].
      unfold is_dig in Hd3. lia. }
    cbn [length] in Hl. replace (1 <=? Z.of_nat c) with true by lia. replace (_ <=? to) with true by lia. cbn [andb].
    apply (IH c (v * 10 + (d - chr "0")) rest to); [done|done|cbn [length]; lia|done|lia|done].
Qed.

Lemma digit_not_space c : is_dig c = true -> is_space c = false.
Proof. unfold is_dig, is_space. lia. Qed.

Lemma number_digits ds v from to n rest :
  ds <> [] -> Forall (fun c => is_dig c = true) ds -> (length ds <= n)%nat -> read_digits 0 ds = v ->
  from <= v <= to -> is_dig (peek rest) = false -> number (ds ++ rest) from to n = Some (v, rest).
Proof.
  intros Hne Hd Hl Hv Hr Hrest. unfold number. destruct ds as [|d ds]; [done|].
  assert (Hd1 : is_dig d = true) by (by inversion Hd).
  cbn [app strp_spaces]. rewrite digit_not_space by done. cbn [peek]. rewrite Hd1. cbn [negb].
  change (d :: ds ++ rest) with ((d :: ds) ++ rest). rewrite number_loop_digits by (done || lia). rewrite Hv. by bool_if.
Qed.

Lemma read_digits_value ds : read_digits 0 ds = value 10 (map (fun c => c - chr "0") ds).
Proof.
  unfold read_digits, value. generalize 0. induction ds as [|d ds IH]; intros v; [done|]. cbn. apply IH.
Qed.

Lemma read_zeros k ds : read_digits 0 (replicate k (chr "0") ++ ds) = read_digits 0 ds.
Proof. induction k as [|k IH]; [done|]. exact IH. Qed.

Lemma num_nonneg v k : 0 <= v -> num v k = replicate (Z.to_nat (k - len (decimal v))) (chr "0") ++ decimal v.
Proof.
  intros Hv. unfold num, number_text. replace (v <? 0) with false by lia. rewrite Z.abs_eq by lia. reflexivity.
Qed.

(** The number texts of strftime are digit strings of their value. *)
Lemma num_digits v k : 0 <= v < 2 ^ 64 ->
  num v k <> [] /\ Forall (fun c => is_dig c = true) (num v k) /\ read_digits 0 (num v k) = v.
Proof.
  intros Hv. rewrite num_nonneg by lia. set (n := Z.to_nat _).
  assert (Hz : Forall (fun c => is_dig c = true) (decimal v)).
  { eapply Forall_impl; [apply decimal_digits|]. intros c Hc. cbn beta in Hc. unfold is_dig. lia. }
  split; [|split].
  - intros E. apply app_eq_nil in E as [_ E]. pose proof (decimal_length v 64 ltac:(lia)) as Hl.
    rewrite E in Hl. cbn [length] in Hl. specialize (Hl (pow_fuel 10 v ltac:(lia) Hv)). lia.
  - apply Forall_app. split; [|done]. apply Forall_forall. intros c [-> _]%elem_of_replicate. done.
  - rewrite read_zeros, read_digits_value. by apply decimal_value.
Qed.

Lemma num_length v k (n : nat) : 0 <= v < 10 ^ Z.of_nat n -> (1 <= n)%nat -> k <= Z.of_nat n -> (length (num v k) <= n)%nat.
Proof.
  intros Hv Hn Hk. rewrite num_nonneg by lia.
  pose proof (decimal_length v n Hn Hv). rewrite length_app, length_replicate. lia.
Qed.

Lemma number_num v k from to n rest : 0 <= v < 10 ^ Z.of_nat n -> (1 <= n <= 9)%nat -> k <= Z.of_nat n ->
  from <= v <= to -> is_dig (peek rest) = false -> number (num v k ++ rest) from to n = Some (v, rest).
Proof.
  intros Hv Hn Hk Hr Hp. assert (H64 : 0 <= v < 2 ^ 64).
  { split; [lia|]. apply (Z.lt_le_trans _ (10 ^ Z.of_nat n)); [lia|].
    etrans; [apply (Z.pow_le_mono_r 10 (Z.of_nat n) 9); lia|]. lia. }
  destruct (num_digits v k H64) as (H1 & H2 & H3). apply number_digits; try done. apply num_length; (done || lia).
Qed.

(** ** The recomputed weekday and day of the year *)

Lemma is_leap_year_spec y : is_leap_year y = leap y.
Proof. apply leap_year_spec. Qed.

(** Evaluate a lookup in the cumulative table. *)
Ltac table_entry :=
  match goal with
  | |- context [mon_yday_at ?b ?k] => let v := eval vm_compute in (mon_yday_at b k) in change (mon_yday_at b k) with v
  | |- context [mon_yday_flat ?k] => let v := eval vm_compute in (mon_yday_flat k) in change (mon_yday_flat k) with v
  end.

(** [day_of_the_year] from month and day is the day count from January 1. *)
Lemma day_of_the_year_spec g y m d : valid_date (y, m, d) -> tm_year g = y - 1900 -> tm_mon g = m - 1 -> tm_mday g = d ->
  day_of_the_year g = set_yday (days_from_civil y m d - days_from_civil y 1 1) g.
Proof.
  intros [Hm Hd] Hy Hmo Hmd. unfold day_of_the_year. rewrite Hy, Hmo, Hmd, is_leap_year_spec.
  replace (1900 + (y - 1900)) with y by lia. f_equal. rewrite !days_from_civil_march by lia. unfold march1.
  unfold month_length in Hd. mcases m Hm; destruct (leap y) eqn:El; unfold leap in El; table_entry; cbn in *; zdm.
Qed.

Lemma wrap_mul_small a b : is_i32 (a * b) -> wrap_mul a b = a * b.
Proof.
  intros H. unfold wrap_mul, u32. rewrite <- Zmult_mod.
  unfold is_i32, i32, swrap in *. zdm.
Qed.

Lemma mon_yday_flat_range k : 0 <= k <= 11 -> 0 <= mon_yday_flat k <= 334.
Proof. intros H. mcases k H; table_entry; lia. Qed.

(** The sum of [day_of_the_week] without the wrap-around. *)
Definition weekday_sum (y m d : Z) : Z :=
  let q := (y - Z.b2z (m <=? 2)) ÷ 4 in
  -473 + 365 * (y - 1970) + q - q ÷ 25 + Z.b2z (Z.rem q 25 <? 0) + (q ÷ 25) ÷ 4 + mon_yday_flat (m - 1) + (d - 1).

Lemma day_of_the_week_sum g y m d : 1 <= m <= 12 -> 1 <= d <= 31 -> 0 <= y <= 9999 ->
  tm_year g = y - 1900 -> tm_mon g = m - 1 -> tm_mday g = d ->
  day_of_the_week g = set_wday (Z.rem (Z.rem (weekday_sum y m d) 7 + 7) 7) g.
Proof.
  intros Hm Hd Hr Hy Hmo Hmd. unfold day_of_the_week, weekday_sum. rewrite Hy, Hmo, Hmd. cbv zeta.
  pose proof (mon_yday_flat_range (m - 1) ltac:(lia)) as Ht. set (tab := mon_yday_flat (m - 1)) in *. clearbody tab.
  replace (m - 1 <? 2) with (m <=? 2) by lia. rewrite (wrap_small 1900) by (unfold is_i32; lia).
  rewrite (wrap_sub_small (1900 + (y - 1900))) by (unfold is_i32; destruct (m <=? 2); cbn; lia).
  replace (1900 + (y - 1900) - Z.b2z (m <=? 2)) with (y - Z.b2z (m <=? 2)) by lia.
  set (q := (y - Z.b2z (m <=? 2)) ÷ 4). assert (Hq : 0 <= q <= 2500) by (unfold q; destruct (m <=? 2); cbn [Z.b2z]; zdm).
  clearbody q. set (q25 := q ÷ 25). assert (Hq25 : 0 <= q25 <= 100) by (unfold q25; zdm).
  set (q100 := q25 ÷ 4). assert (Hq100 : 0 <= q100 <= 25) by (unfold q100; zdm).
  set (neg := Z.b2z (Z.rem q 25 <? 0)). assert (Hneg : 0 <= neg <= 1) by (unfold neg; destruct (_ <? 0); cbn; lia).
  clearbody q25 q100 neg.
  rewrite (wrap_sub_small (y - 1900)) by (unfold is_i32; lia). rewrite (wrap_sub_small d) by (unfold is_i32; lia).
  rewrite wrap_mul_small by (unfold is_i32; lia). replace (y - 1900 - 70) with (y - 1970) by lia.
  rewrite (wrap_small (-473)) by (unfold is_i32; lia).
  rewrite (wrap_small (-473 + _)) by (unfold is_i32; lia). rewrite wrap_sub_small by (unfold is_i32; lia).
  rewrite (wrap_small (-473 + _ + q - q25)) by (unfold is_i32; lia).
  rewrite (wrap_small (-473 + _ + q - q25 + neg)) by (unfold is_i32; lia).
  rewrite (wrap_small (-473 + _ + q - q25 + neg + q100)) by (unfold is_i32; lia).
  rewrite wrap_small by (unfold is_i32; lia). reflexivity.
Qed.

(** [day_of_the_week] is the calendar's weekday for the years 1 to 9999. *)
Lemma day_of_the_week_spec g y m d : valid_date (y, m, d) -> 1 <= y <= 9999 ->
  tm_year g = y - 1900 -> tm_mon g = m - 1 -> tm_mday g = d ->
  day_of_the_week g = set_wday ((days_from_civil y m d + 4) mod 7) g.
Proof.
  intros [Hm Hd] Hr Hy Hmo Hmd.
  assert (Hd31 : 1 <= d <= 31) by (unfold month_length in Hd; destruct (leap y); cbn in Hd; repeat case_match; lia).
  rewrite (day_of_the_week_sum g y m d) by (done || lia). f_equal. clear Hd.
  rewrite days_from_civil_march by lia. unfold weekday_sum, march1. cbv zeta.
  set (c := y - Z.b2z (m <=? 2)). assert (Hc : 0 <= c) by (unfold c; destruct (m <=? 2); cbn; lia).
  rewrite (Z.quot_div_nonneg c 4) by lia. pose proof (Z.div_pos c 4 Hc ltac:(lia)).
  rewrite (Z.quot_div_nonneg (c / 4) 25), (Z.rem_mod_nonneg (c / 4) 25) by lia.
  replace (c / 4 mod 25 <? 0) with false by (pose proof (Z.mod_pos_bound (c / 4) 25 ltac:(lia)); lia).
  pose proof (Z.div_pos (c / 4) 25 ltac:(lia) ltac:(lia)). rewrite (Z.quot_div_nonneg (c / 4 / 25) 4) by lia.
  rewrite !Z.div_div by lia. change (4 * 25) with 100. change (100 * 4) with 400.
  generalize (c / 4) (c / 100) (c / 400). intros c4 c100 c400. cbn [Z.b2z]. unfold c.
  assert (Hrem : forall w, Z.rem (Z.rem w 7 + 7) 7 = w mod 7) by (intros w; zdm). rewrite Hrem.
  clear -Hm. mcases m Hm; table_entry; cbn; zdm.
Qed.

(** ** Evaluating strptime on a literal format *)

Lemma core_conv fuel nested rp c f g s : letter c = true ->
  core_loop (S fuel) nested rp (chr "%" :: c :: f) g s =
  match parse_conv nested c 0 rp g s with
  | Some (Some rp, g, s) => core_loop fuel nested rp f g s
  | r => r
  end.
Proof.
  intros Hl. unfold letter in Hl. rewrite !negb_orb in Hl. cbn [core_loop peek]. rewrite skipn_cons, drop_0.
  change (is_space (chr "%")) with false. change (chr "%" =? 0) with false. change (negb (chr "%" =? chr "%")) with false. cbn iota.
  assert (Hf : skip_digits (skip_flags (c :: f)) = c :: f).
  { cbn [skip_flags]. replace (_ || _ || _ || _ || _) with false by lia. cbn [skip_digits]. by replace (is_dig c) with false by lia. }
  rewrite Hf. cbn [peek]. rewrite skipn_cons, drop_0. cbv zeta.
  replace ((c =? chr "E") || (c =? chr "O")) with false by lia. reflexivity.
Qed.

Lemma core_char fuel nested rp c f g s : is_space c = false -> c =? 0 = false -> c =? chr "%" = false ->
  core_loop (S fuel) nested (c :: rp) (c :: f) g s = core_loop fuel nested rp f g s.
Proof.
  intros Hs H0 Hp. cbn [core_loop peek]. rewrite H0, Hs, Hp. cbn [negb]. rewrite Z.eqb_refl. cbn [negb].
  by rewrite !skipn_cons, !drop_0.
Qed.

Lemma core_blank fuel nested rp c f g s : is_space c = true -> c =? 0 = false ->
  core_loop (S fuel) nested rp (c :: f) g s = core_loop fuel nested (strp_spaces rp) f g s.
Proof. intros Hs H0. cbn [core_loop peek]. rewrite H0, Hs. by rewrite skipn_cons, drop_0. Qed.

(** The numeric conversions on the number texts of strftime. *)
Section Conversions.
Variables (nested : parser) (rest : list Z) (g : tm) (s : pstate).
Hypothesis Hrest : is_dig (peek rest) = false.

Lemma parse_Y v : 0 <= v <= 9999 -> parse_conv nested (chr "Y") 0 (num v 1 ++ rest) g s =
  continue rest (set_year (v - 1900) g) (set_want_xday true (set_want_century false s)).
Proof.
  intros Hv. change (parse_conv nested (chr "Y") 0 (num v 1 ++ rest) g s) with
    (with_number (num v 1 ++ rest) 0 9999 4 g s (fun val rp =>
          continue rp (set_year (val - 1900) g) (set_want_xday true (set_want_century false s)))).
  unfold with_number. rewrite number_num by (done || lia || (change (10 ^ Z.of_nat 4) with 10000; lia)). reflexivity.
Qed.

(** Two digits between [from] and [to]. *)
Lemma with_two v from to k : 0 <= v < 100 -> from <= v <= to ->
  with_number (num v 2 ++ rest) from to 2 g s k = k v rest.
Proof.
  intros Hv Hr. unfold with_number. rewrite number_num; [done|change (10 ^ Z.of_nat 2) with 100; lia|lia|lia|done|done].
Qed.

Lemma parse_m v : 1 <= v <= 12 -> parse_conv nested (chr "m") 0 (num v 2 ++ rest) g s =
  continue rest (set_mon (v - 1) g) (set_want_xday true (set_have_mon true s)).
Proof. intros Hv. exact (with_two v 1 12 _ ltac:(lia) Hv). Qed.

Lemma parse_d v : 1 <= v <= 31 -> parse_conv nested (chr "d") 0 (num v 2 ++ rest) g s =
  continue rest (set_mday v g) (set_want_xday true (set_have_mday true s)).
Proof. intros Hv. exact (with_two v 1 31 _ ltac:(lia) Hv). Qed.

Lemma parse_H v : 0 <= v <= 23 -> parse_conv nested (chr "H") 0 (num v 2 ++ rest) g s =
  continue rest (set_hour v g) (set_have_I false s).
Proof. intros Hv. exact (with_two v 0 23 _ ltac:(lia) Hv). Qed.

Lemma parse_M v : 0 <= v <= 59 -> parse_conv nested (chr "M") 0 (num v 2 ++ rest) g s =
  continue rest (set_min v g) s.
Proof. intros Hv. exact (with_two v 0 59 _ ltac:(lia) Hv). Qed.

Lemma parse_S v : 0 <= v <= 61 -> parse_conv nested (chr "S") 0 (num v 2 ++ rest) g s =
  continue rest (set_sec v g) s.
Proof. intros Hv. exact (with_two v 0 61 _ ltac:(lia) Hv). Qed.
End Conversions.

(** Replace a string literal by its bytes. *)
Ltac literal x := let v := eval vm_compute in (str x) in change (str x) with v.
Ltac core_step lem := rewrite core_conv by reflexivity; rewrite lem by (done || lia); cbn [continue].

Lemma nested_F y m d rest g s : 0 <= y <= 9999 -> 1 <= m <= 12 -> 1 <= d <= 31 -> is_dig (peek rest) = false ->
  core_nested 1 (num y 1 ++ chr "-" :: num m 2 ++ chr "-" :: num d 2 ++ rest) (str "%Y-%m-%d") g s =
  continue rest (set_mday d (set_mon (m - 1) (set_year (y - 1900) g)))
    (set_want_xday true (set_have_mday true (set_want_xday true (set_have_mon true
      (set_want_xday true (set_want_century false s)))))).
Proof.
  intros Hy Hm Hd Hr. literal "%Y-%m-%d"%string.
  change (core_nested 1 ?a ?b g s) with (core_loop 9 (core_nested 0) a b g s).
  core_step parse_Y. rewrite core_char by reflexivity. core_step parse_m. rewrite core_char by reflexivity.
  core_step parse_d. reflexivity.
Qed.

Lemma nested_T h m sec rest g s : 0 <= h <= 23 -> 0 <= m <= 59 -> 0 <= sec <= 61 -> is_dig (peek rest) = false ->
  core_nested 1 (num h 2 ++ chr ":" :: num m 2 ++ chr ":" :: num sec 2 ++ rest) (str "%H:%M:%S") g s =
  continue rest (set_sec sec (set_min m (set_hour h g))) (set_have_I false s).
Proof.
  intros Hh Hm Hs Hr. literal "%H:%M:%S"%string.
  change (core_nested 1 ?a ?b g s) with (core_loop 9 (core_nested 0) a b g s).
  core_step parse_H. rewrite core_char by reflexivity. core_step parse_M. rewrite core_char by reflexivity.
  core_step parse_S. reflexivity.
Qed.

Lemma parse_F nested rp g s : parse_conv nested (chr "F") 0 rp g s =
  recurse nested rp (str "%Y-%m-%d") g s (fun rp g s => continue rp g (set_want_xday true s)).
Proof. reflexivity. Qed.

Lemma parse_T nested rp g s : parse_conv nested (chr "T") 0 rp g s = recurse nested rp (str "%H:%M:%S") g s continue.
Proof. reflexivity. Qed.

(** A date without weekday, week number or century: both are computed. *)
Lemma finish_date g s : have_I s = false -> century s = -1 -> want_era s = false -> want_xday s = true ->
  have_wday s = false -> have_mon s = true -> have_mday s = true -> have_yday s = false ->
  have_uweek s = false -> have_wweek s = false -> finish g s = Some (day_of_the_year (day_of_the_week g), s).
Proof.
  intros H1 H2 H3 H4 H5 H6 H7 H8 H9 H10. unfold finish.
  assert (E1 : finish_year g s = g) by (unfold finish_year; by rewrite H1, H2, H3).
  assert (E2 : finish_wday g s = Some (day_of_the_week g, s))
    by (unfold finish_wday; rewrite H4, H5, H6, H7, H8; cbn [andb negb]; obind; by rewrite H6).
  rewrite E1, E2. obind. unfold finish_weeks. rewrite H4, H6, H8, H9, H10. reflexivity.
Qed.

#[local] Opaque day_of_the_week day_of_the_year parse_conv.

Definition fresh_state : pstate :=
  mkPstate false false (-1) false false false false false false false false false 0 DECIDED_NOT.

(** "%F %T" on a date and a time of day. *)
Lemma strptime_FT y m d h mi sec g : 0 <= y <= 9999 -> 1 <= m <= 12 -> 1 <= d <= 31 ->
  0 <= h <= 23 -> 0 <= mi <= 59 -> 0 <= sec <= 61 ->
  strptime ((num y 1 ++ chr "-" :: num m 2 ++ chr "-" :: num d 2) ++ chr " " ::
            (num h 2 ++ chr ":" :: num mi 2 ++ chr ":" :: num sec 2)) (str "%F %T") g =
  Some (Some [], day_of_the_year (day_of_the_week
    (set_sec sec (set_min mi (set_hour h (set_mday d (set_mon (m - 1) (set_year (y - 1900) g)))))))).
Proof.
  intros Hy Hm Hd Hh Hmi Hs. unfold strptime, strptime_core. fold fresh_state.
  assert (Hcore : exists s, core_nested 2 ((num y 1 ++ chr "-" :: num m 2 ++ chr "-" :: num d 2) ++ chr " " ::
            (num h 2 ++ chr ":" :: num mi 2 ++ chr ":" :: num sec 2)) (str "%F %T") g fresh_state =
      continue [] (set_sec sec (set_min mi (set_hour h (set_mday d (set_mon (m - 1) (set_year (y - 1900) g)))))) s /\
      forall g, finish g s = Some (day_of_the_year (day_of_the_week g), s)).
  { eexists. split. { literal "%F %T"%string.
    change (core_nested 2 ?a ?b g fresh_state) with (core_loop 6 (core_nested 1) a b g fresh_state).
    rewrite core_conv by reflexivity.
    rewrite parse_F.
    unfold recurse. rewrite <- app_assoc. cbn [app]. rewrite <- app_assoc. cbn [app].
    rewrite nested_F by done. cbn [continue].
    rewrite core_blank by reflexivity.
    assert (Hsp : strp_spaces (chr " " :: num h 2 ++ chr ":" :: num mi 2 ++ chr ":" :: num sec 2) =
                  num h 2 ++ chr ":" :: num mi 2 ++ chr ":" :: num sec 2 ++ []).
    { rewrite app_nil_r. cbn [strp_spaces]. change (is_space (chr " ")) with true. cbn iota.
      destruct (num_digits h 2 ltac:(lia)) as (Hne & Hdig & _). destruct (num h 2) as [|c l]; [done|].
      cbn [app strp_spaces]. rewrite digit_not_space; [done|by inversion Hdig]. }
    rewrite Hsp. rewrite core_conv by reflexivity.
    rewrite parse_T.
    unfold recurse. rewrite nested_T by done. reflexivity. }
    intros g'. apply finish_date; reflexivity. }
  destruct Hcore as (s & -> & Hf). cbn [continue]. rewrite Hf. reflexivity.
Qed.

(** ** The round trip *)

(** The calendar fields of [b] with the zone fields of [g]. *)
Definition with_zone_of (b g : tm) : tm :=
  mkTm (tm_sec b) (tm_min b) (tm_hour b) (tm_mday b) (tm_mon b) (tm_year b) (tm_wday b) (tm_yday b)
    (tm_isdst g) (tm_gmtoff g) (tm_zone g).

(** The fields of a time in the years 1 to 9999. *)
Lemma broken_down_fields t : 1 <= year_of t <= 9999 ->
  exists y m d, valid_date (y, m, d) /\ 1 <= y <= 9999 /\ d <= 31 /\ days_from_civil y m d = t / 86400 /\
    broken_down t GMT = mkTm (t mod 60) (t / 60 mod 60) (t / 3600 mod 24) d (m - 1) (y - 1900)
      ((t / 86400 + 4) mod 7) (t / 86400 - days_from_civil y 1 1) 0 0 GMT /\ printable (broken_down t GMT).
Proof.
  intros Hy. unfold broken_down. destruct (date_of t) as [[y m] d] eqn:Hd. apply date_of_spec in Hd as (Hv & Hn & E & Hr).
  rewrite <- E in Hy. exists y, m, d. split; [done|]. split; [done|].
  assert (d <= 31) by (destruct Hv as [_ Hv]; unfold month_length in Hv; destruct (leap y); cbn in Hv; repeat case_match; lia).
  split; [done|]. split; [done|]. split; [done|]. destruct Hv as [Hm Hv]. destruct (leap y); cbn [Z.b2z] in Hr;
    unfold printable, typed, is_i32, is_i64; cbn [tm_sec tm_min tm_hour tm_mday tm_mon tm_year tm_wday tm_yday tm_gmtoff];
    split_and!; zdm.
Qed.

Lemma composite_plain c s g : conv_text c plain g = composite_text s plain false -> (length s < 64)%nat ->
  conv_text c plain g = Text s.
Proof. intros -> Hl. unfold composite_text. bool_if. by rewrite text_plain. Qed.

Lemma text_FT g : (length (text_F g) < 64)%nat -> (length (text_HMS g) < 64)%nat ->
  strftime_text (str "%F %T") g = Text (text_F g ++ chr " " :: text_HMS g).
Proof.
  intros H1 H2. unfold strftime_text. literal "%F %T"%string.
  change (S (length [37; 70; 32; 37; 84])) with 6%nat.
  rewrite (ft_conv _ _ _ _ (text_F g)) by (reflexivity || by apply composite_plain).
  rewrite ft_char by reflexivity. rewrite (ft_conv _ _ _ _ (text_HMS g)) by (reflexivity || by apply composite_plain).
  change (format_text _ [] g) with (Text []). cbn [seq_text]. by rewrite app_nil_r.
Qed.

Lemma set_fields b g y m d : tm_mday b = d -> tm_mon b = m - 1 -> tm_year b = y - 1900 ->
  set_yday (tm_yday b) (set_wday (tm_wday b) (set_sec (tm_sec b) (set_min (tm_min b) (set_hour (tm_hour b)
    (set_mday d (set_mon (m - 1) (set_year (y - 1900) g))))))) = with_zone_of b g.
Proof. intros <- <- <-. reflexivity. Qed.

Lemma strptime_text_FT t g : 1 <= year_of t <= 9999 ->
  strptime (text_F (broken_down t GMT) ++ chr " " :: text_HMS (broken_down t GMT)) (str "%F %T") g =
  Some (Some [], with_zone_of (broken_down t GMT) g).
Proof.
  intros Hy. destruct (broken_down_fields t Hy) as (y & m & d & Hv & Hyr & Hd31 & Hn & Hb & Ht).
  pose proof Hv as [Hm Hd]. unfold text_F, text_HMS, cal_year. rewrite Hb.
  cbn [tm_sec tm_min tm_hour tm_mday tm_mon tm_year tm_wday tm_yday].
  rewrite wrap_small by (unfold is_i32; lia). replace (y - 1900 + 1900) with y by lia. replace (m - 1 + 1) with m by lia.
  etrans; [apply (strptime_FT y m d (t / 3600 mod 24) (t / 60 mod 60) (t mod 60)); (lia || zdm)|]. do 2 f_equal.
  rewrite (day_of_the_week_spec _ y m d) by (done || reflexivity). rewrite (day_of_the_year_spec _ y m d) by (done || reflexivity).
  rewrite Hn. exact (set_fields (mkTm (t mod 60) (t / 60 mod 60) (t / 3600 mod 24) d (m - 1) (y - 1900)
      ((t / 86400 + 4) mod 7) (t / 86400 - days_from_civil y 1 1) 0 0 GMT) g y m d eq_refl eq_refl eq_refl).
Qed.

Lemma num_bound v k : 0 <= v < 10000 -> k <= 2 -> (length (num v k) <= 4)%nat.
Proof. intros Hv Hk. apply num_length; [change (10 ^ Z.of_nat 4) with 10000; lia|lia|lia]. Qed.

(** C36. Printing and reading back: for every time in the years 1 to 9999 and every
    buffer of at least 32 bytes, [strftime] with ["%F %T"] prints it and
    [strptime] with the same format consumes the whole text and restores the
    second, minute, hour, day, month, year, weekday and day of the year,
    keeping the zone fields the structure had before. *)
Theorem strptime_strftime_roundtrip t g buf :
  1 <= year_of t <= 9999 -> 32 <= len buf < 2 ^ 64 ->
  exists n buf', strftime buf (len buf) (str "%F %T") (broken_down t GMT) = Some (n, buf') /\
    strptime (take (Z.to_nat n) buf') (str "%F %T") g = Some (Some [], with_zone_of (broken_down t GMT) g).
Proof.
  intros Hy Hl. destruct (broken_down_fields t Hy) as (y & m & d & [Hm Hd] & Hyr & Hd31 & Hn & Hb & Ht).
  assert (HF : (length (text_F (broken_down t GMT)) <= 14 /\ length (text_HMS (broken_down t GMT)) <= 14)%nat).
  { rewrite Hb. unfold text_F, text_HMS, cal_year. cbn [tm_sec tm_min tm_hour tm_mday tm_mon tm_year].
    rewrite wrap_small by (unfold is_i32; lia). rewrite !length_app.
    pose proof (num_bound (y - 1900 + 1900) 1 ltac:(lia) ltac:(lia)). pose proof (num_bound (m - 1 + 1) 2 ltac:(lia) ltac:(lia)).
    pose proof (num_bound d 2 ltac:(lia) ltac:(lia)). pose proof (num_bound (t mod 60) 2 ltac:(zdm) ltac:(lia)).
    pose proof (num_bound (t / 60 mod 60) 2 ltac:(zdm) ltac:(lia)). pose proof (num_bound (t / 3600 mod 24) 2 ltac:(zdm) ltac:(lia)).
    cbn [length str]. lia. }
  pose proof (text_FT (broken_down t GMT) ltac:(lia) ltac:(lia)) as Htext.
  set (text := text_F (broken_down t GMT) ++ chr " " :: text_HMS (broken_down t GMT)) in *.
  assert (Hlen : len text < 32) by (unfold text; rewrite length_app; cbn [length]; lia).
  exists (len text), (text ++ 0 :: drop (S (length text)) buf). split.
  - apply (proj1 (strftime_cases buf (len buf) (str "%F %T") (broken_down t GMT) Ht ltac:(lia) ltac:(lia))); [done|lia].
  - rewrite Nat2Z.id, take_app_length. by apply strptime_text_FT.
Qed.
Lemma strptime_strftime_roundtrip_witness :
  exists n buf', strftime (replicate 40 7) 40 (str "%F %T") (broken_down 1700000000 GMT) = Some (n, buf') /\
    strptime (take (Z.to_nat n) buf') (str "%F %T") (broken_down 0 UTC)
    = Some (Some [], with_zone_of (broken_down 1700000000 GMT) (broken_down 0 UTC)).
Proof.
  apply (strptime_strftime_roundtrip 1700000000 (broken_down 0 UTC) (replicate 40 7)); vm_compute; intuition discriminate.
Defined.

(** In January and February of year 0 the closed formula of [day_of_the_week]
    truncates towards zero where the calendar needs a floor: the weekday is one
    day late compared with the calendar of [gmtime_r]. *)
Theorem strptime_year0_weekday :
  (exists g, strptime (str "0000-01-15") (str "%F") (broken_down 0 UTC) = Some (Some [], g) /\
             tm_wday g = (days_from_civil 0 1 15 + 4 + 1) mod 7).
Proof. eexists. split; vm_compute; reflexivity. Qed.
