(* ===== verification/FpFmt.v ===== *)
(** * Exact decimal expansion of a double (lib/moqi_libc/src/fpfmt.h)

    [fp_exact] turns [m * 2^e2] into its decimal digits with 32-bit limbs, and
    [fp_round_digits] rounds the digits half to even.  The used part of a C
    array is a list; [push] and the index functions fail ([None]) where the C
    code would leave the array.  Loops over a limb array are recursions over
    its used part, in the order of the C loop. *)

From S2P Require Import Prelude Mem Digits.

Definition FP_MAXDIG : Z := 800.
Definition FP_LIMBS : Z := 36.

(** The used digits (their number is [n] of the source) and the exponent of the first. *)
Record fp_dec := mkDec { fd_d : list Z; fd_x : Z }.

(** ** fp_exact, e2 >= 0 *)

(** [while (nw > 0 && w[nw - 1] == 0) nw--], on any array used from the front. *)
Fixpoint trim (l : list Z) : list Z :=
  match l with
  | [] => []
  | x :: r => match trim r with
              | [] => if x =? 0 then [] else [x]
              | r' => x :: r'
              end
  end.

(** One pass of long division by 10^9, from the last limb down; quotient and remainder. *)
Fixpoint div_pass (w : list Z) : list Z * Z :=
  match w with
  | [] => ([], 0)
  | x :: r =>
      let '(r', rem) := div_pass r in
      let cur := Z.lor (Z.shiftl rem 32) x in
      (u32 (cur / 1000000000) :: r', cur mod 1000000000)
  end.

(** The chunks, least significant first; the array [chunk] has 40 entries. *)
Fixpoint chunk_loop (fuel : nat) (w : list Z) (chunk : list Z) : option (list Z) :=
  match fuel with
  | O => None
  | S f =>
      match w with
      | [] => Some chunk
      | _ => let '(w, rem) := div_pass w in
             chunk ← push 40 chunk (u32 rem);
             chunk_loop f (trim w) chunk
      end
  end.

(** Nine digits of a chunk, most significant first. *)
Fixpoint chunk_digits (n : nat) (v : Z) (buf : list Z) : list Z :=
  match n with
  | O => buf
  | S n => chunk_digits n (v / 10) (v mod 10 :: buf)
  end.

(** [while (start < 8 && buf[start] == 0) start++] *)
Fixpoint skip_zeros (n : nat) (buf : list Z) : list Z :=
  match n, buf with
  | S n, 0 :: buf' => skip_zeros n buf'
  | _, _ => buf
  end.

Fixpoint push_all (cap : Z) (l : list Z) (xs : list Z) : option (list Z) :=
  match xs with
  | [] => Some l
  | x :: xs' => l ← push cap l x; push_all cap l xs'
  end.

(** From the most significant chunk down; [top] marks the first one. *)
Fixpoint chunk_text (chunks : list Z) (top : bool) (tmp : list Z) : option (list Z) :=
  match chunks with
  | [] => Some tmp
  | v :: chunks' =>
      let buf := chunk_digits 9 v [] in
      tmp ← push_all 360 tmp (if top then skip_zeros 8 buf else buf);
      chunk_text chunks' false tmp
  end.

Definition fp_exact_int (m e2 : Z) : option fp_dec :=
  let w := replicate (Z.to_nat FP_LIMBS) 0 in
  let ls := e2 ÷ 32 in
  let bs := Z.rem e2 32 in
  let lo := u64 (Z.shiftl m bs) in
  let hi := if negb (bs =? 0) then Z.shiftr m (64 - bs) else 0 in
  w ← set_index w ls (u32 lo);
  w ← set_index w (ls + 1) (u32 (Z.shiftr lo 32));
  w ← set_index w (ls + 2) (u32 hi);
  chunk ← chunk_loop 41 (trim (take (Z.to_nat (ls + 3)) w)) [];
  tmp ← chunk_text (rev chunk) true [];
  let x := len tmp - 1 in
  d ← push_all FP_MAXDIG [] (trim tmp);
  Some (mkDec d x).

(** ** fp_exact, e2 < 0 *)

Fixpoint mul10 (fl : list Z) (carry : Z) : list Z :=
  match fl with
  | [] => []
  | x :: r => let t := u64 (x * 10 + carry) in u32 t :: mul10 r (Z.shiftr t 32)
  end.

(** One digit of the fraction: the limbs times ten, the digit above bit [k] taken out. *)
Definition frac_step (fl : list Z) (li sh : Z) : option (list Z * Z) :=
  let fl := mul10 fl 0 in
  a ← at_index fl li;
  b ← at_index fl (li + 1);
  let v := Z.shiftr a sh in
  let v := if negb (sh =? 0) then Z.lor v (u32 (Z.shiftl b (32 - sh))) else v in
  let digit := Z.land v 15 in
  fl ← set_index fl li (Z.land a (if negb (sh =? 0) then Z.shiftl 1 sh - 1 else 0));
  fl ← set_index fl (li + 1) 0;
  Some (fl, digit).

Fixpoint frac_loop (fuel : nat) (fl : list Z) (li sh : Z) (d : list Z) (zeros : Z) : option (list Z * Z) :=
  match fuel with
  | O => None
  | S f =>
      if forallb (fun x => x =? 0) fl then Some (d, zeros) else
      '(fl, digit) ← frac_step fl li sh;
      match d with
      | [] => if digit =? 0 then frac_loop f fl li sh d (zeros + 1)
              else frac_loop f fl li sh [digit] zeros
      | _ => frac_loop f fl li sh (if len d <? FP_MAXDIG then d ++ [digit] else d) zeros
      end
  end.

Definition fp_exact_frac (m e2 : Z) : option fp_dec :=
  let k := - e2 in
  let '(ip, frac) := if 64 <=? k then (0, m) else (Z.shiftr m k, Z.land m (Z.shiftl 1 k - 1)) in
  let had_int := negb (ip =? 0) in
  let t := if had_int then digits_rev 10 ip else [] in
  d ← push_all FP_MAXDIG [] (rev t);
  let nl := k ÷ 32 + 2 in
  if FP_LIMBS <? nl then None else
  let fl := u32 frac :: u32 (Z.shiftr frac 32) :: replicate (Z.to_nat (nl - 2)) 0 in
  '(d, zeros) ← frac_loop (S (Z.to_nat k)) fl (Z.shiftr k 5) (Z.land k 31) d 0;
  Some (mkDec (trim d) (if had_int then len t - 1 else -1 - zeros)).

Definition fp_exact (m e2 : Z) : option fp_dec :=
  if m =? 0 then Some (mkDec [] 0)
  else if 0 <=? e2 then fp_exact_int m e2 else fp_exact_frac m e2.

(** ** fp_round_digits *)

Record fp_round := mkRound { fr_r : list Z; fr_x : Z }.

(** The carry loop over the kept digits, last digit first; [None]: it left the first digit. *)
Fixpoint carry_loop (r : list Z) : option (list Z) :=
  match r with
  | [] => None
  | d :: r' =>
      match carry_loop r' with
      | Some r'' => Some (d :: r'')
      | None => if d =? 9 then None else Some (d + 1 :: map (fun _ => 0) r')
      end
  end.

Definition fp_round_digits (o : fp_dec) (k : Z) : option fp_round :=
  let n := len (fd_d o) in
  if k <? 0 then Some (mkRound [] (fd_x o)) else
  let keep := if k <? n then k else n in
  let r := take (Z.to_nat keep) (fd_d o) in
  if n <=? k then Some (mkRound r (fd_x o)) else
  digit ← at_index (fd_d o) k;
  up ← (if 5 <? digit then Some true
        else if digit =? 5 then
          if k + 1 <? n then Some true
          else if 0 <? k then prev ← at_index (fd_d o) (k - 1); Some (Z.testbit prev 0)
          else Some false
        else Some false);
  if negb up then Some (mkRound r (fd_x o)) else
  match carry_loop r with
  | Some r => Some (mkRound r (fd_x o))
  | None => Some (mkRound (1 :: map (fun _ => 0) r) (fd_x o + 1))
  end.
