(* ===== verification/FpFmtSpec.v ===== *)
(** * The decimal expansion is exact

    The limb arithmetic of [fp_exact] against the number it expands: long
    division by 10^9 for the integer part, multiplication by ten for the
    fraction. *)

From S2P Require Import Prelude Mem Digits FpFmt.

#[local] Open Scope Z_scope.

Definition B32 : Z := 2 ^ 32.
Abbreviation limbs := (Forall (fun x => 0 <= x < B32)).
Abbreviation digits10 := (Forall (fun x => 0 <= x < 10)).

(** ** Arrays *)

Lemma set_index_app {A} (a b : list A) x y : set_index (a ++ x :: b) (Z.of_nat (length a)) y = Some (a ++ y :: b).
Proof.
  unfold set_index. rewrite length_app. cbn [length]. replace (_ || _) with false by lia.
  rewrite Nat2Z.id, insert_app_r_alt, Nat.sub_diag by lia. reflexivity.
Qed.

Lemma at_index_app {A} (a b : list A) x : at_index (a ++ x :: b) (Z.of_nat (length a)) = Some x.
Proof. unfold at_index. replace (_ <? 0) with false by lia. rewrite Nat2Z.id. by rewrite list_lookup_middle. Qed.

Lemma push_all_ok cap xs : forall l, len l + len xs <= cap -> push_all cap l xs = Some (l ++ xs).
Proof.
  induction xs as [|x xs IH]; intros l Hl; cbn [push_all length] in *; [by rewrite app_nil_r|].
  unfold push. replace (_ <? cap) with true by lia. obind. rewrite IH by (rewrite length_app; cbn [length]; lia).
  by rewrite <- app_assoc.
Qed.

(** ** trim *)

Lemma trim_spec l : exists k, l = trim l ++ replicate k 0 /\ (trim l = [] \/ exists a x, trim l = a ++ [x] /\ x <> 0).
Proof.
  induction l as [|x l (k & Hk & Hl)]; cbn [trim]; [exists 0%nat; auto|].
  destruct (trim l) as [|y r] eqn:E.
  - destruct (x =? 0) eqn:Ex.
    + exists (S k). split; [|auto]. cbn [app replicate] in *. assert (x = 0) by lia. subst x. by rewrite <- Hk.
    + exists k. split; [cbn [app]; by rewrite Hk at 1|]. right. exists [], x. split; [done|lia].
  - exists k. cbn [app] in *. split; [by rewrite Hk at 1|]. right.
    destruct Hl as [Hl|(a & z & Hz & Hn)]; [done|]. exists (x :: a), z. rewrite Hz. done.
Qed.

Lemma trim_Forall (P : Z -> Prop) l : Forall P l -> Forall P (trim l).
Proof. destruct (trim_spec l) as (k & Hk & _). rewrite Hk at 1. by intros [H _]%Forall_app. Qed.

Lemma trim_value_rev base l : 0 <= base -> value_rev base (trim l) = value_rev base l.
Proof.
  intros Hb. destruct (trim_spec l) as (k & Hk & _). rewrite Hk at 2. rewrite value_rev_app by done.
  rewrite value_rev_zeros. lia.
Qed.

Lemma trim_value base l : 0 <= base ->
  value base l = value base (trim l) * base ^ (len l - len (trim l)) /\ (length (trim l) <= length l)%nat.
Proof.
  intros Hb. destruct (trim_spec l) as (k & Hk & _). assert (Hl : length l = (length (trim l) + k)%nat)
    by (rewrite Hk at 1; by rewrite length_app, length_replicate). split; [|lia].
  rewrite Hk at 1. rewrite value_app by done. rewrite value_zeros, length_replicate.
  replace (len l - len (trim l)) with (Z.of_nat k) by lia. lia.
Qed.

Lemma trim_nil_value base l : 0 < base -> Forall (fun x => 0 <= x < base) l -> value_rev base l <> 0 <-> trim l <> [].
Proof.
  intros Hb Hl. rewrite <- (trim_value_rev base l) by lia. destruct (trim_spec l) as (k & Hk & [H|(a & x & H & Hx)]).
  - rewrite H. cbn [value_rev]. split; [lia|done].
  - assert (Hf : Forall (fun x => 0 <= x < base) (trim l)) by (by apply trim_Forall). rewrite H in *.
    apply Forall_app in Hf as [Ha Hx']. inversion Hx' as [|? ? Hx1 _]; subst. split; [by destruct a|].
    intros _. rewrite value_rev_app by lia. cbn [value_rev]. pose proof (value_rev_bound base a Hb Ha). nia.
Qed.

(** ** The integer case *)

Lemma lor_shift a b n : 0 <= n -> 0 <= b < 2 ^ n -> Z.lor (Z.shiftl a n) b = a * 2 ^ n + b.
Proof.
  intros Hn Hb. rewrite <- Z.add_lor_land, Z.shiftl_mul_pow2 by done.
  enough (H : Z.land (a * 2 ^ n) b = 0) by (rewrite H; lia).
  apply Z.bits_inj'. intros i Hi. rewrite Z.land_spec, Z.bits_0.
  destruct (Z.lt_ge_cases i n) as [Hlt|Hge].
  - rewrite Z.mul_pow2_bits_low by lia. done.
  - rewrite <- (Z.mod_small b (2 ^ n)), Z.mod_pow2_bits_high by lia. apply andb_false_r.
Qed.

Lemma div_pass_spec w : limbs w ->
  let '(q, r) := div_pass w in
  limbs q /\ length q = length w /\ 0 <= r < 1000000000 /\ value_rev B32 w = value_rev B32 q * 1000000000 + r.
Proof.
  induction w as [|x w IH]; intros Hw; cbn [div_pass]; [split_and!; (done || lia)|].
  inversion Hw as [|? ? Hx Hw']; subst. specialize (IH Hw'). destruct (div_pass w) as [q r]. destruct IH as (Hq & Hl & Hr & Hv).
  unfold B32 in *. rewrite lor_shift by lia. set (cur := r * 2 ^ 32 + x).
  assert (Hcur : 0 <= cur < 1000000000 * 2 ^ 32) by (unfold cur; lia).
  rewrite u32_small by (split; [apply Z.div_pos; lia|apply Z.div_lt_upper_bound; lia]).
  pose proof (Z.div_mod cur 1000000000 ltac:(lia)). pose proof (Z.mod_pos_bound cur 1000000000 ltac:(lia)).
  split_and!; [|cbn [length]; lia|lia|lia|].
  - constructor; [|done]. split; [apply Z.div_pos; lia|apply Z.div_lt_upper_bound; lia].
  - cbn [value_rev]. rewrite Hv. unfold cur in *. lia.
Qed.

Definition B9 : Z := 1000000000.

Lemma chunk_loop_spec fuel : forall w chunk (j : nat), limbs w -> trim w = w ->
  value_rev B32 w < B9 ^ Z.of_nat j -> len chunk + Z.of_nat j <= 40 -> (j < fuel)%nat ->
  exists cs, chunk_loop fuel w chunk = Some (chunk ++ cs) /\ Forall (fun x => 0 <= x < B9) cs /\
    value_rev B9 cs = value_rev B32 w /\ (length cs <= j)%nat /\ trim cs = cs.
Proof.
  induction fuel as [|f IH]; intros w chunk j Hw Ht Hv Hc Hf; [lia|]. cbn [chunk_loop].
  destruct w as [|x w0] eqn:Ew; [exists []; rewrite app_nil_r; split_and!; (done || simpl; lia)|]. rewrite <- Ew in *.
  assert (Hpos : 0 < value_rev B32 w).
  { assert (value_rev B32 w <> 0) by (apply (trim_nil_value B32 w); [done|done|]; rewrite Ht, Ew; done).
    pose proof (value_rev_bound B32 w ltac:(done) Hw). lia. }
  destruct j as [|j]; [simpl in Hv; lia|]. pose proof (div_pass_spec w Hw) as Hd. destruct (div_pass w) as [q r].
  destruct Hd as (Hq & Hl & Hr & Hval). unfold push. replace (len chunk <? 40) with true by lia. obind.
  rewrite u32_small by lia.
  rewrite Nat2Z.inj_succ, Z.pow_succ_r in Hv by lia. unfold B9 in *.
  destruct (IH (trim q) (chunk ++ [r]) j) as (cs & Hcs & Hcb & Hcv & Hcl & Hct).
  - by apply trim_Forall.
  - destruct (trim_spec q) as (k & Hk & [H|(a & y & H & Hy)]); [by rewrite H|]. rewrite H. clear -Hy.
    induction a as [|z a IH]; cbn [trim app]; [by replace (y =? 0) with false by lia|]. rewrite IH. by destruct a.
  - rewrite trim_value_rev by done. lia.
  - rewrite length_app. cbn [length]. lia.
  - lia.
  - exists (r :: cs). rewrite Hcs, <- app_assoc. split; [done|]. split; [constructor; [lia|done]|].
    rewrite trim_value_rev in Hcv by done. split; [cbn [value_rev]; rewrite Hcv; lia|]. split; [cbn [length]; lia|].
    cbn [trim]. rewrite Hct. destruct cs as [|c cs]; [|done]. cbn [value_rev] in Hcv.
    destruct (r =? 0) eqn:E; [|done]. lia.
Qed.

Lemma chunk_digits_spec n : forall v buf, 0 <= v < 10 ^ Z.of_nat n ->
  exists ds, chunk_digits n v buf = ds ++ buf /\ length ds = n /\ digits10 ds /\ value 10 ds = v.
Proof.
  induction n as [|n IH]; intros v buf Hv; cbn [chunk_digits].
  { exists []. simpl in Hv. split_and!; [done|done|done|unfold value; simpl; lia]. }
  rewrite Nat2Z.inj_succ, Z.pow_succ_r in Hv by lia.
  destruct (IH (v / 10) (v mod 10 :: buf)) as (ds & Hds & Hl & Hd & Hval).
  { split; [apply Z.div_pos; lia|apply Z.div_lt_upper_bound; lia]. }
  exists (ds ++ [v mod 10]). rewrite Hds, <- app_assoc. split; [done|].
  split; [rewrite length_app; simpl; lia|]. split.
  - apply Forall_app. split; [done|]. constructor; [zdm|done].
  - rewrite value_snoc, Hval. zdm.
Qed.

(** Leading zeros are dropped, but at least one digit stays. *)
Lemma skip_zeros_spec n : forall ds, digits10 ds -> (n < length ds)%nat ->
  exists k ds', ds = replicate k 0 ++ ds' /\ skip_zeros n ds = ds' /\ ds' <> [] /\
    (k = n \/ (k < n)%nat /\ exists c r, ds' = c :: r /\ c <> 0).
Proof.
  induction n as [|n IH]; intros ds Hd Hl.
  - exists 0%nat, ds. split_and!; [done|by destruct ds|destruct ds; [simpl in Hl; lia|done]|auto].
  - destruct ds as [|c ds]; [simpl in Hl; lia|]. inversion Hd as [|? ? Hc Hd']; subst. destruct (decide (c = 0)) as [->|Hn].
    + destruct (IH ds Hd' ltac:(simpl in Hl; lia)) as (k & ds' & E1 & E2 & E3 & E4). exists (S k), ds'.
      cbn [skip_zeros replicate app]. rewrite <- E1. split_and!; [done|done|done|].
      destruct E4 as [-> |[Hk E4]]; [by left|right; split; [lia|done]].
    + exists 0%nat, (c :: ds). split; [done|]. split; [cbn [skip_zeros]; by destruct c|]. split; [done|].
      right. split; [lia|eauto].
Qed.

Lemma top_chunk v : 0 < v < B9 ->
  exists c r, skip_zeros 8 (chunk_digits 9 v []) = c :: r /\ c <> 0 /\ digits10 (c :: r) /\
    value 10 (c :: r) = v /\ (length (c :: r) <= 9)%nat.
Proof.
  intros Hv. destruct (chunk_digits_spec 9 v []) as (ds & Hds & Hl & Hd & Hval); [unfold B9 in Hv; lia|].
  rewrite app_nil_r in Hds. rewrite Hds. clear Hds. destruct (skip_zeros_spec 8 ds Hd ltac:(lia)) as (k & ds' & E1 & E2 & E3 & E4).
  rewrite E2. assert (Hd' : digits10 ds') by (subst ds; by apply Forall_app in Hd as [_ ?]).
  assert (Hv' : value 10 ds' = v) by (subst ds; rewrite value_app, value_zeros in Hval by lia; lia).
  assert (Hl' : (length ds' + k = 9)%nat) by (subst ds; rewrite length_app, length_replicate in Hl; lia).
  destruct E4 as [-> |[Hk (c & r & -> & Hc)]]; [|exists c, r; split_and!; (done || lia)].
  destruct ds' as [|c [|? ?]]; [done| |simpl in Hl'; lia]. exists c, []. rewrite value_cons in Hv' by lia.
  cbn in Hv'. split_and!; [done|lia|done|rewrite value_cons by lia; cbn; lia|simpl; lia].
Qed.

Lemma chunk_text_rest chunks : forall tmp, Forall (fun x => 0 <= x < B9) chunks -> len tmp + 9 * len chunks <= 360 ->
  exists ds, chunk_text chunks false tmp = Some (tmp ++ ds) /\ len ds = 9 * len chunks /\ digits10 ds /\
    value 10 ds = value B9 chunks.
Proof.
  induction chunks as [|v chunks IH]; intros tmp Hc Hl; cbn [chunk_text].
  { exists []. rewrite app_nil_r. split_and!; done. }
  inversion Hc as [|? ? Hv Hc']; subst. cbn [length] in Hl.
  destruct (chunk_digits_spec 9 v []) as (ds & Hds & Hl9 & Hd & Hval); [unfold B9 in Hv; lia|]. rewrite app_nil_r in Hds.
  rewrite Hds, push_all_ok by lia. obind.
  destruct (IH (tmp ++ ds) Hc') as (ds' & H1 & H2 & H3 & H4); [rewrite length_app; lia|].
  exists (ds ++ ds'). rewrite H1, <- app_assoc. split; [done|]. split; [rewrite length_app; cbn [length]; lia|].
  split; [by apply Forall_app|]. rewrite value_app, value_cons, Hval, H4, H2 by (unfold B9; lia).
  unfold B9. replace (10 ^ (9 * len chunks)) with (1000000000 ^ len chunks); [done|].
  rewrite Z.pow_mul_r by lia. done.
Qed.

Lemma chunk_text_spec cs : trim cs = cs -> cs <> [] -> Forall (fun x => 0 <= x < B9) cs -> 9 * len cs <= 360 ->
  exists ds, chunk_text (rev cs) true [] = Some ds /\ digits10 ds /\ value 10 ds = value_rev B9 cs /\
    (exists c r, ds = c :: r /\ c <> 0) /\ len ds <= 9 * len cs.
Proof.
  intros Ht Hne Hc Hl. destruct (trim_spec cs) as (k & Hk & [H|(a & x & H & Hx)]); [congruence|].
  rewrite Ht in H. rewrite <- (value_of_rev B9 cs). rewrite H, rev_app_distr in *. cbn [rev app chunk_text].
  apply Forall_app in Hc as [Ha Hx']. inversion Hx' as [|? ? Hx1 _]; subst.
  destruct (top_chunk x ltac:(lia)) as (c & r & -> & Hcn & Hcd & Hcv & Hcl).
  rewrite length_app in Hl. cbn [length] in Hl.
  rewrite push_all_ok by (cbn [length] in *; lia). obind. cbn [app].
  destruct (chunk_text_rest (rev a) (c :: r)) as (ds & H1 & H2 & H3 & H4);
    [by apply Forall_rev|rewrite length_rev; cbn [length] in *; lia|].
  exists ((c :: r) ++ ds). split; [done|]. split; [by apply Forall_app|]. split.
  - rewrite value_app, Hcv, H4, H2, (value_cons B9 x) by (unfold B9; lia). unfold B9.
    replace (10 ^ (9 * len (rev a))) with (1000000000 ^ len (rev a)); [done|]. rewrite Z.pow_mul_r by lia. done.
  - split; [exists c, (r ++ ds); done|]. rewrite !length_app. rewrite Nat2Z.inj_add, H2, length_rev.
    cbn [length] in *. lia.
Qed.

(** ** Specification *)

(** Digits from the first to the last significant one, within the array. *)
Definition dec_ok (o : fp_dec) : Prop :=
  digits10 (fd_d o) /\ len (fd_d o) <= FP_MAXDIG /\
  (exists c r, fd_d o = c :: r /\ c <> 0) /\ (exists a x, fd_d o = a ++ [x] /\ x <> 0).

(** d[0].d[1]d[2]... * 10^x = m * 2^e2, multiplied out to integers. *)
Definition denotes (o : fp_dec) (m e2 : Z) : Prop :=
  let p := fd_x o + 1 - len (fd_d o) in
  value 10 (fd_d o) * 10 ^ Z.max p 0 * 2 ^ Z.max (- e2) 0 = m * 2 ^ Z.max e2 0 * 10 ^ Z.max (- p) 0.

Lemma trim_head c r : c <> 0 -> exists r', trim (c :: r) = c :: r'.
Proof.
  intros Hc. cbn [trim]. destruct (trim r) as [|y r']; [|by eexists]. replace (c =? 0) with false by lia. by eexists.
Qed.

(** Dropping the trailing zeros of a digit string that starts with a nonzero digit. *)
Lemma dec_ok_trim c r x : c <> 0 -> digits10 (c :: r) -> len (trim (c :: r)) <= FP_MAXDIG -> dec_ok (mkDec (trim (c :: r)) x).
Proof.
  intros Hc Hd Hl. unfold dec_ok. cbn [fd_d]. split; [by apply trim_Forall|]. split; [done|].
  destruct (trim_head c r Hc) as [r' Hr']. split; [by exists c, r'|].
  destruct (trim_spec (c :: r)) as (k & _ & [H|H]); [congruence|done].
Qed.

Lemma shl_limbs m bs : 0 <= m < 2 ^ 64 -> 0 <= bs < 32 ->
  let lo := u64 (Z.shiftl m bs) in
  let hi := if negb (bs =? 0) then Z.shiftr m (64 - bs) else 0 in
  u32 lo + B32 * (u32 (Z.shiftr lo 32) + B32 * u32 hi) = m * 2 ^ bs.
Proof.
  intros Hm Hb. cbv zeta.
  assert (Hhi : (if negb (bs =? 0) then Z.shiftr m (64 - bs) else 0) = m / 2 ^ (64 - bs)).
  { destruct (bs =? 0) eqn:E; cbn [negb]; [|by rewrite Z.shiftr_div_pow2 by lia].
    replace (64 - bs) with 64 by lia. by rewrite Z.div_small by lia. }
  rewrite Hhi, Z.shiftl_mul_pow2, Z.shiftr_div_pow2 by lia.
  assert (Hp : 2 ^ (64 - bs) * 2 ^ bs = 2 ^ 64) by (rewrite <- Z.pow_add_r by lia; f_equal; lia).
  assert (Hbs : 1 <= 2 ^ bs <= 2 ^ 31) by (pose proof (Z.pow_pos_nonneg 2 bs ltac:(lia) ltac:(lia)); pose proof (Z.pow_le_mono_r 2 bs 31 ltac:(lia) ltac:(lia)); lia).
  assert (Hp' : 0 < 2 ^ (64 - bs)) by (apply Z.pow_pos_nonneg; lia).
  set (h := m / 2 ^ (64 - bs)). assert (Hh : 0 <= h < 2 ^ 32).
  { unfold h. split; [apply Z.div_pos; lia|]. apply Z.div_lt_upper_bound; [done|]. nia. }
  assert (Hlo : u64 (m * 2 ^ bs) = m * 2 ^ bs - h * 2 ^ 64).
  { unfold u64. rewrite Z.mod_eq by lia. enough ((m * 2 ^ bs) / 2 ^ 64 = h) by lia.
    unfold h. rewrite <- Hp, Z.div_mul_cancel_r by lia. done. }
  rewrite (u32_small h) by done. pose proof (u64_range (m * 2 ^ bs)) as Hr. set (lo := u64 (m * 2 ^ bs)) in *.
  unfold u32, B32. zdm.
Qed.

(** Three limbs in the zeroed array. *)
Lemma store_limbs (n : nat) a b c : (n <= 33)%nat ->
  (w ← set_index (replicate (Z.to_nat FP_LIMBS) 0) (Z.of_nat n) a;
   w ← set_index w (Z.of_nat n + 1) b;
   set_index w (Z.of_nat n + 2) c) = Some (replicate n 0 ++ [a; b; c] ++ replicate (33 - n) 0).
Proof.
  intros Hn.
  replace (replicate (Z.to_nat FP_LIMBS) 0) with (replicate n 0 ++ 0 :: 0 :: 0 :: replicate (33 - n) 0)
    by (change (0 :: 0 :: 0 :: replicate (33 - n) 0) with (replicate 3 0 ++ replicate (33 - n) 0);
        rewrite <- !replicate_add; f_equal; unfold FP_LIMBS; lia).
  pose proof (set_index_app (replicate n 0) (0 :: 0 :: replicate (33 - n) 0) 0 a) as S1. rewrite length_replicate in S1.
  rewrite S1. obind.
  pose proof (set_index_app (replicate n 0 ++ [a]) (0 :: replicate (33 - n) 0) 0 b) as S2.
  rewrite length_app, length_replicate, <- !app_assoc in S2. cbn [length app] in S2. rewrite Nat2Z.inj_add in S2. change (Z.of_nat 1) with 1 in S2. rewrite S2. obind.
  pose proof (set_index_app (replicate n 0 ++ [a; b]) (replicate (33 - n) 0) 0 c) as S3.
  rewrite length_app, length_replicate, <- !app_assoc in S3. cbn [length app] in S3. rewrite Nat2Z.inj_add in S3. change (Z.of_nat 2) with 2 in S3. exact S3.
Qed.

Lemma trim_idem l : trim (trim l) = trim l.
Proof.
  destruct (trim_spec l) as (k & Hk & [H|(a & y & H & Hy)]); [by rewrite H|]. rewrite H. clear -Hy.
  induction a as [|z a IH]; cbn [trim app]; [by replace (y =? 0) with false by lia|]. rewrite IH. by destruct a.
Qed.

Lemma fp_exact_int_spec m e2 : 0 < m < 2 ^ 53 -> 0 <= e2 <= 971 ->
  exists o, fp_exact_int m e2 = Some o /\ dec_ok o /\ denotes o m e2.
Proof.
  intros Hm He. unfold fp_exact_int. rewrite Z.quot_div_nonneg, Z.rem_mod_nonneg by lia.
  set (n := Z.to_nat (e2 / 32)). assert (Hn : e2 / 32 = Z.of_nat n) by (unfold n; zdm).
  set (bs := e2 mod 32). assert (Hbs : 0 <= bs < 32) by (unfold bs; zdm).
  assert (Hsplit : e2 = 32 * Z.of_nat n + bs) by (unfold bs; zdm). assert (n <= 30)%nat by zdm.
  pose proof (shl_limbs m bs ltac:(lia) Hbs) as Hlimbs. cbv zeta in Hlimbs |- *. rewrite Hn.
  set (a := u32 (u64 (Z.shiftl m bs))) in *. set (b := u32 (Z.shiftr (u64 (Z.shiftl m bs)) 32)) in *.
  set (c := u32 (if negb (bs =? 0) then Z.shiftr m (64 - bs) else 0)) in *.
  assert (Habc : limbs [a; b; c]) by (repeat constructor; apply u32_range). clearbody a b c bs n.
  pose proof (store_limbs n a b c ltac:(lia)) as Hst.
  destruct (set_index (replicate _ 0) (Z.of_nat n) a) as [w1|]; [|done]. cbn [mbind option_bind] in Hst |- *.
  destruct (set_index w1 _ b) as [w2|]; [|done]. cbn [mbind option_bind] in Hst |- *. rewrite Hst. obind. clear Hst.
  rewrite app_assoc, take_app_length' by (rewrite length_app, length_replicate; cbn [length]; lia).
  set (w := trim (replicate n 0 ++ [a; b; c])).
  assert (Hw : limbs w) by (apply trim_Forall, Forall_app; split; [apply Forall_replicate; done|done]).
  assert (Hv : value_rev B32 w = m * 2 ^ e2).
  { unfold w. rewrite trim_value_rev, value_rev_app, value_rev_zeros, length_replicate by done. cbn [value_rev].
    replace (a + B32 * (b + B32 * (c + B32 * 0))) with (m * 2 ^ bs) by lia. rewrite Hsplit, Z.pow_add_r by lia.
    unfold B32. rewrite <- Z.pow_mul_r by lia. lia. }
  assert (Hpow : 1 <= 2 ^ e2 <= 2 ^ 971)
    by (pose proof (Z.pow_pos_nonneg 2 e2 ltac:(lia) ltac:(lia)); pose proof (Z.pow_le_mono_r 2 e2 971 ltac:(lia) ltac:(lia)); lia).
  assert (Hbig : m * 2 ^ e2 < B9 ^ Z.of_nat 35).
  { apply (Z.le_lt_trans _ (2 ^ 53 * 2 ^ 971)); [apply Z.mul_le_mono_nonneg; lia|reflexivity]. }
  destruct (chunk_loop_spec 41 w [] 35 Hw (trim_idem _) ltac:(rewrite Hv; exact Hbig) ltac:(simpl; lia) ltac:(lia))
    as (cs & -> & Hcb & Hcv & Hcl & Hct). obind. cbn [app].
  destruct (chunk_text_spec cs Hct) as (ds & -> & Hdd & Hdv & (h & r & -> & Hh) & Hdl);
    [intros ->; cbn [value_rev] in Hcv; lia|done|lia|]. obind.
  destruct (trim_value 10 (h :: r) ltac:(lia)) as [Htv Htl].
  assert (Hlen : len (trim (h :: r)) <= FP_MAXDIG) by (unfold FP_MAXDIG; lia).
  rewrite push_all_ok by (cbn [length]; lia). obind. cbn [app].
  eexists. split; [reflexivity|]. split; [by apply dec_ok_trim|].
  unfold denotes. cbn [fd_d fd_x]. rewrite (Z.max_r (- e2)), (Z.max_l e2) by lia.
  rewrite (Z.max_l (_ - 1 + 1 - _)), (Z.max_r (- _)) by lia. rewrite !Z.pow_0_r, !Z.mul_1_r.
  rewrite <- Hv, <- Hcv, <- Hdv, Htv. do 2 f_equal. lia.
Qed.

(** ** The fractional case *)

Lemma mul10_spec fl : forall c, limbs fl -> 0 <= c < 10 ->
  limbs (mul10 fl c) /\ length (mul10 fl c) = length fl /\
  value_rev B32 (mul10 fl c) = (10 * value_rev B32 fl + c) mod B32 ^ len fl.
Proof.
  induction fl as [|x fl IH]; intros c Hf Hc; cbn [mul10]; [split_and!; [done|done|simpl; by rewrite Z.mod_1_r]|].
  inversion Hf as [|? ? Hx Hf']; subst. unfold B32 in *. rewrite u64_small by lia.
  rewrite Z.shiftr_div_pow2 by lia. set (t := x * 10 + c). assert (Hcar : 0 <= t / 2 ^ 32 < 10) by (unfold t; zdm).
  destruct (IH (t / 2 ^ 32) Hf' Hcar) as (H1 & H2 & H3). split_and!; [|cbn [length]; lia|].
  - constructor; [apply u32_range|done].
  - cbn [value_rev length]. rewrite H3, Nat2Z.inj_succ, Z.pow_succ_r by lia.
    set (v := value_rev (2 ^ 32) fl). assert (HP : 0 < (2 ^ 32) ^ len fl) by (apply Z.pow_pos_nonneg; lia).
    replace (10 * (x + 2 ^ 32 * v) + c) with (u32 t + (10 * v + t / 2 ^ 32) * 2 ^ 32) by (unfold u32, t; zdm).
    rewrite Z.rem_mul_r by lia.
    rewrite Z.mod_add, Z.div_add by lia. rewrite (Z.mod_small (u32 t)), (Z.div_small (u32 t)) by (pose proof (u32_range t); lia). by rewrite Z.add_0_l.
Qed.

Lemma pow2_pos n : 0 <= n -> 0 < 2 ^ n.
Proof. intros. apply Z.pow_pos_nonneg; lia. Qed.

(** The digit and the rest from the two top limbs. *)
Lemma top_digit a b sh : 0 <= a < B32 -> 0 <= b -> 0 <= sh < 32 -> a + B32 * b < 10 * 2 ^ sh ->
  Z.land (if negb (sh =? 0) then Z.lor (Z.shiftr a sh) (u32 (Z.shiftl b (32 - sh))) else Z.shiftr a sh) 15
    = (a + B32 * b) / 2 ^ sh /\
  Z.land a (if negb (sh =? 0) then Z.shiftl 1 sh - 1 else 0) = (a + B32 * b) mod 2 ^ sh.
Proof.
  intros Ha Hb Hs HT. unfold B32 in *. pose proof (pow2_pos sh ltac:(lia)) as Hp.
  assert (Hpp : 2 ^ 32 = 2 ^ (32 - sh) * 2 ^ sh) by (rewrite <- Z.pow_add_r by lia; f_equal; lia).
  pose proof (pow2_pos (32 - sh) ltac:(lia)) as Hp'.
  assert (Hdiv : (a + 2 ^ 32 * b) / 2 ^ sh = a / 2 ^ sh + b * 2 ^ (32 - sh)).
  { replace (a + 2 ^ 32 * b) with (a + b * 2 ^ (32 - sh) * 2 ^ sh) by (rewrite Hpp; lia). by rewrite Z.div_add by lia. }
  assert (Hmod : (a + 2 ^ 32 * b) mod 2 ^ sh = a mod 2 ^ sh).
  { replace (a + 2 ^ 32 * b) with (a + b * 2 ^ (32 - sh) * 2 ^ sh) by (rewrite Hpp; lia). by rewrite Z.mod_add by lia. }
  assert (Hq : 0 <= (a + 2 ^ 32 * b) / 2 ^ sh < 10).
  { split; [apply Z.div_pos; lia|]. apply Z.div_lt_upper_bound; lia. }
  assert (Ha' : 0 <= a / 2 ^ sh < 2 ^ (32 - sh)).
  { split; [apply Z.div_pos; lia|]. apply Z.div_lt_upper_bound; lia. }
  split.
  - change 15 with (Z.ones 4). rewrite Z.land_ones by lia. rewrite Z.shiftr_div_pow2, Z.shiftl_mul_pow2 by lia.
    destruct (sh =? 0) eqn:E; cbn [negb].
    + assert (sh = 0) by lia. subst sh. rewrite !Z.pow_0_r, !Z.div_1_r in *. assert (b = 0) by lia. subst b.
      rewrite Z.mod_small by lia. lia.
    + rewrite u32_small by nia. rewrite Z.lor_comm, <- Z.shiftl_mul_pow2, lor_shift by lia.
      rewrite Z.mod_small by lia. lia.
  - rewrite Hmod. destruct (sh =? 0) eqn:E; cbn [negb].
    + assert (sh = 0) by lia. subst sh. rewrite Z.land_0_r, Z.pow_0_r, Z.mod_1_r. done.
    + rewrite Z.shiftl_1_l. replace (2 ^ sh - 1) with (Z.ones sh) by (rewrite Z.ones_equiv; lia). by rewrite Z.land_ones by lia.
Qed.

(** A list of [li + 2] limbs: the low ones and the two on top. *)
Lemma limbs_split (w : list Z) (li : nat) : length w = (li + 2)%nat -> exists L a b, w = L ++ [a; b] /\ length L = li.
Proof.
  intros Hl. rewrite <- (take_drop li w). assert (Hd : length (drop li w) = 2%nat) by (rewrite length_drop; lia).
  destruct (drop li w) as [|a [|b [|? ?]]]; try done. exists (take li w), a, b. split; [done|]. rewrite length_take. lia.
Qed.

Lemma frac_step_spec fl (li : nat) k : limbs fl -> length fl = (li + 2)%nat -> k / 32 = Z.of_nat li -> 0 <= k ->
  0 <= value_rev B32 fl < 2 ^ k ->
  exists fl', frac_step fl (Z.shiftr k 5) (Z.land k 31) = Some (fl', 10 * value_rev B32 fl / 2 ^ k) /\
    limbs fl' /\ length fl' = length fl /\ value_rev B32 fl' = (10 * value_rev B32 fl) mod 2 ^ k.
Proof.
  intros Hf Hl Hk Hk0 Hv. set (F := value_rev B32 fl) in *. unfold frac_step.
  rewrite Z.shiftr_div_pow2 by lia. change (2 ^ 5) with 32. rewrite Hk.
  change 31 with (Z.ones 5). rewrite Z.land_ones by lia. change (2 ^ 5) with 32.
  set (sh := k mod 32). assert (Hsh : 0 <= sh < 32) by (unfold sh; zdm). assert (Ek : k = 32 * Z.of_nat li + sh) by (unfold sh; zdm).
  clearbody sh. set (B := B32 ^ Z.of_nat li).
  assert (Hp : 2 ^ k = B * 2 ^ sh) by (unfold B, B32; rewrite Ek, Z.pow_add_r, Z.pow_mul_r by lia; done).
  pose proof (pow2_pos sh ltac:(lia)) as Hsh0. pose proof (Z.pow_le_mono_r 2 sh 31 ltac:(lia) ltac:(lia)) as Hsh2.
  assert (HB : 0 < B) by (apply Z.pow_pos_nonneg; unfold B32; lia).
  destruct (mul10_spec fl 0 Hf ltac:(lia)) as (H1 & H2 & H3). fold F in H3. rewrite Z.add_0_r in H3.
  rewrite Z.mod_small in H3; [|rewrite Hl, Nat2Z.inj_add, Z.pow_add_r by lia; fold B; unfold B32; nia].
  destruct (limbs_split (mul10 fl 0) li ltac:(lia)) as (L & a & b & HLab & HL). rewrite HLab in *. clear HLab.
  apply Forall_app in H1 as [HLl Hab]. apply Forall_cons in Hab as [Ha Hab]. apply Forall_cons in Hab as [Hb _].
  rewrite value_rev_app, HL in H3 by (unfold B32; lia). cbn [value_rev] in H3. rewrite Z.mul_0_r, Z.add_0_r in H3.
  pose proof (value_rev_bound B32 L ltac:(unfold B32; lia) HLl) as HLv. rewrite HL in HLv. fold B in H3, HLv.
  set (vL := value_rev B32 L) in *. set (T := a + B32 * b) in *.
  assert (HT : T < 10 * 2 ^ sh) by nia. destruct (top_digit a b sh Ha ltac:(lia) Hsh HT) as [Hdig Hrest]. fold T in Hdig, Hrest.
  assert (Hq : 10 * F / 2 ^ k = T / 2 ^ sh).
  { rewrite <- H3, Hp, <- Z.div_div by lia. rewrite Z.mul_comm, Z.div_add, (Z.div_small vL) by lia. done. }
  assert (Hr : (10 * F) mod 2 ^ k = vL + B * (T mod 2 ^ sh)).
  { rewrite <- H3, Hp, Z.rem_mul_r by lia. rewrite (Z.mul_comm B T), Z.mod_add, Z.div_add by lia.
    rewrite (Z.mod_small vL), (Z.div_small vL) by lia. done. }
  pose proof (at_index_app L [b] a) as I1. cbn [app] in I1. rewrite HL in I1. rewrite I1. obind.
  pose proof (at_index_app (L ++ [a]) [] b) as I2. rewrite <- app_assoc, length_app, Nat2Z.inj_add, HL in I2. cbn [app length] in I2.
  change (Z.of_nat 1) with 1 in I2. rewrite I2. obind. rewrite Hdig, Hrest.
  pose proof (set_index_app L [b] a (T mod 2 ^ sh)) as S1. rewrite HL in S1. rewrite S1. obind.
  pose proof (set_index_app (L ++ [T mod 2 ^ sh]) [] b 0) as S2. rewrite <- !app_assoc, length_app, Nat2Z.inj_add, HL in S2. cbn [app length] in S2.
  change (Z.of_nat 1) with 1 in S2. rewrite S2. obind. eexists. split; [by rewrite Hq|].
  pose proof (Z.mod_pos_bound T (2 ^ sh) Hsh0). split.
  - apply Forall_app. split; [done|]. repeat constructor; unfold B32; lia.
  - split; [rewrite !length_app in *; done|]. rewrite Hr, value_rev_app, HL by (unfold B32; lia). cbn [value_rev].
    fold vL B. lia.
Qed.

Lemma head_value c r : digits10 (c :: r) -> c <> 0 -> 10 ^ len r <= value 10 (c :: r).
Proof.
  intros Hd Hc. apply Forall_cons in Hd as [H1 H2]. rewrite value_cons by lia.
  pose proof (value_bound 10 r ltac:(lia) H2). pose proof (Z.pow_pos_nonneg 10 (len r) ltac:(lia) ltac:(lia)). nia.
Qed.

(** A digit string that starts with a nonzero digit is as short as its value. *)
Lemma value_length d n : digits10 d -> (forall c r, d = c :: r -> c <> 0) -> value 10 d < 10 ^ n -> 0 <= n -> len d <= n.
Proof.
  intros Hd Hc Hv Hn. destruct d as [|c r]; [simpl; lia|]. pose proof (head_value c r Hd (Hc c r eq_refl)) as Hh.
  cbn [length]. assert (len r < n); [|lia]. apply (Z.pow_lt_mono_r_iff 10); lia.
Qed.

Lemma all_zero_value fl : limbs fl -> forallb (fun x => x =? 0) fl = (value_rev B32 fl =? 0).
Proof.
  induction 1 as [|x fl Hx Hf IH]; cbn [forallb value_rev]; [done|]. rewrite IH.
  pose proof (value_rev_bound B32 fl ltac:(unfold B32; lia) Hf). unfold B32 in *. lia.
Qed.

Section Fraction.
(** [N] is 800, kept as a variable so that arithmetic does not compute 10^800. *)
Variables (k N : Z) (li : nat).
Hypothesis (Hk : k / 32 = Z.of_nat li) (Hk0 : 0 <= k) (HN : N = FP_MAXDIG).

(** The digits [d] read so far and the rest [F / 2^k]: [r] more digits reach the end within the array. *)
Definition frac_state (r : nat) (fl d : list Z) : Prop :=
  let F := value_rev B32 fl in
  limbs fl /\ length fl = (li + 2)%nat /\ F < 2 ^ k /\ (2 ^ k | F * 10 ^ Z.of_nat r) /\
  digits10 d /\ (forall c l, d = c :: l -> c <> 0) /\ (value 10 d * 2 ^ k + F) * 10 ^ Z.of_nat r < 10 ^ N * 2 ^ k.

Lemma frac_state_value r fl d : frac_state r fl d -> value 10 d * 10 ^ Z.of_nat r < 10 ^ N.
Proof.
  intros (Hf & _ & _ & _ & Hd & _ & Hb). pose proof (value_rev_bound B32 fl ltac:(unfold B32; lia) Hf).
  pose proof (value_bound 10 d ltac:(lia) Hd). pose proof (pow2_pos k Hk0).
  pose proof (Z.pow_pos_nonneg 10 (Z.of_nat r) ltac:(lia) ltac:(lia)).
  apply (Z.mul_lt_mono_pos_r (2 ^ k)); [done|]. eapply Z.le_lt_trans; [|exact Hb].
  rewrite Z.mul_add_distr_r. nia.
Qed.

Lemma frac_state_next r fl d fl' d' : frac_state (S r) fl d ->
  limbs fl' -> length fl' = length fl -> value_rev B32 fl' = (10 * value_rev B32 fl) mod 2 ^ k ->
  digits10 d' -> (forall c l, d' = c :: l -> c <> 0) -> value 10 d' = value 10 d * 10 + 10 * value_rev B32 fl / 2 ^ k ->
  frac_state r fl' d' /\
  value 10 d' * 2 ^ k + value_rev B32 fl' = (value 10 d * 2 ^ k + value_rev B32 fl) * 10.
Proof.
  intros (Hf & Hl & Hv & Hdv & Hd & Hc & Hb) Hf' Hl' Hv' Hd' Hc' Hval. pose proof (pow2_pos k Hk0) as Hp.
  pose proof (Z.div_mod (10 * value_rev B32 fl) (2 ^ k) ltac:(lia)) as Hdm.
  assert (Hsum : value 10 d' * 2 ^ k + value_rev B32 fl' = (value 10 d * 2 ^ k + value_rev B32 fl) * 10) by lia.
  split; [|done]. rewrite Nat2Z.inj_succ, Z.pow_succ_r in * by lia.
  unfold frac_state. split; [done|]. split; [lia|]. split; [rewrite Hv'; apply Z.mod_pos_bound; lia|]. split.
  - destruct Hdv as [z Hz]. exists (z - 10 * value_rev B32 fl / 2 ^ k * 10 ^ Z.of_nat r).
    rewrite Hv'. rewrite Z.mod_eq by lia. nia.
  - split; [done|]. split; [done|]. rewrite Hsum. lia.
Qed.

Lemma frac_loop_spec fuel : forall (r : nat) fl d zeros, (r < fuel)%nat -> frac_state r fl d ->
  exists (j : nat) d' zeros', frac_loop fuel fl (Z.shiftr k 5) (Z.land k 31) d zeros = Some (d', zeros') /\
    digits10 d' /\ (forall c l, d' = c :: l -> c <> 0) /\ len d' <= N /\
    value 10 d' * 2 ^ k = (value 10 d * 2 ^ k + value_rev B32 fl) * 10 ^ Z.of_nat j /\
    len d' + zeros' = len d + zeros + Z.of_nat j /\ (d <> [] -> zeros' = zeros).
Proof.
  induction fuel as [|f IH]; intros r fl d zeros Hf Hst; [lia|]. pose proof Hst as (Hfl & Hl & Hv & Hdv & Hd & Hc & Hb).
  pose proof (value_rev_bound B32 fl ltac:(unfold B32; lia) Hfl) as Hv0. pose proof (pow2_pos k Hk0) as Hp.
  pose proof (frac_state_value r fl d Hst) as Hval.
  pose proof (Z.pow_pos_nonneg 10 (Z.of_nat r) ltac:(lia) ltac:(lia)) as Hpr.
  pose proof (value_bound 10 d ltac:(lia) Hd) as Hvd.
  cbn [frac_loop]. rewrite all_zero_value by done. destruct (value_rev B32 fl =? 0) eqn:E.
  { exists 0%nat, d, zeros. split; [done|]. split; [done|]. split; [done|]. split; [|split; [lia|split; [lia|done]]].
    apply value_length; [done|done|nia|unfold FP_MAXDIG in HN; lia]. }
  destruct r as [|r].
  { exfalso. rewrite Z.pow_0_r, Z.mul_1_r in Hdv. apply Z.divide_pos_le in Hdv; lia. }
  destruct (frac_step_spec fl li k Hfl Hl Hk Hk0 ltac:(lia)) as (fl' & Hstep & Hf' & Hl' & Hv').
  rewrite Hstep. obind. set (digit := 10 * value_rev B32 fl / 2 ^ k) in *.
  assert (Hdig : 0 <= digit < 10).
  { unfold digit. split; [apply Z.div_pos; lia|]. apply Z.div_lt_upper_bound; lia. }
  assert (Hgo : forall d1 z1, digits10 d1 -> (forall c l, d1 = c :: l -> c <> 0) -> value 10 d1 = value 10 d * 10 + digit ->
    len d1 + z1 = len d + zeros + 1 -> (d <> [] -> d1 <> [] /\ z1 = zeros) ->
    exists (j : nat) d' zeros', frac_loop f fl' (Z.shiftr k 5) (Z.land k 31) d1 z1 = Some (d', zeros') /\
      digits10 d' /\ (forall c l, d' = c :: l -> c <> 0) /\ len d' <= N /\
      value 10 d' * 2 ^ k = (value 10 d * 2 ^ k + value_rev B32 fl) * 10 ^ Z.of_nat j /\
      len d' + zeros' = len d + zeros + Z.of_nat j /\ (d <> [] -> zeros' = zeros)).
  { intros d1 z1 H1 H2 H3 H4 H5. destruct (frac_state_next r fl d fl' d1 Hst Hf' Hl' Hv' H1 H2 H3) as [Hn Hsum].
    destruct (IH r fl' d1 z1 ltac:(lia) Hn) as (j & d' & z' & R1 & R2 & R3 & R4 & R5 & R6 & R7).
    exists (S j), d', z'. split; [done|]. split; [done|]. split; [done|]. split; [done|].
    split; [rewrite R5, Hsum, Nat2Z.inj_succ, Z.pow_succ_r by lia; lia|]. split; [lia|].
    intros Hne. destruct (H5 Hne) as [H6 H7]. rewrite <- H7. by apply R7. }
  destruct d as [|c l].
  - destruct (digit =? 0) eqn:Ez.
    + apply Hgo; [done|done|unfold value; simpl; lia|simpl; lia|done].
    + apply Hgo; [repeat constructor; lia|intros c l [= <- <-]; lia|unfold value; simpl; lia|simpl; lia|done].
  - rewrite Nat2Z.inj_succ, Z.pow_succ_r in Hval by lia.
    assert (HN1 : 10 ^ N = 10 * 10 ^ (N - 1)) by (rewrite <- Z.pow_succ_r by (unfold FP_MAXDIG in HN; lia); f_equal; lia).
    assert (Hlen : len (c :: l) <= N - 1).
    { unfold FP_MAXDIG in HN. apply value_length; [done|done| |lia]. rewrite HN1 in Hval.
      pose proof (Z.pow_pos_nonneg 10 (Z.of_nat r) ltac:(lia) ltac:(lia)). nia. }
    replace (len (c :: l) <? FP_MAXDIG) with true by lia.
    apply Hgo; [apply Forall_app; split; [done|repeat constructor; lia]|
      intros c' l' [= <- _]; by apply (Hc c l)|by rewrite value_snoc|rewrite length_app; simpl; lia|done].
Qed.
End Fraction.

Lemma frac_parts m k : 0 < m < 2 ^ 53 -> 0 < k ->
  (if 64 <=? k then (0, m) else (Z.shiftr m k, Z.land m (Z.shiftl 1 k - 1))) = (m / 2 ^ k, m mod 2 ^ k).
Proof.
  intros Hm Hk. destruct (64 <=? k) eqn:E.
  - assert (2 ^ 64 <= 2 ^ k) by (apply Z.pow_le_mono_r; lia). rewrite Z.div_small, Z.mod_small by lia. done.
  - rewrite Z.shiftr_div_pow2, Z.shiftl_1_l by lia. replace (2 ^ k - 1) with (Z.ones k) by (rewrite Z.ones_equiv; lia).
    by rewrite Z.land_ones by lia.
Qed.

(** The digits of the integer part, none for 0. *)
Lemma int_digits ip : 0 <= ip < 2 ^ 53 ->
  let t := if negb (ip =? 0) then digits_rev 10 ip else [] in
  digits10 (rev t) /\ value 10 (rev t) = ip /\ (forall c l, rev t = c :: l -> c <> 0) /\ len t <= 16 /\ (ip <> 0 -> t <> []).
Proof.
  intros Hi. cbv zeta. destruct (ip =? 0) eqn:E; cbn [negb]; [split_and!; [done|unfold value; simpl; lia|done|simpl; lia|lia]|].
  split; [apply Forall_rev, digits_rev_range; lia|]. split; [rewrite value_of_rev; apply digits_rev_value; lia|].
  split.
  { intros c l Hcl. destruct (digits_loop_last 64 10 ip ltac:(lia)) as (d & Hd & Hp); [split; [lia|]; apply pow_fuel; lia|].
    fold (digits_rev 10 ip) in Hd. apply (f_equal (@rev Z)) in Hcl. rewrite rev_involutive in Hcl. cbn [rev] in Hcl.
    rewrite Hcl, last_snoc in Hd. injection Hd as ->. lia. }
  pose proof (digits_rev_length 10 ip 16 ltac:(lia) ltac:(lia) ltac:(lia)) as Hl. split; [lia|].
  intros _ Ht. rewrite Ht in Hl. simpl in Hl. lia.
Qed.

Lemma five_pow k : 0 < k -> 10 ^ k = 5 ^ k * 2 ^ k.
Proof. intros. rewrite <- Z.pow_mul_l. done. Qed.

Lemma fp_exact_frac_spec m e2 : 0 < m < 2 ^ 53 -> -1074 <= e2 < 0 ->
  exists o, fp_exact_frac m e2 = Some o /\ dec_ok o /\ denotes o m e2.
Proof.
  intros Hm He. unfold fp_exact_frac. set (k := - e2). assert (Hk : 0 < k <= 1074) by (unfold k; lia).
  rewrite (frac_parts m k Hm ltac:(lia)). set (ip := m / 2 ^ k). set (frac := m mod 2 ^ k).
  pose proof (pow2_pos k ltac:(lia)) as Hp. pose proof (Z.div_mod m (2 ^ k) ltac:(lia)) as Hdm.
  pose proof (Z.mod_pos_bound m (2 ^ k) ltac:(lia)) as Hfr. fold ip frac in Hdm, Hfr.
  assert (Hip : 0 <= ip < 2 ^ 53) by (unfold ip; split; [apply Z.div_pos; lia|apply Z.div_lt_upper_bound; nia]).
  assert (Hfr53 : frac < 2 ^ 53) by nia.
  destruct (int_digits ip Hip) as (Hd & Hdv & Hdc & Hdl & Hdn). set (t := if negb (ip =? 0) then _ else _) in *.
  rewrite push_all_ok by (rewrite length_rev; unfold FP_MAXDIG; simpl; lia). obind. cbn [app].
  rewrite Z.quot_div_nonneg by lia. assert (Hk32 : 0 <= k / 32 <= 33) by zdm.
  replace (FP_LIMBS <? k / 32 + 2) with false by (unfold FP_LIMBS; lia).
  set (li := Z.to_nat (k / 32)). assert (Hli : k / 32 = Z.of_nat li) by (unfold li; lia).
  set (fl := u32 frac :: u32 (Z.shiftr frac 32) :: replicate (Z.to_nat (k / 32 + 2 - 2)) 0).
  assert (Hfl : limbs fl) by (repeat constructor; try apply u32_range; apply Forall_replicate; done).
  assert (Hflv : value_rev B32 fl = frac).
  { unfold fl. cbn [value_rev]. rewrite value_rev_zeros, Z.shiftr_div_pow2 by lia. unfold u32, B32. zdm. }
  assert (H10 : 10 ^ k = 5 ^ k * 2 ^ k) by (apply five_pow; lia).
  assert (Hst : frac_state k FP_MAXDIG li (Z.to_nat k) fl (rev t)).
  { unfold frac_state. rewrite Hflv, Hdv, Z2Nat.id by lia. split; [done|]. split; [unfold fl; cbn [length]; rewrite length_replicate; lia|].
    split; [lia|]. split; [exists (frac * 5 ^ k); rewrite H10; lia|]. split; [done|]. split; [done|].
    replace (ip * 2 ^ k + frac) with m by lia. rewrite H10, Z.mul_assoc. apply Z.mul_lt_mono_pos_r; [done|].
    apply (Z.le_lt_trans _ (2 ^ 53 * 5 ^ 1074)); [|reflexivity].
    apply Z.mul_le_mono_nonneg; [lia|lia|apply Z.pow_nonneg; lia|apply Z.pow_le_mono_r; lia]. }
  destruct (frac_loop_spec k FP_MAXDIG li Hli ltac:(lia) eq_refl (S (Z.to_nat k)) (Z.to_nat k) fl (rev t) 0 ltac:(lia) Hst)
    as (j & d & zeros & Hloop & Rd & Rc & Rl & Rv & Rlen & Rz). rewrite Hloop. obind. clear Hloop.
  rewrite Hdv, Hflv in Rv. replace (ip * 2 ^ k + frac) with m in Rv by lia. rewrite length_rev in Rlen.
  pose proof (Z.pow_pos_nonneg 10 (Z.of_nat j) ltac:(lia) ltac:(lia)) as Hpj.
  destruct d as [|c r]; [exfalso; unfold value in Rv; simpl in Rv; nia|].
  destruct (trim_value 10 (c :: r) ltac:(lia)) as [Htv Htl].
  eexists. split; [reflexivity|]. split; [apply dec_ok_trim; [by apply (Rc c r)|done|unfold FP_MAXDIG in *; lia]|].
  set (n := len (trim (c :: r))) in *. set (N := len (c :: r)) in *.
  assert (Hx : (if negb (ip =? 0) then len t - 1 else -1 - zeros) = N - 1 - Z.of_nat j).
  { destruct (ip =? 0) eqn:E; cbn [negb].
    - assert (t = []) by (unfold t; done). replace (len t) with 0 in Rlen by (subst t; done). lia.
    - rewrite Rz in Rlen; [lia|]. intros Hr. apply (Hdn ltac:(lia)). rewrite <- (rev_involutive t), Hr. done. }
  unfold denotes. cbn [fd_d fd_x]. rewrite Hx. fold n. fold k. rewrite (Z.max_l k), (Z.max_r e2) by lia.
  rewrite Z.pow_0_r, Z.mul_1_r. replace (N - 1 - Z.of_nat j + 1 - n) with (N - n - Z.of_nat j) by lia.
  rewrite Htv in Rv. assert (HNn : 0 <= N - n) by (unfold N, n; lia). clearbody n N. clear -Rv HNn.
  destruct (Z.le_gt_cases (Z.of_nat j) (N - n)) as [Hle|Hgt].
  - rewrite Z.max_l, Z.max_r, Z.pow_0_r by lia.
    replace (N - n) with ((N - n - Z.of_nat j) + Z.of_nat j) in Rv by lia. rewrite Z.pow_add_r in Rv by lia.
    pose proof (Z.pow_pos_nonneg 10 (Z.of_nat j) ltac:(lia) ltac:(lia)). nia.
  - rewrite Z.max_r, Z.max_l, Z.pow_0_r by lia.
    replace (Z.of_nat j) with ((Z.of_nat j - (N - n)) + (N - n)) in Rv by lia. rewrite Z.pow_add_r in Rv by lia.
    replace (- (N - n - Z.of_nat j)) with (Z.of_nat j - (N - n)) by lia.
    pose proof (Z.pow_pos_nonneg 10 (N - n) ltac:(lia) ltac:(lia)). nia.
Qed.

Lemma fp_exact_spec m e2 : 0 < m < 2 ^ 53 -> -1074 <= e2 <= 971 ->
  exists o, fp_exact m e2 = Some o /\ dec_ok o /\ denotes o m e2.
Proof.
  intros Hm He. unfold fp_exact. replace (m =? 0) with false by lia. destruct (0 <=? e2) eqn:E.
  - apply fp_exact_int_spec; lia.
  - apply fp_exact_frac_spec; lia.
Qed.

(** [fp_exact] is exact for every finite double [m * 2^e2]: it stays inside its
    arrays (36 limbs, 40 chunks, 360 and 800 digits), its loops end, and the
    digits, without leading or trailing zeros, denote exactly [m * 2^e2]. *)
Theorem fp_exact_correct m e2 :
  0 < m < 2 ^ 53 -> -1074 <= e2 <= 971 ->
  exists o, fp_exact m e2 = Some o /\ dec_ok o /\ denotes o m e2.
Proof. apply fp_exact_spec. Qed.
Lemma fp_exact_correct_witness :
  exists o, fp_exact 3602879701896397 (-55) = Some o /\ dec_ok o /\ denotes o 3602879701896397 (-55).
Proof. apply (fp_exact_correct 3602879701896397 (-55)); lia. Defined.
