(* ===== verification/FpRound.v ===== *)
(** * Rounding the digits of a double: half to even

    [fp_round_digits] (fpfmt.h) keeps the first [k] digits of an exact
    expansion, rounded to nearest, ties to even. *)

From S2P Require Import Prelude Mem Digits FpFmt FpFmtSpec.

(** ** Rounding *)

(** [a / b] rounded to the nearest integer, ties to the even one. *)
Definition round_half_even (a b : Z) : Z :=
  let q := a / b in
  let r := a mod b in
  if (b <? 2 * r) || ((2 * r =? b) && Z.odd q) then q + 1 else q.

Lemma round_half_even_scale a b c : 0 < b -> 0 < c -> round_half_even (a * c) (b * c) = round_half_even a b.
Proof.
  intros Hb Hc. unfold round_half_even. rewrite Z.div_mul_cancel_r, Z.mul_mod_distr_r by lia.
  replace (b * c <? 2 * (a mod b * c)) with (b <? 2 * (a mod b)) by nia.
  replace (2 * (a mod b * c) =? b * c) with (2 * (a mod b) =? b) by nia. done.
Qed.

Lemma round_half_even_exact a b : 0 < b -> round_half_even (a * b) b = a.
Proof.
  intros Hb. unfold round_half_even. rewrite Z.div_mul, Z.mod_mul by lia. cbv zeta.
  by replace ((b <? 2 * 0) || ((2 * 0 =? b) && Z.odd a)) with false by lia.
Qed.

Lemma carry_loop_spec r : digits10 r ->
  match carry_loop r with
  | Some r' => digits10 r' /\ length r' = length r /\ value 10 r' = value 10 r + 1
  | None => value 10 r + 1 = 10 ^ len r
  end.
Proof.
  induction 1 as [|d r Hd Hr IH]; cbn [carry_loop]; [done|]. destruct (carry_loop r) as [r'|].
  - destruct IH as (H1 & H2 & H3). split; [by constructor|]. split; [cbn; lia|]. rewrite !value_cons, H2, H3 by lia. lia.
  - assert (Hz : map (fun _ : Z => 0) r = replicate (length r) 0) by (clear; induction r; [done|]; cbn; by f_equal).
    destruct (d =? 9) eqn:E.
    + rewrite value_cons by lia. cbn [length]. rewrite Nat2Z.inj_succ, Z.pow_succ_r by lia. lia.
    + rewrite Hz. split; [constructor; [lia|apply Forall_replicate; lia]|]. split; [cbn; by rewrite length_replicate|].
      rewrite !value_cons, value_zeros, length_replicate by lia. lia.
Qed.

Lemma value_split_at d (k : nat) : digits10 d -> (k <= length d)%nat ->
  let u := 10 ^ (len d - Z.of_nat k) in
  value 10 d / u = value 10 (take k d) /\ value 10 d mod u = value 10 (drop k d).
Proof.
  intros Hd Hk. cbv zeta. set (u := 10 ^ (len d - Z.of_nat k)). assert (Hu : 0 < u) by (apply Z.pow_pos_nonneg; lia).
  assert (Hn : len (drop k d) = len d - Z.of_nat k) by (rewrite length_drop; lia).
  assert (Hv : value 10 d = value 10 (drop k d) + value 10 (take k d) * u).
  { rewrite <- (take_drop k d) at 1. rewrite value_app, Hn by lia. unfold u. lia. }
  pose proof (value_bound 10 (drop k d) ltac:(lia) ltac:(by apply Forall_drop)) as Hb. rewrite Hn in Hb. fold u in Hb.
  rewrite Hv, Z.div_add, Z.mod_add, Z.div_small, Z.mod_small by lia. lia.
Qed.

Lemma value_odd l x : Z.odd (value 10 (l ++ [x])) = Z.odd x.
Proof. rewrite value_snoc. rewrite Z.odd_add, Z.odd_mul. simpl. by rewrite andb_false_r. Qed.

(** The decision of [fp_round_digits] for the dropped digits [digit :: rest]. *)
Lemma round_up_spec d (k : nat) digit rest prev :
  digits10 d -> drop k d = digit :: rest -> (rest <> [] -> exists a x, rest = a ++ [x] /\ x <> 0) ->
  (k <> 0%nat -> exists l, take k d = l ++ [prev]) ->
  let u := 10 ^ (len d - Z.of_nat k) in
  let up := if 5 <? digit then true
            else if digit =? 5 then
              if Z.of_nat k + 1 <? len d then true else if 0 <? Z.of_nat k then Z.testbit prev 0 else false
            else false in
  round_half_even (value 10 d) u = value 10 (take k d) + Z.b2z up.
Proof.
  intros Hd Hdrop Hlast Hprev. cbv zeta.
  assert (Hk : (k < length d)%nat) by (pose proof (f_equal length Hdrop) as Hl; rewrite length_drop in Hl; cbn [length] in Hl; lia).
  assert (Hlen : len d = Z.of_nat k + 1 + len rest)
    by (pose proof (f_equal length Hdrop) as Hl; rewrite length_drop in Hl; cbn [length] in Hl; lia).
  destruct (value_split_at d k Hd ltac:(lia)) as [Hq Hr]. unfold round_half_even. rewrite Hq, Hr, Hdrop.
  assert (Hdr : digits10 (digit :: rest)) by (rewrite <- Hdrop; by apply Forall_drop).
  apply Forall_cons in Hdr as [Hdig Hrest]. rewrite value_cons by lia.
  replace (len d - Z.of_nat k) with (Z.succ (len rest)) by lia. rewrite Z.pow_succ_r by lia.
  set (U := 10 ^ len rest). assert (HU : 0 < U) by (apply Z.pow_pos_nonneg; lia).
  pose proof (value_bound 10 rest ltac:(lia) Hrest) as Hvr. fold U in Hvr. set (V := value 10 rest) in *.
  cbv zeta. destruct (5 <? digit) eqn:E5.
  { replace (10 * U <? 2 * (digit * U + V)) with true by nia. cbn. lia. }
  destruct (digit =? 5) eqn:E5'; [|replace (10 * U <? 2 * (digit * U + V)) with false by nia;
    replace (2 * (digit * U + V) =? 10 * U) with false by nia; cbn; lia].
  assert (digit = 5) by lia. subst digit. destruct rest as [|x0 rest0].
  - cbn [length] in Hlen. replace (Z.of_nat k + 1 <? len d) with false by lia.
    assert (V = 0) by (unfold V, value; done). assert (U = 1) by (unfold U; done).
    replace (10 * U <? 2 * (5 * U + V)) with false by lia. replace (2 * (5 * U + V) =? 10 * U) with true by lia. cbn [orb andb].
    destruct k as [|k].
    + by rewrite take_0.
    + replace (0 <? Z.of_nat (S k)) with true by lia. destruct (Hprev ltac:(lia)) as [l Hl]. rewrite Hl, value_odd.
      rewrite Z.bit0_odd. destruct (Z.odd prev); cbn; lia.
  - replace (Z.of_nat k + 1 <? len d) with true by (cbn [length] in Hlen; lia).
    destruct (Hlast ltac:(done)) as (a & x & Hax & Hx). assert (0 < V).
    { unfold V. rewrite Hax in Hrest |- *. rewrite value_snoc. apply Forall_app in Hrest as [Ha Hxx].
      apply Forall_cons in Hxx as [Hx1 _]. pose proof (value_bound 10 a ltac:(lia) Ha). lia. }
    replace (10 * U <? 2 * (5 * U + V)) with true by nia. cbn. lia.
Qed.

(** A number below half the unit rounds to zero. *)
Lemma round_half_even_small a b : 0 <= a -> 2 * a < b -> round_half_even a b = 0.
Proof.
  intros Ha Hb. unfold round_half_even. rewrite Z.div_small, Z.mod_small by lia. cbv zeta.
  by replace ((b <? 2 * a) || ((2 * a =? b) && Z.odd 0)) with false by lia.
Qed.

Lemma round_half_even_1 a : round_half_even a 1 = a.
Proof. pose proof (round_half_even_exact a 1 ltac:(lia)) as H. by rewrite Z.mul_1_r in H. Qed.

(** What [fp_round_digits] promises: the digits kept, as a number, and the place of the last one. *)
Definition rounds_to (o : fp_dec) (k : Z) (rr : fp_round) : Prop :=
  digits10 (fr_r rr) /\ (forall c r, fr_r rr = c :: r -> c <> 0) /\ len (fr_r rr) <= FP_MAXDIG + 1 /\
  fd_x o <= fr_x rr <= fd_x o + 1 /\ fr_x rr - len (fr_r rr) = fd_x o - Z.max 0 (Z.min k (len (fd_d o))) /\
  value 10 (fr_r rr) = round_half_even (value 10 (fd_d o)) (10 ^ Z.max 0 (len (fd_d o) - k)) /\
  (k < 0 -> fr_r rr = []).

Lemma take_head_ne (d : list Z) (k : nat) : (exists c r, d = c :: r /\ c <> 0) -> forall c r, take k d = c :: r -> c <> 0.
Proof. intros (c0 & r0 & -> & Hc) c r H. destruct k; [done|]. cbn in H. by simplify_eq. Qed.

Lemma carry_loop_head c r r' : 0 <= c -> c <> 0 -> carry_loop (c :: r) = Some r' -> forall c' r'', r' = c' :: r'' -> c' <> 0.
Proof.
  intros Hp Hc H c' r'' ->. cbn [carry_loop] in H. destruct (carry_loop r); [by simplify_eq|].
  destruct (c =? 9); simplify_eq. lia.
Qed.

(** Rounding up the kept digits. *)
Lemma round_carry o (k : nat) : dec_ok o -> (k < length (fd_d o))%nat ->
  let r := take k (fd_d o) in
  let rr := match carry_loop r with
            | Some r => mkRound r (fd_x o)
            | None => mkRound (1 :: map (fun _ => 0) r) (fd_x o + 1)
            end in
  digits10 (fr_r rr) /\ (forall c r, fr_r rr = c :: r -> c <> 0) /\ len (fr_r rr) <= FP_MAXDIG + 1 /\
  fd_x o <= fr_x rr <= fd_x o + 1 /\ fr_x rr - len (fr_r rr) = fd_x o - Z.of_nat k /\ value 10 (fr_r rr) = value 10 r + 1.
Proof.
  intros (Hd & Hn & Hh & _) Hk. cbv zeta. assert (Hr : digits10 (take k (fd_d o))) by by apply Forall_take.
  pose proof (take_head_ne _ k Hh) as Hne. assert (Hl : len (take k (fd_d o)) = Z.of_nat k) by (rewrite length_take; lia).
  pose proof (carry_loop_spec _ Hr) as Hc. destruct (carry_loop _) as [r'|] eqn:E; cbn [fr_r fr_x].
  - destruct Hc as (Hd' & Hl' & Hv). rewrite Hl', Hl. split_and!; [done| |lia..].
    destruct (take k (fd_d o)) as [|c r]; [done|]. apply Forall_cons in Hr as [Hc0 _].
    by apply (carry_loop_head c r); [lia|apply (Hne c r)|].
  - assert (Hz : map (fun _ : Z => 0) (take k (fd_d o)) = replicate k 0).
    { rewrite <- (Nat2Z.id k) at 2. rewrite <- Hl, Nat2Z.id. generalize (take k (fd_d o)). clear. induction l; [done|]. cbn. by f_equal. }
    rewrite Hz. cbn [length]. rewrite length_replicate. split_and!; [|by intros c r [= <- _]|lia..|].
    + constructor; [lia|]. apply Forall_replicate. lia.
    + rewrite value_cons, value_zeros, length_replicate by lia. rewrite Hl in Hc. lia.
Qed.

Lemma at_index_drop {A} (d : list A) (j : nat) x rest : drop j d = x :: rest -> at_index d (Z.of_nat j) = Some x.
Proof.
  intros H. unfold at_index. replace (_ <? 0) with false by lia. rewrite Nat2Z.id, <- (Nat.add_0_r j), <- lookup_drop.
  by rewrite H.
Qed.

Lemma take_last (d : list Z) (j : nat) : (j <= length d)%nat ->
  exists prev, (j <> 0%nat -> exists l, take j d = l ++ [prev]) /\
               (0 < Z.of_nat j -> at_index d (Z.of_nat j - 1) = Some prev).
Proof.
  intros Hj. destruct j as [|j]; [exists 0; split; lia|]. destruct (lookup_lt_is_Some_2 d j ltac:(lia)) as [prev Hp].
  exists prev. split.
  - intros _. exists (take j d). by apply take_S_r.
  - intros _. unfold at_index. replace (_ <? 0) with false by lia. by replace (Z.to_nat (Z.of_nat (S j) - 1)) with j by lia.
Qed.

Lemma drop_last (d : list Z) (j : nat) x rest : (exists a y, d = a ++ [y] /\ y <> 0) -> drop j d = x :: rest ->
  rest <> [] -> exists a y, rest = a ++ [y] /\ y <> 0.
Proof.
  intros (a & y & -> & Hy) H Hne. destruct (exists_last Hne) as (b & z & ->). exists b, z. split; [done|].
  assert (E : last (a ++ [y]) = last ((take j (a ++ [y]) ++ x :: b) ++ [z])).
  { rewrite <- (take_drop j (a ++ [y])) at 1. rewrite H. f_equal. by rewrite <- app_assoc. }
  rewrite !last_snoc in E. by simplify_eq.
Qed.

Lemma fp_round_digits_spec o k : dec_ok o -> exists rr, fp_round_digits o k = Some rr /\ rounds_to o k rr.
Proof.
  intros Hok. pose proof Hok as (Hd & Hn & Hh & Hlast). unfold fp_round_digits, rounds_to. set (n := len (fd_d o)).
  pose proof (value_bound 10 (fd_d o) ltac:(lia) Hd) as Hv. fold n in Hv.
  destruct (k <? 0) eqn:Ek.
  { eexists. split; [reflexivity|]. cbn [fr_r fr_x length]. split_and!; [constructor|done|lia..| |done].
    rewrite round_half_even_small; [done|lia|]. replace (Z.max 0 (n - k)) with (n + (- k)) by lia.
    rewrite Z.pow_add_r by lia. assert (10 <= 10 ^ (- k)) by (apply (Z.pow_le_mono_r 10 1); lia). nia. }
  destruct (n <=? k) eqn:Enk.
  { eexists. split; [reflexivity|]. cbn [fr_r fr_x]. replace (k <? n) with false by lia. unfold n.
    rewrite Nat2Z.id, firstn_all. fold n. destruct Hh as (c0 & r0 & Hc & Hc0).
    split_and!; [done|rewrite Hc; by intros c r [= <- _]|lia..| |lia]. replace (Z.max 0 (n - k)) with 0 by lia. by rewrite round_half_even_1. }
  replace (k <? n) with true by lia. set (j := Z.to_nat k). assert (Hj : k = Z.of_nat j) by lia. clearbody j. subst k.
  assert (Hjn : (j < length (fd_d o))%nat) by lia. clear Ek Enk.
  destruct (drop j (fd_d o)) as [|digit rest] eqn:Hdrop.
  { apply (f_equal length) in Hdrop. rewrite length_drop in Hdrop. cbn in Hdrop. lia. }
  rewrite (at_index_drop _ _ _ _ Hdrop). cbn [mbind option_bind]. fold n.
  destruct (take_last (fd_d o) j ltac:(lia)) as (prev & Hprev & Hat).
  pose proof (round_up_spec (fd_d o) j digit rest prev Hd Hdrop (drop_last _ _ _ _ Hlast Hdrop) Hprev) as Hup. cbv zeta in Hup.
  match type of Hup with _ = _ + Z.b2z ?u => set (up := u) in Hup end.
  match goal with |- context [@mbind _ _ _ _ ?f ?e] => replace e with (Some up) end.
  2: { unfold up. fold n. destruct (5 <? digit), (digit =? 5), (Z.of_nat j + 1 <? n), (0 <? Z.of_nat j) eqn:Ej; try done.
    by rewrite Hat by lia. }
  cbn [mbind option_bind]. fold n in Hup. replace (Z.max 0 (n - Z.of_nat j)) with (n - Z.of_nat j) by lia.
  rewrite Hup. replace (Z.max 0 (Z.min (Z.of_nat j) n)) with (Z.of_nat j) by lia.
  clearbody up. destruct up; cbn [negb Z.b2z].
  - pose proof (round_carry o j Hok Hjn) as Hc. cbv zeta in Hc. destruct (carry_loop _); eexists; (split; [reflexivity|]);
      destruct Hc as (? & ? & ? & ? & ? & ?); split_and!; try (done || lia).
  - eexists. split; [reflexivity|]. cbn [fr_r fr_x]. rewrite length_take.
    split_and!; [by apply Forall_take|by apply take_head_ne|lia..].
Qed.

Lemma exponent_step P Q V A N X M : 0 < P -> 0 < Q -> 0 < N <= V -> 0 < A -> N * P = X * Q -> V * P * A = M * Q -> X <= M.
Proof.
  intros HP HQ HN HA H1 H2. assert (N * P <= V * P) by (apply Z.mul_le_mono_nonneg_r; lia).
  assert (V * P * 1 <= V * P * A) by (apply Z.mul_le_mono_nonneg_l; lia). apply (Z.mul_le_mono_pos_r _ _ Q); lia.
Qed.

(** The exponent of a finite double stays in a small range. *)
Lemma dec_exponent o m e2 : dec_ok o -> denotes o m e2 -> 0 < m < 2 ^ 53 -> -1074 <= e2 <= 971 -> -400 <= fd_x o <= 400.
Proof.
  intros (Hd & Hn & (c & r & Hc & Hc0) & _) Hden Hm He. unfold denotes in Hden. cbv zeta in Hden.
  assert (Hv : 10 ^ (len (fd_d o) - 1) <= value 10 (fd_d o) < 10 ^ len (fd_d o)).
  { split; [|by apply value_bound]. rewrite Hc in Hd |- *. apply Forall_cons in Hd as [Hc1 Hr]. rewrite value_cons by lia.
    cbn [length]. replace (Z.of_nat (S (length r)) - 1) with (len r) by lia.
    pose proof (value_bound 10 r ltac:(lia) Hr). pose proof (Z.pow_pos_nonneg 10 (len r) ltac:(lia) ltac:(lia)). nia. }
  assert (Hn1 : 1 <= len (fd_d o)) by (rewrite Hc; cbn [length]; lia). set (n := len (fd_d o)) in *. unfold FP_MAXDIG in Hn.
  set (V := value 10 (fd_d o)) in *. clearbody V n. clear Hc Hd. set (x := fd_x o) in *. clearbody x.
  assert (H2p : 0 < 2 ^ Z.max (- e2) 0 <= 2 ^ 1074) by (split; [apply Z.pow_pos_nonneg; lia|apply Z.pow_le_mono_r; lia]).
  assert (H2q : 0 < 2 ^ Z.max e2 0 <= 2 ^ 971) by (split; [apply Z.pow_pos_nonneg; lia|apply Z.pow_le_mono_r; lia]).
  set (A := 2 ^ Z.max (- e2) 0) in *. set (B := 2 ^ Z.max e2 0) in *. clearbody A B.
  assert (Hbig : 2 ^ 53 * 2 ^ 1074 < 10 ^ 400) by (by vm_compute).
  assert (Hpos : 0 < 10 ^ (n - 1)) by (apply Z.pow_pos_nonneg; lia).
  destruct (decide (400 < x)); [|destruct (decide (x < -400)); [|lia]]; exfalso.
  - assert (HP : 10 ^ (n - 1) * 10 ^ Z.max (x + 1 - n) 0 = 10 ^ x * 10 ^ Z.max (- (x + 1 - n)) 0)
      by (rewrite <- !Z.pow_add_r by lia; f_equal; lia).
    assert (0 < 10 ^ Z.max (x + 1 - n) 0) by (apply Z.pow_pos_nonneg; lia).
    assert (0 < 10 ^ Z.max (- (x + 1 - n)) 0) by (apply Z.pow_pos_nonneg; lia).
    assert (10 ^ 400 <= 10 ^ x) by (apply Z.pow_le_mono_r; lia).
    set (P := 10 ^ Z.max (x + 1 - n) 0) in *. set (Q := 10 ^ Z.max (- (x + 1 - n)) 0) in *.
    assert (10 ^ x <= m * B) by (apply (exponent_step P Q V A (10 ^ (n - 1))); lia).
    assert (m * B < 2 ^ 53 * 2 ^ 1074) by (apply Z.mul_lt_mono_nonneg; [lia..|]; apply (Z.le_lt_trans _ (2 ^ 971)); [lia|by vm_compute]).
    lia.
  - rewrite (Z.max_r (x + 1 - n)), (Z.max_l (- _)), Z.pow_0_r in Hden by lia.
    assert (HQ : 10 ^ n * 10 ^ 400 <= 10 ^ (- (x + 1 - n))) by (rewrite <- Z.pow_add_r by lia; apply Z.pow_le_mono_r; lia).
    set (Q := 10 ^ (- (x + 1 - n))) in *. assert (0 < Q) by (apply Z.pow_pos_nonneg; lia).
    assert (1 * Q <= m * B * Q) by (apply Z.mul_le_mono_nonneg_r; lia).
    assert (V * 1 * A <= 10 ^ n * 2 ^ 1074) by (apply Z.mul_le_mono_nonneg; lia).
    assert (2 ^ 1074 < 10 ^ 400) by (by vm_compute). assert (10 ^ n * 2 ^ 1074 < 10 ^ n * 10 ^ 400) by (apply Z.mul_lt_mono_pos_l; lia).
    lia.
Qed.

(** ** Claims *)

(** Rounding the exact digits of a number to [k] places gives the
    nearest [k]-digit number, ties to even, for every [k], negative or larger
    than the expansion included; the carry out of the first digit moves the
    exponent, the kept digits stay within the array and start with a nonzero
    one. *)
Theorem fp_round_nearest_even o k : dec_ok o -> exists rr, fp_round_digits o k = Some rr /\ rounds_to o k rr.
Proof. exact (fp_round_digits_spec o k). Qed.

Example fp_round_nearest_even_witness :
  exists rr, fp_round_digits (mkDec [9; 9; 5] 2) 2 = Some rr /\ rounds_to (mkDec [9; 9; 5] 2) 2 rr.
Proof.
  apply (fp_round_nearest_even (mkDec [9; 9; 5] 2) 2). split; [repeat constructor; lia|]. split; [done|].
  split; [by exists 9, [9; 5]|]. by exists [9; 9], 5.
Defined.
