(* ===== verification/Format.v ===== *)
(** * The printf engine (lib/moqi_libc/src/format.c)

    The conversions are written once, against the [Writer] interface: what
    they need of the output is to append bytes, to append a run of one
    character, and the error and position of the [fmt_out] behind it.
    [fmt_out] with [out_bytes] and [out_fill] is the implementation of the
    source, a buffer that either truncates or is flushed through a sink
    callback; FormatSim.v gives the interface a second implementation, the
    text itself, and relates the two.

    The format is a byte list up to its NUL and a pointer into it is a suffix.
    A [va_list] is the list of the arguments left, each with the type it was
    passed with; reading one with another type is a fault ([None]).  A string
    argument carries the bytes stored at its address, its NUL included, and
    reading past them is a fault.  What [%n] writes is collected in a list of
    stores.  A [double] is given by its 64 bits. *)

From S2P Require Import Prelude Mem Digits StrFunc FpFmt.

(** ** The output interface *)

Class Writer (O : Type) := {
  w_bytes : O -> list Z -> option O;
  w_fill : O -> Z -> Z -> option O;
  w_err : O -> Z;
  w_fail : O -> Z -> O;
  w_pos : O -> Z }.

Inductive length_mod := LEN_NONE | LEN_HH | LEN_H | LEN_L | LEN_LL | LEN_OTHER.

#[export] Instance length_mod_eq : EqDecision length_mod.
Proof. solve_decision. Defined.

Record spec := mkSpec {
  fs_alt : bool; fs_group : bool; fs_plus : bool; fs_space : bool; fs_left : bool; fs_zero : bool; fs_i18n : bool;
  fs_width : Z; fs_prec : Z; fs_len : length_mod; fs_ldbl : bool }.

Definition len_is_wide (l : length_mod) : bool :=
  match l with LEN_L | LEN_LL | LEN_OTHER => true | _ => false end.

(** [dg[v]] of the digit tables. *)
Definition digit_char (upper : bool) (v : Z) : Z :=
  if v <? 10 then chr "0" + v else if upper then chr "A" + (v - 10) else chr "a" + (v - 10).

(** What is printed in front of the digits: the sign character (0 for none), the padding. *)
Definition sign_char (s : spec) (neg : bool) : Z :=
  if neg then chr "-" else if fs_plus s then chr "+" else if fs_space s then chr " " else 0.
Definition sign_len (sign : Z) : Z := if sign =? 0 then 0 else 1.
Definition pad_to (s : spec) (total : Z) : Z := if total <? fs_width s then fs_width s - total else 0.

(** ** The conversions *)

Section Engine.
Context {O : Type} `{Writer O}.

Definition out_char (o : O) (c : Z) : option O := w_bytes o [c].

Definition char_if (b : bool) (o : O) (c : Z) : option O := if b then out_char o c else Some o.
Definition fill_if (b : bool) (o : O) (c n : Z) : option O := if b then w_fill o c n else Some o.

Fixpoint out_chars (o : O) (cs : list Z) : option O :=
  match cs with
  | [] => Some o
  | c :: cs => o ← out_char o c; out_chars o cs
  end.

Definition out_dec (o : O) (v : Z) : option O := w_bytes o (decimal v).

Definition emit_number (o : O) (s : spec) (signed_conv neg : bool) (mag base : Z) (upper alt : bool) : option O :=
  let tmp := if (mag =? 0) && (fs_prec s =? 0) then [] else map (digit_char upper) (digits_rev base mag) in
  let nd := len tmp in
  let sign := if signed_conv then sign_char s neg else 0 in
  let prefix :=
    if alt && negb (mag =? 0) then
      if base =? 16 then (if upper then str "0X" else str "0x")
      else if base =? 2 then (if upper then str "0B" else str "0b")
      else []
    else [] in
  let zeros := if nd <? fs_prec s then fs_prec s - nd else 0 in
  let zeros :=
    if (base =? 8) && alt && (zeros =? 0) && ((nd =? 0) || negb (default 0 (last tmp) =? chr "0")) then 1 else zeros in
  let total := sign_len sign + len prefix + zeros + nd in
  let extra := pad_to s total in
  let blank := fs_left s || negb (fs_zero s) || (0 <=? fs_prec s) in
  let spaces := if blank then extra else 0 in
  let zfill := if blank then 0 else extra in
  o ← fill_if (negb (fs_left s)) o (chr " ") spaces;
  o ← char_if (negb (sign =? 0)) o sign;
  o ← w_bytes o prefix;
  o ← w_fill o (chr "0") (zfill + zeros);
  o ← out_chars o (rev tmp);
  fill_if (fs_left s) o (chr " ") spaces.

Definition emit_text (o : O) (s : spec) (text : list Z) : option O :=
  let pad := pad_to s (len text) in
  o ← fill_if (negb (fs_left s)) o (chr " ") pad;
  o ← w_bytes o text;
  fill_if (fs_left s) o (chr " ") pad.

(** The bytes of the wide characters, in runs of 64. *)
Fixpoint wide_runs (fuel : nat) (o : O) (w : list Z) : option O :=
  match w, fuel with
  | [], _ => Some o
  | _, 0%nat => None
  | _, S fuel => o ← w_bytes o (map u8 (take 64 w)); wide_runs fuel o (drop 64 w)
  end.

Definition emit_wide (o : O) (s : spec) (w : list Z) : option O :=
  let pad := pad_to s (len w) in
  o ← fill_if (negb (fs_left s)) o (chr " ") pad;
  o ← wide_runs (length w) o w;
  fill_if (fs_left s) o (chr " ") pad.

Definition echo_unknown (o : O) (s : spec) (conv : Z) : option O :=
  o ← out_char o (chr "%");
  o ← char_if (fs_alt s) o (chr "#");
  o ← char_if (fs_group s) o (chr "'");
  o ← (if fs_plus s then out_char o (chr "+") else char_if (fs_space s) o (chr " "));
  o ← char_if (fs_left s) o (chr "-");
  o ← char_if (fs_zero s) o (chr "0");
  o ← char_if (fs_i18n s) o (chr "I");
  o ← (if negb (fs_width s =? 0) then out_dec o (fs_width s) else Some o);
  o ← (if negb (fs_prec s =? -1) then o ← out_char o (chr "."); out_dec o (fs_prec s) else Some o);
  out_char o conv.

Definition null_text : list Z := str "(null)".

(** *** Floating point *)

Definition fp_digit (r : fp_round) (e : Z) : Z :=
  let i := fr_x r - e in
  if (len (fr_r r) =? 0) || (i <? 0) || (len (fr_r r) <=? i) then 0 else default 0 (at_index (fr_r r) i).

(** The digits of an unsigned int: at most ten, so nine divisions. *)
Fixpoint dec_digits_loop (fuel : nat) (v n : Z) : Z :=
  match fuel with
  | 0%nat => n
  | S fuel => if 10 <=? v then dec_digits_loop fuel (v / 10) (n + 1) else n
  end.
Definition dec_digits (v : Z) : Z := dec_digits_loop 9 v 1.

Definition emit_nonfinite (o : O) (s : spec) (upper is_nan : bool) (sign : Z) : option O :=
  let t := if is_nan then (if upper then str "NAN" else str "nan") else (if upper then str "INF" else str "inf") in
  let pad := pad_to s (sign_len sign + 3) in
  o ← fill_if (negb (fs_left s)) o (chr " ") pad;
  o ← char_if (negb (sign =? 0)) o sign;
  o ← w_bytes o t;
  fill_if (fs_left s) o (chr " ") pad.

Definition FRAC_MASK : Z := 2 ^ 52 - 1.
Definition bexp_of (bits : Z) : Z := Z.land (Z.shiftr bits 52) 0x7ff.
Definition frac_of (bits : Z) : Z := Z.land bits FRAC_MASK.

(** The fraction of [%a] without trailing zeros: [nd] digits of it are printed. *)
Fixpoint hex_trim (nd : nat) (fv : Z) : Z :=
  match nd with
  | 0%nat => 0
  | S k => if Z.land (Z.shiftr fv (4 * (13 - Z.of_nat nd))) 0xf =? 0 then hex_trim k fv else Z.of_nat nd
  end.

(** Leading digit, fraction digits as a number of [hp_fvn] digits, and the digits to print. *)
Record hex_parts := mkHex { hp_lead : Z; hp_fv : Z; hp_fvn : Z; hp_nd : Z }.

Definition hex_round (prec M frac : Z) : hex_parts :=
  if prec <? 0 then mkHex (Z.shiftr M 52) frac 13 (hex_trim 13 frac)
  else if 13 <=? prec then mkHex (Z.shiftr M 52) frac 13 prec
  else
    let P := prec in
    let shift := (13 - P) * 4 in
    let q := Z.shiftr M shift in
    let rem := Z.land M (Z.shiftl 1 shift - 1) in
    let half := Z.shiftl 1 (shift - 1) in
    let q := if (half <? rem) || ((rem =? half) && Z.testbit q 0) then q + 1 else q in
    mkHex (Z.shiftr q (4 * P)) (if P =? 0 then 0 else Z.land q (Z.shiftl 1 (4 * P) - 1)) P P.

(** The digits after the point, [k] of them left: [j = nd - k]. *)
Fixpoint hex_chars (k : nat) (o : O) (upper : bool) (h : hex_parts) : option O :=
  match k with
  | 0%nat => Some o
  | S k =>
      let j := hp_nd h - Z.of_nat (S k) in
      let d := if j <? hp_fvn h then Z.land (Z.shiftr (hp_fv h) (4 * (hp_fvn h - 1 - j))) 0xf else 0 in
      o ← out_char o (digit_char upper d);
      hex_chars k o upper h
  end.

Definition emit_hexfloat (o : O) (s : spec) (upper : bool) (sign bits : Z) : option O :=
  let bexp := bexp_of bits in
  let frac := frac_of bits in
  let M := if bexp =? 0 then frac else Z.lor frac (Z.shiftl 1 52) in
  let e := if bexp =? 0 then (if frac =? 0 then 0 else -1022) else bexp - 1023 in
  let h := hex_round (fs_prec s) M frac in
  let nd := hp_nd h in
  let ae := if e <? 0 then - e else e in
  let point := (0 <? nd) || fs_alt s in
  let total := sign_len sign + 2 + 1 + (if point then 1 else 0) + nd + 2 + dec_digits ae in
  let pad := pad_to s total in
  o ← fill_if (negb (fs_left s) && negb (fs_zero s)) o (chr " ") pad;
  o ← char_if (negb (sign =? 0)) o sign;
  o ← out_char o (chr "0");
  o ← out_char o (if upper then chr "X" else chr "x");
  o ← fill_if (negb (fs_left s) && fs_zero s) o (chr "0") pad;
  o ← out_char o (chr "0" + hp_lead h);
  o ← char_if point o (chr ".");
  o ← hex_chars (Z.to_nat nd) o upper h;
  o ← out_char o (if upper then chr "P" else chr "p");
  o ← out_char o (if e <? 0 then chr "-" else chr "+");
  o ← out_dec o ae;
  fill_if (fs_left s) o (chr " ") pad.

(** How a finite number is laid out: the rounded digits, the style, the digits before and after the point, the exponent. *)
Record layout := mkLayout { ly_rr : fp_round; ly_style_e : bool; ly_int : Z; ly_frac : Z; ly_exp : Z }.

(** [%g] without [#] drops the zeros at the end of the fraction. *)
Fixpoint trim_frac (frac_len : nat) (rr : fp_round) (style_e : bool) (exp10 : Z) : Z :=
  match frac_len with
  | 0%nat => 0
  | S k =>
      let ee := if style_e then exp10 - Z.of_nat frac_len else - Z.of_nat frac_len in
      if negb (fp_digit rr ee =? 0) then Z.of_nat frac_len else trim_frac k rr style_e exp10
  end.

Definition round_dec (dec : fp_dec) (k : Z) : option fp_round :=
  if len (fd_d dec) =? 0 then Some (mkRound [] 0) else fp_round_digits dec k.

Definition layout_f (P : Z) (dec : fp_dec) : option layout :=
  rr ← round_dec dec (fd_x dec + 1 + P);
  let int_len := if (0 <? len (fr_r rr)) && (0 <=? fr_x rr) then fr_x rr + 1 else 1 in
  Some (mkLayout rr false int_len P 0).

Definition layout_e (P : Z) (dec : fp_dec) : option layout :=
  rr ← round_dec dec (P + 1);
  Some (mkLayout rr true 1 P (if 0 <? len (fr_r rr) then fr_x rr else 0)).

Definition layout_g (P : Z) (alt : bool) (dec : fp_dec) : option layout :=
  let P := if P =? 0 then 1 else P in
  rr ← round_dec dec P;
  let X := if 0 <? len (fr_r rr) then fr_x rr else 0 in
  let Xpre := if len (fd_d dec) =? 0 then 0 else fd_x dec in
  let fixed := (-4 <=? X) && (X <? P) in
  let int_len := if fixed && (0 <=? X) then X + 1 else 1 in
  let exp10 := if fixed then 0 else X in
  let frac_len :=
    if fixed then P - 1 - X
    else if (-4 <=? Xpre) && (Xpre <? P) then P - 1 - Xpre else P - 1 in
  let frac_len := if alt then frac_len else trim_frac (Z.to_nat frac_len) rr (negb fixed) exp10 in
  Some (mkLayout rr (negb fixed) int_len frac_len exp10).

Definition fp_layout (s : spec) (lc : Z) (dec : fp_dec) : option layout :=
  let P := if fs_prec s <? 0 then 6 else fs_prec s in
  if lc =? chr "f" then layout_f P dec
  else if lc =? chr "e" then layout_e P dec
  else layout_g P (fs_alt s) dec.

(** The digits before the point, [k] of them left. *)
Fixpoint int_chars (k : nat) (o : O) (rr : fp_round) : option O :=
  match k with
  | 0%nat => Some o
  | S t => o ← out_char o (chr "0" + fp_digit rr (Z.of_nat t)); int_chars t o rr
  end.

(** The digits after the point, [k] of them left, the next one in front of 10^[ee]. *)
Fixpoint frac_chars (k : nat) (o : O) (rr : fp_round) (ee : Z) : option O :=
  match k with
  | 0%nat => Some o
  | S k' =>
      let idx := fr_x rr - ee in
      if (len (fr_r rr) =? 0) || (len (fr_r rr) <=? idx) then w_fill o (chr "0") (Z.of_nat k)
      else o ← out_char o (chr "0" + fp_digit rr ee); frac_chars k' o rr (ee - 1)
  end.

Definition emit_exponent (o : O) (upper : bool) (exp10 : Z) : option O :=
  let aexp := if exp10 <? 0 then - exp10 else exp10 in
  o ← out_char o (if upper then chr "E" else chr "e");
  o ← out_char o (if exp10 <? 0 then chr "-" else chr "+");
  o ← char_if (aexp <? 10) o (chr "0");
  out_dec o aexp.

Definition emit_finite (o : O) (s : spec) (upper : bool) (sign : Z) (l : layout) : option O :=
  let point := (0 <? ly_frac l) || fs_alt s in
  let exp10 := ly_exp l in
  let aexp := if exp10 <? 0 then - exp10 else exp10 in
  let explen := if ly_style_e l then 2 + (if dec_digits aexp <? 2 then 2 else dec_digits aexp) else 0 in
  let total := sign_len sign + ly_int l + (if point then 1 else 0) + ly_frac l + explen in
  let pad := pad_to s total in
  o ← fill_if (negb (fs_left s) && negb (fs_zero s)) o (chr " ") pad;
  o ← char_if (negb (sign =? 0)) o sign;
  o ← fill_if (negb (fs_left s) && fs_zero s) o (chr "0") pad;
  o ← (if ly_style_e l then out_char o (chr "0" + fp_digit (ly_rr l) exp10)
       else int_chars (Z.to_nat (ly_int l)) o (ly_rr l));
  o ← char_if point o (chr ".");
  o ← frac_chars (Z.to_nat (ly_frac l)) o (ly_rr l) (if ly_style_e l then exp10 - 1 else -1);
  o ← (if ly_style_e l then emit_exponent o upper exp10 else Some o);
  fill_if (fs_left s) o (chr " ") pad.

Definition is_upper_conv (conv : Z) : bool :=
  (conv =? chr "F") || (conv =? chr "E") || (conv =? chr "G") || (conv =? chr "A").

Definition emit_double (o : O) (s : spec) (conv bits : Z) : option O :=
  let neg := Z.testbit bits 63 in
  let upper := is_upper_conv conv in
  let lc := if upper then conv + 32 else conv in
  let bexp := bexp_of bits in
  let frac := frac_of bits in
  let sign := sign_char s neg in
  if bexp =? 0x7ff then emit_nonfinite o s upper (negb (frac =? 0)) sign
  else if lc =? chr "a" then emit_hexfloat o s upper sign bits
  else
    let m := if bexp =? 0 then frac else Z.lor frac (Z.shiftl 1 52) in
    let e2 := if bexp =? 0 then -1074 else bexp - 1075 in
    dec ← fp_exact m e2;
    l ← fp_layout s lc dec;
    emit_finite o s upper sign l.

(** *** Arguments *)

Inductive arg :=
  | AInt (v : Z)
  | ALong (v : Z)
  | APtr (p : Z) (bytes : list Z)
  | AWide (p : Z) (codes : list Z)
  | ADouble (bits : Z).

Definition va_int (ap : list arg) : option (Z * list arg) :=
  match ap with AInt v :: ap => Some (i32 v, ap) | _ => None end.
Definition va_uint (ap : list arg) : option (Z * list arg) :=
  match ap with AInt v :: ap => Some (u32 v, ap) | _ => None end.
Definition va_long (ap : list arg) : option (Z * list arg) :=
  match ap with ALong v :: ap => Some (i64 v, ap) | _ => None end.
Definition va_ulong (ap : list arg) : option (Z * list arg) :=
  match ap with ALong v :: ap => Some (u64 v, ap) | _ => None end.
Definition va_ptr (ap : list arg) : option (Z * list Z * list arg) :=
  match ap with APtr p bytes :: ap => Some (p, bytes, ap) | _ => None end.
Definition va_wide (ap : list arg) : option (Z * list Z * list arg) :=
  match ap with AWide p codes :: ap => Some (p, codes, ap) | _ => None end.
Definition va_double (ap : list arg) : option (Z * list arg) :=
  match ap with ADouble bits :: ap => Some (u64 bits, ap) | _ => None end.

(** What [%n] writes: [wr_size] bytes of the value at an address. *)
Record write := mkWrite { wr_addr : Z; wr_size : Z; wr_value : Z }.

(** *** Parsing a conversion specification *)

Definition spec0 : spec := mkSpec false false false false false false false 0 (-1) LEN_NONE false.

Definition set_width (s : spec) (w : Z) : spec :=
  mkSpec (fs_alt s) (fs_group s) (fs_plus s) (fs_space s) (fs_left s) (fs_zero s) (fs_i18n s) w (fs_prec s) (fs_len s) (fs_ldbl s).
Definition set_prec (s : spec) (p : Z) : spec :=
  mkSpec (fs_alt s) (fs_group s) (fs_plus s) (fs_space s) (fs_left s) (fs_zero s) (fs_i18n s) (fs_width s) p (fs_len s) (fs_ldbl s).
Definition set_len (s : spec) (l : length_mod) (ldbl : bool) : spec :=
  mkSpec (fs_alt s) (fs_group s) (fs_plus s) (fs_space s) (fs_left s) (fs_zero s) (fs_i18n s) (fs_width s) (fs_prec s) l ldbl.
Definition set_left (s : spec) : spec :=
  mkSpec (fs_alt s) (fs_group s) (fs_plus s) (fs_space s) true (fs_zero s) (fs_i18n s) (fs_width s) (fs_prec s) (fs_len s) (fs_ldbl s).

(** The effect of one flag character; [None]: not a flag. *)
Definition flag (s : spec) (c : Z) : option spec :=
  let 'mkSpec alt group plus space lft zero i18n w p l ld := s in
  if c =? chr "#" then Some (mkSpec true group plus space lft zero i18n w p l ld)
  else if c =? chr "'" then Some (mkSpec alt true plus space lft zero i18n w p l ld)
  else if c =? chr "+" then Some (mkSpec alt group true space lft zero i18n w p l ld)
  else if c =? chr " " then Some (mkSpec alt group plus true lft zero i18n w p l ld)
  else if c =? chr "I" then Some (mkSpec alt group plus space lft zero true w p l ld)
  else if c =? chr "-" then Some (mkSpec alt group plus space true false i18n w p l ld)
  else if c =? chr "0" then Some (mkSpec alt group plus space lft (if lft then zero else true) i18n w p l ld)
  else None.

Fixpoint parse_flags (s : spec) (f : list Z) : spec * list Z :=
  match f with
  | [] => (s, [])
  | c :: f' => match flag s c with Some s => parse_flags s f' | None => (s, f) end
  end.

(** Digits of a width or precision; [None]: the value does not fit an int. *)
Fixpoint parse_count (v : Z) (f : list Z) : option (Z * list Z) :=
  match f with
  | [] => Some (v, [])
  | c :: f' =>
      if (chr "0" <=? c) && (c <=? chr "9") then
        let v := v * 10 + (c - chr "0") in
        if INT_MAX <? v then None else parse_count v f'
      else Some (v, f)
  end.

(** A step of the parse: the errno it fails with, or the specification, the format and the arguments left. *)
Definition parse := (Z + spec * list Z * list arg)%type.

Definition parse_width (s : spec) (f : list Z) (ap : list arg) : option parse :=
  if peek f =? chr "*" then
    '(w, ap) ← va_int ap;
    let s := if w <? 0 then set_width (set_left s) (- w) else set_width s w in
    Some (inr (s, tail f, ap))
  else
    match parse_count 0 f with
    | None => Some (inl EOVERFLOW)
    | Some (w, f) => Some (inr (set_width s w, f, ap))
    end.

Definition parse_prec (s : spec) (f : list Z) (ap : list arg) : option parse :=
  if negb (peek f =? chr ".") then Some (inr (s, f, ap)) else
  let f := tail f in
  if peek f =? chr "*" then
    '(p, ap) ← va_int ap;
    Some (inr (set_prec s (if p <? 0 then -1 else p), tail f, ap))
  else
    match parse_count 0 f with
    | None => Some (inl EOVERFLOW)
    | Some (p, f) => Some (inr (set_prec s p, f, ap))
    end.

Definition parse_len (s : spec) (f : list Z) : spec * list Z :=
  let c := peek f in
  if c =? chr "h" then
    if peek (tail f) =? chr "h" then (set_len s LEN_HH false, tail (tail f)) else (set_len s LEN_H false, tail f)
  else if c =? chr "l" then
    if peek (tail f) =? chr "l" then (set_len s LEN_LL false, tail (tail f)) else (set_len s LEN_L false, tail f)
  else if c =? chr "L" then (set_len s LEN_OTHER true, tail f)
  else if (c =? chr "q") || (c =? chr "z") || (c =? chr "Z") || (c =? chr "j") || (c =? chr "t") then
    (set_len s LEN_OTHER false, tail f)
  else (s, f).

(** The specification behind a '%', up to its conversion character. *)
Definition parse_directive (f : list Z) (ap : list arg) : option parse :=
  let '(s, f) := parse_flags spec0 f in
  r ← parse_width s f ap;
  match r with
  | inl e => Some (inl e)
  | inr (s, f, ap) =>
      r ← parse_prec s f ap;
      match r with
      | inl e => Some (inl e)
      | inr (s, f, ap) =>
          let '(s, f) := parse_len s f in
          if peek f =? 0 then Some (inl EINVAL) else Some (inr (s, f, ap))
      end
  end.

(** *** The conversion characters *)

Definition conv_signed (o : O) (s : spec) (ap : list arg) : option (O * list arg) :=
  '(v, ap) ← match fs_len s with
             | LEN_HH => '(v, ap) ← va_int ap; Some (i8 v, ap)
             | LEN_H => '(v, ap) ← va_int ap; Some (i16 v, ap)
             | LEN_NONE => va_int ap
             | _ => va_long ap
             end;
  let neg := v <? 0 in
  o ← emit_number o s true neg (if neg then u64 (0 - u64 v) else u64 v) 10 false false;
  Some (o, ap).

Definition conv_base (conv : Z) : Z :=
  if conv =? chr "u" then 10 else if conv =? chr "o" then 8
  else if (conv =? chr "b") || (conv =? chr "B") then 2 else 16.

Definition conv_unsigned (o : O) (s : spec) (conv : Z) (ap : list arg) : option (O * list arg) :=
  '(v, ap) ← match fs_len s with
             | LEN_HH => '(v, ap) ← va_uint ap; Some (u8 v, ap)
             | LEN_H => '(v, ap) ← va_uint ap; Some (u16 v, ap)
             | LEN_NONE => va_uint ap
             | _ => va_ulong ap
             end;
  o ← emit_number o s false false v (conv_base conv) ((conv =? chr "X") || (conv =? chr "B")) (fs_alt s);
  Some (o, ap).

Definition conv_char (o : O) (s : spec) (conv : Z) (ap : list arg) : option (O * list arg) :=
  if (conv =? chr "C") || len_is_wide (fs_len s) then
    '(w, ap) ← va_uint ap;
    if 127 <? w then Some (w_fail o EILSEQ, ap)
    else o ← emit_text o s [u8 w]; Some (o, ap)
  else
    '(c, ap) ← va_int ap;
    o ← emit_text o s [u8 c]; Some (o, ap).

(** The length of a string, cut at the precision; [None]: it runs past its memory. *)
Fixpoint text_len (prec n : Z) (t : list Z) : option Z :=
  if (prec <? 0) || (n <? prec) then
    match t with
    | [] => None
    | c :: t => if c =? 0 then Some n else text_len prec (n + 1) t
    end
  else Some n.

(** The same loop over wide characters; [inr tt]: one of them is not ASCII. *)
Fixpoint wide_len (prec n : Z) (t : list Z) : option (Z + unit) :=
  if (prec <? 0) || (n <? prec) then
    match t with
    | [] => None
    | c :: t =>
        if c =? 0 then Some (inl n)
        else if (c <? 0) || (127 <? c) then Some (inr tt) else wide_len prec (n + 1) t
    end
  else Some (inl n).

Definition null_len (s : spec) : nat := if (0 <=? fs_prec s) && (fs_prec s <? 6) then 0 else 6.

Definition conv_string (o : O) (s : spec) (conv : Z) (ap : list arg) : option (O * list arg) :=
  if (conv =? chr "S") || len_is_wide (fs_len s) then
    '(p, w, ap) ← va_wide ap;
    if p =? 0 then o ← emit_text o s (take (null_len s) null_text); Some (o, ap) else
    n ← wide_len (fs_prec s) 0 w;
    match n with
    | inr _ => Some (w_fail o EILSEQ, ap)
    | inl n => o ← emit_wide o s (take (Z.to_nat n) w); Some (o, ap)
    end
  else
    '(p, t, ap) ← va_ptr ap;
    if p =? 0 then o ← emit_text o s (take (null_len s) null_text); Some (o, ap) else
    n ← text_len (fs_prec s) 0 t;
    o ← emit_text o s (take (Z.to_nat n) t); Some (o, ap).

Definition conv_pointer (o : O) (s : spec) (ap : list arg) : option (O * list arg) :=
  '(p, _, ap) ← va_ptr ap;
  o ← (if p =? 0 then emit_text o s (str "(nil)") else emit_number o s true false p 16 false true);
  Some (o, ap).

Definition conv_double (o : O) (s : spec) (conv : Z) (ap : list arg) : option (O * list arg) :=
  if fs_ldbl s then Some (w_fail o EINVAL, ap) else
  '(dv, ap) ← va_double ap;
  o ← emit_double o s conv dv;
  Some (o, ap).

Definition conv_count (o : O) (s : spec) (ap : list arg) : option (write * list arg) :=
  '(p, _, ap) ← va_ptr ap;
  let pos := w_pos o in
  Some (match fs_len s with
        | LEN_HH => mkWrite p 1 (i8 pos)
        | LEN_H => mkWrite p 2 (i16 pos)
        | LEN_NONE => mkWrite p 4 (i32 pos)
        | _ => mkWrite p 8 (i64 pos)
        end, ap).

Definition conv_errno (o : O) (s : spec) (errno : Z) : option O :=
  let t := strerror errno in
  n ← text_len (fs_prec s) 0 (t ++ [0]);
  emit_text o s (take (Z.to_nat n) t).

Definition one_of (c : Z) (l : string) : bool := existsb (Z.eqb c) (str l).

(** The switch over the conversion character: the output, the arguments left and what [%n] stores. *)
Definition convert (o : O) (s : spec) (conv errno : Z) (ap : list arg) : option (O * list arg * list write) :=
  let plain (r : option (O * list arg)) := '(o, ap) ← r; Some (o, ap, []) in
  if one_of conv "di" then plain (conv_signed o s ap)
  else if one_of conv "uoxXbB" then plain (conv_unsigned o s conv ap)
  else if one_of conv "cC" then plain (conv_char o s conv ap)
  else if one_of conv "sS" then plain (conv_string o s conv ap)
  else if conv =? chr "p" then plain (conv_pointer o s ap)
  else if one_of conv "fFeEgGaA" then plain (conv_double o s conv ap)
  else if conv =? chr "n" then '(w, ap) ← conv_count o s ap; Some (o, ap, [w])
  else if conv =? chr "m" then o ← conv_errno o s errno; Some (o, ap, [])
  else if conv =? chr "%" then o ← out_char o (chr "%"); Some (o, ap, [])
  else o ← echo_unknown o s conv; Some (o, ap, []).

(** *** The engine's loop *)

(** The characters up to the next '%' or the end. *)
Fixpoint plain_run (f : list Z) : list Z * list Z :=
  match f with
  | [] => ([], [])
  | c :: f' => if (c =? 0) || (c =? chr "%") then ([], f) else let '(run, f) := plain_run f' in (c :: run, f)
  end.

Fixpoint format_loop (fuel : nat) (errno : Z) (o : O) (f : list Z) (ap : list arg) : option (O * list write) :=
  match fuel with
  | 0%nat => None
  | S fuel =>
      if (peek f =? 0) || negb (w_err o =? 0) then Some (o, [])
      else if negb (peek f =? chr "%") then
        let '(run, f) := plain_run f in
        o ← w_bytes o run; format_loop fuel errno o f ap
      else
        r ← parse_directive (tail f) ap;
        match r with
        | inl e => Some (w_fail o e, [])
        | inr (s, f, ap) =>
            '(o, ap, ws) ← convert o s (peek f) errno ap;
            '(o, ws') ← format_loop fuel errno o (tail f) ap;
            Some (o, ws ++ ws')
        end
  end.

(** Each round consumes a character of the format. *)
Definition format_fuel (f : list Z) : nat := S (length f).

End Engine.

(** ** The output of the source *)

Section Out.
Context {W : Type}.

(** [fo_sink] is the callback, [None] for a NULL one; the context it works on is passed through it. *)
Record fmt_out := mkOut {
  fo_buf : list Z; fo_cap : Z; fo_fill : Z; fo_pos : Z;
  fo_sink : option (W -> list Z -> Z * W); fo_ctx : W; fo_err : Z }.

Definition with_err (o : fmt_out) (e : Z) : fmt_out :=
  mkOut (fo_buf o) (fo_cap o) (fo_fill o) (fo_pos o) (fo_sink o) (fo_ctx o) e.

Definition out_flush (o : fmt_out) : option fmt_out :=
  if negb (fo_err o =? 0) || (fo_fill o =? 0) then Some o else
  sink ← fo_sink o;
  let '(e, ctx) := sink (fo_ctx o) (take (Z.to_nat (fo_fill o)) (fo_buf o)) in
  Some (mkOut (fo_buf o) (fo_cap o) 0 (fo_pos o) (fo_sink o) ctx (if e =? 0 then fo_err o else e)).

Definition out_room (o : fmt_out) (n : Z) : bool * fmt_out :=
  if negb (fo_err o =? 0) then (false, o)
  else if INT_MAX <? fo_pos o + n then (false, with_err o EOVERFLOW)
  else (true, o).

(** Storing bytes at the fill mark, and counting produced characters. *)
Definition buf_put (o : fmt_out) (bytes : list Z) : option fmt_out :=
  buf ← array_write (fo_buf o) (fo_fill o) bytes;
  Some (mkOut buf (fo_cap o) (fo_fill o + len bytes) (fo_pos o) (fo_sink o) (fo_ctx o) (fo_err o)).
Definition add_pos (o : fmt_out) (n : Z) : fmt_out :=
  mkOut (fo_buf o) (fo_cap o) (fo_fill o) (fo_pos o + n) (fo_sink o) (fo_ctx o) (fo_err o).

Fixpoint bytes_loop (fuel : nat) (o : fmt_out) (p : list Z) : option fmt_out :=
  match fuel with
  | 0%nat => None
  | S fuel =>
      if len p =? 0 then Some o else
      let space := fo_cap o - fo_fill o in
      if space =? 0 then
        match fo_sink o with
        | None => Some o
        | Some _ =>
            o ← out_flush o;
            if negb (fo_err o =? 0) then Some o else bytes_loop fuel o p
        end
      else
        let k := if len p <? space then len p else space in
        o ← buf_put o (take (Z.to_nat k) p);
        bytes_loop fuel o (drop (Z.to_nat k) p)
  end.

Fixpoint fill_loop (fuel : nat) (o : fmt_out) (c n : Z) : option fmt_out :=
  match fuel with
  | 0%nat => None
  | S fuel =>
      if n =? 0 then Some o else
      let space := fo_cap o - fo_fill o in
      if space =? 0 then
        match fo_sink o with
        | None => Some o
        | Some _ =>
            o ← out_flush o;
            if negb (fo_err o =? 0) then Some o else fill_loop fuel o c n
        end
      else
        let k := if n <? space then n else space in
        o ← buf_put o (replicate (Z.to_nat k) c);
        fill_loop fuel o c (n - k)
  end.

(** A flush frees [cap] bytes and a write fills what is free, so this many rounds emit [n] bytes. *)
Definition out_fuel (o : fmt_out) (n : Z) : nat := Z.to_nat (2 * ((n + fo_fill o) / fo_cap o) + 2).

Definition out_bytes (o : fmt_out) (p : list Z) : option fmt_out :=
  let '(ok, o) := out_room o (len p) in
  if negb ok then Some o else bytes_loop (out_fuel o (len p)) (add_pos o (len p)) p.

Definition out_fill (o : fmt_out) (c n : Z) : option fmt_out :=
  let '(ok, o) := out_room o n in
  if negb ok then Some o else fill_loop (out_fuel o n) (add_pos o n) c n.

#[export] Instance fmt_out_writer : Writer fmt_out := {
  w_bytes := out_bytes; w_fill := out_fill; w_err := fo_err; w_fail := with_err; w_pos := fo_pos }.

(** What a call leaves behind. *)
Record outcome := mkOutcome { oc_ret : Z; oc_buf : list Z; oc_ctx : W; oc_errno : Z; oc_writes : list write }.

Definition moqi_vformat (buf : list Z) (size : Z) (sink : option (W -> list Z -> Z * W)) (ctx : W) (errno : Z)
    (fmt : list Z) (ap : list arg) : option outcome :=
  let cap := match sink with Some _ => size | None => if 0 <? size then size - 1 else 0 end in
  '(o, ws) ← format_loop (format_fuel fmt) errno (mkOut buf cap 0 0 sink ctx 0) fmt ap;
  o ← match sink with
      | None =>
          if 0 <? size then
            buf ← array_write (fo_buf o) (fo_fill o) [0];
            Some (mkOut buf (fo_cap o) (fo_fill o) (fo_pos o) (fo_sink o) (fo_ctx o) (fo_err o))
          else Some o
      | Some _ => if fo_err o =? 0 then out_flush o else Some o
      end;
  if negb (fo_err o =? 0) then Some (mkOutcome (-1) (fo_buf o) (fo_ctx o) (fo_err o) ws)
  else Some (mkOutcome (i32 (fo_pos o)) (fo_buf o) (fo_ctx o) errno ws).

End Out.
Arguments fmt_out : clear implicits.
Arguments outcome : clear implicits.

(** ** The string functions *)

Definition vsnprintf (buf : list Z) (size errno : Z) (fmt : list Z) (ap : list arg) : option (outcome unit) :=
  moqi_vformat buf size None tt errno fmt ap.
Definition snprintf (buf : list Z) (size errno : Z) (fmt : list Z) (ap : list arg) : option (outcome unit) :=
  vsnprintf buf size errno fmt ap.
Definition vsprintf (buf : list Z) (errno : Z) (fmt : list Z) (ap : list arg) : option (outcome unit) :=
  vsnprintf buf SIZE_MAX errno fmt ap.
Definition sprintf (buf : list Z) (errno : Z) (fmt : list Z) (ap : list arg) : option (outcome unit) :=
  vsprintf buf errno fmt ap.
