(* ===== verification/FormatSim.v ===== *)
(** * The printf engine on two outputs

    The text an engine run produces, as a [Writer] of its own, and the
    simulation that carries a run on the text over to any output that is
    related to it.  The two outputs of the source, a buffer that truncates
    and a buffer flushed through a sink, are shown to be such outputs. *)

From S2P Require Import Prelude Mem Digits StrFunc FpFmt Format.

(** ** The text as an output *)

(** The characters produced and the errno of the first failure. *)
Record text := mkText { tx_out : list Z; tx_err : Z }.

Definition text_bytes (t : text) (p : list Z) : text :=
  if negb (tx_err t =? 0) then t
  else if INT_MAX <? len (tx_out t) + len p then mkText (tx_out t) EOVERFLOW
  else mkText (tx_out t ++ p) 0.

#[export] Instance text_writer : Writer text := {
  w_bytes t p := Some (text_bytes t p);
  w_fill t c n := Some (text_bytes t (replicate (Z.to_nat n) c));
  w_err := tx_err;
  w_fail t e := mkText (tx_out t) e;
  w_pos t := len (tx_out t) }.

(** What a call of the engine prints, the errno it fails with, and what its [%n] store. *)
Definition format_text (errno : Z) (fmt : list Z) (ap : list arg) : option (text * list write) :=
  format_loop (format_fuel fmt) errno (mkText [] 0) fmt ap.

(** ** Simulation *)

(** Whenever the run on the right has a result, the one on the left has a related one. *)
Definition simulated {A B} (R : A -> B -> Prop) (ra : option A) (rb : option B) : Prop :=
  forall b, rb = Some b -> exists a, ra = Some a /\ R a b.

Class WriterSim {A B} `{Writer A, Writer B} (R : A -> B -> Prop) : Prop := {
  sim_bytes a b p : R a b -> simulated R (w_bytes a p) (w_bytes b p);
  sim_fill a b c n : R a b -> 0 <= n -> simulated R (w_fill a c n) (w_fill b c n);
  sim_err a b : R a b -> w_err a = w_err b;
  sim_fail a b e : R a b -> R (w_fail a e) (w_fail b e);
  sim_pos a b : R a b -> w_pos a = w_pos b }.

Lemma simulated_ret {A B} (R : A -> B -> Prop) a b : R a b -> simulated R (Some a) (Some b).
Proof. intros H b' [= <-]. by exists a. Qed.

Lemma simulated_none {A B} (R : A -> B -> Prop) ra : simulated R ra None.
Proof. done. Qed.

Lemma simulated_eq {A} (r : option A) : simulated eq r r.
Proof. intros b ->. by exists b. Qed.

Lemma simulated_bind {A B A' B'} (R : A -> B -> Prop) (Q : A' -> B' -> Prop) ra rb ka kb :
  simulated R ra rb -> (forall a b, R a b -> simulated Q (ka a) (kb b)) -> simulated Q (ra ≫= ka) (rb ≫= kb).
Proof.
  intros H Hk b' Hb. destruct rb as [b|]; [|done]. destruct (H b eq_refl) as (a & -> & Hab). by apply (Hk a b).
Qed.

Lemma simulated_bind_eq {A A' B'} (Q : A' -> B' -> Prop) (r : option A) ka kb :
  (forall a, simulated Q (ka a) (kb a)) -> simulated Q (r ≫= ka) (r ≫= kb).
Proof. intros H. destruct r; [apply H|done]. Qed.

Lemma simulated_if {A B} (R : A -> B -> Prop) (c : bool) ra ra' rb rb' :
  simulated R ra rb -> simulated R ra' rb' -> simulated R (if c then ra else ra') (if c then rb else rb').
Proof. by destruct c. Qed.

Create HintDb sim discriminated.
#[export] Hint Resolve sim_bytes sim_fill simulated_ret : sim.

Lemma pad_to_nonneg s total : 0 <= pad_to s total.
Proof. unfold pad_to. bcases. Qed.
#[export] Hint Resolve pad_to_nonneg : sim.

(** One step along the two runs: the next call is related, and so is the rest. *)
Ltac sim_step :=
  lazymatch goal with
  | |- simulated _ (if _ then _ else _) (if _ then _ else _) => apply simulated_if
  | |- simulated _ (_ ≫= _) (_ ≫= _) =>
      first [apply simulated_bind_eq; intros ?
            |eapply simulated_bind; [solve [eauto with sim]|intros ? ? ?]]
  end.
Ltac sim := repeat sim_step; eauto with sim.

Section Sim.
Context {A B : Type} `{Writer A, Writer B} (R : A -> B -> Prop) `{!WriterSim R}.

Lemma sim_char a b c : R a b -> simulated R (out_char a c) (out_char b c).
Proof. unfold out_char. auto with sim. Qed.
#[local] Hint Resolve sim_char : sim.

Lemma sim_char_if a b c k : R a b -> simulated R (char_if c a k) (char_if c b k).
Proof. unfold char_if. destruct c; auto with sim. Qed.

Lemma sim_fill_if a b c k n : R a b -> 0 <= n -> simulated R (fill_if c a k n) (fill_if c b k n).
Proof. unfold fill_if. destruct c; auto with sim. Qed.
#[local] Hint Resolve sim_char_if sim_fill_if : sim.

Lemma sim_chars cs : forall a b, R a b -> simulated R (out_chars a cs) (out_chars b cs).
Proof. induction cs; intros a' b' HR; cbn [out_chars]; sim. Qed.

Lemma sim_dec a b v : R a b -> simulated R (out_dec a v) (out_dec b v).
Proof. unfold out_dec. auto with sim. Qed.
#[local] Hint Resolve sim_chars sim_dec : sim.

Lemma sim_number a b s sc neg mag base up alt :
  R a b -> simulated R (emit_number a s sc neg mag base up alt) (emit_number b s sc neg mag base up alt).
Proof.
  intros HR. unfold emit_number. generalize (digits_rev base mag). intros ds. cbv zeta.
  set (tmp := if _ && _ then [] else map _ ds). set (z := if _ && _ && _ && _ then 1 else _). clearbody tmp.
  assert (0 <= z) by (unfold z; repeat case_match; lia).
  set (p := pad_to s _). assert (0 <= p) by apply pad_to_nonneg. clearbody z p.
  set (bl := fs_left s || _ || _). clearbody bl.
  assert (0 <= (if bl then p else 0)) by (destruct bl; lia). assert (0 <= (if bl then 0 else p) + z) by (destruct bl; lia). sim.
Qed.

Lemma sim_text a b s t : R a b -> simulated R (emit_text a s t) (emit_text b s t).
Proof. intros HR. unfold emit_text. cbv zeta. sim. Qed.

Lemma sim_runs k : forall a b w, R a b -> simulated R (wide_runs k a w) (wide_runs k b w).
Proof. induction k as [|k IH]; intros a b [|c w] HR; cbn [wide_runs]; sim. done. Qed.
#[local] Hint Resolve sim_number sim_text sim_runs : sim.

Lemma sim_wide a b s w : R a b -> simulated R (emit_wide a s w) (emit_wide b s w).
Proof. intros HR. unfold emit_wide. cbv zeta. sim. Qed.

Lemma sim_echo a b s c : R a b -> simulated R (echo_unknown a s c) (echo_unknown b s c).
Proof.
  intros HR. unfold echo_unknown. do 3 sim_step.
  eapply simulated_bind; [apply simulated_if; auto with sim|intros ? ? ?]. do 3 sim_step.
  eapply simulated_bind; [apply simulated_if; auto with sim|intros ? ? ?].
  eapply simulated_bind; [apply simulated_if; [sim|auto with sim]|intros ? ? ?]. sim.
Qed.

Lemma sim_nonfinite a b s up nan sg : R a b -> simulated R (emit_nonfinite a s up nan sg) (emit_nonfinite b s up nan sg).
Proof. intros HR. unfold emit_nonfinite. cbv zeta. sim. Qed.

Lemma sim_hex_chars k : forall a b up h, R a b -> simulated R (hex_chars k a up h) (hex_chars k b up h).
Proof. induction k; intros a b up h HR; cbn [hex_chars]; cbv zeta; sim. Qed.
#[local] Hint Resolve sim_wide sim_echo sim_nonfinite sim_hex_chars : sim.

Lemma sim_hexfloat a b s up sg bits : R a b -> simulated R (emit_hexfloat a s up sg bits) (emit_hexfloat b s up sg bits).
Proof. intros HR. unfold emit_hexfloat. cbv zeta. sim. Qed.

Lemma sim_int_chars k : forall a b rr, R a b -> simulated R (int_chars k a rr) (int_chars k b rr).
Proof. induction k; intros a b rr HR; cbn [int_chars]; sim. Qed.

Lemma sim_frac_chars k : forall a b rr ee, R a b -> simulated R (frac_chars k a rr ee) (frac_chars k b rr ee).
Proof.
  induction k; intros a b rr ee HR; cbn [frac_chars]; cbv zeta; sim. apply sim_fill; [done|lia].
Qed.

Lemma sim_exponent a b up x : R a b -> simulated R (emit_exponent a up x) (emit_exponent b up x).
Proof. intros HR. unfold emit_exponent. cbv zeta. sim. Qed.
#[local] Hint Resolve sim_hexfloat sim_int_chars sim_frac_chars sim_exponent : sim.

Lemma sim_finite a b s up sg l : R a b -> simulated R (emit_finite a s up sg l) (emit_finite b s up sg l).
Proof.
  intros HR. unfold emit_finite. cbv zeta. do 3 sim_step.
  eapply simulated_bind; [apply simulated_if; auto with sim|intros ? ? ?]. do 2 sim_step.
  eapply simulated_bind; [apply simulated_if; auto with sim|intros ? ? ?]. sim.
Qed.
#[local] Hint Resolve sim_finite : sim.

Lemma sim_double a b s c bits : R a b -> simulated R (emit_double a s c bits) (emit_double b s c bits).
Proof. intros HR. unfold emit_double. cbv zeta. sim. Qed.
#[local] Hint Resolve sim_double : sim.

(** Outputs are related, whatever comes with them is the same. *)
Definition with_same {X} (p : A * X) (q : B * X) : Prop := R p.1 q.1 /\ p.2 = q.2.

Lemma sim_pair {X} a b (x : X) : R a b -> simulated with_same (Some (a, x)) (Some (b, x)).
Proof. intros HR. by apply simulated_ret. Qed.

Lemma sim_failed {X} a b e (x : X) : R a b -> simulated with_same (Some (w_fail a e, x)) (Some (w_fail b e, x)).
Proof. intros HR. by apply sim_pair, sim_fail. Qed.
#[local] Hint Resolve sim_pair sim_failed : sim.

(** The result of an emitter, paired with the arguments left. *)
Lemma sim_then {X} ra rb (x : X) : simulated R ra rb ->
  simulated with_same (o ← ra; Some (o, x)) (o ← rb; Some (o, x)).
Proof. intros H1. eapply simulated_bind; [exact H1|]. auto with sim. Qed.
#[local] Hint Resolve sim_then : sim.

Lemma sim_signed a b s ap : R a b -> simulated with_same (conv_signed a s ap) (conv_signed b s ap).
Proof. intros HR. unfold conv_signed. apply simulated_bind_eq. intros [v ap']. cbv zeta. auto with sim. Qed.

Lemma sim_unsigned a b s c ap : R a b -> simulated with_same (conv_unsigned a s c ap) (conv_unsigned b s c ap).
Proof. intros HR. unfold conv_unsigned. apply simulated_bind_eq. intros [v ap']. cbv zeta. auto with sim. Qed.

Lemma sim_conv_char a b s c ap : R a b -> simulated with_same (conv_char a s c ap) (conv_char b s c ap).
Proof.
  intros HR. unfold conv_char. apply simulated_if; apply simulated_bind_eq; intros [v ap']; [|auto with sim].
  apply simulated_if; auto with sim.
Qed.

Lemma sim_string a b s c ap : R a b -> simulated with_same (conv_string a s c ap) (conv_string b s c ap).
Proof.
  intros HR. unfold conv_string.
  apply simulated_if; apply simulated_bind_eq; intros [[p w] ap']; (apply simulated_if; [auto with sim|]);
    apply simulated_bind_eq; [intros [n|[]]|intros n]; auto with sim.
Qed.

Lemma sim_pointer a b s ap : R a b -> simulated with_same (conv_pointer a s ap) (conv_pointer b s ap).
Proof.
  intros HR. unfold conv_pointer. apply simulated_bind_eq. intros [[p w] ap']. apply sim_then, simulated_if; auto with sim.
Qed.

Lemma sim_conv_double a b s c ap : R a b -> simulated with_same (conv_double a s c ap) (conv_double b s c ap).
Proof.
  intros HR. unfold conv_double. apply simulated_if; [auto with sim|]. apply simulated_bind_eq. intros [v ap']. auto with sim.
Qed.

Lemma sim_count a b s ap : R a b -> conv_count a s ap = conv_count b s ap.
Proof. intros HR. unfold conv_count. by rewrite (sim_pos a b HR). Qed.

Lemma sim_errno a b s e : R a b -> simulated R (conv_errno a s e) (conv_errno b s e).
Proof. intros HR. unfold conv_errno. cbv zeta. apply simulated_bind_eq. auto with sim. Qed.
#[local] Hint Resolve sim_signed sim_unsigned sim_conv_char sim_string sim_pointer sim_conv_double sim_errno : sim.

Definition converted (p : A * list arg * list write) (q : B * list arg * list write) : Prop := with_same p.1 q.1 /\ p.2 = q.2.

Lemma sim_convert a b s c e ap : R a b -> simulated converted (convert a s c e ap) (convert b s c e ap).
Proof.
  intros HR. unfold convert. cbv zeta.
  repeat (apply simulated_if; [first [
    eapply simulated_bind; [eauto with sim|]; intros [x y] [x' y'] [Hx Hy]; cbn in *; subst; by apply simulated_ret|idtac]|]).
  - rewrite (sim_count a b s ap HR). apply simulated_bind_eq. intros [w ap']. by apply simulated_ret.
  - eapply simulated_bind; [by apply sim_errno|]. intros. by apply simulated_ret.
  - eapply simulated_bind; [by apply sim_char|]. intros. by apply simulated_ret.
  - eapply simulated_bind; [by apply sim_echo|]. intros. by apply simulated_ret.
Qed.

Lemma sim_loop k : forall e a b f ap, R a b -> simulated with_same (format_loop k e a f ap) (format_loop k e b f ap).
Proof.
  induction k as [|k IH]; intros e a b f ap HR; cbn [format_loop]; [done|]. rewrite (sim_err a b HR).
  apply simulated_if; [auto with sim|]. apply simulated_if.
  - destruct (plain_run f) as [run f']. eapply simulated_bind; [by apply sim_bytes|]. auto.
  - apply simulated_bind_eq. intros [err|[[s f'] ap']]; [auto with sim|].
    eapply simulated_bind; [by apply sim_convert|]. intros [[x y] z] [[x' y'] z'] [[H1 H2] H3]. cbn in H1, H2, H3. subst.
    eapply simulated_bind; [by apply IH|]. intros [u v] [u' v'] [H4 H5]. cbn in H4, H5. subst. auto with sim.
Qed.
End Sim.

(** ** The outputs of the source *)

(** The fill mark stays within the capacity. *)
Definition in_cap {W} (o : fmt_out W) : Prop := 0 <= fo_fill o <= fo_cap o.

Lemma flush_in_cap {W} (o o' : fmt_out W) : in_cap o -> out_flush o = Some o' -> in_cap o' /\ fo_cap o' = fo_cap o.
Proof.
  intros Hc. unfold out_flush. destruct (_ || _); [by intros [= <-]|]. destruct (fo_sink o) as [sink|]; [|done].
  cbn [mbind option_bind]. destruct (sink _ _) as [e ctx]. intros [= <-]. unfold in_cap in *. cbn. split; [lia|done].
Qed.

Lemma buf_put_spec {W} (o : fmt_out W) p : 0 <= fo_fill o -> fo_fill o + len p <= len (fo_buf o) ->
  let i := Z.to_nat (fo_fill o) in
  buf_put o p = Some (mkOut (take i (fo_buf o) ++ p ++ drop (i + length p) (fo_buf o)) (fo_cap o) (fo_fill o + len p)
                        (fo_pos o) (fo_sink o) (fo_ctx o) (fo_err o)).
Proof. intros H1 H2. unfold buf_put, array_write. by replace (_ && _) with true by lia. Qed.

Lemma buf_put_in_cap {W} (o o' : fmt_out W) p : buf_put o p = Some o' -> fo_cap o' = fo_cap o /\ fo_fill o' = fo_fill o + len p.
Proof. unfold buf_put. destruct (array_write _ _ _); [|done]. cbn. by intros [= <-]. Qed.

(** Writing a run of one character is writing its bytes. *)
Lemma fill_loop_bytes {W} k : forall (o : fmt_out W) c n,
  in_cap o -> 0 <= n -> fill_loop k o c n = bytes_loop k o (replicate (Z.to_nat n) c).
Proof.
  induction k as [|k IH]; intros o c n Hc Hn; cbn [fill_loop bytes_loop]; [done|].
  rewrite length_replicate, Z2Nat.id by lia. destruct (n =? 0); [done|]. cbv zeta. destruct (_ =? 0) eqn:E.
  - destruct (fo_sink o); [|done]. destruct (out_flush o) as [o'|] eqn:Ef; [|done]. cbn [mbind option_bind].
    destruct (negb _); [done|]. apply IH; [by apply (flush_in_cap o)|lia].
  - set (j := if n <? _ then n else _). assert (Hj : 0 <= j <= n /\ fo_fill o + j <= fo_cap o) by (unfold in_cap in Hc; subst j; bcases).
    clearbody j. rewrite take_replicate, drop_replicate. replace (Z.to_nat j `min` Z.to_nat n)%nat with (Z.to_nat j) by lia.
    destruct (buf_put o _) as [o'|] eqn:Ep; [|done]. cbn [mbind option_bind]. apply buf_put_in_cap in Ep as [Ec Ef].
    rewrite length_replicate in Ef. rewrite IH; [do 2 f_equal; lia|unfold in_cap in *; lia|lia].
Qed.

Lemma out_fill_bytes {W} (o : fmt_out W) c n :
  in_cap o -> 0 <= n -> out_fill o c n = out_bytes o (replicate (Z.to_nat n) c).
Proof.
  intros Hc Hn. unfold out_fill, out_bytes. rewrite length_replicate, Z2Nat.id by lia.
  destruct (out_room o n) as [ok o'] eqn:E. destruct ok; [|done]. cbn [negb].
  assert (o' = o) as -> by (unfold out_room in E; repeat case_match; by simplify_eq). by apply fill_loop_bytes.
Qed.

(** An output that keeps the text so far follows the text writer, once its loop does. *)
Lemma writer_sim {W} (R : fmt_out W -> text -> Prop) :
  (forall o t, R o t -> in_cap o /\ fo_err o = tx_err t /\ fo_pos o = len (tx_out t)) ->
  (forall o t e, R o t -> R (with_err o e) (mkText (tx_out t) e)) ->
  (forall o t p, R o t -> tx_err t = 0 ->
     exists o', bytes_loop (out_fuel o (len p)) (add_pos o (len p)) p = Some o' /\ R o' (mkText (tx_out t ++ p) 0)) ->
  WriterSim R.
Proof.
  intros Hst Herr Hloop.
  assert (Hb : forall o t p, R o t -> simulated R (out_bytes o p) (Some (text_bytes t p))).
  { intros o t p HR b [= <-]. destruct (Hst o t HR) as (_ & He & Hp). unfold out_bytes, out_room, text_bytes.
    rewrite He, Hp. destruct (negb (tx_err t =? 0)) eqn:E; [by exists o|].
    destruct (INT_MAX <? _); cbn [negb]; [eexists; split; [done|by apply Herr]|]. apply Hloop; [done|lia]. }
  split; cbn [w_bytes w_fill w_err w_fail w_pos fmt_out_writer text_writer].
  - exact Hb.
  - intros o t c n HR Hn. rewrite out_fill_bytes; [by apply Hb|by apply (Hst o t)|done].
  - intros o t HR. by apply (Hst o t).
  - auto.
  - intros o t HR. by apply (Hst o t).
Qed.

(** *** A buffer that truncates *)

Definition buffered (buf0 : list Z) (cap : Z) (o : fmt_out unit) (t : text) : Prop :=
  let shown := take (Z.to_nat cap) (tx_out t) in
  o = mkOut (shown ++ drop (length shown) buf0) cap (len shown) (len (tx_out t)) None tt (tx_err t).

Lemma buf_put_shown (shown buf0 p : list Z) cap n e : (length shown + length p <= length buf0)%nat ->
  buf_put (mkOut (W := unit) (shown ++ drop (length shown) buf0) cap (len shown) n None tt e) p =
  Some (mkOut ((shown ++ p) ++ drop (length (shown ++ p)) buf0) cap (len (shown ++ p)) n None tt e).
Proof.
  intros H. rewrite buf_put_spec; cbn [fo_fill fo_buf fo_cap fo_pos fo_sink fo_ctx fo_err];
    [|lia|rewrite length_app, length_drop; lia].
  rewrite Nat2Z.id, take_app_length, drop_app_ge, drop_drop, length_app, Nat2Z.inj_add, <- app_assoc by lia.
  by replace (length shown + (length shown + length p - length shown))%nat with (length shown + length p)%nat by lia.
Qed.

Lemma truncating_loop k buf0 cap out (p : list Z) n e : 0 <= cap <= len buf0 ->
  let shown := take (Z.to_nat cap) out in
  let shown' := take (Z.to_nat cap) (out ++ p) in
  bytes_loop (S (S k)) (mkOut (W := unit) (shown ++ drop (length shown) buf0) cap (len shown) n None tt e) p =
  Some (mkOut (shown' ++ drop (length shown') buf0) cap (len shown') n None tt e).
Proof.
  intros Hcap shown shown'. assert (Hs : shown' = shown ++ take (Z.to_nat cap - length out) p) by apply take_app.
  assert (Hl : length shown = (Z.to_nat cap `min` length out)%nat) by apply length_take.
  cbn [bytes_loop]. destruct (len p =? 0) eqn:Ep.
  { destruct p; [|done]. rewrite take_nil, app_nil_r in Hs. by rewrite Hs. }
  cbn [fo_cap fo_fill fo_sink fo_err]. cbv zeta. destruct (cap - len shown =? 0) eqn:Es.
  { replace (Z.to_nat cap - length out)%nat with 0%nat in Hs by lia. rewrite take_0, app_nil_r in Hs. by rewrite Hs. }
  set (j := if len p <? _ then _ else _). assert (Hj : Z.to_nat j = ((Z.to_nat cap - length out) `min` length p)%nat)
    by (subst j; bcases).
  assert (Hq : take (Z.to_nat j) p = take (Z.to_nat cap - length out) p).
  { rewrite Hj. destruct (decide (length p <= Z.to_nat cap - length out)%nat); [|by rewrite Nat.min_l by lia].
    rewrite Nat.min_r by lia. by rewrite firstn_all, take_ge by lia. }
  assert (Hlq : length (take (Z.to_nat j) p) = Z.to_nat j) by (rewrite length_take; lia).
  rewrite <- Hq in Hs. rewrite buf_put_shown by lia. rewrite <- Hs. cbn [mbind option_bind bytes_loop].
  destruct (len (drop (Z.to_nat j) p) =? 0) eqn:Ed; [done|]. rewrite length_drop in Ed.
  cbn [fo_cap fo_fill fo_sink]. cbv zeta. replace (cap - len shown' =? 0) with true; [done|].
  rewrite Hs, length_app, Hlq. lia.
Qed.

Lemma buffered_sim buf0 cap : 0 <= cap <= len buf0 -> WriterSim (buffered buf0 cap).
Proof.
  intros Hcap. apply writer_sim.
  - intros o t ->. unfold in_cap. cbn. split; [rewrite length_take; lia|done].
  - intros o t e ->. done.
  - intros o t p -> Ht. eexists. split; [|reflexivity]. unfold out_fuel. cbn [fo_fill fo_cap]. set (n := 2 * _ + 2).
    assert (2 <= n) by (assert (0 <= (len p + len (take (Z.to_nat cap) (tx_out t))) / cap); [apply Z_div_nonneg_nonneg; lia|lia]).
    replace (Z.to_nat n) with (S (S (Z.to_nat (n - 2)))) by lia. unfold add_pos.
    cbn [fo_buf fo_cap fo_fill fo_pos fo_sink fo_ctx fo_err]. rewrite truncating_loop by done.
    cbn [tx_out tx_err]. by rewrite Ht, length_app, Nat2Z.inj_add.
Qed.

(** *** A buffer flushed through a sink *)

Section Sink.
Context {W : Type} (sink : W -> list Z -> Z * W) (took : list (list Z) -> W -> Prop) (cap blen : Z).

(** A sink that takes every chunk; [took cs w] says that [cs] are the chunks that led to [w]. *)
Definition sink_ok : Prop := forall cs w p, took cs w -> exists w', sink w p = (0, w') /\ took (cs ++ [p]) w'.

Hypothesis Hsink : sink_ok.
Hypothesis Hcap : 0 < cap <= blen.

(** The chunks so far and the bytes waiting in the buffer are the text. *)
Definition holding (o : fmt_out W) (out : list Z) : Prop :=
  fo_sink o = Some sink /\ fo_cap o = cap /\ in_cap o /\ len (fo_buf o) = blen /\
  exists chunks, took chunks (fo_ctx o) /\ Forall (fun c => 0 < len c <= cap) chunks /\
    concat chunks ++ take (Z.to_nat (fo_fill o)) (fo_buf o) = out.

Lemma flush_holding o out : holding o out -> fo_err o = 0 ->
  exists o', out_flush o = Some o' /\ holding o' out /\ fo_fill o' = 0 /\ fo_err o' = 0 /\ fo_pos o' = fo_pos o.
Proof.
  intros (Hs & Hc & Hin & Hl & chunks & Hlog & Hch & Hout) He. unfold out_flush. rewrite He. cbn [negb orb Z.eqb].
  destruct (fo_fill o =? 0) eqn:Ef.
  { exists o. split; [done|]. split; [|split; [lia|done]]. unfold holding. split_and!; [done..|]. by exists chunks. }
  rewrite Hs. cbn [mbind option_bind]. destruct (Hsink chunks (fo_ctx o) (take (Z.to_nat (fo_fill o)) (fo_buf o)) Hlog) as (w' & -> & Hw).
  eexists. split; [reflexivity|]. unfold holding, in_cap in *. cbn [fo_sink fo_cap fo_fill fo_buf fo_ctx fo_err fo_pos Z.eqb].
  split_and!; [done|done|lia|lia|done| |done..].
  exists (chunks ++ [take (Z.to_nat (fo_fill o)) (fo_buf o)]). split; [done|].
  split; [apply Forall_app; split; [done|]; constructor; [rewrite length_take; lia|done]|].
  rewrite concat_app. cbn [concat]. by rewrite !app_nil_r.
Qed.

Lemma put_holding o out p : holding o out -> fo_fill o + len p <= cap ->
  exists o', buf_put o p = Some o' /\ holding o' (out ++ p) /\ fo_fill o' = fo_fill o + len p /\
    fo_err o' = fo_err o /\ fo_pos o' = fo_pos o.
Proof.
  intros (Hs & Hc & Hin & Hl & chunks & Hlog & Hch & Hout) Hp. unfold in_cap in Hin. rewrite buf_put_spec by lia.
  eexists. split; [reflexivity|]. unfold holding, in_cap. cbn [fo_sink fo_cap fo_fill fo_buf fo_ctx fo_err fo_pos].
  split_and!; [done|done|lia|lia| | |done..].
  - rewrite !length_app, length_take, length_drop. lia.
  - exists chunks. split_and!; [done..|]. rewrite <- Hout, <- app_assoc. f_equal.
    rewrite take_app, take_take, length_take.
    replace (Z.to_nat (fo_fill o + len p) `min` Z.to_nat (fo_fill o))%nat with (Z.to_nat (fo_fill o)) by lia. f_equal.
    replace (Z.to_nat (fo_fill o + len p) - Z.to_nat (fo_fill o) `min` length (fo_buf o))%nat with (length p) by lia.
    by rewrite take_app_length.
Qed.

(** The rounds left: two for every full buffer, one for the free part. *)
Definition rounds (n fill : Z) : Z :=
  if n =? 0 then 1 else 2 * ((n + fill) / cap) + (if fill <? cap then 1 else 0) + 1.

Lemma sink_loop k : forall o out p, holding o out -> fo_err o = 0 -> rounds (len p) (fo_fill o) <= Z.of_nat k ->
  exists o', bytes_loop k o p = Some o' /\ holding o' (out ++ p) /\ fo_err o' = 0 /\ fo_pos o' = fo_pos o.
Proof.
  induction k as [|k IH]; intros o out p Ho He Hk; pose proof Ho as (Hs & Hc & Hin & Hl & _); unfold in_cap in Hin.
  all: assert (0 <= (len p + fo_fill o) / cap) by (apply Z_div_nonneg_nonneg; lia); unfold rounds in Hk.
  { bcases_in Hk. }
  cbn [bytes_loop]. destruct (len p =? 0) eqn:Ep.
  { exists o. split; [done|]. destruct p; [by rewrite app_nil_r|done]. }
  cbv zeta. rewrite Hs, Hc. destruct (cap - fo_fill o =? 0) eqn:Es.
  - destruct (flush_holding o out Ho He) as (o' & -> & Ho' & Hf & He' & Hp). cbn [mbind option_bind]. rewrite He'. cbn [negb Z.eqb].
    rewrite <- Hp. apply IH; [done..|]. unfold rounds. rewrite Hf, Ep. replace (0 <? cap) with true by lia.
    replace (fo_fill o <? cap) with false in Hk by lia. replace (len p + fo_fill o) with (len p + 0 + 1 * cap) in Hk by lia.
    rewrite Z.div_add in Hk by lia. lia.
  - set (j := if len p <? _ then _ else _). assert (Hj : 0 < j <= len p /\ j <= cap - fo_fill o /\ (j = len p \/ j = cap - fo_fill o))
      by (subst j; bcases).
    clearbody j. assert (Hlt : len (take (Z.to_nat j) p) = j) by (rewrite length_take; lia).
    destruct (put_holding o out (take (Z.to_nat j) p) Ho ltac:(lia)) as (o' & -> & Ho' & Hf & He' & Hp). cbn [mbind option_bind].
    replace (fo_fill o <? cap) with true in Hk by lia.
    destruct (IH o' _ (drop (Z.to_nat j) p) Ho' ltac:(lia)) as (o2 & Hb & H2 & H3 & H4).
    + rewrite Hf, Hlt, length_drop. unfold rounds. destruct (Z.of_nat (length p - Z.to_nat j) =? 0) eqn:En; [lia|].
      replace (Z.of_nat (length p - Z.to_nat j) + (fo_fill o + j)) with (len p + fo_fill o) by lia.
      replace (fo_fill o + j <? cap) with false by lia. lia.
    + exists o2. rewrite <- app_assoc, take_drop in H2. split_and!; [done..|congruence].
Qed.

Definition delivered (o : fmt_out W) (t : text) : Prop :=
  holding o (tx_out t) /\ fo_err o = tx_err t /\ fo_pos o = len (tx_out t).

Lemma delivered_sim : WriterSim delivered.
Proof.
  apply writer_sim.
  - intros o t (Ho & He & Hp). split; [apply Ho|done].
  - intros o t e (Ho & He & Hp). done.
  - intros o t p (Ho & He & Hp) Ht. pose proof Ho as (_ & Hc & Hin & _). unfold in_cap in Hin.
    assert (0 <= (len p + fo_fill o) / cap) by (apply Z_div_nonneg_nonneg; lia).
    destruct (sink_loop (out_fuel o (len p)) (add_pos o (len p)) (tx_out t) p) as (o' & Hb & Ho' & He' & Hp').
    + exact Ho.
    + cbn. lia.
    + unfold out_fuel, rounds. rewrite Hc. cbn [fo_fill add_pos]. destruct (len p =? 0), (fo_fill o <? cap); lia.
    + exists o'. split; [done|]. split; [done|]. split; [done|]. rewrite Hp'. cbn. rewrite length_app, Hp. lia.
Qed.
End Sink.
