(* ===== verification/FormatText.v ===== *)
(** * What the conversions print

    Every emitter of format.c appends one text to its output, and that text
    is a field: sign and prefix, padding, body, as wide as the width asks. *)

From S2P Require Import Prelude Mem Digits StrFunc FpFmt FpFmtSpec FpRound Format FormatSim.

(** ** Appending a text *)

Definition fits (t : text) : Prop := len (tx_out t) <= INT_MAX.

(** The run [r] on [t] appends [txt]; when the result does not fit an int it stops inside it with EOVERFLOW. *)
Definition writes (r : option text) (t : text) (txt : list Z) : Prop :=
  fits t -> exists t', r = Some t' /\ fits t' /\
    (tx_err t <> 0 -> t' = t) /\
    (tx_err t = 0 -> len (tx_out t) + len txt <= INT_MAX -> t' = mkText (tx_out t ++ txt) 0) /\
    (tx_err t = 0 -> INT_MAX < len (tx_out t) + len txt ->
       tx_err t' = EOVERFLOW /\ exists q, q `prefix_of` txt /\ tx_out t' = tx_out t ++ q).

Lemma writes_total r t txt : fits t -> writes r t txt -> exists t', r = Some t' /\ fits t'.
Proof. intros Ht H. destruct (H Ht) as (t' & ? & ? & _). by exists t'. Qed.

Lemma writes_fits r txt : len txt <= INT_MAX -> writes r (mkText [] 0) txt -> r = Some (mkText txt 0).
Proof.
  intros Hl H. destruct H as (t' & -> & _ & _ & H & _); [unfold fits, INT_MAX; cbn; lia|]. f_equal. apply H; [done|cbn; lia].
Qed.

Lemma writes_ret t : writes (Some t) t [].
Proof.
  intros Ht. unfold fits in Ht. exists t. split_and!; [done..| |cbn; lia]. intros He _. rewrite app_nil_r. destruct t; cbn in *; congruence.
Qed.

Lemma writes_bytes t p : writes (w_bytes t p) t p.
Proof.
  intros Ht. exists (text_bytes t p). unfold fits in *. split; [done|]. unfold text_bytes.
  destruct (tx_err t =? 0) eqn:E; cbn [negb]; [|split_and!; (done || lia)].
  destruct (INT_MAX <? _) eqn:Ei; split_and!; cbn; try (done || lia).
  - intros. split; [done|]. exists []. split; [apply prefix_nil|by rewrite app_nil_r].
  - rewrite length_app. lia.
Qed.

Lemma writes_fill t c n : writes (w_fill t c n) t (replicate (Z.to_nat n) c).
Proof. apply (writes_bytes t). Qed.

Lemma writes_bind r t p k q : writes r t p -> (forall t', writes (k t') t' q) -> writes (r ≫= k) t (p ++ q).
Proof.
  intros H Hk Ht. destruct (H Ht) as (t1 & -> & Ht1 & Ha & Hb & Hc). cbn [mbind option_bind].
  destruct (Hk t1 Ht1) as (t2 & -> & Ht2 & Ka & Kb & Kc). exists t2. rewrite length_app, Nat2Z.inj_add. split_and!; [done..| | |].
  - intros He. rewrite <- (Ha He). apply Ka. by rewrite (Ha He).
  - intros He Hl. specialize (Hb He ltac:(lia)). rewrite Hb in Kb. rewrite Kb; [by rewrite app_assoc|done|].
    cbn. rewrite length_app. lia.
  - intros He Hl. destruct (decide (len (tx_out t) + len p <= INT_MAX)) as [Hf|Hf].
    + specialize (Hb He Hf). rewrite Hb in Kc. cbn in Kc. rewrite length_app in Kc.
      destruct Kc as (He2 & s & Hs & Ho); [done|lia|]. split; [done|]. exists (p ++ s). split; [by apply prefix_app|].
      by rewrite app_assoc.
    + destruct (Hc He ltac:(lia)) as (He1 & s & Hs & Ho). rewrite Ka by (rewrite He1; done). split; [done|].
      exists s. split; [|done]. etrans; [exact Hs|]. by exists q.
Qed.

Lemma writes_eq r t p q : writes r t p -> p = q -> writes r t q.
Proof. by intros H ->. Qed.

Lemma writes_if (b : bool) ra rb t p q :
  writes ra t p -> writes rb t q -> writes (if b then ra else rb) t (if b then p else q).
Proof. by destruct b. Qed.

Create HintDb writes discriminated.
#[export] Hint Resolve writes_ret writes_bytes writes_fill writes_if : writes.
#[export] Hint Extern 3 (writes (_ ≫= _) _ _) => eapply writes_bind; [|intros ?] : writes.

(** Follow a run call by call, then compare the concatenation with the text wanted. *)
Ltac writes_go := first [solve [eauto with writes] | eapply writes_bind; [solve [eauto with writes]|intros; writes_go]].
Ltac writes_run := eapply writes_eq; [writes_go|].

(** ** Fields *)

Definition spaces (n : Z) : list Z := replicate (Z.to_nat n) (chr " ").
Definition zeros (n : Z) : list Z := replicate (Z.to_nat n) (chr "0").

(** [pre] and [body] in a field of the width; [zero]: the [0] flag counts. *)
Definition field (s : spec) (zero : bool) (pre body : list Z) : list Z :=
  let pad := pad_to s (len pre + len body) in
  if fs_left s then pre ++ body ++ spaces pad
  else if zero && fs_zero s then pre ++ zeros pad ++ body
  else spaces pad ++ pre ++ body.

Definition sign_text (sign : Z) : list Z := if sign =? 0 then [] else [sign].

Lemma length_field s zero pre body : len (field s zero pre body) = Z.max (fs_width s) (len pre + len body).
Proof. unfold field, spaces, zeros. cbv zeta. repeat case_match; rewrite !length_app, length_replicate; unfold pad_to; case_match; lia. Qed.

Lemma length_sign sign : sign_len sign = len (sign_text sign).
Proof. unfold sign_len, sign_text. by destruct (sign =? 0). Qed.

Lemma char_if_writes b t c : writes (char_if b t c) t (if b then [c] else []).
Proof. unfold char_if, out_char. destruct b; auto with writes. Qed.

Lemma fill_if_writes b t c n : writes (fill_if b t c n) t (if b then replicate (Z.to_nat n) c else []).
Proof. unfold fill_if. destruct b; auto with writes. Qed.

Lemma out_char_writes t c : writes (out_char t c) t [c].
Proof. apply writes_bytes. Qed.

Lemma out_dec_writes t v : writes (out_dec t v) t (decimal v).
Proof. apply writes_bytes. Qed.
#[export] Hint Resolve char_if_writes fill_if_writes out_char_writes out_dec_writes : writes.

Lemma out_chars_writes cs : forall t, writes (out_chars t cs) t cs.
Proof. induction cs; intros t; cbn [out_chars]; [auto with writes|]. by apply (writes_bind _ _ [a]); [auto with writes|]. Qed.
#[export] Hint Resolve out_chars_writes : writes.

(** *** Integers *)

(** The digits of a number, zeros in front up to the precision; [#] makes an octal number start with a zero. *)
Definition number_digits (s : spec) (mag base : Z) (upper alt : bool) : list Z :=
  let ds := if (mag =? 0) && (fs_prec s =? 0) then [] else rev (map (digit_char upper) (digits_rev base mag)) in
  let ds := zeros (fs_prec s - len ds) ++ ds in
  if (base =? 8) && alt && negb (peek ds =? chr "0") then chr "0" :: ds else ds.

Definition number_prefix (mag base : Z) (upper alt : bool) : list Z :=
  if alt && negb (mag =? 0) then
    if base =? 16 then (if upper then str "0X" else str "0x")
    else if base =? 2 then (if upper then str "0B" else str "0b") else []
  else [].

Definition number_text (s : spec) (signed_conv neg : bool) (mag base : Z) (upper alt : bool) : list Z :=
  field s (fs_prec s <? 0) (sign_text (if signed_conv then sign_char s neg else 0) ++ number_prefix mag base upper alt)
    (number_digits s mag base upper alt).

Lemma last_rev_peek (l : list Z) : default 0 (last l) = peek (rev l).
Proof. destruct l as [|x l _] using rev_ind; [done|]. by rewrite last_snoc, rev_app_distr. Qed.

Lemma length_zeros n : length (zeros n) = Z.to_nat n.
Proof. apply length_replicate. Qed.

Lemma zeros_add a b : 0 <= a -> 0 <= b -> zeros (a + b) = zeros a ++ zeros b.
Proof. intros. unfold zeros. by rewrite Z2Nat.inj_add, replicate_add by lia. Qed.

Lemma octal_zero (b : bool) prec ds :
  (if b && negb (peek (zeros (prec - len ds) ++ ds) =? chr "0") then chr "0" :: zeros (prec - len ds) ++ ds
   else zeros (prec - len ds) ++ ds) =
  zeros (if b && ((if len ds <? prec then prec - len ds else 0) =? 0) && ((len ds =? 0) || negb (peek ds =? chr "0"))
         then 1 else if len ds <? prec then prec - len ds else 0) ++ ds.
Proof.
  destruct (len ds <? prec) eqn:E.
  - replace (prec - len ds =? 0) with false by lia. rewrite andb_false_r, andb_false_l. unfold zeros.
    destruct (Z.to_nat (prec - len ds)) eqn:En; [lia|]. cbn [replicate app peek negb Z.eqb]. by rewrite andb_false_r.
  - unfold zeros at 1 2 3. replace (Z.to_nat (prec - len ds)) with 0%nat by lia. cbn [replicate app Z.eqb].
    rewrite andb_true_r. destruct b; [|done]. destruct ds as [|d ds]; [done|]. cbn [andb peek].
    replace (len (d :: ds) =? 0) with false by (cbn [length]; lia). cbn [orb]. by destruct (d =? _).
Qed.

Lemma emit_number_writes t s sc neg mag base up alt :
  writes (emit_number t s sc neg mag base up alt) t (number_text s sc neg mag base up alt).
Proof.
  unfold emit_number, number_text, number_digits. generalize (digits_rev base mag). intros dg. cbv zeta.
  fold (number_prefix mag base up alt). generalize (number_prefix mag base up alt). intros pre.
  generalize (if sc then sign_char s neg else 0). intros sign.
  replace (if (mag =? 0) && (fs_prec s =? 0) then [] else rev (map (digit_char up) dg))
    with (rev (if (mag =? 0) && (fs_prec s =? 0) then [] else map (digit_char up) dg)) by (by destruct (_ && _)).
  generalize (if (mag =? 0) && (fs_prec s =? 0) then [] else map (digit_char up) dg). intros tmp. rewrite last_rev_peek.
  replace (len tmp) with (len (rev tmp)) by (by rewrite length_rev). generalize (rev tmp). clear tmp. intros ds.
  rewrite octal_zero. set (z := if _ && _ && _ && _ then 1 else _). assert (Hz : 0 <= z) by (subst z; repeat case_match; lia).
  clearbody z. writes_run. unfold field. rewrite length_sign, !length_app, length_zeros by lia.
  replace (len (sign_text sign) + len pre + z + len ds)
    with (Z.of_nat (length (sign_text sign) + length pre) + Z.of_nat (Z.to_nat z + length ds)) by lia.
  pose proof (pad_to_nonneg s (Z.of_nat (length (sign_text sign) + length pre) + Z.of_nat (Z.to_nat z + length ds))) as Hp.
  set (p := pad_to s _) in *. clearbody p. replace (if negb (sign =? 0) then [sign] else []) with (sign_text sign) by (unfold sign_text; by destruct (sign =? 0)).
  replace (fs_prec s <? 0) with (negb (0 <=? fs_prec s)) by lia. fold (spaces p).
  destruct (fs_left s), (fs_zero s), (0 <=? fs_prec s); cbn [negb orb andb app]; rewrite ?app_nil_r, <- ?app_assoc, ?Z.add_0_l; try done.
  fold (zeros (p + z)). by rewrite zeros_add, <- app_assoc by lia.
Qed.

(** *** Text *)

Lemma emit_text_writes t s txt : writes (emit_text t s txt) t (field s false [] txt).
Proof. unfold emit_text. cbv zeta. writes_run. unfold field. destruct (fs_left s); cbn [negb andb app]; by rewrite ?app_nil_r. Qed.

Lemma wide_runs_writes k : forall t w, (length w <= k)%nat -> writes (wide_runs k t w) t (map u8 w).
Proof.
  induction k as [|k IH]; intros t w Hk; (destruct w as [|c w]; [apply writes_ret|]); [cbn in Hk; lia|]. cbn [wide_runs].
  replace (map u8 (c :: w)) with (map u8 (take 64 (c :: w)) ++ map u8 (drop 64 (c :: w))) by (by rewrite <- map_app, take_drop).
  apply writes_bind; [apply writes_bytes|]. intros t'. apply IH.
  rewrite length_drop. cbn in *. lia.
Qed.

Lemma emit_wide_writes t s w : writes (emit_wide t s w) t (field s false [] (map u8 w)).
Proof.
  unfold emit_wide. cbv zeta. eapply writes_eq.
  { eapply writes_bind; [auto with writes|]. intros. eapply writes_bind; [by apply wide_runs_writes|]. auto with writes. }
  unfold field. rewrite length_map. destruct (fs_left s); cbn [negb andb app]; by rewrite ?app_nil_r.
Qed.
#[export] Hint Resolve emit_text_writes emit_wide_writes emit_number_writes : writes.

Lemma echo_unknown_writes s c : exists txt, forall t, writes (echo_unknown t s c) t txt.
Proof.
  eexists. intros t. unfold echo_unknown. writes_go.
Qed.

(** *** Floating point *)

Lemma dec_digits_loop_spec k : forall j v n, 0 <= v < 10 ^ Z.of_nat (S k) -> (k < j)%nat ->
  dec_digits_loop k v n = n - 1 + len (digits_loop j 10 v).
Proof.
  induction k as [|k IH]; intros j v n Hv Hj; (destruct j as [|j]; [lia|]); cbn [dec_digits_loop digits_loop].
  - change (10 ^ Z.of_nat 1) with 10 in Hv. rewrite Z.div_small by lia. cbn. lia.
  - rewrite Nat2Z.inj_succ, Z.pow_succ_r in Hv by lia. destruct (10 <=? v) eqn:E.
    + replace (v / 10 =? 0) with false by zdm. rewrite (IH j) by (lia || zdm). cbn [length]. lia.
    + rewrite Z.div_small by lia. cbn. lia.
Qed.

Lemma dec_digits_decimal v : 0 <= v < 10 ^ 10 -> dec_digits v = len (decimal v).
Proof.
  intros Hv. unfold dec_digits, decimal, digits_rev. rewrite (dec_digits_loop_spec 9 64) by (done || lia).
  rewrite length_rev, length_map. lia.
Qed.

Lemma emit_nonfinite_writes t s up nan sign : writes (emit_nonfinite t s up nan sign) t
  (field s false (sign_text sign) (if nan then (if up then str "NAN" else str "nan") else (if up then str "INF" else str "inf"))).
Proof.
  unfold emit_nonfinite. cbv zeta. writes_run. unfold field. rewrite length_sign.
  replace (if negb (sign =? 0) then [sign] else []) with (sign_text sign) by (unfold sign_text; by destruct (sign =? 0)).
  destruct nan, up, (fs_left s); cbn [negb andb]; by rewrite ?app_nil_r.
Qed.
#[export] Hint Resolve emit_nonfinite_writes : writes.

Lemma hex_chars_writes up h k : exists txt, forall t, writes (hex_chars k t up h) t txt.
Proof.
  induction k as [|k [txt IH]]; [exists []; intros t; apply writes_ret|]. eexists. intros t. cbn [hex_chars]. cbv zeta.
  eapply writes_bind; [auto with writes|exact IH].
Qed.

Lemma emit_hexfloat_writes s up sign bits : exists txt, forall t, writes (emit_hexfloat t s up sign bits) t txt.
Proof.
  unfold emit_hexfloat. cbv zeta.
  destruct (hex_chars_writes up (hex_round (fs_prec s) (if bexp_of bits =? 0 then frac_of bits else
    Z.lor (frac_of bits) (Z.shiftl 1 52)) (frac_of bits)) (Z.to_nat (hp_nd (hex_round (fs_prec s)
    (if bexp_of bits =? 0 then frac_of bits else Z.lor (frac_of bits) (Z.shiftl 1 52)) (frac_of bits))))) as [txt Hh].
  eexists. intros t. do 7 (eapply writes_bind; [solve [auto with writes]|intros ?]).
  eapply writes_bind; [apply Hh|intros ?]. writes_go.
Qed.

(** The digits a rounded number has in front of 10^[k-1], ..., 10^0 and in front of 10^[ee], 10^[ee-1], ... *)
Fixpoint int_digits (k : nat) (rr : fp_round) : list Z :=
  match k with
  | 0%nat => []
  | S t => fp_digit rr (Z.of_nat t) :: int_digits t rr
  end.
Fixpoint frac_digits (k : nat) (rr : fp_round) (ee : Z) : list Z :=
  match k with
  | 0%nat => []
  | S k => fp_digit rr ee :: frac_digits k rr (ee - 1)
  end.
Definition digit_text (ds : list Z) : list Z := map (fun d => chr "0" + d) ds.

Lemma length_int_digits k rr : length (int_digits k rr) = k.
Proof. induction k; cbn; lia. Qed.
Lemma length_frac_digits k rr : forall ee, length (frac_digits k rr ee) = k.
Proof. induction k; intros; cbn; auto with lia. Qed.

Lemma int_chars_writes k rr : forall t, writes (int_chars k t rr) t (digit_text (int_digits k rr)).
Proof.
  induction k as [|k IH]; intros t; cbn [int_chars]; [apply writes_ret|]. apply (writes_bind _ _ [_]); [auto with writes|exact IH].
Qed.

(** Past the last digit everything is zero. *)
Lemma frac_digits_zero k rr : forall ee,
  (len (fr_r rr) =? 0) || (len (fr_r rr) <=? fr_x rr - ee) = true -> frac_digits k rr ee = replicate k 0.
Proof.
  induction k as [|k IH]; intros ee Hz; [done|]. cbn [frac_digits replicate]. f_equal; [|apply IH; lia].
  unfold fp_digit. cbv zeta. by replace (_ || _ || _) with true by lia.
Qed.

Lemma frac_chars_writes k rr : forall t ee, writes (frac_chars k t rr ee) t (digit_text (frac_digits k rr ee)).
Proof.
  induction k as [|k IH]; intros t ee; cbn [frac_chars]; [apply writes_ret|]. cbv zeta.
  destruct (_ || _) eqn:Hz; [|apply (writes_bind _ _ [_]); [auto with writes|intros; apply IH]].
  rewrite frac_digits_zero by done. eapply writes_eq; [apply writes_fill|].
  unfold digit_text. rewrite Nat2Z.id. change (map ?f ?l) with (f <$> l). by rewrite fmap_replicate.
Qed.

Definition exp_text (up : bool) (exp10 : Z) : list Z :=
  [if up then chr "E" else chr "e"; if exp10 <? 0 then chr "-" else chr "+"] ++
  (if Z.abs exp10 <? 10 then [chr "0"] else []) ++ decimal (Z.abs exp10).

Lemma abs_if x : (if x <? 0 then - x else x) = Z.abs x.
Proof. bcases. Qed.

Lemma emit_exponent_writes t up x : writes (emit_exponent t up x) t (exp_text up x).
Proof. unfold emit_exponent. cbv zeta. rewrite abs_if. writes_run. done. Qed.
#[export] Hint Resolve int_chars_writes frac_chars_writes emit_exponent_writes : writes.

(** The body of a finite number in fixed and in exponent style. *)
Definition finite_body (s : spec) (up : bool) (l : layout) : list Z :=
  digit_text (if ly_style_e l then [fp_digit (ly_rr l) (ly_exp l)] else int_digits (Z.to_nat (ly_int l)) (ly_rr l)) ++
  (if (0 <? ly_frac l) || fs_alt s then [chr "."] else []) ++
  digit_text (frac_digits (Z.to_nat (ly_frac l)) (ly_rr l) (if ly_style_e l then ly_exp l - 1 else -1)) ++
  (if ly_style_e l then exp_text up (ly_exp l) else []).

Definition layout_ok (l : layout) : Prop :=
  0 <= ly_frac l /\ 0 <= ly_int l /\ (ly_style_e l = true -> ly_int l = 1) /\ -1000 <= ly_exp l <= 1000.

Lemma length_exp_text up x : -1000 <= x <= 1000 ->
  len (exp_text up x) = 2 + (if dec_digits (Z.abs x) <? 2 then 2 else dec_digits (Z.abs x)).
Proof.
  intros Hx. unfold exp_text. rewrite !length_app, dec_digits_decimal by lia. cbn [length].
  destruct (Z.abs x <? 10) eqn:E.
  - pose proof (decimal_length (Z.abs x) 1 ltac:(lia) ltac:(lia)) as Hl. replace (len (decimal (Z.abs x)) <? 2) with true by lia.
    cbn [length]. lia.
  - pose proof (value_bound 10 (map (fun c => c - chr "0") (decimal (Z.abs x))) ltac:(lia)) as Hb.
    rewrite decimal_value, length_map in Hb by lia.
    destruct Hb as [_ Hb]; [apply Forall_map; eapply Forall_impl; [apply decimal_digits|]; cbn; lia|].
    destruct (decide (len (decimal (Z.abs x)) < 2)); [|replace (_ <? 2) with false by lia; cbn [length]; lia].
    exfalso. assert (10 ^ len (decimal (Z.abs x)) <= 10 ^ 1) by (apply Z.pow_le_mono_r; lia). lia.
Qed.

Lemma emit_finite_writes t s up sign l : layout_ok l ->
  writes (emit_finite t s up sign l) t (field s true (sign_text sign) (finite_body s up l)).
Proof.
  intros (Hf & Hi & He & Hx). unfold emit_finite. cbv zeta. rewrite abs_if, length_sign.
  assert (Hlen : ly_int l + (if (0 <? ly_frac l) || fs_alt s then 1 else 0) + ly_frac l +
    (if ly_style_e l then 2 + (if dec_digits (Z.abs (ly_exp l)) <? 2 then 2 else dec_digits (Z.abs (ly_exp l))) else 0) =
    len (finite_body s up l)).
  { unfold finite_body, digit_text. rewrite !length_app, !length_map, length_frac_digits.
    destruct (ly_style_e l).
    - rewrite <- (length_exp_text up) by lia. rewrite He by done. destruct (_ || _); cbn [length]; lia.
    - rewrite length_int_digits. destruct (_ || _); cbn [length]; lia. }
  replace (len (sign_text sign) + ly_int l + (if (0 <? ly_frac l) || fs_alt s then 1 else 0) + ly_frac l +
    (if ly_style_e l then 2 + (if dec_digits (Z.abs (ly_exp l)) <? 2 then 2 else dec_digits (Z.abs (ly_exp l))) else 0))
    with (len (sign_text sign) + len (finite_body s up l)) by lia.
  writes_run. unfold field. set (p := pad_to s _). unfold finite_body. fold (spaces p) (zeros p).
  replace (if negb (sign =? 0) then [sign] else []) with (sign_text sign) by (unfold sign_text; by destruct (sign =? 0)).
  destruct (fs_left s), (fs_zero s), (ly_style_e l); cbn [negb andb app]; rewrite ?app_nil_r, <- ?app_assoc; done.
Qed.


(** *** Doubles *)

(** The significand and exponent of a finite double: [m * 2^e2]. *)
Definition dbl_m (bits : Z) : Z := if bexp_of bits =? 0 then frac_of bits else Z.lor (frac_of bits) (Z.shiftl 1 52).
Definition dbl_e2 (bits : Z) : Z := if bexp_of bits =? 0 then -1074 else bexp_of bits - 1075.
Definition finite (bits : Z) : Prop := 0 <= bits < 2 ^ 64 /\ bexp_of bits <> 0x7ff.

Lemma frac_of_range bits : 0 <= frac_of bits < 2 ^ 52.
Proof. unfold frac_of, FRAC_MASK. change (2 ^ 52 - 1) with (Z.ones 52). rewrite Z.land_ones by lia. apply Z.mod_pos_bound. lia. Qed.

Lemma bexp_of_range bits : 0 <= bexp_of bits < 2048.
Proof. unfold bexp_of. change 0x7ff with (Z.ones 11). rewrite Z.land_ones by lia. apply Z.mod_pos_bound. lia. Qed.

Lemma dbl_range bits : bexp_of bits <> 0x7ff -> 0 <= dbl_m bits < 2 ^ 53 /\ -1074 <= dbl_e2 bits <= 971.
Proof.
  intros Hf. pose proof (frac_of_range bits) as Hr. pose proof (bexp_of_range bits). unfold dbl_m, dbl_e2.
  destruct (bexp_of bits =? 0) eqn:E; [lia|]. rewrite Z.lor_comm, lor_shift by lia. lia.
Qed.

(** What [fp_exact] makes of a finite double: nothing for zero, the exact digits otherwise. *)
Definition dec_of (dec : fp_dec) (bits : Z) : Prop :=
  (dbl_m bits = 0 /\ fd_d dec = [] /\ fd_x dec = 0) \/
  (0 < dbl_m bits /\ dec_ok dec /\ denotes dec (dbl_m bits) (dbl_e2 bits) /\ -400 <= fd_x dec <= 400).

Lemma fp_exact_dec bits : bexp_of bits <> 0x7ff -> exists dec, fp_exact (dbl_m bits) (dbl_e2 bits) = Some dec /\ dec_of dec bits.
Proof.
  intros Hf. destruct (dbl_range bits Hf) as [Hm He]. destruct (decide (dbl_m bits = 0)) as [Hz|Hz].
  - exists (mkDec [] 0). unfold fp_exact. rewrite Hz. split; [done|]. by left.
  - destruct (fp_exact_spec (dbl_m bits) (dbl_e2 bits) ltac:(lia) He) as (dec & -> & Hok & Hden). exists dec. split; [done|].
    right. split_and!; [lia|done|done|..]; apply (dec_exponent dec (dbl_m bits) (dbl_e2 bits)); (done || lia).
Qed.

Lemma round_dec_ok dec bits k : dec_of dec bits -> exists rr, round_dec dec k = Some rr /\ -400 <= fr_x rr <= 401 /\
  (fd_d dec = [] -> rr = mkRound [] 0) /\ (fd_d dec <> [] -> rounds_to dec k rr).
Proof.
  intros [(_ & Hd & _)|(_ & Hok & _ & Hx)]; unfold round_dec.
  - rewrite Hd. eexists. split; [reflexivity|]. cbn. split_and!; [lia|lia|done..].
  - pose proof Hok as (_ & _ & (c & r & Hc & _) & _).
    replace (len (fd_d dec) =? 0) with false by (rewrite Hc; cbn [length]; lia).
    destruct (fp_round_digits_spec dec k Hok) as (rr & -> & Hr). exists rr. split; [done|].
    pose proof Hr as (_ & _ & _ & Hxr & _). split_and!; [lia|lia|by rewrite Hc|done].
Qed.

Lemma trim_frac_nonneg k rr se x : 0 <= trim_frac k rr se x.
Proof. induction k; cbn [trim_frac]; [lia|]. cbv zeta. destruct (negb _); lia. Qed.

Lemma fp_layout_ok s lc dec bits : dec_of dec bits -> exists l, fp_layout s lc dec = Some l /\ layout_ok l.
Proof.
  intros Hd. unfold fp_layout. cbv zeta. set (P := if fs_prec s <? 0 then 6 else fs_prec s).
  assert (HP : 0 <= P) by (subst P; case_match; lia). clearbody P. unfold layout_f, layout_e, layout_g. cbv zeta.
  destruct (lc =? _); [|destruct (lc =? _)].
  - destruct (round_dec_ok dec bits (fd_x dec + 1 + P) Hd) as (rr & -> & Hx & _). eexists. split; [reflexivity|].
    unfold layout_ok. cbn. split_and!; [lia|case_match; lia|done|lia..].
  - destruct (round_dec_ok dec bits (P + 1) Hd) as (rr & -> & Hx & _). eexists. split; [reflexivity|].
    unfold layout_ok. cbn [ly_frac ly_int ly_style_e ly_exp]. split_and!; [lia|lia|done|case_match; lia..].
  - set (P' := if P =? 0 then 1 else P). assert (HP' : 1 <= P') by (subst P'; case_match; lia). clearbody P'.
    destruct (round_dec_ok dec bits P' Hd) as (rr & -> & Hx & _). cbn [mbind option_bind]. eexists. split; [reflexivity|].
    unfold layout_ok. cbn [ly_frac ly_int ly_style_e ly_exp].
    set (X := if 0 <? _ then fr_x rr else 0). assert (-400 <= X <= 401) by (subst X; case_match; lia). clearbody X.
    set (Y := if _ =? 0 then 0 else fd_x dec). clearbody Y. split_and!.
    + destruct (fs_alt s); [repeat case_match; lia|apply trim_frac_nonneg].
    + case_match; lia.
    + intros Hn. by replace ((-4 <=? X) && (X <? P')) with false by (destruct (_ && _); done).
    + case_match; lia.
    + case_match; lia.
Qed.

Lemma emit_double_writes s conv bits : exists txt, forall t, writes (emit_double t s conv bits) t txt.
Proof.
  unfold emit_double. cbv zeta. destruct (_ =? 0x7ff) eqn:Eb; [eexists; intros t; apply emit_nonfinite_writes|].
  destruct (_ =? chr "a"); [apply emit_hexfloat_writes|]. fold (dbl_m bits) (dbl_e2 bits).
  destruct (fp_exact_dec bits ltac:(lia)) as (dec & -> & Hd). cbn [mbind option_bind].
  destruct (fp_layout_ok s (if is_upper_conv conv then conv + 32 else conv) dec bits Hd) as (l & -> & Hl). cbn [mbind option_bind].
  eexists. intros t. by apply emit_finite_writes.
Qed.
