(* ===== verification/FormatTypes.v ===== *)
(** * Format strings as types

    The arguments a format string asks for, and that a call with such
    arguments always gets through the engine. *)

From S2P Require Import Prelude Mem Digits StrFunc FpFmt FpFmtSpec FpRound Format FormatSim FormatText.

Inductive argty := TInt | TLong | TDouble | TPtr | TStr | TWide.

Definition has_nul (l : list Z) : bool := existsb (Z.eqb 0) l.

(** A string argument is NULL or has its terminator. *)
Definition has_type (a : arg) (ty : argty) : bool :=
  match a, ty with
  | AInt _, TInt | ALong _, TLong | ADouble _, TDouble | APtr _ _, TPtr => true
  | APtr p l, TStr | AWide p l, TWide => (p =? 0) || has_nul l
  | _, _ => false
  end.

(** The arguments start with ones of these types; further ones are ignored. *)
Fixpoint accepts (ap : list arg) (tys : list argty) : bool :=
  match tys, ap with
  | [], _ => true
  | ty :: tys, a :: ap => has_type a ty && accepts ap tys
  | _ :: _, [] => false
  end.

Definition int_type (l : length_mod) : argty :=
  match l with LEN_NONE | LEN_H | LEN_HH => TInt | _ => TLong end.

Definition conv_types (l : length_mod) (ldbl : bool) (conv : Z) : list argty :=
  if one_of conv "di" || one_of conv "uoxXbB" then [int_type l]
  else if one_of conv "cC" then [TInt]
  else if one_of conv "sS" then [if (conv =? chr "S") || len_is_wide l then TWide else TStr]
  else if (conv =? chr "p") || (conv =? chr "n") then [TPtr]
  else if one_of conv "fFeEgGaA" then (if ldbl then [] else [TDouble])
  else [].

Fixpoint skip_while (p : Z -> bool) (f : list Z) : list Z :=
  match f with
  | [] => []
  | c :: f' => if p c then skip_while p f' else f
  end.

Definition is_flag (c : Z) : bool := one_of c "#'+ I-0".
Definition is_dec (c : Z) : bool := (chr "0" <=? c) && (c <=? chr "9").

(** A width or a precision: [*] takes an int. *)
Definition count_types (f : list Z) : list argty * list Z :=
  if peek f =? chr "*" then ([TInt], tail f) else ([], skip_while is_dec f).

Fixpoint wants_loop (fuel : nat) (f : list Z) : list argty :=
  match fuel with
  | 0%nat => []
  | S fuel =>
      if peek f =? 0 then []
      else if negb (peek f =? chr "%") then wants_loop fuel (snd (plain_run f))
      else
        let '(w, f) := count_types (skip_while is_flag (tail f)) in
        let '(p, f) := if peek f =? chr "." then count_types (tail f) else ([], f) in
        let '(s, f) := parse_len spec0 f in
        w ++ p ++ conv_types (fs_len s) (fs_ldbl s) (peek f) ++ wants_loop fuel (tail f)
  end.

Definition wants (fmt : list Z) : list argty := wants_loop (format_fuel fmt) fmt.

(** ** Lemmas *)

Lemma accepts_cons ap ty tys : accepts ap (ty :: tys) = true -> exists a ap', ap = a :: ap' /\ has_type a ty = true /\ accepts ap' tys = true.
Proof. destruct ap as [|a ap]; cbn [accepts]; [done|]. intros [H1 H2]%andb_prop. by exists a, ap. Qed.

Lemma text_len_total prec l : forall n, has_nul l = true -> exists m, text_len prec n l = Some m.
Proof.
  induction l as [|c l IH]; intros n Hl; [done|]. cbn [text_len]. destruct (_ || _); [|by eexists].
  destruct (c =? 0) eqn:E; [by eexists|]. apply IH. cbn [has_nul existsb] in Hl.
  by replace (0 =? c) with false in Hl by lia.
Qed.

Lemma wide_len_total prec l : forall n, has_nul l = true -> exists m, wide_len prec n l = Some m.
Proof.
  induction l as [|c l IH]; intros n Hl; [done|]. cbn [wide_len]. destruct (_ || _); [|by eexists].
  destruct (c =? 0) eqn:E; [by eexists|]. destruct (_ || _); [by eexists|]. apply IH. cbn [has_nul existsb] in Hl.
  by replace (0 =? c) with false in Hl by lia.
Qed.

(** An emitter followed by handing on the arguments left. *)
Lemma writes_conv {X} r t txt (x : X) : fits t -> writes r t txt ->
  exists t', (o ← r; Some (o, x)) = Some (t', x) /\ fits t'.
Proof. intros Ht H. destruct (writes_total _ _ _ Ht H) as (t' & -> & Ht'). by exists t'. Qed.

Section Conv.
Context (t : text) (s : spec) (Ht : fits t).

Lemma fits_fail e : fits (w_fail t e).
Proof. exact Ht. Qed.

(** The conversion takes the argument [a] and leaves the others. *)
Definition takes (conv : text -> spec -> list arg -> option (text * list arg)) (a : arg) : Prop :=
  forall ap, exists t', conv t s (a :: ap) = Some (t', ap) /\ fits t'.

Lemma conv_signed_total a : has_type a (int_type (fs_len s)) = true -> takes conv_signed a.
Proof.
  intros Ha ap. unfold conv_signed. destruct (fs_len s), a; cbn in Ha; try done; cbn [va_int va_long mbind option_bind]; cbv zeta;
    (eapply writes_conv; [exact Ht|apply emit_number_writes]).
Qed.

Lemma conv_unsigned_total c a : has_type a (int_type (fs_len s)) = true -> takes (fun t s => conv_unsigned t s c) a.
Proof.
  intros Ha ap. unfold conv_unsigned. destruct (fs_len s), a; cbn in Ha; try done; cbn [va_uint va_ulong mbind option_bind]; cbv zeta;
    (eapply writes_conv; [exact Ht|apply emit_number_writes]).
Qed.

Lemma conv_char_total c a : has_type a TInt = true -> takes (fun t s => conv_char t s c) a.
Proof.
  intros Ha ap. destruct a; try done. unfold conv_char. cbn [va_uint va_int mbind option_bind].
  destruct (_ || _); [destruct (127 <? _); [by eexists|]|]; (eapply writes_conv; [exact Ht|apply emit_text_writes]).
Qed.

Lemma conv_string_total c a :
  has_type a (if (c =? chr "S") || len_is_wide (fs_len s) then TWide else TStr) = true -> takes (fun t s => conv_string t s c) a.
Proof.
  intros Ha ap. unfold conv_string. destruct (_ || _), a; try done; cbn [va_wide va_ptr mbind option_bind has_type] in *.
  - destruct (p =? 0); [eapply writes_conv; [exact Ht|apply emit_text_writes]|]. cbn [orb] in Ha.
    destruct (wide_len_total (fs_prec s) codes 0 Ha) as ([n|u] & ->); cbn [mbind option_bind]; [|by eexists].
    eapply writes_conv; [exact Ht|apply emit_wide_writes].
  - destruct (p =? 0); [eapply writes_conv; [exact Ht|apply emit_text_writes]|]. cbn [orb] in Ha.
    destruct (text_len_total (fs_prec s) bytes 0 Ha) as (n & ->); cbn [mbind option_bind].
    eapply writes_conv; [exact Ht|apply emit_text_writes].
Qed.

Lemma conv_pointer_total a : has_type a TPtr = true -> takes conv_pointer a.
Proof.
  intros Ha ap. destruct a; try done. unfold conv_pointer. cbn [va_ptr mbind option_bind].
  destruct (p =? 0); (eapply writes_conv; [exact Ht|auto with writes]).
Qed.

Lemma conv_double_total c a : fs_ldbl s = false -> has_type a TDouble = true -> takes (fun t s => conv_double t s c) a.
Proof.
  intros Hl Ha ap. destruct a; try done. unfold conv_double. rewrite Hl. cbn [va_double mbind option_bind].
  destruct (emit_double_writes s c (u64 bits)) as [txt Hw]. eapply writes_conv; [exact Ht|apply Hw].
Qed.

Lemma conv_errno_total e : exists t', conv_errno t s e = Some t' /\ fits t'.
Proof.
  unfold conv_errno. cbv zeta. destruct (text_len_total (fs_prec s) (strerror e ++ [0]) 0) as (n & ->).
  { unfold has_nul. rewrite existsb_app. apply orb_true_r. }
  cbn [mbind option_bind]. eapply writes_total; [exact Ht|apply emit_text_writes].
Qed.
End Conv.

(** A conversion that takes one argument, behind the switch. *)
Lemma takes_plain t s conv ap ty rest : (forall a, has_type a ty = true -> takes t s conv a) ->
  accepts ap ([ty] ++ rest) = true ->
  exists t' ap' ws, ('(o, ap) ← conv t s ap; Some (o, ap, [])) = Some (t', ap', ws : list write) /\ fits t' /\ accepts ap' rest = true.
Proof.
  intros Hc Ha. apply accepts_cons in Ha as (a & ap' & -> & Hty & Hr). destruct (Hc a Hty ap') as (t' & -> & Ht').
  by exists t', ap', [].
Qed.

Lemma convert_total t s conv e ap rest : fits t ->
  accepts ap (conv_types (fs_len s) (fs_ldbl s) conv ++ rest) = true ->
  exists t' ap' ws, convert t s conv e ap = Some (t', ap', ws) /\ fits t' /\ accepts ap' rest = true.
Proof.
  intros Ht Ha. unfold convert, conv_types in *. cbv zeta.
  destruct (one_of conv "di"); cbn [orb] in Ha.
  { eapply takes_plain; [intros a; by apply conv_signed_total|exact Ha]. }
  destruct (one_of conv "uoxXbB").
  { eapply (takes_plain _ _ (fun t s => conv_unsigned t s conv)); [intros a; by apply conv_unsigned_total|exact Ha]. }
  destruct (one_of conv "cC").
  { eapply (takes_plain _ _ (fun t s => conv_char t s conv)); [intros a; by apply conv_char_total|exact Ha]. }
  destruct (one_of conv "sS").
  { eapply (takes_plain _ _ (fun t s => conv_string t s conv)); [intros a; by apply conv_string_total|exact Ha]. }
  destruct (conv =? chr "p"); cbn [orb] in Ha.
  { eapply takes_plain; [intros a; by apply conv_pointer_total|exact Ha]. }
  destruct (conv =? chr "n") eqn:En.
  { replace (one_of conv "fFeEgGaA") with false by (assert (conv = chr "n") by lia; by subst).
    apply accepts_cons in Ha as (a & ap' & -> & Hty & Hr). destruct a; try done. cbn. by do 3 eexists. }
  destruct (one_of conv "fFeEgGaA").
  { destruct (fs_ldbl s) eqn:El; [by (unfold conv_double; rewrite El; cbn; do 3 eexists)|].
    eapply (takes_plain _ _ (fun t s => conv_double t s conv)); [intros a; by apply conv_double_total|exact Ha]. }
  destruct (conv =? chr "m").
  { destruct (conv_errno_total t s Ht e) as (t' & -> & Ht'). by exists t', ap, []. }
  destruct (conv =? chr "%").
  { destruct (writes_total _ _ _ Ht (out_char_writes t (chr "%"))) as (t' & -> & Ht'). by exists t', ap, []. }
  destruct (echo_unknown_writes s conv) as [txt Hw]. destruct (writes_total _ _ _ Ht (Hw t)) as (t' & -> & Ht'). by exists t', ap, [].
Qed.

(** *** Parsing *)

Definition no_len (s : spec) : Prop := fs_len s = LEN_NONE /\ fs_ldbl s = false.

Lemma flag_spec s c : match flag s c with
  | Some s' => is_flag c = true /\ (no_len s -> no_len s')
  | None => is_flag c = false
  end.
Proof.
  destruct s as [? ? ? ? lft ? ? ? ? ? ?]. unfold flag, is_flag, one_of, no_len.
  change (str _) with [35; 39; 43; 32; 73; 45; 48]. cbn [existsb].
  repeat (destruct (c =? _); [split; [reflexivity|done]|]). reflexivity.
Qed.

Lemma parse_flags_spec f : forall s, no_len s -> (parse_flags s f).2 = skip_while is_flag f /\ no_len (parse_flags s f).1.
Proof.
  induction f as [|c f IH]; intros s Hs; [done|]. cbn [parse_flags skip_while]. pose proof (flag_spec s c) as Hf.
  destruct (flag s c) as [s'|]; [destruct Hf as [-> Hn]; apply IH; auto|]. by rewrite Hf.
Qed.

Lemma parse_count_spec f : forall v, match parse_count v f with Some (_, f') => f' = skip_while is_dec f | None => True end.
Proof.
  induction f as [|c f IH]; intros v; [done|]. cbn [parse_count skip_while]. unfold is_dec.
  destruct (_ && _); [|done]. cbv zeta. destruct (INT_MAX <? _); [done|]. apply IH.
Qed.

Definition parses (r : option parse) (f : list Z) (rest : list argty) : Prop :=
  exists x, r = Some x /\ match x with
  | inl _ => True
  | inr (s, f', ap) => f' = f /\ no_len s /\ accepts ap rest = true
  end.

Lemma parse_width_spec s f ap rest : no_len s -> accepts ap ((count_types f).1 ++ rest) = true ->
  parses (parse_width s f ap) (count_types f).2 rest.
Proof.
  intros Hs Ha. unfold parse_width, count_types, parses in *. destruct (peek f =? chr "*"); cbn [fst snd app] in *.
  - apply accepts_cons in Ha as (a & ap' & -> & Hty & Hr). destruct a; try done. cbn [va_int mbind option_bind]. cbv zeta.
    eexists. split; [reflexivity|]. by destruct (_ <? 0).
  - pose proof (parse_count_spec f 0) as Hc. destruct (parse_count 0 f) as [[v f']|]; eexists; (split; [reflexivity|done]).
Qed.

Lemma parse_prec_spec s f ap rest : no_len s ->
  let c := if peek f =? chr "." then count_types (tail f) else ([], f) in
  accepts ap (c.1 ++ rest) = true -> parses (parse_prec s f ap) c.2 rest.
Proof.
  intros Hs. cbv zeta. unfold parse_prec, parses. destruct (peek f =? chr "."); cbn [negb fst snd app]; intros Ha; [|by eexists].
  unfold count_types in *. destruct (peek (tail f) =? chr "*"); cbn [fst snd app] in *.
  - apply accepts_cons in Ha as (a & ap' & -> & Hty & Hr). destruct a; try done. cbn [va_int mbind option_bind]. cbv zeta.
    by eexists.
  - pose proof (parse_count_spec (tail f) 0) as Hc. destruct (parse_count 0 _) as [[v f']|]; eexists; (split; [reflexivity|done]).
Qed.

Lemma parse_len_spec s f : no_len s -> (parse_len s f).2 = (parse_len spec0 f).2 /\
  fs_len (parse_len s f).1 = fs_len (parse_len spec0 f).1 /\ fs_ldbl (parse_len s f).1 = fs_ldbl (parse_len spec0 f).1.
Proof. intros [H1 H2]. unfold parse_len. cbv zeta. repeat case_match; done. Qed.

(** *** Lengths: every round of the loop consumes a character *)

Lemma skip_while_length p f : (length (skip_while p f) <= length f)%nat.
Proof. induction f as [|c f IH]; [done|]. cbn [skip_while]. destruct (p c); cbn; lia. Qed.

Lemma tail_length (f : list Z) : (length (tail f) <= length f)%nat.
Proof. destruct f; cbn; lia. Qed.

Lemma count_types_length f : (length (count_types f).2 <= length f)%nat.
Proof. unfold count_types. case_match; [apply tail_length|apply skip_while_length]. Qed.

Lemma parse_len_length s f : (length (parse_len s f).2 <= length f)%nat.
Proof.
  pose proof (tail_length f). pose proof (tail_length (tail f)). unfold parse_len. cbv zeta. repeat case_match; cbn [snd]; lia.
Qed.

Lemma plain_run_length f : (length (plain_run f).2 <= length f)%nat.
Proof.
  induction f as [|c f IH]; [done|]. cbn [plain_run]. destruct (_ || _); [done|]. destruct (plain_run f). cbn in *. lia.
Qed.

Lemma plain_run_shorter f : peek f <> 0 -> peek f <> chr "%" -> (length (plain_run f).2 < length f)%nat.
Proof.
  destruct f as [|c f]; [done|]. intros H1 H2. cbn [plain_run peek] in *. replace (_ || _) with false by lia.
  pose proof (plain_run_length f). destruct (plain_run f). cbn in *. lia.
Qed.

(** *** The loop *)

Lemma parse_directive_spec f ap w f1 p f2 s3 f3 rest :
  count_types (skip_while is_flag f) = (w, f1) ->
  (if peek f1 =? chr "." then count_types (tail f1) else ([], f1)) = (p, f2) ->
  parse_len spec0 f2 = (s3, f3) -> accepts ap (w ++ p ++ rest) = true ->
  exists x, parse_directive f ap = Some x /\ match x with
  | inl _ => True
  | inr (s, f', ap') => f' = f3 /\ peek f3 <> 0 /\ fs_len s = fs_len s3 /\ fs_ldbl s = fs_ldbl s3 /\ accepts ap' rest = true
  end.
Proof.
  intros Hw Hp Hl Ha. unfold parse_directive. destruct (parse_flags_spec f spec0 ltac:(done)) as [Hf0 Hn0].
  destruct (parse_flags spec0 f) as [s0 f0]. cbn [fst snd] in Hf0, Hn0. rewrite <- Hf0 in Hw. clear Hf0.
  destruct (parse_width_spec s0 f0 ap (p ++ rest) Hn0) as (x & -> & Hx); [by rewrite Hw|]. rewrite Hw in Hx. cbn [mbind option_bind].
  destruct x as [e|[[s1 g1] ap1]]; [by eexists|]. destruct Hx as (-> & Hn1 & Ha1). cbn [snd] in *.
  destruct (parse_prec_spec s1 f1 ap1 rest Hn1) as (x & -> & Hx); [by rewrite Hp|]. rewrite Hp in Hx. cbn [mbind option_bind].
  destruct x as [e|[[s2 g2] ap2]]; [by eexists|]. destruct Hx as (-> & Hn2 & Ha2). cbn [snd] in *.
  destruct (parse_len_spec s2 f2 Hn2) as (Hf & Hfl & Hfd). rewrite Hl in Hf, Hfl, Hfd. destruct (parse_len s2 f2) as [s3' f3'].
  cbn [fst snd] in *. subst f3'. destruct (peek f3 =? 0) eqn:E; eexists; (split; [reflexivity|]); [done|]. split_and!; (done || lia).
Qed.

Lemma format_loop_total k : forall e t f ap, (length f < k)%nat -> fits t -> accepts ap (wants_loop k f) = true ->
  exists t' ws, format_loop k e t f ap = Some (t', ws) /\ fits t'.
Proof.
  induction k as [|k IH]; intros e t f ap Hk Ht Ha; [lia|]. cbn [format_loop wants_loop] in *.
  destruct (peek f =? 0) eqn:E0; cbn [orb]; [by do 2 eexists|]. destruct (negb (w_err t =? 0)); [by do 2 eexists|].
  destruct (peek f =? chr "%") eqn:Ep; cbn [negb] in *.
  - destruct f as [|c f]; [done|]. cbn [tail length] in *. destruct (count_types (skip_while is_flag f)) as [w f1] eqn:Hw.
    destruct (if peek f1 =? chr "." then count_types (tail f1) else ([], f1)) as [p f2] eqn:Hp.
    destruct (parse_len spec0 f2) as [s3 f3] eqn:Hl.
    assert (Hlen : (length f3 <= length f)%nat).
    { pose proof (count_types_length (skip_while is_flag f)) as L1. pose proof (skip_while_length is_flag f). rewrite Hw in L1.
      assert (length f2 <= length f1)%nat.
      { destruct (peek f1 =? chr "."); [|by simplify_eq]. pose proof (count_types_length (tail f1)) as L2.
        pose proof (tail_length f1). rewrite Hp in L2. cbn in *. lia. }
      pose proof (parse_len_length spec0 f2) as L3. rewrite Hl in L3. cbn in *. lia. }
    destruct (parse_directive_spec f ap w f1 p f2 s3 f3 _ Hw Hp Hl Ha) as (x & -> & Hx). cbn [mbind option_bind].
    destruct x as [err|[[s f'] ap']]; [by do 2 eexists|]. destruct Hx as (-> & Hc & Hsl & Hsd & Ha').
    rewrite <- Hsl, <- Hsd in Ha'. destruct (convert_total t s (peek f3) e ap' _ Ht Ha') as (t1 & ap1 & ws & -> & Ht1 & Ha1).
    cbn [mbind option_bind]. destruct (IH e t1 (tail f3) ap1) as (t2 & ws2 & -> & Ht2);
      [pose proof (tail_length f3); lia|done|done|]. cbn [mbind option_bind]. by do 2 eexists.
  - pose proof (plain_run_shorter f ltac:(lia) ltac:(lia)) as Hs. destruct (plain_run f) as [run f']. cbn [snd] in *.
    destruct (writes_total _ _ _ Ht (writes_bytes t run)) as (t1 & -> & Ht1). cbn [mbind option_bind]. apply IH; [lia|done|done].
Qed.

Lemma format_text_total e fmt ap : accepts ap (wants fmt) = true ->
  exists t ws, format_text e fmt ap = Some (t, ws) /\ fits t.
Proof. intros Ha. apply format_loop_total; [unfold format_fuel; lia|unfold fits, INT_MAX; cbn; lia|done]. Qed.
