(* ===== verification/FormatFixed.v ===== *)
(** * %f is correctly rounded

    The digits a fixed layout shows are those of the double times 10^P,
    rounded half to even. *)

From S2P Require Import Prelude Mem Digits StrFunc FpFmt FpFmtSpec FpRound Format FormatSim FormatText.

(** ** The digits of a window *)

Lemma fp_digit_outside rr e : fr_x rr < e \/ e <= fr_x rr - len (fr_r rr) -> fp_digit rr e = 0.
Proof. intros H. unfold fp_digit. cbv zeta. by replace (_ || _ || _) with true by lia. Qed.

Lemma int_frac_digits k rr : int_digits k rr = frac_digits k rr (Z.of_nat k - 1).
Proof.
  induction k as [|k IH]; [done|]. cbn [int_digits frac_digits]. rewrite IH. do 2 f_equal; lia.
Qed.

Lemma frac_digits_app a rr : forall b e, frac_digits (a + b) rr e = frac_digits a rr e ++ frac_digits b rr (e - Z.of_nat a).
Proof.
  induction a as [|a IH]; intros b e; cbn [frac_digits Nat.add app]; [do 2 f_equal; lia|]. rewrite IH. do 3 f_equal. lia.
Qed.

Lemma frac_digits_high k rr : forall e, fr_x rr < e - Z.of_nat k + 1 -> frac_digits k rr e = replicate k 0.
Proof.
  induction k as [|k IH]; intros e He; [done|]. cbn [frac_digits replicate]. rewrite fp_digit_outside, IH by lia. done.
Qed.

Lemma frac_digits_low k rr : forall e, e <= fr_x rr - len (fr_r rr) -> frac_digits k rr e = replicate k 0.
Proof.
  induction k as [|k IH]; intros e He; [done|]. cbn [frac_digits replicate]. rewrite fp_digit_outside, IH by lia. done.
Qed.

Lemma frac_digits_all_zero k rr : fr_r rr = [] -> forall e, frac_digits k rr e = replicate k 0.
Proof.
  intros Hr. induction k as [|k IH]; intros e; [done|]. cbn [frac_digits replicate]. rewrite IH. f_equal.
  unfold fp_digit. by rewrite Hr.
Qed.

Lemma frac_digits_kept rr suf : forall pre, fr_r rr = pre ++ suf -> frac_digits (length suf) rr (fr_x rr - len pre) = suf.
Proof.
  induction suf as [|d suf IH]; intros pre Hr; [done|]. cbn [length frac_digits]. f_equal.
  - unfold fp_digit. cbv zeta. replace (fr_x rr - (fr_x rr - len pre)) with (len pre) by lia. rewrite Hr, length_app. cbn [length].
    replace (_ || _ || _) with false by lia. by rewrite at_index_app.
  - rewrite <- (IH (pre ++ [d])) at 2; [|by rewrite <- app_assoc]. f_equal. rewrite length_app. cbn. lia.
Qed.

(** A window that holds all digits shows the number, scaled to its last place. *)
Lemma window_value rr k e : fr_x rr <= e -> e - Z.of_nat k <= fr_x rr - len (fr_r rr) ->
  value 10 (frac_digits k rr e) = value 10 (fr_r rr) * 10 ^ (fr_x rr - len (fr_r rr) - (e - Z.of_nat k)).
Proof.
  intros H1 H2. set (a := Z.to_nat (e - fr_x rr)). set (b := Z.to_nat (fr_x rr - len (fr_r rr) - (e - Z.of_nat k))).
  replace k with (a + (length (fr_r rr) + b))%nat by lia. rewrite !frac_digits_app, frac_digits_high by lia.
  replace (e - Z.of_nat a) with (fr_x rr - len (@nil Z)) by (cbn [length]; lia).
  rewrite frac_digits_kept by done. rewrite frac_digits_low by (cbn [length]; lia).
  rewrite !value_app, !value_zeros, length_replicate by lia. replace (Z.of_nat b) with (fr_x rr - len (fr_r rr) - (e - Z.of_nat k)) by lia.
  replace (_ - (e - Z.of_nat (a + (length (fr_r rr) + b)))) with (fr_x rr - len (fr_r rr) - (e - Z.of_nat k)) by lia. lia.
Qed.

Lemma fp_digit_range rr e : digits10 (fr_r rr) -> 0 <= fp_digit rr e < 10.
Proof.
  intros Hd. unfold fp_digit. cbv zeta. destruct (_ || _); [lia|]. unfold at_index. destruct (_ <? 0); [cbn; lia|].
  destruct (fr_r rr !! _) eqn:E; [|cbn; lia]. by apply (Forall_lookup_1 _ _ _ _ Hd E).
Qed.

Lemma frac_digits_range k rr : digits10 (fr_r rr) -> forall e, digits10 (frac_digits k rr e).
Proof. intros Hd. induction k; intros e; cbn [frac_digits]; constructor; [by apply fp_digit_range|done]. Qed.

(** ** Rounding at the [P]-th place *)

(** The arithmetic of [denotes]: the digits kept for [P] places are the number times 10^P, rounded. *)
Lemma denotes_round dec m e2 P : dec_ok dec -> denotes dec m e2 -> 0 <= P ->
  let k := fd_x dec + 1 + P in
  let n := len (fd_d dec) in
  round_half_even (m * 2 ^ Z.max e2 0 * 10 ^ P) (2 ^ Z.max (- e2) 0) =
  round_half_even (value 10 (fd_d dec)) (10 ^ Z.max 0 (n - k)) * 10 ^ Z.max 0 (k - n).
Proof.
  intros Hok Hden HP. cbv zeta. unfold denotes in Hden. cbv zeta in Hden.
  set (n := len (fd_d dec)) in *. set (V := value 10 (fd_d dec)) in *. set (x := fd_x dec) in *. clearbody n V x.
  set (M := m * 2 ^ Z.max e2 0) in *. assert (HD : 0 < 2 ^ Z.max (- e2) 0) by (apply Z.pow_pos_nonneg; lia).
  set (D := 2 ^ Z.max (- e2) 0) in *. clearbody M D. set (p := x + 1 - n) in *.
  assert (Hc : 0 < 10 ^ Z.max (- p) 0) by (apply Z.pow_pos_nonneg; lia).
  destruct (decide (x + 1 + P < n)) as [Hk|Hk].
  - rewrite (Z.max_r 0 (n - _)), (Z.max_l 0 (_ - n)), Z.pow_0_r, Z.mul_1_r by lia.
    assert (Hu : 0 < 10 ^ (n - (x + 1 + P))) by (apply Z.pow_pos_nonneg; lia).
    rewrite <- (round_half_even_scale _ D (10 ^ (n - (x + 1 + P)))) by lia.
    rewrite <- (round_half_even_scale V _ D) by lia. rewrite (Z.mul_comm D). f_equal.
    apply (Z.mul_reg_r _ _ (10 ^ Z.max (- p) 0)); [lia|].
    replace (V * D * 10 ^ Z.max (- p) 0) with (V * 10 ^ Z.max p 0 * D * (10 ^ P * 10 ^ (n - (x + 1 + P)))); [rewrite Hden; ring|].
    replace (10 ^ Z.max (- p) 0) with (10 ^ Z.max p 0 * (10 ^ P * 10 ^ (n - (x + 1 + P)))); [ring|].
    rewrite <- !Z.pow_add_r by lia. f_equal. lia.
  - rewrite (Z.max_l 0 (n - _)), (Z.max_r 0 (_ - n)), Z.pow_0_r, round_half_even_1 by lia.
    replace (M * 10 ^ P) with (V * 10 ^ (x + 1 + P - n) * D); [by apply round_half_even_exact|].
    apply (Z.mul_reg_r _ _ (10 ^ Z.max (- p) 0)); [lia|].
    replace (M * 10 ^ P * 10 ^ Z.max (- p) 0) with (V * 10 ^ Z.max p 0 * D * 10 ^ P) by (rewrite Hden; ring).
    replace (V * 10 ^ (x + 1 + P - n) * D * 10 ^ Z.max (- p) 0) with (V * D * (10 ^ (x + 1 + P - n) * 10 ^ Z.max (- p) 0)) by ring.
    replace (V * 10 ^ Z.max p 0 * D * 10 ^ P) with (V * D * (10 ^ Z.max p 0 * 10 ^ P)) by ring. f_equal.
    rewrite <- !Z.pow_add_r by lia. f_equal. lia.
Qed.

(** The digits [layout_f] shows for a rounding [rr] of [dec]: all of [rr], the last one in the [P]-th place. *)
Lemma fixed_digits dec rr P : rounds_to dec (fd_x dec + 1 + P) rr -> 0 <= P ->
  let int_len := if (0 <? len (fr_r rr)) && (0 <=? fr_x rr) then fr_x rr + 1 else 1 in
  let id := int_digits (Z.to_nat int_len) rr in
  let fd := frac_digits (Z.to_nat P) rr (-1) in
  digits10 id /\ digits10 fd /\ (id = [0] \/ exists c r, id = c :: r /\ c <> 0) /\
  value 10 (id ++ fd) = value 10 (fr_r rr) * 10 ^ Z.max 0 (fd_x dec + 1 + P - len (fd_d dec)).
Proof.
  intros (Hd & Hh & Hl & Hx & Hpos & Hv & Hneg) HP. cbv zeta. set (il := if _ && _ then _ else 1).
  assert (Hil : 1 <= il /\ (fr_r rr <> [] -> fr_x rr <= il - 1)).
  { subst il. destruct (fr_r rr) eqn:E; [done|]. cbn [length]. case_match; lia. }
  rewrite int_frac_digits. replace (Z.of_nat (Z.to_nat il) - 1) with (il - 1) by lia.
  split; [by apply frac_digits_range|]. split; [by apply frac_digits_range|]. split.
  - destruct (fr_r rr) as [|c r] eqn:Er; subst il.
    + left. cbn [length]. change (Z.to_nat _) with 1%nat. cbn [frac_digits]. f_equal. apply fp_digit_outside. rewrite Er. cbn. lia.
    + destruct (0 <=? fr_x rr) eqn:E; rewrite ?andb_true_r, ?andb_false_r.
      * right. replace (0 <? len (c :: r)) with true by (cbn [length]; lia).
        replace (Z.to_nat (fr_x rr + 1)) with (S (Z.to_nat (fr_x rr))) by lia. cbn [frac_digits]. do 2 eexists. split; [reflexivity|].
        unfold fp_digit. cbv zeta. replace (fr_x rr - (fr_x rr + 1 - 1)) with 0 by lia. rewrite Er. cbn [length].
        replace (_ || _ || _) with false by lia. cbn. by apply (Hh c r).
      * left. change (Z.to_nat 1) with 1%nat. cbn [frac_digits]. f_equal. apply fp_digit_outside. lia.
  - replace (frac_digits (Z.to_nat il) rr (il - 1) ++ frac_digits (Z.to_nat P) rr (-1))
      with (frac_digits (Z.to_nat il + Z.to_nat P) rr (il - 1)) by (rewrite frac_digits_app; do 2 f_equal; lia).
    destruct (decide (fr_r rr = [])) as [Er|Er].
    + rewrite frac_digits_all_zero by done. rewrite value_zeros, Er. done.
    + destruct (decide (fd_x dec + 1 + P < 0)); [by destruct Er; apply Hneg|]. pose proof (proj2 Hil Er). rewrite window_value by lia. do 2 f_equal. lia.
Qed.

(** The layout of [%f], and what its digits denote. *)
Lemma fixed_layout bits dec P : dec_of dec bits -> 0 <= P ->
  exists l, layout_f P dec = Some l /\ layout_ok l /\ ly_style_e l = false /\ ly_frac l = P /\
    let id := int_digits (Z.to_nat (ly_int l)) (ly_rr l) in
    let fd := frac_digits (Z.to_nat P) (ly_rr l) (-1) in
    ly_int l <= 402 /\ digits10 id /\ digits10 fd /\ (id = [0] \/ exists c r, id = c :: r /\ c <> 0) /\
    value 10 (id ++ fd) = round_half_even (dbl_m bits * 2 ^ Z.max (dbl_e2 bits) 0 * 10 ^ P) (2 ^ Z.max (- dbl_e2 bits) 0).
Proof.
  intros Hof HP. destruct (round_dec_ok dec bits (fd_x dec + 1 + P) Hof) as (rr & Hrr & Hx & Hz & Hnz).
  unfold layout_f. rewrite Hrr. cbn [mbind option_bind]. eexists. split; [reflexivity|].
  cbn [ly_rr ly_style_e ly_int ly_frac ly_exp]. set (il := if _ && _ then fr_x rr + 1 else 1).
  assert (Hil : 0 <= il <= 402) by (subst il; case_match; lia).
  split; [by unfold layout_ok; cbn; lia|]. do 2 (split; [done|]). cbv zeta. split; [lia|].
  destruct Hof as [(Hm & Hd & Hx0)|(Hm & Hok & Hden & Hx0)].
  - specialize (Hz Hd). subst rr. change il with 1. change (Z.to_nat 1) with 1%nat. rewrite Hm.
    rewrite (frac_digits_all_zero _ (mkRound [] 0) eq_refl). cbn [int_digits].
    change (fp_digit (mkRound [] 0) (Z.of_nat 0)) with 0. split_and!.
    + constructor; [lia|constructor].
    + apply Forall_replicate. lia.
    + by left.
    + change ([0] ++ replicate (Z.to_nat P) 0) with (replicate (S (Z.to_nat P)) 0). rewrite value_zeros.
      symmetry. apply round_half_even_small; [lia|]. pose proof (Z.pow_pos_nonneg 2 (Z.max (- dbl_e2 bits) 0)). lia.
  - assert (Hne : fd_d dec <> []) by (destruct Hok as (_ & _ & (c & r & -> & _) & _); done).
    pose proof (Hnz Hne) as Hr. pose proof Hr as (_ & _ & _ & _ & _ & Hv & _).
    destruct (fixed_digits dec rr P Hr HP) as (H1 & H2 & H3 & H4). fold il in H1, H3, H4. split_and!; [done..|].
    rewrite H4, Hv. symmetry. by apply denotes_round.
Qed.

(** ** Claims *)

(** C22. [%.Pf] without a field width prints, for a finite double, the sign and
    the digits of the double times 10^P, rounded to nearest with ties to even on its exact
    value, with P digits after the point and no leading zero in front. *)
Theorem printf_f_correctly_rounded s bits P :
  finite bits -> fs_width s = 0 -> fs_prec s = P -> 0 <= P <= INT_MAX - 1000 ->
  exists id fd,
    emit_double (mkText [] 0) s (chr "f") bits =
      Some (mkText (sign_text (sign_char s (Z.testbit bits 63)) ++ digit_text id ++
                    (if (0 <? P) || fs_alt s then [chr "."] else []) ++ digit_text fd) 0) /\
    digits10 (id ++ fd) /\ len fd = P /\ (id = [0] \/ exists c r, id = c :: r /\ c <> 0) /\
    value 10 (id ++ fd) = round_half_even (dbl_m bits * 2 ^ Z.max (dbl_e2 bits) 0 * 10 ^ P) (2 ^ Z.max (- dbl_e2 bits) 0).
Proof.
  intros [Hb Hf] Hw Hs HP.
  destruct (fp_exact_dec bits Hf) as (dec & Hdec & Hof).
  destruct (fixed_layout bits dec P Hof ltac:(lia)) as (l & Hl & Hlok & Hse & Hfr & Hil & Hid & Hfd & Hlead & Hv).
  do 2 eexists. split; [|split_and!; [apply Forall_app; split; [exact Hid|exact Hfd]|rewrite length_frac_digits; lia|exact Hlead|exact Hv]].
  apply writes_fits.
  { unfold digit_text. rewrite !length_app, !length_map, length_int_digits, length_frac_digits.
    pose proof (length_sign (sign_char s (Z.testbit bits 63))) as Hsl. unfold sign_len in Hsl. destruct Hlok as (_ & Hi0 & _).
    destruct (_ || _), (_ =? 0); cbn [length]; lia. }
  unfold emit_double. cbv zeta. replace (bexp_of bits =? 0x7ff) with false by lia. fold (dbl_m bits) (dbl_e2 bits).
  rewrite Hdec. cbn [mbind option_bind]. change (is_upper_conv (chr "f")) with false. cbn iota. cbn [Z.eqb Pos.eqb].
  unfold fp_layout. rewrite Hs. replace (P <? 0) with false by lia. cbn [Z.eqb Pos.eqb]. rewrite Hl. cbn [mbind option_bind].
  eapply writes_eq; [by apply emit_finite_writes|]. unfold field, pad_to. rewrite Hw.
  replace (_ <? 0) with false by lia. unfold finite_body. rewrite Hse, Hfr. unfold spaces, zeros. cbn [Z.to_nat replicate app].
  destruct (fs_left s), (true && fs_zero s); by rewrite ?app_nil_r.
Qed.

Example printf_f_correctly_rounded_witness :
  exists id fd,
    emit_double (mkText [] 0) (set_prec spec0 1) (chr "f") 0x3fd0000000000000 =
      Some (mkText (sign_text (sign_char (set_prec spec0 1) false) ++ digit_text id ++ [chr "."] ++ digit_text fd) 0) /\
    digits10 (id ++ fd) /\ len fd = 1 /\ (id = [0] \/ exists c r, id = c :: r /\ c <> 0) /\
    value 10 (id ++ fd) = round_half_even (2 ^ 52 * 2 ^ 0 * 10 ^ 1) (2 ^ 54).
Proof. apply (printf_f_correctly_rounded (set_prec spec0 1) 0x3fd0000000000000 1); [split; [lia|by vm_compute]|done|done|unfold INT_MAX; lia]. Defined.
