(* ===== verification/FormatNumbers.v ===== *)
(** * Printed integers read back

    What [emit_number] prints is a numeral of the strtol family, whatever
    the flags, width and precision. *)

From S2P Require Import Prelude Mem Digits StrFunc NumConv FpFmt Format FormatSim FormatText FormatTypes.

Definition is_base (base : Z) : Prop := base = 2 \/ base = 8 \/ base = 10 \/ base = 16.

Lemma digit_char_value up d : 0 <= d < 16 -> digit_value (digit_char up d) = d.
Proof. intros Hd. unfold digit_char, digit_value. destruct up; repeat case_match; lia. Qed.

Lemma value_from_chars base up ds : Forall (fun d => 0 <= d < 16) ds -> forall acc,
  value_from base acc (map (digit_char up) ds) = foldl (fun a d => a * base + d) acc ds.
Proof.
  induction 1 as [|d ds Hd _ IH]; intros acc; [done|]. cbn [map]. unfold value_from in *. cbn [foldl]. by rewrite digit_char_value, IH.
Qed.

Lemma value_from_zeros base k ds : value_from base 0 (replicate k (chr "0") ++ ds) = value_from base 0 ds.
Proof. induction k as [|k IH]; [done|]. exact IH. Qed.

(** The digits printed, with any zeros in front of them, denote the magnitude. *)
Lemma number_digits_value s mag base up alt k : is_base base -> 0 <= mag < 2 ^ 64 ->
  value_from base 0 (replicate k (chr "0") ++ number_digits s mag base up alt) = mag.
Proof.
  intros Hb Hm. rewrite value_from_zeros. unfold number_digits. cbv zeta.
  set (ds := if (mag =? 0) && (fs_prec s =? 0) then [] else rev (map (digit_char up) (digits_rev base mag))).
  assert (Hds : value_from base 0 ds = mag).
  { subst ds. destruct (_ && _) eqn:E; [cbn; lia|]. rewrite <- map_rev, value_from_chars.
    - transitivity (value base (rev (digits_rev base mag))); [done|]. rewrite value_of_rev. apply digits_rev_value; unfold is_base in Hb; lia.
    - apply Forall_rev. eapply Forall_impl; [apply (digits_rev_range base); unfold is_base in Hb; lia|]. cbn. unfold is_base in Hb. lia. }
  clearbody ds. destruct (_ && _); [exact (eq_trans (value_from_zeros base (S _) ds) Hds)|]. unfold zeros. by rewrite value_from_zeros.
Qed.

Lemma number_digits_range s mag base up alt k : is_base base -> 0 <= mag < 2 ^ 64 ->
  Forall (is_digit_of base) (replicate k (chr "0") ++ number_digits s mag base up alt).
Proof.
  intros Hb Hm. assert (Hz : is_digit_of base (chr "0")) by (unfold is_digit_of, is_base in *; cbn; lia).
  apply Forall_app. split; [by apply Forall_replicate|]. unfold number_digits. cbv zeta.
  set (ds := if (mag =? 0) && (fs_prec s =? 0) then [] else rev (map (digit_char up) (digits_rev base mag))).
  assert (Hds : Forall (is_digit_of base) ds).
  { subst ds. destruct (_ && _); [done|]. apply Forall_rev, Forall_map.
    eapply Forall_impl; [apply (digits_rev_range base); unfold is_base in Hb; lia|]. cbn. intros d Hd.
    unfold is_digit_of. rewrite digit_char_value; unfold is_base in Hb; lia. }
  assert (Forall (is_digit_of base) (zeros (fs_prec s - len ds) ++ ds)) by (apply Forall_app; split; [by apply Forall_replicate|done]).
  clearbody ds. destruct (_ && _); [by constructor|done].
Qed.

(** A field is white space, sign, prefix, zeros, body and white space. *)
Lemma field_split s zero pre body : exists ws k rest, field s zero pre body = ws ++ pre ++ (replicate k (chr "0") ++ body) ++ rest /\
  Forall (fun c => is_space_c c = true) ws /\ Forall (fun c => c = chr " ") rest /\ (zero = false -> k = 0%nat).
Proof.
  unfold field. set (p := pad_to s _). assert (Hsp : Forall (fun c => c = chr " ") (spaces p)) by by apply Forall_replicate.
  destruct (fs_left s); [|destruct (zero && fs_zero s) eqn:E].
  - exists [], 0%nat, (spaces p). done.
  - exists [], (Z.to_nat p), []. rewrite !app_nil_r. split_and!; [done..|]. intros ->. done.
  - exists (spaces p), 0%nat, []. rewrite app_nil_r. split_and!; [done| |done..].
    eapply Forall_impl; [exact Hsp|]. by intros c ->.
Qed.

(** The sign of a printed number, split into white space and a sign. *)
Lemma sign_split s (sc neg : bool) : exists w sg,
  sign_text (if sc then sign_char s neg else 0) = w ++ sg /\ Forall (fun c => is_space_c c = true) w /\ sign sg (sc && neg) /\
  (sc && neg = true -> w = []).
Proof.
  destruct sc; [|exists [], []; split_and!; [done..|constructor|done]]. unfold sign_char. cbn [andb].
  destruct neg; [exists [], [chr "-"]; split_and!; [done..|constructor|done]|].
  destruct (fs_plus s); [exists [], [chr "+"]; split_and!; [done..|constructor|done]|].
  destruct (fs_space s); [exists [chr " "], []; split_and!; [done|repeat constructor|constructor|done]|].
  exists [], []. split_and!; [done..|constructor|done].
Qed.

Lemma peek_at_forall (P : Z -> Prop) l i : Forall P l -> P 0 -> P (peek_at l i).
Proof. intros Hl H0. unfold peek_at. destruct (l !! i) eqn:E; [|done]. by apply (Forall_lookup_1 _ _ _ _ Hl E). Qed.

Lemma number_radix mag base up alt ds rest : is_base base -> ds <> [] -> Forall (is_digit_of base) ds ->
  Forall (fun c => c = chr " ") rest -> radix base (number_prefix mag base up alt) (ds ++ rest) base.
Proof.
  intros Hb Hne Hds Hrest.
  assert (Hall : Forall (fun c => digit_value c < base \/ c = chr " ") (ds ++ rest)).
  { apply Forall_app. split; [eapply Forall_impl; [exact Hds|]; unfold is_digit_of; cbn; lia|].
    eapply Forall_impl; [exact Hrest|]. cbn. tauto. }
  assert (Hgiven : ~ hex_prefix base (ds ++ rest) /\ ~ bin_prefix base (ds ++ rest)).
  { assert (Hp : digit_value (peek_at (ds ++ rest) 1) < base \/ peek_at (ds ++ rest) 1 = chr " " \/ peek_at (ds ++ rest) 1 = 0).
    { apply (peek_at_forall (fun c => digit_value c < base \/ c = chr " " \/ c = 0)); [|by right; right].
      eapply Forall_impl; [exact Hall|]. cbn. intros c [Hc|Hc]; tauto. }
    unfold is_base in Hb. split; intros (Hbase & _ & Hc & _); destruct Hc as [Hc|Hc]; rewrite Hc in Hp; cbn in Hp; lia. }
  assert (Hhead : 0 <= digit_value (peek (ds ++ rest)) < base).
  { destruct ds as [|d ds]; [done|]. by apply Forall_inv in Hds. }
  assert (Hhead2 : forall c, peek_at (chr "0" :: c :: ds ++ rest) 2 = peek (ds ++ rest)) by (intros c; by destruct ds).
  unfold number_prefix. destruct (alt && _); [|apply radix_given; [unfold is_base in Hb; lia|tauto..]].
  destruct (base =? 16) eqn:E16; [|destruct (base =? 2) eqn:E2; [|apply radix_given; [unfold is_base in Hb; lia|tauto..]]].
  - assert (base = 16) by lia. subst base. destruct up; apply radix_hex; (split; [lia|]); (split; [done|]); rewrite Hhead2;
      (split; [|lia]); by (left + right).
  - assert (base = 2) by lia. subst base. destruct up; apply radix_bin; (split; [lia|]); (split; [done|]); rewrite Hhead2;
      (split; [|lia]); by (left + right).
Qed.

Lemma spaces_no_digit rest base : Forall (fun c => c = chr " ") rest -> base <= 16 -> base <= digit_value (peek rest).
Proof. intros H Hb. destruct H as [|c rest ->]; cbn; lia. Qed.

Lemma number_numeral s sc neg mag base up alt : is_base base -> 0 <= mag < 2 ^ 64 -> number_digits s mag base up alt <> [] ->
  exists ds n, numeral base (number_text s sc neg mag base up alt) (sc && neg) base ds n /\ value_from base 0 ds = mag.
Proof.
  intros Hb Hm Hne. unfold number_text. set (nd := number_digits s mag base up alt) in *.
  destruct (sign_split s sc neg) as (w & sg & -> & Hw & Hsg & _).
  destruct (field_split s (fs_prec s <? 0) ((w ++ sg) ++ number_prefix mag base up alt) nd) as (ws & k & rest & -> & Hws & Hrest & _).
  pose proof (number_digits_range s mag base up alt k Hb Hm) as Hr. pose proof (number_digits_value s mag base up alt k Hb Hm) as Hv.
  fold nd in Hr, Hv. set (ds := replicate k (chr "0") ++ nd) in *.
  assert (Hds : ds <> []) by (subst ds; destruct k; [done|]; by destruct nd).
  exists ds. eexists. split; [|exact Hv]. exists (ws ++ w), sg, (number_prefix mag base up alt), rest.
  split_and!; [by rewrite <- !app_assoc|reflexivity|by apply Forall_app|exact Hsg|by apply number_radix|done|done|].
  apply spaces_no_digit; [done|unfold is_base in Hb; lia].
Qed.

(** Nothing but white space and a sign reads as zero. *)
Lemma parse_magnitude_blank base ws sg rest neg : is_base base -> Forall (fun c => is_space_c c = true) ws -> sign sg neg ->
  Forall (fun c => c = chr " ") rest -> exists neg', parse_magnitude (ws ++ sg ++ rest) base = (0, neg', false, -1).
Proof.
  intros Hb Hws Hsg Hrest. pose proof (spaces_no_digit rest base Hrest ltac:(unfold is_base in Hb; lia)) as Hd.
  assert (Hp : peek rest <> chr "0" /\ peek rest <> chr "-" /\ peek rest <> chr "+") by (destruct Hrest as [|c r ->]; done).
  assert (Hrs : skip_spaces rest = []) by (clear -Hrest; induction Hrest as [|c r -> _ IH]; [done|exact IH]).
  assert (Hpre : forall p, peek p <> chr "0" -> take_prefix base p = (base, p)).
  { intros p Hp0. unfold take_prefix. replace (peek p =? chr "0") with false by lia. rewrite !andb_false_r. cbn [andb].
    unfold is_base in Hb. by replace (base =? 0) with false by lia. }
  assert (Hloop : forall p, base <= digit_value (peek p) -> digit_loop p base 0 false false = (0, false, false, p)).
  { intros [|c p] Hc; [done|]. cbn [digit_loop peek] in *. cbv zeta. by replace (base <=? digit_value c) with true by lia. }
  assert (Hskip : forall p, skip_spaces (ws ++ p) = skip_spaces p).
  { intros p. clear -Hws. induction Hws as [|c l Hc _ IH]; [done|]. cbn. by rewrite Hc. }
  unfold parse_magnitude. rewrite Hskip. destruct Hsg; cbn [app].
  - rewrite Hrs. exists false. unfold take_sign. cbn [peek Z.eqb orb]. rewrite Hpre by done. rewrite Hloop; [done|].
    unfold is_base in Hb. cbn. lia.
  - exists false. cbn [skip_spaces]. cbn. rewrite Hpre by tauto. by rewrite Hloop.
  - exists true. cbn [skip_spaces]. cbn. rewrite Hpre by tauto. by rewrite Hloop.
Qed.

Lemma number_digits_empty s mag base up alt : is_base base -> number_digits s mag base up alt = [] -> mag = 0 /\ fs_prec s = 0.
Proof.
  intros Hb. unfold number_digits. cbv zeta. destruct ((mag =? 0) && (fs_prec s =? 0)) eqn:E; [lia|]. intros H. exfalso.
  assert (Hl : rev (map (digit_char up) (digits_rev base mag)) = []).
  { revert H. generalize (rev (map (digit_char up) (digits_rev base mag))). intros l. case_match; [done|].
    by intros [_ H']%app_eq_nil. }
  apply (f_equal length) in Hl. rewrite length_rev, length_map in Hl. unfold digits_rev in Hl. cbn in Hl. lia.
Qed.

(** What is printed for a magnitude is parsed as that magnitude. *)
Lemma number_parses s sc neg mag base up alt : is_base base -> 0 <= mag < 2 ^ 64 ->
  (exists ds n, numeral base (number_text s sc neg mag base up alt) (sc && neg) base ds n /\ value_from base 0 ds = mag) \/
  (mag = 0 /\ exists neg', parse_magnitude (number_text s sc neg mag base up alt) base = (0, neg', false, -1)).
Proof.
  intros Hb Hm. destruct (number_digits s mag base up alt) eqn:E; [|left; apply number_numeral; [done..|by rewrite E]].
  right. pose proof (number_digits_empty _ _ _ _ _ Hb E) as [-> Hp]. split; [done|]. unfold number_text. rewrite E.
  unfold number_prefix. cbn [Z.eqb negb]. rewrite andb_false_r, app_nil_r.
  destruct (sign_split s sc neg) as (w & sg & -> & Hw & Hsg & _).
  destruct (field_split s (fs_prec s <? 0) (w ++ sg) []) as (ws & k & rest & -> & Hws & Hrest & Hk).
  rewrite Hk by lia. cbn [replicate app]. rewrite <- app_assoc, app_assoc.
  by eapply parse_magnitude_blank; [|apply Forall_app|exact Hsg|].
Qed.

Lemma digits_loop_bound fuel : forall base v, (length (digits_loop fuel base v) <= fuel)%nat.
Proof. induction fuel as [|fuel IH]; intros base v; cbn; [lia|]. case_match; cbn; [lia|]. specialize (IH base (v / base)). lia. Qed.

(** The width, or the digits (at least as many as the precision), a sign and a prefix. *)
Lemma number_text_length s sc neg mag base up alt : len (number_text s sc neg mag base up alt) <= Z.max (fs_width s) (Z.max (fs_prec s) 65 + 4).
Proof.
  unfold number_text. rewrite length_field, length_app.
  assert (Hs : (length (sign_text (if sc then sign_char s neg else 0)) <= 1)%nat) by (unfold sign_text; case_match; cbn; lia).
  assert (Hp : (length (number_prefix mag base up alt) <= 2)%nat) by (unfold number_prefix; repeat case_match; cbn; lia).
  assert (Hd : len (number_digits s mag base up alt) <= Z.max (fs_prec s) 65 + 1).
  { unfold number_digits. cbv zeta. set (ds := if _ && _ then [] else _). assert (Hds : len ds <= 65).
    { unfold ds. destruct (_ && _); [cbn; lia|]. rewrite length_rev, length_map. pose proof (digits_loop_bound 64 base mag). unfold digits_rev. lia. }
    clearbody ds. assert (Hz : len (zeros (fs_prec s - len ds) ++ ds) <= Z.max (fs_prec s) 65) by (rewrite length_app, length_zeros; lia). destruct (_ && _); cbn [length]; lia. }
  lia.
Qed.

Lemma writes_no_error r txt : writes r (mkText [] 0) txt -> exists t, r = Some t /\ (len txt <= INT_MAX -> tx_err t = 0) /\ (tx_err t = 0 -> tx_out t = txt).
Proof.
  intros H. destruct H as (t & -> & _ & _ & Hf & Ho); [unfold fits, INT_MAX; cbn; lia|]. exists t. split; [done|]. split; [intros Hl; by rewrite Hf|]. intros He. cbn in *.
  destruct (decide (len txt <= INT_MAX)) as [Hl|Hl]; [by rewrite Hf by (done || lia)|].
  destruct Ho as [Ho _]; [done|lia|]. by rewrite Ho in He.
Qed.

Lemma strtoll_reads err s sc neg v up alt : is_i64 v -> sc && neg = (v <? 0) ->
  exists n, strtoll err (number_text s sc neg (Z.abs v) 10 up alt) 10 = (v, Some n, err).
Proof.
  intros Hv Hn. unfold is_i64 in Hv. destruct (number_parses s sc neg (Z.abs v) 10 up alt) as [(ds & n & Hnum & Hval)|(Hz & neg' & Hp)];
    [unfold is_base; lia|lia|..].
  - exists n. rewrite (strtoll_spec err _ _ _ _ _ _ Hnum), Hval, Hn.
    replace (if v <? 0 then - Z.abs v else Z.abs v) with v by (case_match; lia). by replace (in_i64 v) with true by (unfold in_i64, LLONG_MIN, LLONG_MAX; lia).
  - exists 0. unfold strtoll. cbn [base_valid Z.eqb Z.leb Z.compare andb orb negb]. change (base_valid 10) with true. cbn [negb].
    rewrite Hp. assert (v = 0) by lia. subst v. by destruct neg'.
Qed.

Lemma strtoull_reads err s v base up alt : is_base base -> 0 <= v < 2 ^ 64 ->
  exists n, strtoull err (number_text s false false v base up alt) base = (v, Some n, err).
Proof.
  intros Hb Hv. destruct (number_parses s false false v base up alt Hb Hv) as [(ds & n & Hnum & Hval)|(-> & neg' & Hp)].
  - exists n. rewrite (strtoull_spec err _ _ _ _ _ _ Hnum), Hval. cbn [andb]. replace (v <? 2 ^ 64) with true by lia. by rewrite u64_small.
  - exists 0. unfold strtoull. replace (base_valid base) with true by (unfold base_valid, is_base in *; lia). cbn [negb].
    rewrite Hp. by destruct neg'.
Qed.

(** ** Claims *)

(** The bits of the type that a length modifier asks for, and an argument passed for it. *)
Definition int_bits (l : length_mod) : Z := match l with LEN_HH => 8 | LEN_H => 16 | LEN_NONE => 32 | _ => 64 end.
Definition int_arg (l : length_mod) (v : Z) : arg := match l with LEN_NONE | LEN_H | LEN_HH => AInt v | _ => ALong v end.

Lemma signed_arg l v ap : match l with
  | LEN_HH => '(v, ap) ← va_int (int_arg l v :: ap); Some (i8 v, ap)
  | LEN_H => '(v, ap) ← va_int (int_arg l v :: ap); Some (i16 v, ap)
  | LEN_NONE => va_int (int_arg l v :: ap)
  | _ => va_long (int_arg l v :: ap)
  end = Some (swrap (int_bits l) v, ap).
Proof. destruct l; try done; cbn; unfold i8, i16, i32, swrap; f_equal; f_equal; zdm. Qed.

Lemma unsigned_arg l v ap : match l with
  | LEN_HH => '(v, ap) ← va_uint (int_arg l v :: ap); Some (u8 v, ap)
  | LEN_H => '(v, ap) ← va_uint (int_arg l v :: ap); Some (u16 v, ap)
  | LEN_NONE => va_uint (int_arg l v :: ap)
  | _ => va_ulong (int_arg l v :: ap)
  end = Some (v mod 2 ^ int_bits l, ap).
Proof. destruct l; try done; cbn; unfold u8, u16, u32; f_equal; f_equal; zdm. Qed.

(** C23. An integer printed by printf reads back: for every length modifier
    (none, h, hh, l, ll, and the others that mean 64 bits), whatever the flags,
    the width and the precision, strtoll gives the argument of [%d] converted
    to the signed type of the modifier, and strtoull in the base of [%u], [%o],
    [%x], [%X], [%b] or [%B] the argument converted to the unsigned one.  Only
    a field that does not fit an int is not printed in full (EOVERFLOW): with a
    precision of up to INT_MAX - 4 that does not happen. *)
Theorem printf_integers_read_back s v c err :
  one_of c "uoxXbB" = true -> fs_width s <= INT_MAX ->
  (exists t, conv_signed (mkText [] 0) s [int_arg (fs_len s) v] = Some (t, []) /\
     (fs_prec s <= INT_MAX - 4 -> tx_err t = 0) /\
     (tx_err t = 0 -> exists n, strtoll err (tx_out t) 10 = (swrap (int_bits (fs_len s)) v, Some n, err))) /\
  (exists t, conv_unsigned (mkText [] 0) s c [int_arg (fs_len s) v] = Some (t, []) /\
     (fs_prec s <= INT_MAX - 4 -> tx_err t = 0) /\
     (tx_err t = 0 -> exists n, strtoull err (tx_out t) (conv_base c) = (v mod 2 ^ int_bits (fs_len s), Some n, err))).
Proof.
  intros Hc Hw.
  assert (Hb : is_base (conv_base c)) by (unfold is_base, conv_base; repeat case_match; tauto).
  assert (Hfit : forall sc neg mag base up alt, fs_prec s <= INT_MAX - 4 -> len (number_text s sc neg mag base up alt) <= INT_MAX).
  { intros sc neg mag base up alt Hp. pose proof (number_text_length s sc neg mag base up alt). unfold INT_MAX in *. lia. }
  split.
  - set (x := swrap (int_bits (fs_len s)) v). assert (Hx : is_i64 x) by (subst x; unfold swrap, is_i64; destruct (fs_len s); cbn [int_bits]; zdm).
    assert (Hneg : (if x <? 0 then u64 (0 - u64 x) else u64 x) = Z.abs x) by (unfold is_i64 in Hx; unfold u64; case_match; zdm).
    destruct (writes_no_error _ _ (emit_number_writes (mkText [] 0) s true (x <? 0) (Z.abs x) 10 false false)) as (t & Ht & Hl & Ho).
    exists t. split; [|split; [auto|intros He; rewrite (Ho He); by apply strtoll_reads]].
    unfold conv_signed. rewrite signed_arg. obind. fold x. by rewrite Hneg, Ht.
  - set (x := v mod 2 ^ int_bits (fs_len s)). assert (Hx : 0 <= x < 2 ^ 64) by (subst x; destruct (fs_len s); cbn [int_bits]; zdm).
    destruct (writes_no_error _ _ (emit_number_writes (mkText [] 0) s false false x (conv_base c)
      ((c =? chr "X") || (c =? chr "B")) (fs_alt s))) as (t & Ht & Hl & Ho).
    exists t. split; [|split; [auto|intros He; rewrite (Ho He); by apply strtoull_reads]].
    unfold conv_unsigned. rewrite unsigned_arg. obind. fold x. by rewrite Ht.
Qed.

(** 300 printed with hh is 44; -42 printed with [%x] reads as 2^32 - 42. *)
Example printf_integers_read_back_witness :
  (exists t, conv_signed (mkText [] 0) (set_len (set_width (set_prec spec0 5) 12) LEN_HH false) [AInt 300] = Some (t, []) /\
     tx_err t = 0 /\ exists n, strtoll 0 (tx_out t) 10 = (44, Some n, 0)) /\
  (exists t, conv_unsigned (mkText [] 0) spec0 (chr "x") [AInt (-42)] = Some (t, []) /\
     tx_err t = 0 /\ exists n, strtoull 0 (tx_out t) 16 = (4294967254, Some n, 0)).
Proof.
  split.
  - destruct (printf_integers_read_back (set_len (set_width (set_prec spec0 5) 12) LEN_HH false) 300 (chr "x") 0) as [(t & E & H1 & H2) _]; [reflexivity|done|].
    exists t. split; [exact E|]. assert (He : tx_err t = 0) by (apply H1; done). split; [exact He|exact (H2 He)].
  - destruct (printf_integers_read_back spec0 (-42) (chr "x") 0) as [_ (t & E & H1 & H2)]; [reflexivity|done|].
    exists t. split; [exact E|]. assert (He : tx_err t = 0) by (apply H1; done). split; [exact He|exact (H2 He)].
Defined.
