(* ===== verification/FormatThms.v ===== *)
(** * The printf functions

    What the callers of the engine see: truncation, the sink, and integers
    that read back. *)

From S2P Require Import Prelude Mem Digits StrFunc NumConv FpFmt Format FormatSim FormatText FormatTypes.

Lemma i32_len t : fits t -> i32 (len (tx_out t)) = len (tx_out t).
Proof. unfold fits, INT_MAX, i32, swrap. intros. rewrite Z.mod_small by lia. lia. Qed.

(** The result of a call, from the text of its run. *)
Definition returns {W} (oc : outcome W) (errno : Z) (t : text) (ws : list write) : Prop :=
  oc_ret oc = (if tx_err t =? 0 then len (tx_out t) else -1) /\
  oc_errno oc = (if tx_err t =? 0 then errno else tx_err t) /\ oc_writes oc = ws.

(** *** Claims *)

(** C10. With arguments of the types its format asks for, vsnprintf returns,
    and truncates as C99 has it: the buffer gets the first [size - 1]
    characters of the text and a NUL and is unchanged behind it (wholly, for
    size 0), and the value returned is the length of the whole text, or -1
    with errno when the run failed. *)
Theorem vsnprintf_truncates buf size errno fmt ap :
  0 <= size <= len buf -> accepts ap (wants fmt) = true ->
  exists t ws oc,
    format_text errno fmt ap = Some (t, ws) /\ vsnprintf buf size errno fmt ap = Some oc /\ returns oc errno t ws /\
    oc_buf oc = if size =? 0 then buf
                else let shown := take (Z.to_nat (size - 1)) (tx_out t) in shown ++ 0 :: drop (S (length shown)) buf.
Proof.
  intros Hsize Ha. destruct (format_text_total errno fmt ap Ha) as (t & ws & Ht & Hfit). exists t, ws.
  set (cap := if 0 <? size then size - 1 else 0). assert (Hcap : 0 <= cap <= len buf) by (subst cap; case_match; lia).
  pose proof (buffered_sim buf cap Hcap) as Hsim.
  destruct (sim_loop (buffered buf cap) (format_fuel fmt) errno (mkOut buf cap 0 0 None tt 0) (mkText [] 0) fmt ap)
    with (b := (t, ws)) as ([o ws'] & Hl & Ho & Hw); [by unfold buffered; cbn [tx_out tx_err]; rewrite take_nil|exact Ht|]. cbn [fst snd] in Ho, Hw. subst ws'.
  unfold vsnprintf, moqi_vformat. cbv zeta. fold cap. rewrite Hl. cbn [mbind option_bind]. unfold buffered in Ho. subst o.
  set (shown := take (Z.to_nat cap) (tx_out t)) in *. assert (Hls : (length shown <= Z.to_nat cap)%nat) by (subst shown; rewrite length_take; lia).
  cbn [fo_buf fo_cap fo_fill fo_pos fo_sink fo_ctx fo_err].
  destruct (0 <? size) eqn:E; subst cap.
  - unfold array_write. replace (_ && _) with true by (rewrite length_app, length_drop; cbn [length]; lia).
    cbn [mbind option_bind fo_err fo_pos fo_buf fo_ctx]. rewrite i32_len by done. replace (size =? 0) with false by lia.
    assert (Hb : take (Z.to_nat (len shown)) (shown ++ drop (length shown) buf) ++ [0] ++
        drop (Z.to_nat (len shown) + length [0]) (shown ++ drop (length shown) buf) = shown ++ 0 :: drop (S (length shown)) buf).
    { rewrite Nat2Z.id, take_app_length, drop_app_ge, drop_drop by lia. cbn [length app]. do 3 f_equal. lia. }
    destruct (tx_err t =? 0) eqn:Ee; cbn [negb]; eexists; (split; [exact Ht|]; split; [reflexivity|]; split; [|exact Hb]);
      unfold returns; rewrite Ee; done.
  - assert (size = 0) by lia. subst size. cbn [mbind option_bind fo_err fo_pos fo_buf fo_ctx]. rewrite i32_len by done.
    destruct (tx_err t =? 0) eqn:Ee; cbn [negb]; eexists; (split; [exact Ht|]; split; [reflexivity|]; split; [unfold returns; by rewrite Ee|]);
      subst shown; cbn [oc_buf]; done.
Qed.

Example vsnprintf_truncates_witness :
  exists t ws oc,
    format_text 0 (str "%5d|%s") [AInt (-42); APtr 1 (str "wide" ++ [0])] = Some (t, ws) /\
    vsnprintf (replicate 8 1) 6 0 (str "%5d|%s") [AInt (-42); APtr 1 (str "wide" ++ [0])] = Some oc /\ returns oc 0 t ws /\
    oc_buf oc = take 5 (tx_out t) ++ 0 :: drop (S (length (take 5 (tx_out t)))) (replicate 8 1).
Proof. apply (vsnprintf_truncates (replicate 8 1) 6 0); [cbn; lia|by vm_compute]. Defined.

(** The same call through a sink that does not fail hands it the same text,
    in nonempty chunks of at most the buffer's size, and returns the same value
    and errno; when the run fails the sink has got a beginning of the text. *)
Lemma vformat_sink {W} (sink : W -> list Z -> Z * W) (took : list (list Z) -> W -> Prop) w0 buf size errno fmt ap :
  sink_ok sink took -> took [] w0 -> 0 < size <= len buf -> accepts ap (wants fmt) = true ->
  exists t ws oc chunks,
    format_text errno fmt ap = Some (t, ws) /\ moqi_vformat buf size (Some sink) w0 errno fmt ap = Some oc /\
    returns oc errno t ws /\ took chunks (oc_ctx oc) /\ Forall (fun c => 0 < len c <= size) chunks /\
    concat chunks `prefix_of` tx_out t /\ (tx_err t = 0 -> concat chunks = tx_out t).
Proof.
  intros Hsink H0 Hsize Ha. destruct (format_text_total errno fmt ap Ha) as (t & ws & Ht & Hfit). exists t, ws.
  pose proof (delivered_sim sink took size (len buf) Hsink Hsize) as Hsim.
  destruct (sim_loop (delivered sink took size (len buf)) (format_fuel fmt) errno (mkOut buf size 0 0 (Some sink) w0 0) (mkText [] 0) fmt ap)
    with (b := (t, ws)) as ([o ws'] & Hl & Ho & Hw); [|exact Ht|].
  { split; [|done]. unfold holding, in_cap. cbn. split_and!; [done|done|lia|lia|done|]. by exists []. }
  cbn [fst snd] in Ho, Hw. subst ws'. unfold moqi_vformat. cbv zeta. rewrite Hl. cbn [mbind option_bind].
  destruct Ho as (Hh & He & Hp). rewrite He. destruct (tx_err t =? 0) eqn:Ee.
  - destruct (flush_holding sink took size (len buf) Hsink Hsize o (tx_out t) Hh ltac:(lia)) as (o' & -> & Hh' & Hf' & He' & Hp').
    cbn [mbind option_bind]. rewrite He'. cbn [Z.eqb negb]. rewrite Hp', Hp, i32_len by done.
    destruct Hh' as (_ & _ & _ & _ & chunks & Hlog & Hch & Hout). rewrite Hf' in Hout. cbn [Z.to_nat take] in Hout. rewrite app_nil_r in Hout.
    eexists _, chunks. split; [exact Ht|]. split; [reflexivity|]. unfold returns. rewrite Ee. split_and!; try done. by rewrite Hout.
  - cbn [mbind option_bind]. rewrite He, Ee. cbn [negb]. destruct Hh as (_ & _ & _ & _ & chunks & Hlog & Hch & Hout).
    eexists _, chunks. split; [exact Ht|]. split; [reflexivity|]. unfold returns. rewrite Ee. split_and!; try done.
    + rewrite <- Hout. by eexists.
    + lia.
Qed.
