(* ===== verification/Stdio.v ===== *)
(** * FILE streams (lib/moqi_libc/src/stdio_file.c)

    A stream is the record of the source; its flag bits are booleans, its
    buffer the list of its bytes, [None] before it is allocated.  Accesses
    outside the buffer are faults ([None]).  The system calls behind the IO_
    and MEM_ macros are the operations of the class [Kernel]: they give the
    result of the call (an errno value negated on failure), what it stores, and
    the next state of the world.  A call that a signal interrupts is repeated;
    [io_interrupts] bounds how often in a row that happens and is the fuel of
    these loops.  A single-stream operation maps a state [st] (the stream,
    errno, the world) to its C result and the next state.  The lock around the
    list of open streams is not modelled. *)

From S2P Require Import Prelude Mem Digits Format.

Definition EINTR : Z := 4.
Definition EIO : Z := 5.
Definition EBADF : Z := 9.
Definition EFAULT : Z := 14.
Definition EEXIST : Z := 17.
Definition ESPIPE : Z := 29.

Class Kernel (W : Type) := {
  io_open : W -> list Z -> Z -> Z -> Z * W;
  io_read : W -> Z -> Z -> Z * list Z * W;
  io_write : W -> Z -> list Z -> Z * W;
  io_lseek : W -> Z -> Z -> Z -> Z * W;
  io_close : W -> Z -> Z * W;
  io_getfl : W -> Z -> Z * W;
  io_dup2 : W -> Z -> Z -> Z * W;
  io_unlink : W -> list Z -> Z * W;
  io_pid : W -> Z;
  mem_alloc : W -> Z -> option (list Z) * W;
  obj_alloc : W -> option Z * W;
  io_interrupts : W -> nat }.

(** ** Streams *)

Inductive bufmode := FB_FULL | FB_LINE | FB_NONE.

Record flags := mkFlags {
  F_READ : bool; F_WRITE : bool; F_APPEND : bool; F_EOF : bool; F_ERR : bool; F_USERBUF : bool; F_STATIC : bool; F_FRESH : bool }.

Definition FILE_BUFSIZE : Z := 4096.

Record FILE_s := mkFile {
  f_fd : Z; f_flags : flags; f_buf : option (list Z); f_bufsize : Z; f_rpos : Z; f_rend : Z; f_wpos : Z;
  f_bmode : bufmode; f_bufmode_fixed : bool; f_fresh_buf : bool }.

Definition set_flags (g : flags -> flags) (f : FILE_s) : FILE_s :=
  mkFile (f_fd f) (g (f_flags f)) (f_buf f) (f_bufsize f) (f_rpos f) (f_rend f) (f_wpos f) (f_bmode f) (f_bufmode_fixed f) (f_fresh_buf f).
Definition set_window (rpos rend : Z) (f : FILE_s) : FILE_s :=
  mkFile (f_fd f) (f_flags f) (f_buf f) (f_bufsize f) rpos rend (f_wpos f) (f_bmode f) (f_bufmode_fixed f) (f_fresh_buf f).
Definition set_wpos (wpos : Z) (f : FILE_s) : FILE_s :=
  mkFile (f_fd f) (f_flags f) (f_buf f) (f_bufsize f) (f_rpos f) (f_rend f) wpos (f_bmode f) (f_bufmode_fixed f) (f_fresh_buf f).
Definition set_bytes (buf : list Z) (f : FILE_s) : FILE_s :=
  mkFile (f_fd f) (f_flags f) (Some buf) (f_bufsize f) (f_rpos f) (f_rend f) (f_wpos f) (f_bmode f) (f_bufmode_fixed f) (f_fresh_buf f).
Definition set_buf (buf : list Z) (size : Z) (fresh : bool) (f : FILE_s) : FILE_s :=
  mkFile (f_fd f) (f_flags f) (Some buf) size (f_rpos f) (f_rend f) (f_wpos f) (f_bmode f) (f_bufmode_fixed f) fresh.
Definition set_fresh_buf (fresh : bool) (f : FILE_s) : FILE_s :=
  mkFile (f_fd f) (f_flags f) (f_buf f) (f_bufsize f) (f_rpos f) (f_rend f) (f_wpos f) (f_bmode f) (f_bufmode_fixed f) fresh.
Definition set_mode (m : bufmode) (f : FILE_s) : FILE_s :=
  mkFile (f_fd f) (f_flags f) (f_buf f) (f_bufsize f) (f_rpos f) (f_rend f) (f_wpos f) m true (f_fresh_buf f).

Definition flag_eof (b : bool) (l : flags) : flags :=
  mkFlags (F_READ l) (F_WRITE l) (F_APPEND l) b (F_ERR l) (F_USERBUF l) (F_STATIC l) (F_FRESH l).
Definition flag_err (b : bool) (l : flags) : flags :=
  mkFlags (F_READ l) (F_WRITE l) (F_APPEND l) (F_EOF l) b (F_USERBUF l) (F_STATIC l) (F_FRESH l).
Definition flag_fresh (b : bool) (l : flags) : flags :=
  mkFlags (F_READ l) (F_WRITE l) (F_APPEND l) (F_EOF l) (F_ERR l) (F_USERBUF l) (F_STATIC l) b.
Definition flag_userbuf (b : bool) (l : flags) : flags :=
  mkFlags (F_READ l) (F_WRITE l) (F_APPEND l) (F_EOF l) (F_ERR l) b (F_STATIC l) (F_FRESH l).

(** The bytes [a, b) of an array. *)
Definition sub_bytes (l : list Z) (a b : Z) : option (list Z) :=
  if (0 <=? a) && (a <=? b) && (b <=? len l) then Some (take (Z.to_nat (b - a)) (drop (Z.to_nat a) l)) else None.

Section Stream.
Context {W : Type} `{Kernel W}.

Record st := mkSt { st_f : FILE_s; st_errno : Z; st_w : W }.

Definition upd (g : FILE_s -> FILE_s) (s : st) : st := mkSt (g (st_f s)) (st_errno s) (st_w s).
Definition with_errno (e : Z) (s : st) : st := mkSt (st_f s) e (st_w s).
Definition with_w (w : W) (s : st) : st := mkSt (st_f s) (st_errno s) w.

(** ** Plumbing *)

Definition set_err (neg_errno : Z) (s : st) : Z * st :=
  (-1, with_errno (i32 (- neg_errno)) (upd (set_flags (flag_err true)) s)).

Definition ensure_buf (s : st) : Z * st :=
  match f_buf (st_f s) with
  | Some _ => (0, s)
  | None =>
      let '(b, w) := mem_alloc (st_w s) FILE_BUFSIZE in
      let s := with_w w s in
      match b with
      | None => (-1, upd (set_flags (flag_err true)) (with_errno ENOMEM s))
      | Some b => (0, upd (set_buf b FILE_BUFSIZE true) s)
      end
  end.

Fixpoint flush_loop (fuel : nat) (s : st) (done : Z) : option (Z * st) :=
  match fuel with
  | 0%nat => None
  | S fuel =>
      let f := st_f s in
      if done <? f_wpos f then
        buf ← f_buf f;
        data ← sub_bytes buf done (f_wpos f);
        let '(r, w) := io_write (st_w s) (f_fd f) data in
        let s := with_w w s in
        if r =? - EINTR then flush_loop fuel s done
        else if r <? 0 then Some (set_err r (upd (set_wpos 0) s))
        else if r =? 0 then Some (set_err (- EIO) (upd (set_wpos 0) s))
        else flush_loop fuel s (done + r)
      else Some (0, upd (set_wpos 0) s)
  end.

(** Every round writes a byte or is interrupted. *)
Definition io_fuel (s : st) (n : Z) : nat := S (io_interrupts (st_w s) + Z.to_nat n).

Definition flush_out (s : st) : option (Z * st) := flush_loop (io_fuel s (f_wpos (st_f s))) s 0.

(** [if (f->wpos && flush_out(f) != 0)] *)
Definition flush_pending (s : st) : option (Z * st) := if f_wpos (st_f s) =? 0 then Some (0, s) else flush_out s.

Definition drop_readahead (s : st) : Z * st :=
  let f := st_f s in
  if F_FRESH (f_flags f) then (0, upd (set_window 0 0) (upd (set_flags (flag_fresh false)) s))
  else if f_rpos f <? f_rend f then
    let back := f_rend f - f_rpos f in
    let '(r, w) := io_lseek (st_w s) (f_fd f) (- back) 1 in
    let s := with_w w s in
    if r =? - ESPIPE then (0, s)
    else if r <? 0 then set_err r (upd (set_window 0 0) s)
    else (0, upd (set_window 0 0) s)
  else (0, upd (set_window 0 0) s).

Definition wrong_direction (s : st) : Z * st := (-1, upd (set_flags (flag_err true)) (with_errno EBADF s)).

Definition begin_read (s : st) : option (Z * st) :=
  if negb (F_READ (f_flags (st_f s))) then Some (wrong_direction s) else
  '(rc, s) ← flush_pending s;
  Some (if rc =? 0 then 0 else -1, s).

Definition begin_write (s : st) : Z * st :=
  let f := st_f s in
  if negb (F_WRITE (f_flags f)) then wrong_direction s else
  let '(rc, s) := if (f_rpos f <? f_rend f) || negb (f_rend f =? 0) then drop_readahead s else (0, s) in
  if negb (rc =? 0) then (-1, s) else ensure_buf s.

Fixpoint read_loop (fuel : nat) (s : st) : option (Z * list Z * st) :=
  match fuel with
  | 0%nat => None
  | S fuel =>
      let '(r, data, w) := io_read (st_w s) (f_fd (st_f s)) (f_bufsize (st_f s)) in
      let s := with_w w s in
      if r =? - EINTR then read_loop fuel s else Some (r, data, s)
  end.

(** The bytes now available, 0 at end of file, -1 on error. *)
Definition fill (s : st) : option (Z * st) :=
  let '(rc, s) := ensure_buf s in
  if negb (rc =? 0) then Some (-1, s)
  else if F_EOF (f_flags (st_f s)) then Some (0, s)
  else
    let s := upd (set_flags (flag_fresh false)) s in
    '(r, data, s) ← read_loop (io_fuel s 0) s;
    if r <? 0 then Some (set_err r s)
    else if r =? 0 then Some (0, upd (set_window 0 0) (upd (set_flags (flag_eof true)) s))
    else
      buf ← f_buf (st_f s);
      buf ← array_write buf 0 data;
      Some (r, upd (set_window 0 r) (upd (set_bytes buf) s)).

(** ** Flags and buffering *)

Definition feof (s : st) : Z := Z.b2z (F_EOF (f_flags (st_f s))).
Definition ferror (s : st) : Z := Z.b2z (F_ERR (f_flags (st_f s))).
Definition clearerr (s : st) : st := upd (set_flags (fun l => flag_err false (flag_eof false l))) s.

Definition fflush (s : st) : option (Z * st) :=
  '(rc, s) ← flush_pending s;
  let rc := if rc =? 0 then 0 else -1 in
  let f := st_f s in
  if (f_rpos f <? f_rend f) && F_READ (f_flags f) then
    let '(d, s) := drop_readahead s in
    Some (if d =? 0 then rc else -1, s)
  else Some (rc, s).

(** [buf] is the caller's array, [None] for NULL. *)
Definition setvbuf (s : st) (buf : option (list Z)) (mode size : Z) : option (Z * st) :=
  if negb (mode =? 0) && negb (mode =? 1) && negb (mode =? 2) then Some (-1, s) else
  '(rc, s) ← flush_pending s;
  if negb (rc =? 0) then Some (-1, s) else
  let s := upd (set_mode (if mode =? 2 then FB_NONE else if mode =? 1 then FB_LINE else FB_FULL)) s in
  match buf, f_buf (st_f s) with
  | Some b, None =>
      if 2 <=? size then Some (0, upd (set_flags (flag_userbuf true)) (upd (set_buf b size (f_fresh_buf (st_f s))) s)) else Some (0, s)
  | _, _ => Some (0, s)
  end.

Definition BUFSIZ : Z := 8192.
Definition setbuffer (s : st) (buf : option (list Z)) (size : Z) : option st :=
  '(_, s) ← (match buf with Some _ => setvbuf s buf 0 size | None => setvbuf s None 2 0 end); Some s.
Definition setbuf (s : st) (buf : option (list Z)) : option st :=
  '(_, s) ← (match buf with Some _ => setvbuf s buf 0 BUFSIZ | None => setvbuf s None 2 0 end); Some s.
Definition setlinebuf (s : st) : option st := '(_, s) ← setvbuf s None 1 0; Some s.

(** ** Reading *)

(** [if (f->rpos >= f->rend) { n = fill(f); if (n <= 0) ... }]: the result of the test and the state. *)
Definition more (s : st) : option (Z * st) := if f_rend (st_f s) <=? f_rpos (st_f s) then fill s else Some (1, s).

(** [f->buf[f->rpos++]] *)
Definition next_byte (s : st) : option (Z * st) :=
  buf ← f_buf (st_f s);
  c ← at_index buf (f_rpos (st_f s));
  Some (c, upd (set_window (f_rpos (st_f s) + 1) (f_rend (st_f s))) s).

Definition fgetc (s : st) : option (Z * st) :=
  '(rc, s) ← begin_read s;
  if negb (rc =? 0) then Some (-1, s) else
  '(n, s) ← more s;
  if n <=? 0 then Some (-1, s) else next_byte s.

(** The bytes stored so far and the ones still wanted. *)
Fixpoint fread_loop (fuel : nat) (s : st) (out : list Z) (want : Z) : option (list Z * st) :=
  match fuel with
  | 0%nat => None
  | S fuel =>
      if len out <? want then
        '(n, s) ← more s;
        if n <=? 0 then Some (out, s) else
        let f := st_f s in
        let avail := f_rend f - f_rpos f in
        let take := if want - len out <? avail then want - len out else avail in
        buf ← f_buf f;
        data ← sub_bytes buf (f_rpos f) (f_rpos f + take);
        fread_loop fuel (upd (set_window (f_rpos f + take) (f_rend f)) s) (out ++ data) want
      else Some (out, s)
  end.

(** The count, what is stored at the pointer, and the state. *)
Definition fread (s : st) (size nmemb : Z) : option (Z * list Z * st) :=
  if (size =? 0) || (nmemb =? 0) then Some (0, [], s)
  else if SIZE_MAX / size <? nmemb then Some (0, [], s)
  else
    '(rc, s) ← begin_read s;
    if negb (rc =? 0) then Some (0, [], s) else
    '(out, s) ← fread_loop (S (Z.to_nat (size * nmemb))) s [] (size * nmemb);
    Some (len out / size, out, s).

Fixpoint fgets_loop (fuel : nat) (s : st) (out : list Z) (n : Z) : option (list Z * st) :=
  match fuel with
  | 0%nat => None
  | S fuel =>
      if len out <? n - 1 then
        '(r, s) ← more s;
        if r <=? 0 then Some (out, s) else
        '(c, s) ← next_byte s;
        if c =? 10 then Some (out ++ [c], s) else fgets_loop fuel s (out ++ [c]) n
      else Some (out, s)
  end.

(** What is stored, its NUL included; [None] for a NULL result. *)
Definition fgets (s : st) (n : Z) : option (option (list Z) * st) :=
  if n <=? 0 then Some (None, s)
  else if n =? 1 then Some (Some [0], s)
  else
    '(rc, s) ← begin_read s;
    if negb (rc =? 0) then Some (None, s) else
    '(out, s) ← fgets_loop (Z.to_nat n) s [] n;
    Some (if len out =? 0 then None else Some (out ++ [0]), s).

(** The window is moved up by at most 16 bytes when there is no room in front of it. *)
Definition ungetc_shift (s : st) : option (option st) :=
  let f := st_f s in
  if negb (f_rpos f =? 0) then Some (Some s)
  else if f_bufsize f <=? f_rend f then Some None
  else
    let shift := if 16 <? f_bufsize f - f_rend f then 16 else f_bufsize f - f_rend f in
    buf ← f_buf f;
    data ← sub_bytes buf 0 (f_rend f);
    buf ← array_write buf shift data;
    Some (Some (upd (set_window (f_rpos f + shift) (f_rend f + shift)) (upd (set_bytes buf) s))).

Definition ungetc (c : Z) (s : st) : option (Z * st) :=
  if c =? -1 then Some (-1, s)
  else if negb (F_READ (f_flags (st_f s))) then Some (-1, with_errno EBADF s)
  else
    '(rc, s) ← flush_pending s;
    if negb (rc =? 0) then Some (-1, s) else
    let '(rc, s) := ensure_buf s in
    if negb (rc =? 0) then Some (-1, s) else
    let f := st_f s in
    let s := if (f_rend f =? 0) && (f_rpos f =? 0)
             then let p := if 16 <? f_bufsize f then 16 else 0 in upd (set_flags (flag_fresh true)) (upd (set_window p p) s)
             else s in
    r ← ungetc_shift s;
    match r with
    | None => Some (-1, s)
    | Some s =>
        let f := st_f s in
        buf ← f_buf f;
        buf ← set_index buf (f_rpos f - 1) (u8 c);
        Some (u8 c, upd (set_flags (flag_eof false)) (upd (set_window (f_rpos f - 1) (f_rend f)) (upd (set_bytes buf) s)))
    end.

(** The size a line buffer grows to. *)
Fixpoint grow_size (fuel : nat) (nc need : Z) : option Z :=
  match fuel with
  | 0%nat => None
  | S fuel => if nc <? need then grow_size fuel (u64 (nc * 2)) need else Some nc
  end.

(** The caller's line buffer, [None] for NULL, and its size [*n]. *)
Record linebuf := mkLine { lb_ptr : option (list Z); lb_n : Z }.

(** Room for [len + 2] bytes: 0, or -1 when there is no memory. *)
Definition line_room (s : st) (l : linebuf) (n : Z) : option (Z * linebuf * st) :=
  if lb_n l <? n + 2 then
    nc ← grow_size 65 (if lb_n l =? 0 then 120 else u64 (lb_n l * 2)) (n + 2);
    let '(np, w) := mem_alloc (st_w s) nc in
    let s := with_w w s in
    match np with
    | None => Some (-1, l, with_errno ENOMEM s)
    | Some np =>
        np ← match lb_ptr l with
             | None => Some np
             | Some old => data ← sub_bytes old 0 n; array_write np 0 data
             end;
        Some (0, mkLine (Some np) nc, s)
    end
  else Some (0, l, s).

Fixpoint getdelim_loop (fuel : nat) (s : st) (l : linebuf) (n delim : Z) : option (Z * linebuf * st) :=
  match fuel with
  | 0%nat => None
  | S fuel =>
      let stop l n s := p ← lb_ptr l; p ← set_index p n 0; Some (n, mkLine (Some p) (lb_n l), s) in
      '(r, s) ← more s;
      if r <? 0 then Some (-1, l, s)
      else if r =? 0 then (if n =? 0 then Some (-1, l, s) else stop l n s)
      else
        '(rc, l, s) ← line_room s l n;
        if negb (rc =? 0) then Some (-1, l, s) else
        '(c, s) ← next_byte s;
        p ← lb_ptr l;
        p ← set_index p n c;
        let l := mkLine (Some p) (lb_n l) in
        if c =? u8 delim then stop l (n + 1) s else getdelim_loop fuel s l (n + 1) delim
  end.

(** [fuel] bounds the length of the line; [None] stands for a NULL pointer among the caller's two. *)
Definition getdelim (fuel : nat) (l : option linebuf) (delim : Z) (s : st) : option (Z * option linebuf * st) :=
  match l with
  | None => Some (-1, None, with_errno EINVAL s)
  | Some l =>
      '(rc, s) ← begin_read s;
      if negb (rc =? 0) then Some (-1, Some l, s) else
      '(r, l, s) ← getdelim_loop fuel s l 0 delim;
      Some (r, Some l, s)
  end.
Definition getline (fuel : nat) (l : option linebuf) (s : st) : option (Z * option linebuf * st) := getdelim fuel l 10 s.

(** ** Writing *)

Fixpoint direct_loop (fuel : nat) (s : st) (p : list Z) (done : Z) : option (Z * st) :=
  match fuel with
  | 0%nat => None
  | S fuel =>
      if done <? len p then
        let '(r, w) := io_write (st_w s) (f_fd (st_f s)) (drop (Z.to_nat done) p) in
        let s := with_w w s in
        if r =? - EINTR then direct_loop fuel s p done
        else if r <? 0 then Some (set_err r s)
        else if r =? 0 then Some (set_err (- EIO) s)
        else direct_loop fuel s p (done + r)
      else Some (0, s)
  end.

Definition write_direct (s : st) (p : list Z) : option (Z * st) := direct_loop (io_fuel s (len p)) s p 0.

(** [memcpy(f->buf + at, p, n)] *)
Definition buf_copy (s : st) (at_ : Z) (p : list Z) : option st :=
  if len p =? 0 then Some s else
  buf ← f_buf (st_f s);
  buf ← array_write buf at_ p;
  Some (upd (set_bytes buf) s).

(** The bytes up to and including the last newline. *)
Fixpoint line_end (p : list Z) : Z :=
  match p with
  | [] => 0
  | c :: p => let k := line_end p in if 0 <? k then k + 1 else if c =? 10 then 1 else 0
  end.

(** Buffered output: what fits is copied, the rest is written in whole blocks, the tail is kept. *)
Definition put_buffered (s : st) (p : list Z) : option (Z * st) :=
  let f := st_f s in
  let n := len p in
  let room := if f_wpos f <? f_bufsize f then f_bufsize f - f_wpos f else 0 in
  let room := if f_fresh_buf f then 0 else room in
  let copy := if n <? room then n else room in
  s ← buf_copy s (f_wpos f) (take (Z.to_nat copy) p);
  let s := upd (set_fresh_buf false) (upd (set_wpos (f_wpos f + copy)) s) in
  let rest := n - copy in
  if rest =? 0 then Some (0, s) else
  '(rc, s) ← flush_pending s;
  if negb (rc =? 0) then Some (-1, s) else
  if f_bufsize f =? 0 then None else
  let direct := rest - rest mod f_bufsize f in
  '(rc, s) ← (if direct =? 0 then Some (0, s) else write_direct s (take (Z.to_nat direct) (drop (Z.to_nat copy) p)));
  if negb (rc =? 0) then Some (-1, s) else
  let tail := rest - direct in
  s ← buf_copy s 0 (drop (Z.to_nat (copy + direct)) p);
  Some (0, upd (set_wpos tail) s).

(** A line-buffered stream writes up to the last newline of the call. *)
Definition put_lines (s : st) (p : list Z) : option (Z * st) :=
  let last := line_end p in
  let keep := len p - last in
  if (0 <? last) && (keep <=? f_wpos (st_f s)) then
    let s := upd (set_wpos (f_wpos (st_f s) - keep)) s in
    '(rc, s) ← flush_out s;
    if negb (rc =? 0) then Some (-1, s) else
    s ← buf_copy s 0 (drop (Z.to_nat last) p);
    Some (0, upd (set_wpos keep) s)
  else Some (0, s).

Definition put_bytes (s : st) (p : list Z) : option (Z * st) :=
  let '(rc, s) := begin_write s in
  if negb (rc =? 0) then Some (-1, s) else
  match f_bmode (st_f s) with
  | FB_NONE =>
      '(rc, s) ← flush_pending s;
      if negb (rc =? 0) then Some (-1, s) else write_direct s p
  | m =>
      '(rc, s) ← put_buffered s p;
      if negb (rc =? 0) then Some (-1, s) else
      match m with FB_LINE => put_lines s p | _ => Some (0, s) end
  end.

Definition fputc (c : Z) (s : st) : option (Z * st) :=
  '(rc, s) ← put_bytes s [u8 c]; Some (if rc =? 0 then u8 c else -1, s).

Definition fputs (p : list Z) (s : st) : option (Z * st) :=
  if len p =? 0 then Some (1, s) else '(rc, s) ← put_bytes s p; Some (if rc =? 0 then 1 else -1, s).

(** [data] are the [size * nmemb] bytes at the pointer. *)
Definition fwrite (data : list Z) (size nmemb : Z) (s : st) : option (Z * st) :=
  if (size =? 0) || (nmemb =? 0) then Some (0, s)
  else if SIZE_MAX / size <? nmemb then Some (0, s)
  else '(rc, s) ← put_bytes s data; Some (if rc =? 0 then nmemb else 0, s).

(** ** Positioning *)

Definition ftell (s : st) : Z * st :=
  let '(base, w) := io_lseek (st_w s) (f_fd (st_f s)) 0 1 in
  let s := with_w w s in
  let f := st_f s in
  if base <? 0 then (-1, with_errno (i32 (- base)) s)
  else if F_FRESH (f_flags f) then (base + f_wpos f, s)
  else (base - (f_rend f - f_rpos f) + f_wpos f, s).

Definition fseek (off whence : Z) (s : st) : option (Z * st) :=
  if (whence <? 0) || (2 <? whence) then Some (-1, with_errno EINVAL s) else
  '(rc, s) ← flush_pending s;
  if negb (rc =? 0) then Some (-1, s) else
  let f := st_f s in
  let adj := if (whence =? 1) && negb (F_FRESH (f_flags f)) then off - (f_rend f - f_rpos f) else off in
  let s := upd (set_flags (flag_fresh false)) (upd (set_window 0 0) s) in
  let '(r, w) := io_lseek (st_w s) (f_fd f) adj whence in
  let s := with_w w s in
  if r <? 0 then Some (-1, with_errno (i32 (- r)) s) else Some (0, upd (set_flags (flag_eof false)) s).

Definition rewind (s : st) : option st :=
  '(_, s) ← fseek 0 0 s; Some (upd (set_flags (flag_err false)) s).

Definition fgetpos (s : st) : option Z * st := let '(p, s) := ftell s in (if p <? 0 then None else Some p, s).
Definition fsetpos (pos : Z) (s : st) : option (Z * st) := fseek pos 0 s.

(** ** Formatted output *)

(** The context is the stream; a fault in it is carried along. *)
Definition stream_sink (ctx : option st) (data : list Z) : Z * option st :=
  match ctx ≫= fun s => put_bytes s data with
  | None => (0, None)
  | Some (rc, s) => (if negb (rc =? 0) then (if negb (st_errno s =? 0) then st_errno s else EIO) else 0, Some s)
  end.

Definition vfprintf (s : st) (fmt : list Z) (ap : list arg) : option (Z * st * list write) :=
  if negb (F_WRITE (f_flags (st_f s))) then let '(r, s) := wrong_direction s in Some (r, s, []) else
  oc ← moqi_vformat (replicate 512 0) 512 (Some stream_sink) (Some s) (st_errno s) fmt ap;
  s ← oc_ctx oc;
  Some (oc_ret oc, if oc_ret oc =? -1 then with_errno (oc_errno oc) s else s, oc_writes oc).
Definition fprintf (s : st) (fmt : list Z) (ap : list arg) : option (Z * st * list write) := vfprintf s fmt ap.

End Stream.
Arguments st : clear implicits.

(** ** Opening and closing

    The open streams, newest first, each with the address of its object. *)

Section Files.
Context {W : Type} `{Kernel W}.

Record proc := mkProc { ps_streams : list (Z * FILE_s); ps_errno : Z; ps_w : W }.

Definition fail (e : Z) (p : proc) : Z * proc := (0, mkProc (ps_streams p) e (ps_w p)).

Definition no_flags : flags := mkFlags false false false false false false false false.

(** The characters after the first letter, up to a comma: [+] and [x]. *)
Fixpoint mode_options (p : list Z) (plus excl : bool) : bool * bool :=
  match p with
  | [] => (plus, excl)
  | c :: p =>
      if (c =? 0) || (c =? chr ",") then (plus, excl)
      else if c =? chr "+" then mode_options p true excl
      else if c =? chr "x" then mode_options p plus true
      else mode_options p plus excl
  end.

Definition O_EXCL_ : Z := 0x80.

(** The open flags and the stream flags; [None] for a bad first letter. *)
Definition parse_mode (mode : option (list Z)) : option (Z * flags) :=
  mode ← mode;
  let c := peek mode in
  '(base, rd, wr, app) ←
    (if c =? chr "r" then Some (0, true, false, false)
     else if c =? chr "w" then Some (Z.lor 0x40 0x200, false, true, false)
     else if c =? chr "a" then Some (Z.lor 0x40 0x400, false, true, true)
     else None);
  let '(plus, excl) := mode_options (tail mode) false false in
  let oflags := if plus then Z.lor base 2 else if (wr : bool) then Z.lor base 1 else base in
  let oflags := if excl && ((c =? chr "w") || (c =? chr "a")) then Z.lor oflags O_EXCL_ else oflags in
  Some (oflags, mkFlags (rd || plus) (wr || plus) app false false false false false).

Definition fresh_stream (fd : Z) (l : flags) : FILE_s := mkFile fd l None 0 0 0 0 FB_FULL false false.

Definition new_stream (fd : Z) (l : flags) (p : proc) : Z * proc :=
  let '(a, w) := obj_alloc (ps_w p) in
  match a with
  | None => (0, mkProc (ps_streams p) (ps_errno p) w)
  | Some a => (a, mkProc ((a, fresh_stream fd l) :: ps_streams p) (ps_errno p) w)
  end.

Definition proc_w (w : W) (p : proc) : proc := mkProc (ps_streams p) (ps_errno p) w.

(** [path] and [mode] are [None] for NULL; the result is the address of the stream, 0 for NULL. *)
Definition fopen (path mode : option (list Z)) (p : proc) : Z * proc :=
  match path, parse_mode mode with
  | None, _ => fail EFAULT p
  | _, None => fail EINVAL p
  | Some path, Some (oflags, l) =>
      let '(fd, w) := io_open (ps_w p) path oflags 438 in
      let p := proc_w w p in
      if fd <? 0 then fail (i32 (- fd)) p else
      let '(f, p) := new_stream (i32 fd) l p in
      if f =? 0 then let r := io_close (ps_w p) (i32 fd) in fail ENOMEM (proc_w r.2 p)
      else if F_APPEND l then let '(_, w) := io_lseek (ps_w p) (i32 fd) 0 2 in (f, proc_w w p)
      else (f, p)
  end.

(** The mode must not ask for more than the descriptor allows. *)
Definition bad_access (l : flags) (cur : Z) : bool :=
  let acc := Z.land cur 3 in (F_READ l && (acc =? 1)) || (F_WRITE l && (acc =? 0)).

Definition fdopen (fd : Z) (mode : option (list Z)) (p : proc) : Z * proc :=
  match parse_mode mode with
  | None => fail EINVAL p
  | Some (_, l) =>
      let '(cur, w) := io_getfl (ps_w p) fd in
      let p := proc_w w p in
      if cur <? 0 then fail (i32 (- cur)) p
      else if bad_access l cur then fail EINVAL p
      else
        let '(f, p) := new_stream fd l p in
        if f =? 0 then fail ENOMEM p else (f, p)
  end.

(** fflush(NULL) over the list, newest stream first. *)
Fixpoint flush_all (l : list (Z * FILE_s)) (rc errno : Z) (w : W) : option (Z * list (Z * FILE_s) * Z * W) :=
  match l with
  | [] => Some (rc, [], errno, w)
  | (a, f) :: l =>
      if F_WRITE (f_flags f) && negb (f_wpos f =? 0) then
        '(r, s) ← flush_out (mkSt f errno w);
        '(rc, l, errno, w) ← flush_all l (if r =? 0 then rc else -1) (st_errno s) (st_w s);
        Some (rc, (a, st_f s) :: l, errno, w)
      else
        '(rc, l, errno, w) ← flush_all l rc errno w;
        Some (rc, (a, f) :: l, errno, w)
  end.

Definition fflush_null (p : proc) : option (Z * proc) :=
  '(rc, l, errno, w) ← flush_all (ps_streams p) 0 (ps_errno p) (ps_w p);
  Some (rc, mkProc l errno w).

Definition list_remove (a : Z) (l : list (Z * FILE_s)) : list (Z * FILE_s) :=
  match list_find (fun x : Z * FILE_s => x.1 = a) l with
  | Some (i, _) => delete i l
  | None => l
  end.

(** Closing the stream [f]: the result, errno and the world it leaves. *)
Definition close_stream (s : st W) : option (Z * Z * W) :=
  '(rc, s) ← flush_pending s;
  let rc := if rc =? 0 then 0 else -1 in
  let saved := st_errno s in
  let '(_, s) := if f_rpos (st_f s) <? f_rend (st_f s) then drop_readahead s else (0, s) in
  let '(r, w) := io_close (st_w s) (f_fd (st_f s)) in
  if (r <? 0) && (rc =? 0) then Some (-1, i32 (- r), w)
  else if negb (rc =? 0) then Some (rc, saved, w)
  else Some (rc, st_errno s, w).

Definition stream_of (a : Z) (p : proc) : option FILE_s := snd <$> (snd <$> list_find (fun x : Z * FILE_s => x.1 = a) (ps_streams p)).

Definition fclose (a : Z) (p : proc) : option (Z * proc) :=
  f ← stream_of a p;
  '(rc, errno, w) ← close_stream (mkSt f (ps_errno p) (ps_w p));
  Some (rc, mkProc (list_remove a (ps_streams p)) errno w).

(** The stream at [a] changed in place. *)
Definition put_stream (a : Z) (f : FILE_s) (p : proc) : proc :=
  mkProc ((fun x : Z * FILE_s => if x.1 =? a then (a, f) else x) <$> ps_streams p) (ps_errno p) (ps_w p).

(** The descriptor freopen goes on with, or the errno value of its failure; the state after the calls. *)
Definition reopen_fd (path : option (list Z)) (mode : option (list Z)) (fd : Z) (w : W) : (Z + Z * flags) * W :=
  match parse_mode mode with
  | None => (inl EINVAL, w)
  | Some (oflags, l) =>
      match path with
      | Some path =>
          let '(newfd, w) := io_open w path oflags 438 in
          (if newfd <? 0 then inl (i32 (- newfd)) else inr (newfd, l), w)
      | None =>
          let '(cur, w) := io_getfl w fd in
          (if cur <? 0 then inl (i32 (- cur)) else if bad_access l cur then inl EINVAL else inr (fd, l), w)
      end
  end.

(** fclose and the errno of the failure it follows: freopen's NULL. *)
Definition reopen_fail (a e : Z) (p : proc) : option (Z * proc) :=
  '(_, p) ← fclose a p; Some (fail e p).

Definition freopen (path mode : option (list Z)) (a : Z) (p : proc) : option (Z * proc) :=
  f ← stream_of a p;
  '(_, s) ← flush_pending (mkSt f (ps_errno p) (ps_w p));
  let '(_, s) := if f_rpos (st_f s) <? f_rend (st_f s) then drop_readahead s else (0, s) in
  let f := st_f s in
  let '(r, w) := reopen_fd path mode (f_fd f) (st_w s) in
  let p := put_stream a f (mkProc (ps_streams p) (st_errno s) w) in
  match r with
  | inl e => reopen_fail a e p
  | inr (newfd, l) =>
      let moved := match path with Some _ => negb (newfd =? f_fd f) | None => false end in
      let '(r, w) := if moved then let '(r, w) := io_dup2 w (i32 newfd) (f_fd f) in (r, (io_close w (i32 newfd)).2) else (0, w) in
      let p := proc_w w p in
      if r <? 0 then reopen_fail a (i32 (- r)) p else
      let l := mkFlags (F_READ l) (F_WRITE l) (F_APPEND l) false false (F_USERBUF (f_flags f)) (F_STATIC (f_flags f)) false in
      let f := set_fresh_buf false (set_wpos 0 (set_window 0 0 (set_flags (fun _ => l) f))) in
      let w := if F_APPEND l then (io_lseek w (f_fd f) 0 2).2 else w in
      Some (a, put_stream a f (proc_w w p))
  end.

(** tmpfile: the name of an attempt, and the attempts. *)
Definition tmp_name (pid n : Z) : list Z := str "/tmp/tmpf" ++ chr "_" :: decimal pid ++ chr "_" :: decimal n.

Fixpoint tmpfile_loop (attempts : nat) (counter : Z) (p : proc) : Z * Z * proc :=
  match attempts with
  | 0%nat => let '(r, p) := fail EEXIST p in (r, counter, p)
  | S attempts =>
      let n := u32 (counter + 1) in
      let path := tmp_name (io_pid (ps_w p)) n in
      let '(fd, w) := io_open (ps_w p) path (Z.lor (Z.lor 0x40 0x80) 2) 384 in
      let p := proc_w w p in
      if fd =? - EEXIST then tmpfile_loop attempts n p
      else if fd <? 0 then let '(r, p) := fail (i32 (- fd)) p in (r, n, p)
      else
        let '(_, w) := io_unlink (ps_w p) path in
        let '(f, p) := new_stream (i32 fd) (mkFlags true true false false false false false false) (proc_w w p) in
        if f =? 0 then let '(_, w) := io_close (ps_w p) (i32 fd) in let '(r, p) := fail ENOMEM (proc_w w p) in (r, n, p)
        else (f, n, p)
  end.

(** The static counter is passed in and out. *)
Definition tmpfile (counter : Z) (p : proc) : Z * Z * proc := tmpfile_loop 100 counter p.

End Files.
