(* ===== verification/StdioSpec.v ===== *)
(** * A stream is its file

    What a stream promises on a regular file: reading, writing and seeking
    through the buffer give what the same operations on the bytes of the file
    give.  [RegularFile] states what the stream relies on of the kernel: short
    transfers and interrupted calls are allowed, failures of reads, writes and
    allocations are not.  A descriptor opened with O_APPEND writes at the end of
    the file wherever its offset is. *)

From S2P Require Import Prelude Mem Digits Format Stdio.

(** ** Files *)

(** [bs] written at offset [p]; a gap before it is filled with zeros. *)
Definition overwrite (d : list Z) (p : nat) (bs : list Z) : list Z :=
  match bs with
  | [] => d
  | _ => take p (d ++ replicate (p - length d) 0) ++ bs ++ drop (p + length bs) d
  end.

(** The offset a seek asks for. *)
Definition seek_target (d : list Z) (p : nat) (off whence : Z) : Z :=
  if whence =? 0 then off else if whence =? 1 then Z.of_nat p + off else len d + off.

(** Where a write goes: the end of the file when the descriptor appends. *)
Definition write_at (appends : bool) (d : list Z) (p : nat) : nat := if appends then length d else p.

Class RegularFile (W : Type) `{Kernel W} (fd : Z) (appends : bool) := {
  data : W -> list Z;
  offset : W -> nat;
  reg_read w n : 0 < n ->
    exists r bs w', io_read w fd n = (r, bs, w') /\ data w' = data w /\
      ((r = - EINTR /\ offset w' = offset w /\ (io_interrupts w' < io_interrupts w)%nat) \/
       (0 <= r <= n /\ bs = take (Z.to_nat r) (drop (offset w) (data w)) /\ len bs = r /\
        (r = 0 -> (length (data w) <= offset w)%nat) /\ offset w' = (offset w + Z.to_nat r)%nat /\
        (io_interrupts w' <= io_interrupts w)%nat));
  reg_write w bs : bs <> [] ->
    exists r w', io_write w fd bs = (r, w') /\
      ((r = - EINTR /\ data w' = data w /\ offset w' = offset w /\ (io_interrupts w' < io_interrupts w)%nat) \/
       (0 < r <= len bs /\ data w' = overwrite (data w) (write_at appends (data w) (offset w)) (take (Z.to_nat r) bs) /\
        offset w' = (write_at appends (data w) (offset w) + Z.to_nat r)%nat /\ (io_interrupts w' <= io_interrupts w)%nat));
  reg_lseek w off whence : 0 <= whence <= 2 ->
    let t := seek_target (data w) (offset w) off whence in t <= Z.max (2 ^ 63 - 1) (Z.of_nat (offset w)) ->
    exists w', io_lseek w fd off whence = (if t <? 0 then - EINVAL else t, w') /\ data w' = data w /\
      offset w' = (if t <? 0 then offset w else Z.to_nat t);
  reg_alloc w n : 0 <= n ->
    exists l w', mem_alloc w n = (Some l, w') /\ len l = n /\ data w' = data w /\ offset w' = offset w;
  reg_close w : exists r w', io_close w fd = (r, w') /\ 0 <= r /\ data w' = data w }.

Lemma length_overwrite_take d p : length (take p (d ++ replicate (p - length d) 0)) = p.
Proof. rewrite length_take, length_app, length_replicate. lia. Qed.

Lemma length_overwrite d p bs : bs <> [] -> length (overwrite d p bs) = Nat.max (length d) (p + length bs).
Proof.
  intros Hb. unfold overwrite. destruct bs as [|b bs]; [done|].
  rewrite !length_app, length_overwrite_take, length_drop. cbn [length]. lia.
Qed.

Lemma overwrite_ne d p bs : bs <> [] -> overwrite d p bs = take p (d ++ replicate (p - length d) 0) ++ bs ++ drop (p + length bs) d.
Proof. by destruct bs. Qed.

(** Writing in two steps. *)
Lemma overwrite_app d p a b : overwrite (overwrite d p a) (p + length a) b = overwrite d p (a ++ b).
Proof.
  destruct (decide (b = [])) as [->|Hb]; [by rewrite app_nil_r|]. destruct (decide (a = [])) as [->|Ha]; [by rewrite Nat.add_0_r|].
  assert (Hab : a ++ b <> []) by (intros [Ha' _]%app_eq_nil; done). pose proof (length_overwrite d p a Ha) as Hl.
  rewrite (overwrite_ne _ _ b), (overwrite_ne _ _ (a ++ b)), Hl by done.
  replace (p + length a - Nat.max (length d) (p + length a))%nat with 0%nat by lia. cbn [replicate]. rewrite app_nil_r.
  rewrite overwrite_ne by done. set (P := take p (d ++ replicate (p - length d) 0)).
  assert (HP : length P = p) by apply length_overwrite_take.
  rewrite (app_assoc P a), take_app_length' by (rewrite length_app; lia). rewrite <- !app_assoc. do 3 f_equal.
  rewrite drop_app_ge by lia. rewrite drop_app_ge by lia. rewrite drop_drop, length_app, HP. f_equal. lia.
Qed.

(** A write at the end moves the end. *)
Lemma write_at_overwrite appends d p bs : let at_ := write_at appends d p in
  write_at appends (overwrite d at_ bs) (at_ + length bs) = (at_ + length bs)%nat.
Proof.
  unfold write_at. destruct appends; [|done]. destruct (decide (bs = [])) as [->|Hb]; [cbn; lia|]. rewrite length_overwrite by done. lia.
Qed.

Lemma write_at_plain appends d p : appends = false -> write_at appends d p = p.
Proof. by intros ->. Qed.

Lemma write_at_next appends d p bs q : (appends = false -> q = (p + length bs)%nat) ->
  write_at appends (overwrite d (write_at appends d p) bs) q = (write_at appends d p + length bs)%nat.
Proof. intros Hq. rewrite <- write_at_overwrite. unfold write_at. destruct appends; [done|]. by apply Hq. Qed.

(** ** The file a stream stands for

    [af_told] says whether the position a buffered stream reports is the one
    its file has: on a descriptor that appends, bytes buffered away from the end
    move there only when they are written. *)

Record afile := mkAfile { af_data : list Z; af_pos : nat; af_eof : bool; af_err : bool; af_told : bool }.

Definition a_read (k : Z) (a : afile) : list Z * afile :=
  if af_eof a then ([], a)
  else let d := take (Z.to_nat k) (drop (af_pos a) (af_data a)) in
    (d, mkAfile (af_data a) (af_pos a + length d) (len d <? k) (af_err a) (af_told a)).

(** At most [m] bytes up to the delimiter; whether the end came first. *)
Fixpoint line_of (delim : Z) (m : nat) (d : list Z) : list Z * bool :=
  match m, d with
  | 0%nat, _ => ([], false)
  | _, [] => ([], true)
  | S m, c :: d => if c =? delim then ([c], false) else let '(l, e) := line_of delim m d in (c :: l, e)
  end.

Definition a_line (delim : Z) (m : nat) (a : afile) : list Z * afile :=
  if af_eof a then ([], a)
  else let '(l, e) := line_of delim m (drop (af_pos a) (af_data a)) in
    (l, mkAfile (af_data a) (af_pos a + length l) e (af_err a) (af_told a)).

Definition a_write (appends : bool) (bs : list Z) (a : afile) : afile :=
  match bs with
  | [] => a
  | _ => let at_ := write_at appends (af_data a) (af_pos a) in
      mkAfile (overwrite (af_data a) at_ bs) (at_ + length bs) (af_eof a) (af_err a) (af_told a && (at_ =? af_pos a)%nat)
  end.

Definition a_flags (eof err : bool) (a : afile) : afile := mkAfile (af_data a) (af_pos a) eof err (af_told a).

(** Nothing is waiting to be written. *)
Definition a_settle (a : afile) : afile := mkAfile (af_data a) (af_pos a) (af_eof a) (af_err a) true.

Section Refine.
Context {W : Type} `{K : Kernel W} (fd : Z) {appends : bool} `{R : !RegularFile W fd appends} (rd wr : bool).

(** Where the next byte that leaves the stream goes. *)
Definition out_at (w : W) : nat := write_at appends (data w) (offset w).

(** The bytes read ahead and the bytes not written yet. *)
Definition window (f : FILE_s) : list Z :=
  match f_buf f with Some b => take (Z.to_nat (f_rend f - f_rpos f)) (drop (Z.to_nat (f_rpos f)) b) | None => [] end.
Definition pending (f : FILE_s) : list Z :=
  match f_buf f with Some b => take (Z.to_nat (f_wpos f)) b | None => [] end.

Record stands (f : FILE_s) (w : W) (a : afile) : Prop := {
  h_fd : f_fd f = fd;
  h_read : F_READ (f_flags f) = rd;
  h_write : F_WRITE (f_flags f) = wr;
  h_eof : F_EOF (f_flags f) = af_eof a;
  h_err : F_ERR (f_flags f) = af_err a;
  h_fresh : F_FRESH (f_flags f) = false;
  h_buf : match f_buf f with Some b => len b = f_bufsize f /\ 0 < f_bufsize f | None => f_bufsize f = 0 end;
  h_bounds : 0 <= f_rpos f <= f_rend f /\ f_rend f <= f_bufsize f /\ 0 <= f_wpos f <= f_bufsize f;
  h_dir : f_wpos f = 0 \/ f_rend f = 0;
  h_end : af_eof a = true -> f_rpos f = f_rend f;
  h_ahead : f_rend f - f_rpos f <= Z.of_nat (offset w);
  h_window : window f = take (Z.to_nat (f_rend f - f_rpos f)) (drop (offset w - Z.to_nat (f_rend f - f_rpos f)) (data w));
  h_pos : Z.of_nat (af_pos a) = if f_wpos f =? 0 then Z.of_nat (offset w) - (f_rend f - f_rpos f) else Z.of_nat (out_at w) + f_wpos f;
  h_data : af_data a = overwrite (data w) (out_at w) (pending f);
  h_told : af_told a = true -> f_wpos f = 0 \/ offset w = out_at w }.

Abbreviation holds s a := (stands (st_f s) (st_w s) a).

Lemma length_window f w a : stands f w a -> len (window f) = f_rend f - f_rpos f.
Proof.
  intros S. pose proof (h_bounds _ _ _ S). pose proof (h_buf _ _ _ S). unfold window. destruct (f_buf f) as [b|].
  - rewrite length_take, length_drop. lia.
  - cbn. lia.
Qed.

Lemma length_pending f w a : stands f w a -> len (pending f) = f_wpos f.
Proof.
  intros S. pose proof (h_bounds _ _ _ S). pose proof (h_buf _ _ _ S). unfold pending. destruct (f_buf f) as [b|].
  - rewrite length_take. lia.
  - cbn. lia.
Qed.

(** Nothing pending: the file is up to date. *)
Lemma data_settled f w a : stands f w a -> f_wpos f = 0 -> af_data a = data w.
Proof.
  intros S Hw. rewrite (h_data _ _ _ S). pose proof (length_pending _ _ _ S) as Hl. destruct (pending f); [done|]. cbn in Hl. lia.
Qed.

Lemma pos_settled f w a : stands f w a -> f_wpos f = 0 -> Z.of_nat (af_pos a) = Z.of_nat (offset w) - (f_rend f - f_rpos f).
Proof. intros S Hw. rewrite (h_pos _ _ _ S), Hw. done. Qed.

(** Where the file is written next, behind the bytes that wait. *)
Lemma out_next f w a : stands f w a -> f_rend f = 0 ->
  write_at appends (af_data a) (af_pos a) = (out_at w + Z.to_nat (f_wpos f))%nat /\ (af_told a = true -> f_wpos f <> 0 \/ offset w = out_at w -> write_at appends (af_data a) (af_pos a) = af_pos a).
Proof.
  intros S Hr. pose proof (h_pos _ _ _ S) as Hp. pose proof (h_bounds _ _ _ S). pose proof (length_pending _ _ _ S) as Hl.
  assert (Hat : write_at appends (af_data a) (af_pos a) = (out_at w + Z.to_nat (f_wpos f))%nat).
  { rewrite (h_data _ _ _ S). replace (Z.to_nat (f_wpos f)) with (length (pending f)) by lia. unfold out_at.
    apply write_at_next. intros Ha. unfold out_at in Hp. rewrite (write_at_plain _ _ _ Ha) in Hp. destruct (_ =? 0) eqn:E; lia. }
  split; [done|]. intros Ht Hor. destruct (_ =? 0) eqn:E; lia.
Qed.

(** What is promised of [ftell] may be given up. *)
Lemma stands_settled f w a : stands f w (a_settle a) -> stands f w a.
Proof. intros S. constructor; try apply S. intros _. by apply (h_told _ _ _ S). Qed.

Lemma settle_stands f w a : stands f w a -> f_wpos f = 0 -> stands f w (a_settle a).
Proof. intros S Hw. constructor; try apply S. by left. Qed.

(** The bytes ahead are the next bytes of the file. *)
Lemma window_next f w a : stands f w a -> f_wpos f = 0 -> window f `prefix_of` drop (af_pos a) (af_data a).
Proof.
  intros S Hw. rewrite (data_settled _ _ _ S Hw), (h_window _ _ _ S). pose proof (pos_settled _ _ _ S Hw). pose proof (h_ahead _ _ _ S).
  pose proof (h_bounds _ _ _ S). replace (offset w - Z.to_nat (f_rend f - f_rpos f))%nat with (af_pos a) by lia.
  by apply prefix_take.
Qed.

(** [bs] has been written. *)
Definition wrote (w w' : W) (bs : list Z) : Prop :=
  data w' = overwrite (data w) (out_at w) bs /\ offset w' = match bs with [] => offset w | _ => (out_at w + length bs)%nat end.

Lemma wrote_same w w1 w' bs : data w1 = data w -> offset w1 = offset w -> wrote w1 w' bs -> wrote w w' bs.
Proof. unfold wrote, out_at. by intros -> ->. Qed.

Lemma wrote_app w w1 w2 p q : wrote w w1 p -> wrote w1 w2 q -> wrote w w2 (p ++ q).
Proof.
  intros [H1 O1] [H2 O2]. destruct p as [|c p]; [by apply (wrote_same w w1)|].
  assert (Hat : out_at w1 = (out_at w + length (c :: p))%nat) by (unfold out_at at 1; rewrite H1, O1; apply write_at_overwrite).
  split; [by rewrite H2, H1, Hat, overwrite_app|]. rewrite O2. destruct q; cbn [app]; [by rewrite app_nil_r|]. rewrite Hat, <- Nat.add_assoc, <- length_app. done.
Qed.

Lemma reg_wrote w w' r bs : 0 < r <= len bs -> data w' = overwrite (data w) (write_at appends (data w) (offset w)) (take (Z.to_nat r) bs) ->
  offset w' = (write_at appends (data w) (offset w) + Z.to_nat r)%nat -> wrote w w' (take (Z.to_nat r) bs).
Proof.
  intros Hr Hd Ho. split; [done|]. rewrite Ho. pose proof (length_take bs (Z.to_nat r)) as Hl. destruct (take (Z.to_nat r) bs); [cbn in Hl; lia|].
  unfold out_at. lia.
Qed.

(** *** Flushing *)

Lemma flush_loop_spec k : forall s buf done, f_fd (st_f s) = fd -> f_buf (st_f s) = Some buf ->
  0 <= done <= f_wpos (st_f s) -> f_wpos (st_f s) <= len buf ->
  (io_interrupts (st_w s) + Z.to_nat (f_wpos (st_f s) - done) < k)%nat ->
  exists w', flush_loop k s done = Some (0, mkSt (set_wpos 0 (st_f s)) (st_errno s) w') /\
    wrote (st_w s) w' (take (Z.to_nat (f_wpos (st_f s) - done)) (drop (Z.to_nat done) buf)).
Proof.
  induction k as [|k IH]; intros [f e w] buf done Hfd Hbuf Hd Hw Hk; [lia|]. cbn [st_f st_w st_errno flush_loop] in *. cbv zeta.
  destruct (done <? f_wpos f) eqn:E.
  - rewrite Hbuf. cbn [mbind option_bind]. unfold sub_bytes. replace (_ && _) with true by lia. cbn [mbind option_bind].
    set (p := take _ (drop _ buf)). assert (Hlp : length p = Z.to_nat (f_wpos f - done)) by (subst p; rewrite length_take, length_drop; lia).
    rewrite Hfd. destruct (reg_write w p) as (r & w' & -> & Hr); [by destruct p; cbn in Hlp; [lia|]|]. unfold with_w.
    cbn [st_f st_w st_errno]. destruct Hr as [(-> & Hdata & Hoff & Hi)|(Hr & Hdata & Hoff & Hi)].
    + rewrite Z.eqb_refl. destruct (IH (mkSt f e w') buf done) as (w2 & -> & H1); cbn [st_f st_w]; [done..|lia|].
      exists w2. split; [done|]. by apply (wrote_same w w').
    + replace (r =? - EINTR) with false by (unfold EINTR; lia). replace (r <? 0) with false by lia. replace (r =? 0) with false by lia.
      destruct (IH (mkSt f e w') buf (done + r)) as (w2 & -> & H1); cbn [st_f st_w]; [done|done|lia|lia|lia|].
      exists w2. split; [done|]. rewrite <- (take_drop (Z.to_nat r) p). eapply wrote_app; [by apply reg_wrote|]. cbn [st_f st_w] in H1.
      replace (drop (Z.to_nat r) p) with (take (Z.to_nat (f_wpos f - (done + r))) (drop (Z.to_nat (done + r)) buf)); [done|].
      subst p. rewrite skipn_firstn_comm, drop_drop. f_equal; [lia|]. f_equal. lia.
  - assert (done = f_wpos f) by lia. subst done. exists w. by replace (Z.to_nat (f_wpos f - f_wpos f)) with 0%nat by lia.
Qed.

(** A flush writes the pending bytes and leaves everything else. *)
Lemma flush_pending_settles s a : holds s a ->
  exists w', let s' := mkSt (set_wpos 0 (st_f s)) (st_errno s) w' in
    flush_pending s = Some (0, s') /\ holds s' (a_settle a).
Proof.
  destruct s as [f e w]. cbn [st_f st_w st_errno]. intros S. unfold flush_pending. cbn [st_f].
  destruct (f_wpos f =? 0) eqn:E.
  { exists w. assert (Hf : set_wpos 0 f = f) by (assert (Hz : f_wpos f = 0) by lia; destruct f; cbn in Hz; by subst).
    rewrite Hf. split; [done|]. apply settle_stands; [done|lia]. }
  pose proof (h_buf _ _ _ S) as Hb. pose proof (h_bounds _ _ _ S) as Hbo. destruct (f_buf f) as [buf|] eqn:Ebuf; [|lia].
  destruct (flush_loop_spec (io_fuel (mkSt f e w) (f_wpos f)) (mkSt f e w) buf 0) as (w' & Hfl & Hwr);
    cbn [st_f st_w]; [apply (h_fd _ _ _ S)|done|lia|lia|unfold io_fuel; cbn [st_w]; lia|].
  exists w'. unfold flush_out. cbn [st_f]. rewrite Hfl. cbn [st_f st_w st_errno] in *. split; [done|].
  rewrite Z.sub_0_r in Hwr. change (drop (Z.to_nat 0) buf) with buf in Hwr. assert (Hpe : pending f = take (Z.to_nat (f_wpos f)) buf) by (unfold pending; by rewrite Ebuf).
  rewrite <- Hpe in Hwr. destruct Hwr as [Hd Ho]. pose proof (length_pending _ _ _ S) as Hlp. destruct (pending f) as [|c l] eqn:El; [cbn in Hlp; lia|].
  pose proof (h_dir _ _ _ S) as Hdir. assert (Hre : f_rend f = 0) by lia. assert (Hrp : f_rpos f = 0) by lia.
  constructor; cbn [set_wpos f_fd f_flags f_buf f_bufsize f_rpos f_rend f_wpos]; rewrite ?Ebuf, ?Hre, ?Hrp; try apply S; try lia.
  - unfold window. cbn [set_wpos f_buf f_rend f_rpos]. by rewrite Ebuf, Hre, Hrp.
  - cbn [Z.eqb a_settle af_pos]. rewrite (h_pos _ _ _ S), E, Ho. lia.
  - cbn [a_settle af_data]. rewrite (h_data _ _ _ S), Hd, El. unfold pending. cbn. by rewrite Ebuf.
Qed.

Lemma flush_pending_spec s a : holds s a ->
  exists w', let s' := mkSt (set_wpos 0 (st_f s)) (st_errno s) w' in
    flush_pending s = Some (0, s') /\ holds s' a.
Proof. intros S. destruct (flush_pending_settles s a S) as (w' & Hf & S'). exists w'. split; [done|]. by apply stands_settled. Qed.

(** *** Getting ready *)

Lemma pending_nil f : f_wpos f = 0 -> pending f = [].
Proof. intros Hw. unfold pending. rewrite Hw. by destruct (f_buf f). Qed.

Lemma window_nil f : f_rend f = f_rpos f -> window f = [].
Proof. intros Hw. unfold window. rewrite Hw, Z.sub_diag. by destruct (f_buf f). Qed.

Lemma ensure_buf_spec s a : holds s a ->
  exists s', ensure_buf s = (0, s') /\ holds s' a /\ (exists b, f_buf (st_f s') = Some b) /\
    f_rpos (st_f s') = f_rpos (st_f s) /\ f_rend (st_f s') = f_rend (st_f s) /\ f_wpos (st_f s') = f_wpos (st_f s).
Proof.
  destruct s as [f e w]. cbn [st_f st_w]. intros S. unfold ensure_buf. cbn [st_f st_w]. destruct (f_buf f) as [b|] eqn:Eb.
  { eexists. split; [reflexivity|]. cbn [st_f st_w]. split_and!; try done. by exists b. }
  destruct (reg_alloc w FILE_BUFSIZE) as (l & w' & -> & Hl & Hd & Ho); [done|].
  pose proof (h_buf _ _ _ S) as Hb. rewrite Eb in Hb. pose proof (h_bounds _ _ _ S).
  assert (Hz : f_rpos f = 0 /\ f_rend f = 0 /\ f_wpos f = 0) by lia. destruct Hz as (Hz1 & Hz2 & Hz3).
  eexists. split; [reflexivity|]. unfold upd, with_w. cbn [st_f st_w st_errno set_buf f_buf f_rpos f_rend f_wpos].
  split_and!; [|by exists l|done..].
  constructor; cbn [set_buf f_fd f_flags f_buf f_bufsize f_rpos f_rend f_wpos]; rewrite ?Hd, ?Ho; try apply S.
  - split; [done|]. by unfold FILE_BUFSIZE.
  - unfold FILE_BUFSIZE. lia.
  - rewrite Hz1, Hz2. rewrite window_nil; [done|]. cbn. lia.
  - unfold out_at. rewrite Hd, Ho. apply S.
  - rewrite (h_data _ _ _ S), !pending_nil by done. done.
  - by left.
Qed.

Lemma drop_readahead_spec s a : holds s a -> f_wpos (st_f s) = 0 ->
  exists w', let s' := mkSt (set_window 0 0 (st_f s)) (st_errno s) w' in drop_readahead s = (0, s') /\ holds s' a.
Proof.
  destruct s as [f e w]. cbn [st_f st_w st_errno]. intros S Hw. unfold drop_readahead. cbn [st_f st_w].
  rewrite (h_fresh _ _ _ S). pose proof (h_bounds _ _ _ S). pose proof (pos_settled _ _ _ S Hw) as Hp. pose proof (h_ahead _ _ _ S).
  assert (Hgo : forall w', data w' = data w -> offset w' = af_pos a -> stands (set_window 0 0 f) w' a).
  { intros w' Hd Ho. constructor; cbn [set_window f_fd f_flags f_buf f_bufsize f_rpos f_rend f_wpos]; rewrite ?Hd; try apply S; try lia.
    - by rewrite window_nil.
    - rewrite Hw, Z.eqb_refl. lia.
    - rewrite (data_settled _ _ _ S Hw), pending_nil by done. done. }
  destruct (f_rpos f <? f_rend f) eqn:E.
  - rewrite (h_fd _ _ _ S). destruct (reg_lseek w (- (f_rend f - f_rpos f)) 1 ltac:(lia)) as (w' & -> & Hd & Ho); [unfold seek_target; cbn [Z.eqb Pos.eqb]; lia|].
    unfold seek_target in *. cbn [Z.eqb Pos.eqb] in *. set (t := Z.of_nat (offset w) + - (f_rend f - f_rpos f)) in *.
    assert (Ht : t = Z.of_nat (af_pos a)) by lia. replace (t <? 0) with false in * by lia.
    replace (t =? - ESPIPE) with false by (unfold ESPIPE; lia). replace (t <? 0) with false by lia.
    exists w'. split; [done|]. apply Hgo; [done|lia].
  - exists w. split; [done|]. apply Hgo; [done|lia].
Qed.

Lemma begin_read_spec s a : holds s a -> rd = true ->
  exists s', begin_read s = Some (0, s') /\ holds s' (a_settle a) /\ f_wpos (st_f s') = 0.
Proof.
  intros S Hr. unfold begin_read. rewrite (h_read _ _ _ S), Hr. cbn [negb].
  destruct (flush_pending_settles s a S) as (w' & -> & S'). cbn [mbind option_bind]. eexists. split; [reflexivity|]. split; [exact S'|done].
Qed.

Lemma begin_write_spec s a : holds s a -> wr = true ->
  exists s', begin_write s = (0, s') /\ holds s' a /\ f_rend (st_f s') = 0 /\ (exists b, f_buf (st_f s') = Some b).
Proof.
  intros S Hw. unfold begin_write. rewrite (h_write _ _ _ S), Hw. cbn [negb]. pose proof (h_bounds _ _ _ S). pose proof (h_dir _ _ _ S).
  destruct (_ || _) eqn:E.
  - destruct (drop_readahead_spec s a S ltac:(lia)) as (w' & -> & S'). cbn [Z.eqb negb].
    destruct (ensure_buf_spec _ _ S') as (s2 & -> & S2 & Hb & _ & Hr & _). exists s2. split_and!; try done.
  - cbn [Z.eqb negb]. destruct (ensure_buf_spec _ _ S) as (s2 & -> & S2 & Hb & _ & Hr & _). exists s2. split_and!; try done. lia.
Qed.

(** *** Reading ahead *)

Lemma read_loop_spec k : forall s : st W, f_fd (st_f s) = fd -> 0 < f_bufsize (st_f s) -> (io_interrupts (st_w s) < k)%nat ->
  exists r bs (w' : W), read_loop k s = Some (r, bs, with_w w' s) /\ data w' = data (st_w s) /\ 0 <= r <= f_bufsize (st_f s) /\
    bs = take (Z.to_nat r) (drop (offset (st_w s)) (data (st_w s))) /\ len bs = r /\
    (r = 0 -> (length (data (st_w s)) <= offset (st_w s))%nat) /\ offset w' = (offset (st_w s) + Z.to_nat r)%nat.
Proof.
  induction k as [|k IH]; intros [f e w] Hfd Hb Hk; [lia|]. cbn [read_loop st_f st_w] in *. rewrite Hfd.
  destruct (reg_read w (f_bufsize f) Hb) as (r & bs & w' & -> & Hd & [(-> & Ho & Hi)|(Hr & Hbs & Hl & Hz & Ho & Hi)]).
  - rewrite Z.eqb_refl. destruct (IH (with_w w' (mkSt f e w))) as (r & bs' & w2 & -> & H2); [done..|cbn; lia|].
    exists r, bs', w2. cbn [with_w st_f st_w st_errno] in *. rewrite Hd, Ho in H2. done.
  - replace (r =? - EINTR) with false by (unfold EINTR; lia). by exists r, bs, w'.
Qed.
(** The flags of a stream that stands for [a], changed. *)
Lemma stands_fresh f w a : stands f w a -> stands (set_flags (flag_fresh false) f) w a.
Proof. intros S. constructor; cbn; apply S || done. Qed.

Lemma fill_spec s a : holds s a -> f_wpos (st_f s) = 0 -> f_rpos (st_f s) = f_rend (st_f s) ->
  exists n s', fill s = Some (n, s') /\ f_wpos (st_f s') = 0 /\
    ((0 < n /\ af_eof a = false /\ holds s' a /\ f_rpos (st_f s') < f_rend (st_f s')) \/
     (n = 0 /\ (af_eof a = true \/ (length (af_data a) <= af_pos a)%nat) /\ holds s' (a_flags true (af_err a) a))).
Proof.
  intros S0 Hw0 Hr0. unfold fill. destruct (ensure_buf_spec s a S0) as (s1 & -> & S & (b & Hb) & Hrp & Hre & Hw).
  rewrite Hw0 in Hw. cbn [Z.eqb negb]. rewrite (h_eof _ _ _ S). destruct (af_eof a) eqn:Ee.
  { do 2 eexists. split; [reflexivity|]. split; [done|]. right. split; [done|]. split; [by left|].
    replace (a_flags true (af_err a) a) with a by (destruct a; cbn in *; by subst). done. }
  destruct s1 as [f e w]. cbv zeta. unfold upd. cbn [st_f st_w st_errno] in *. pose proof (h_buf _ _ _ S) as Hlb. rewrite Hb in Hlb.
  destruct (read_loop_spec (io_fuel (mkSt (set_flags (flag_fresh false) f) e w) 0) (mkSt (set_flags (flag_fresh false) f) e w))
    as (r & bs & w' & -> & Hd & Hr & Hbs & Hl & Hz & Ho); [apply S|apply Hlb|unfold io_fuel; cbn [st_w]; lia|].
  cbn [mbind option_bind st_f st_w st_errno] in *. replace (r <? 0) with false by lia. pose proof (pos_settled _ _ _ S Hw) as Hp.
  assert (Hpo : af_pos a = offset w) by lia. pose proof (data_settled _ _ _ S Hw) as Hda.
  destruct (r =? 0) eqn:Er.
  - do 2 eexists. split; [reflexivity|]. split; [exact Hw|]. right. split; [done|]. split; [right; rewrite Hda, Hpo; apply Hz; lia|].
    unfold with_w, upd. cbn [st_f st_w st_errno].
    constructor; cbn [set_flags set_window f_fd f_flags f_buf f_bufsize f_rpos f_rend f_wpos F_READ F_WRITE F_EOF F_ERR F_FRESH flag_eof flag_fresh
      a_flags af_eof af_err af_data af_pos af_told]; rewrite ?Hd, ?Hb; try apply S; try done; try lia.
    + by rewrite window_nil.
    + rewrite Hw, Z.eqb_refl. lia.
    + rewrite Hda. by rewrite pending_nil.
  - unfold with_w, upd. cbn [st_f st_w st_errno set_flags f_buf]. rewrite Hb. cbn [mbind option_bind]. unfold array_write.
    replace (_ && _) with true by (cbn [set_flags f_bufsize] in Hr; lia). cbn [mbind option_bind].
    do 2 eexists. split; [reflexivity|]. cbn [st_f st_w]. split; [exact Hw|]. left. split; [lia|]. split; [done|].
    change (Z.to_nat 0) with 0%nat. rewrite take_0. cbn [app Nat.add]. cbn [set_flags f_bufsize] in Hr.
    assert (Hlr : length bs = Z.to_nat r) by lia.
    split; [|cbn; lia]. constructor; cbn [set_flags set_window set_bytes f_fd f_flags f_buf f_bufsize f_rpos f_rend f_wpos]; rewrite ?Hd;
      try apply S; try done; try lia.
    + rewrite length_app, length_drop. lia.
    + unfold window. cbn [set_bytes set_window f_buf f_rend f_rpos]. rewrite Z.sub_0_r. change (Z.to_nat 0) with 0%nat.
      rewrite drop_0, take_app_le, take_ge by lia. rewrite Ho, Hbs. f_equal. f_equal. lia.
    + rewrite Hw, Z.eqb_refl. lia.
    + rewrite Hda. by rewrite pending_nil.
Qed.

Lemma more_spec s a : holds s a -> f_wpos (st_f s) = 0 ->
  exists n s', more s = Some (n, s') /\ f_wpos (st_f s') = 0 /\
    ((0 < n /\ af_eof a = false /\ holds s' a /\ f_rpos (st_f s') < f_rend (st_f s')) \/
     (n = 0 /\ (af_eof a = true \/ (length (af_data a) <= af_pos a)%nat) /\ holds s' (a_flags true (af_err a) a))).
Proof.
  intros S Hw. unfold more. pose proof (h_bounds _ _ _ S) as Hb. destruct (_ <=? _) eqn:E; [apply fill_spec; [done..|lia]|].
  exists 1, s. split; [done|]. split; [done|]. left. split; [lia|]. split; [|split; [done|lia]].
  destruct (af_eof a) eqn:Ee; [|done]. pose proof (h_end _ _ _ S Ee). lia.
Qed.

(** Taking [t] bytes out of the window. *)
Definition a_skip (t : nat) (a : afile) : afile := mkAfile (af_data a) (af_pos a + t) (af_eof a) (af_err a) (af_told a).

Lemma advance_spec s a t : holds s a -> f_wpos (st_f s) = 0 -> 0 < t <= f_rend (st_f s) - f_rpos (st_f s) ->
  exists b, f_buf (st_f s) = Some b /\
    sub_bytes b (f_rpos (st_f s)) (f_rpos (st_f s) + t) = Some (take (Z.to_nat t) (drop (af_pos a) (af_data a))) /\
    len (take (Z.to_nat t) (drop (af_pos a) (af_data a))) = t /\
    holds (upd (set_window (f_rpos (st_f s) + t) (f_rend (st_f s))) s) (a_skip (Z.to_nat t) a).
Proof.
  destruct s as [f e w]. cbn [st_f st_w upd]. intros S Hw Ht. pose proof (h_bounds _ _ _ S) as Hbo. pose proof (h_buf _ _ _ S) as Hb.
  destruct (f_buf f) as [b|] eqn:Eb; [|lia]. exists b. split; [done|].
  pose proof (window_next _ _ _ S Hw) as [rest Hrest]. pose proof (length_window _ _ _ S) as Hlw.
  assert (Hsub : take (Z.to_nat t) (drop (af_pos a) (af_data a)) = take (Z.to_nat t) (drop (Z.to_nat (f_rpos f)) b)).
  { rewrite Hrest, take_app_le by lia. unfold window. rewrite Eb, take_take. f_equal. lia. }
  assert (Hlen : len (take (Z.to_nat t) (drop (Z.to_nat (f_rpos f)) b)) = t) by (rewrite length_take, length_drop; lia).
  split_and!.
  - unfold sub_bytes. replace (_ && _) with true by lia. rewrite Hsub. do 2 f_equal. lia.
  - by rewrite Hsub.
  - pose proof (h_ahead _ _ _ S). pose proof (pos_settled _ _ _ S Hw).
    constructor; cbn [set_window f_fd f_flags f_buf f_bufsize f_rpos f_rend f_wpos a_skip af_data af_pos af_eof af_err af_told];
      rewrite ?Eb; try apply S; try done; try lia.
    + intros Hee. pose proof (h_end _ _ _ S Hee). lia.
    + pose proof (h_window _ _ _ S) as Hwin. unfold window in *. cbn [set_window f_buf f_rend f_rpos]. rewrite Eb in *.
      apply (f_equal (drop (Z.to_nat t))) in Hwin. rewrite !skipn_firstn_comm, !drop_drop in Hwin.
      replace (Z.to_nat (f_rpos f) + Z.to_nat t)%nat with (Z.to_nat (f_rpos f + t)) in Hwin by lia.
      replace (Z.to_nat (f_rend f - f_rpos f) - Z.to_nat t)%nat with (Z.to_nat (f_rend f - (f_rpos f + t))) in Hwin by lia.
      rewrite Hwin. do 2 f_equal. lia.
    + rewrite Hw, Z.eqb_refl. lia.
Qed.

Lemma next_byte_spec s a : holds s a -> f_wpos (st_f s) = 0 -> f_rpos (st_f s) < f_rend (st_f s) ->
  exists c rest s', next_byte s = Some (c, s') /\ drop (af_pos a) (af_data a) = c :: rest /\ holds s' (a_skip 1 a) /\ f_wpos (st_f s') = 0.
Proof.
  intros S Hw Hr. destruct (advance_spec s a 1 S Hw ltac:(lia)) as (b & Hb & Hsub & Hlen & S').
  destruct (drop (af_pos a) (af_data a)) as [|c rest] eqn:Ed; [done|]. change (Z.to_nat 1) with 1%nat in *. cbn [take] in *.
  exists c, rest. eexists. split; [|split; [done|split; [exact S'|exact Hw]]].
  unfold next_byte. rewrite Hb. cbn [mbind option_bind]. unfold sub_bytes in Hsub. destruct (_ && _) eqn:E; [|done].
  injection Hsub as Hsub. replace (f_rpos (st_f s) + 1 - f_rpos (st_f s)) with 1 in Hsub by lia. change (Z.to_nat 1) with 1%nat in Hsub.
  unfold at_index. replace (_ <? 0) with false by lia.
  destruct (drop (Z.to_nat (f_rpos (st_f s))) b) as [|c' rest'] eqn:Eb; [done|]. cbn in Hsub. injection Hsub as ->.
  apply (f_equal (.!! 0%nat)) in Eb. rewrite lookup_drop, Nat.add_0_r in Eb. by rewrite Eb.
Qed.

Lemma fgetc_spec s a : holds s a -> rd = true ->
  exists c s', fgetc s = Some (c, s') /\
    let '(l, a') := a_read 1 (a_settle a) in holds s' a' /\ c = match l with [] => -1 | c :: _ => c end.
Proof.
  intros S Hr. unfold fgetc. destruct (begin_read_spec s a S Hr) as (s1 & -> & S1 & Hw1). cbn [mbind option_bind Z.eqb negb].
  clear S. set (b := a_settle a) in *. clearbody b. clear a. rename b into a.
  destruct (more_spec s1 a S1 Hw1) as (n & s2 & -> & Hw2 & [(Hn & He & S2 & Hr2)|(-> & Hend & S2)]); cbn [mbind option_bind].
  - replace (n <=? 0) with false by lia. destruct (next_byte_spec s2 a S2 Hw2 Hr2) as (c & rest & s3 & -> & Hd & S3 & _).
    exists c, s3. split; [done|]. unfold a_read. rewrite He, Hd. cbn. split; [|done]. unfold a_skip in S3. by rewrite He in S3.
  - cbn [Z.leb Z.compare]. exists (-1), s2. split; [done|]. unfold a_read. destruct (af_eof a) eqn:He.
    + split; [|done]. replace a with (a_flags true (af_err a) a) by (destruct a; cbn in *; by subst). done.
    + destruct Hend as [|Hend]; [done|]. rewrite (drop_ge (af_data a)), take_nil by lia. cbn. split; [|done].
      unfold a_flags in S2. by rewrite Nat.add_0_r.
Qed.

(** Reading [k] bytes as [t] and then the others. *)
Lemma a_read_split t k a : af_eof a = false -> 0 < t <= k -> len (take (Z.to_nat t) (drop (af_pos a) (af_data a))) = t ->
  a_read k a = (take (Z.to_nat t) (drop (af_pos a) (af_data a)) ++ (a_read (k - t) (a_skip (Z.to_nat t) a)).1,
                (a_read (k - t) (a_skip (Z.to_nat t) a)).2).
Proof.
  intros He Ht Hl. unfold a_read, a_skip. cbn [af_eof af_data af_pos af_err]. rewrite He. cbn [fst snd]. rewrite <- drop_drop.
  set (d := drop (af_pos a) (af_data a)) in *. assert (Hd : take (Z.to_nat k) d = take (Z.to_nat t) d ++ take (Z.to_nat (k - t)) (drop (Z.to_nat t) d)).
  { replace (Z.to_nat k) with (Z.to_nat t + Z.to_nat (k - t))%nat by lia. by rewrite take_take_drop. }
  rewrite Hd. f_equal. rewrite length_app. f_equal; [lia|]. lia.
Qed.

(** What is left of a read that met the end. *)
Lemma a_read_end k a : 0 < k -> af_eof a = true \/ (length (af_data a) <= af_pos a)%nat -> a_read k a = ([], a_flags true (af_err a) a).
Proof.
  intros Hk Hend. unfold a_read, a_flags. destruct (af_eof a) eqn:He.
  - destruct a; cbn in *; by subst.
  - destruct Hend as [|Hend]; [done|]. rewrite drop_ge, take_nil by done. cbn [length]. rewrite Nat.add_0_r. by replace (_ <? k) with true by lia.
Qed.

Lemma fread_loop_spec k : forall s a out want, holds s a -> f_wpos (st_f s) = 0 -> (Z.to_nat (want - len out) < k)%nat -> len out < want ->
  exists s', fread_loop k s out want = Some (out ++ (a_read (want - len out) a).1, s') /\ holds s' (a_read (want - len out) a).2.
Proof.
  induction k as [|k IH]; intros s a out want S Hw Hk Ho; [lia|]. cbn [fread_loop]. replace (len out <? want) with true by lia.
  destruct (more_spec s a S Hw) as (n & s2 & -> & Hw2 & [(Hn & He & S2 & Hr2)|(-> & Hend & S2)]); cbn [mbind option_bind].
  2:{ cbn [Z.leb Z.compare]. exists s2. rewrite a_read_end by (done || lia). cbn [fst snd]. by rewrite app_nil_r. }
  replace (n <=? 0) with false by lia. cbv zeta. set (t := if _ <? _ then _ else _).
  assert (Ht : 0 < t <= want - len out /\ t <= f_rend (st_f s2) - f_rpos (st_f s2)) by (subst t; destruct (_ <? _) eqn:Et; lia).
  destruct (advance_spec s2 a t S2 Hw2 ltac:(lia)) as (b & -> & Hsub & Hlen & S3). cbn [mbind option_bind]. rewrite Hsub. cbn [mbind option_bind].
  rewrite (a_read_split t (want - len out) a He ltac:(lia) Hlen). cbn [fst snd]. set (d := take (Z.to_nat t) _) in *.
  assert (Hlo : len (out ++ d) = len out + t) by (rewrite length_app; lia).
  replace (want - len out - t) with (want - len (out ++ d)) by lia. rewrite app_assoc.
  destruct (decide (len (out ++ d) < want)) as [Hlt|Hge].
  - apply IH; [exact S3|exact Hw2|lia|done].
  - replace (want - len (out ++ d)) with 0 by lia. destruct k as [|k]; [lia|]. cbn [fread_loop]. replace (_ <? want) with false by lia.
    eexists. split; [unfold a_read; cbn [a_skip af_eof]; rewrite He; cbn [fst]; by rewrite take_0, app_nil_r|].
    unfold a_read. cbn [a_skip af_eof]. rewrite He. cbn [fst snd]. change (Z.to_nat 0) with 0%nat. rewrite take_0. cbn [length Z.of_nat Z.ltb Z.compare].
    rewrite Nat.add_0_r. unfold a_skip in S3. by rewrite He in S3.
Qed.

Lemma fread_spec s a size nmemb : holds s a -> rd = true -> 0 < size -> 0 < nmemb -> size * nmemb <= SIZE_MAX ->
  exists s', let '(l, a') := a_read (size * nmemb) (a_settle a) in
    fread s size nmemb = Some (len l / size, l, s') /\ holds s' a'.
Proof.
  intros S Hr Hs Hn Hmax. unfold fread. replace (_ || _) with false by lia.
  assert (nmemb <= SIZE_MAX / size) by (apply Z.div_le_lower_bound; lia). replace (SIZE_MAX / size <? nmemb) with false by lia.
  destruct (begin_read_spec s a S Hr) as (s1 & -> & S1 & Hw1). cbn [mbind option_bind Z.eqb negb].
  destruct (fread_loop_spec (Datatypes.S (Z.to_nat (size * nmemb))) s1 (a_settle a) [] (size * nmemb) S1 Hw1) as (s2 & Hf & S2); [cbn [length]; lia|cbn [length]; nia|].
  cbn [length Z.of_nat] in *. rewrite Z.sub_0_r in *. rewrite Hf. cbn [mbind option_bind app]. exists s2.
  destruct (a_read (size * nmemb) (a_settle a)). done.
Qed.

(** A line, a byte first. *)
Lemma a_line_step delim m a c rest : af_eof a = false -> drop (af_pos a) (af_data a) = c :: rest ->
  a_line delim (S m) a = if c =? delim then ([c], a_skip 1 a) else (c :: (a_line delim m (a_skip 1 a)).1, (a_line delim m (a_skip 1 a)).2).
Proof.
  intros He Hd. unfold a_line, a_skip. cbn [af_eof af_data af_pos af_err af_told]. rewrite He, Hd, <- drop_drop, Hd. cbn [line_of drop]. rewrite drop_0.
  destruct (c =? delim); [done|]. destruct (line_of delim m rest) as [l e]. cbn [fst snd length].
  by rewrite <- Nat.add_assoc.
Qed.

Lemma a_line_end delim m a : af_eof a = true \/ (length (af_data a) <= af_pos a)%nat -> a_line delim (S m) a = ([], a_flags true (af_err a) a).
Proof.
  intros Hend. unfold a_line, a_flags. destruct (af_eof a) eqn:He.
  - destruct a; cbn in *; by subst.
  - destruct Hend as [|Hend]; [done|]. rewrite drop_ge by done. cbn. by rewrite Nat.add_0_r.
Qed.

Lemma fgets_loop_spec m : forall k s a out n, holds s a -> f_wpos (st_f s) = 0 -> len out + Z.of_nat m = n - 1 -> (m < k)%nat -> af_eof a = false \/ (0 < m)%nat ->
  exists s', fgets_loop k s out n = Some (out ++ (a_line 10 m a).1, s') /\ holds s' (a_line 10 m a).2.
Proof.
  induction m as [|m IH]; intros k s a out n S Hw Hn Hk He0; (destruct k as [|k]; [lia|]); cbn [fgets_loop].
  - replace (len out <? n - 1) with false by lia. exists s. unfold a_line. destruct He0 as [He0|]; [|lia]. rewrite He0. cbn [line_of fst snd length].
    rewrite app_nil_r, Nat.add_0_r. split; [done|]. rewrite <- He0. by destruct a.
  - replace (len out <? n - 1) with true by lia.
    destruct (more_spec s a S Hw) as (r & s2 & -> & Hw2 & [(Hr & He & S2 & Hr2)|(-> & Hend & S2)]); cbn [mbind option_bind].
    2:{ cbn [Z.leb Z.compare]. exists s2. rewrite a_line_end by done. cbn [fst snd]. by rewrite app_nil_r. }
    replace (r <=? 0) with false by lia. destruct (next_byte_spec s2 a S2 Hw2 Hr2) as (c & rest & s3 & -> & Hd & S3 & Hw3).
    cbn [mbind option_bind]. rewrite (a_line_step 10 m a c rest He Hd). destruct (c =? 10).
    + by exists s3.
    + cbn [fst snd]. destruct (IH k s3 (a_skip 1 a) (out ++ [c]) n S3 Hw3) as (s4 & Hf & S4); [rewrite length_app; cbn [length]; lia|lia|by left|].
      exists s4. split; [|done]. rewrite Hf. by rewrite <- app_assoc.
Qed.

Lemma fgets_spec s a n : holds s a -> rd = true -> 1 < n ->
  exists s', let '(l, a') := a_line 10 (Z.to_nat (n - 1)) (a_settle a) in
    fgets s n = Some (match l with [] => None | _ => Some (l ++ [0]) end, s') /\ holds s' a'.
Proof.
  intros S Hr Hn. unfold fgets. replace (n <=? 0) with false by lia. replace (n =? 1) with false by lia.
  destruct (begin_read_spec s a S Hr) as (s1 & -> & S1 & Hw1). cbn [mbind option_bind Z.eqb negb].
  destruct (fgets_loop_spec (Z.to_nat (n - 1)) (Z.to_nat n) s1 (a_settle a) [] n S1 Hw1) as (s2 & Hf & S2); [cbn [length]; lia|lia|right; lia|].
  rewrite Hf. exists s2. destruct (a_line _ _ (a_settle a)) as [l a']. cbn [fst snd mbind option_bind app] in *. split; [|done]. by destruct l.
Qed.

(** *** Lines of any length *)

Lemma stands_world f w w' a : data w' = data w -> offset w' = offset w -> stands f w a -> stands f w' a.
Proof. intros Hd Ho S. constructor; unfold out_at; rewrite ?Hd, ?Ho; apply S. Qed.

Lemma grow_size_spec fuel : forall nc need, 0 < nc < 2 ^ 63 -> need <= 2 ^ 62 -> need <= nc * 2 ^ Z.of_nat fuel ->
  exists r, grow_size (S fuel) nc need = Some r /\ need <= r /\ 0 < r.
Proof.
  induction fuel as [|fuel IH]; intros nc need Hnc Hn Hf; cbn [grow_size]; destruct (nc <? need) eqn:E; try (eexists; split; [done|]; lia); [cbn in Hf; lia|].
  rewrite Nat2Z.inj_succ, Z.pow_succ_r in Hf by lia. rewrite u64_small by lia. apply IH; lia.
Qed.

(** The caller's array starts with [out], and a byte behind it is free once there is one. *)
Definition line_holds (l : linebuf) (out : list Z) : Prop :=
  match lb_ptr l with
  | Some p => len p = lb_n l /\ out `prefix_of` p /\ (out <> [] -> len out < lb_n l)
  | None => lb_n l = 0 /\ out = []
  end.

Lemma set_index_prefix (out p : list Z) c : out `prefix_of` p -> len out < len p ->
  exists p', set_index p (len out) c = Some p' /\ len p' = len p /\ out ++ [c] `prefix_of` p'.
Proof.
  intros [[|x b] ->] Hl; rewrite ?length_app in Hl; [cbn in Hl; lia|]. exists (out ++ c :: b). split_and!; [|by rewrite !length_app|exists b; by rewrite <- app_assoc].
  unfold set_index. replace (_ || _) with false by (rewrite length_app; cbn; lia). rewrite Nat2Z.id, insert_app_r_alt, Nat.sub_diag by lia. done.
Qed.

Lemma line_room_spec s a l out : holds s a -> line_holds l out -> len out + 2 <= 2 ^ 62 ->
  exists l' w' p, line_room s l (len out) = Some (0, l', with_w w' s) /\ stands (st_f s) w' a /\
    lb_ptr l' = Some p /\ len p = lb_n l' /\ len out + 2 <= lb_n l' /\ out `prefix_of` p.
Proof.
  intros S Hl Hmax. unfold line_room. destruct (_ <? _) eqn:E.
  2:{ exists l, (st_w s). unfold line_holds in Hl. destruct (lb_ptr l) as [p|] eqn:Ep; [|lia]. exists p. destruct Hl as (? & ? & _). split; [by destruct s|]. split_and!; [done..|lia|done]. }
  assert (Hn : 0 <= lb_n l) by (unfold line_holds in Hl; destruct (lb_ptr l); lia).
  destruct (grow_size_spec 64 (if lb_n l =? 0 then 120 else u64 (lb_n l * 2)) (len out + 2)) as (nc & -> & Hnc & Hpos);
    [destruct (_ =? 0) eqn:?; [lia|rewrite u64_small by lia; lia]|done|destruct (_ =? 0) eqn:?; [lia|rewrite u64_small by lia; lia]|].
  cbn [mbind option_bind]. destruct (reg_alloc (st_w s) nc ltac:(lia)) as (np & w' & -> & Hlen & Hd & Ho).
  pose proof (stands_world _ _ w' _ Hd Ho S) as S'. unfold line_holds in Hl. destruct (lb_ptr l) as [old|].
  - destruct Hl as (Ho1 & [b ->] & _). unfold sub_bytes. rewrite length_app in *. replace (_ && _) with true by lia. cbn [mbind option_bind].
    rewrite Z.sub_0_r, Nat2Z.id, drop_0, take_app_length. unfold array_write. replace (_ && _) with true by lia. cbn [mbind option_bind].
    eexists _, w', _. split; [reflexivity|]. change (Z.to_nat 0) with 0%nat. rewrite take_0. cbn [app Nat.add lb_n].
    split_and!; [done|done|rewrite length_app, length_drop; lia|lia|by eexists].
  - destruct Hl as [_ ->]. cbn [mbind option_bind]. eexists _, w', np. split; [reflexivity|]. split_and!; [done..|cbn; lia|apply prefix_nil].
Qed.

(** What the caller finds: the count, or -1 when there is nothing, and the line with its NUL. *)
Definition line_result (ln : list Z) : Z := match ln with [] => -1 | _ => len ln end.

Lemma getdelim_stop (s : st W) l out : line_holds l out -> out <> [] ->
  exists p l', (p ← lb_ptr l; p ← set_index p (len out) 0; Some (len out, mkLine (Some p) (lb_n l), s)) = Some (line_result out, l', s) /\
    lb_ptr l' = Some p /\ out ++ [0] `prefix_of` p.
Proof.
  unfold line_holds. intros Hl Hne. destruct (lb_ptr l) as [p|]; [|by destruct Hl]. destruct Hl as (Hlen & Hpre & Hfree). cbn [mbind option_bind].
  destruct (set_index_prefix out p 0 Hpre ltac:(rewrite Hlen; auto)) as (p' & -> & _ & Hp'). exists p'. eexists. split; [by destruct out|]. by split.
Qed.

Lemma getdelim_loop_spec delim m : forall k s a l out, holds s a -> f_wpos (st_f s) = 0 -> line_holds l out ->
  (length (drop (af_pos a) (af_data a)) < m <= k)%nat -> len out + len (drop (af_pos a) (af_data a)) + 2 <= 2 ^ 62 ->
  exists l' s', let ln := out ++ (a_line (u8 delim) m a).1 in
    getdelim_loop k s l (len out) delim = Some (line_result ln, l', s') /\ holds s' (a_line (u8 delim) m a).2 /\
    (ln <> [] -> exists p, lb_ptr l' = Some p /\ ln ++ [0] `prefix_of` p).
Proof.
  induction m as [|m IH]; intros k s a l out S Hw Hl Hk Hmax; [lia|]. destruct k as [|k]; [lia|]. cbn [getdelim_loop].
  destruct (more_spec s a S Hw) as (r & s2 & -> & Hw2 & [(Hr & He & S2 & Hr2)|(-> & Hend & S2)]); cbn [mbind option_bind].
  2:{ cbn [Z.ltb Z.compare Z.eqb]. rewrite a_line_end by done. cbn [fst snd]. rewrite app_nil_r. destruct (decide (out = [])) as [->|Hne].
    - exists l, s2. cbn. split_and!; [done..|by intros].
    - destruct (getdelim_stop s2 l out Hl Hne) as (p & l' & Hst & Hp). replace (len out =? 0) with false by (destruct out; cbn; done || lia). rewrite Hst.
      exists l', s2. split_and!; [done..|]. intros _. by exists p. }
  replace (r <? 0) with false by lia. replace (r =? 0) with false by lia.
  destruct (line_room_spec s2 a l out S2 Hl ltac:(lia)) as (l1 & w1 & p & -> & S3 & Hp & Hlp & Hroom & Hpre). cbn [mbind option_bind Z.eqb negb].
  destruct (next_byte_spec (with_w w1 s2) a S3 Hw2 Hr2) as (c & rest & s3 & -> & Hd & S4 & Hw3). cbn [mbind option_bind]. rewrite Hp. cbn [mbind option_bind].
  destruct (set_index_prefix out p c Hpre ltac:(lia)) as (p1 & -> & Hl1 & Hpre1). cbn [mbind option_bind].
  assert (Hl2 : line_holds (mkLine (Some p1) (lb_n l1)) (out ++ [c])) by (unfold line_holds; cbn; rewrite length_app; cbn; split_and!; [lia|done|lia]).
  replace (len out + 1) with (len (out ++ [c])) by (rewrite length_app; cbn; lia). rewrite (a_line_step _ m a c rest He Hd). destruct (c =? u8 delim).
  - cbn [fst snd]. assert (Hne : out ++ [c] <> []) by (by destruct out). destruct (getdelim_stop s3 _ _ Hl2 Hne) as (p2 & l' & Hst & Hp2). rewrite Hst.
    exists l', s3. split_and!; [done..|]. intros _. by exists p2.
  - cbn [fst snd]. assert (Hdr : drop (af_pos (a_skip 1 a)) (af_data (a_skip 1 a)) = rest) by (unfold a_skip; cbn; rewrite <- drop_drop, Hd; done).
    rewrite Hd in Hk, Hmax. cbn [length] in Hk, Hmax. destruct (IH k s3 (a_skip 1 a) _ _ S4 Hw3 Hl2) as (l' & s' & Hrun); [rewrite Hdr; lia|rewrite Hdr, length_app; cbn [length]; lia|].
    cbv zeta in Hrun. rewrite <- app_assoc in Hrun. by exists l', s'.
Qed.

Lemma getdelim_spec fuel l delim s a : holds s a -> rd = true -> line_holds l [] ->
  (length (af_data a) < fuel)%nat -> len (af_data a) + 2 <= 2 ^ 62 ->
  exists l' s', let '(ln, a') := a_line (u8 delim) fuel (a_settle a) in
    getdelim fuel (Some l) delim s = Some (line_result ln, Some l', s') /\ holds s' a' /\
    (ln <> [] -> exists p, lb_ptr l' = Some p /\ ln ++ [0] `prefix_of` p).
Proof.
  intros S Hr Hl Hf Hmax. unfold getdelim. destruct (begin_read_spec s a S Hr) as (s1 & -> & S1 & Hw1). cbn [mbind option_bind Z.eqb negb].
  pose proof (length_drop (af_data a) (af_pos a)) as Hd.
  destruct (getdelim_loop_spec delim fuel fuel s1 (a_settle a) l [] S1 Hw1 Hl) as (l' & s' & Hrun); [cbn; lia|cbn; lia|].
  cbn [app] in Hrun. change (len (@nil Z)) with 0 in Hrun. exists l', s'. destruct (a_line _ _ _) as [ln a']. cbn [fst snd] in Hrun. destruct Hrun as (-> & S' & Hp). by split.
Qed.

(** *** Writing *)

Lemma a_write_app p q a : a_write appends (p ++ q) a = a_write appends q (a_write appends p a).
Proof.
  destruct p as [|c p]; [done|]. destruct q as [|d q]; [by rewrite app_nil_r|]. unfold a_write. cbn [app af_data af_pos af_eof af_err af_told]. cbv zeta.
  rewrite write_at_overwrite, overwrite_app, Nat.eqb_refl, andb_true_r, <- Nat.add_assoc, <- length_app. done.
Qed.

Lemma a_write_nil a : a_write appends [] a = a.
Proof. done. Qed.

Lemma direct_loop_spec k : forall (s : st W) p done, f_fd (st_f s) = fd -> 0 <= done <= len p ->
  (io_interrupts (st_w s) + Z.to_nat (len p - done) < k)%nat ->
  exists w', direct_loop k s p done = Some (0, with_w w' s) /\
    wrote (st_w s) w' (drop (Z.to_nat done) p).
Proof.
  induction k as [|k IH]; intros [f e w] p done Hfd Hd Hk; [lia|]. cbn [st_f st_w direct_loop] in *.
  destruct (done <? len p) eqn:E.
  - set (q := drop (Z.to_nat done) p). assert (Hlq : length q = Z.to_nat (len p - done)) by (subst q; rewrite length_drop; lia).
    rewrite Hfd. destruct (reg_write w q) as (r & w' & -> & Hr); [by destruct q; cbn in Hlq; [lia|]|]. unfold with_w.
    cbn [st_f st_w st_errno]. destruct Hr as [(-> & Hdata & Hoff & Hi)|(Hr & Hdata & Hoff & Hi)].
    + rewrite Z.eqb_refl. destruct (IH (mkSt f e w') p done) as (w2 & -> & H1); cbn [st_f st_w]; [done|done|lia|].
      exists w2. split; [done|]. by apply (wrote_same w w').
    + replace (r =? - EINTR) with false by (unfold EINTR; lia). replace (r <? 0) with false by lia. replace (r =? 0) with false by lia.
      destruct (IH (mkSt f e w') p (done + r)) as (w2 & -> & H1); cbn [st_f st_w]; [done|lia|lia|].
      exists w2. split; [done|]. rewrite <- (take_drop (Z.to_nat r) q). eapply wrote_app; [by apply reg_wrote|]. cbn [st_w] in H1.
      replace (drop (Z.to_nat r) q) with (drop (Z.to_nat (done + r)) p); [done|]. subst q. rewrite drop_drop. f_equal. lia.
  - assert (done = len p) by lia. subst done. exists w. by rewrite Nat2Z.id, drop_all.
Qed.

(** A stream that is not reading and has a buffer. *)
Abbreviation writing s := (f_rend (st_f s) = 0 /\ exists b, f_buf (st_f s) = Some b).

Lemma write_direct_spec s a p : holds s a -> writing s -> f_wpos (st_f s) = 0 ->
  exists w', let s' := with_w w' s in write_direct s p = Some (0, s') /\ holds s' (a_write appends p a).
Proof.
  destruct s as [f e w]. cbn [st_f st_w]. intros S [Hr [b Hb]] Hw. unfold write_direct.
  destruct (direct_loop_spec (io_fuel (mkSt f e w) (len p)) (mkSt f e w) p 0) as (w' & -> & Hwr); [apply S|lia|unfold io_fuel; cbn [st_w]; lia|].
  exists w'. split; [done|]. cbn [st_f st_w with_w] in *. change (drop (Z.to_nat 0) p) with p in Hwr. destruct Hwr as [Hd Ho].
  pose proof (h_bounds _ _ _ S). destruct (out_next _ _ _ S Hr) as [Hat _]. assert (Hrp : f_rpos f = 0) by lia.
  destruct p as [|c p]; [cbn in *; constructor; unfold out_at; rewrite ?Hd, ?Ho; apply S|].
  unfold a_write. cbv zeta. rewrite Hat, Hw. change (Z.to_nat 0) with 0%nat. rewrite Nat.add_0_r.
  constructor; cbn [af_data af_pos af_eof af_err af_told]; rewrite ?Hr, ?Hrp, ?Hw; try apply S; try lia.
  - rewrite window_nil by lia. done.
  - rewrite Z.eqb_refl, Ho. lia.
  - rewrite pending_nil by done. cbn. by rewrite Hd, (data_settled _ _ _ S Hw).
Qed.

Lemma a_write_eof p a : af_eof (a_write appends p a) = af_eof a.
Proof. by destruct p. Qed.
Lemma a_write_err p a : af_err (a_write appends p a) = af_err a.
Proof. by destruct p. Qed.

(** Bytes appended to the pending ones. *)
Lemma append_spec s a p : holds s a -> writing s -> f_wpos (st_f s) + len p <= f_bufsize (st_f s) ->
  exists s1, buf_copy s (f_wpos (st_f s)) p = Some s1 /\
    let s' := upd (set_wpos (f_wpos (st_f s) + len p)) s1 in
    holds s' (a_write appends p a) /\ writing s' /\ f_bufsize (st_f s') = f_bufsize (st_f s) /\ pending (st_f s') = pending (st_f s) ++ p.
Proof.
  destruct s as [f e w]. cbn [st_f st_w]. intros S [Hr [b Hb]] Hfit. pose proof (h_bounds _ _ _ S) as Hbo. pose proof (h_buf _ _ _ S) as Hlb.
  rewrite Hb in Hlb. set (b' := take (Z.to_nat (f_wpos f)) b ++ p ++ drop (Z.to_nat (f_wpos f) + length p) b).
  assert (Hc : buf_copy (mkSt f e w) (f_wpos f) p = Some (mkSt (set_bytes b' f) e w)).
  { unfold buf_copy. cbn [st_f]. destruct (len p =? 0) eqn:E.
    - destruct p; [|done]. assert (b' = b) as -> by (subst b'; cbn; rewrite Nat.add_0_r; apply take_drop). destruct f; cbn in *. by rewrite Hb.
    - rewrite Hb. cbn [mbind option_bind]. unfold array_write. by replace (_ && _) with true by lia. }
  exists (mkSt (set_bytes b' f) e w). split; [done|]. unfold upd. cbn [st_f st_w st_errno]. pose proof (h_pos _ _ _ S).
  assert (Hl : length b' = length b) by (subst b'; rewrite !length_app, length_take, length_drop; lia).
  assert (Hp : pending (set_wpos (f_wpos f + len p) (set_bytes b' f)) = pending f ++ p).
  { unfold pending. cbn [set_wpos set_bytes f_buf f_wpos]. rewrite Hb. subst b'. rewrite app_assoc, take_app_le, take_ge; [done|..];
      rewrite length_app, length_take; lia. }
  split_and!; [|done|by exists b'|done|done].
  destruct (out_next _ _ _ S Hr) as [Hat Hmt]. pose proof (length_pending _ _ _ S) as Hlp.
  constructor; rewrite ?Hp; cbn [set_wpos set_bytes f_fd f_flags f_buf f_bufsize f_rpos f_rend f_wpos]; rewrite ?a_write_eof, ?a_write_err;
    rewrite ?Hl; try apply S; try done; try lia.
  - rewrite window_nil by (cbn; lia). by replace (f_rend f - f_rpos f) with 0 by lia.
  - destruct p as [|c p]; [cbn [length a_write]; rewrite Z.add_0_r; apply S|]. unfold a_write. cbv zeta. cbn [af_pos length]. rewrite Hat.
    replace (_ =? 0) with false by lia. lia.
  - destruct p as [|c p]; [rewrite app_nil_r; apply S|]. unfold a_write. cbv zeta. cbn [af_data].
    rewrite Hat, (h_data _ _ _ S), <- overwrite_app. f_equal. lia.
  - destruct p as [|c p]; [cbn [length a_write]; rewrite Z.add_0_r; apply S|]. unfold a_write. cbv zeta. cbn [af_told]. intros [Ht He]%andb_true_iff.
    right. destruct (h_told _ _ _ S Ht) as [H0|]; [|done]. pose proof (pos_settled _ _ _ S H0). apply Nat.eqb_eq in He. lia.
Qed.

Lemma stands_fresh_buf f w a b : stands f w a -> stands (set_fresh_buf b f) w a.
Proof. intros S. constructor; apply S. Qed.

Lemma stands_mode f w a b : stands f w a -> stands (set_mode b f) w a.
Proof. intros S. constructor; apply S. Qed.

Lemma put_buffered_spec s a p : holds s a -> writing s ->
  exists s', put_buffered s p = Some (0, s') /\ holds s' (a_write appends p a) /\ writing s' /\ pending (st_f s') `suffix_of` pending (st_f s) ++ p.
Proof.
  intros S Wr. unfold put_buffered. cbv zeta. pose proof (h_bounds _ _ _ S) as Hbo. 
  set (room := if f_fresh_buf (st_f s) then 0 else if f_wpos (st_f s) <? f_bufsize (st_f s) then f_bufsize (st_f s) - f_wpos (st_f s) else 0).
  assert (Hroom : 0 <= room <= f_bufsize (st_f s) - f_wpos (st_f s)) by (subst room; destruct (f_fresh_buf _); [lia|]; destruct (_ <? _) eqn:?; lia).
  clearbody room. set (copy := if len p <? room then len p else room).
  assert (Hcopy : 0 <= copy <= room /\ copy <= len p) by (subst copy; destruct (_ <? _) eqn:?; lia). clearbody copy.
  set (p1 := take (Z.to_nat copy) p). assert (Hl1 : len p1 = copy) by (subst p1; rewrite length_take; lia).
  destruct (append_spec s a p1 S Wr ltac:(lia)) as (s1 & -> & S1 & W1 & B1 & P1). cbn [mbind option_bind]. rewrite Hl1 in *.
  apply (stands_fresh_buf _ _ _ false) in S1. set (s2 := upd (set_fresh_buf false) (upd (set_wpos _) s1)).
  change (holds s2 (a_write appends p1 a)) in S1. change (writing s2) in W1. change (pending (st_f s2) = pending (st_f s) ++ p1) in P1.
  change (f_bufsize (st_f s2) = f_bufsize (st_f s)) in B1. clearbody s2.
  destruct (len p - copy =? 0) eqn:E0.
  { exists s2. replace p1 with p in *; [|subst p1; by rewrite take_ge by lia]. split_and!; [done|done|apply W1|apply W1|by rewrite P1]. }
  destruct (flush_pending_spec s2 _ S1) as (w3 & -> & S3). cbn [mbind option_bind Z.eqb negb]. set (s3 := mkSt _ _ _) in *.
  assert (W3 : writing s3) by exact W1. assert (Hw3 : f_wpos (st_f s3) = 0) by done. change (f_bufsize (st_f s3) = f_bufsize (st_f s)) in B1. clearbody s3.
  pose proof (h_buf _ _ _ S) as Hb. destruct Wr as [_ [b Hb0]]. rewrite Hb0 in Hb. replace (f_bufsize (st_f s) =? 0) with false by lia.
  set (direct := len p - copy - (len p - copy) mod f_bufsize (st_f s)).
  pose proof (Z.mod_pos_bound (len p - copy) (f_bufsize (st_f s)) ltac:(lia)) as Hm.
  assert (Hm' : (len p - copy) mod f_bufsize (st_f s) <= len p - copy) by (apply Z.mod_le; lia).
  assert (Hdir : 0 <= direct <= len p - copy /\ len p - copy - direct < f_bufsize (st_f s)) by (subst direct; lia). clearbody direct.
  set (p2 := take (Z.to_nat direct) (drop (Z.to_nat copy) p)).
  assert (Hs4 : exists s4, (if direct =? 0 then Some (0, s3) else write_direct s3 p2) = Some (0, s4) /\ holds s4 (a_write appends p2 (a_write appends p1 a)) /\
      writing s4 /\ f_wpos (st_f s4) = 0 /\ f_bufsize (st_f s4) = f_bufsize (st_f s)).
  { destruct (direct =? 0) eqn:Ed.
    - exists s3. split; [done|]. replace p2 with (@nil Z) by (subst p2; by replace (Z.to_nat direct) with 0%nat by lia). rewrite a_write_nil. done.
    - destruct (write_direct_spec s3 _ p2 S3 W3 Hw3) as (w4 & -> & S4). eexists. split; [done|]. split; [exact S4|]. by cbn. }
  destruct Hs4 as (s4 & -> & S4 & W4 & Hw4 & B4). cbn [mbind option_bind Z.eqb negb].
  set (p3 := drop (Z.to_nat (copy + direct)) p). assert (Hl3 : len p3 = len p - copy - direct) by (subst p3; rewrite length_drop; lia).
  assert (Hp : p = p1 ++ p2 ++ p3).
  { subst p1 p2 p3. rewrite app_assoc, take_take_drop. replace (Z.to_nat (copy + direct)) with (Z.to_nat copy + Z.to_nat direct)%nat by lia. by rewrite take_drop. }
  assert (Hpa : a_write appends p a = a_write appends p3 (a_write appends p2 (a_write appends p1 a))) by (rewrite Hp at 1; by rewrite !a_write_app).
  destruct (append_spec s4 _ p3 S4 W4 ltac:(lia)) as (s5 & H5 & S5 & W5 & B5 & P5). cbv zeta in *. rewrite Hw4, Hl3, ?Z.add_0_l in *. rewrite H5. cbn [mbind option_bind].
  eexists. split; [reflexivity|]. split; [by rewrite Hpa|]. split; [exact W5|]. rewrite P5, pending_nil by done. cbn [app].
  exists (pending (st_f s) ++ p1 ++ p2). by rewrite <- !app_assoc, <- Hp.
Qed.

Lemma flush_out_pending (s : st W) : flush_out s = flush_pending s.
Proof.
  unfold flush_pending. destruct (f_wpos (st_f s) =? 0) eqn:E; [|done]. assert (Hw : f_wpos (st_f s) = 0) by lia.
  unfold flush_out, io_fuel. cbn [flush_loop]. rewrite Hw. cbn [Z.ltb Z.compare]. destruct s as [f e w]. destruct f. cbn in *. by subst.
Qed.

(** The last [k] pending bytes taken back. *)
Lemma retract_spec s a k : holds s a -> writing s -> 0 <= k <= f_wpos (st_f s) ->
  exists a0, let s' := upd (set_wpos (f_wpos (st_f s) - k)) s in
    holds s' a0 /\ a = a_write appends (drop (Z.to_nat (f_wpos (st_f s) - k)) (pending (st_f s))) a0.
Proof.
  destruct s as [f e w]. unfold upd. cbn [st_f st_w st_errno]. intros S [Hr [b Hb]] Hk. pose proof (h_bounds _ _ _ S) as Hbo. pose proof (h_pos _ _ _ S) as Hpos.
  assert (Hrp : f_rpos f = 0) by lia. set (n := f_wpos f - k). pose proof (length_pending _ _ _ S) as Hlp.
  assert (Hp : pending (set_wpos n f) = take (Z.to_nat n) (pending f)).
  { unfold pending. cbn [set_wpos f_buf f_wpos]. rewrite Hb, take_take. f_equal. lia. }
  set (d0 := overwrite (data w) (out_at w) (take (Z.to_nat n) (pending f))). pose proof (length_take (pending f) (Z.to_nat n)) as Hlt.
  set (a0 := mkAfile d0 (if n =? 0 then offset w else out_at w + Z.to_nat n) (af_eof a) (af_err a) (af_told a)).
  assert (S0 : stands (set_wpos n f) w a0).
  { constructor; rewrite ?Hp; subst a0; cbn [set_wpos f_fd f_flags f_buf f_bufsize f_rpos f_rend f_wpos af_data af_pos af_eof af_err af_told]; try apply S; try done; try lia.
    - destruct (n =? 0); lia.
    - intros Ht. destruct (h_told _ _ _ S Ht); [left; lia|by right]. }
  exists a0. split; [done|]. destruct (out_next _ _ _ S0 Hr) as [Hat _]. cbn [set_wpos f_wpos] in Hat. pose proof (length_drop (pending f) (Z.to_nat n)) as Hld.
  destruct (drop (Z.to_nat n) (pending f)) as [|c l] eqn:El.
  { cbn in Hld. assert (Hn : n = f_wpos f) by lia. cbn. subst a0 d0. rewrite Hn, take_ge, <- (h_data _ _ _ S) by lia. rewrite Hn in *.
    pose proof (h_pos _ _ _ S). destruct a as [da pa ea ra ta]. cbn in *. f_equal. destruct (_ =? 0); lia. }
  cbn [length] in Hld. unfold a_write. rewrite Hat, <- El. subst a0. cbn [af_data af_pos af_eof af_err af_told]. cbv zeta.
  replace (out_at w + Z.to_nat n)%nat with (out_at w + length (take (Z.to_nat n) (pending f)))%nat at 1 by lia. subst d0.
  rewrite overwrite_app, take_drop, <- (h_data _ _ _ S), length_drop. replace (f_wpos f =? 0) with false in Hpos by lia.
  pose proof (h_told _ _ _ S) as Htold. destruct a as [da pa ea ra ta]. cbn in *. f_equal; [lia|]. destruct ta; [|done]. symmetry. apply Nat.eqb_eq.
  destruct (Htold eq_refl); [lia|]. destruct (n =? 0) eqn:En; lia.
Qed.

Lemma line_end_bounds p : 0 <= line_end p <= len p.
Proof. induction p as [|c p IH]; cbn [line_end length]; [lia|]. destruct (0 <? _) eqn:?; [lia|]. destruct (c =? 10); lia. Qed.

Lemma put_lines_spec s a p q : holds s a -> writing s -> pending (st_f s) `suffix_of` q ++ p ->
  exists s', put_lines s p = Some (0, s') /\ holds s' a.
Proof.
  intros S Wr [pre Hsuf]. unfold put_lines. cbv zeta. pose proof (line_end_bounds p) as Hle. set (keep := len p - line_end p).
  destruct (_ && _) eqn:E; [|by exists s]. pose proof (length_pending _ _ _ S) as Hlp. pose proof (h_bounds _ _ _ S) as Hbo.
  destruct (retract_spec s a keep S Wr ltac:(lia)) as (a0 & S0 & ->).
  assert (Hd : drop (Z.to_nat (f_wpos (st_f s) - keep)) (pending (st_f s)) = drop (Z.to_nat (line_end p)) p).
  { pose proof (f_equal length Hsuf) as Hlen. rewrite !length_app in Hlen.
    rewrite <- (drop_app_add pre (pending _)), <- (drop_app_add q p), Hsuf. f_equal. lia. }
  rewrite Hd. rewrite flush_out_pending. destruct (flush_pending_spec _ _ S0) as (w1 & -> & S1). cbn [mbind option_bind Z.eqb negb].
  set (s1 := mkSt _ _ _) in *. assert (W1 : writing s1) by exact Wr. assert (Hw1 : f_wpos (st_f s1) = 0) by done.
  assert (B1 : f_bufsize (st_f s1) = f_bufsize (st_f s)) by done. clearbody s1.
  assert (Hl : len (drop (Z.to_nat (line_end p)) p) = keep) by (rewrite length_drop; lia).
  destruct (append_spec s1 _ (drop (Z.to_nat (line_end p)) p) S1 W1 ltac:(lia)) as (s2 & H2 & S2 & _). cbv zeta in *.
  rewrite Hw1, Hl, ?Z.add_0_l in *. rewrite H2. cbn [mbind option_bind]. by eexists.
Qed.

Lemma put_bytes_spec s a p : holds s a -> wr = true -> exists s', put_bytes s p = Some (0, s') /\ holds s' (a_write appends p a).
Proof.
  intros S Hwr. unfold put_bytes. destruct (begin_write_spec s a S Hwr) as (s1 & -> & S1 & W1). cbn [Z.eqb negb].
  destruct (f_bmode (st_f s1)).
  1,2: destruct (put_buffered_spec s1 a p S1 W1) as (s2 & -> & S2 & W2 & P2); cbn [mbind option_bind Z.eqb negb].
  - by exists s2.
  - by apply (put_lines_spec s2 (a_write appends p a) p (pending (st_f s1))).
  - destruct (flush_pending_spec s1 a S1) as (w2 & -> & S2). cbn [mbind option_bind Z.eqb negb].
    set (s2 := mkSt _ _ _) in *. destruct (write_direct_spec s2 a p S2 W1 eq_refl) as (w3 & -> & S3). by eexists.
Qed.

Lemma wrong_direction_spec s a : holds s a -> exists s', wrong_direction s = (-1, s') /\ holds s' (a_flags (af_eof a) true a) /\ st_errno s' = EBADF.
Proof. intros S. eexists. split; [reflexivity|]. split; [constructor; apply S || done|done]. Qed.

(** *** Positioning and the others *)

Lemma ftell_spec s a : holds s a -> af_told a = true -> exists s', ftell s = (Z.of_nat (af_pos a), s') /\ holds s' a.
Proof.
  destruct s as [f e w]. cbn [st_f st_w]. intros S Ht. unfold ftell. cbn [st_f st_w]. rewrite (h_fd _ _ _ S).
  destruct (reg_lseek w 0 1 ltac:(lia)) as (w' & -> & Hd & Ho); [unfold seek_target; cbn [Z.eqb Pos.eqb]; lia|]. unfold seek_target in *. cbn [Z.eqb Pos.eqb] in *.
  replace (_ + 0 <? 0) with false in * by lia. replace (_ + 0 <? 0) with false by lia. unfold with_w. cbn [st_f st_w st_errno].
  rewrite (h_fresh _ _ _ S). eexists.
  split. { f_equal. rewrite (h_pos _ _ _ S). pose proof (h_told _ _ _ S Ht). pose proof (h_dir _ _ _ S). pose proof (h_bounds _ _ _ S). destruct (_ =? 0) eqn:?; lia. }
  cbn [st_f st_w].
  replace (Z.to_nat (Z.of_nat (offset w) + 0)) with (offset w) in Ho by lia.
  constructor; unfold out_at; rewrite ?Hd, ?Ho; apply S.
Qed.

(** A stream with nothing pending, moved to a new offset. *)
Lemma stands_at f w a w' n eof : stands f w a -> f_wpos f = 0 -> data w' = data w -> offset w' = n -> eof = false \/ eof = af_eof a ->
  stands (set_flags (fun l => flag_eof eof (flag_fresh false l)) (set_window 0 0 f)) w' (mkAfile (af_data a) n eof (af_err a) true).
Proof.
  intros S Hw Hd Ho He. pose proof (h_bounds _ _ _ S).
  constructor; cbn [set_flags set_window f_fd f_flags f_buf f_bufsize f_rpos f_rend f_wpos F_READ F_WRITE F_EOF F_ERR F_FRESH flag_eof flag_fresh
    af_data af_pos af_eof af_err af_told]; rewrite ?Hd; try apply S; try done; try lia.
  - by rewrite window_nil.
  - rewrite Hw, Z.eqb_refl. lia.
  - rewrite (data_settled _ _ _ S Hw). by rewrite pending_nil.
Qed.

Lemma fseek_cases s a off whence : holds s a -> 0 <= whence <= 2 ->
  let t := seek_target (af_data a) (af_pos a) off whence in t < 2 ^ 63 ->
  exists s', fseek off whence s = Some (if t <? 0 then -1 else 0, s') /\
    (t < 0 -> st_errno s' = EINVAL /\ holds s' (a_skip (length (window (st_f s))) a)) /\
    (0 <= t -> holds s' (mkAfile (af_data a) (Z.to_nat t) false (af_err a) true)).
Proof.
  intros S Hwh t Hmax. unfold fseek. replace (_ || _) with false by lia. pose proof (length_window _ _ _ S) as Hlw.
  destruct (flush_pending_spec s a S) as (w1 & -> & S1). cbn [mbind option_bind Z.eqb negb].
  set (s1 := mkSt _ _ _) in *. assert (Hw : f_wpos (st_f s1) = 0) by done.
  change (len (window (st_f s)) = f_rend (st_f s1) - f_rpos (st_f s1)) in Hlw. clearbody s1. clear S.
  destruct s1 as [f e w]. unfold upd. cbn [st_f st_w st_errno] in *. rewrite (h_fresh _ _ _ S1), andb_true_r, (h_fd _ _ _ S1).
  set (adj := if whence =? 1 then off - (f_rend f - f_rpos f) else off). pose proof (pos_settled _ _ _ S1 Hw) as Hp.
  pose proof (data_settled _ _ _ S1 Hw) as Hda. pose proof (h_bounds _ _ _ S1) as Hbo. pose proof (h_ahead _ _ _ S1) as Hah.
  assert (Ha : seek_target (data w) (offset w) adj whence = t)
    by (subst t; unfold seek_target; subst adj; rewrite Hda; destruct (whence =? 0) eqn:E0, (whence =? 1) eqn:E1; lia).
  destruct (reg_lseek w adj whence Hwh) as (w' & -> & Hd & Ho); [lia|]. rewrite Ha in *. clearbody t. unfold with_w, with_errno. cbn [st_f st_w st_errno].
  destruct (t <? 0) eqn:Et.
  - change (- EINVAL <? 0) with true. eexists. split; [reflexivity|]. split; [|lia]. intros _. split; [done|]. cbn [st_f st_w].
    pose proof (stands_at f w a w' (af_pos a + length (window (st_f s))) (af_eof a) S1 Hw Hd ltac:(lia) (or_intror eq_refl)) as S2.
    apply stands_settled. constructor; apply S2 || apply S1.
  - rewrite Et. eexists. split; [reflexivity|]. split; [lia|]. intros _. cbn [st_f st_w].
    apply (stands_at f w a w' (Z.to_nat t) false S1 Hw Hd Ho). by left.
Qed.

Lemma fseek_spec s a off whence : holds s a -> 0 <= whence <= 2 -> 0 <= seek_target (af_data a) (af_pos a) off whence < 2 ^ 63 ->
  exists s', fseek off whence s = Some (0, s') /\
    holds s' (mkAfile (af_data a) (Z.to_nat (seek_target (af_data a) (af_pos a) off whence)) false (af_err a) true).
Proof.
  intros S Hwh Ht. destruct (fseek_cases s a off whence S Hwh ltac:(lia)) as (s' & Hs & _ & S'). replace (_ <? 0) with false in Hs by lia.
  exists s'. split; [done|]. apply S'. lia.
Qed.

Lemma fflush_spec s a : holds s a -> exists s', fflush s = Some (0, s') /\ holds s' (a_settle a) /\ data (st_w s') = af_data a.
Proof.
  intros S. unfold fflush. destruct (flush_pending_settles s a S) as (w1 & -> & S1). cbn [mbind option_bind Z.eqb negb].
  set (s1 := mkSt _ _ _) in *. assert (Hw : f_wpos (st_f s1) = 0) by done. clearbody s1. destruct (_ && _).
  - destruct (drop_readahead_spec s1 _ S1 Hw) as (w2 & -> & S2). cbn [Z.eqb]. eexists. split; [done|]. split; [exact S2|].
    symmetry. apply (data_settled _ _ _ S2 Hw).
  - exists s1. split; [done|]. split; [done|]. symmetry. apply (data_settled _ _ _ S1 Hw).
Qed.

(** A buffer of the caller's, of the size announced, is used when there is none yet. *)
Lemma setvbuf_spec s a buf mode size : holds s a -> 0 <= mode <= 2 -> (forall b, buf = Some b -> len b = size) ->
  exists s', setvbuf s buf mode size = Some (0, s') /\ holds s' (a_settle a).
Proof.
  intros S Hm Hlen. unfold setvbuf. replace (_ && _) with false by lia. destruct (flush_pending_settles s a S) as (w1 & -> & S1).
  cbn [mbind option_bind Z.eqb negb]. set (m := if mode =? 2 then _ else _). apply (stands_mode _ _ _ m) in S1. unfold upd. cbn [st_f st_w st_errno].
  set (f1 := set_mode m _) in *. cbn [st_w] in S1. clearbody f1. destruct buf as [b|]; [|by eexists]. destruct (f_buf f1) as [b1|] eqn:Eb; [by eexists|]. destruct (2 <=? size) eqn:E2; [|by eexists].
  eexists. split; [reflexivity|]. cbn [st_f st_w]. pose proof (h_buf _ _ _ S1) as Hb. rewrite Eb in Hb. pose proof (h_bounds _ _ _ S1). pose proof (Hlen b eq_refl).
  assert (Hz : f_rpos f1 = 0 /\ f_rend f1 = 0 /\ f_wpos f1 = 0) by lia. destruct Hz as (Hz1 & Hz2 & Hz3).
  constructor; cbn [set_flags set_buf f_fd f_flags f_buf f_bufsize f_rpos f_rend f_wpos]; try apply S1; try lia.
  - rewrite Hz1, Hz2. rewrite window_nil; [done|]. cbn. lia.
  - rewrite (h_data _ _ _ S1), !pending_nil by done. done.
Qed.

Lemma close_stream_spec s a : holds s a -> exists e w', close_stream s = Some (0, e, w') /\ data w' = af_data a.
Proof.
  intros S. unfold close_stream. destruct (flush_pending_spec s a S) as (w1 & -> & S1). cbn [mbind option_bind Z.eqb negb].
  set (s1 := mkSt _ _ _) in *. assert (Hw : f_wpos (st_f s1) = 0) by done. clearbody s1.
  assert (Hs2 : exists r s2, (if f_rpos (st_f s1) <? f_rend (st_f s1) then drop_readahead s1 else (0, s1)) = (r, s2) /\ holds s2 a /\ f_wpos (st_f s2) = 0).
  { destruct (_ <? _); [|by exists 0, s1]. destruct (drop_readahead_spec s1 a S1 Hw) as (w2 & -> & S2). do 2 eexists. split; [reflexivity|]. by split. }
  destruct Hs2 as (r & s2 & -> & S2 & Hw2). rewrite (h_fd _ _ _ S2). destruct (reg_close (st_w s2)) as (r' & w' & -> & Hr & Hd).
  replace (r' <? 0) with false by lia. cbn [andb]. do 2 eexists. split; [reflexivity|]. by rewrite Hd, (data_settled _ _ _ S2 Hw2).
Qed.
End Refine.
