(* ===== verification/StdioThms.v ===== *)
(** * Programs over a stream

    A sequence of calls on a stream, run on the model of stdio_file.c, gives
    the results that the same calls give on the plain bytes of the file, and
    closing the stream leaves those bytes in the kernel: buffering, read-ahead,
    line mode, short transfers and interrupted calls are not observable.  This
    holds of descriptors that append too, whose writes go to the end of the file
    wherever the stream was moved.  [spec_call] is [None] for the calls of which
    it says nothing; ungetc is not among the calls. *)

From S2P Require Import Prelude Mem Digits Format FormatSim FormatTypes FormatThms Stdio StdioSpec.

(** ** Calls and their results *)

Inductive call :=
  | Cgetc
  | Cread (size nmemb : Z)
  | Cgets (n : Z)
  | Cputc (c : Z)
  | Cputs (p : list Z)
  | Cwrite (data : list Z) (size nmemb : Z)
  | Cseek (off whence : Z)
  | Crewind
  | Ctell
  | Cflush
  | Cgetdelim (fuel : nat) (l : linebuf) (delim : Z)
  | Csetvbuf (buf : option (list Z)) (mode size : Z)
  | Ceof
  | Cerror
  | Cclear.

Inductive result := Rint (r : Z) | Rdata (n : Z) (bs : list Z) | Rline (l : option (list Z)) | Rvoid.

(** The line a call of getdelim leaves in the caller's array, its NUL included. *)
Definition stored_line (r : Z) (l : option linebuf) : list Z :=
  match l ≫= lb_ptr with Some p => take (Z.to_nat (r + 1)) p | None => [] end.

Definition run_call {W} `{Kernel W} (c : call) (s : st W) : option (result * st W) :=
  match c with
  | Cgetc => '(r, s) ← fgetc s; Some (Rint r, s)
  | Cread size nmemb => '(n, bs, s) ← fread s size nmemb; Some (Rdata n bs, s)
  | Cgets n => '(l, s) ← fgets s n; Some (Rline l, s)
  | Cputc c => '(r, s) ← fputc c s; Some (Rint r, s)
  | Cputs p => '(r, s) ← fputs p s; Some (Rint r, s)
  | Cwrite data size nmemb => '(r, s) ← fwrite data size nmemb s; Some (Rint r, s)
  | Cseek off whence => '(r, s) ← fseek off whence s; Some (Rint r, s)
  | Crewind => s ← rewind s; Some (Rvoid, s)
  | Ctell => let '(r, s) := ftell s in Some (Rint r, s)
  | Cflush => '(r, s) ← fflush s; Some (Rint r, s)
  | Cgetdelim fuel l delim => '(r, l, s) ← getdelim fuel (Some l) delim s; Some (Rdata r (stored_line r l), s)
  | Csetvbuf buf mode size => '(r, s) ← setvbuf s buf mode size; Some (Rint r, s)
  | Ceof => Some (Rint (feof s), s)
  | Cerror => Some (Rint (ferror s), s)
  | Cclear => Some (Rvoid, clearerr s)
  end.

(** What the calls mean on the bytes of the file; [None] where nothing is
    promised: a seek before the start or past the largest offset, an array of
    another size than announced, a line longer than the fuel or than 2^62 bytes,
    and, on a descriptor that appends, the position while bytes that were put
    away from the end wait in the buffer. *)
Definition denied (a : afile) : afile := a_flags (af_eof a) true a.

Definition spec_seek (off whence : Z) (a : afile) : option (Z * afile) :=
  if (whence <? 0) || (2 <? whence) then Some (-1, a)
  else let t := seek_target (af_data a) (af_pos a) off whence in
    if (t <? 0) || (2 ^ 63 <=? t) then None else Some (0, mkAfile (af_data a) (Z.to_nat t) false (af_err a) true).

Definition line_fits (l : linebuf) : bool := match lb_ptr l with Some p => len p =? lb_n l | None => lb_n l =? 0 end.

Definition spec_call (appends rd wr : bool) (c : call) (a : afile) : option (result * afile) :=
  match c with
  | Cgetc =>
      if negb rd then Some (Rint (-1), denied a)
      else let '(l, a) := a_read 1 (a_settle a) in Some (Rint (match l with [] => -1 | c :: _ => c end), a)
  | Cread size nmemb =>
      if (size <? 0) || (nmemb <? 0) then None
      else if (size * nmemb =? 0) || (SIZE_MAX <? size * nmemb) then Some (Rdata 0 [], a)
      else if negb rd then Some (Rdata 0 [], denied a)
      else let '(l, a) := a_read (size * nmemb) (a_settle a) in Some (Rdata (len l / size) l, a)
  | Cgets n =>
      if n <=? 0 then Some (Rline None, a)
      else if n =? 1 then Some (Rline (Some [0]), a)
      else if negb rd then Some (Rline None, denied a)
      else let '(l, a) := a_line 10 (Z.to_nat (n - 1)) (a_settle a) in Some (Rline (match l with [] => None | _ => Some (l ++ [0]) end), a)
  | Cputc c => Some (if wr then (Rint (u8 c), a_write appends [u8 c] a) else (Rint (-1), denied a))
  | Cputs p => Some (if len p =? 0 then (Rint 1, a) else if wr then (Rint 1, a_write appends p a) else (Rint (-1), denied a))
  | Cwrite data size nmemb =>
      if (size <? 0) || (nmemb <? 0) || negb (len data =? size * nmemb) then None
      else Some (if (size * nmemb =? 0) || (SIZE_MAX <? size * nmemb) then (Rint 0, a)
                 else if wr then (Rint nmemb, a_write appends data a) else (Rint 0, denied a))
  | Cseek off whence => '(r, a) ← spec_seek off whence a; Some (Rint r, a)
  | Crewind => Some (Rvoid, mkAfile (af_data a) 0 false false true)
  | Ctell => if af_told a then Some (Rint (Z.of_nat (af_pos a)), a) else None
  | Cflush => Some (Rint 0, a_settle a)
  | Cgetdelim fuel l delim =>
      if negb (line_fits l) || negb (length (af_data a) <? fuel)%nat || (2 ^ 62 <? len (af_data a) + 2) then None
      else if negb rd then Some (Rdata (-1) [], denied a)
      else let '(l, a) := a_line (u8 delim) fuel (a_settle a) in Some (match l with [] => Rdata (-1) [] | _ => Rdata (len l) (l ++ [0]) end, a)
  | Csetvbuf buf mode size =>
      if negb ((0 <=? mode) && (mode <=? 2)) then Some (Rint (-1), a)
      else if match buf with Some b => negb (len b =? size) | None => false end then None
      else Some (Rint 0, a_settle a)
  | Ceof => Some (Rint (Z.b2z (af_eof a)), a)
  | Cerror => Some (Rint (Z.b2z (af_err a)), a)
  | Cclear => Some (Rvoid, a_flags false false a)
  end.

(** A program: the results in order and the state at the end. *)
Fixpoint run_calls {S : Type} (step : call -> S -> option (result * S)) (cs : list call) (s : S) : option (list result * S) :=
  match cs with
  | [] => Some ([], s)
  | c :: cs => '(r, s) ← step c s; '(rs, s) ← run_calls step cs s; Some (r :: rs, s)
  end.

Section Refinement.
Context {W : Type} `{K : Kernel W} (fd : Z) {appends : bool} `{R : !RegularFile W fd appends} (rd wr : bool).
Abbreviation spec := (spec_call appends rd wr).

Abbreviation holds s a := (stands fd rd wr (st_f s) (st_w s) a).

(** A call on a stream that does not allow it. *)
Lemma begin_read_denied s a : holds s a -> rd = false -> exists s', begin_read s = Some (-1, s') /\ holds s' (denied a).
Proof.
  intros S Hr. unfold begin_read. rewrite (h_read _ _ _ _ _ _ S). replace (negb rd) with true by (by rewrite Hr).
  destruct (wrong_direction_spec fd rd wr s a S) as (s' & -> & S' & _). by exists s'.
Qed.

Lemma put_bytes_denied s a p : holds s a -> wr = false -> exists s', put_bytes s p = Some (-1, s') /\ holds s' (denied a).
Proof.
  intros S Hr. unfold put_bytes, begin_write. rewrite (h_write _ _ _ _ _ _ S). replace (negb wr) with true by (by rewrite Hr).
  destruct (wrong_direction_spec fd rd wr s a S) as (s' & -> & S' & _). by exists s'.
Qed.

Lemma fseek_call s a off whence r a' : holds s a -> spec_seek off whence a = Some (r, a') ->
  exists s', fseek off whence s = Some (r, s') /\ holds s' a'.
Proof.
  intros S. unfold spec_seek. cbv zeta. destruct (_ || _) eqn:E.
  - intros [= <- <-]. unfold fseek. rewrite E. by eexists.
  - destruct ((seek_target _ _ _ _ <? 0) || _) eqn:Et; [done|]. intros [= <- <-]. apply fseek_spec; [done|lia|lia].
Qed.

Lemma read_call s a size nmemb r a' : holds s a -> spec (Cread size nmemb) a = Some (r, a') ->
  exists s', run_call (Cread size nmemb) s = Some (r, s') /\ holds s' a'.
Proof.
  intros S. cbn [spec_call run_call]. destruct (_ || _) eqn:Eneg; [done|].
  destruct ((size * nmemb =? 0) || _) eqn:E0.
  { intros [= <- <-]. exists s. split; [|done]. unfold fread. destruct ((size =? 0) || _) eqn:Ez; [done|].
    assert (SIZE_MAX / size < nmemb) by (apply Z.div_lt_upper_bound; lia). by replace (_ <? nmemb) with true by lia. }
  assert (size * nmemb <> 0) by lia. assert (0 < size /\ 0 < nmemb) as [Hs Hn] by nia. destruct (negb rd) eqn:Erd.
  2: destruct (fread_spec fd rd wr s a size nmemb S ltac:(by destruct rd) Hs Hn ltac:(lia)) as (s' & Hf); destruct (a_read _ _) as [l a1];
    destruct Hf as [-> S']; intros [= <- <-]; by exists s'.
  intros [= <- <-]. unfold fread. replace (_ || _) with false by lia.
  assert (nmemb <= SIZE_MAX / size) by (apply Z.div_le_lower_bound; lia). replace (SIZE_MAX / size <? nmemb) with false by lia.
  destruct (begin_read_denied s a S ltac:(by destruct rd)) as (s' & -> & S'). by exists s'.
Qed.

Lemma gets_call s a n r a' : holds s a -> spec (Cgets n) a = Some (r, a') ->
  exists s', run_call (Cgets n) s = Some (r, s') /\ holds s' a'.
Proof.
  intros S. cbn [spec_call run_call]. unfold fgets. destruct (n <=? 0) eqn:E0; [intros [= <- <-]; by exists s|].
  destruct (n =? 1) eqn:E1; [intros [= <- <-]; by exists s|]. destruct (negb rd) eqn:Erd.
  - intros [= <- <-]. destruct (begin_read_denied s a S ltac:(by destruct rd)) as (s' & -> & S'). by exists s'.
  - destruct (fgets_spec fd rd wr s a n S ltac:(by destruct rd) ltac:(lia)) as (s' & Hf). unfold fgets in Hf. rewrite E0, E1 in Hf.
    destruct (a_line _ _ _) as [l a1]. destruct Hf as [-> S']. intros [= <- <-]. by exists s'.
Qed.

(** Output calls: one call of [put_bytes], whose result decides theirs. *)
Lemma put_call s a p : holds s a ->
  exists s', put_bytes s p = Some (if wr then 0 else -1, s') /\ holds s' (if wr then a_write appends p a else denied a).
Proof. intros S. destruct wr eqn:Ew; [apply put_bytes_spec|rewrite <- Ew in *; apply put_bytes_denied]; done. Qed.

Lemma write_call s a data size nmemb r a' : holds s a -> spec (Cwrite data size nmemb) a = Some (r, a') ->
  exists s', run_call (Cwrite data size nmemb) s = Some (r, s') /\ holds s' a'.
Proof.
  intros S. cbn [spec_call run_call]. unfold fwrite. destruct (_ || negb _) eqn:Eneg; [done|]. intros Hr.
  destruct ((size * nmemb =? 0) || _) eqn:E0.
  { injection Hr as <- <-. exists s. split; [|done]. destruct ((size =? 0) || _) eqn:Ez; [done|].
    assert (SIZE_MAX / size < nmemb) by (apply Z.div_lt_upper_bound; lia). by replace (_ <? nmemb) with true by lia. }
  assert (size * nmemb <> 0) by lia. assert (0 < size /\ 0 < nmemb) as [Hs Hn] by nia. replace ((size =? 0) || _) with false by lia.
  assert (nmemb <= SIZE_MAX / size) by (apply Z.div_le_lower_bound; lia). replace (SIZE_MAX / size <? nmemb) with false by lia.
  destruct (put_call s a data S) as (s' & -> & S'). exists s'. destruct wr; by injection Hr as <- <-.
Qed.

Lemma stored_prefix p ln : ln ++ [0] `prefix_of` p -> take (Z.to_nat (len ln + 1)) p = ln ++ [0].
Proof. intros [r ->]. replace (Z.to_nat (len ln + 1)) with (length (ln ++ [0])) by (rewrite length_app; cbn; lia). apply take_app_length. Qed.

Lemma delim_call s a fuel l delim r a' : holds s a -> spec (Cgetdelim fuel l delim) a = Some (r, a') ->
  exists s', run_call (Cgetdelim fuel l delim) s = Some (r, s') /\ holds s' a'.
Proof.
  intros S. cbn [spec_call run_call]. destruct (_ || _) eqn:E; [done|]. apply orb_false_iff in E as [[Efit Efuel]%orb_false_iff Emax].
  destruct (negb rd) eqn:Erd.
  - intros [= <- <-]. unfold getdelim. destruct (begin_read_denied s a S ltac:(by destruct rd)) as (s' & -> & S'). exists s'. split; [|done].
    cbn. unfold stored_line. cbn. by destruct (lb_ptr l).
  - assert (Hl : line_holds l []).
    { unfold line_holds. unfold line_fits in Efit. destruct (lb_ptr l); [|split; [lia|done]]. split_and!; [lia|apply prefix_nil|done]. }
    destruct (getdelim_spec fd rd wr fuel l delim s a S ltac:(by destruct rd) Hl) as (l' & s' & Hf); [apply Nat.ltb_lt; by destruct (_ <? _)%nat|lia|].
    destruct (a_line _ _ _) as [ln a1]. destruct Hf as (-> & S' & Hp). cbn [mbind option_bind]. intros [= <- <-]. exists s'. split; [|done].
    unfold stored_line. cbn [mbind option_bind]. destruct ln as [|c ln]; [by destruct (lb_ptr l')|].
    destruct Hp as (p & -> & Hp); [done|]. cbn [line_result]. by rewrite (stored_prefix p (c :: ln) Hp).
Qed.

Lemma setvbuf_call s a buf mode size r a' : holds s a -> spec (Csetvbuf buf mode size) a = Some (r, a') ->
  exists s', run_call (Csetvbuf buf mode size) s = Some (r, s') /\ holds s' a'.
Proof.
  intros S. cbn [spec_call run_call]. destruct (negb _) eqn:E.
  { intros [= <- <-]. exists s. split; [|done]. unfold setvbuf. by replace (_ && _) with true by lia. }
  destruct (match buf with Some _ => _ | None => _ end) eqn:Eb; [done|]. intros [= <- <-].
  destruct (setvbuf_spec fd rd wr s a buf mode size S ltac:(lia)) as (s' & -> & S'); [|by exists s']. intros b ->. lia.
Qed.

Lemma call_refines c s a r a' : holds s a -> spec c a = Some (r, a') -> exists s', run_call c s = Some (r, s') /\ holds s' a'.
Proof.
  intros S. destruct c; [|by apply read_call|by apply gets_call| | |by apply write_call| | | | |by apply delim_call|by apply setvbuf_call|..]; cbn [spec_call run_call]; cycle 3.
  - destruct (spec_seek off whence a) as [[r0 a0]|] eqn:E; [|done]. intros [= <- <-].
    destruct (fseek_call s a off whence r0 a0 S E) as (s' & -> & S'). by exists s'.
  - intros [= <- <-]. unfold rewind. destruct (fseek_spec fd rd wr s a 0 0 S ltac:(lia) ltac:(done)) as (s' & -> & S'). cbn.
    eexists. split; [done|]. constructor; apply S' || done.
  - destruct (af_told a) eqn:Et; [|done]. intros [= <- <-]. destruct (ftell_spec fd rd wr s a S Et) as (s' & -> & S'). by exists s'.
  - intros [= <- <-]. destruct (fflush_spec fd rd wr s a S) as (s' & -> & S' & _). by exists s'.
  - intros [= <- <-]. exists s. split; [|done]. unfold feof. by rewrite (h_eof _ _ _ _ _ _ S).
  - intros [= <- <-]. exists s. split; [|done]. unfold ferror. by rewrite (h_err _ _ _ _ _ _ S).
  - intros [= <- <-]. eexists. split; [done|]. constructor; apply S || done.
  - destruct (negb rd) eqn:Erd.
    + intros [= <- <-]. unfold fgetc. destruct (begin_read_denied s a S ltac:(by destruct rd)) as (s' & -> & S'). by exists s'.
    + destruct (fgetc_spec fd rd wr s a S ltac:(by destruct rd)) as (c & s' & -> & Hf). destruct (a_read 1 _) as [l a1].
      destruct Hf as [S' ->]. intros [= <- <-]. by exists s'.
  - intros Hr. unfold fputc. destruct (put_call s a [u8 c] S) as (s' & -> & S'). exists s'. destruct wr; by injection Hr as <- <-.
  - intros Hr. unfold fputs. destruct (len p =? 0); [injection Hr as <- <-; by exists s|].
    destruct (put_call s a p S) as (s' & -> & S'). exists s'. destruct wr; by injection Hr as <- <-.
Qed.

Lemma calls_refine cs : forall s a rs a', holds s a -> run_calls spec cs a = Some (rs, a') ->
  exists s', run_calls run_call cs s = Some (rs, s') /\ holds s' a'.
Proof.
  induction cs as [|c cs IH]; intros s a rs a' S; cbn [run_calls].
  { intros [= <- <-]. by exists s. }
  destruct (spec c a) as [[r a1]|] eqn:Ec; [|done]. cbn [mbind option_bind].
  destruct (run_calls _ cs a1) as [[rs1 a2]|] eqn:Ecs; [|done]. intros [= <- <-].
  destruct (call_refines c s a r a1 S Ec) as (s1 & -> & S1). cbn [mbind option_bind].
  destruct (IH s1 a1 rs1 a2 S1 Ecs) as (s2 & -> & S2). by exists s2.
Qed.

(** A stream as it is created stands for its file. *)
Lemma parse_mode_flags mode o l : parse_mode mode = Some (o, l) -> F_EOF l = false /\ F_ERR l = false /\ F_FRESH l = false.
Proof.
  unfold parse_mode. destruct mode as [m|]; [|done]. cbn [mbind option_bind]. cbv zeta.
  destruct (if peek m =? chr "r" then _ else _) as [[[[b r] w] ap]|]; [|done]. cbn [mbind option_bind].
  destruct (mode_options (tail m) false false) as [pl ex]. by intros [= <- <-].
Qed.

Lemma fresh_stands l w : F_READ l = rd -> F_WRITE l = wr -> F_EOF l = false -> F_ERR l = false -> F_FRESH l = false ->
  stands fd rd wr (fresh_stream fd l) w (mkAfile (data w) (offset w) false false true).
Proof. intros. constructor; cbn; done || lia. Qed.
End Refinement.

(** ** A file in memory

    A kernel with one file: transfers move at most [ram_chunk] bytes and the
    next [ram_signals] of them are interrupted.  Descriptor 4 appends. *)

Record ram := mkRam { ram_data : list Z; ram_pos : nat; ram_chunk : nat; ram_signals : nat }.

Definition ram_read (w : ram) (n : Z) : Z * list Z * ram :=
  match ram_signals w with
  | S k => (- EINTR, [], mkRam (ram_data w) (ram_pos w) (ram_chunk w) k)
  | 0%nat =>
      let bs := take (Nat.min (S (ram_chunk w)) (Z.to_nat n)) (drop (ram_pos w) (ram_data w)) in
      (len bs, bs, mkRam (ram_data w) (ram_pos w + length bs) (ram_chunk w) 0)
  end.

Definition ram_appends (fd : Z) : bool := fd =? 4.

Definition ram_write (w : ram) (fd : Z) (bs : list Z) : Z * ram :=
  match ram_signals w with
  | S k => (- EINTR, mkRam (ram_data w) (ram_pos w) (ram_chunk w) k)
  | 0%nat =>
      let bs := take (S (ram_chunk w)) bs in
      let at_ := write_at (ram_appends fd) (ram_data w) (ram_pos w) in
      (len bs, mkRam (overwrite (ram_data w) at_ bs) (at_ + length bs) (ram_chunk w) 0)
  end.

Definition ram_lseek (w : ram) (off whence : Z) : Z * ram :=
  let t := seek_target (ram_data w) (ram_pos w) off whence in
  if t <? 0 then (- EINVAL, w) else (t, mkRam (ram_data w) (Z.to_nat t) (ram_chunk w) (ram_signals w)).

#[export] Instance ram_kernel : Kernel ram := {
  io_open w _ _ _ := (3, w);
  io_read w _ n := ram_read w n;
  io_write w fd bs := ram_write w fd bs;
  io_lseek w _ off whence := ram_lseek w off whence;
  io_close w _ := (0, w);
  io_getfl w _ := (2, w);
  io_dup2 w _ fd := (fd, w);
  io_unlink w _ := (0, w);
  io_pid _ := 1;
  mem_alloc w n := (Some (replicate (Z.to_nat n) 0), w);
  obj_alloc w := (Some 4096, w);
  io_interrupts := ram_signals }.

Lemma take_length_take {A} n (l : list A) : take (length (take n l)) l = take n l.
Proof. rewrite length_take. destruct (decide (n <= length l)%nat); [f_equal; lia|rewrite !take_ge by lia; done]. Qed.

#[export] Program Instance ram_file fd : RegularFile ram fd (ram_appends fd) := { data := ram_data; offset := ram_pos }.
Next Obligation.
  intros fd [d p c [|k]] n Hn; cbn [io_read ram_kernel ram_read ram_signals ram_data ram_pos ram_chunk]; do 3 eexists; (split; [reflexivity|]); (split; [done|]).
  - right. cbn [ram_data ram_pos ram_signals]. pose proof (length_take (drop p d) (Nat.min (S c) (Z.to_nat n))) as Hl.
    rewrite length_drop in Hl. rewrite Nat2Z.id, take_length_take. split_and!; try done; lia.
  - left. cbn. split_and!; [done|done|lia].
Qed.
Next Obligation.
  intros fd [d p c [|k]] bs Hb; cbn; do 2 eexists; (split; [reflexivity|]).
  - right. cbn [ram_data ram_pos ram_signals]. pose proof (length_take bs (S c)) as Hl. destruct bs as [|b bs]; [done|].
    assert (0 < length (take (S c) (b :: bs)))%nat by (cbn; lia). rewrite Nat2Z.id, take_length_take. split_and!; try done; lia.
  - left. cbn. split_and!; [done..|lia].
Qed.
Next Obligation. intros fd w off wh Hw Hmax. cbn. unfold ram_lseek. destruct (_ <? 0); by eexists. Qed.
Next Obligation. intros fd w n Hn. cbn. do 2 eexists. split; [reflexivity|]. rewrite length_replicate. split_and!; [lia|done..]. Qed.
Next Obligation. intros fd w. cbn. by do 2 eexists. Qed.

(** C11. A program of reads, writes, seeks, flushes, buffering and flag calls on
    a stream opened with a valid mode on a regular file gets the results of the
    same calls on the bytes of the file, and closing the stream succeeds and
    leaves exactly those bytes in the file.  Writes through a descriptor opened
    with O_APPEND go to the end of the file.  Programs for which [spec_call]
    promises nothing are left out: those that seek before the start or past the
    largest offset, pass an array of another size than announced, ask for the
    position of an appending stream while bytes put away from the end are
    buffered, or call ungetc. *)
Theorem stream_refines_file {W} `{K : Kernel W} (fd : Z) {appends : bool} `{R : !RegularFile W fd appends} mode o l e w cs rs a' :
  parse_mode mode = Some (o, l) ->
  run_calls (spec_call appends (F_READ l) (F_WRITE l)) cs (mkAfile (data w) (offset w) false false true) = Some (rs, a') ->
  exists s', run_calls run_call cs (mkSt (fresh_stream fd l) e w) = Some (rs, s') /\
    exists e' w', close_stream s' = Some (0, e', w') /\ data w' = af_data a'.
Proof.
  intros Hm Hrun. apply parse_mode_flags in Hm as (He & Hr & Hf).
  pose proof (fresh_stands fd (F_READ l) (F_WRITE l) l w eq_refl eq_refl He Hr Hf) as S0.
  destruct (calls_refine fd _ _ cs (mkSt (fresh_stream fd l) e w) _ rs a' S0 Hrun) as (s' & Hs & S').
  exists s'. split; [done|]. by apply (close_stream_spec fd (F_READ l) (F_WRITE l)).
Qed.

Lemma stream_refines_file_witness :
  (exists s',
    run_calls run_call
      [Csetvbuf (Some [0; 0; 0]) 0 3; Cgets 80; Cgetc; Cputc 33; Csetvbuf None 1 0; Cputs (str "xy"); Cseek (-2) 2; Cread 2 3; Ceof; Crewind; Ctell; Cwrite (str "J") 1 1]
      (mkSt (fresh_stream 3 (mkFlags true true false false false false false false)) 0 (mkRam (str "hello" ++ 10 :: str "world") 0 1 3)) =
      Some ([Rint 0; Rline (Some (str "hello" ++ [10; 0])); Rint (chr "w"); Rint 33; Rint 0; Rint 1; Rint 0; Rdata 1 (str "yd"); Rint 1; Rvoid; Rint 0; Rint 1], s') /\
    exists e' w', close_stream s' = Some (0, e', w') /\ ram_data w' = str "Jello" ++ 10 :: str "w!xyd") /\
  (exists s',
    run_calls run_call [Ctell; Cseek 2 0; Cgetdelim 20 (mkLine None 0) (chr "5"); Cseek 2 0; Cputs (str "AB"); Cflush; Ctell]
      (mkSt (fresh_stream 4 (mkFlags true true true false false false false false)) 0 (mkRam (str "0123456789") 10 1 0)) =
      Some ([Rint 10; Rint 0; Rdata 4 (str "2345" ++ [0]); Rint 0; Rint 1; Rint 0; Rint 12], s') /\
    exists e' w', close_stream s' = Some (0, e', w') /\ ram_data w' = str "0123456789AB").
Proof.
  split.
  - apply (stream_refines_file (R := ram_file 3) 3 (Some (str "r+")) 2 _ _ _ _ _ (mkAfile (str "Jello" ++ 10 :: str "w!xyd") 1 false false true)); by vm_compute.
  - apply (stream_refines_file (R := ram_file 4) 4 (Some (str "a+")) 0x442 _ _ _ _ _ (mkAfile (str "0123456789AB") 12 false false true)); by vm_compute.
Defined.

(** C12. fprintf on a stream that allows writing, with arguments of the types
    the format asks for and on a file whose writes do not fail, puts the
    formatted text at the current position of the file (at its end when the
    descriptor appends) and returns its length; a formatting error leaves a
    prefix of it. *)
Theorem fprintf_writes_text {W} `{K : Kernel W} (fd : Z) {appends : bool} `{R : !RegularFile W fd appends} rd s a fmt ap :
  stands fd rd true (st_f s) (st_w s) a -> accepts ap (wants fmt) = true ->
  exists t ws r s' out, format_text (st_errno s) fmt ap = Some (t, ws) /\ fprintf s fmt ap = Some (r, s', ws) /\
    stands fd rd true (st_f s') (st_w s') (a_write appends out a) /\ out `prefix_of` tx_out t /\
    (tx_err t = 0 -> out = tx_out t /\ r = len (tx_out t)) /\ (tx_err t <> 0 -> r = -1 /\ st_errno s' = tx_err t).
Proof.
  intros S Ha. unfold fprintf, vfprintf. rewrite (h_write _ _ _ _ _ _ S). cbn [negb].
  set (took := fun chunks ctx => exists s' : st W, ctx = Some s' /\ stands fd rd true (st_f s') (st_w s') (a_write appends (concat chunks) a)).
  destruct (vformat_sink stream_sink took (Some s) (replicate 512 0) 512 (st_errno s) fmt ap) as (t & ws & oc & chunks & Ht & -> & Hret & Htook & _ & Hpre & Hall).
  - intros cs ctx p (s' & -> & S'). unfold stream_sink. cbn [mbind option_bind].
    destruct (put_bytes_spec fd rd true s' _ p S' eq_refl) as (s2 & -> & S2). cbn [Z.eqb negb]. eexists. split; [done|]. exists s2. split; [done|].
    by rewrite concat_app, a_write_app, concat_cons, concat_nil, app_nil_r.
  - exists s. split; [done|]. by rewrite a_write_nil.
  - rewrite length_replicate. lia.
  - done.
  - destruct Htook as (s' & Hctx & S'). cbn [mbind option_bind]. rewrite Hctx. cbn [mbind option_bind].
    destruct Hret as (Hr & He & Hw). eexists t, ws, _, _, (concat chunks). rewrite Hr, He, Hw. split; [done|]. split; [reflexivity|].
    split; [by destruct (_ =? -1)|]. split; [done|]. destruct (tx_err t =? 0) eqn:E.
    + split; [intros _; split; [apply Hall; lia|done]|lia].
    + split; [lia|done].
Qed.

Lemma fprintf_writes_text_witness :
  let s := mkSt (fresh_stream 3 (mkFlags true true false false false false false false)) 0 (mkRam (str "abc") 3 0 1) in
  exists t ws r s' out, format_text (st_errno s) (str "%d-%s") [AInt (-7); APtr 64 (str "ok" ++ [0])] = Some (t, ws) /\
    fprintf s (str "%d-%s") [AInt (-7); APtr 64 (str "ok" ++ [0])] = Some (r, s', ws) /\
    stands 3 true true (st_f s') (st_w s') (a_write false out (mkAfile (str "abc") 3 false false true)) /\ out `prefix_of` tx_out t /\
    (tx_err t = 0 -> out = tx_out t /\ r = len (tx_out t)) /\ (tx_err t <> 0 -> r = -1 /\ st_errno s' = tx_err t).
Proof.
  intros s. apply (fprintf_writes_text (R := ram_file 3) 3); [|by vm_compute].
  by apply (fresh_stands (R := ram_file 3) 3 true true _ (st_w s)).
Defined.

(** C40. A seek to a position before the start of the file fails with EINVAL, but
    the bytes read ahead are given up by then: the position moves forward by
    their number (not at all when the window is empty) and the next read skips
    them. *)
Theorem fseek_failure_skips {W} `{K : Kernel W} (fd : Z) {appends : bool} `{R : !RegularFile W fd appends} rd wr s a off whence :
  stands fd rd wr (st_f s) (st_w s) a -> 0 <= whence <= 2 -> seek_target (af_data a) (af_pos a) off whence < 0 ->
  exists s', fseek off whence s = Some (-1, s') /\ st_errno s' = EINVAL /\
    stands fd rd wr (st_f s') (st_w s') (a_skip (length (window (st_f s))) a).
Proof.
  intros S Hwh Ht. destruct (fseek_cases fd rd wr s a off whence S Hwh ltac:(lia)) as (s' & Hs & S' & _). replace (_ <? 0) with true in Hs by lia.
  exists s'. split; [done|]. by apply S'.
Qed.

Lemma fseek_failure_skips_witness :
  let f := mkFile 3 (mkFlags true false false false false false false false) (Some (str "hello")) 5 1 5 0 FB_FULL false false in
  exists s', fseek (-2) 1 (mkSt f 0 (mkRam (str "hello!") 5 0 0)) = Some (-1, s') /\ st_errno s' = EINVAL /\
    stands 3 true false (st_f s') (st_w s') (mkAfile (str "hello!") 5 false false true).
Proof.
  intros f. apply (fseek_failure_skips (R := ram_file 3) 3 true false (mkSt f 0 (mkRam (str "hello!") 5 0 0)) (mkAfile (str "hello!") 1 false false true)); [|lia|by vm_compute].
  constructor; vm_compute; auto; (repeat split; discriminate) || discriminate.
Defined.
