(* ===== verification/Big.v ===== *)
(** * Big natural numbers (lib/moqi_libc/src/strtod.c, first part)

    [struct big] is the list of the limbs in use, least significant first;
    what the array holds behind them is never read.  An operation whose C
    version returns 0 because the capacity is exceeded gives [None].  The
    limbs that are zero at the top after a subtraction or a halving are
    dropped by [trim]. *)

From S2P Require Import Prelude Mem Digits FpFmt.

Definition BIG_LIMBS : Z := 192.

Abbreviation big := (list Z) (only parsing).

Fixpoint set_limbs (fuel : nat) (v : Z) : big :=
  match fuel with
  | 0%nat => []
  | S fuel => if v =? 0 then [] else u32 v :: set_limbs fuel (Z.shiftr v 32)
  end.

(** A 64-bit value has at most two limbs. *)
Definition big_set_u64 (v : Z) : big := set_limbs 2 v.

(** The limbs of [a * m + carry] and the carry out. *)
Fixpoint muladd_limbs (a : big) (m carry : Z) : big * Z :=
  match a with
  | [] => ([], carry)
  | w :: a =>
      let t := u64 (w * m + carry) in
      let '(r, carry) := muladd_limbs a m (Z.shiftr t 32) in
      (u32 t :: r, carry)
  end.

Definition big_muladd (a : big) (m add : Z) : option big :=
  let '(r, carry) := muladd_limbs a m add in
  if carry =? 0 then Some r
  else if BIG_LIMBS <=? len r then None
  else Some (r ++ [u32 carry]).

Definition big_is_zero (a : big) : bool := len a =? 0.

(** Two numbers of the same length, most significant limb first. *)
Fixpoint cmp_limbs (a b : big) : Z :=
  match a, b with
  | x :: a, y :: b => if negb (x =? y) then (if x <? y then -1 else 1) else cmp_limbs a b
  | _, _ => 0
  end.

Definition big_cmp (a b : big) : Z :=
  if negb (len a =? len b) then (if len a <? len b then -1 else 1) else cmp_limbs (rev a) (rev b).

Fixpoint shl_words (a : big) (bits carry : Z) : big :=
  match a with
  | [] => if carry =? 0 then [] else [carry]
  | w :: a => Z.lor (u32 (Z.shiftl w bits)) carry :: shl_words a bits (Z.shiftr w (32 - bits))
  end.

Definition big_shl (a : big) (k : Z) : option big :=
  if (len a =? 0) || (k =? 0) then Some a else
  let limbs := k ÷ 32 in
  let bits := Z.rem k 32 in
  if BIG_LIMBS <? len a + limbs + 1 then None else
  let a := if bits =? 0 then a else shl_words a bits 0 in
  Some (replicate (Z.to_nat limbs) 0 ++ a).

Fixpoint sub_limbs (a b : big) (borrow : Z) : big :=
  match a with
  | [] => []
  | w :: a =>
      let t := u64 (w - match b with [] => 0 | x :: _ => x end - borrow) in
      u32 t :: sub_limbs a (tail b) (Z.land (Z.shiftr t 63) 1)
  end.

Definition big_sub (a b : big) : big := trim (sub_limbs a b 0).

(** [while (top) { b++; top >>= 1; }], 32 rounds at most. *)
Fixpoint bit_count (fuel : nat) (top b : Z) : Z :=
  match fuel with
  | 0%nat => b
  | S fuel => if top =? 0 then b else bit_count fuel (Z.shiftr top 1) (b + 1)
  end.

Definition big_bitlen (a : big) : Z :=
  match last a with
  | None => 0
  | Some top => (len a - 1) * 32 + bit_count 32 top 0
  end.

Fixpoint pow10_loop (fuel : nat) (a : big) (e : Z) : option (big * Z) :=
  match fuel with
  | 0%nat => None
  | S fuel => if 9 <=? e then a ← big_muladd a 1000000000 0; pow10_loop fuel a (e - 9) else Some (a, e)
  end.

(** [while (e-- > 0) m *= 10] *)
Fixpoint small_pow10 (fuel : nat) (m e : Z) : Z :=
  match fuel with
  | 0%nat => m
  | S fuel => if 0 <? e then small_pow10 fuel (u32 (m * 10)) (e - 1) else m
  end.

Definition big_pow10 (e : Z) : option big :=
  '(a, e) ← pow10_loop (S (Z.to_nat e)) (big_set_u64 1) e;
  let m := small_pow10 (S (Z.to_nat e)) 1 e in
  if m =? 1 then Some a else big_muladd a m 0.

(** [t >>= 1]: the halved limbs, most significant first. *)
Fixpoint half_limbs (t : big) (carry : Z) : big :=
  match t with
  | [] => []
  | w :: t => Z.lor (Z.shiftr w 1) (u32 (Z.shiftl carry 31)) :: half_limbs t (Z.land w 1)
  end.

Definition big_half (t : big) : big := trim (rev (half_limbs (rev t) 0)).

(** [n] more bits of the quotient. *)
Fixpoint quot_loop (n : nat) (a t : big) (q : Z) : Z * big :=
  match n with
  | 0%nat => (q, a)
  | S n =>
      let q := u64 (Z.shiftl q 1) in
      let '(q, a) := if 0 <=? big_cmp a t then (Z.lor q 1, big_sub a t) else (q, a) in
      quot_loop n a (big_half t) q
  end.

(** The quotient, and the remainder left in [a]. *)
Definition big_divrem_small_quot (a b : big) : Z * big :=
  let shift := big_bitlen a - big_bitlen b in
  if shift <? 0 then (0, a) else
  match big_shl b shift with
  | None => (0, a)
  | Some t => quot_loop (Z.to_nat (shift + 1)) a t 0
  end.

(** [num *= p10]: the rows of the schoolbook product.  [pad] grows the product so that index [k] is in use. *)
Definition pad (prod : big) (k : Z) : big := prod ++ replicate (Z.to_nat (k + 1) - length prod) 0.

Fixpoint row_loop (p10 : big) (w carry k : Z) (prod : big) : option (Z * big) :=
  match p10 with
  | [] => Some (carry, prod)
  | x :: p10 =>
      if BIG_LIMBS <=? k then None else
      let prod := pad prod k in
      y ← at_index prod k;
      let t := u64 (w * x + y + carry) in
      prod ← set_index prod k (u32 t);
      row_loop p10 w (Z.shiftr t 32) (k + 1) prod
  end.

Fixpoint carry_out (fuel : nat) (carry k : Z) (prod : big) : option big :=
  match fuel with
  | 0%nat => None
  | S fuel =>
      if carry =? 0 then Some prod
      else if BIG_LIMBS <=? k then None
      else
        let prod := pad prod k in
        y ← at_index prod k;
        let t := u64 (y + carry) in
        prod ← set_index prod k (u32 t);
        carry_out fuel (Z.shiftr t 32) (k + 1) prod
  end.

Fixpoint mul_loop (num p10 : big) (i : Z) (prod : big) : option big :=
  match num with
  | [] => Some prod
  | w :: num =>
      '(carry, prod) ← row_loop p10 w 0 i prod;
      prod ← carry_out (S (Z.to_nat BIG_LIMBS)) carry (i + len p10) prod;
      mul_loop num p10 (i + 1) prod
  end.

Definition big_mul (num p10 : big) : option big := mul_loop num p10 0 [].
