(* ===== verification/BigSpec.v ===== *)
(** * The big numbers are exact

    Every operation of Big.v against the integer its limbs denote.  A number
    is represented when its limbs are 32-bit words and the last one is not
    zero; results are represented and exact as long as they stay below the
    capacity. *)

From S2P Require Import Prelude Mem Digits FpFmt FpFmtSpec Big.

Abbreviation bval := (value_rev B32).

Definition rep (a : list Z) (v : Z) : Prop := limbs a /\ last a <> Some 0 /\ bval a = v.

Lemma B32_pow k : 0 <= k -> B32 ^ k = 2 ^ (32 * k).
Proof. intros Hk. unfold B32. by rewrite Z.pow_mul_r by lia. Qed.

Lemma last_snoc_ne (a : list Z) : last a <> Some 0 -> a = [] \/ exists b x, a = b ++ [x] /\ x <> 0.
Proof.
  intros Ha. destruct a as [|x a _] using rev_ind; [by left|]. right. exists a, x. split; [done|]. rewrite last_snoc in Ha. congruence.
Qed.

Lemma rep_range a v : rep a v -> 0 <= v < B32 ^ len a /\ (a <> [] -> B32 ^ (len a - 1) <= v).
Proof.
  intros (Hl & Ht & <-). pose proof (value_rev_bound B32 a ltac:(done) Hl) as Hb. split; [done|]. intros Hne.
  destruct (last_snoc_ne a Ht) as [->|(b & x & -> & Hx)]; [done|]. apply Forall_app in Hl as [Hlb Hlx].
  inversion Hlx as [|? ? Hx' _]; subst. pose proof (value_rev_bound B32 b ltac:(done) Hlb).
  rewrite value_rev_app by done. cbn [value_rev]. rewrite length_app. cbn [length]. replace (Z.of_nat (length b + 1) - 1) with (len b) by lia.
  assert (0 < B32 ^ len b) by (apply Z.pow_pos_nonneg; [done|lia]). nia.
Qed.

Lemma rep_zero a v : rep a v -> v = 0 <-> a = [].
Proof.
  intros H. destruct (rep_range a v H) as [_ Hr]. split; [|by intros ->; destruct H as (_ & _ & <-)]. intros ->.
  destruct (decide (a = [])) as [|Hne]; [done|]. specialize (Hr Hne). assert (0 < B32 ^ (len a - 1)); [|lia].
  apply Z.pow_pos_nonneg; [done|]. destruct a; [done|cbn [length]; lia].
Qed.

(** The number of limbs, from a bound on the value. *)
Lemma rep_len a v k : rep a v -> 0 <= k -> v < B32 ^ k -> len a <= k.
Proof.
  intros H Hk Hv. destruct (rep_range a v H) as [_ Hr]. destruct (decide (a = [])) as [->|Hne]; [cbn; lia|]. specialize (Hr Hne).
  destruct (Z.le_gt_cases (len a) k) as [|Hgt]; [done|]. assert (B32 ^ k <= B32 ^ (len a - 1)) by (apply Z.pow_le_mono_r; [done|lia]). lia.
Qed.

Lemma rep_nil : rep [] 0.
Proof. by split. Qed.

Lemma big_is_zero_spec a v : rep a v -> big_is_zero a = (v =? 0).
Proof.
  intros H. pose proof (rep_zero a v H) as Hz. unfold big_is_zero. destruct a as [|x a]; cbn [length].
  - assert (v = 0) by tauto. by subst.
  - assert (v <> 0) by (intros ->; by destruct Hz as [Hz _]; specialize (Hz eq_refl)). lia.
Qed.

(** Dropping the zero limbs at the top. *)
Lemma rep_trim a : limbs a -> rep (trim a) (bval a).
Proof.
  intros Hl. split; [by apply trim_Forall|]. split; [|by apply trim_value_rev].
  destruct (trim_spec a) as (k & _ & [->|(b & x & -> & Hx)]); [done|]. rewrite last_snoc. congruence.
Qed.

Lemma u32_split t : 0 <= t < 2 ^ 64 -> 0 <= u32 t < B32 /\ 0 <= Z.shiftr t 32 < B32 /\ u32 t + B32 * Z.shiftr t 32 = t.
Proof. intros Ht. rewrite Z.shiftr_div_pow2 by lia. unfold u32, B32. pose proof (Z.div_mod t (2 ^ 32) ltac:(lia)).
  pose proof (Z.mod_pos_bound t (2 ^ 32) ltac:(lia)). split_and!; [lia|lia|apply Z.div_pos; lia|apply Z.div_lt_upper_bound; lia|lia]. Qed.

Lemma big_set_u64_spec v : 0 <= v < 2 ^ 64 -> rep (big_set_u64 v) v.
Proof.
  intros Hv. unfold big_set_u64. cbn [set_limbs]. destruct (v =? 0) eqn:E0; [by replace v with 0 by lia|].
  destruct (u32_split v Hv) as (H1 & H2 & H3). set (h := Z.shiftr v 32) in *. destruct (h =? 0) eqn:E1.
  - split; [by apply Forall_singleton|]. split; [cbn [last]; intros [=]; lia|]. cbn [value_rev]. lia.
  - assert (u32 h = h) as -> by (apply u32_small; unfold B32 in *; lia). split; [apply Forall_cons; split; [done|by apply Forall_singleton]|]. split; [cbn [last]; intros [=]; lia|].
    cbn [value_rev]. lia.
Qed.

(** *** Multiplication by a word *)

Lemma muladd_limbs_spec m a : 0 <= m < B32 -> limbs a -> forall c, 0 <= c < B32 ->
  let '(r, c') := muladd_limbs a m c in
  limbs r /\ length r = length a /\ 0 <= c' < B32 /\ bval r + B32 ^ len a * c' = bval a * m + c.
Proof.
  intros Hm Ha. induction Ha as [|w a Hw Ha IH]; intros c Hc; cbn [muladd_limbs].
  - cbn [value_rev length]. split_and!; [done|done|lia|lia|]. change (B32 ^ Z.of_nat 0) with 1. lia.
  - assert (Ht : 0 <= w * m + c < 2 ^ 64) by (unfold B32 in *; nia). rewrite u64_small by done.
    destruct (u32_split _ Ht) as (H1 & H2 & H3). specialize (IH _ H2). destruct (muladd_limbs a m _) as [r c'].
    destruct IH as (Hr & Hl & Hc' & Hv). split_and!; [by constructor|cbn [length]; lia|lia|lia|]. cbn [value_rev length].
    rewrite Nat2Z.inj_succ, Z.pow_succ_r by lia. lia.
Qed.

Lemma last_app_ne (a : list Z) x : x <> 0 -> last (a ++ [x]) <> Some 0.
Proof. rewrite last_snoc. congruence. Qed.

(** No carry out of a product that has all its limbs keeps the top limb. *)
Lemma limbs_top a n v : limbs a -> len a = n -> bval a = v -> (0 < n -> B32 ^ (n - 1) <= v) -> rep a v.
Proof.
  intros Ha Hn Hv Hb. split; [done|]. split; [|done]. destruct a as [|x b _] using rev_ind; [done|]. rewrite last_snoc. intros [= ->].
  rewrite value_rev_app in Hv by done. cbn [value_rev] in Hv. rewrite length_app in Hn. cbn [length] in Hn.
  apply Forall_app in Ha as [Ha _]. pose proof (value_rev_bound B32 b ltac:(done) Ha). specialize (Hb ltac:(lia)). replace (n - 1) with (len b) in Hb by lia. lia.
Qed.

Lemma big_muladd_spec a v m add : rep a v -> 0 < m < B32 -> 0 <= add < B32 -> v * m + add < B32 ^ BIG_LIMBS ->
  exists r, big_muladd a m add = Some r /\ rep r (v * m + add).
Proof.
  intros Hrep Hm Hadd Hcap. destruct (rep_range a v Hrep) as [Hv Hlo]. destruct Hrep as (Ha & Ht & Hval). unfold big_muladd.
  pose proof (muladd_limbs_spec m a ltac:(lia) Ha add Hadd) as H. destruct (muladd_limbs a m add) as [r c]. destruct H as (Hr & Hl & Hc & Hrv).
  rewrite Hval in Hrv. destruct (c =? 0) eqn:Ec.
  - exists r. split; [done|]. apply (limbs_top r (len a)); [done|lia|lia|]. intros Hn. specialize (Hlo ltac:(by destruct a)). nia.
  - assert (Hn : len r < BIG_LIMBS).
    { destruct (Z.lt_ge_cases (len r) BIG_LIMBS) as [|Hge]; [done|]. assert (B32 ^ BIG_LIMBS <= B32 ^ len a) by (apply Z.pow_le_mono_r; [done|lia]).
      pose proof (value_rev_bound B32 r ltac:(done) Hr). nia. }
    replace (BIG_LIMBS <=? len r) with false by lia. exists (r ++ [u32 c]). split; [done|]. rewrite u32_small by done.
    split; [apply Forall_app; split; [done|by constructor]|]. split; [apply last_app_ne; lia|].
    rewrite value_rev_app by done. cbn [value_rev]. rewrite Hl. lia.
Qed.

(** *** Comparison *)

Lemma cmp_limbs_spec a : limbs a -> forall b, limbs b -> length a = length b ->
  cmp_limbs a b = if value B32 a <? value B32 b then -1 else if value B32 a =? value B32 b then 0 else 1.
Proof.
  intros Ha. induction Ha as [|x a Hx Ha IH]; intros b Hb Hl; destruct b as [|y b]; try done. cbn [cmp_limbs]. cbn [length] in Hl.
  inversion Hb as [|? ? Hy Hb']; subst. rewrite !value_cons by done. replace (len b) with (len a) by lia.
  pose proof (value_bound B32 a ltac:(done) Ha). pose proof (value_bound B32 b ltac:(done) Hb'). replace (len b) with (len a) in * by lia.
  destruct (x =? y) eqn:E; cbn [negb].
  - assert (x = y) by lia. subst. rewrite IH by (done || lia). repeat case_match; lia.
  - destruct (x <? y) eqn:E'.
    + assert (x * B32 ^ len a + B32 ^ len a <= y * B32 ^ len a) by nia. by replace (_ <? _) with true by lia.
    + assert (y * B32 ^ len a + B32 ^ len a <= x * B32 ^ len a) by nia. replace (_ <? _) with false by lia. by replace (_ =? _) with false by lia.
Qed.

Lemma big_cmp_spec a b x y : rep a x -> rep b y -> big_cmp a b = if x <? y then -1 else if x =? y then 0 else 1.
Proof.
  intros Ha Hb. pose proof (rep_len a x (len b) Ha ltac:(lia)) as Hab. pose proof (rep_len b y (len a) Hb ltac:(lia)) as Hba.
  destruct (rep_range a x Ha) as [Hx Hxl]. destruct (rep_range b y Hb) as [Hy Hyl]. unfold big_cmp. destruct (len a =? len b) eqn:E; cbn [negb].
  - destruct Ha as (Hla & _ & <-), Hb as (Hlb & _ & <-). rewrite cmp_limbs_spec, !value_of_rev; [done|by apply Forall_rev..|].
    rewrite !length_rev. lia.
  - destruct (len a <? len b) eqn:E'.
    + assert (x < y); [|by replace (x <? y) with true by lia]. specialize (Hyl ltac:(by destruct b; cbn in *; [lia|])).
      destruct (Z.lt_ge_cases x y) as [|Hge]; [done|]. assert (B32 ^ len a <= B32 ^ (len b - 1)) by (apply Z.pow_le_mono_r; [done|lia]). lia.
    + assert (y < x); [|replace (x <? y) with false by lia; by replace (x =? y) with false by lia]. specialize (Hxl ltac:(by destruct a; cbn in *; [lia|])).
      assert (B32 ^ len b <= B32 ^ (len a - 1)) by (apply Z.pow_le_mono_r; [done|lia]). lia.
Qed.

(** *** Shifts *)

Lemma shl_words_spec bits a : 0 < bits < 32 -> limbs a -> forall c, 0 <= c < 2 ^ bits ->
  limbs (shl_words a bits c) /\ bval (shl_words a bits c) = bval a * 2 ^ bits + c.
Proof.
  intros Hb Ha. assert (Hp : 2 ^ bits * 2 ^ (32 - bits) = B32) by (rewrite <- Z.pow_add_r by lia; by replace (bits + (32 - bits)) with 32 by lia).
  assert (Hpos : 0 < 2 ^ bits) by (by apply Z.pow_pos_nonneg; lia). assert (Hpos' : 2 <= 2 ^ (32 - bits)) by (apply (Z.pow_le_mono_r 2 1); lia).
  induction Ha as [|w a Hw Ha IH]; intros c Hc; cbn [shl_words].
  - destruct (c =? 0) eqn:E; [cbn; split; [done|lia]|]. cbn [value_rev]. split; [apply Forall_singleton; nia|lia].
  - assert (Hsh : 0 <= Z.shiftr w (32 - bits) < 2 ^ bits).
    { rewrite Z.shiftr_div_pow2 by lia. split; [apply Z.div_pos; lia|apply Z.div_lt_upper_bound; lia]. }
    destruct (IH _ Hsh) as [Hl Hv]. set (k := Z.shiftr w (32 - bits)) in *.
    assert (Hw' : u32 (Z.shiftl w bits) = Z.shiftl (w - k * 2 ^ (32 - bits)) bits).
    { rewrite !Z.shiftl_mul_pow2 by lia. unfold u32. replace (w * 2 ^ bits) with ((w - k * 2 ^ (32 - bits)) * 2 ^ bits + k * 2 ^ 32)
        by (change (2 ^ 32) with B32; rewrite <- Hp; lia). rewrite Z.mod_add by lia. apply Z.mod_small.
      subst k. rewrite Z.shiftr_div_pow2 by lia. pose proof (Z.div_mod w (2 ^ (32 - bits)) ltac:(lia)).
      pose proof (Z.mod_pos_bound w (2 ^ (32 - bits)) ltac:(lia)). change (2 ^ 32) with B32. nia. }
    assert (Hlo : 0 <= w - k * 2 ^ (32 - bits) < 2 ^ (32 - bits)).
    { subst k. rewrite Z.shiftr_div_pow2 by lia. pose proof (Z.div_mod w (2 ^ (32 - bits)) ltac:(lia)).
      pose proof (Z.mod_pos_bound w (2 ^ (32 - bits)) ltac:(lia)). lia. }
    rewrite Hw', lor_shift by lia. split; [constructor; [nia|done]|]. cbn [value_rev]. rewrite Hv. nia.
Qed.

Lemma shl_words_top bits a : 0 < bits < 32 -> limbs a -> last a <> Some 0 -> forall c, 0 <= c < 2 ^ bits -> last (shl_words a bits c) <> Some 0.
Proof.
  intros Hb Ha. induction Ha as [|w a Hw Ha IH]; intros Hlast c Hc; cbn [shl_words].
  - destruct (c =? 0) eqn:E; [done|]. cbn [last]. intros [=]. lia.
  - assert (Hsh : 0 <= Z.shiftr w (32 - bits) < 2 ^ bits).
    { rewrite Z.shiftr_div_pow2 by lia. split; [apply Z.div_pos; lia|apply Z.div_lt_upper_bound; [apply Z.pow_pos_nonneg; lia|]].
      rewrite <- Z.pow_add_r by lia. replace (32 - bits + bits) with 32 by lia. apply Hw. }
    destruct a as [|x a].
    + cbn [shl_words]. destruct (_ =? 0) eqn:E; cbn [last]; [|intros [=]; lia]. intros [= H0]. apply Z.lor_eq_0_iff in H0 as [H0 _].
      apply Hlast. cbn [last]. f_equal. rewrite Z.shiftr_div_pow2 in E by lia. assert (Hd : w / 2 ^ (32 - bits) = 0) by lia.
      apply Z.div_small_iff in Hd as [Hd|Hd]; [| |apply Z.pow_nonzero; lia]; [|lia].
      assert (w * 2 ^ bits < 2 ^ 32) by (replace 32 with (32 - bits + bits) by lia; rewrite Z.pow_add_r by lia; apply Z.mul_lt_mono_pos_r; [apply Z.pow_pos_nonneg; lia|lia]).
      rewrite Z.shiftl_mul_pow2 in H0 by lia. assert (0 < 2 ^ bits) by (apply Z.pow_pos_nonneg; lia). rewrite u32_small in H0 by nia. nia.
    + rewrite last_cons_cons in Hlast. specialize (IH Hlast _ Hsh). cbn [shl_words] in *. by rewrite last_cons_cons.
Qed.

Lemma big_shl_spec a v k : rep a v -> 0 <= k -> v * 2 ^ k < B32 ^ (BIG_LIMBS - 1) -> exists r, big_shl a k = Some r /\ rep r (v * 2 ^ k).
Proof.
  intros Hrep Hk Hcap. pose proof (rep_range a v Hrep) as [Hv Hlo]. pose proof (rep_zero a v Hrep) as Hz. unfold big_shl. destruct (_ || _) eqn:E.
  { exists a. split; [done|]. apply orb_true_iff in E as [E|E]; [|replace k with 0 by lia; by rewrite Z.mul_1_r].
    destruct a; [|done]. by replace v with 0 by (symmetry; tauto). }
  assert (Hv0 : v <> 0) by (intros ->; destruct Hz as [Hz _]; by rewrite (Hz eq_refl) in E).
  specialize (Hlo ltac:(by destruct a)). cbv zeta. rewrite Z.quot_div_nonneg, Z.rem_mod_nonneg by lia. set (n := k / 32). set (bits := k mod 32).
  assert (Hnb : k = 32 * n + bits /\ 0 <= bits < 32 /\ 0 <= n) by (subst n bits; pose proof (Z.div_mod k 32 ltac:(lia)); pose proof (Z.mod_pos_bound k 32 ltac:(lia)); zdm).
  assert (Hp : 2 ^ k = B32 ^ n * 2 ^ bits) by (rewrite B32_pow, <- Z.pow_add_r by lia; f_equal; lia).
  assert (Hb1 : 1 <= 2 ^ bits) by (apply (Z.pow_le_mono_r 2 0); lia). clearbody n bits.
  assert (Hfit : len a + n + 1 <= BIG_LIMBS).
  { destruct (Z.le_gt_cases (len a + n + 1) BIG_LIMBS) as [|Hgt]; [done|].
    assert (B32 ^ (BIG_LIMBS - 1) <= B32 ^ (len a - 1 + n)) by (apply Z.pow_le_mono_r; [done|lia]).
    rewrite Z.pow_add_r in * by (try (destruct a; [done|cbn [length]]); lia). assert (0 < B32 ^ n) by (apply Z.pow_pos_nonneg; [done|lia]). nia. }
  replace (BIG_LIMBS <? _) with false by lia. eexists. split; [reflexivity|].
  destruct Hrep as (Ha & Ht & Hval). set (a' := if bits =? 0 then a else shl_words a bits 0).
  assert (Ha' : limbs a' /\ last a' <> Some 0 /\ bval a' = v * 2 ^ bits).
  { subst a'. destruct (bits =? 0) eqn:Eb; [replace bits with 0 by lia; by rewrite Z.mul_1_r|].
    destruct (shl_words_spec bits a ltac:(lia) Ha 0 ltac:(lia)) as [H1 H2]. split; [done|]. split; [by apply shl_words_top; [lia|..|lia]|]. lia. }
  destruct Ha' as (H1 & H2 & H3). clearbody a'. assert (a' <> []) by (intros ->; cbn in H3; nia).
  split; [apply Forall_app; split; [by apply Forall_replicate|done]|]. split.
  - rewrite last_app. by destruct (last a') eqn:El; [|apply last_None in El].
  - rewrite value_rev_app, value_rev_zeros, length_replicate, H3, Hp, Z2Nat.id by (done || lia). lia.
Qed.

(** *** Subtraction *)

Lemma sub_word w x c : 0 <= w < B32 -> 0 <= x < B32 -> 0 <= c <= 1 ->
  let t := u64 (w - x - c) in
  0 <= u32 t < B32 /\ 0 <= Z.land (Z.shiftr t 63) 1 <= 1 /\ u32 t = w - x - c + B32 * Z.land (Z.shiftr t 63) 1.
Proof.
  intros Hw Hx Hc t. assert (Hland : Z.land (Z.shiftr t 63) 1 = t / 2 ^ 63 mod 2) by (by rewrite (Z.land_ones _ 1), Z.shiftr_div_pow2 by lia).
  rewrite Hland. clear Hland. unfold B32 in *. set (d := w - x - c) in *. assert (Hdb : - 2 ^ 32 <= d < 2 ^ 32) by (subst d; lia). clearbody d. destruct (Z.lt_ge_cases d 0) as [Hd|Hd].
  - assert (Ht : t = d + 2 ^ 64) by (subst t; unfold u64; rewrite <- (Z.mod_add _ 1) by lia; apply Z.mod_small; lia).
    assert (Hs : t / 2 ^ 63 = 1) by (symmetry; apply (Z.div_unique _ _ _ (t - 2 ^ 63)); lia).
    assert (Hu : u32 t = d + 2 ^ 32) by (unfold u32; symmetry; apply (Z.mod_unique _ _ (2 ^ 32 - 1)); lia). rewrite Hs, Hu. change (1 mod 2) with 1. lia.
  - assert (Ht : t = d) by (apply u64_small; lia). rewrite Ht, u32_small, (Z.div_small d) by lia. change (0 mod 2) with 0. lia.
Qed.

Lemma sub_limbs_spec a : limbs a -> forall b c, limbs b -> 0 <= c <= 1 -> (length b <= length a)%nat ->
  limbs (sub_limbs a b c) /\ exists c', 0 <= c' <= 1 /\ bval (sub_limbs a b c) = bval a - bval b - c + B32 ^ len a * c' /\
    length (sub_limbs a b c) = length a.
Proof.
  intros Ha. induction Ha as [|w a Hw Ha IH]; intros b c Hb Hc Hl; cbn [sub_limbs].
  - destruct b; [|cbn in Hl; lia]. split; [done|]. exists c. cbn [value_rev length]. change (B32 ^ Z.of_nat 0) with 1. split_and!; (done || lia).
  - set (x := match b with [] => 0 | x :: _ => x end). assert (Hx : 0 <= x < B32) by (subst x; destruct Hb; [done|done]).
    destruct (sub_word w x c Hw Hx Hc) as (H1 & H2 & H3). assert (Hb' : limbs (tail b)) by (by destruct Hb).
    destruct (IH (tail b) (Z.land (Z.shiftr (u64 (w - x - c)) 63) 1) Hb' H2 ltac:(destruct b; cbn in *; lia)) as (Hr & c' & Hc' & Hv & Hlen).
    split; [by constructor|]. exists c'. cbn [value_rev length]. rewrite Nat2Z.inj_succ, Z.pow_succ_r, Hv by lia. split; [done|]. split; [|lia].
    assert (Hbv : bval b = x + B32 * bval (tail b)) by (subst x; destruct b; cbn; lia). rewrite H3 at 1. rewrite Hbv. lia.
Qed.

Lemma big_sub_spec a b x y : rep a x -> rep b y -> y <= x -> rep (big_sub a b) (x - y).
Proof.
  intros Ha Hb Hxy. destruct (rep_range a x Ha) as [Hx _]. pose proof (rep_len b y (len a) Hb ltac:(lia) ltac:(lia)) as Hl.
  destruct Ha as (Ha & _ & <-), Hb as (Hb & _ & <-). destruct (sub_limbs_spec a Ha b 0 Hb ltac:(lia) ltac:(lia)) as (Hr & c & Hc & Hv & Hlen).
  unfold big_sub. pose proof (value_rev_bound B32 _ ltac:(done) Hr) as Hbd. rewrite Hlen in Hbd. pose proof (value_rev_bound B32 b ltac:(done) Hb).
  assert (c = 0) by nia. subst c. replace (bval a - bval b) with (bval (sub_limbs a b 0)) by lia. by apply rep_trim.
Qed.

(** *** Bit length *)

Lemma bit_count_spec fuel : forall top b, 0 <= top < 2 ^ Z.of_nat fuel -> bit_count fuel top b = b + (if top =? 0 then 0 else Z.log2 top + 1).
Proof.
  induction fuel as [|fuel IH]; intros top b Ht; cbn [bit_count].
  - assert (top = 0) by (cbn in Ht; lia). subst. cbn. lia.
  - destruct (top =? 0) eqn:E; [lia|]. rewrite Nat2Z.inj_succ, Z.pow_succ_r in Ht by lia. rewrite Z.shiftr_div_pow2 by lia. change (2 ^ 1) with 2.
    rewrite IH by (split; [apply Z.div_pos; lia|apply Z.div_lt_upper_bound; lia]). destruct (top / 2 =? 0) eqn:E'.
    + assert (top = 1) by zdm. subst. cbn. lia.
    + change (top / 2) with (top / 2 ^ 1). rewrite <- (Z.shiftr_div_pow2 top 1), Z.log2_shiftr by lia. assert (1 <= Z.log2 top) by (apply (Z.log2_le_mono 2); zdm). lia.
Qed.

Lemma big_bitlen_spec a v : rep a v -> big_bitlen a = if v =? 0 then 0 else Z.log2 v + 1.
Proof.
  intros Hrep. pose proof (rep_zero a v Hrep) as Hz. pose proof (rep_range a v Hrep) as [Hv _]. destruct Hrep as (Ha & Ht & Hval). unfold big_bitlen.
  destruct (last_snoc_ne a Ht) as [->|(b & x & -> & Hx)].
  - cbn in *. by subst.
  - rewrite last_snoc. apply Forall_app in Ha as [Hb Hx']. apply Forall_inv in Hx'. rewrite bit_count_spec by exact Hx'.
    assert (Hv0 : v <> 0) by (intros E; apply Hz in E; by apply app_nil in E as [_ ?]). replace (v =? 0) with false by lia. replace (x =? 0) with false by lia.
    rewrite length_app. cbn [length]. rewrite value_rev_app in Hval by done. cbn [value_rev] in Hval.
    pose proof (value_rev_bound B32 b ltac:(done) Hb) as Hbb. rewrite B32_pow in * by lia.
    enough (Z.log2 v = 32 * len b + Z.log2 x) by lia. apply Z.log2_unique; [pose proof (Z.log2_nonneg x); lia|].
    pose proof (Z.log2_spec x ltac:(lia)) as [H1 H2]. rewrite Z.pow_succ_r in H2 by (apply Z.log2_nonneg).
    rewrite <- Z.add_succ_r, !Z.pow_add_r, Z.pow_succ_r by (pose proof (Z.log2_nonneg x); lia). nia.
Qed.

(** *** Powers of ten *)

Lemma pow10_loop_spec fuel : forall a v e, rep a v -> 0 < v -> 0 <= e -> (Z.to_nat e < fuel)%nat -> v * 10 ^ e < B32 ^ BIG_LIMBS ->
  exists a' e', pow10_loop fuel a e = Some (a', e') /\ 0 <= e' < 9 /\ exists v', rep a' v' /\ v' * 10 ^ e' = v * 10 ^ e /\ 0 < v'.
Proof.
  induction fuel as [|fuel IH]; intros a v e Hr Hv He Hf Hcap; [lia|]. cbn [pow10_loop]. destruct (9 <=? e) eqn:E.
  - assert (Hp : 10 ^ e = 1000000000 * 10 ^ (e - 9)) by (change 1000000000 with (10 ^ 9); rewrite <- Z.pow_add_r by lia; f_equal; lia).
    assert (0 < 10 ^ (e - 9)) by (apply Z.pow_pos_nonneg; lia).
    destruct (big_muladd_spec a v 1000000000 0 Hr ltac:(done) ltac:(done) ltac:(nia)) as (r & -> & Hr'). obind.
    destruct (IH r _ (e - 9) Hr' ltac:(lia) ltac:(lia) ltac:(lia) ltac:(nia)) as (a' & e' & -> & He' & v' & Hr2 & Hv2 & Hv3).
    exists a', e'. split; [done|]. split; [done|]. exists v'. split; [done|]. split; [|done]. rewrite Hv2, Hp. lia.
  - exists a, e. split; [done|]. split; [lia|]. by exists v.
Qed.

Lemma small_pow10_spec fuel : forall m e, 0 <= e -> (Z.to_nat e < fuel)%nat -> 0 < m -> m * 10 ^ e < B32 -> small_pow10 fuel m e = m * 10 ^ e.
Proof.
  induction fuel as [|fuel IH]; intros m e He Hf Hm Hb; [lia|]. cbn [small_pow10]. destruct (0 <? e) eqn:E.
  - assert (Hp : 10 ^ e = 10 * 10 ^ (e - 1)) by (rewrite <- Z.pow_succ_r by lia; f_equal; lia). assert (0 < 10 ^ (e - 1)) by (apply Z.pow_pos_nonneg; lia).
    rewrite u32_small by (unfold B32 in *; nia). rewrite IH by (try lia; nia). lia.
  - replace e with 0 by lia. lia.
Qed.

Lemma big_pow10_spec e : 0 <= e -> 10 ^ e < B32 ^ BIG_LIMBS -> exists a, big_pow10 e = Some a /\ rep a (10 ^ e).
Proof.
  intros He Hcap. unfold big_pow10. pose proof (big_set_u64_spec 1 ltac:(lia)) as H1.
  destruct (pow10_loop_spec (S (Z.to_nat e)) _ 1 e H1 ltac:(lia) He ltac:(lia) ltac:(lia)) as (a & e' & -> & He' & v & Hr & Hv & Hv0). obind.
  rewrite Z.mul_1_l in Hv. assert (Hs : 10 ^ e' <= 10 ^ 8) by (apply Z.pow_le_mono_r; lia). assert (Hs' : 0 < 10 ^ e') by (apply Z.pow_pos_nonneg; lia).
  rewrite small_pow10_spec by (unfold B32; lia). rewrite Z.mul_1_l. destruct (10 ^ e' =? 1) eqn:E.
  - exists a. split; [done|]. by replace (10 ^ e) with v by nia.
  - destruct (big_muladd_spec a v (10 ^ e') 0 Hr ltac:(unfold B32; lia) ltac:(done) ltac:(lia)) as (r & -> & Hr'). exists r. split; [done|].
    by replace (10 ^ e) with (v * 10 ^ e' + 0) by lia.
Qed.

(** *** Division *)

Lemma half_word w c : 0 <= w < B32 -> 0 <= c <= 1 ->
  Z.lor (Z.shiftr w 1) (u32 (Z.shiftl c 31)) = (w + c * B32) / 2 /\ Z.land w 1 = w mod 2.
Proof.
  intros Hw Hc. split; [|by apply (Z.land_ones w 1)]. rewrite u32_small by (rewrite Z.shiftl_mul_pow2 by lia; unfold B32 in *; lia).
  rewrite Z.shiftr_div_pow2 by lia. change (2 ^ 1) with 2. rewrite Z.lor_comm, lor_shift by (unfold B32 in *; zdm). unfold B32 in *.
  replace (w + c * 2 ^ 32) with (w + c * 2 ^ 31 * 2) by lia. rewrite Z.div_add by lia. lia.
Qed.

Lemma half_limbs_spec t : limbs t -> forall c, 0 <= c <= 1 ->
  limbs (half_limbs t c) /\ length (half_limbs t c) = length t /\ value B32 (half_limbs t c) = (value B32 t + c * B32 ^ len t) / 2.
Proof.
  intros Ht. induction Ht as [|w t Hw Ht IH]; intros c Hc; cbn [half_limbs].
  - split_and!; [done|done|]. cbn. by assert (c = 0 \/ c = 1) as [-> | ->] by lia.
  - destruct (half_word w c Hw Hc) as [-> ->]. pose proof (Z.mod_pos_bound w 2 ltac:(lia)). destruct (IH (w mod 2) ltac:(lia)) as (Hl & Hn & Hv).
    split_and!; [constructor; [unfold B32 in *; zdm|done]|cbn [length]; lia|]. rewrite !value_cons, Hn, Hv by done. cbn [length].
    rewrite Nat2Z.inj_succ, Z.pow_succ_r by lia. pose proof (Z.div_mod w 2 ltac:(lia)).
    assert (Hd : (w + c * B32) / 2 = w / 2 + c * (B32 / 2)).
    { replace (c * B32) with (c * (B32 / 2) * 2) by (unfold B32; change (2 ^ 32 / 2) with (2 ^ 31); lia). by rewrite Z.div_add by lia. }
    rewrite Hd. set (P := B32 ^ len t). rewrite <- Z.div_add_l by lia. f_equal.
    assert (HB : B32 = B32 / 2 * 2) by done. set (h := B32 / 2) in *. clearbody h P. assert (Hw2 : w * P = (2 * (w / 2) + w mod 2) * P) by (f_equal; lia).
    rewrite HB. lia.
Qed.

Lemma big_half_spec t v : rep t v -> rep (big_half t) (v / 2).
Proof.
  intros (Ht & _ & <-). destruct (half_limbs_spec (rev t) ltac:(by apply Forall_rev) 0 ltac:(lia)) as (Hl & Hn & Hv). unfold big_half.
  rewrite value_of_rev in Hv. replace (bval t / 2) with (bval (rev (half_limbs (rev t) 0))); [apply rep_trim; by apply Forall_rev|].
  rewrite <- value_of_rev, rev_involutive, Hv. f_equal. lia.
Qed.

Lemma quot_loop_spec n : forall a t q x y, rep a x -> rep t (y * 2 ^ (Z.of_nat n - 1)) \/ n = 0%nat -> 0 < y -> x < y * 2 ^ Z.of_nat n -> 0 <= q ->
  q * 2 ^ Z.of_nat n + x / y < 2 ^ 64 -> exists a', quot_loop n a t q = (q * 2 ^ Z.of_nat n + x / y, a') /\ rep a' (x mod y).
Proof.
  induction n as [|n IH]; intros a t q x y Ha Ht Hy Hx Hq Hcap; cbn [quot_loop]; pose proof (rep_range a x Ha) as [Hx0 _].
  - exists a. change (2 ^ Z.of_nat 0) with 1 in *. rewrite Z.mod_small, (Z.div_small x) by lia. split; [f_equal; lia|done].
  - destruct Ht as [Ht|]; [|done]. replace (Z.of_nat (S n) - 1) with (Z.of_nat n) in Ht by lia. rewrite Nat2Z.inj_succ, Z.pow_succ_r in * by lia.
    assert (Hp : 1 <= 2 ^ Z.of_nat n) by (apply (Z.pow_le_mono_r 2 0); lia). assert (Hdiv : 0 <= x / y) by (apply Z.div_pos; lia).
    rewrite u64_small by (rewrite Z.shiftl_mul_pow2 by lia; nia). rewrite Z.shiftl_mul_pow2 by lia. change (2 ^ 1) with 2.
    assert (Ht' : rep (big_half t) (y * 2 ^ (Z.of_nat n - 1)) \/ n = 0%nat).
    { destruct n as [|n]; [by right|]. left. replace (y * 2 ^ (Z.of_nat (S n) - 1)) with (y * 2 ^ Z.of_nat (S n) / 2); [by apply big_half_spec|].
      replace (Z.of_nat (S n)) with (Z.succ (Z.of_nat (S n) - 1)) at 1 by lia. rewrite Z.pow_succ_r by lia. symmetry. apply (Z.div_unique_exact); lia. }
    rewrite (big_cmp_spec a t x _ Ha Ht). destruct (x <? y * 2 ^ Z.of_nat n) eqn:E.
    + cbn [Z.leb Z.compare]. destruct (IH a (big_half t) (q * 2) x y Ha Ht' Hy ltac:(lia) ltac:(lia) ltac:(lia)) as (a' & -> & Ha'). exists a'. split; [f_equal; lia|done].
    + replace (0 <=? _) with true by (destruct (x =? _); done). pose proof (big_sub_spec a t x _ Ha Ht ltac:(lia)) as Hs.
      assert (Hlor : Z.lor (q * 2) 1 = q * 2 + 1) by (pose proof (lor_shift q 1 1 ltac:(lia) ltac:(lia)) as Hls; by rewrite Z.shiftl_mul_pow2 in Hls by lia).
      assert (Hxd : (x - y * 2 ^ Z.of_nat n) / y = x / y - 2 ^ Z.of_nat n) by (replace (x - y * 2 ^ Z.of_nat n) with (x + - 2 ^ Z.of_nat n * y) by lia; rewrite Z.div_add by lia; lia).
      assert (Hxm : (x - y * 2 ^ Z.of_nat n) mod y = x mod y) by (replace (x - y * 2 ^ Z.of_nat n) with (x + - 2 ^ Z.of_nat n * y) by lia; by rewrite Z.mod_add by lia).
      rewrite Hlor. destruct (IH (big_sub a t) (big_half t) (q * 2 + 1) (x - y * 2 ^ Z.of_nat n) y Hs Ht' Hy ltac:(lia) ltac:(lia) ltac:(lia)) as (a' & -> & Ha').
      rewrite Hxd, Hxm in *. exists a'. split; [f_equal; lia|done].
Qed.

Lemma big_divrem_spec a b x y : rep a x -> rep b y -> 0 < y -> x / y < 2 ^ 64 -> 2 * x < B32 ^ (BIG_LIMBS - 1) ->
  exists r, big_divrem_small_quot a b = (x / y, r) /\ rep r (x mod y).
Proof.
  intros Ha Hb Hy Hq Hcap. destruct (rep_range a x Ha) as [Hx _]. unfold big_divrem_small_quot. cbv zeta.
  rewrite (big_bitlen_spec a x Ha), (big_bitlen_spec b y Hb). replace (y =? 0) with false by lia. pose proof (Z.log2_nonneg y) as Hly.
  pose proof (Z.log2_spec y Hy) as Hy2. destruct (x =? 0) eqn:E.
  { assert (x = 0) by lia. subst x. replace (0 - _ <? 0) with true by lia. exists a. by rewrite Z.div_0_l, Z.mod_0_l by lia. }
  pose proof (Z.log2_nonneg x) as Hlx. pose proof (Z.log2_spec x ltac:(lia)) as Hx2. set (shift := Z.log2 x + 1 - (Z.log2 y + 1)).
  destruct (shift <? 0) eqn:Es.
  { assert (x < y). { destruct (Z.lt_ge_cases x y) as [|Hge]; [done|]. pose proof (Z.log2_le_mono y x Hge). lia. }
    exists a. by rewrite Z.div_small, Z.mod_small by lia. }
  assert (Hpx : 2 ^ Z.succ (Z.log2 x) = 2 ^ Z.log2 y * 2 ^ (shift + 1)) by (rewrite <- Z.pow_add_r by lia; f_equal; lia).
  assert (Hpx' : 2 ^ Z.succ (Z.log2 x) = 2 ^ Z.succ (Z.log2 y) * 2 ^ shift) by (rewrite <- Z.pow_add_r by lia; f_equal; lia).
  assert (Hps : 0 < 2 ^ shift) by (apply Z.pow_pos_nonneg; lia). assert (Hps' : 0 < 2 ^ (shift + 1)) by (apply Z.pow_pos_nonneg; lia).
  assert (Hxs : 2 ^ Z.succ (Z.log2 x) <= 2 * x) by (rewrite Z.pow_succ_r by lia; lia).
  destruct (big_shl_spec b y shift Hb ltac:(lia) ltac:(nia)) as (t & -> & Ht).
  destruct (quot_loop_spec (Z.to_nat (shift + 1)) a t 0 x y Ha) as (r & Hr & Hrep); rewrite ?Z2Nat.id by lia; [|done|nia|lia|lia|].
  - left. by replace (shift + 1 - 1) with shift by lia.
  - rewrite Z2Nat.id, Z.mul_0_l in Hr by lia. by exists r.
Qed.

(** *** Products *)

Lemma pad_at lo hi : pad (lo ++ hi) (len lo) = lo ++ match hi with [] => 0 | y :: _ => y end :: tail hi.
Proof.
  unfold pad. rewrite length_app. destruct hi as [|y hi]; cbn [length tail].
  - replace (Z.to_nat (len lo + 1) - (length lo + 0))%nat with 1%nat by lia. by rewrite app_nil_r.
  - replace (Z.to_nat (len lo + 1) - (length lo + S (length hi)))%nat with 0%nat by lia. by rewrite app_nil_r.
Qed.

Lemma row_loop_spec w : 0 <= w < B32 -> forall ps c k lo hi, limbs ps -> limbs hi -> 0 <= c < B32 -> len lo = k -> k + len ps <= BIG_LIMBS ->
  exists mid c', row_loop ps w c k (lo ++ hi) = Some (c', lo ++ mid ++ drop (length ps) hi) /\ limbs mid /\ length mid = length ps /\ 0 <= c' < B32 /\
    bval mid + B32 ^ len ps * c' = w * bval ps + bval (take (length ps) hi) + c.
Proof.
  intros Hw. induction ps as [|x ps IH]; intros c k lo hi Hps Hhi Hc Hk Hcap; cbn [row_loop length].
  { exists [], c. split; [by rewrite drop_0|]. split_and!; [done|done|lia|lia|]. rewrite take_0. cbn [value_rev]. change (B32 ^ Z.of_nat 0) with 1. lia. }
  inversion Hps as [|? ? Hx Hps']; subst. cbn [length] in Hcap. replace (BIG_LIMBS <=? len lo) with false by lia. rewrite pad_at.
  set (y := match hi with [] => 0 | y :: _ => y end). assert (Hy : 0 <= y < B32) by (subst y; by destruct Hhi).
  rewrite at_index_app. obind. rewrite set_index_app. obind. assert (Ht : 0 <= w * x + y + c < 2 ^ 64) by (unfold B32 in *; nia). rewrite u64_small by done.
  destruct (u32_split _ Ht) as (H1 & H2 & H3). assert (Hhi' : limbs (tail hi)) by (by destruct Hhi).
  destruct (IH _ (len lo + 1) (lo ++ [u32 (w * x + y + c)]) (tail hi) Hps' Hhi' H2) as (mid & c' & Hrow & Hm & Hlm & Hc' & Hv);
    [rewrite length_app; cbn [length]; lia|lia|]. rewrite <- app_assoc in Hrow. cbn [app] in Hrow. rewrite Hrow.
  exists (u32 (w * x + y + c) :: mid), c'. split_and!.
  - do 2 f_equal. rewrite <- app_assoc. cbn [app]. by destruct hi; cbn [tail drop]; rewrite ?drop_nil.
  - by constructor.
  - cbn [length]. lia.
  - lia.
  - lia.
  - cbn [value_rev]. rewrite Nat2Z.inj_succ, Z.pow_succ_r by lia.
    assert (Htk : bval (take (S (length ps)) hi) = y + B32 * bval (take (length ps) (tail hi))) by (subst y; destruct hi; cbn [take tail value_rev]; rewrite ?take_nil; cbn; lia).
    rewrite Htk. lia.
Qed.

(** One row: the length afterwards, and that a limb added by the carry is not zero. *)
Lemma mul_row_spec w p10 i prod : 0 <= w < B32 -> limbs p10 -> limbs prod -> i <= len prod <= i + len p10 -> 0 <= i -> i + len p10 < BIG_LIMBS ->
  exists carry prod1 prod2, row_loop p10 w 0 i prod = Some (carry, prod1) /\ carry_out (S (Z.to_nat BIG_LIMBS)) carry (i + len p10) prod1 = Some prod2 /\
    limbs prod2 /\ bval prod2 = bval prod + B32 ^ i * (w * bval p10) /\
    (len prod2 = i + len p10 \/ (len prod2 = i + len p10 + 1 /\ last prod2 <> Some 0)).
Proof.
  intros Hw Hp Hprod Hlen Hi Hcap. rewrite <- (take_drop (Z.to_nat i) prod). set (lo := take (Z.to_nat i) prod). set (hi := drop (Z.to_nat i) prod).
  assert (Hlo : len lo = i) by (subst lo; rewrite length_take; lia). assert (Hhi : len hi <= len p10) by (subst hi; rewrite length_drop; lia).
  assert (Hll : limbs lo) by (by apply Forall_take). assert (Hlh : limbs hi) by (by apply Forall_drop).
  destruct (row_loop_spec w Hw p10 0 i lo hi Hp Hlh ltac:(done) Hlo ltac:(lia)) as (mid & c & -> & Hm & Hlm & Hc & Hv).
  rewrite drop_ge, app_nil_r in * by lia. rewrite take_ge in Hv by lia.
  assert (HB : B32 ^ (i + len p10) = B32 ^ i * B32 ^ len p10) by (apply Z.pow_add_r; lia).
  destruct (c =? 0) eqn:Ec.
  - exists c, (lo ++ mid), (lo ++ mid). split; [done|]. split; [cbn [carry_out]; by rewrite Ec|]. split; [by apply Forall_app|].
    rewrite !value_rev_app, !length_app, Hlo by done. split; [|left; lia]. assert (c = 0) by lia. subst c. nia.
  - exists c, (lo ++ mid), ((lo ++ mid) ++ [c]). split; [done|]. split.
    + assert (Hk : i + len p10 = len (lo ++ mid)) by (rewrite length_app; lia). rewrite Hk. change (S (Z.to_nat BIG_LIMBS)) with (S (S (Z.to_nat BIG_LIMBS - 1))).
      cbn [carry_out]. rewrite Ec. rewrite <- Hk. replace (BIG_LIMBS <=? i + len p10) with false by lia. rewrite Hk.
      pose proof (pad_at (lo ++ mid) []) as Hpad. rewrite app_nil_r in Hpad. rewrite Hpad. cbn [tail]. rewrite at_index_app. obind. rewrite set_index_app. obind.
      rewrite u64_small, u32_small, Z.shiftr_div_pow2, Z.div_small by (unfold B32 in *; lia). cbn [Z.add]. done.
    + split; [apply Forall_app; split; [by apply Forall_app|by apply Forall_singleton]|]. rewrite !value_rev_app, !length_app, Nat2Z.inj_add, Hlo, Hlm, HB by done.
      cbn [value_rev length]. split; [nia|]. right. split; [lia|]. apply last_app_ne. lia.
Qed.

Lemma mul_loop_spec p10 : limbs p10 -> p10 <> [] -> forall num i prod, limbs num -> limbs prod -> i <= len prod <= i + len p10 -> 0 <= i ->
  i + len num + len p10 <= BIG_LIMBS ->
  exists r, mul_loop num p10 i prod = Some r /\ limbs r /\ bval r = bval prod + B32 ^ i * (bval num * bval p10) /\ (num = [] -> r = prod) /\
    (num <> [] -> len r = i + len num - 1 + len p10 \/ (len r = i + len num + len p10 /\ last r <> Some 0)).
Proof.
  intros Hp Hne. induction num as [|w num IH]; intros i prod Hnum Hprod Hlen Hi Hcap; cbn [mul_loop].
  { exists prod. split; [done|]. split; [done|]. cbn [value_rev]. split; [lia|done]. }
  inversion Hnum as [|? ? Hw Hnum']; subst. cbn [length] in *.
  destruct (mul_row_spec w p10 i prod Hw Hp Hprod Hlen Hi ltac:(lia)) as (carry & prod1 & prod2 & -> & Hco & Hl2 & Hv2 & Hn2). obind. rewrite Hco. obind.
  assert (0 < len p10) by (destruct p10; [done|cbn [length]; lia]).
  destruct (IH (i + 1) prod2 Hnum' Hl2 ltac:(lia) ltac:(lia) ltac:(lia)) as (r & -> & Hlr & Hvr & Hr0 & Hnr). exists r. split_and!; [done|done| |done|].
  - rewrite Hvr, Hv2. cbn [value_rev]. rewrite Z.pow_add_r by lia. change (B32 ^ 1) with B32. lia.
  - intros _. destruct num as [|w' num].
    + rewrite (Hr0 eq_refl). cbn [length]. destruct Hn2 as [Hn2|[Hn2 Ht]]; [left; lia|right; split; [lia|done]].
    + destruct (Hnr ltac:(done)) as [Hl|[Hl Ht]]; [left; lia|right; split; [lia|done]].
Qed.

Lemma big_mul_spec a b x y : rep a x -> rep b y -> 0 < y -> len a + len b <= BIG_LIMBS -> exists r, big_mul a b = Some r /\ rep r (x * y).
Proof.
  intros Ha Hb Hy Hcap. assert (Hbn : b <> []) by (intros ->; destruct Hb as (_ & _ & Hb); cbn in Hb; lia).
  destruct (rep_range a x Ha) as [Hx Hxl]. destruct (rep_range b y Hb) as [Hyr Hyl]. specialize (Hyl Hbn). pose proof (rep_zero a x Ha) as Hz.
  destruct Ha as (Hla & Hta & Hva), Hb as (Hlb & _ & Hvb). unfold big_mul.
  destruct (mul_loop_spec b Hlb Hbn a 0 [] Hla ltac:(done) ltac:(cbn; lia) ltac:(done) ltac:(lia)) as (r & -> & Hlr & Hvr & Hr0 & Hnr).
  exists r. split; [done|]. cbn [value_rev] in Hvr. change (B32 ^ 0) with 1 in Hvr. rewrite Hva, Hvb in Hvr.
  destruct (decide (a = [])) as [->|Hne].
  { rewrite (Hr0 eq_refl) in *. split; [done|]. split; [done|]. cbn in Hvr |- *. lia. }
  specialize (Hxl Hne). destruct (Hnr Hne) as [Hl|[_ Ht]]; [|split; [done|]; split; [done|lia]].
  apply (limbs_top r (len r)); [done|done|lia|]. intros _. rewrite Hl.
  assert (0 < len a) by (destruct a; [done|cbn [length]; lia]). assert (0 < len b) by (destruct b; [done|cbn [length]; lia]).
  replace (0 + len a - 1 + len b - 1) with ((len a - 1) + (len b - 1)) by lia. rewrite Z.pow_add_r by lia.
  apply Z.mul_le_mono_nonneg; try lia; apply Z.pow_nonneg; done.
Qed.
