(* ===== verification/Nearest.v ===== *)
(** * Rounding to nearest, ties to even

    A binary format of precision [P] without an upper bound on the exponent is
    a set of natural numbers once everything is counted in units of its
    smallest subnormal: the numbers [m * 2^k] with [m < 2^P].  An exact value
    is a fraction [N / D] of such units.  [nearest] says what a correctly
    rounded result is, without a word on how it is computed; the lemmas show
    that rounding the quotient at the right binary place computes it. *)

From S2P Require Import Prelude.

Definition representable (P v : Z) : Prop := exists m k, 0 <= m < 2 ^ P /\ 0 <= k /\ v = m * 2 ^ k.

(** The binary place of the last digit of [v], and whether that digit is even. *)
Definition quantum (P v : Z) : Z := Z.max 0 (Z.log2 v - (P - 1)).
Definition sig_even (P v : Z) : Prop := Z.even (v / 2 ^ quantum P v) = true.

Definition nearest (P N D v : Z) : Prop :=
  representable P v /\
  forall u, representable P u -> Z.abs (N - v * D) <= Z.abs (N - u * D) /\ (Z.abs (N - v * D) = Z.abs (N - u * D) -> u = v \/ sig_even P v).

(** The quotient rounded half to even. *)
Definition rne (n m : Z) : Z :=
  let q := n / m in
  let r := n mod m in
  if (m <? 2 * r) || ((2 * r =? m) && Z.odd q) then q + 1 else q.

Lemma rne_spec n m : 0 < m -> 2 * Z.abs (n - rne n m * m) <= m /\ (2 * Z.abs (n - rne n m * m) = m -> Z.even (rne n m) = true).
Proof.
  intros Hm. unfold rne. pose proof (Z.div_mod n m ltac:(lia)) as Hd. pose proof (Z.mod_pos_bound n m Hm) as Hr. cbv zeta.
  set (q := n / m) in *. set (r := n mod m) in *. clearbody q r. assert (Hn : n - q * m = r) by lia. assert (Hn' : n - (q + 1) * m = r - m) by lia.
  destruct (m <? 2 * r) eqn:E1; cbn [orb]; [rewrite Hn'; split; [lia|]; intros; lia|]. destruct (2 * r =? m) eqn:E2; cbn [andb].
  - destruct (Z.odd q) eqn:Eo.
    + rewrite Hn'. split; [lia|]. intros _. by rewrite Z.add_1_r, Z.even_succ.
    + rewrite Hn. split; [lia|]. intros _. by rewrite <- Z.negb_odd, Eo.
  - rewrite Hn. split; [lia|]. lia.
Qed.

Lemma rne_bounds n m a b : 0 < m -> a * m <= n -> n < b * m -> a <= rne n m <= b.
Proof. intros Hm Ha Hb. destruct (rne_spec n m Hm) as [H _]. split; nia. Qed.

(** The rounding is decided by the half units around the quotient. *)
Lemma rne_half n m h : 0 < m -> h * m < 2 * n < (h + 1) * m -> rne n m = (h + 1) / 2.
Proof.
  intros Hm Hh. destruct (rne_spec n m Hm) as [H He]. pose proof (Z.div_mod (h + 1) 2 ltac:(lia)). pose proof (Z.mod_pos_bound (h + 1) 2 ltac:(lia)).
  set (q := (h + 1) / 2) in *. set (r := rne n m) in *. clearbody q r. assert (-1 < h - 2 * r + 1 < 2 \/ 2 * Z.abs (n - r * m) = m) by nia. nia.
Qed.

Lemma pow_pos k : 0 <= k -> 0 < 2 ^ k.
Proof. intros. apply Z.pow_pos_nonneg; lia. Qed.

(** *** Nearest *)

(** Only the quotient matters. *)
Lemma nearest_ratio P N D N' D' v : 0 < D -> 0 < D' -> N * D' = N' * D -> nearest P N D v -> nearest P N' D' v.
Proof.
  intros HD HD' Heq [Hv Hn]. split; [done|]. intros u Hu. destruct (Hn u Hu) as [H1 H2].
  assert (Hsc : forall x, Z.abs (N - x * D) * D' = Z.abs (N' - x * D') * D).
  { intros x. rewrite <- (Z.abs_eq D') at 1 by lia. rewrite <- (Z.abs_eq D) at 2 by lia. rewrite <- !Z.abs_mul. f_equal. lia. }
  pose proof (Hsc v) as Sv. pose proof (Hsc u) as Su. split; [nia|]. intros E. apply H2. nia.
Qed.

Lemma representable_multiple P q k : 1 <= P -> 0 <= q <= 2 ^ P -> 0 <= k -> representable P (q * 2 ^ k).
Proof.
  intros HP Hq Hk. destruct (decide (q = 2 ^ P)) as [->|].
  - exists (2 ^ (P - 1)), (k + 1). split; [split; [apply Z.lt_le_incl, pow_pos; lia|apply Z.pow_lt_mono_r; lia]|]. split; [lia|].
    rewrite <- !Z.pow_add_r by lia. f_equal. lia.
  - exists q, k. split; [lia|]. split; [done|lia].
Qed.

(** The last digit of a rounded quotient. *)
Lemma sig_even_multiple P q k : 2 <= P -> 0 <= q <= 2 ^ P -> 0 <= k -> (2 ^ (P - 1) <= q \/ k = 0) -> Z.even q = true -> sig_even P (q * 2 ^ k).
Proof.
  intros HP Hq Hk Hn He. unfold sig_even, quantum. pose proof (pow_pos k Hk) as Hpk. pose proof (pow_pos (P - 1) ltac:(lia)) as Hpp.
  assert (HP2 : 2 ^ P = 2 * 2 ^ (P - 1)) by (rewrite <- Z.pow_succ_r by lia; f_equal; lia).
  destruct (decide (q = 2 ^ P)) as [->|Hne].
  - rewrite <- Z.pow_add_r, Z.log2_pow2 by lia. replace (Z.max 0 (P + k - (P - 1))) with (k + 1) by lia.
    replace (P + k) with (P - 1 + (k + 1)) by lia. rewrite Z.pow_add_r, Z.div_mul by (pose proof (pow_pos (k + 1)); lia).
    replace (P - 1) with (Z.succ (P - 2)) by lia. rewrite Z.pow_succ_r, Z.even_mul by lia. done.
  - destruct (decide (q < 2 ^ (P - 1))) as [Hlt|Hge].
    + destruct Hn as [Hn|Hn]; [lia|subst k]. rewrite Z.mul_1_r. destruct (decide (q = 0)) as [->|]; [done|].
      assert (Z.log2 q < P - 1) by (apply Z.log2_lt_pow2; lia). rewrite Z.max_l by lia. by rewrite Z.div_1_r.
    + assert (Hlog : Z.log2 (q * 2 ^ k) = P - 1 + k).
      { rewrite Z.log2_mul_pow2 by lia. enough (Z.log2 q = P - 1) by lia. apply Z.log2_unique; [lia|]. replace (Z.succ (P - 1)) with P by lia. lia. }
      rewrite Hlog. replace (Z.max 0 (P - 1 + k - (P - 1))) with k by lia. by rewrite Z.div_mul by lia.
Qed.

(** The rounded quotient against every other number: closer, or a tie with an even digit. *)
Lemma rne_closest P N D k u : 2 <= P -> 0 < D -> 0 <= k -> 0 <= N -> N < 2 ^ P * (D * 2 ^ k) -> 2 ^ (P - 1) * (D * 2 ^ k) <= N \/ k = 0 ->
  representable P u -> let q := rne N (D * 2 ^ k) in let v := q * 2 ^ k in
  u = v \/ Z.abs (N - v * D) < Z.abs (N - u * D) \/
  (2 * Z.abs (N - v * D) = D * 2 ^ k /\ Z.abs (N - v * D) = Z.abs (N - u * D) /\ Z.even q = true).
Proof.
  intros HP HD Hk HN Hhi Hlo (m & j & Hm & Hj & ->) q v. pose proof (pow_pos k Hk) as Hpk. set (M := D * 2 ^ k) in *. assert (HM : 0 < M) by (subst M; nia).
  destruct (rne_spec N M HM) as [Hq He]. fold q in Hq, He. assert (HqM : v * D = q * M) by (subst M v; lia). rewrite HqM.
  assert (Hmult : forall t, t = q \/ Z.abs (N - q * M) < Z.abs (N - t * M) \/ (2 * Z.abs (N - q * M) = M /\ Z.abs (N - q * M) = Z.abs (N - t * M) /\ Z.even q = true)).
  { intros t. destruct (decide (t = q)) as [|Hne]; [by left|right]. assert (M <= Z.abs (t * M - q * M)) by (rewrite <- Z.mul_sub_distr_r, Z.abs_mul, (Z.abs_eq M) by lia; nia).
    destruct (decide (2 * Z.abs (N - q * M) = M)) as [Ht|Ht]; [|left; lia]. destruct (decide (Z.abs (N - q * M) < Z.abs (N - t * M))); [by left|right]. split_and!; [done|lia|auto]. }
  destruct (Z.le_gt_cases k j) as [Hkj|Hkj].
  - assert (Hj2 : m * 2 ^ j = m * 2 ^ (j - k) * 2 ^ k) by (rewrite <- Z.mul_assoc, <- Z.pow_add_r by lia; do 2 f_equal; lia). rewrite Hj2.
    replace (m * 2 ^ (j - k) * 2 ^ k * D) with (m * 2 ^ (j - k) * M) by (subst M; lia). destruct (Hmult (m * 2 ^ (j - k))) as [Ht|Ht]; [left; by rewrite Ht|by right].
  - destruct Hlo as [Hlo|]; [|lia]. right. left. assert (Hu : m * 2 ^ j < 2 ^ (P - 1) * 2 ^ k).
    { apply Z.lt_le_trans with (2 ^ P * 2 ^ j); [apply Z.mul_lt_mono_pos_r; [apply pow_pos|]; lia|]. rewrite <- !Z.pow_add_r by lia. apply Z.pow_le_mono_r; lia. }
    assert (m * 2 ^ j * D < 2 ^ (P - 1) * M) by (subst M; nia). destruct (Hmult (2 ^ (P - 1))) as [Ht|[Ht|(_ & Ht & _)]]; [rewrite <- Ht|..]; lia.
Qed.

(** The main lemma: [k] is the place of the last digit. *)
Lemma rne_nearest P N D k : 2 <= P -> 0 < D -> 0 <= k -> 0 <= N -> N < 2 ^ P * (D * 2 ^ k) -> 2 ^ (P - 1) * (D * 2 ^ k) <= N \/ k = 0 ->
  nearest P N D (rne N (D * 2 ^ k) * 2 ^ k).
Proof.
  intros HP HD Hk HN Hhi Hlo. pose proof (pow_pos k Hk) as Hpk. assert (HM : 0 < D * 2 ^ k) by nia.
  pose proof (rne_bounds N _ 0 (2 ^ P) HM ltac:(lia) Hhi) as Hq. split; [apply representable_multiple; lia|]. intros u Hu.
  destruct (rne_closest P N D k u HP HD Hk HN Hhi Hlo Hu) as [->|[H|(_ & H & He)]]; [split; [lia|]; by left|split; lia|].
  split; [lia|]. intros _. right. apply sig_even_multiple; try lia. destruct Hlo as [Hlo|]; [left|by right]. by apply (rne_bounds N (D * 2 ^ k) _ (2 ^ P)).
Qed.

(** Without a tie there is one nearest number. *)
Lemma rne_unique P N D k v : 2 <= P -> 0 < D -> 0 <= k -> 0 <= N -> N < 2 ^ P * (D * 2 ^ k) -> 2 ^ (P - 1) * (D * 2 ^ k) <= N \/ k = 0 ->
  2 * Z.abs (N - rne N (D * 2 ^ k) * 2 ^ k * D) <> D * 2 ^ k -> nearest P N D v -> v = rne N (D * 2 ^ k) * 2 ^ k.
Proof.
  intros HP HD Hk HN Hhi Hlo Hno [Hv Hn]. destruct (rne_closest P N D k v HP HD Hk HN Hhi Hlo Hv) as [|[H|(H & _)]]; [done| |done].
  destruct (rne_nearest P N D k HP HD Hk HN Hhi Hlo) as [Hr _]. destruct (Hn _ Hr) as [Hle _]. lia.
Qed.

(** *** Existence, order, exactness *)

(** Every fraction has a place for its last digit. *)
Lemma place_exists P N D : 2 <= P -> 0 < D -> 0 <= N ->
  exists k, 0 <= k /\ N < 2 ^ P * (D * 2 ^ k) /\ (2 ^ (P - 1) * (D * 2 ^ k) <= N \/ k = 0).
Proof.
  intros HP HD HN. pose proof (Z.div_mod N D ltac:(lia)) as Hdm. pose proof (Z.mod_pos_bound N D HD) as Hr. set (t := N / D) in *.
  assert (Ht : 0 <= t) by (by apply Z.div_pos; lia). set (k := Z.max 0 (Z.log2 t - (P - 1))). exists k.
  assert (Hk : 0 <= k) by lia. pose proof (pow_pos k Hk). assert (HPk : 2 ^ P * 2 ^ k = 2 ^ (P + k)) by (by rewrite Z.pow_add_r by lia).
  assert (Hlt : t < 2 ^ (P + k)).
  { destruct (decide (t = 0)) as [->|]; [apply pow_pos; lia|]. apply Z.log2_lt_pow2; lia. }
  split; [done|]. split; [nia|]. destruct (decide (k = 0)) as [|Hk0]; [by right|left].
  assert (Hge : 2 ^ (P - 1 + k) <= t) by (replace (P - 1 + k) with (Z.log2 t) by lia; apply Z.log2_spec; destruct (decide (t = 0)) as [E|]; [subst k; rewrite E in *; cbn in *; lia|lia]).
  rewrite Z.pow_add_r in Hge by lia. nia.
Qed.

Lemma nearest_exists P N D : 2 <= P -> 0 < D -> 0 <= N -> exists v, nearest P N D v.
Proof. intros HP HD HN. destruct (place_exists P N D HP HD HN) as (k & Hk & Hhi & Hlo). eexists. by apply rne_nearest. Qed.

Lemma nearest_nonneg P N D v : nearest P N D v -> 0 <= v.
Proof. intros [(m & k & Hm & Hk & ->) _]. pose proof (pow_pos k Hk). nia. Qed.

Lemma nearest_ge P N D v T : 0 < D -> representable P T -> T * D <= N -> nearest P N D v -> T <= v.
Proof.
  intros HD HT Hle [_ Hn]. destruct (Hn T HT) as [H _]. destruct (Z.le_gt_cases T v) as [|Hlt]; [done|]. assert (v * D < T * D) by nia. lia.
Qed.

Lemma nearest_zero P N D : 2 <= P -> 0 < D -> 0 <= N -> 2 * N < D -> nearest P N D 0.
Proof.
  intros HP HD HN Hlt. assert (Hr : rne N (D * 2 ^ 0) = 0).
  { rewrite Z.mul_1_r. unfold rne. rewrite Z.div_small, Z.mod_small by lia. cbv zeta. replace (_ || _) with false by lia. done. }
  pose proof (rne_nearest P N D 0 HP HD ltac:(lia) HN) as H. rewrite Hr in H. apply H; [|by right].
  assert (2 ^ 1 <= 2 ^ P) by (apply Z.pow_le_mono_r; lia). rewrite Z.mul_1_r. nia.
Qed.

Lemma nearest_tiny P N D v : 2 <= P -> 0 < D -> 0 <= N -> 2 * N < D -> nearest P N D v -> v = 0.
Proof.
  intros HP HD HN Hlt Hv. pose proof (nearest_nonneg P N D v Hv) as Hv0. destruct Hv as [_ Hn].
  destruct (Hn 0) as [H _]; [exists 0, 0; split; [split; [lia|apply pow_pos; lia]|lia]|]. nia.
Qed.

Lemma nearest_exact P v D w : 0 < D -> representable P v -> nearest P (v * D) D w -> w = v.
Proof. intros HD Hv [_ Hn]. destruct (Hn v Hv) as [H _]. nia. Qed.

(** *** A tail that cannot be seen

    If no half unit of the place [k] lies strictly between [a / D] and
    [b / D], all fractions strictly between them round alike. *)

Lemma half_units a b D k : 0 < D -> 0 <= k -> (forall t, ~ (2 * a < t * (D * 2 ^ k) < 2 * b)) ->
  exists h, forall n d, 0 < d -> a * d < n * D < b * d -> h * (d * 2 ^ k) < 2 * n < (h + 1) * (d * 2 ^ k).
Proof.
  intros HD Hk Hno. pose proof (pow_pos k Hk) as Hpk. set (M := D * 2 ^ k) in *. assert (HM : 0 < M) by (subst M; nia). exists (2 * a / M).
  set (h := 2 * a / M). assert (Hh : h * M <= 2 * a < (h + 1) * M) by (pose proof (Z.div_mod (2 * a) M ltac:(lia)); pose proof (Z.mod_pos_bound (2 * a) M HM); subst h; nia).
  assert (Hb : 2 * b <= (h + 1) * M) by (destruct (Z.le_gt_cases (2 * b) ((h + 1) * M)) as [|Hgt]; [done|]; exfalso; apply (Hno (h + 1)); lia).
  clearbody h. assert (HMD : M = D * 2 ^ k) by done. clearbody M. intros n d Hd Hn.
  assert (H1 : h * M * d < 2 * n * D) by nia. assert (H2 : 2 * n * D < (h + 1) * M * d) by nia.
  subst M. split; apply (Z.mul_lt_mono_pos_r D); [done|lia|done|lia].
Qed.

Lemma no_tie n m q h : 0 < m -> h * m < 2 * n < (h + 1) * m -> 2 * Z.abs (n - q * m) <> m.
Proof.
  intros Hm Hh E. assert (En : 2 * n = (2 * q + 1) * m \/ 2 * n = (2 * q - 1) * m) by lia.
  destruct En as [En|En]; rewrite En in Hh; destruct Hh as [H1 H2]; apply Z.mul_lt_mono_pos_r in H1, H2; lia.
Qed.

Lemma nearest_between P a b D N D1 N' D1' k v : 2 <= P -> 0 < D -> 0 < D1 -> 0 < D1' -> 0 <= k -> 0 <= a ->
  a * D1 < N * D < b * D1 -> a * D1' < N' * D < b * D1' -> (forall t, ~ (2 * a < t * (D * 2 ^ k) < 2 * b)) ->
  N' < 2 ^ P * (D1' * 2 ^ k) -> 2 ^ (P - 1) * (D1' * 2 ^ k) <= N' \/ k = 0 -> nearest P N' D1' v -> nearest P N D1 v.
Proof.
  intros HP HD HD1 HD1' Hk Ha HN HN' Hno Hhi Hlo Hv. destruct (half_units a b D k HD Hk Hno) as [h Hh]. pose proof (Hh N D1 HD1 HN) as H1. pose proof (Hh N' D1' HD1' HN') as H2.
  pose proof (pow_pos k Hk) as Hpk. assert (HM : 0 < D1 * 2 ^ k) by nia. assert (HM' : 0 < D1' * 2 ^ k) by nia.
  assert (HP2 : 2 ^ P = 2 * 2 ^ (P - 1)) by (rewrite <- Z.pow_succ_r by lia; f_equal; lia). assert (HN0 : 0 <= N) by nia. assert (HN0' : 0 <= N') by nia.
  assert (Ev : v = rne N' (D1' * 2 ^ k) * 2 ^ k).
  { apply (rne_unique P N' D1'); try done. rewrite <- Z.mul_assoc, (Z.mul_comm (2 ^ k)). by apply (no_tie _ _ _ h). }
  rewrite Ev, (rne_half N' (D1' * 2 ^ k) h), <- (rne_half N (D1 * 2 ^ k) h) by done. apply rne_nearest; try done.
  - assert (h < 2 * 2 ^ P) by nia. nia.
  - destruct Hlo as [Hlo|]; [left|by right]. assert (2 ^ P <= h) by nia. nia.
Qed.
