(* ===== verification/Strtod.v ===== *)
(** * strtod and strtof (lib/moqi_libc/src/strtod.c)

    The text is a list of bytes without its NUL, a pointer into it the rest of
    the list.  Doubles and floats are their bit patterns, so the unions that
    move the pattern into a floating-point value are the identity.  [None]
    stands for the internal 0 of a capacity overflow. *)

From S2P Require Import Prelude Mem Digits FpFmt NumConv Big.

(** ** Rounding *)

Record fmt := mkFmt { mant_bits : Z; emin : Z; emax : Z }.
Definition DOUBLE_FMT : fmt := mkFmt 53 (-1022) 1023.
Definition FLOAT_FMT : fmt := mkFmt 24 (-126) 127.

Record rounded := mkRounded { r_sig : Z; r_exp2 : Z; r_is_inf : bool; r_inexact : bool; r_underflow : bool }.
Definition rounded0 : rounded := mkRounded 0 0 false false false.

(** [num / den] scaled to [2^(P-1), 2^P), up to the off-by-one of the bit lengths. *)
Definition scale_ratio (num den : big) (e2 P : Z) : option (big * big * Z) :=
  let lg := big_bitlen num - big_bitlen den in
  let shift := (P - 1) - lg in
  num ← (if 0 <? shift then big_shl num shift else Some num);
  den ← (if shift <? 0 then big_shl den (- shift) else Some den);
  let e2 := e2 - shift in
  lim ← big_shl den P;
  '(den, e2) ← (if 0 <=? big_cmp num lim then den ← big_shl den 1; Some (den, e2 + 1) else Some (den, e2));
  lo ← big_shl den (P - 1);
  if big_cmp num lo <? 0 then num ← big_shl num 1; Some (num, den, e2 - 1) else Some (num, den, e2).

(** Quotient and remainder; whether the quotient is to be rounded up. *)
Definition round_up_of (q : Z) (rem den : big) : option bool :=
  if big_is_zero rem then Some false else
  twice ← big_shl rem 1;
  let c := big_cmp twice den in
  Some ((0 <? c) || ((c =? 0) && Z.odd q)).

(** Tininess after rounding to full precision. *)
Definition below_normal (num den : big) (e2 P min_e2 : Z) : option bool :=
  let '(q0, n0) := big_divrem_small_quot num den in
  up ← round_up_of q0 n0 den;
  let q0 := if (up : bool) then u64 (q0 + 1) else q0 in
  let e0 := if negb (Z.shiftr q0 P =? 0) then e2 + 1 else e2 in
  Some (e0 <? min_e2).

Definition round_ratio (num den : big) (e2 : Z) (f : fmt) : option rounded :=
  let P := mant_bits f in
  '(num, den, e2) ← scale_ratio num den e2 P;
  let min_e2 := emin f - (P - 1) in
  below ← below_normal num den e2 P min_e2;
  let '(extra, e2) := if e2 <? min_e2 then (min_e2 - e2, min_e2) else (0, e2) in
  let extra := if P + 2 <? extra then P + 2 else extra in
  den ← (if negb (extra =? 0) then big_shl den extra else Some den);
  let '(q, rem) := big_divrem_small_quot num den in
  let inexact := negb (big_is_zero rem) in
  up ← round_up_of q rem den;
  let q := if (up : bool) then u64 (q + 1) else q in
  let '(q, e2) := if negb (Z.shiftr q P =? 0) then (Z.shiftr q 1, e2 + 1) else (q, e2) in
  if q =? 0 then Some (mkRounded 0 0 false inexact true)
  else if emax f <? e2 + P - 1 then Some (mkRounded 0 0 true inexact false)
  else Some (mkRounded q e2 false inexact (inexact && below)).

(** ** Parsing *)

Definition lower_c (c : Z) : Z := if (chr "A" <=? c) && (c <=? chr "Z") then c + 32 else c.

Definition hexval (c : Z) : Z :=
  if (chr "0" <=? c) && (c <=? chr "9") then c - chr "0"
  else let c := lower_c c in if (chr "a" <=? c) && (c <=? chr "f") then c - chr "a" + 10 else -1.

Fixpoint match_word (s w : list Z) : bool :=
  match w with
  | [] => true
  | c :: w => (lower_c (peek s) =? c) && match_word (tail s) w
  end.

Inductive kind := KNone | KZero | KFinite | KInf | KNan.

Record parsed := mkParsed {
  pr_kind : kind; pr_neg : bool; pr_hex : bool; pr_digits : list Z; pr_exp10 : Z;
  pr_hsig : Z; pr_exp2 : Z; pr_sticky : bool; pr_payload : Z; pr_end : list Z }.

Definition MAX_DIG : Z := 800.

Definition add_exp (a b : Z) : Z :=
  let r := i64 (a + b) in
  if (0 <? b) && (r <? a) then 0x7fffffffffff
  else if (b <? 0) && (a <? r) then - 0x7fffffffffff
  else r.

Definition is_digit_c (c : Z) : bool := (chr "0" <=? c) && (c <=? chr "9").
Definition is_alnum_c (c : Z) : bool :=
  is_digit_c c || ((chr "a" <=? c) && (c <=? chr "z")) || ((chr "A" <=? c) && (c <=? chr "Z")) || (c =? chr "_").

(** nan(...): the rest behind the sequence, and the value of its characters. *)
Fixpoint skip_alnum (r : list Z) : list Z :=
  match r with [] => [] | c :: r' => if is_alnum_c c then skip_alnum r' else r end.

Fixpoint payload_loop (n : nat) (d : list Z) (base v : Z) : Z :=
  match n with
  | 0%nat => v
  | S n =>
      let dv := hexval (peek d) in
      if (dv <? 0) || (base <=? dv) then 0
      else payload_loop n (tail d) base (if (SIZE_MAX - dv) / base <? v then SIZE_MAX else v * base + dv)
  end.

Definition nan_payload (d r : list Z) : Z :=
  let '(base, d) :=
    if (peek d =? chr "0") && ((peek_at d 1 =? chr "x") || (peek_at d 1 =? chr "X")) then (16, drop 2 d)
    else if peek d =? chr "0" then (8, d) else (10, d) in
  payload_loop (length d - length r) d base 0.

(** The payload and the end of the number, behind the word nan. *)
Definition nan_tail (q : list Z) : Z * list Z :=
  if peek q =? chr "(" then
    let r := skip_alnum (tail q) in
    if peek r =? chr ")" then (nan_payload (tail q) r, tail r) else (0, q)
  else (0, q).

(** An exponent behind its letter: [None] when there is none. *)
Fixpoint exp_loop (r : list Z) (ev : Z) : Z * list Z :=
  match r with
  | c :: r' => if is_digit_c c then exp_loop r' (if ev <? 100000000 then ev * 10 + (c - chr "0") else ev) else (ev, r)
  | [] => (ev, [])
  end.

Definition parse_exp (r : list Z) : option (Z * list Z) :=
  let '(eneg, r) :=
    if (peek r =? chr "+") || (peek r =? chr "-") then (peek r =? chr "-", tail r) else (false, r) in
  if is_digit_c (peek r) then let '(ev, r) := exp_loop r 0 in Some (if (eneg : bool) then - ev else ev, r) else None.

Record hexst := mkHex { hx_have : bool; hx_dot : bool; hx_nz : bool; hx_sticky : bool; hx_exp : Z; hx_sig : Z }.

(** One hexadecimal digit. *)
Definition hex_digit (hv : Z) (h : hexst) : hexst :=
  let down := if hx_dot h then add_exp (hx_exp h) (-4) else hx_exp h in
  if negb (hx_nz h) && (hv =? 0) then mkHex true (hx_dot h) (hx_nz h) (hx_sticky h) down (hx_sig h)
  else
    let nz := hx_nz h || negb (hv =? 0) in
    if Z.shiftr (hx_sig h) 60 =? 0 then mkHex true (hx_dot h) nz (hx_sticky h) down (Z.lor (u64 (Z.shiftl (hx_sig h) 4)) hv)
    else mkHex true (hx_dot h) nz (hx_sticky h || negb (hv =? 0)) (if hx_dot h then hx_exp h else add_exp (hx_exp h) 4) (hx_sig h).

Fixpoint hex_loop (q : list Z) (h : hexst) : hexst * list Z :=
  match q with
  | [] => (h, [])
  | c :: q' =>
      let hv := hexval c in
      if 0 <=? hv then hex_loop q' (hex_digit hv h)
      else if (c =? chr ".") && negb (hx_dot h) then hex_loop q' (mkHex (hx_have h) true (hx_nz h) (hx_sticky h) (hx_exp h) (hx_sig h))
      else (h, q)
  end.

Definition parse_hex (neg : bool) (p : list Z) : parsed :=
  let '(h, q) := hex_loop (drop 2 p) (mkHex false false false false 0 0) in
  if hx_have h then
    let '(pe, last_good) :=
      if (peek q =? chr "p") || (peek q =? chr "P") then default (0, q) (parse_exp (tail q)) else (0, q) in
    if negb (hx_nz h) then mkParsed KZero neg true [] 0 0 0 false 0 last_good
    else mkParsed KFinite neg true [] 0 (hx_sig h) (add_exp (hx_exp h) pe) (hx_sticky h) 0 last_good
  else mkParsed KZero neg false [] 0 0 0 false 0 (tail p).

Record decst := mkDecst { dc_have : bool; dc_dot : bool; dc_nz : bool; dc_dropped : bool; dc_exp : Z; dc_dig : list Z }.

Definition dec_digit (dv : Z) (h : decst) : decst :=
  let down := if dc_dot h then add_exp (dc_exp h) (-1) else dc_exp h in
  if negb (dc_nz h) && (dv =? 0) then mkDecst true (dc_dot h) (dc_nz h) (dc_dropped h) down (dc_dig h)
  else if len (dc_dig h) <? MAX_DIG then mkDecst true (dc_dot h) true (dc_dropped h) down (dc_dig h ++ [dv])
  else mkDecst true (dc_dot h) true (dc_dropped h || negb (dv =? 0)) (if dc_dot h then dc_exp h else add_exp (dc_exp h) 1) (dc_dig h).

Fixpoint dec_loop (q : list Z) (h : decst) : decst * list Z :=
  match q with
  | [] => (h, [])
  | c :: q' =>
      if is_digit_c c then dec_loop q' (dec_digit (c - chr "0") h)
      else if (c =? chr ".") && negb (dc_dot h) then dec_loop q' (mkDecst (dc_have h) true (dc_nz h) (dc_dropped h) (dc_exp h) (dc_dig h))
      else (h, q)
  end.

Definition parse_dec (neg : bool) (s p : list Z) : parsed :=
  let '(h, q) := dec_loop p (mkDecst false false false false 0 []) in
  if negb (dc_have h) then mkParsed KNone neg false [] 0 0 0 false 0 s
  else
    let '(exp10, end_) :=
      if (peek q =? chr "e") || (peek q =? chr "E")
      then match parse_exp (tail q) with Some (ev, r) => (add_exp (dc_exp h) ev, r) | None => (dc_exp h, q) end
      else (dc_exp h, q) in
    if negb (dc_nz h) then mkParsed KZero neg false [] 0 0 0 false 0 end_
    else mkParsed KFinite neg false (dc_dig h) exp10 0 0 (dc_dropped h) 0 end_.

Definition parse (s : list Z) : parsed :=
  let '(neg, p) := take_sign (skip_spaces s) in
  if match_word p (str "infinity") then mkParsed KInf neg false [] 0 0 0 false 0 (drop 8 p)
  else if match_word p (str "inf") then mkParsed KInf neg false [] 0 0 0 false 0 (drop 3 p)
  else if match_word p (str "nan") then let '(v, e) := nan_tail (drop 3 p) in mkParsed KNan neg false [] 0 0 0 false v e
  else if (peek p =? chr "0") && ((peek_at p 1 =? chr "x") || (peek_at p 1 =? chr "X")) then parse_hex neg p
  else parse_dec neg s p.

(** ** From a parse to bits *)

Inductive conv := SaturateInf | SaturateZero | Rounded (r : rounded).

Fixpoint digits_num (ds : list Z) (num : big) : option big :=
  match ds with
  | [] => Some num
  | d :: ds => num ← big_muladd num 10 d; digits_num ds num
  end.

Definition convert_hex (pr : parsed) (f : fmt) : option conv :=
  let num := big_set_u64 (pr_hsig pr) in
  let den := big_set_u64 1 in
  '(num, ex) ← (if pr_sticky pr then num ← big_shl num 1; num ← big_muladd num 1 1; Some (num, pr_exp2 pr - 1) else Some (num, pr_exp2 pr));
  if 100000 <? ex then Some SaturateInf
  else if ex <? -100000 then Some SaturateZero
  else r ← round_ratio num den ex f; Some (Rounded r).

Definition convert_dec (pr : parsed) (f : fmt) : option conv :=
  num ← digits_num (pr_digits pr) [];
  '(num, e10) ← (if pr_sticky pr then num ← big_muladd num 10 1; Some (num, pr_exp10 pr - 1) else Some (num, pr_exp10 pr));
  let mag := len (pr_digits pr) + e10 in
  if 400 <? mag then Some SaturateInf
  else if mag <? -400 then Some SaturateZero
  else
    let den := big_set_u64 1 in
    '(num, den) ← (if 0 <=? e10 then p10 ← big_pow10 e10; num ← big_mul num p10; Some (num, den)
                   else den ← big_pow10 (- e10); Some (num, den));
    r ← round_ratio num den 0 f; Some (Rounded r).

Definition convert (pr : parsed) (f : fmt) : option conv := if pr_hex pr then convert_hex pr f else convert_dec pr f.

Definition assemble_double (r : rounded) (neg : bool) (payload : Z) (k : kind) : Z :=
  let sign := if neg then 2 ^ 63 else 0 in
  match k with
  | KInf => Z.lor sign 0x7ff0000000000000
  | KNan => Z.lor (Z.lor sign 0x7ff8000000000000) (Z.land payload 0x000fffffffffffff)
  | _ =>
      if r_is_inf r then Z.lor sign 0x7ff0000000000000
      else if r_sig r =? 0 then sign
      else if negb (Z.shiftr (r_sig r) 52 =? 0)
      then Z.lor (Z.lor sign (u64 (Z.shiftl (u64 (r_exp2 r + 52 + 1023)) 52))) (Z.land (r_sig r) 0x000fffffffffffff)
      else Z.lor sign (r_sig r)
  end.

Definition assemble_float (r : rounded) (neg : bool) (payload : Z) (k : kind) : Z :=
  let sign := if neg then 0x80000000 else 0 in
  match k with
  | KInf => Z.lor sign 0x7f800000
  | KNan => Z.lor (Z.lor sign 0x7fc00000) (u32 (Z.land payload 0x003fffff))
  | _ =>
      if r_is_inf r then Z.lor sign 0x7f800000
      else if r_sig r =? 0 then sign
      else
        let sig := u32 (r_sig r) in
        if negb (Z.shiftr sig 23 =? 0)
        then Z.lor (Z.lor sign (u32 (Z.shiftl (u32 (r_exp2 r + 23 + 127)) 23))) (Z.land sig 0x007fffff)
        else Z.lor sign sig
  end.

(** strtod and strtof: the bits, the end pointer and errno. *)
Definition finish (f : fmt) (assemble : rounded -> bool -> Z -> kind -> Z) (err : Z) (s : list Z) (pr : parsed) : Z * list Z * Z :=
  match pr_kind pr with
  | KNone => (0, s, err)
  | KZero => (assemble rounded0 (pr_neg pr) 0 KZero, pr_end pr, err)
  | KInf | KNan => (assemble rounded0 (pr_neg pr) (pr_payload pr) (pr_kind pr), pr_end pr, err)
  | KFinite =>
      match convert pr f with
      | None => (assemble rounded0 (pr_neg pr) 0 KZero, pr_end pr, ERANGE)
      | Some SaturateInf => (assemble (mkRounded 0 0 true false false) (pr_neg pr) 0 KFinite, pr_end pr, ERANGE)
      | Some SaturateZero => (assemble rounded0 (pr_neg pr) 0 KFinite, pr_end pr, ERANGE)
      | Some (Rounded r) => (assemble r (pr_neg pr) 0 KFinite, pr_end pr, if r_is_inf r || r_underflow r then ERANGE else err)
      end
  end.

Definition strtod (err : Z) (s : list Z) : Z * list Z * Z := finish DOUBLE_FMT assemble_double err s (parse s).
Definition strtof (err : Z) (s : list Z) : Z * list Z * Z := finish FLOAT_FMT assemble_float err s (parse s).
Definition atof (err : Z) (s : list Z) : Z := (strtod err s).1.1.
