(* ===== verification/StrtodRound.v ===== *)
(** * round_ratio rounds correctly

    The scaling and division of [round_ratio] against [nearest]: for numbers
    within the capacity it never overflows it, and its result is the nearest
    number of the format, ties to even, or an overflow to infinity. *)

From S2P Require Import Prelude Mem Digits FpFmt FpFmtSpec Big BigSpec Nearest NumConv Strtod.

(** Numbers below [2 ^ CAP] can be shifted by one more limb. *)
Definition CAP : Z := 6100.

Lemma cap_191 x : x < 2 ^ CAP -> x < B32 ^ (BIG_LIMBS - 1).
Proof. intros Hx. rewrite B32_pow by done. apply Z.lt_le_trans with (2 ^ CAP); [done|]. apply Z.pow_le_mono_r; done. Qed.

Lemma shl_ok a v k b : rep a v -> 0 <= k -> 0 <= v < 2 ^ b -> 0 <= b -> b + k <= CAP -> exists r, big_shl a k = Some r /\ rep r (v * 2 ^ k).
Proof.
  intros Ha Hk Hv Hb Hc. apply big_shl_spec; [done|done|]. apply cap_191. pose proof (pow_pos k Hk).
  apply Z.lt_le_trans with (2 ^ b * 2 ^ k); [nia|]. rewrite <- Z.pow_add_r by lia. apply Z.pow_le_mono_r; lia.
Qed.

(** The bit length of a number as a bound from both sides. *)
Lemma bitlen_bounds a v : rep a v -> 0 < v -> 1 <= big_bitlen a /\ 2 ^ (big_bitlen a - 1) <= v < 2 ^ big_bitlen a.
Proof.
  intros Ha Hv. rewrite (big_bitlen_spec a v Ha). replace (v =? 0) with false by lia. pose proof (Z.log2_nonneg v). pose proof (Z.log2_spec v Hv).
  replace (Z.log2 v + 1 - 1) with (Z.log2 v) by lia. rewrite Z.add_1_r. lia.
Qed.

Lemma scale_ratio_spec num den n d e2 P b : rep num n -> rep den d -> 0 < n < 2 ^ b -> 0 < d < 2 ^ b -> 2 <= P -> 0 <= b -> b + P + 1 <= CAP ->
  exists num' den' i j, scale_ratio num den e2 P = Some (num', den', e2 - i + j) /\ rep num' (n * 2 ^ i) /\ rep den' (d * 2 ^ j) /\ 0 <= i /\ 0 <= j /\
    2 ^ (P - 1) * (d * 2 ^ j) <= n * 2 ^ i < 2 ^ P * (d * 2 ^ j) /\ d * 2 ^ j < 2 ^ b.
Proof.
  intros Hn Hd Hnb Hdb HP Hb Hcap. unfold scale_ratio. cbv zeta. destruct (bitlen_bounds num n Hn ltac:(lia)) as [Ha1 Ha2].
  destruct (bitlen_bounds den d Hd ltac:(lia)) as [Hb1 Hb2]. set (la := big_bitlen num) in *. set (lb := big_bitlen den) in *. clearbody la lb.
  assert (Hla : la <= b). { destruct (Z.le_gt_cases la b) as [|Hgt]; [done|]. assert (2 ^ b <= 2 ^ (la - 1)) by (apply Z.pow_le_mono_r; lia). lia. }
  assert (Hlb : lb <= b). { destruct (Z.le_gt_cases lb b) as [|Hgt]; [done|]. assert (2 ^ b <= 2 ^ (lb - 1)) by (apply Z.pow_le_mono_r; lia). lia. }
  set (shift := P - 1 - (la - lb)). set (i := Z.max 0 shift). set (j := Z.max 0 (- shift)).
  assert (Hpi : 0 < 2 ^ i) by (apply pow_pos; lia). assert (Hpj : 0 < 2 ^ j) by (apply pow_pos; lia).
  assert (Hni : 2 ^ (la - 1 + i) <= n * 2 ^ i < 2 ^ (la + i)) by (rewrite !Z.pow_add_r by lia; nia).
  assert (Hdj : 2 ^ (lb - 1 + j) <= d * 2 ^ j < 2 ^ (lb + j)) by (rewrite !Z.pow_add_r by lia; nia).
  assert (Hij : la + i = lb + j + P - 1) by lia. assert (Hbj : lb + j <= b \/ P + lb + j - 1 <= b) by lia.
  assert (Hs1 : exists num', (if 0 <? shift then big_shl num shift else Some num) = Some num' /\ rep num' (n * 2 ^ i)).
  { destruct (0 <? shift) eqn:E; [replace i with shift by lia; apply (shl_ok num n shift la); lia || done|]. exists num. replace i with 0 by lia. by rewrite Z.mul_1_r. }
  assert (Hs2 : exists den', (if shift <? 0 then big_shl den (- shift) else Some den) = Some den' /\ rep den' (d * 2 ^ j)).
  { destruct (shift <? 0) eqn:E; [replace j with (- shift) by lia; apply (shl_ok den d (- shift) lb); lia || done|]. exists den. replace j with 0 by lia. by rewrite Z.mul_1_r. }
  destruct Hs1 as (num' & -> & Hn'), Hs2 as (den' & -> & Hd'). obind.
  assert (Hup : n * 2 ^ i < 2 ^ P * (d * 2 ^ j)).
  { apply Z.lt_le_trans with (2 ^ (la + i)); [lia|]. rewrite Hij. replace (lb + j + P - 1) with (P + (lb - 1 + j)) by lia. rewrite Z.pow_add_r by lia.
    apply Z.mul_le_mono_nonneg_l; [apply Z.lt_le_incl, pow_pos; lia|lia]. }
  assert (Hlow : 2 ^ (P - 2) * (d * 2 ^ j) < n * 2 ^ i).
  { apply Z.lt_le_trans with (2 ^ (P - 2) * 2 ^ (lb + j)); [apply Z.mul_lt_mono_pos_l; [apply pow_pos|]; lia|].
    rewrite <- Z.pow_add_r by lia. replace (P - 2 + (lb + j)) with (la - 1 + i) by lia. lia. }
  destruct (shl_ok den' _ P (lb + j) Hd' ltac:(lia) ltac:(lia) ltac:(lia) ltac:(lia)) as (lim & -> & Hlim). obind.
  rewrite (big_cmp_spec num' lim _ _ Hn' Hlim). replace (_ <? _) with true by lia. cbn [Z.leb Z.compare]. obind.
  destruct (shl_ok den' _ (P - 1) (lb + j) Hd' ltac:(lia) ltac:(lia) ltac:(lia) ltac:(lia)) as (lo & -> & Hlo). obind.
  rewrite (big_cmp_spec num' lo _ _ Hn' Hlo).
  assert (HP1 : 2 ^ P = 2 * 2 ^ (P - 1)) by (rewrite <- Z.pow_succ_r by lia; f_equal; lia). assert (HP2 : 2 ^ (P - 1) = 2 * 2 ^ (P - 2)) by (rewrite <- Z.pow_succ_r by lia; f_equal; lia).
  assert (Hdb' : d * 2 ^ j < 2 ^ b) by (apply Z.lt_le_trans with (2 ^ (lb + j)); [lia|apply Z.pow_le_mono_r; lia]).
  destruct (n * 2 ^ i <? d * 2 ^ j * 2 ^ (P - 1)) eqn:E.
  - cbn [Z.ltb Z.compare]. destruct (shl_ok num' _ 1 (la + i) Hn' ltac:(lia) ltac:(nia) ltac:(lia) ltac:(lia)) as (num2 & -> & Hn2). obind.
    exists num2, den', (i + 1), j. rewrite Z.pow_add_r by lia. change (2 ^ 1) with 2 in *. split_and!; try done; try lia.
    + do 2 f_equal. lia.
    + by replace (n * (2 ^ i * 2)) with (n * 2 ^ i * 2) by lia.
  - replace (_ <? 0) with false by (destruct (_ =? _); done). exists num', den', i, j. split_and!; try done; try lia. do 2 f_equal. lia.
Qed.

Lemma div_round_spec num den n d b : rep num n -> rep den d -> 0 < d -> 0 <= n < 2 ^ 60 * d -> n < 2 ^ b -> d < 2 ^ b -> 0 <= b -> b + 1 <= CAP ->
  exists rem up, big_divrem_small_quot num den = (n / d, rem) /\ rep rem (n mod d) /\
    round_up_of (n / d) rem den = Some up /\ (if up then u64 (n / d + 1) else n / d) = rne n d.
Proof.
  intros Hn Hd Hd0 Hnd Hnb Hdb Hb Hcap. assert (Hq : 0 <= n / d < 2 ^ 60) by (split; [apply Z.div_pos; lia|apply Z.div_lt_upper_bound; lia]).
  pose proof (Z.mod_pos_bound n d Hd0) as Hr. destruct (big_divrem_spec num den n d Hn Hd Hd0 ltac:(lia)) as (rem & -> & Hrem).
  { apply cap_191. apply Z.lt_le_trans with (2 ^ (b + 1)); [rewrite Z.pow_add_r by lia; lia|apply Z.pow_le_mono_r; lia]. }
  exists rem. unfold round_up_of. rewrite (big_is_zero_spec rem _ Hrem). unfold rne. destruct (n mod d =? 0) eqn:E0.
  - exists false. split_and!; [done|done|done|]. cbv zeta. replace (_ || _) with false by lia. done.
  - destruct (shl_ok rem _ 1 b Hrem ltac:(lia) ltac:(lia) Hb ltac:(lia)) as (tw & -> & Htw). obind. rewrite (big_cmp_spec tw den _ _ Htw Hd). change (2 ^ 1) with 2 in *.
    eexists. split; [done|]. split; [done|]. split; [reflexivity|]. cbv zeta. rewrite u64_small by lia. rewrite (Z.mul_comm (n mod d) 2).
    destruct (2 * (n mod d) <? d) eqn:E1; [cbn [Z.ltb Z.eqb Z.compare orb andb]; replace (_ || _) with false by lia; done|].
    destruct (2 * (n mod d) =? d) eqn:E2; [cbn [Z.ltb Z.eqb Z.compare orb andb]; replace (d <? _) with false by lia; done|].
    cbn [Z.ltb Z.eqb Z.compare orb andb]. replace (d <? _) with true by lia. done.
Qed.

(** *** The format *)

(** The unit: the exponent of the smallest subnormal. *)
Definition unit_exp (f : fmt) : Z := emin f - (mant_bits f - 1).

Definition fmt_ok (f : fmt) : Prop := 2 <= mant_bits f <= 59 /\ emin f <= emax f.

(** What [round_ratio] gives for the nearest number [v] (in units). *)
Definition rounded_as (f : fmt) (v : Z) (r : rounded) : Prop :=
  (r_is_inf r = true <-> v <> 0 /\ emax f < Z.log2 v + unit_exp f) /\
  (r_is_inf r = false ->
     r_sig r * 2 ^ (r_exp2 r - unit_exp f) = v /\ 0 <= r_sig r < 2 ^ mant_bits f /\
     (v = 0 -> r_sig r = 0 /\ r_underflow r = true) /\
     (v <> 0 -> unit_exp f <= r_exp2 r /\ (2 ^ (mant_bits f - 1) <= r_sig r \/ r_exp2 r = unit_exp f))) /\
  (v <> 0 -> r_underflow r = true -> v <= 2 ^ (mant_bits f - 1)).

Lemma finish_round f q k inexact below : fmt_ok f -> 0 <= q <= 2 ^ mant_bits f -> 0 <= k -> (2 ^ (mant_bits f - 1) <= q \/ k = 0) ->
  (below = true -> q * 2 ^ k <= 2 ^ (mant_bits f - 1)) ->
  exists r, (let '(q, e2) := if negb (Z.shiftr q (mant_bits f) =? 0) then (Z.shiftr q 1, unit_exp f + k + 1) else (q, unit_exp f + k) in
      if q =? 0 then Some (mkRounded 0 0 false inexact true)
      else if emax f <? e2 + mant_bits f - 1 then Some (mkRounded 0 0 true inexact false)
      else Some (mkRounded q e2 false inexact (inexact && below))) = Some r /\ rounded_as f (q * 2 ^ k) r.
Proof.
  intros Hf Hq Hk Hn Hbelow. destruct Hf as [HP HE]. set (P := mant_bits f) in *. pose proof (pow_pos k Hk) as Hpk. pose proof (pow_pos P ltac:(lia)) as HpP.
  assert (HP1 : 2 ^ P = 2 * 2 ^ (P - 1)) by (rewrite <- Z.pow_succ_r by lia; f_equal; lia). rewrite !Z.shiftr_div_pow2 by lia.
  set (c := if decide (q = 2 ^ P) then 1 else 0). set (q' := if decide (q = 2 ^ P) then 2 ^ (P - 1) else q).
  assert (Hc : (if negb (q / 2 ^ P =? 0) then (q / 2 ^ 1, unit_exp f + k + 1) else (q, unit_exp f + k)) = (q', unit_exp f + k + c) /\
      q' * 2 ^ (k + c) = q * 2 ^ k /\ 0 <= q' < 2 ^ P /\ 0 <= c <= 1 /\ (2 ^ (P - 1) <= q' \/ (k = 0 /\ c = 0)) /\ (q = 0 <-> q' = 0)).
  { subst c q'. change (2 ^ 1) with 2. destruct (decide (q = 2 ^ P)) as [Hqq|Hne].
    - rewrite Hqq, Z.div_same by lia. cbn [Z.eqb negb]. assert (Hd2 : 2 ^ P / 2 = 2 ^ (P - 1)) by (symmetry; apply (Z.div_unique_exact _ 2); lia).
      rewrite Hd2. split; [done|]. rewrite Z.pow_add_r by lia. change (2 ^ 1) with 2. split_and!; lia.
    - rewrite Z.div_small by lia. cbn [Z.eqb negb]. rewrite !Z.add_0_r. split; [done|]. split_and!; lia. }
  destruct Hc as (-> & Hv & Hq' & Hc01 & Hn' & Hzero). clearbody c q'. rewrite <- Hv in *. clear Hv.
  pose proof (pow_pos (k + c) ltac:(lia)) as Hpkc. destruct (q' =? 0) eqn:E0.
  { assert (q' = 0) by lia. subst q'. eexists. split; [reflexivity|]. rewrite Z.mul_0_l. unfold rounded_as. cbn [r_is_inf r_sig r_underflow r_exp2]. fold P.
    split_and!; [split; [done|lia]|intros _; split_and!; [lia|lia|lia|done|lia]|lia]. }
  assert (Hv0 : q' * 2 ^ (k + c) <> 0) by nia.
  assert (Hlog : Z.log2 (q' * 2 ^ (k + c)) = Z.log2 q' + (k + c)) by (rewrite Z.log2_mul_pow2 by lia; lia).
  assert (Hlq : Z.log2 q' <= P - 1) by (assert (Z.log2 q' < P) by (apply Z.log2_lt_pow2; lia); lia).
  assert (Hbr : (emax f <? unit_exp f + k + c + P - 1) = true <-> emax f < Z.log2 (q' * 2 ^ (k + c)) + unit_exp f).
  { rewrite Hlog, Z.ltb_lt. destruct (Z.le_gt_cases (2 ^ (P - 1)) q') as [Hge|Hlt].
    - assert (Z.log2 q' = P - 1) by (enough (P - 1 <= Z.log2 q') by lia; apply Z.log2_le_pow2; lia). lia.
    - destruct Hn' as [|[-> ->]]; [lia|]. unfold unit_exp. fold P. lia. }
  destruct (emax f <? _) eqn:Einf.
  - eexists. split; [reflexivity|]. unfold rounded_as. cbn [r_is_inf r_sig r_underflow r_exp2]. split_and!; [tauto|done|done].
  - eexists. split; [reflexivity|]. unfold rounded_as. cbn [r_is_inf r_sig r_underflow r_exp2]. fold P. split_and!.
    + split; [done|]. intros [_ H]. by apply Hbr in H.
    + intros _. replace (unit_exp f + k + c - unit_exp f) with (k + c) by lia. split_and!; try done; lia.
    + intros _ [_ H]%andb_true_iff. auto.
Qed.

Lemma rne_scale c n m : 0 < c -> 0 < m -> rne (n * c) (m * c) = rne n m.
Proof.
  intros Hc Hm. unfold rne. rewrite Z.div_mul_cancel_r, Z.mul_mod_distr_r by lia. cbv zeta. set (q := n / m). set (r := n mod m). clearbody q r.
  replace (m * c <? 2 * (r * c)) with (m <? 2 * r) by (apply Bool.eq_iff_eq_true; rewrite !Z.ltb_lt; nia).
  replace (2 * (r * c) =? m * c) with (2 * r =? m) by (apply Bool.eq_iff_eq_true; rewrite !Z.eqb_eq; nia). done.
Qed.

(** Tininess implies that the value is below the smallest normal number. *)
Lemma below_normal_spec num den n d e2 f b : rep num n -> rep den d -> 0 < d -> fmt_ok f -> 0 <= n < 2 ^ mant_bits f * d ->
  n < 2 ^ b -> d < 2 ^ b -> 0 <= b -> b + 1 <= CAP ->
  exists t, below_normal num den e2 (mant_bits f) (unit_exp f) = Some t /\ (t = true -> e2 < unit_exp f).
Proof.
  intros Hn Hd Hd0 [HP _] Hnd Hnb Hdb Hb Hcap. assert (2 ^ mant_bits f <= 2 ^ 60) by (apply Z.pow_le_mono_r; lia).
  destruct (div_round_spec num den n d b Hn Hd Hd0 ltac:(nia) Hnb Hdb Hb Hcap) as (rem & up & Hq & _ & Hup & _). unfold below_normal. rewrite Hq, Hup. obind.
  eexists. split; [reflexivity|]. destruct (negb _); lia.
Qed.

(** The exact ratio in units, before and after the scaling. *)
Lemma units_scaled n d e2 u i j : 0 <= i -> 0 <= j ->
  n * 2 ^ Z.max 0 (e2 - u) * (d * 2 ^ j * 2 ^ Z.max 0 (u - (e2 - i + j))) = n * 2 ^ i * 2 ^ Z.max 0 (e2 - i + j - u) * (d * 2 ^ Z.max 0 (u - e2)).
Proof.
  intros Hi Hj. set (A := Z.max 0 (e2 - u)). set (X := Z.max 0 (u - (e2 - i + j))). set (K := Z.max 0 (e2 - i + j - u)). set (C := Z.max 0 (u - e2)).
  assert (Hs : A + j + X = i + K + C) by lia. transitivity (n * d * 2 ^ (A + j + X)); [rewrite !Z.pow_add_r by lia; lia|]. rewrite Hs, !Z.pow_add_r by lia. lia.
Qed.

(** Rounding the scaled ratio at its place, dropping the bits below the smallest subnormal; of these [P + 2] are enough. *)
Lemma scaled_nearest P n d E u : 2 <= P -> 0 < d -> 2 ^ (P - 1) * d <= n < 2 ^ P * d ->
  let k := Z.max 0 (E - u) in
  let X := Z.max 0 (u - E) in
  nearest P (n * 2 ^ k) (d * 2 ^ X) (rne n (d * 2 ^ Z.min X (P + 2)) * 2 ^ k).
Proof.
  intros HP Hd Hr k X. pose proof (pow_pos k ltac:(lia)) as Hpk. pose proof (pow_pos X ltac:(lia)) as HpX. pose proof (pow_pos P ltac:(lia)) as HpP.
  destruct (Z.le_gt_cases u E) as [Hge|Hlt].
  - replace X with 0 by lia. replace (Z.min 0 (P + 2)) with 0 by lia. rewrite Z.mul_1_r, <- (rne_scale (2 ^ k) n d) by lia.
    pose proof (pow_pos (P - 1) ltac:(lia)). assert (0 <= n) by nia. apply rne_nearest; try lia; [nia|left; nia].
  - replace k with 0 by lia. rewrite !Z.mul_1_r. assert (H1 : 1 <= 2 ^ X) by lia. destruct (Z.le_gt_cases X (P + 2)) as [Hx|Hx].
    + rewrite Z.min_l by lia. pose proof (rne_nearest P n (d * 2 ^ X) 0 HP ltac:(nia) ltac:(lia)) as Hn. rewrite !Z.mul_1_r in Hn.
      apply Hn; [pose proof (pow_pos (P - 1) ltac:(lia)); nia| |by right]. apply Z.lt_le_trans with (2 ^ P * d); [lia|]. apply Z.mul_le_mono_nonneg_l; nia.
    + rewrite Z.min_r by lia. assert (H4 : 2 ^ (P + 2) = 4 * 2 ^ P) by (rewrite Z.pow_add_r by lia; lia).
      assert (Hz : rne n (d * 2 ^ (P + 2)) = 0).
      { unfold rne. rewrite Z.div_small, Z.mod_small by nia. cbv zeta. replace (_ || _) with false by nia. done. }
      rewrite Hz. assert (2 ^ (P + 2) <= 2 ^ X) by (apply Z.pow_le_mono_r; lia). apply nearest_zero; [done|nia|nia|]. nia.
Qed.

Lemma round_ratio_spec num den n d e2 f b : rep num n -> rep den d -> 0 < n < 2 ^ b -> 0 < d < 2 ^ b -> fmt_ok f -> 0 <= b -> b + 150 <= CAP ->
  exists r v, round_ratio num den e2 f = Some r /\ rounded_as f v r /\
    nearest (mant_bits f) (n * 2 ^ Z.max 0 (e2 - unit_exp f)) (d * 2 ^ Z.max 0 (unit_exp f - e2)) v.
Proof.
  intros Hn Hd Hnb Hdb Hf Hb Hcap. pose proof Hf as [HP HE]. unfold round_ratio. cbv zeta.
  destruct (scale_ratio_spec num den n d e2 (mant_bits f) b Hn Hd Hnb Hdb ltac:(lia) Hb ltac:(lia)) as (num1 & den1 & i & j & -> & Hn1 & Hd1 & Hi & Hj & Hr & Hdb1).
  obind. fold (unit_exp f). set (E := e2 - i + j). set (P := mant_bits f) in *. set (u := unit_exp f) in *. pose proof (pow_pos i Hi) as Hpi. pose proof (pow_pos j Hj) as Hpj.
  pose proof (units_scaled n d e2 u i j Hi Hj) as Hunits. fold E in Hunits. assert (Hn1p : 0 < n * 2 ^ i) by nia. assert (Hd1p : 0 < d * 2 ^ j) by nia.
  assert (Hn1b : n * 2 ^ i < 2 ^ (b + P)) 
    by (rewrite Z.add_comm, Z.pow_add_r by lia; pose proof (pow_pos P ltac:(lia)); apply Z.lt_le_trans with (2 ^ P * (d * 2 ^ j)); [lia|apply Z.mul_le_mono_nonneg_l; lia]).
  assert (Hd1b : d * 2 ^ j < 2 ^ (b + P)) by (apply Z.lt_le_trans with (2 ^ b); [lia|apply Z.pow_le_mono_r; lia]).
  set (n1 := n * 2 ^ i) in *. set (d1 := d * 2 ^ j) in *. clearbody n1 d1.
  destruct (below_normal_spec num1 den1 n1 d1 E f (b + P) Hn1 Hd1 Hd1p Hf ltac:(fold P; lia) Hn1b Hd1b ltac:(lia) ltac:(lia)) as (below & Hbn & Hbelow).
  fold P u in Hbn, Hbelow. rewrite Hbn. obind.
  set (k := Z.max 0 (E - u)) in *. set (X := Z.max 0 (u - E)) in *. set (x := Z.min X (P + 2)).
  assert (He : exists ex, (if E <? u then (u - E, u) else (0, E)) = (X, u + k) /\ (if P + 2 <? X then P + 2 else X) = ex /\ ex = x).
  { exists x. split; [destruct (E <? u) eqn:EE; f_equal; lia|]. split; [destruct (_ <? X) eqn:EE; lia|done]. }
  destruct He as (ex & -> & Hx & ->). rewrite Hx. clear Hx. assert (Hx : 0 <= x <= P + 2) by lia. pose proof (pow_pos x ltac:(lia)) as Hpx.
  assert (Hden : exists den2, (if negb (x =? 0) then big_shl den1 x else Some den1) = Some den2 /\ rep den2 (d1 * 2 ^ x)).
  { destruct (x =? 0) eqn:Ex; cbn [negb]; [exists den1; replace x with 0 by lia; by rewrite Z.mul_1_r|]. apply (shl_ok den1 d1 x b); lia || done. }
  destruct Hden as (den2 & -> & Hd2). obind. assert (Hpk : 0 < 2 ^ k) by (apply pow_pos; lia).
  assert (Hd2b : d1 * 2 ^ x < 2 ^ (b + P + 62)).
  { apply Z.lt_le_trans with (2 ^ b * 2 ^ x); [apply Z.mul_lt_mono_pos_r; lia|]. rewrite <- Z.pow_add_r by lia. apply Z.pow_le_mono_r; lia. }
  assert (Hn1b' : n1 < 2 ^ (b + P + 62)) by (apply Z.lt_le_trans with (2 ^ (b + P)); [lia|apply Z.pow_le_mono_r; lia]).
  assert (HP60 : 2 ^ P <= 2 ^ 60) by (apply Z.pow_le_mono_r; lia).
  assert (Hd2p : 0 < d1 * 2 ^ x) by (apply Z.mul_pos_pos; lia). assert (Hd2ge : d1 <= d1 * 2 ^ x) by (apply Z.le_mul_diag_r; lia).
  assert (HnP : n1 < 2 ^ P * (d1 * 2 ^ x)) by (apply Z.lt_le_trans with (2 ^ P * d1); [lia|apply Z.mul_le_mono_nonneg_l; lia]).
  assert (Hn60 : n1 < 2 ^ 60 * (d1 * 2 ^ x)) by (apply Z.lt_le_trans with (2 ^ P * (d1 * 2 ^ x)); [lia|apply Z.mul_le_mono_nonneg_r; lia]).
  destruct (div_round_spec num1 den2 n1 (d1 * 2 ^ x) (b + P + 62) Hn1 Hd2 Hd2p ltac:(lia) Hn1b' Hd2b ltac:(lia) ltac:(lia)) as (rem & up & -> & _ & -> & Hup).
  obind. rewrite Hup. clear Hup up. set (q := rne n1 (d1 * 2 ^ x)).
  assert (Hq : 0 <= q <= 2 ^ P) by (apply rne_bounds; lia).
  assert (Hqn : 2 ^ (P - 1) <= q \/ k = 0).
  { destruct (Z.le_gt_cases u E); [left|right; lia]. apply (rne_bounds n1 (d1 * 2 ^ x) _ (2 ^ P)); [lia| |lia]. replace x with 0 by lia. lia. }
  pose proof (scaled_nearest P n1 d1 E u ltac:(lia) Hd1p Hr) as Hnear. cbv zeta in Hnear. fold k X x q in Hnear.
  destruct (finish_round f q k (negb (big_is_zero rem)) below Hf Hq ltac:(lia) Hqn) as (r & Hrr & Hras).
  { intros Hb'. apply Hbelow in Hb'. assert (Hk0 : k = 0) by lia. rewrite Hk0, Z.mul_1_r. apply (rne_bounds n1 (d1 * 2 ^ x) 0); [lia|lia|].
    assert (HP1 : 2 ^ P = 2 ^ (P - 1) * 2) by (rewrite Z.mul_comm, <- Z.pow_succ_r by lia; f_equal; lia).
    apply Z.lt_le_trans with (2 ^ P * d1); [lia|]. rewrite HP1, <- Z.mul_assoc. apply Z.mul_le_mono_nonneg_l; [apply Z.lt_le_incl, pow_pos; lia|].
    rewrite (Z.mul_comm 2). apply Z.mul_le_mono_nonneg_l; [lia|]. apply (Z.pow_le_mono_r 2 1); lia. }
  exists r, (q * 2 ^ k). split; [exact Hrr|]. split; [done|].
  apply (nearest_ratio P (n1 * 2 ^ k) (d1 * 2 ^ X)); [apply Z.mul_pos_pos; [|apply pow_pos]; lia..|lia|done].
Qed.
