(* ===== verification/StrtodParse.v ===== *)
(** * What strtod reads

    The decimal branch of [parse] on the text of a decimal number: the digits
    kept, the exponent that goes with them and whether a digit that was dropped
    was not zero. *)

From S2P Require Import Prelude Mem Digits FpFmt FpFmtSpec NumConv Strtod.

(** ** Decimal texts *)

Abbreviation digit_chars := (Forall (fun c => is_digit_c c = true)).
Definition digit_values (ds : list Z) : list Z := map (fun c => c - chr "0") ds.

(** An exponent and its value. *)
Inductive exp_text : list Z -> Z -> Prop :=
  | exp_none : exp_text [] 0
  | exp_some c sg neg es : c = chr "e" \/ c = chr "E" -> sign sg neg -> digit_chars es -> es <> [] ->
      exp_text (c :: sg ++ es) (if neg then - value 10 (digit_values es) else value 10 (digit_values es)).

(** The number ends here. *)
Definition stops (pt ex rest : list Z) : Prop :=
  is_digit_c (peek rest) = false /\ (ex = [] -> ~ peek rest ∈ [chr "e"; chr "E"; chr "x"; chr "X"]) /\ (ex = [] -> pt = [] -> peek rest <> chr ".").

Lemma digit_values_range ds : digit_chars ds -> digits10 (digit_values ds).
Proof. intros H. apply Forall_map. eapply Forall_impl; [exact H|]. unfold is_digit_c. cbn. intros. lia. Qed.

Lemma digit_values_len ds : length (digit_values ds) = length ds.
Proof. apply length_map. Qed.

(** ** Digits without the leading zeros *)

Fixpoint strip (ds : list Z) : list Z := match ds with 0 :: ds => strip ds | _ => ds end.

Lemma strip_app ds d : strip (ds ++ [d]) = match strip ds with [] => if d =? 0 then [] else [d] | z => z ++ [d] end.
Proof. induction ds as [|[|p|p] ds IH]; cbn [app strip]; [by destruct d|exact IH|done..]. Qed.

Lemma strip_value ds : value 10 (strip ds) = value 10 ds.
Proof. induction ds as [|[|p|p] ds IH]; [done| |done..]. cbn [strip]. rewrite IH, value_cons by lia. lia. Qed.

Lemma strip_head ds c z : strip ds = c :: z -> c <> 0.
Proof. induction ds as [|[|p|p] ds IH]; cbn [strip]; [done|exact IH|by intros [= <- _]..]. Qed.

Lemma strip_suffix ds : strip ds `suffix_of` ds.
Proof. induction ds as [|[|p|p] ds IH]; [done| |done..]. cbn [strip]. by apply suffix_cons_r. Qed.

Lemma strip_nil ds : digits10 ds -> strip ds = [] <-> value 10 ds = 0.
Proof.
  intros Hd. rewrite <- (strip_value ds). destruct (strip ds) as [|c z] eqn:E; [done|]. pose proof (strip_head ds c z E) as Hc.
  destruct (strip_suffix ds) as [pre Hpre]. rewrite Hpre, E in Hd. apply Forall_app in Hd as [_ Hd]. inversion Hd as [|? ? Hc' Hz]; subst.
  pose proof (value_bound 10 z ltac:(lia) Hz). rewrite value_cons by lia. split; [done|]. assert (0 < 10 ^ len z) by (apply Z.pow_pos_nonneg; lia). nia.
Qed.

(** ** The digit loop *)

Definition nonzero (d : Z) : bool := negb (d =? 0).

(** The state behind the digits [ds], [nf] of them behind the point. *)
Definition dec_read (ds : list Z) (nf : Z) (dot : bool) : decst :=
  let z := strip ds in
  mkDecst (negb (len ds =? 0)) dot (negb (len z =? 0)) (existsb nonzero (drop 800 z)) (len (drop 800 z) - nf) (take 800 z).

Lemma add_exp_small a b : Z.abs a < 2 ^ 62 -> Z.abs b < 2 ^ 62 -> add_exp a b = a + b.
Proof. intros Ha Hb. unfold add_exp. cbv zeta. rewrite i64_small by (unfold is_i64; lia). replace (_ && _) with false by lia. by replace (_ && _) with false by lia. Qed.

Lemma dec_digit_step ds nf dot d : 0 <= nf <= len ds -> len ds < 2 ^ 61 ->
  dec_digit d (dec_read ds nf dot) = dec_read (ds ++ [d]) (if dot then nf + 1 else nf) dot.
Proof.
  intros Hnf Hlen. unfold dec_digit, dec_read. cbn [dc_have dc_dot dc_nz dc_dropped dc_exp dc_dig]. cbv zeta. rewrite strip_app.
  replace (negb (len (ds ++ [d]) =? 0)) with true by (rewrite length_app; cbn [length]; lia).
  assert (Hz : len (strip ds) <= len ds) by (destruct (strip_suffix ds) as [pre Hpre]; apply (f_equal length) in Hpre; rewrite length_app in Hpre; lia).
  set (z := strip ds) in *. clearbody z. assert (Hdz : len (drop 800 z) <= len z) by (rewrite length_drop; lia).
  rewrite !add_exp_small by lia. destruct z as [|c z].
  - cbn [length Z.of_nat Z.eqb negb andb drop take]. destruct (d =? 0) eqn:Ed.
    + cbn [length]. rewrite drop_nil, take_nil. cbn. destruct dot; f_equal; lia.
    + cbn. destruct dot; f_equal; lia.
  - replace (len (c :: z) =? 0) with false by (cbn [length]; lia). replace (len ((c :: z) ++ [d]) =? 0) with false by (rewrite length_app; cbn [length]; lia).
    cbn [negb andb]. set (y := c :: z) in *. clearbody y. rewrite length_take. destruct (decide (length y < 800)%nat) as [Hs|Hs].
    + replace (_ <? MAX_DIG) with true by (unfold MAX_DIG; lia). rewrite (take_ge y), (take_ge (y ++ [d])), (drop_ge y), (drop_ge (y ++ [d])) by (rewrite ?length_app; cbn [length]; lia).
      destruct dot; f_equal; cbn [length]; lia.
    + replace (_ <? MAX_DIG) with false by (unfold MAX_DIG; lia). rewrite take_app_le, drop_app_le by lia.
      rewrite existsb_app, length_app. cbn [existsb length]. rewrite orb_false_r. unfold nonzero. destruct dot; f_equal; lia.
Qed.

Lemma digit_chars_cons c ds : digit_chars (c :: ds) -> is_digit_c c = true /\ digit_chars ds.
Proof. by inversion 1. Qed.

Lemma dec_loop_digits ds q : digit_chars ds -> forall pre nf dot, 0 <= nf <= len pre -> len pre + len ds < 2 ^ 61 ->
  dec_loop (ds ++ q) (dec_read pre nf dot) = dec_loop q (dec_read (pre ++ digit_values ds) (if dot then nf + len ds else nf) dot).
Proof.
  induction ds as [|c ds IH]; intros Hd pre nf dot Hnf Hlen; cbn [app dec_loop digit_values map].
  - rewrite app_nil_r. destruct dot; [|done]. cbn [length]. by rewrite Z.add_0_r.
  - apply digit_chars_cons in Hd as [Hc Hd]. cbn [length] in Hlen. rewrite Hc, dec_digit_step by lia.
    rewrite IH; [|done|rewrite length_app; cbn [length]; destruct dot; lia|rewrite length_app; cbn [length]; lia].
    rewrite <- app_assoc. cbn [app length]. f_equal. destruct dot; [|done]. f_equal. lia.
Qed.

(** The whole loop: digits, a point, digits. *)
Lemma dec_loop_text ds1 pt ds2 q : digit_chars ds1 -> digit_chars ds2 -> (pt = [] /\ ds2 = []) \/ pt = [chr "."] -> len ds1 + len ds2 < 2 ^ 61 ->
  is_digit_c (peek q) = false -> (pt = [] -> peek q <> chr ".") ->
  exists dot, dec_loop (ds1 ++ pt ++ ds2 ++ q) (mkDecst false false false false 0 []) = (dec_read (digit_values (ds1 ++ ds2)) (len ds2) dot, q).
Proof.
  intros H1 H2 Hpt Hlen Hq Hq'. change (mkDecst false false false false 0 []) with (dec_read [] 0 false). rewrite dec_loop_digits by (done || cbn; lia).
  assert (Hstop : forall st, (dc_dot st = true \/ peek q <> chr ".") -> dec_loop q st = (st, q)).
  { intros st Hdot. destruct q as [|c q]; [done|]. cbn [dec_loop]. cbn [peek] in *. rewrite Hq. by replace (_ && _) with false by (destruct (dc_dot st); lia). }
  destruct Hpt as [[-> ->]| ->]; cbn [app].
  - exists false. cbn [length]. rewrite Hstop by (right; auto). by rewrite app_nil_r.
  - exists true. cbn [dec_loop]. change (is_digit_c (chr ".")) with false. cbn [dec_read dc_dot negb andb Z.eqb Pos.eqb].
    change (dec_loop (ds2 ++ q) (dec_read (digit_values ds1) 0 true) = (dec_read (digit_values (ds1 ++ ds2)) (len ds2) true, q)).
    unfold digit_values at 1. rewrite dec_loop_digits by (done || rewrite ?length_map; lia). rewrite Hstop by (by left). unfold digit_values. by rewrite map_app, Z.add_0_l.
Qed.

(** ** The exponent *)

Lemma exp_loop_spec es rest : digit_chars es -> is_digit_c (peek rest) = false -> forall ev, 0 <= ev < 10 ^ 9 ->
  let total := ev * 10 ^ len es + value 10 (digit_values es) in
  exists r, exp_loop (es ++ rest) ev = (r, rest) /\ (total < 10 ^ 8 -> r = total) /\ (10 ^ 8 <= total -> 10 ^ 8 <= r < 10 ^ 9).
Proof.
  intros He Hr. induction es as [|c es IH]; intros ev Hev total; subst total; cbn [app exp_loop].
  - exists ev. split; [destruct rest as [|c r]; [done|]; cbn [peek] in Hr; cbn [exp_loop]; by rewrite Hr|]. cbn. lia.
  - pose proof He as He'. apply digit_chars_cons in He as [Hc He]. rewrite Hc. unfold is_digit_c in Hc. unfold digit_values. cbn [map length]. fold (digit_values es).
    rewrite value_cons, !digit_values_len by lia. rewrite Nat2Z.inj_succ, Z.pow_succ_r by lia.
    pose proof (value_bound 10 _ ltac:(lia) (digit_values_range es He)) as Hv. rewrite digit_values_len in Hv. assert (Hp : 0 < 10 ^ len es) by (apply Z.pow_pos_nonneg; lia).
    destruct (ev <? 100000000) eqn:E.
    + destruct (IH He (ev * 10 + (c - chr "0")) ltac:(lia)) as (r & -> & H1 & H2). exists r. split; [done|].
      replace (ev * (10 * 10 ^ len es) + ((c - chr "0") * 10 ^ len es + value 10 (digit_values es)))
        with ((ev * 10 + (c - chr "0")) * 10 ^ len es + value 10 (digit_values es)) by lia. by split.
    + destruct (IH He ev Hev) as (r & -> & H1 & H2). exists r. split; [done|]. assert (10 ^ 8 <= ev * 10 ^ len es) by nia. split; [nia|]. intros _. apply H2. lia.
Qed.

(** An exponent read: its value, or both far beyond the range of any format. *)
Lemma parse_exp_spec sg neg es rest : sign sg neg -> digit_chars es -> es <> [] -> is_digit_c (peek rest) = false ->
  let e := if neg then - value 10 (digit_values es) else value 10 (digit_values es) in
  exists r, parse_exp (sg ++ es ++ rest) = Some (r, rest) /\ Z.abs r < 10 ^ 9 /\ (r = e \/ (10 ^ 8 <= r /\ 10 ^ 8 <= e) \/ (r <= - 10 ^ 8 /\ e <= - 10 ^ 8)).
Proof.
  intros Hs He Hne Hr e. destruct (exp_loop_spec es rest He Hr 0 ltac:(lia)) as (r & Hl & H1 & H2). rewrite Z.mul_0_l, Z.add_0_l in *.
  pose proof (value_bound 10 _ ltac:(lia) (digit_values_range es He)) as Hv. rewrite digit_values_len in Hv.
  assert (Hhd : exists c es', es = c :: es' /\ is_digit_c c = true) by (destruct es as [|c es']; [done|]; apply digit_chars_cons in He as [? _]; eauto).
  destruct Hhd as (c & es' & Hes & Hc). assert (Hpk : peek (es ++ rest) = c) by (by rewrite Hes). assert (Hcd : chr "0" <= c <= chr "9") by (unfold is_digit_c in Hc; lia).
  exists (if neg then - r else r). unfold parse_exp. subst e.
  destruct Hs; cbn [app peek tail Z.eqb Pos.eqb orb].
  1: rewrite Hpk; replace (_ || _) with false by lia. all: rewrite Hpk, Hc, Hl; (split; [done|]); lia.
Qed.

(** ** The whole number *)

(** The first two characters of a decimal number. *)
Lemma decimal_head ds1 pt ds2 ex e rest : digit_chars ds1 -> digit_chars ds2 -> ds1 ++ ds2 <> [] -> (pt = [] /\ ds2 = []) \/ pt = [chr "."] ->
  exp_text ex e -> stops pt ex rest ->
  let p := ds1 ++ pt ++ ds2 ++ ex ++ rest in
  (is_digit_c (peek p) = true \/ peek p = chr ".") /\ (peek p = chr "0" -> peek_at p 1 <> chr "x" /\ peek_at p 1 <> chr "X").
Proof.
  intros H1 H2 Hne Hpt Hex (Hd & Hstop & _) p. subst p. destruct ds1 as [|c [|c' ds1]].
  - destruct Hpt as [[-> ->]| ->]; [done|]. cbn. split; [by right|done].
  - apply digit_chars_cons in H1 as [Hc _]. cbn [app peek]. split; [by left|]. intros ->. unfold peek_at. cbn [lookup list_lookup].
    destruct Hpt as [[-> ->]| ->]; [|by cbn]. destruct Hex as [|c sg neg es [-> | ->] _ _ _]; [|by cbn..]. cbn [app].
    specialize (Hstop eq_refl). destruct rest as [|c rest]; [by cbn|]. cbn in *. rewrite !elem_of_cons in Hstop. split; intros ->; tauto.
  - apply digit_chars_cons in H1 as [Hc H1]. apply digit_chars_cons in H1 as [Hc' _]. cbn [app peek]. split; [by left|]. intros _. unfold is_digit_c in Hc'.
    unfold peek_at. cbn. lia.
Qed.

Lemma take_sign_app sg neg p : sign sg neg -> peek p <> chr "+" -> peek p <> chr "-" -> take_sign (sg ++ p) = (neg, p).
Proof.
  intros Hs H1 H2. destruct Hs; [|done..]. unfold take_sign. destruct p as [|c p]; [done|]. cbn [app peek] in *. repeat case_match; try lia; done.
Qed.

Lemma parse_decimal_branch ws sg neg p : Forall (fun c => is_space_c c = true) ws -> sign sg neg ->
  is_digit_c (peek p) = true \/ peek p = chr "." -> (peek p = chr "0" -> peek_at p 1 <> chr "x" /\ peek_at p 1 <> chr "X") ->
  parse (ws ++ sg ++ p) = parse_dec neg (ws ++ sg ++ p) p.
Proof.
  intros Hw Hs Hp Hx. assert (Hc : chr "." <= peek p <= chr "9" /\ peek p <> chr "/") by (destruct Hp as [Hp|Hp]; [unfold is_digit_c in Hp|]; lia). unfold parse.
  rewrite skip_spaces_app; [|done|destruct Hs; cbn [app peek]; unfold is_space_c; lia]. rewrite (take_sign_app sg neg) by (done || lia).
  assert (Hl : lower_c (peek p) = peek p) by (unfold lower_c; replace (_ && _) with false by lia; done).
  assert (Hm : forall c w, c = chr "i" \/ c = chr "n" -> match_word p (c :: w) = false) by (intros c w Hc'; cbn [match_word]; rewrite Hl; lia).
  change (str "infinity") with (chr "i" :: str "nfinity"). change (str "inf") with (chr "i" :: str "nf"). change (str "nan") with (chr "n" :: str "an").
  rewrite !Hm by auto. replace (_ && _) with false; [done|]. destruct (peek p =? chr "0") eqn:E; [|done]. specialize (Hx ltac:(lia)). cbn [andb]. lia.
Qed.

Lemma parse_decimal ws sg neg ds1 pt ds2 ex e rest : Forall (fun c => is_space_c c = true) ws -> sign sg neg -> digit_chars ds1 -> digit_chars ds2 ->
  ds1 ++ ds2 <> [] -> (pt = [] /\ ds2 = []) \/ pt = [chr "."] -> exp_text ex e -> stops pt ex rest -> len (ds1 ++ ds2) <= 10 ^ 7 ->
  let z := strip (digit_values (ds1 ++ ds2)) in
  exists r, (r = e \/ (10 ^ 8 <= r /\ 10 ^ 8 <= e) \/ (r <= - 10 ^ 8 /\ e <= - 10 ^ 8)) /\
    parse (ws ++ sg ++ ds1 ++ pt ++ ds2 ++ ex ++ rest) =
      if len z =? 0 then mkParsed KZero neg false [] 0 0 0 false 0 rest
      else mkParsed KFinite neg false (take 800 z) (len (drop 800 z) - len ds2 + r) 0 0 (existsb nonzero (drop 800 z)) 0 rest.
Proof.
  intros Hw Hs H1 H2 Hne Hpt Hex Hstop Hlen z. destruct (decimal_head ds1 pt ds2 ex e rest H1 H2 Hne Hpt Hex Hstop) as [Hhd Hx].
  rewrite (parse_decimal_branch ws sg neg) by done. unfold parse_dec. destruct Hstop as (Hd & Hs1 & Hs2).
  assert (Hq : is_digit_c (peek (ex ++ rest)) = false /\ (pt = [] -> peek (ex ++ rest) <> chr ".")).
  { destruct Hex as [|c sg' neg' es [-> | ->] _ _ _]; [split; [done|auto]|split; done..]. }
  rewrite length_app in Hlen. destruct (dec_loop_text ds1 pt ds2 (ex ++ rest) H1 H2 Hpt ltac:(lia) (proj1 Hq) (proj2 Hq)) as [dot ->].
  unfold dec_read. cbn [dc_have dc_dot dc_nz dc_dropped dc_exp dc_dig]. cbv zeta. fold z.
  replace (len (digit_values (ds1 ++ ds2)) =? 0) with false by (rewrite digit_values_len; destruct (ds1 ++ ds2); [done|cbn [length]; lia]). cbn [negb].
  assert (Hz : len (drop 800 z) <= len ds1 + len ds2).
  { rewrite length_drop. subst z. destruct (strip_suffix (digit_values (ds1 ++ ds2))) as [pre Hpre]. apply (f_equal length) in Hpre.
    rewrite length_app, digit_values_len, length_app in Hpre. lia. }
  destruct Hex as [|c sg' neg' es Hc Hsg He Hen].
  - exists 0. split; [by left|]. cbn [app]. specialize (Hs1 eq_refl). rewrite !elem_of_cons in Hs1. replace (_ || _) with false by (symmetry; apply orb_false_iff; split; apply Z.eqb_neq; tauto).
    destruct (len z =? 0); cbn [negb]; [done|]. by rewrite Z.add_0_r.
  - destruct (parse_exp_spec sg' neg' es rest Hsg He Hen Hd) as (r & Hr & Hrb & Hre). exists r. split; [exact Hre|]. cbn [app peek tail]. rewrite <- app_assoc, Hr.
    replace (_ || _) with true by lia. rewrite add_exp_small by lia. by destruct (len z =? 0).
Qed.
