(* ===== verification/StrtodConv.v ===== *)
(** * The conversion of a parsed decimal number

    [convert_dec] stays within the capacity of its big numbers, and its result
    is the nearest number of the format, ties to even, for any number of
    digits: the digits beyond the 800 kept ones and the clamping of the
    exponent cannot be seen in the result. *)

From S2P Require Import Prelude Mem Digits FpFmt FpFmtSpec Big BigSpec Nearest NumConv Strtod StrtodRound StrtodParse.

Definition ieee (f : fmt) : Prop := f = DOUBLE_FMT \/ f = FLOAT_FMT.

Lemma ieee_facts f : ieee f -> fmt_ok f /\ -1074 <= unit_exp f < 0 /\ emax f <= 1023 /\ 2 <= mant_bits f <= 53 /\ 0 <= emax f.
Proof. intros [-> | ->]; unfold fmt_ok, unit_exp, DOUBLE_FMT, FLOAT_FMT; cbn [mant_bits emin emax]; lia. Qed.

Lemma pow10_pos k : 0 <= k -> 0 < 10 ^ k.
Proof. intros. apply Z.pow_pos_nonneg; lia. Qed.

(** Bounds with a name, so that they are never multiplied out. *)
Definition TEN801 : Z := 10 ^ 801.
Definition TEN399 : Z := 10 ^ 399.
Definition BITS : Z := 4000.

Lemma pow10_bits k : k <= 1203 -> 10 ^ k < 2 ^ BITS.
Proof. intros Hk. apply Z.le_lt_trans with (10 ^ 1203); [apply Z.pow_le_mono_r; lia|]. by vm_compute. Qed.

Lemma pow10_801 k : k <= 801 -> 10 ^ k <= TEN801.
Proof. intros Hk. apply Z.pow_le_mono_r; lia. Qed.

Lemma ten801_limbs : TEN801 < B32 ^ 84.
Proof. by vm_compute. Qed.

Lemma bits_cap : 2 ^ BITS < B32 ^ BIG_LIMBS.
Proof. rewrite B32_pow by done. apply Z.pow_lt_mono_r; done. Qed.

Lemma ten801_cap : TEN801 < B32 ^ BIG_LIMBS.
Proof. apply Z.lt_trans with (2 ^ BITS); [by apply pow10_bits|apply bits_cap]. Qed.

Lemma digits_num_spec ds : digits10 ds -> forall num x, rep num x -> (x + 1) * 10 ^ len ds <= B32 ^ BIG_LIMBS ->
  exists r, digits_num ds num = Some r /\ rep r (x * 10 ^ len ds + value 10 ds).
Proof.
  intros Hd. induction Hd as [|d ds Hd Hds IH]; intros num x Hr Hcap; cbn [digits_num length] in *.
  - exists num. split; [done|]. change (10 ^ Z.of_nat 0) with 1. change (value 10 []) with 0. by replace (x * 1 + 0) with x by lia.
  - rewrite Nat2Z.inj_succ, Z.pow_succ_r in * by lia. pose proof (pow10_pos (len ds) ltac:(lia)) as Hp. destruct (rep_range num x Hr) as [Hx _].
    destruct (big_muladd_spec num x 10 d Hr ltac:(unfold B32; lia) ltac:(unfold B32; lia) ltac:(nia)) as (r & -> & Hr'). obind.
    destruct (IH r _ Hr' ltac:(nia)) as (r2 & -> & Hr2). exists r2. split; [done|]. rewrite value_cons by lia.
    by replace (x * (10 * 10 ^ len ds) + (d * 10 ^ len ds + value 10 ds)) with ((x * 10 + d) * 10 ^ len ds + value 10 ds) by lia.
Qed.

Lemma ten399_units u : -1074 <= u -> 2 * 2 ^ (- u) <= TEN399 /\ 0 < TEN399.
Proof.
  intros Hu. split; [|done]. apply Z.le_trans with (2 * 2 ^ 1074); [|by vm_compute]. apply Z.mul_le_mono_nonneg_l; [lia|]. apply Z.pow_le_mono_r; lia.
Qed.

Lemma bits_ok : 0 <= BITS /\ BITS + 150 <= CAP.
Proof. done. Qed.

Lemma bits_limbs : 168 <= BIG_LIMBS.
Proof. done. Qed.

Lemma ten399_pow k : 0 <= k -> 10 ^ k * TEN399 = 10 ^ (k + 399).
Proof. intros Hk. unfold TEN399. by rewrite Z.pow_add_r by lia. Qed.

#[local] Opaque TEN801 TEN399 BITS BIG_LIMBS.

(** ** The conversion of kept digits *)

(** The result of [convert] for the nearest number [v]. *)
Definition conv_as (f : fmt) (v : Z) (c : conv) : Prop :=
  match c with
  | SaturateInf => 2 ^ (emax f + 1 - unit_exp f) <= v
  | SaturateZero => v = 0
  | Rounded r => rounded_as f v r
  end.

(** [c * 10^e] in units of the format, as a fraction. *)
Abbreviation units_num f c e := (c * 10 ^ Z.max 0 e * 2 ^ (- unit_exp f)).
Abbreviation units_den e := (10 ^ Z.max 0 (- e)).

Lemma units_den_pos e : 0 < units_den e.
Proof. apply pow10_pos. lia. Qed.

Lemma units_num_nonneg f c e : unit_exp f <= 0 -> 0 <= c -> 0 <= units_num f c e.
Proof.
  intros Hu Hc. pose proof (pow10_pos (Z.max 0 e) ltac:(lia)). pose proof (pow_pos (- unit_exp f) ltac:(lia)). apply Z.mul_nonneg_nonneg; [apply Z.mul_nonneg_nonneg|]; lia.
Qed.

Lemma huge_nearest f c e k v : ieee f -> 10 ^ k <= c -> 0 <= k -> 400 <= k + e -> nearest (mant_bits f) (units_num f c e) (units_den e) v ->
  2 ^ (emax f + 1 - unit_exp f) <= v.
Proof.
  intros Hf Hc Hk Hke Hv. destruct (ieee_facts f Hf) as (Hok & Hu & He & HP & Hue). apply (nearest_ge (mant_bits f) (units_num f c e) (units_den e) v); [apply units_den_pos| | |done].
  - exists 1, (emax f + 1 - unit_exp f). split; [split; [lia|]; apply (Z.pow_lt_mono_r 2 0); lia|]. split; lia.
  - replace (emax f + 1 - unit_exp f) with (emax f + 1 + - unit_exp f) by lia. rewrite Z.pow_add_r by lia.
    pose proof (pow_pos (- unit_exp f) ltac:(lia)) as Hp. set (U := 2 ^ (- unit_exp f)) in *. clearbody U. enough (2 ^ (emax f + 1) * units_den e <= c * 10 ^ Z.max 0 e) by nia.
    apply Z.le_trans with (10 ^ 400 * units_den e); [apply Z.mul_le_mono_nonneg_r; [apply Z.lt_le_incl, units_den_pos|]|].
    + apply Z.le_trans with (2 ^ 1024); [apply Z.pow_le_mono_r; lia|by vm_compute].
    + apply Z.le_trans with (10 ^ k * 10 ^ Z.max 0 e); [|apply Z.mul_le_mono_nonneg_r; [apply Z.lt_le_incl, pow10_pos; lia|done]].
      rewrite <- !Z.pow_add_r by lia. apply Z.pow_le_mono_r; lia.
Qed.

Lemma tiny_units f c e k : ieee f -> 0 <= c < 10 ^ k -> 0 <= k -> k + e <= -399 -> 2 * units_num f c e < units_den e.
Proof.
  intros Hf Hc Hk Hke. destruct (ieee_facts f Hf) as (Hok & Hu & He & HP & Hue). pose proof (pow_pos (- unit_exp f) ltac:(lia)) as Hp.
  replace (Z.max 0 e) with 0 by lia. rewrite Z.mul_1_r.
  destruct (ten399_units (unit_exp f) ltac:(lia)) as [Ht Ht0]. apply Z.lt_le_trans with (10 ^ k * TEN399); [nia|].
  rewrite ten399_pow by lia. apply Z.pow_le_mono_r; lia.
Qed.

Lemma tiny_nearest f c e k : ieee f -> 0 <= c < 10 ^ k -> 0 <= k -> k + e <= -399 -> nearest (mant_bits f) (units_num f c e) (units_den e) 0.
Proof.
  intros Hf Hc Hk Hke. destruct (ieee_facts f Hf) as (Hok & Hu & He & HP & Hue). apply nearest_zero; [lia|apply units_den_pos|apply units_num_nonneg; lia|].
  by apply (tiny_units f c e k).
Qed.

Lemma tiny_zero f c e k v : ieee f -> 0 <= c < 10 ^ k -> 0 <= k -> k + e <= -399 -> nearest (mant_bits f) (units_num f c e) (units_den e) v -> v = 0.
Proof.
  intros Hf Hc Hk Hke. destruct (ieee_facts f Hf) as (Hok & Hu & He & HP & Hue). apply nearest_tiny; [lia|apply units_den_pos|apply units_num_nonneg; lia|].
  by apply (tiny_units f c e k).
Qed.

(** ** Digits beyond the kept ones *)

Definition TEN799 : Z := 10 ^ 799.

Lemma ten799_bound G P : G <= 1074 -> P <= 53 -> 0 <= G -> 2 ^ P * 5 ^ G <= TEN799.
Proof.
  intros HG HP HG0. apply Z.le_trans with (2 ^ 53 * 5 ^ 1074); [|by vm_compute].
  apply Z.mul_le_mono_nonneg; [apply Z.pow_nonneg; lia|apply Z.pow_le_mono_r; lia|apply Z.pow_nonneg; lia|apply Z.pow_le_mono_r; lia].
Qed.

#[local] Opaque TEN799.

(** No half unit falls between two neighbours of 800 digits. *)
Lemma no_half_between D G U P k : TEN799 <= D -> 0 <= G -> 0 <= U <= 1074 -> 2 <= P <= 53 -> 0 <= k -> D * 2 ^ U < 2 ^ P * (10 ^ G * 2 ^ k) ->
  forall t, ~ (2 * (D * 2 ^ U) < t * (10 ^ G * 2 ^ k) < 2 * ((D + 1) * 2 ^ U)).
Proof.
  intros HD HG HU HP Hk Hb t Ht. assert (H10 : 10 ^ G * 2 ^ k = 5 ^ G * 2 ^ (G + k)) by (change 10 with (5 * 2); rewrite Z.pow_mul_l, Z.pow_add_r by lia; lia).
  rewrite H10 in *. pose proof (pow_pos U ltac:(lia)) as HpU. assert (H5 : 0 < 5 ^ G) by (apply Z.pow_pos_nonneg; lia). assert (HpP : 0 < 2 ^ P) by (apply pow_pos; lia).
  destruct (Z.le_gt_cases (G + k) U) as [Hle|Hgt].
  - assert (Hmono : 2 ^ (G + k) <= 2 ^ U) by (apply Z.pow_le_mono_r; lia). pose proof (ten799_bound G P ltac:(lia) ltac:(lia) HG) as Hten.
    assert (2 ^ P * (5 ^ G * 2 ^ (G + k)) <= 2 ^ P * 5 ^ G * 2 ^ U) by (rewrite Z.mul_assoc; apply Z.mul_le_mono_nonneg_l; nia). nia.
  - assert (Hs : 2 ^ (G + k) = 2 ^ (G + k - U - 1) * 2 * 2 ^ U) by (rewrite <- Z.mul_assoc, <- Z.pow_succ_r, <- Z.pow_add_r by lia; f_equal; lia).
    rewrite Hs in Ht. set (s := t * 5 ^ G * 2 ^ (G + k - U - 1)). replace (t * (5 ^ G * (2 ^ (G + k - U - 1) * 2 * 2 ^ U))) with (s * (2 * 2 ^ U)) in Ht by (subst s; ring).
    replace (2 * (D * 2 ^ U)) with (D * (2 * 2 ^ U)) in Ht by ring. replace (2 * ((D + 1) * 2 ^ U)) with ((D + 1) * (2 * 2 ^ U)) in Ht by ring.
    destruct Ht as [H1 H2]. apply Z.mul_lt_mono_pos_r in H1, H2; lia.
Qed.

(** A nonzero tail behind 800 digits rounds like the single digit 1. *)
Lemma dropped_tail f D g m t v : ieee f -> TEN799 <= D -> g <= 0 -> 0 < m -> 0 < t < 10 ^ m ->
  nearest (mant_bits f) (units_num f (D * 10 + 1) (g - 1)) (units_den (g - 1)) v ->
  nearest (mant_bits f) (units_num f (D * 10 ^ m + t) (g - m)) (units_den (g - m)) v.
Proof.
  intros Hf HD Hg Hm Ht Hv. destruct (ieee_facts f Hf) as (Hok & Hu & He & HP & Hem). set (U := - unit_exp f) in *. pose proof (pow_pos U ltac:(lia)) as HpU.
  assert (HpG : 0 < 10 ^ (- g)) by (apply pow10_pos; lia).
  assert (Hin : forall m t, 0 < m -> 0 < t < 10 ^ m -> D * 2 ^ U * units_den (g - m) < (D * 10 ^ m + t) * 10 ^ Z.max 0 (g - m) * 2 ^ U * 10 ^ (- g) < (D + 1) * 2 ^ U * units_den (g - m)).
  { clear -HpG HpU Hg. intros m t Hm Ht. replace (Z.max 0 (g - m)) with 0 by lia. replace (Z.max 0 (- (g - m))) with (m + - g) by lia. rewrite Z.pow_add_r by lia.
    change (10 ^ 0) with 1. set (A := 2 ^ U * 10 ^ (- g)). assert (HA : 0 < A) by (by apply Z.mul_pos_pos).
    replace (D * 2 ^ U * (10 ^ m * 10 ^ (- g))) with (D * 10 ^ m * A) by (subst A; ring). replace ((D * 10 ^ m + t) * 1 * 2 ^ U * 10 ^ (- g)) with ((D * 10 ^ m + t) * A) by (subst A; ring).
    replace ((D + 1) * 2 ^ U * (10 ^ m * 10 ^ (- g))) with ((D * 10 ^ m + 10 ^ m) * A) by (subst A; ring). split; apply Z.mul_lt_mono_pos_r; lia. }
  assert (HD0 : 0 <= D) by (assert (0 < TEN799) by (by vm_compute); lia).
  destruct (place_exists (mant_bits f) (units_num f (D * 10 + 1) (g - 1)) (units_den (g - 1))) as (k & Hk & Hhi & Hlo); [lia|apply units_den_pos|apply units_num_nonneg; lia|].
  pose proof (Hin 1 1 ltac:(lia) ltac:(lia)) as Hin1. change (10 ^ 1) with 10 in Hin1.
  apply (nearest_between (mant_bits f) (D * 2 ^ U) ((D + 1) * 2 ^ U) (10 ^ (- g)) _ _ (units_num f (D * 10 + 1) (g - 1)) (units_den (g - 1)) k); try done; [lia|apply units_den_pos..|lia|by apply Hin|].
  apply (no_half_between D (- g) U (mant_bits f) k); [done|lia..|]. pose proof (units_den_pos (g - 1)) as Hpd. fold U in Hhi. apply (Z.mul_lt_mono_pos_r (units_den (g - 1))); [done|].
  apply Z.lt_trans with ((D * 10 + 1) * 10 ^ Z.max 0 (g - 1) * 2 ^ U * 10 ^ (- g)); [apply Hin1|].
  replace (2 ^ mant_bits f * (10 ^ (- g) * 2 ^ k) * units_den (g - 1)) with (2 ^ mant_bits f * (units_den (g - 1) * 2 ^ k) * 10 ^ (- g)) by ring.
  by apply Z.mul_lt_mono_pos_r.
Qed.

Lemma value_lower d ds : digits10 (d :: ds) -> d <> 0 -> 10 ^ len ds <= value 10 (d :: ds).
Proof.
  intros Hd Hd0. rewrite value_cons by lia. inversion Hd as [|? ? Hd' Hds']; subst. pose proof (value_bound 10 ds ltac:(lia) Hds'). pose proof (pow10_pos (len ds) ltac:(lia)). nia.
Qed.

(** The fraction handed to [round_ratio]. *)
Lemma scale_dec num c e : rep num c -> 0 < c < TEN801 -> -1201 <= e -> e <= 400 ->
  exists num' den', (if 0 <=? e then p10 ← big_pow10 e; num ← big_mul num p10; Some (num, big_set_u64 1)
                     else den ← big_pow10 (- e); Some (num, den)) = Some (num', den') /\
    rep num' (c * 10 ^ Z.max 0 e) /\ rep den' (units_den e).
Proof.
  intros Hr Hc He He4. pose proof bits_cap as Hcap.
  destruct (0 <=? e) eqn:E.
  - replace (Z.max 0 e) with e in * by lia. replace (Z.max 0 (- e)) with 0 by lia. pose proof (pow10_bits e ltac:(lia)) as Hp4.
    destruct (big_pow10_spec e ltac:(lia) ltac:(lia)) as (p & -> & Hp). obind. pose proof (pow10_pos e ltac:(lia)) as Hpp.
    pose proof ten801_limbs as Hl84. pose proof (rep_len num c 84 Hr ltac:(lia) ltac:(lia)) as Hl1.
    assert (Hl2 : len p <= 84) by (apply (rep_len p (10 ^ e)); [done|lia|]; apply Z.le_lt_trans with TEN801; [apply pow10_801; lia|done]).
    destruct (big_mul_spec num p c (10 ^ e) Hr Hp Hpp ltac:(pose proof bits_limbs; lia)) as (r & -> & Hr'). obind. do 2 eexists. split; [reflexivity|]. split; [exact Hr'|].
    change (10 ^ 0) with 1. apply big_set_u64_spec. lia.
  - replace (Z.max 0 e) with 0 by lia. replace (Z.max 0 (- e)) with (- e) by lia. rewrite Z.mul_1_r. pose proof (pow10_bits (- e) ltac:(lia)) as Hp4.
    destruct (big_pow10_spec (- e) ltac:(lia) ltac:(lia)) as (p & -> & Hp). obind. exists num, p; split; [reflexivity|split; assumption].
Qed.

Lemma convert_dec_spec f pr d ds : ieee f -> pr_digits pr = d :: ds -> d <> 0 -> digits10 (d :: ds) -> len (d :: ds) <= 800 ->
  let c := if pr_sticky pr then value 10 (d :: ds) * 10 + 1 else value 10 (d :: ds) in
  let e := if pr_sticky pr then pr_exp10 pr - 1 else pr_exp10 pr in
  exists cv v, convert_dec pr f = Some cv /\ nearest (mant_bits f) (units_num f c e) (units_den e) v /\ conv_as f v cv.
Proof.
  intros Hf Hds Hd0 Hd Hl c e. destruct (ieee_facts f Hf) as (Hok & Hu & He & HP & Hem). unfold convert_dec. rewrite Hds.
  pose proof (value_bound 10 (d :: ds) ltac:(lia) Hd) as Hv. set (D := value 10 (d :: ds)) in *. set (nd := len (d :: ds)) in *.
  assert (Hnd : 1 <= nd) by (subst nd; cbn [length]; lia). pose proof ten801_cap as Hcap.
  pose proof (pow10_801 (nd + 1) ltac:(lia)) as H801. rewrite Z.pow_add_r in H801 by lia. change (10 ^ 1) with 10 in H801.
  assert (HD : 10 ^ (nd - 1) <= D).
  { subst D nd. cbn [length]. replace (Z.of_nat (S (length ds)) - 1) with (len ds) by lia. by apply value_lower. }
  destruct (digits_num_spec (d :: ds) Hd [] 0 rep_nil) as (num & -> & Hnum). { fold nd. lia. }
  fold D nd in Hnum. rewrite Z.mul_0_l, Z.add_0_l in Hnum. obind. clearbody D nd.
  assert (Hst : exists num', (if pr_sticky pr then num ← big_muladd num 10 1; Some (num, pr_exp10 pr - 1) else Some (num, pr_exp10 pr)) = Some (num', e) /\ rep num' c).
  { subst c e. destruct (pr_sticky pr); [|exists num; split; [reflexivity|exact Hnum]]. destruct (big_muladd_spec num D 10 1 Hnum ltac:(unfold B32; lia) ltac:(unfold B32; lia) ltac:(lia)) as (r & -> & Hr). exists r; split; [reflexivity|exact Hr]. }
  destruct Hst as (num' & -> & Hnum'). obind. set (k := if pr_sticky pr then nd + 1 else nd).
  assert (Hc : 10 ^ (k - 1) <= c < 10 ^ k /\ nd <= k <= nd + 1).
  { subst c k. destruct (pr_sticky pr); [|lia]. replace (nd + 1) with (Z.succ nd) by lia. rewrite Z.pow_succ_r by lia. replace (Z.succ nd - 1) with (Z.succ (nd - 1)) by lia.
    rewrite Z.pow_succ_r by lia. replace (10 ^ nd) with (10 * 10 ^ (nd - 1)) in * by (rewrite <- Z.pow_succ_r by lia; f_equal; lia). lia. }
  clearbody c e k. destruct (nearest_exists (mant_bits f) (units_num f c e) (units_den e)) as [v0 Hv0];
    [lia|apply units_den_pos|apply units_num_nonneg; [lia|]; pose proof (pow10_pos (k - 1) ltac:(lia)); lia|].
  destruct (400 <? nd + e) eqn:E1.
  { exists SaturateInf, v0. split; [reflexivity|]. split; [exact Hv0|]. apply (huge_nearest f c e (k - 1)); [exact Hf|lia|lia|lia|exact Hv0]. }
  destruct (nd + e <? -400) eqn:E2.
  { exists SaturateZero, 0. split; [reflexivity|]. split; [|reflexivity]. apply (tiny_nearest f c e k); [exact Hf|lia..]. }
  pose proof (pow10_pos (k - 1) ltac:(lia)) as Hk1. pose proof (pow10_801 k ltac:(lia)) as Hk801.
  assert (Hbig : c * 10 ^ Z.max 0 e < 2 ^ BITS).
  { apply Z.lt_trans with (10 ^ k * 10 ^ Z.max 0 e); [apply Z.mul_lt_mono_pos_r; [apply pow10_pos|]; lia|]. rewrite <- Z.pow_add_r by lia. apply pow10_bits; lia. }
  destruct (scale_dec num' c e Hnum' ltac:(lia) ltac:(lia) ltac:(lia)) as (n2 & d2 & -> & Hn2 & Hd2). obind.
  pose proof (pow10_pos (Z.max 0 e) ltac:(lia)) as Hpe. pose proof (units_den_pos e) as Hpd.
  destruct (round_ratio_spec n2 d2 _ _ 0 f BITS Hn2 Hd2 ltac:(split; [apply Z.mul_pos_pos; lia|exact Hbig]) ltac:(split; [exact Hpd|apply pow10_bits; lia]) Hok (proj1 bits_ok) (proj2 bits_ok)) as (r & v & -> & Hr & Hn).
  obind. exists (Rounded r), v. split; [reflexivity|]. split; [|exact Hr]. replace (Z.max 0 (0 - unit_exp f)) with (- unit_exp f) in Hn by lia. replace (Z.max 0 (unit_exp f - 0)) with 0 in Hn by lia.
  rewrite Z.mul_1_r in Hn. exact Hn.
Qed.

(** ** Any number of digits, any exponent *)

(** Above the range of the format all results are the same. *)
Lemma conv_as_inf f v v0 cv : ieee f -> 2 ^ (emax f + 1 - unit_exp f) <= v -> 2 ^ (emax f + 1 - unit_exp f) <= v0 -> conv_as f v cv -> conv_as f v0 cv.
Proof.
  intros Hf Hv Hv0. destruct (ieee_facts f Hf) as (Hok & Hu & He & HP & Hem). assert (Hx : mant_bits f - 1 < emax f + 1 - unit_exp f) by (unfold unit_exp; destruct Hok; lia).
  assert (Hbig : forall w, 2 ^ (emax f + 1 - unit_exp f) <= w -> w <> 0 /\ emax f < Z.log2 w + unit_exp f).
  { intros w Hw. pose proof (pow_pos (emax f + 1 - unit_exp f) ltac:(lia)). split; [lia|]. apply Z.log2_le_pow2 in Hw; lia. }
  pose proof (Z.pow_lt_mono_r 2 (mant_bits f - 1) (emax f + 1 - unit_exp f) ltac:(lia) ltac:(lia) Hx) as Hm. pose proof (pow_pos (mant_bits f - 1) ltac:(lia)) as Hp.
  destruct cv as [| |r]; cbn [conv_as]; [done|lia|]. intros (Hi & Hfin & Hun). assert (Hinf : r_is_inf r = true) by (apply Hi, Hbig, Hv).
  split; [split; [intros _; by apply Hbig|done]|]. split; [congruence|]. intros _ Hr. specialize (Hun ltac:(lia) Hr). lia.
Qed.

(** Trailing zeros moved between the coefficient and the exponent. *)
Lemma units_shift f c e m v : 0 <= m -> nearest (mant_bits f) (units_num f c e) (units_den e) v ->
  nearest (mant_bits f) (units_num f (c * 10 ^ m) (e - m)) (units_den (e - m)) v.
Proof.
  intros Hm. apply nearest_ratio; [apply units_den_pos..|].
  transitivity (c * (10 ^ Z.max 0 e * units_den (e - m)) * 2 ^ (- unit_exp f)); [ring|]. rewrite <- Z.pow_add_r by lia.
  transitivity (c * (10 ^ m * 10 ^ Z.max 0 (e - m) * units_den e) * 2 ^ (- unit_exp f)); [|ring]. rewrite <- !Z.pow_add_r by lia. do 3 f_equal. lia.
Qed.

Lemma existsb_nonzero ds : digits10 ds -> if existsb nonzero ds then 0 < value 10 ds else value 10 ds = 0.
Proof.
  induction 1 as [|d ds Hd Hds IH]; [done|]. cbn [existsb]. rewrite value_cons by lia. pose proof (value_bound 10 ds ltac:(lia) Hds). pose proof (pow10_pos (len ds) ltac:(lia)).
  unfold nonzero at 1. destruct (Z.eqb_spec d 0) as [->|Hne]; cbn [negb orb]; [destruct (existsb nonzero ds); lia|nia].
Qed.

(** The digits beyond the 800 kept ones. *)
Lemma kept_nearest f d z g cv v : ieee f -> digits10 (d :: z) -> d <> 0 ->
  let hd := take 800 (d :: z) in let tl := drop 800 (d :: z) in let st := existsb nonzero tl in
  nearest (mant_bits f) (units_num f (if st then value 10 hd * 10 + 1 else value 10 hd) (if st then g - 1 else g)) (units_den (if st then g - 1 else g)) v ->
  conv_as f v cv ->
  exists v', nearest (mant_bits f) (units_num f (value 10 (d :: z)) (g - len tl)) (units_den (g - len tl)) v' /\ conv_as f v' cv.
Proof.
  intros Hf Hd Hd0 hd tl st Hv Hcv. rewrite <- (take_drop 800 (d :: z)). fold hd tl. rewrite value_app by lia.
  rewrite <- (take_drop 800 (d :: z)) in Hd. apply Forall_app in Hd as [Hhd Htl]. fold hd in Hhd. fold tl in Htl.
  pose proof (existsb_nonzero tl Htl) as Ht. fold st in Ht. pose proof (value_bound 10 tl ltac:(lia) Htl) as Hb. destruct st.
  2: { exists v. split; [|done]. rewrite Ht, Z.add_0_r. apply units_shift; [lia|done]. }
  assert (Hm : 0 < len tl) by (destruct tl; [done|cbn [length]; lia]).
  assert (HD : TEN799 <= value 10 hd).
  { assert (Hl : len hd = 800) by (subst hd tl; rewrite length_drop in Hm; rewrite length_take; lia). subst hd. change (take 800 (d :: z)) with (d :: take 799 z) in *.
    apply Z.le_trans with (10 ^ len (take 799 z)); [|by apply value_lower]. cbn [length] in Hl. replace (len (take 799 z)) with 799 by lia. reflexivity. }
  set (D := value 10 hd) in *. set (t := value 10 tl) in *. set (m := len tl) in *. clearbody D t m. destruct (Z.le_gt_cases g 0) as [Hg|Hg].
  - exists v. split; [|done]. apply (dropped_tail f D g m t v); [exact Hf|exact HD|exact Hg|exact Hm|lia|exact Hv].
  - destruct (ieee_facts f Hf) as (Hok & Hu & He & HP & Hem). assert (HD0 : 10 ^ 799 <= D) by exact HD. pose proof (pow10_pos m ltac:(lia)) as Hpm. pose proof (pow10_pos 799 ltac:(done)) as Hp7.
    assert (H1 : 10 ^ 799 <= D * 10 + 1) by (clear -HD0 Hp7; set (T := 10 ^ 799) in *; clearbody T; lia).
    assert (H2 : 10 ^ (799 + m) <= D * 10 ^ m + t).
    { rewrite Z.pow_add_r by lia. apply Z.le_trans with (D * 10 ^ m); [apply Z.mul_le_mono_nonneg_r; [lia|exact HD0]|lia]. }
    destruct (nearest_exists (mant_bits f) (units_num f (D * 10 ^ m + t) (g - m)) (units_den (g - m))) as [v' Hv'].
    { lia. } { apply units_den_pos. } { apply units_num_nonneg; [lia|]. apply Z.le_trans with (2 := H2). apply Z.lt_le_incl, pow10_pos. lia. }
    exists v'. split; [exact Hv'|]. apply (conv_as_inf f v); [exact Hf| | |exact Hcv].
    + apply (huge_nearest f _ (g - 1) 799 v Hf H1 ltac:(lia) ltac:(lia) Hv).
    + apply (huge_nearest f _ (g - m) (799 + m) v' Hf H2 ltac:(lia) ltac:(lia) Hv').
Qed.

(** An exponent beyond [10^8] is as good as any other. *)
Lemma clamped_nearest f c k nf r e cv v : ieee f -> 0 < c < 10 ^ k -> 0 <= k <= 10 ^ 7 -> 0 <= nf <= 10 ^ 7 ->
  r = e \/ (10 ^ 8 <= r /\ 10 ^ 8 <= e) \/ (r <= - 10 ^ 8 /\ e <= - 10 ^ 8) ->
  nearest (mant_bits f) (units_num f c (r - nf)) (units_den (r - nf)) v -> conv_as f v cv ->
  exists v', nearest (mant_bits f) (units_num f c (e - nf)) (units_den (e - nf)) v' /\ conv_as f v' cv.
Proof.
  intros Hf Hc Hk Hnf Hre Hv Hcv. destruct (ieee_facts f Hf) as (Hok & Hu & He & HP & Hem). destruct Hre as [->|[[Hr Her]|[Hr Her]]].
  - exists v. split; [exact Hv|exact Hcv].
  - destruct (nearest_exists (mant_bits f) (units_num f c (e - nf)) (units_den (e - nf))) as [v' Hv']. { lia. } { apply units_den_pos. } { apply units_num_nonneg; lia. }
    exists v'. split; [exact Hv'|]. apply (conv_as_inf f v); [exact Hf| | |exact Hcv]; eapply (huge_nearest f c _ 0); try eassumption; [change (10 ^ 0) with 1| |..]; lia.
  - exists 0. split; [apply (tiny_nearest f c _ k); [exact Hf|lia..]|]. by rewrite (tiny_zero f c (r - nf) k v Hf ltac:(lia) ltac:(lia) ltac:(lia) Hv) in Hcv.
Qed.

(** [convert] of a parsed number, against the value of its text. *)
Lemma convert_text f neg d z nf r e rest : ieee f -> digits10 (d :: z) -> d <> 0 -> len (d :: z) <= 10 ^ 7 -> 0 <= nf <= 10 ^ 7 ->
  r = e \/ (10 ^ 8 <= r /\ 10 ^ 8 <= e) \/ (r <= - 10 ^ 8 /\ e <= - 10 ^ 8) ->
  exists cv v, convert (mkParsed KFinite neg false (take 800 (d :: z)) (len (drop 800 (d :: z)) - nf + r) 0 0 (existsb nonzero (drop 800 (d :: z))) 0 rest) f = Some cv /\
    nearest (mant_bits f) (units_num f (value 10 (d :: z)) (e - nf)) (units_den (e - nf)) v /\ conv_as f v cv.
Proof.
  intros Hf Hd Hd0 Hl Hnf Hre. unfold convert. cbn [pr_hex]. set (pr := mkParsed _ _ _ _ _ _ _ _ _ _).
  destruct (convert_dec_spec f pr d (take 799 z) Hf eq_refl Hd0) as (cv & v & -> & Hv & Hcv).
  { change (d :: take 799 z) with (take 800 (d :: z)). by apply Forall_take. } { change (d :: take 799 z) with (take 800 (d :: z)). rewrite length_take. lia. }
  subst pr. cbn [pr_sticky pr_exp10] in Hv. change (d :: take 799 z) with (take 800 (d :: z)) in Hv.
  destruct (kept_nearest f d z _ cv v Hf Hd Hd0 Hv Hcv) as (v1 & Hv1 & Hcv1). replace (_ + r - len (drop 800 (d :: z))) with (r - nf) in Hv1 by lia.
  pose proof (value_bound 10 (d :: z) ltac:(lia) Hd) as Hvb. pose proof (value_lower d z Hd Hd0) as Hvl. pose proof (pow10_pos (len z) ltac:(lia)) as Hpz.
  destruct (clamped_nearest f (value 10 (d :: z)) (len (d :: z)) nf r e cv v1 Hf ltac:(lia) ltac:(lia) Hnf Hre Hv1 Hcv1) as (v2 & Hv2 & Hcv2).
  exists cv, v2. split; [reflexivity|split; [exact Hv2|exact Hcv2]].
Qed.
