(* ===== verification/StrtodThms.v ===== *)
(** * strtod and strtof are correctly rounded

    From the text of a decimal number to the bits of a double or a float, the
    end pointer and errno. *)

From S2P Require Import Prelude Mem Digits FpFmt FpFmtSpec Big BigSpec Nearest NumConv Strtod StrtodRound StrtodParse StrtodConv.

(** ** The bits of a number *)

Definition sign_bit (f : fmt) (neg : bool) : Z := if neg then 2 * (emax f + 1) * 2 ^ (mant_bits f - 1) else 0.

(** The pattern of infinity, without its sign. *)
Definition inf_pattern (f : fmt) : Z := (2 * emax f + 1) * 2 ^ (mant_bits f - 1).

(** The number a finite pattern stands for, in units of the smallest subnormal. *)
Definition units_of (f : fmt) (b : Z) : Z :=
  let h := 2 ^ (mant_bits f - 1) in
  if b / h =? 0 then b mod h else (h + b mod h) * 2 ^ (b / h - 1).

(** [b] is the pattern of [v]; of infinity when [v] is beyond the format. *)
Definition encodes (f : fmt) (b v : Z) : Prop :=
  if v <? 2 ^ (emax f + 1 - unit_exp f) then 0 <= b < inf_pattern f /\ units_of f b = v else b = inf_pattern f.

(** What [strtod] and [strtof] give for the number [c * 10^e]. *)
Definition correctly_rounded (f : fmt) (neg : bool) (c e : Z) (rest : list Z) (err : Z) (res : Z * list Z * Z) : Prop :=
  exists v b err', res = (sign_bit f neg + b, rest, err') /\
    nearest (mant_bits f) (c * 10 ^ Z.max 0 e * 2 ^ (- unit_exp f)) (10 ^ Z.max 0 (- e)) v /\ encodes f b v /\
    (2 ^ (emax f + 1 - unit_exp f) <= v \/ (v = 0 /\ c <> 0) -> err' = ERANGE) /\
    (c = 0 \/ 2 ^ (mant_bits f - 1) < v < 2 ^ (emax f + 1 - unit_exp f) -> err' = err).

(** Significand and exponent, put into the pattern of the format. *)
Definition pattern (f : fmt) (q e2 : Z) : Z :=
  if q <? 2 ^ (mant_bits f - 1) then q else (e2 - unit_exp f + 1) * 2 ^ (mant_bits f - 1) + (q - 2 ^ (mant_bits f - 1)).

(** The largest exponent that stays below infinity. *)
Lemma finite_exp f q k : ieee f -> 2 ^ (mant_bits f - 1) <= q -> 0 <= k -> Z.log2 (q * 2 ^ k) + unit_exp f <= emax f -> k <= 2 * emax f - 1.
Proof.
  intros Hf Hq Hk Hl. assert (HP : 0 <= mant_bits f - 1 /\ mant_bits f - 1 + unit_exp f = 1 - emax f) by (destruct Hf as [-> | ->]; done).
  pose proof (pow_pos (mant_bits f - 1) ltac:(lia)). pose proof (pow_pos k Hk). rewrite Z.log2_mul_pow2 in Hl by lia. apply Z.log2_le_pow2 in Hq; lia.
Qed.

Lemma pattern_encodes f q e2 v : ieee f -> q * 2 ^ (e2 - unit_exp f) = v -> 0 < q < 2 ^ mant_bits f -> unit_exp f <= e2 ->
  2 ^ (mant_bits f - 1) <= q \/ e2 = unit_exp f -> Z.log2 v + unit_exp f <= emax f ->
  encodes f (pattern f q e2) v /\ (2 ^ (mant_bits f - 1) <= q -> 1 <= e2 - unit_exp f + 1 <= 2 * emax f).
Proof.
  intros Hf <- Hq He2 Hn Hl. assert (HP : 1 <= mant_bits f - 1 /\ 1 <= emax f /\ 0 <= emax f + 1 - unit_exp f) by (destruct Hf as [-> | ->]; done).
  set (k := e2 - unit_exp f) in *. pose proof (pow_pos k ltac:(lia)) as Hpk. pose proof (pow_pos (mant_bits f - 1) ltac:(lia)) as Hph.
  assert (Hexp : 2 ^ (mant_bits f - 1) <= q -> 1 <= k + 1 <= 2 * emax f) by (intros H; pose proof (finite_exp f q k Hf H ltac:(lia) Hl); lia). split; [|exact Hexp].
  unfold encodes. replace (_ <? _) with true by (symmetry; apply Z.ltb_lt, Z.log2_lt_pow2; [apply Z.mul_pos_pos; lia|lia]).
  unfold inf_pattern, units_of, pattern. fold k. cbv zeta. replace (2 ^ mant_bits f) with (2 * 2 ^ (mant_bits f - 1)) in Hq by (rewrite <- Z.pow_succ_r by lia; f_equal; lia).
  set (h := 2 ^ (mant_bits f - 1)) in *. clearbody h. destruct (Z.ltb_spec q h).
  - assert (k = 0) as -> by lia. rewrite Z.div_small, Z.mod_small by lia. split; [nia|]. cbn. lia.
  - specialize (Hexp ltac:(lia)). rewrite Z.div_add_l, (Z.add_comm _ (q - h)), Z.mod_add, Z.div_small, (Z.mod_small (q - h)) by lia. split; [nia|].
    replace (k + 1 + 0 =? 0) with false by lia. by replace (h + (q - h)) with q by lia; replace (k + 1 + 0 - 1) with k by lia.
Qed.

(** Sign, biased exponent and fraction are disjoint fields. *)
Lemma join_fields neg w n s b x : 0 <= w -> 0 <= n -> s = Z.shiftl (if neg : bool then 2 ^ w else 0) n -> 0 <= b < 2 ^ w -> 0 <= x < 2 ^ n ->
  Z.lor (Z.lor s (Z.shiftl b n)) x = (if neg then 2 ^ w * 2 ^ n else 0) + (b * 2 ^ n + x).
Proof.
  intros Hw Hn -> Hb Hx. rewrite <- Z.shiftl_lor, lor_shift by done. destruct neg; [|rewrite Z.lor_0_l; lia].
  replace (2 ^ w) with (Z.shiftl 1 w) at 1 by (rewrite Z.shiftl_mul_pow2 by done; lia). rewrite lor_shift by done. lia.
Qed.

(** The three fields as the code joins them, for either format. *)
Lemma assemble_fields f (neg : bool) w q e2 : ieee f -> 2 ^ w = 2 * (emax f + 1) -> 0 <= w -> 0 <= q < 2 ^ mant_bits f ->
  (2 ^ (mant_bits f - 1) <= q -> 1 <= e2 - unit_exp f + 1 <= 2 * emax f) ->
  let n := mant_bits f - 1 in let s := Z.shiftl (if neg then 2 ^ w else 0) n in
  (if q =? 0 then s else if negb (Z.shiftr q n =? 0) then Z.lor (Z.lor s (Z.shiftl (e2 + n + emax f) n)) (Z.land q (Z.ones n)) else Z.lor s q) =
  sign_bit f neg + pattern f q e2.
Proof.
  intros Hf Hw Hw0 Hq He n s. assert (Hn : 0 <= n /\ mant_bits f = n + 1 /\ unit_exp f = 1 - emax f - n) by (subst n; destruct Hf as [-> | ->]; done).
  destruct Hn as (Hn & HP & Hu). unfold sign_bit, pattern. rewrite <- Hw. replace (mant_bits f - 1) with n in * by lia. rewrite HP, Z.pow_add_r in Hq by lia. change (2 ^ 1) with 2 in Hq.
  rewrite Z.shiftr_div_pow2 by done. pose proof (pow_pos n Hn) as Hp. destruct (Z.eqb_spec q 0) as [->|H0].
  { replace (0 <? 2 ^ n) with true by lia. subst s. rewrite Z.shiftl_mul_pow2 by done. destruct neg; lia. }
  destruct (Z.ltb_spec q (2 ^ n)).
  - rewrite Z.div_small by lia. cbn [Z.eqb negb]. replace (Z.lor s q) with (Z.lor (Z.lor s (Z.shiftl 0 n)) q) by (by rewrite Z.shiftl_0_l, Z.lor_0_r).
    rewrite (join_fields neg w n s 0 q) by first [done | lia]. lia.
  - specialize (He ltac:(lia)). assert (q / 2 ^ n = 1) as -> by (symmetry; apply (Z.div_unique_pos _ _ _ (q - 2 ^ n)); lia). cbn [Z.eqb negb].
    rewrite Z.land_ones, (join_fields neg w n s) by first [done | lia | apply Z.mod_pos_bound; lia].
    replace (q mod 2 ^ n) with (q - 2 ^ n); [|apply (Z.mod_unique_pos _ _ 1); lia]. rewrite Hu. replace (e2 - (1 - emax f - n) + 1) with (e2 + n + emax f) by lia. done.
Qed.

Lemma assemble_double_spec r neg k : k = KZero \/ k = KFinite -> r_is_inf r = false -> 0 <= r_sig r < 2 ^ 53 ->
  (2 ^ 52 <= r_sig r -> 1 <= r_exp2 r - -1074 + 1 <= 2046) -> assemble_double r neg 0 k = sign_bit DOUBLE_FMT neg + pattern DOUBLE_FMT (r_sig r) (r_exp2 r).
Proof.
  intros Hk Hi Hs He. rewrite <- (assemble_fields DOUBLE_FMT neg 11) by first [done | by left]. cbv zeta.
  change (mant_bits DOUBLE_FMT - 1) with 52. change (emax DOUBLE_FMT) with 1023. change (Z.ones 52) with 0x000fffffffffffff.
  replace (Z.shiftl (if neg then 2 ^ 11 else 0) 52) with (if neg then 2 ^ 63 else 0) by (by destruct neg).
  transitivity (if r_sig r =? 0 then if neg then 2 ^ 63 else 0 else
    if negb (Z.shiftr (r_sig r) 52 =? 0) then Z.lor (Z.lor (if neg then 2 ^ 63 else 0) (u64 (Z.shiftl (u64 (r_exp2 r + 52 + 1023)) 52))) (Z.land (r_sig r) 0x000fffffffffffff)
    else Z.lor (if neg then 2 ^ 63 else 0) (r_sig r)); [unfold assemble_double; rewrite Hi; by destruct Hk as [-> | ->]|].
  destruct (r_sig r =? 0); [done|]. destruct (Z.eqb_spec (Z.shiftr (r_sig r) 52) 0) as [|Hn]; [done|]. cbn [negb]. rewrite Z.shiftr_div_pow2 in Hn by done.
  specialize (He ltac:(zdm; nia)). rewrite (u64_small (_ + 1023)) by (unfold is_u64; lia). rewrite u64_small; [done|]. unfold is_u64. rewrite Z.shiftl_mul_pow2 by done. lia.
Qed.

Lemma assemble_float_spec r neg k : k = KZero \/ k = KFinite -> r_is_inf r = false -> 0 <= r_sig r < 2 ^ 24 ->
  (2 ^ 23 <= r_sig r -> 1 <= r_exp2 r - -149 + 1 <= 254) -> assemble_float r neg 0 k = sign_bit FLOAT_FMT neg + pattern FLOAT_FMT (r_sig r) (r_exp2 r).
Proof.
  intros Hk Hi Hs He. rewrite <- (assemble_fields FLOAT_FMT neg 8) by first [done | by right]. cbv zeta.
  change (mant_bits FLOAT_FMT - 1) with 23. change (emax FLOAT_FMT) with 127. change (Z.ones 23) with 0x007fffff.
  replace (Z.shiftl (if neg then 2 ^ 8 else 0) 23) with (if neg then 0x80000000 else 0) by (by destruct neg).
  transitivity (if r_sig r =? 0 then if neg then 0x80000000 else 0 else
    if negb (Z.shiftr (u32 (r_sig r)) 23 =? 0) then Z.lor (Z.lor (if neg then 0x80000000 else 0) (u32 (Z.shiftl (u32 (r_exp2 r + 23 + 127)) 23))) (Z.land (u32 (r_sig r)) 0x007fffff)
    else Z.lor (if neg then 0x80000000 else 0) (u32 (r_sig r))); [unfold assemble_float; rewrite Hi; by destruct Hk as [-> | ->]|].
  rewrite (u32_small (r_sig r)) by lia. destruct (r_sig r =? 0); [done|]. destruct (Z.eqb_spec (Z.shiftr (r_sig r) 23) 0) as [|Hn]; [done|].
  cbn [negb]. rewrite Z.shiftr_div_pow2 in Hn by done.
  specialize (He ltac:(zdm; nia)). rewrite (u32_small (_ + 127)) by lia. rewrite u32_small; [done|]. rewrite Z.shiftl_mul_pow2 by done. lia.
Qed.

(** What [finish] needs of the assembling of bits. *)
Definition assembles (f : fmt) (assemble : rounded -> bool -> Z -> kind -> Z) : Prop :=
  ieee f /\ (forall r neg k, k = KZero \/ k = KFinite -> r_is_inf r = false -> 0 <= r_sig r < 2 ^ mant_bits f ->
    (2 ^ (mant_bits f - 1) <= r_sig r -> 1 <= r_exp2 r - unit_exp f + 1 <= 2 * emax f) -> assemble r neg 0 k = sign_bit f neg + pattern f (r_sig r) (r_exp2 r)) /\
  (forall r neg, r_is_inf r = true -> assemble r neg 0 KFinite = sign_bit f neg + inf_pattern f).

Lemma assembles_double : assembles DOUBLE_FMT assemble_double.
Proof. split; [by left|]. split; [exact assemble_double_spec|]. intros r neg Hi. unfold assemble_double. rewrite Hi. by destruct neg. Qed.

Lemma assembles_float : assembles FLOAT_FMT assemble_float.
Proof. split; [by right|]. split; [exact assemble_float_spec|]. intros r neg Hi. unfold assemble_float. rewrite Hi. by destruct neg. Qed.

Lemma encodes_zero f : ieee f -> encodes f 0 0.
Proof. by intros [-> | ->]; vm_compute. Qed.

Lemma pattern_zero f e2 : ieee f -> pattern f 0 e2 = 0.
Proof. by intros [-> | ->]. Qed.

Lemma rounded_bits f asm r v neg : assembles f asm -> 0 <= v -> rounded_as f v r -> exists b, asm r neg 0 KFinite = sign_bit f neg + b /\ encodes f b v.
Proof.
  intros (Hf & Hfin & Hinf) Hv0 (Hi & Hr & _). destruct (ieee_facts f Hf) as (Hok & Hu & He & HP & Hem). destruct (r_is_inf r) eqn:Ei.
  - exists (inf_pattern f). split; [by apply Hinf|]. destruct (proj1 Hi eq_refl) as [Hne Hlog]. unfold encodes. replace (_ <? _) with false; [done|].
    symmetry. apply Z.ltb_ge, Z.log2_le_pow2; lia.
  - destruct (Hr eq_refl) as (Hval & Hs & Hz & Hnz). assert (Hlog : v <> 0 -> Z.log2 v + unit_exp f <= emax f) by (intros H; destruct (Z.le_gt_cases (Z.log2 v + unit_exp f) (emax f)); [done|by discriminate (proj2 Hi ltac:(lia))]).
    exists (pattern f (r_sig r) (r_exp2 r)). destruct (Z.eq_dec v 0) as [->|Hne].
    + destruct (Hz eq_refl) as [Hs0 _]. pose proof (pow_pos (mant_bits f - 1) ltac:(lia)) as Hp. split; [apply Hfin; auto; lia|]. rewrite Hs0, pattern_zero by done. by apply encodes_zero.
    + destruct (Hnz Hne) as [Hge Hn]. assert (Hs0 : 0 < r_sig r) by (destruct (Z.eq_dec (r_sig r) 0) as [E|]; [rewrite E in Hval; lia|lia]).
      destruct (pattern_encodes f (r_sig r) (r_exp2 r) v Hf Hval ltac:(lia) Hge Hn (Hlog Hne)) as [Henc Hexp]. split; [apply Hfin; auto|done].
Qed.

(** The bits and errno behind a conversion. *)
Lemma finish_bits f asm pr cv v c err s : assembles f asm -> pr_kind pr = KFinite -> convert pr f = Some cv -> 0 <= v -> conv_as f v cv -> c <> 0 ->
  exists b err', finish f asm err s pr = (sign_bit f (pr_neg pr) + b, pr_end pr, err') /\ encodes f b v /\
    (2 ^ (emax f + 1 - unit_exp f) <= v \/ (v = 0 /\ c <> 0) -> err' = ERANGE) /\
    (c = 0 \/ 2 ^ (mant_bits f - 1) < v < 2 ^ (emax f + 1 - unit_exp f) -> err' = err).
Proof.
  intros Ha Hk Hcv Hv Has Hc. destruct (ieee_facts f (proj1 Ha)) as (Hok & Hu & He & HP & Hem). pose proof (pow_pos (mant_bits f - 1) ltac:(lia)) as Hp. unfold finish. rewrite Hk, Hcv. destruct cv as [| |r]; cbn [conv_as] in Has.
  - exists (inf_pattern f), ERANGE. destruct Ha as (Hf & _ & Hinf). split; [by rewrite Hinf|]. unfold encodes. replace (v <? _) with false by lia. split; [done|]. split; [done|lia].
  - subst v. exists 0, ERANGE. destruct Ha as (Hf & Hfin & _). rewrite Hfin, pattern_zero by (cbn; auto; lia). split; [done|]. split; [by apply encodes_zero|]. split; [done|lia].
  - destruct (rounded_bits f asm r v (pr_neg pr) Ha Hv Has) as (b & -> & Hb). eexists b, _. split; [reflexivity|]. split; [done|]. destruct Has as (Hi & Hr & Hun). split.
    + intros [Hge|[-> _]]; [|destruct (r_is_inf r); [done|]; by destruct (Hr eq_refl) as (_ & _ & [_ ->]%(fun H => H eq_refl) & _)].
      assert (2 ^ (emax f + 1 - unit_exp f) > 0) by (pose proof (pow_pos (emax f + 1 - unit_exp f) ltac:(lia)); lia).
      apply Z.log2_le_pow2 in Hge as Hlog; [|lia]. by rewrite (proj2 Hi ltac:(lia)).
    + intros [Hc0|[Hlo Hhi]]; [done|]. destruct (r_is_inf r) eqn:Ei.
      * destruct (proj1 Hi eq_refl) as [_ Hlog]. apply Z.log2_lt_pow2 in Hhi; lia.
      * destruct (r_underflow r); [|done]. specialize (Hun ltac:(lia) eq_refl). lia.
Qed.

(** ** Decimal numbers as text *)

(** [s] begins with a decimal number: white space, a sign, digits with at most
    one point among them, an exponent; its value is [c * 10^e] with its sign,
    and [rest] is what follows. *)
Inductive decimal_text : list Z -> bool -> Z -> Z -> list Z -> Prop :=
  | decimal_intro ws sg neg ds1 pt ds2 ex e rest :
      Forall (fun c => is_space_c c = true) ws -> sign sg neg -> digit_chars ds1 -> digit_chars ds2 -> ds1 ++ ds2 <> [] ->
      (pt = [] /\ ds2 = []) \/ pt = [chr "."] -> exp_text ex e -> stops pt ex rest -> len (ds1 ++ ds2) <= 10 ^ 7 ->
      decimal_text (ws ++ sg ++ ds1 ++ pt ++ ds2 ++ ex ++ rest) neg (value 10 (digit_values (ds1 ++ ds2))) (e - len ds2) rest.

Lemma zero_rounded f asm neg e rest err s : assembles f asm ->
  correctly_rounded f neg 0 e rest err (finish f asm err s (mkParsed KZero neg false [] 0 0 0 false 0 rest)).
Proof.
  intros (Hf & Hfin & _). destruct (ieee_facts f Hf) as (Hok & Hu & He & HP & Hem). pose proof (pow_pos (mant_bits f - 1) ltac:(lia)) as Hp. exists 0, 0, err. unfold finish. cbn [pr_kind pr_neg pr_end].
  rewrite Hfin, pattern_zero by (cbn; auto; lia). split; [done|]. split; [|split; [by apply encodes_zero|]].
  - apply nearest_zero; [lia|apply units_den_pos|lia|]. pose proof (units_den_pos e). lia.
  - split; [|done]. pose proof (pow_pos (emax f + 1 - unit_exp f) ltac:(lia)). lia.
Qed.

Lemma finish_rounded f asm s neg c e rest err : assembles f asm -> decimal_text s neg c e rest -> correctly_rounded f neg c e rest err (finish f asm err s (parse s)).
Proof.
  intros Ha Ht. destruct Ht as [ws sg neg ds1 pt ds2 ex e rest Hw Hs H1 H2 Hne Hpt Hex Hstop Hlen].
  destruct (parse_decimal ws sg neg ds1 pt ds2 ex e rest Hw Hs H1 H2 Hne Hpt Hex Hstop Hlen) as (r & Hre & ->).
  assert (Hd : digits10 (digit_values (ds1 ++ ds2))) by (apply digit_values_range, Forall_app; done). rewrite length_app in Hlen.
  assert (Hl : len (strip (digit_values (ds1 ++ ds2))) <= len ds1 + len ds2).
  { destruct (strip_suffix (digit_values (ds1 ++ ds2))) as [pre Hpre]. apply (f_equal length) in Hpre. rewrite length_app, digit_values_len, length_app in Hpre. lia. }
  rewrite <- strip_value. destruct (strip (digit_values (ds1 ++ ds2))) as [|d z] eqn:Ez; [by apply zero_rounded|].
  assert (Hdz : digits10 (d :: z)) by (destruct (strip_suffix (digit_values (ds1 ++ ds2))) as [pre Hpre]; rewrite Hpre, Ez in Hd; by apply Forall_app in Hd as [_ Hd]).
  pose proof (strip_head _ _ _ Ez) as Hd0. replace (len (d :: z) =? 0) with false by (cbn [length]; lia).
  destruct (convert_text f neg d z (len ds2) r e rest (proj1 Ha) Hdz Hd0 ltac:(lia) ltac:(lia) Hre) as (cv & v & Hcv & Hv & Has).
  set (pr := mkParsed KFinite _ _ _ _ _ _ _ _ _) in *.
  destruct (finish_bits f asm pr cv v (value 10 (d :: z)) err (ws ++ sg ++ ds1 ++ pt ++ ds2 ++ ex ++ rest) Ha eq_refl Hcv (nearest_nonneg _ _ _ _ Hv) Has) as (b & err' & -> & Hb & He1 & He2).
  { pose proof (value_lower d z Hdz Hd0). pose proof (pow10_pos (len z) ltac:(lia)). lia. }
  exists v, b, err'. split; [reflexivity|]. split; [exact Hv|]. split; [exact Hb|]. split; [exact He1|exact He2].
Qed.

(** C13. [strtod] and [strtof] are correctly rounded: for the text of any
    decimal number of up to ten million digits, with any exponent, the bits
    returned are those of the nearest number of the format, ties to even, with
    the sign of the text, or of infinity beyond the range; the end pointer is
    behind the number; errno is ERANGE for an overflow and for a nonzero number
    that rounds to zero, and is left alone for zero and for every result above
    the smallest normal number. The bound of the big numbers is never met. *)
Theorem strtod_correctly_rounded s neg c e rest err : decimal_text s neg c e rest ->
  correctly_rounded DOUBLE_FMT neg c e rest err (strtod err s) /\ correctly_rounded FLOAT_FMT neg c e rest err (strtof err s).
Proof. intros Ht. split; apply finish_rounded; auto using assembles_double, assembles_float. Qed.

Example sample_text : decimal_text (str " -1.25e+2;") true 125 0 (str ";").
Proof.
  assert (Hex : exp_text (str "e+2") 2).
  { apply (exp_some (chr "e") (str "+") false (str "2")); [by left|apply sign_plus|by repeat constructor|done]. }
  apply (decimal_intro (str " ") (str "-") true (str "1") (str ".") (str "25") (str "e+2") 2 (str ";"));
    [by repeat constructor|apply sign_minus|by repeat constructor|by repeat constructor|done|by right|exact Hex|by split_and!|done].
Defined.

Lemma strtod_correctly_rounded_witness :
  (strtod 0 (str " -1.25e+2;")).1.1 = 0xC05F400000000000 /\
  correctly_rounded DOUBLE_FMT true 125 0 (str ";") 0 (strtod 0 (str " -1.25e+2;")) /\ correctly_rounded FLOAT_FMT true 125 0 (str ";") 0 (strtof 0 (str " -1.25e+2;")).
Proof. split; [by vm_compute|]. apply (strtod_correctly_rounded (str " -1.25e+2;") true 125 0 (str ";") 0). exact sample_text. Defined.
