(* ===== verification/FpReadBack.v ===== *)
(** * A double printed with %e reads back

    Seventeen significant digits tell all doubles apart: [strtod] gives back
    the bits that [printf] was given. *)

From S2P Require Import Prelude Mem Digits StrFunc FpFmt FpFmtSpec FpRound Format FormatSim FormatText FormatFixed NumConv FormatNumbers.
From S2P Require Import Nearest Strtod StrtodRound StrtodParse StrtodConv StrtodThms.

(** ** Numbers of the format are far apart *)

Lemma spacing P u v : 1 <= P -> representable P u -> representable P v -> u <> v -> v <= 2 ^ P * Z.abs (u - v).
Proof.
  intros HP (m & k & Hm & Hk & ->) (m' & k' & Hm' & Hk' & ->) Hne. pose proof (pow_pos k Hk) as Hp. pose proof (pow_pos k' Hk') as Hp'. pose proof (pow_pos P ltac:(lia)) as HpP.
  destruct (Z.le_gt_cases k' k) as [Hle|Hlt].
  - assert (E : 2 ^ k = 2 ^ (k - k') * 2 ^ k') by (rewrite <- Z.pow_add_r by lia; f_equal; lia). rewrite E in Hne |- *. set (x := m * 2 ^ (k - k')).
    replace (m * (2 ^ (k - k') * 2 ^ k') - m' * 2 ^ k') with ((x - m') * 2 ^ k') by (subst x; ring). rewrite Z.abs_mul, (Z.abs_eq (2 ^ k')) by lia.
    assert (Ha : 1 <= Z.abs (x - m')) by (enough (x <> m') by lia; intros <-; apply Hne; subst x; ring). rewrite Z.mul_assoc. apply Z.mul_le_mono_nonneg_r; nia.
  - assert (E : 2 ^ k' = 2 ^ (k' - k) * 2 ^ k) by (rewrite <- Z.pow_add_r by lia; f_equal; lia). rewrite E in Hne |- *. set (x := m' * 2 ^ (k' - k)).
    replace (m' * (2 ^ (k' - k) * 2 ^ k)) with (x * 2 ^ k) in * by (subst x; ring).
    replace (m * 2 ^ k - x * 2 ^ k) with ((m - x) * 2 ^ k) by ring. rewrite Z.abs_mul, (Z.abs_eq (2 ^ k)) by lia.
    assert (Ha : 1 <= Z.abs (m - x)) by (enough (m <> x) by lia; intros ->; done). rewrite Z.mul_assoc. apply Z.mul_le_mono_nonneg_r; [lia|]. clearbody x. nia.
Qed.

(** The nearest number of a fraction close to a number of the format. *)
Lemma nearest_close P N D v w : 1 <= P -> 0 < D -> representable P v -> 2 * 2 ^ P * Z.abs (N - v * D) < v * D -> nearest P N D w -> w = v.
Proof.
  intros HP HD Hv Hclose [Hw Hn]. destruct (Z.eq_dec w v) as [|Hne]; [done|]. exfalso.
  pose proof (spacing P w v HP Hw Hv Hne) as Hsp. destruct (Hn v Hv) as [Hle _]. pose proof (pow_pos P ltac:(lia)) as HpP.
  assert (Htri : Z.abs (w - v) * D <= Z.abs (N - w * D) + Z.abs (N - v * D)) by (rewrite <- (Z.abs_eq D) at 1 by lia; rewrite <- Z.abs_mul, Z.mul_sub_distr_r; lia).
  assert (Z.abs (w - v) * D <= 2 * Z.abs (N - v * D)) by lia. nia.
Qed.

(** ** The bits of a number *)

Definition pattern_of (f : fmt) (v : Z) : Z :=
  let h := 2 ^ (mant_bits f - 1) in
  if v <? h then v else let k := Z.log2 v - (mant_bits f - 1) in (k + 1) * h + (v / 2 ^ k - h).

Lemma pattern_of_units f b : 1 <= mant_bits f -> 0 <= b -> pattern_of f (units_of f b) = b.
Proof.
  intros HP Hb. unfold pattern_of, units_of. cbv zeta. pose proof (pow_pos (mant_bits f - 1) ltac:(lia)) as Hph. set (n := mant_bits f - 1) in *. set (h := 2 ^ n) in *.
  pose proof (Z.mod_pos_bound b h Hph) as Hm. pose proof (Z.div_mod b h ltac:(lia)) as Hdm. pose proof (Z.div_pos b h Hb Hph) as Hd0.
  destruct (Z.eqb_spec (b / h) 0) as [E|E]; [replace (_ <? h) with true by lia; lia|].
  set (k := b / h - 1). pose proof (pow_pos k ltac:(lia)) as Hpk. replace (_ <? h) with false by nia.
  assert (Hl : Z.log2 ((h + b mod h) * 2 ^ k) - n = k).
  { rewrite Z.log2_mul_pow2 by lia. enough (Z.log2 (h + b mod h) = n) by lia. apply Z.log2_unique; [lia|]. fold h. rewrite Z.pow_succ_r by lia. fold h. lia. }
  rewrite Hl, Z.div_mul by lia. subst k. lia.
Qed.

Lemma dbl_fields bits : 0 <= bits < 2 ^ 64 -> bits = sign_bit DOUBLE_FMT (Z.testbit bits 63) + (bexp_of bits * 2 ^ 52 + frac_of bits).
Proof.
  intros Hb. unfold bexp_of, frac_of, FRAC_MASK. change 0x7ff with (Z.ones 11). change (2 ^ 52 - 1) with (Z.ones 52). rewrite !Z.land_ones, Z.shiftr_div_pow2 by lia.
  assert (Ht : Z.b2z (Z.testbit bits 63) = bits / 2 ^ 63) by (rewrite Z.testbit_spec' by lia; apply Z.mod_small; zdm; lia).
  change (sign_bit DOUBLE_FMT (Z.testbit bits 63)) with (if Z.testbit bits 63 then 2 ^ 63 else 0). destruct (Z.testbit bits 63); cbn [Z.b2z] in Ht; zdm; lia.
Qed.

(** The number of a finite double, in units of the smallest subnormal. *)
Definition dbl_units (bits : Z) : Z := dbl_m bits * 2 ^ (dbl_e2 bits + 1074).

Lemma dbl_units_of bits : bexp_of bits <> 0x7ff ->
  units_of DOUBLE_FMT (bexp_of bits * 2 ^ 52 + frac_of bits) = dbl_units bits /\ 0 <= bexp_of bits * 2 ^ 52 + frac_of bits < inf_pattern DOUBLE_FMT.
Proof.
  intros Hf. pose proof (frac_of_range bits) as Hr. pose proof (bexp_of_range bits) as He. split; [|change (inf_pattern DOUBLE_FMT) with (2047 * 2 ^ 52); lia].
  unfold units_of, dbl_units, dbl_m, dbl_e2. cbv zeta. change (2 ^ (mant_bits DOUBLE_FMT - 1)) with (2 ^ 52).
  rewrite Z.div_add_l, (Z.add_comm _ (frac_of bits)), Z.mod_add, Z.div_small, (Z.mod_small (frac_of bits)), Z.add_0_r by lia.
  destruct (bexp_of bits =? 0) eqn:E; [change (2 ^ (-1074 + 1074)) with 1; lia|]. rewrite (Z.lor_comm (frac_of bits)), lor_shift by lia. do 2 f_equal; lia.
Qed.

(** Every finite double is in range and representable. *)
Lemma dbl_units_range bits : bexp_of bits <> 0x7ff -> representable 53 (dbl_units bits) /\ 0 <= dbl_units bits < 2 ^ (emax DOUBLE_FMT + 1 - unit_exp DOUBLE_FMT).
Proof.
  intros Hf. destruct (dbl_range bits Hf) as [Hm He]. split; [exists (dbl_m bits), (dbl_e2 bits + 1074); split; [lia|]; split; [lia|done]|].
  change (emax DOUBLE_FMT + 1 - unit_exp DOUBLE_FMT) with (53 + 2045). rewrite Z.pow_add_r by done. unfold dbl_units.
  pose proof (pow_pos (dbl_e2 bits + 1074) ltac:(lia)) as Hp. assert (2 ^ (dbl_e2 bits + 1074) <= 2 ^ 2045) by (apply Z.pow_le_mono_r; lia).
  split; [apply Z.mul_nonneg_nonneg; lia|]. apply Z.lt_le_trans with (2 ^ 53 * 2 ^ (dbl_e2 bits + 1074)); [apply Z.mul_lt_mono_pos_r; lia|].
  apply Z.mul_le_mono_nonneg_l; [done|lia].
Qed.

(** ** The digits %e shows *)

Lemma rhe_error a b : 0 < b -> 2 * Z.abs (round_half_even a b * b - a) <= b.
Proof. intros Hb. unfold round_half_even. cbv zeta. pose proof (Z.div_mod a b ltac:(lia)). pose proof (Z.mod_pos_bound a b Hb). case_match; nia. Qed.

Lemma rhe_upper a b M : 0 < b -> a < M * b -> round_half_even a b <= M.
Proof. intros Hb Ha. unfold round_half_even. cbv zeta. assert (a / b < M) by (apply Z.div_lt_upper_bound; lia). case_match; lia. Qed.

(** All digits of a rounding to [P + 1] places, the zero behind a carry left out. *)
Lemma e_digits dec rr P : dec_ok dec -> rounds_to dec (P + 1) rr -> 0 <= P ->
  value 10 (frac_digits (Z.to_nat (P + 1)) rr (fr_x rr)) * 10 ^ len (fr_r rr) = value 10 (fr_r rr) * 10 ^ (P + 1).
Proof.
  intros (Hd & _ & (c0 & r0 & Ed & Hc0) & _) (Hr & Hh & Hl & Hx & Hpos & Hv & _) HP. set (n := len (fd_d dec)) in *. set (lr := len (fr_r rr)) in *.
  assert (Hn : 1 <= n) by (subst n; rewrite Ed; cbn [length]; lia). destruct (Z.le_gt_cases lr (P + 1)) as [Hle|Hgt].
  - rewrite window_value by lia. fold lr. rewrite <- Z.mul_assoc, <- Z.pow_add_r by lia. do 2 f_equal. lia.
  - assert (lr = P + 2 /\ P + 1 <= n) as [El Hkn] by lia. set (k := Z.to_nat (P + 1)). set (c := value 10 (frac_digits k rr (fr_x rr))).
    assert (Hw : c * 10 + fp_digit rr (fr_x rr - Z.of_nat k) = value 10 (fr_r rr)).
    { pose proof (window_value rr (k + 1) (fr_x rr) ltac:(lia) ltac:(fold lr; lia)) as Hw. fold lr in Hw. replace (fr_x rr - lr - (fr_x rr - Z.of_nat (k + 1))) with 0 in Hw by lia.
      rewrite frac_digits_app, value_app in Hw by lia. cbn [frac_digits length] in Hw. change (10 ^ Z.of_nat 1) with 10 in Hw. rewrite value_cons in Hw by lia.
      change (value 10 []) with 0 in Hw. cbn [length] in Hw. change (Z.of_nat 0) with 0 in Hw. rewrite !Z.pow_0_r in Hw. fold c in Hw. lia. }
    assert (Hten : value 10 (fr_r rr) = 10 * 10 ^ P).
    { rewrite <- Z.pow_succ_r by lia. replace (Z.succ P) with (P + 1) by lia. apply Z.le_antisymm.
      - rewrite Hv. apply rhe_upper; [apply pow10_pos; lia|]. rewrite <- Z.pow_add_r by lia. replace (P + 1 + Z.max 0 (n - (P + 1))) with n by lia.
        by apply (value_bound 10 (fd_d dec)).
      - destruct (fr_r rr) as [|y r] eqn:Er; [cbn in lr; lia|]. pose proof (value_lower y r Hr (Hh y r eq_refl)). subst lr. cbn [length] in El. by replace (P + 1) with (len r) by lia. }
    pose proof (fp_digit_range rr (fr_x rr - Z.of_nat k) Hr) as Hf. rewrite El. replace (P + 2) with (Z.succ (P + 1)) by lia. rewrite (Z.pow_succ_r 10 (P + 1)) by lia.
    assert (Ec : c = 10 ^ P) by lia. rewrite Ec, Hten. ring.
Qed.

(** The same number with two exponents. *)
Lemma scaled_digits c W lr P e p h : 0 <= lr -> 0 <= P -> 0 <= h -> c * 10 ^ lr = W * 10 ^ (P + 1) -> e - p = lr - (P + 1) + h ->
  c * (10 ^ Z.max 0 e * 10 ^ Z.max (- p) 0) = W * 10 ^ h * (10 ^ Z.max p 0 * 10 ^ Z.max 0 (- e)).
Proof.
  intros Hlr HP Hh Hc He. apply (Z.mul_cancel_r _ _ (10 ^ lr)); [pose proof (pow10_pos lr Hlr); lia|].
  transitivity (c * 10 ^ lr * (10 ^ Z.max 0 e * 10 ^ Z.max (- p) 0)); [ring|]. rewrite Hc. clear Hc.
  rewrite <- !Z.mul_assoc, <- !Z.pow_add_r by lia. do 2 f_equal. lia.
Qed.

Lemma scaled_double V m e2 p u : - u <= e2 -> 0 <= u -> V * 10 ^ Z.max p 0 * 2 ^ Z.max (- e2) 0 = m * 2 ^ Z.max e2 0 * 10 ^ Z.max (- p) 0 ->
  m * 2 ^ (e2 + u) * 10 ^ Z.max (- p) 0 = V * 10 ^ Z.max p 0 * 2 ^ u.
Proof.
  intros He Hu H. set (k := u - Z.max (- e2) 0). replace (e2 + u) with (Z.max e2 0 + k) by lia. replace u with (Z.max (- e2) 0 + k) by lia. rewrite !Z.pow_add_r by lia.
  transitivity (m * 2 ^ Z.max e2 0 * 10 ^ Z.max (- p) 0 * 2 ^ k); [ring|]. rewrite <- H. ring.
Qed.

(** Rounding a number of [n] digits to 17 or more of them moves it by less than [2^-54] of it. *)
Lemma rounded_close V n P : 10 ^ (n - 1) <= V -> 1 <= n -> 16 <= P ->
  let h := Z.max 0 (n - (P + 1)) in 2 * 2 ^ 53 * Z.abs (round_half_even V (10 ^ h) * 10 ^ h - V) < V.
Proof.
  intros HV Hn HP h. pose proof (pow10_pos h ltac:(lia)) as Hph. pose proof (rhe_error V (10 ^ h) Hph) as Herr. destruct (Z.eq_dec h 0) as [E|E].
  - rewrite E in *. change (10 ^ 0) with 1 in *. pose proof (pow10_pos (n - 1) ltac:(lia)). lia.
  - apply Z.le_lt_trans with (2 ^ 53 * 10 ^ h); [lia|]. apply Z.lt_le_trans with (10 ^ 16 * 10 ^ h); [lia|].
    rewrite <- Z.pow_add_r by lia. apply Z.le_trans with (10 ^ (n - 1)); [apply Z.pow_le_mono_r; lia|done].
Qed.

Lemma close_scale A B T Q N X Y : 0 < T -> 0 < Q -> N * T = A * Q -> X * T = B * Q -> Y * Z.abs (A - B) < B -> Y * Z.abs (N - X) < X.
Proof.
  intros HT HQ HN HX H. apply (Z.mul_lt_mono_pos_r T); [done|]. rewrite HX, <- Z.mul_assoc. rewrite <- (Z.abs_eq T) by lia.
  rewrite <- Z.abs_mul, Z.mul_sub_distr_r, HN, HX, <- Z.mul_sub_distr_r, Z.abs_mul, (Z.abs_eq Q), Z.mul_assoc by lia. by apply Z.mul_lt_mono_pos_r.
Qed.

(** The decimal number printed is close to the double. *)
Lemma e_close dec rr P m e2 u : dec_ok dec -> denotes dec m e2 -> rounds_to dec (P + 1) rr -> 16 <= P -> - u <= e2 -> 0 <= u ->
  let c := value 10 (frac_digits (Z.to_nat (P + 1)) rr (fr_x rr)) in let e := fr_x rr - P in let v := m * 2 ^ (e2 + u) in
  2 * 2 ^ 53 * Z.abs (c * 10 ^ Z.max 0 e * 2 ^ u - v * 10 ^ Z.max 0 (- e)) < v * 10 ^ Z.max 0 (- e).
Proof.
  intros Hok Hden Hr HP He2 Hu c e v. pose proof (e_digits dec rr P Hok Hr ltac:(lia)) as Hc. fold c in Hc. clearbody c. pose proof Hr as (_ & _ & _ & _ & Hpos & Hv & _).
  destruct Hok as (Hd & _ & (c0 & r0 & Ed & Hc0) & _). pose proof (value_lower c0 r0 ltac:(by rewrite <- Ed) Hc0) as Hlow. rewrite <- Ed in Hlow.
  assert (Hn : len r0 = len (fd_d dec) - 1 /\ 1 <= len (fd_d dec)) by (clear -Ed; rewrite Ed; cbn [length]; lia). destruct Hn as [Hr0 Hn]. rewrite Hr0 in Hlow.
  unfold denotes in Hden. cbv zeta in Hden. set (n := len (fd_d dec)) in *. set (h := Z.max 0 (n - (P + 1))) in *. set (p := fd_x dec + 1 - n) in *.
  pose proof (rounded_close _ n P Hlow Hn HP) as Hcore. cbv zeta in Hcore. fold h in Hcore. rewrite <- Hv in Hcore.
  assert (Hep : e - p = len (fr_r rr) - (P + 1) + h) by (clear -Hpos Hn HP; subst e p h; lia).
  assert (HN := scaled_digits c _ _ P e p h (Nat2Z.is_nonneg _) ltac:(clear -HP; lia) (Z.le_max_l _ _) Hc Hep).
  pose proof (scaled_double _ m e2 p u He2 Hu Hden) as HX. fold v in HX. clearbody v h p n e. clear Hden Hc Hv Hlow Hpos.
  apply (close_scale _ _ (10 ^ Z.max (- p) 0) (10 ^ Z.max p 0 * 10 ^ Z.max 0 (- e) * 2 ^ u) _ _ _) with (5 := Hcore).
  - apply pow10_pos. lia.
  - apply Z.mul_pos_pos; [apply Z.mul_pos_pos; apply pow10_pos; lia|by apply pow_pos].
  - transitivity (c * (10 ^ Z.max 0 e * 10 ^ Z.max (- p) 0) * 2 ^ u); [ring|]. rewrite HN. ring.
  - transitivity (v * 10 ^ Z.max (- p) 0 * 10 ^ Z.max 0 (- e)); [ring|]. rewrite HX. ring.
Qed.

(** ** The text %e writes *)

Lemma digit_text_chars ds : digits10 ds -> Forall (fun c => is_digit_c c = true) (digit_text ds) /\ digit_values (digit_text ds) = ds.
Proof.
  intros H. unfold digit_text, digit_values. split; [apply Forall_map; eapply Forall_impl; [exact H|]; unfold is_digit_c; cbn; lia|].
  rewrite map_map. rewrite <- (map_id ds) at 2. apply map_ext. lia.
Qed.

Lemma exponent_text up x : -1000 <= x <= 1000 -> exp_text (FormatText.exp_text up x) x.
Proof.
  intros Hx. set (es := (if Z.abs x <? 10 then [chr "0"] else []) ++ decimal (Z.abs x)).
  assert (Hdec : Forall (fun c => is_digit_c c = true) (decimal (Z.abs x))) by (eapply Forall_impl; [apply decimal_digits|]; unfold is_digit_c; cbn; lia).
  assert (Hes : Forall (fun c => is_digit_c c = true) es) by (apply Forall_app; split; [case_match; by repeat constructor|done]).
  assert (Hv : value 10 (digit_values es) = Z.abs x).
  { pose proof (decimal_value (Z.abs x) ltac:(lia)) as Hv. subst es. unfold digit_values in *. rewrite map_app, value_app, Hv by lia. case_match; cbn [map]; [change (value 10 [_]) with 0|change (value 10 []) with 0]; lia. }
  replace x with (if x <? 0 then - value 10 (digit_values es) else value 10 (digit_values es)) at 2 by (rewrite Hv; case_match; lia).
  change (FormatText.exp_text up x) with ((if up then chr "E" else chr "e") :: [if x <? 0 then chr "-" else chr "+"] ++ es).
  apply exp_some; [destruct up; auto|destruct (x <? 0); constructor|done|].
  intros He. rewrite He in Hv. change (value 10 (digit_values [])) with 0 in Hv. subst es. by replace (Z.abs x <? 10) with true in He by lia.
Qed.

Lemma e_text_fits s up pre rr P x : len pre <= 1 -> 0 <= P <= 10 ^ 6 -> fs_width s <= 10 ^ 6 -> -1000 <= x <= 1000 ->
  len (field s true pre (finite_body s up (mkLayout rr true 1 P x))) <= INT_MAX.
Proof.
  intros Hpre HP Hw Hx. rewrite length_field. unfold finite_body, digit_text, FormatText.exp_text. cbn [ly_style_e ly_frac ly_rr ly_exp]. rewrite !length_app, !length_map, length_frac_digits.
  pose proof (decimal_length (Z.abs x) 4 ltac:(lia) ltac:(lia)). cbn [length]. unfold INT_MAX. destruct (_ || _), (Z.abs x <? 10); cbn [length]; lia.
Qed.

Lemma e_text s up neg rr P x : digits10 (fr_r rr) -> 0 < P <= 10 ^ 6 -> fs_width s <= 10 ^ 6 -> -1000 <= x <= 1000 ->
  exists rest, Forall (fun c => c = chr " ") rest /\
    decimal_text (field s true (sign_text (sign_char s neg)) (finite_body s up (mkLayout rr true 1 P x))) neg (value 10 (frac_digits (Z.to_nat (P + 1)) rr x)) (x - P) rest.
Proof.
  intros Hd HP Hw Hx. destruct (sign_split s true neg) as (w & sg & Hs & Hws & Hsg & _). cbn [andb] in Hsg. cbn iota in Hs.
  set (body := finite_body _ _ _). pose proof (length_field s true (sign_text (sign_char s neg)) body) as Hlf.
  destruct (field_split s true (sign_text (sign_char s neg)) body) as (ws & k & rest & Hf & Hwsp & Hrest & _). rewrite Hf in Hlf |- *. exists rest. split; [done|].
  rewrite Hs in Hlf |- *. subst body. unfold finite_body in *. cbn [ly_style_e ly_frac ly_rr ly_exp] in *. replace (0 <? P) with true in * by lia. cbn [orb] in *.
  set (d1 := fp_digit rr x) in *. set (fd := frac_digits (Z.to_nat P) rr (x - 1)) in *.
  assert (Hd1 : digits10 [d1]) by (constructor; [by apply fp_digit_range|constructor]). assert (Hfd : digits10 fd) by (by apply frac_digits_range).
  assert (Hfl : len fd = P) by (subst fd; rewrite length_frac_digits; lia).
  destruct (digit_text_chars [d1] Hd1) as [Hc1 Hv1]. destruct (digit_text_chars fd Hfd) as [Hc2 Hv2].
  set (zs := replicate k (chr "0")) in *. assert (Hzs : Forall (fun c => is_digit_c c = true) zs) by (by apply Forall_replicate).
  assert (Hval : value 10 (digit_values ((zs ++ digit_text [d1]) ++ digit_text fd)) = value 10 (frac_digits (Z.to_nat (P + 1)) rr x)).
  { unfold digit_values in *. rewrite !map_app, Hv1, Hv2, <- app_assoc. subst zs. change (map ?f ?l) with (f <$> l). rewrite fmap_replicate, value_app, value_zeros by lia.
    change (chr "0" - chr "0") with 0. rewrite ?value_zeros. replace (Z.to_nat (P + 1)) with (S (Z.to_nat P)) by lia. done. }
  assert (Hlt : len (digit_text fd) = P) by (unfold digit_text; by rewrite length_map).
  replace (ws ++ (w ++ sg) ++ (zs ++ digit_text [d1] ++ [chr "."] ++ digit_text fd ++ FormatText.exp_text up x) ++ rest)
    with ((ws ++ w) ++ sg ++ (zs ++ digit_text [d1]) ++ [chr "."] ++ digit_text fd ++ FormatText.exp_text up x ++ rest) by (by rewrite <- !app_assoc).
  rewrite <- Hval, <- Hlt. apply decimal_intro; [by apply Forall_app|exact Hsg|by apply Forall_app|exact Hc2| |by right|by apply exponent_text| |].
  - intros E. apply app_eq_nil in E as [E _]. by apply app_eq_nil in E as [_ ?].
  - split; [|done]. by destruct Hrest as [|? ? ->].
  - rewrite !length_app in *. cbn [digit_text map length] in *. lia.
Qed.

(** ** Reading back *)

(** The bits of the number that is read are the bits that were printed. *)
Lemma read_bits bits c e rest err res : finite bits -> (dbl_units bits = 0 -> c = 0) ->
  (dbl_units bits <> 0 -> 2 * 2 ^ 53 * Z.abs (c * 10 ^ Z.max 0 e * 2 ^ 1074 - dbl_units bits * 10 ^ Z.max 0 (- e)) < dbl_units bits * 10 ^ Z.max 0 (- e)) ->
  correctly_rounded DOUBLE_FMT (Z.testbit bits 63) c e rest err res ->
  exists err', res = (bits, rest, err') /\ (dbl_units bits = 0 \/ 2 ^ 52 < dbl_units bits -> err' = err).
Proof.
  intros [Hb Hf] Hz Hclose (v & b & err' & -> & Hn & Henc & _ & Herr). destruct (dbl_units_range bits Hf) as [Hrep Hrange]. destruct (dbl_units_of bits Hf) as [Hu Hub].
  assert (Hv : v = dbl_units bits).
  { destruct (Z.eq_dec (dbl_units bits) 0) as [E|E].
    - rewrite (Hz E) in Hn. rewrite E. apply nearest_tiny in Hn; [done|done|apply units_den_pos|done|]. rewrite Z.mul_0_l, Z.mul_0_r. apply units_den_pos.
    - apply (nearest_close 53 _ _ _ _) with (5 := Hn); [done|apply units_den_pos|done|by apply Hclose]. }
  rewrite Hv in *. clear Hv. unfold encodes in Henc. rewrite (proj2 (Z.ltb_lt _ _) (proj2 Hrange)) in Henc. destruct Henc as [[Hb0 _] Hbu].
  assert (Eb : b = bexp_of bits * 2 ^ 52 + frac_of bits).
  { rewrite <- (pattern_of_units DOUBLE_FMT b), Hbu, <- Hu by done. apply pattern_of_units; [done|]. apply Hub. }
  exists err'. split; [by rewrite Eb, <- dbl_fields|]. intros H. apply Herr. destruct H as [H|H]; [left; by apply Hz|right; split; [exact H|apply Hrange]].
Qed.

(** What %e shows of a finite double. *)
Lemma e_layout bits dec P : dec_of dec bits -> 16 <= P -> finite bits ->
  exists rr x, layout_e P dec = Some (mkLayout rr true 1 P x) /\ digits10 (fr_r rr) /\ -1000 <= x <= 1000 /\
    let c := value 10 (frac_digits (Z.to_nat (P + 1)) rr x) in
    (dbl_units bits = 0 -> c = 0) /\
    (dbl_units bits <> 0 -> 2 * 2 ^ 53 * Z.abs (c * 10 ^ Z.max 0 (x - P) * 2 ^ 1074 - dbl_units bits * 10 ^ Z.max 0 (- (x - P))) < dbl_units bits * 10 ^ Z.max 0 (- (x - P))).
Proof.
  intros Hof HP [_ Hf]. destruct (dbl_range bits Hf) as [_ He]. destruct (round_dec_ok dec bits (P + 1) Hof) as (rr & Hrr & Hx & Hz & Hnz). unfold layout_e. rewrite Hrr. obind.
  pose proof (pow_pos (dbl_e2 bits + 1074) ltac:(lia)) as Hp. do 2 eexists. split; [reflexivity|]. destruct Hof as [(Hm & Hd & _)|(Hm & Hok & Hden & Hx0)].
  - rewrite (Hz Hd). cbn [fr_r length Z.of_nat Z.ltb Z.compare]. split; [constructor|]. split; [done|]. cbv zeta. rewrite frac_digits_all_zero, value_zeros by done. unfold dbl_units. rewrite Hm. done.
  - assert (Hne : fd_d dec <> []) by (destruct Hok as (_ & _ & (c & r & -> & _) & _); done). pose proof (Hnz Hne) as Hr. pose proof Hr as (Hrd & _ & _ & _ & Hpos & _).
    replace (0 <? len (fr_r rr)) with true.
    2: { destruct Hok as (_ & _ & (c & r & Ed & _) & _). rewrite Ed in Hpos. cbn [length] in Hpos. pose proof Hr as (_ & _ & _ & Hx1 & _). lia. }
    split; [exact Hrd|]. split; [lia|]. cbv zeta. split; [unfold dbl_units; intros E; exfalso; nia|]. intros _. by apply (e_close dec rr P (dbl_m bits) (dbl_e2 bits) 1074); try done; lia.
Qed.

(** ** Claims *)

(** C14. A finite double printed with [%e] or [%E] and a precision of at least
    16 reads back: whatever the flags, for widths and precisions of up to a
    million, [strtod] returns exactly the bits that printf was given, minus zero and subnormal numbers
    included, stops behind the number, and leaves errno alone unless the number
    is subnormal or the smallest normal one. *)
Theorem printf_e_strtod_roundtrip s c bits err :
  finite bits -> c = chr "e" \/ c = chr "E" -> fs_ldbl s = false -> 16 <= fs_prec s <= 10 ^ 6 -> fs_width s <= 10 ^ 6 ->
  exists txt rest err', conv_double (mkText [] 0) s c [ADouble bits] = Some (mkText txt 0, []) /\
    strtod err txt = (bits, rest, err') /\ Forall (fun c => c = chr " ") rest /\ (dbl_units bits = 0 \/ 2 ^ 52 < dbl_units bits -> err' = err).
Proof.
  intros Hfin Hc Hld HP Hw. pose proof Hfin as [Hb Hf]. destruct (fp_exact_dec bits Hf) as (dec & Hdec & Hof).
  destruct (e_layout bits dec (fs_prec s) Hof ltac:(lia) Hfin) as (rr & x & Hl & Hrd & Hx & Hz & Hcl).
  set (l := mkLayout rr true 1 (fs_prec s) x) in *. set (txt := field s true (sign_text (sign_char s (Z.testbit bits 63))) (finite_body s (is_upper_conv c) l)).
  destruct (e_text s (is_upper_conv c) (Z.testbit bits 63) rr (fs_prec s) x Hrd ltac:(lia) Hw Hx) as (rest & Hrest & Htext). fold l txt in Htext.
  destruct (read_bits bits _ _ rest err (strtod err txt) Hfin Hz Hcl (finish_rounded DOUBLE_FMT assemble_double txt _ _ _ rest err assembles_double Htext)) as (err' & Hres & Herr).
  exists txt, rest, err'. split; [|done]. unfold conv_double. rewrite Hld. cbn [va_double]. rewrite u64_small by done. obind. rewrite (writes_fits _ txt); [done| |].
  { apply e_text_fits; [|lia..]. rewrite <- length_sign. unfold sign_len. case_match; lia. }
  assert (Hlay : fp_layout s (if is_upper_conv c then c + 32 else c) dec = Some l).
  { unfold fp_layout. replace (fs_prec s <? 0) with false by lia. by destruct Hc as [-> | ->]. }
  unfold emit_double. cbv zeta. replace (bexp_of bits =? 0x7ff) with false by lia. fold (dbl_m bits) (dbl_e2 bits).
  replace (_ =? chr "a") with false by (by destruct Hc as [-> | ->]). rewrite Hdec. obind. rewrite Hlay. obind. apply emit_finite_writes. unfold layout_ok. cbn. lia.
Qed.

(** The smallest subnormal number, and what it looks like. *)
Example printf_e_strtod_roundtrip_witness :
  exists txt rest err', conv_double (mkText [] 0) (set_prec spec0 16) (chr "e") [ADouble 1] = Some (mkText txt 0, []) /\
    strtod 0 txt = (1, rest, err') /\ Forall (fun c => c = chr " ") rest /\ (dbl_units 1 = 0 \/ 2 ^ 52 < dbl_units 1 -> err' = 0).
Proof. apply (printf_e_strtod_roundtrip (set_prec spec0 16) (chr "e") 1 0); [split; [done|by vm_compute]|by left|done|done|done]. Defined.
