(* ===== verification/Words.v ===== *)
(** * Words in memory

    Integers and pointers as little-endian bytes in the memory of [Mem], and
    arrays of pointers. *)

From S2P Require Import Prelude Mem.

(** The [n] bytes of a little-endian value. *)
Fixpoint store_le (m : mem) (a : Z) (n : nat) (v : Z) : option mem :=
  match n with
  | 0%nat => Some m
  | S n => m ← store m a (u8 v); store_le m (a + 1) n (v / 256)
  end.

Fixpoint load_le (m : mem) (a : Z) (n : nat) : option Z :=
  match n with
  | 0%nat => Some 0
  | S n => b ← load m a; v ← load_le m (a + 1) n; Some (b + 256 * v)
  end.

(** A [char *] in memory. *)
Definition load_ptr (m : mem) (a : Z) : option Z := load_le m a 8.
Definition store_ptr (m : mem) (a p : Z) : option mem := store_le m a 8 p.

(** ** Lemmas *)

Fixpoint le_bytes (n : nat) (v : Z) : list Z :=
  match n with 0%nat => [] | S n => u8 v :: le_bytes n (v / 256) end.

Lemma le_bytes_length n : forall v, length (le_bytes n v) = n.
Proof. induction n as [|n IH]; intros v; [done|]. cbn. by rewrite IH. Qed.

Lemma store_le_spec n : forall m a v, mapped m a (Z.of_nat n) -> store_le m a n v = Some (write_bytes m a (le_bytes n v)).
Proof.
  induction n as [|n IH]; intros m a v Hm; [done|]. cbn [store_le le_bytes write_bytes]. rewrite (store_at m a (Z.of_nat (S n))) by (done || lia). obind.
  apply IH, mapped_insert. eapply mapped_sub; [done|lia..].
Qed.

Lemma load_le_spec n : forall m a v, 0 <= v < 256 ^ Z.of_nat n -> bytes_at m a (le_bytes n v) -> load_le m a n = Some v.
Proof.
  induction n as [|n IH]; intros m a v Hv Hb; [cbn in *; f_equal; lia|]. cbn [load_le le_bytes bytes_at] in *. destruct Hb as [Hh Hb]. unfold load. rewrite Hh. obind.
  rewrite Nat2Z.inj_succ, Z.pow_succ_r in Hv by lia. rewrite (IH m (a + 1) (v / 256)); [|zdm|done]. obind. unfold u8. f_equal. change (2 ^ 8) with 256. zdm.
Qed.

(** An array of pointers. *)
Definition words (l : list Z) : list Z := l ≫= le_bytes 8.

Lemma words_app l1 l2 : words (l1 ++ l2) = words l1 ++ words l2.
Proof. apply bind_app. Qed.
Lemma words_length l : len (words l) = 8 * len l.
Proof. induction l as [|x l IH]; [done|]. unfold words in *. cbn [mbind list_bind]. rewrite length_app, le_bytes_length. cbn [length]. lia. Qed.

Definition is_ptr (p : Z) : Prop := 0 < p < 2 ^ 64.

Lemma load_word m a l1 x l2 : bytes_at m a (words (l1 ++ x :: l2)) -> 0 <= x < 2 ^ 64 -> load_ptr m (a + 8 * len l1) = Some x.
Proof.
  intros Hb Hx. rewrite words_app in Hb. apply bytes_at_app in Hb as [_ Hb]. rewrite words_length in Hb. apply (bytes_at_app m _ (le_bytes 8 x)) in Hb as [Hb _]. by apply load_le_spec.
Qed.

(** [m'] is [m] with other bytes at [a, a + n). *)
Definition changes (m m' : mem) (a n : Z) : Prop := dom m' = dom m /\ forall k, k < a \/ a + n <= k -> m' !! k = m !! k.

Lemma changes_refl m a n : changes m m a n.
Proof. done. Qed.
Lemma changes_trans m1 m2 m3 a n : changes m1 m2 a n -> changes m2 m3 a n -> changes m1 m3 a n.
Proof. intros [Hd1 H1] [Hd2 H2]. split; [congruence|]. intros k Hk. by rewrite H2, H1. Qed.
Lemma changes_sub m m' a n b k : changes m m' b k -> a <= b -> b + k <= a + n -> changes m m' a n.
Proof. intros [Hd Hc] H1 H2. split; [done|]. intros j Hj. apply Hc. lia. Qed.

Lemma changes_bytes m m' a n b l : changes m m' a n -> b + len l <= a \/ a + n <= b -> bytes_at m b l -> bytes_at m' b l.
Proof. intros [_ Hc] Hd. rewrite !bytes_at_lookup. intros Hb i v Hi. pose proof (lookup_lt_Some _ _ _ Hi). rewrite Hc by lia. by apply Hb. Qed.
Lemma changes_cstr m m' a n p s : changes m m' a n -> p + len s + 1 <= a \/ a + n <= p -> cstr_at m p s -> cstr_at m' p s.
Proof. intros Hc Hd [Hb Hs]. split; [|done]. eapply changes_bytes; [done| |done]. rewrite length_app. cbn [length]. lia. Qed.
Lemma changes_mapped m m' a n b k : changes m m' a n -> mapped m b k -> mapped m' b k.
Proof. intros [Hd _] Hm j Hj. apply elem_of_dom. rewrite Hd. apply elem_of_dom, Hm, Hj. Qed.

Lemma changes_write m a l n : mapped m a (len l) -> len l <= n -> changes m (write_bytes m a l) a n.
Proof. intros Hm Hl. split; [by apply write_bytes_dom|]. intros k Hk. apply write_bytes_out. lia. Qed.

Lemma store_word m a l1 x l2 v : bytes_at m a (words (l1 ++ x :: l2)) ->
  exists m', store_ptr m (a + 8 * len l1) v = Some m' /\ bytes_at m' a (words (l1 ++ v :: l2)) /\ changes m m' (a + 8 * len l1) 8.
Proof.
  intros Hb. rewrite words_app in Hb. apply bytes_at_app in Hb as [H1 H2]. rewrite words_length in H2. apply (bytes_at_app m _ (le_bytes 8 x)) in H2 as [Hx H2]. rewrite le_bytes_length in H2.
  pose proof (bytes_at_mapped _ _ _ Hx) as Hm. rewrite le_bytes_length in Hm. exists (write_bytes m (a + 8 * len l1) (le_bytes 8 v)). split; [by apply store_le_spec|].
  assert (Hc : changes m (write_bytes m (a + 8 * len l1) (le_bytes 8 v)) (a + 8 * len l1) 8) by (apply changes_write; by rewrite le_bytes_length). split; [|done].
  rewrite words_app. apply bytes_at_app. rewrite words_length. split; [eapply changes_bytes; [done|rewrite words_length; lia|done]|].
  apply (bytes_at_app _ _ (le_bytes 8 v)). split; [apply bytes_at_write|]. rewrite le_bytes_length. eapply changes_bytes; [done| |exact H2]. lia.
Qed.
