(* ===== verification/Scan.v ===== *)
(** * The scanf engine (lib/moqi_libc/src/scan.c, scan.h and scanf.c)

    The engine is written against the source of the struct [moqi_scan_src]: an
    operation that gives the next byte, one that takes a byte back, a realloc
    and a free.  [sc] holds what the source's [struct sc] holds and, with it,
    the world behind the source, errno and the memory that the results are
    stored in.  Stores outside that memory, arguments that are missing and
    loops that run out of fuel are faults ([None]); the fuel [n] of a call
    bounds the number of bytes one loop reads.  The arguments are the addresses
    the caller passes.  The text buffer of a floating-point number is the list
    of its bytes; only its block comes from the allocator. *)

From S2P Require Import Prelude Mem Words Digits NumConv Format Stdio Strtod.

Class ScanSource (W : Type) := {
  src_get : W -> Z -> option (Z * W * Z);           (** errno in and out *)
  src_unget : W -> Z -> option W;
  src_alloc : W -> mem -> Z -> Z -> Z * W * mem;    (** [realloc(old, n)] *)
  src_release : W -> mem -> Z -> W * mem }.

(** ** Flags and specifications *)

Record sflags := mkSflags {
  SC_LONG : bool; SC_LONGDBL : bool; SC_SHORT : bool; SC_SUPPRESS : bool; SC_SIGNED : bool; SC_CHAR : bool; SC_READPTR : bool; SC_MALLOC : bool }.

Definition sflags0 : sflags := mkSflags false false false false false false false false.
Definition or_long (f : sflags) : sflags := mkSflags true (SC_LONGDBL f) (SC_SHORT f) (SC_SUPPRESS f) (SC_SIGNED f) (SC_CHAR f) (SC_READPTR f) (SC_MALLOC f).
Definition or_llong (f : sflags) : sflags := mkSflags true true (SC_SHORT f) (SC_SUPPRESS f) (SC_SIGNED f) (SC_CHAR f) (SC_READPTR f) (SC_MALLOC f).
Definition or_short (f : sflags) : sflags := mkSflags (SC_LONG f) (SC_LONGDBL f) true (SC_SUPPRESS f) (SC_SIGNED f) (SC_CHAR f) (SC_READPTR f) (SC_MALLOC f).
Definition or_suppress (f : sflags) : sflags := mkSflags (SC_LONG f) (SC_LONGDBL f) (SC_SHORT f) true (SC_SIGNED f) (SC_CHAR f) (SC_READPTR f) (SC_MALLOC f).
Definition or_signed (f : sflags) : sflags := mkSflags (SC_LONG f) (SC_LONGDBL f) (SC_SHORT f) (SC_SUPPRESS f) true (SC_CHAR f) (SC_READPTR f) (SC_MALLOC f).
Definition or_char (f : sflags) : sflags := mkSflags (SC_LONG f) (SC_LONGDBL f) (SC_SHORT f) (SC_SUPPRESS f) (SC_SIGNED f) true (SC_READPTR f) (SC_MALLOC f).
Definition or_pointer (f : sflags) : sflags := mkSflags true (SC_LONGDBL f) (SC_SHORT f) (SC_SUPPRESS f) (SC_SIGNED f) (SC_CHAR f) true (SC_MALLOC f).
Definition or_malloc (f : sflags) : sflags := mkSflags (SC_LONG f) (SC_LONGDBL f) (SC_SHORT f) (SC_SUPPRESS f) (SC_SIGNED f) (SC_CHAR f) (SC_READPTR f) true.

Inductive result := R_OK | R_CONV | R_INPUT | R_NOMEM.

Definition is_space (c : Z) : bool := (c =? chr " ") || ((9 <=? c) && (c <=? 13)).
Definition is_digit (c : Z) : bool := (chr "0" <=? c) && (c <=? chr "9").
Definition is_xdigit (c : Z) : bool := is_digit c || ((chr "a" <=? c) && (c <=? chr "f")) || ((chr "A" <=? c) && (c <=? chr "F")).
Definition lower (c : Z) : Z := if (chr "A" <=? c) && (c <=? chr "Z") then c + (chr "a" - chr "A") else c.
Definition is_nchar (c : Z) : bool := is_digit c || ((chr "a" <=? c) && (c <=? chr "z")) || ((chr "A" <=? c) && (c <=? chr "Z")) || (c =? chr "_").

Definition INT_MAX_ : Z := 2147483647.

Definition add_digit (v d : Z) : Z :=
  if v <? 0 then v else
  if INT_MAX_ ÷ 10 <? v then -1 else
  let v := v * 10 in
  if INT_MAX_ - d <? v then -1 else v + d.

(** The digits behind the first one. *)
Fixpoint read_digits (f : list Z) (v : Z) : Z * list Z :=
  match f with
  | [] => (v, [])
  | c :: f' => if is_digit c then read_digits f' (add_digit v (c - chr "0")) else (v, f)
  end.

Definition read_int (f : list Z) : Z * list Z := read_digits (tail f) (peek f - chr "0").

(** The rest of a conversion specification, up to its conversion character. *)
Record sspec := mkSspec { sp_argpos : Z; sp_flags : sflags; sp_width : Z }.

Fixpoint read_flags (f : list Z) (fl : sflags) : sflags * list Z :=
  match f with
  | [] => (fl, [])
  | c :: f' =>
      if (c =? chr "*") || (c =? 39) || (c =? chr "I") then read_flags f' (if c =? chr "*" then or_suppress fl else fl)
      else (fl, f)
  end.

(** [w8], [w16], ... and [wf8], ...; [None] is EINVAL. *)
Definition read_bits (f : list Z) (fl : sflags) : option sflags * list Z :=
  let '(fast, f) := if peek f =? chr "f" then (true, tail f) else (false, f) in
  let '(bw, f) := if is_digit (peek f) then read_int f else (0, f) in
  let bw := if fast && ((bw =? 16) || (bw =? 32) || (bw =? 64)) then 64 else bw in
  (if bw =? 8 then Some (or_char fl)
   else if bw =? 16 then Some (or_short fl)
   else if bw =? 32 then Some fl
   else if bw =? 64 then Some (or_llong fl)
   else None, f).

Definition read_modifier (f : list Z) (fl : sflags) : option sflags * list Z :=
  let c := peek f in
  if c =? chr "h" then
    if peek (tail f) =? chr "h" then (Some (or_char fl), tail (tail f)) else (Some (or_short fl), tail f)
  else if c =? chr "l" then
    if peek (tail f) =? chr "l" then (Some (or_llong fl), tail (tail f)) else (Some (or_long fl), tail f)
  else if (c =? chr "q") || (c =? chr "L") then (Some (or_llong fl), tail f)
  else if c =? chr "m" then
    if peek (tail f) =? chr "l" then (Some (or_long (or_malloc fl)), tail (tail f)) else (Some (or_malloc fl), tail f)
  else if (c =? chr "z") || (c =? chr "j") || (c =? chr "t") then (Some (or_long fl), tail f)
  else if c =? chr "w" then read_bits (tail f) fl
  else (Some fl, f).

(** Argument number, flags and width: [%N$*8] or [%8]. *)
Definition read_head (f : list Z) : sspec * list Z :=
  let flags_width argpos f :=
    let '(fl, f) := read_flags f sflags0 in
    let '(width, f) := if is_digit (peek f) then read_int f else (0, f) in
    (mkSspec argpos fl width, f) in
  if is_digit (peek f) then
    let '(v, f) := read_int f in
    if peek f =? chr "$" then flags_width (u32 v) (tail f) else (mkSspec 0 sflags0 v, f)
  else flags_width 0 f.

Definition read_spec (f : list Z) : option sspec * list Z :=
  let '(s, f) := read_head f in
  let width := if sp_width s =? 0 then -1 else sp_width s in
  let '(fl, f) := read_modifier f (sp_flags s) in
  (match fl with Some fl => Some (mkSspec (sp_argpos s) fl width) | None => None end, f).

(** ** The engine *)

Section Engine.
Context {W : Type} `{ScanSource W}.

Record sc := mkSc { st_w : W; st_errno : Z; st_c : Z; st_inchar_errno : Z; st_nread : Z; st_mem : mem }.

Definition set_errno (st : sc) (e : Z) : sc := mkSc (st_w st) e (st_c st) (st_inchar_errno st) (st_nread st) (st_mem st).
Definition set_mem (st : sc) (m : mem) : sc := mkSc (st_w st) (st_errno st) (st_c st) (st_inchar_errno st) (st_nread st) m.
Definition set_heap (st : sc) (w : W) (m : mem) : sc := mkSc w (st_errno st) (st_c st) (st_inchar_errno st) (st_nread st) m.

Definition inchar (st : sc) : option (Z * sc) :=
  if st_c st =? -1 then Some (-1, set_errno st (st_inchar_errno st)) else
  '(c, w, errno) ← src_get (st_w st) (st_errno st);
  Some (c, if negb (c =? -1) then mkSc w errno c (st_inchar_errno st) (u64 (st_nread st + 1)) (st_mem st)
           else mkSc w errno c errno (st_nread st) (st_mem st)).

Definition unget_any (st : sc) (c : Z) : option sc :=
  if c =? -1 then Some st else
  w ← src_unget (st_w st) c;
  Some (mkSc w (st_errno st) (st_c st) (st_inchar_errno st) (u64 (st_nread st - 1)) (st_mem st)).

Definition alloc (st : sc) (old n : Z) : Z * sc :=
  let '(p, w, m) := src_alloc (st_w st) (st_mem st) old n in (p, set_heap st w m).
Definition release (st : sc) (p : Z) : sc :=
  let '(w, m) := src_release (st_w st) (st_mem st) p in set_heap st w m.

(** [if (width > 0) --width] *)
Definition dec_width (width : Z) : Z := if 0 <? width then width - 1 else width.

(** *** The text of a floating-point number *)

(** [cb_p] is 0 while the text is in [init]. *)
Record cbuf := mkCbuf { cb_p : Z; cb_text : list Z; cb_cap : Z; cb_failed : bool }.

Definition cb_init : cbuf := mkCbuf 0 [] 96 false.

Definition cb_add (st : sc) (b : cbuf) (ch : Z) : cbuf * sc :=
  if cb_failed b then (b, st) else
  if len (cb_text b) =? cb_cap b then
    let ncap := u64 (cb_cap b * 2) in
    let '(np, st) := alloc st (cb_p b) ncap in
    if np =? 0 then (mkCbuf (cb_p b) (cb_text b) (cb_cap b) true, st)
    else (mkCbuf np (cb_text b ++ [ch]) ncap false, st)
  else (mkCbuf (cb_p b) (cb_text b ++ [ch]) (cb_cap b) (cb_failed b), st).

Definition cb_free (st : sc) (b : cbuf) : sc := if negb (cb_p b =? 0) then release st (cb_p b) else st.

(** *** Integers *)

Record num := mkNum { n_mag : Z; n_neg : bool; n_over : bool }.

Definition digit_val (c : Z) : option Z :=
  if is_digit c then Some (c - chr "0")
  else if (chr "a" <=? c) && (c <=? chr "f") then Some (c - chr "a" + 10)
  else if (chr "A" <=? c) && (c <=? chr "F") then Some (c - chr "A" + 10)
  else None.

Definition add_num (base d : Z) (v : num) : num :=
  let lim := (2 ^ 64 - 1) / base in
  let lim_d := (2 ^ 64 - 1) mod base in
  if (lim <? n_mag v) || ((n_mag v =? lim) && (lim_d <? d)) then mkNum (n_mag v) (n_neg v) true
  else mkNum (u64 (n_mag v * base + d)) (n_neg v) (n_over v).

Fixpoint digits_loop (n : nat) (st : sc) (base width c : Z) (have : bool) (v : num) : option (Z * Z * bool * num * sc) :=
  if (c =? -1) || (width =? 0) then Some (width, c, have, v, st) else
  match digit_val c with
  | None => Some (width, c, have, v, st)
  | Some d =>
      if base <=? d then Some (width, c, have, v, st) else
      match n with
      | 0%nat => None
      | S n => '(c, st) ← inchar st; digits_loop n st base (dec_width width) c true (add_num base d v)
      end
  end.

(** The 0x and 0b prefixes: base, width, next byte, and whether the 0 is a digit; [None] inside is R_CONV. *)
Definition scan_prefix (st : sc) (base width c : Z) : option (option (Z * Z * Z * bool) * sc) :=
  if negb (width =? 0) && (c =? chr "0") then
    let width := dec_width width in
    '(c, st) ← inchar st;
    if negb (width =? 0) && (lower c =? chr "x") && ((base =? 0) || (base =? 16)) then
      let width := dec_width width in
      if width =? 0 then Some (None, st) else '(c, st) ← inchar st; Some (Some (16, width, c, false), st)
    else if negb (width =? 0) && (lower c =? chr "b") && ((base =? 2) || (base =? 0)) then
      let width := dec_width width in
      if width =? 0 then Some (None, st) else '(c, st) ← inchar st; Some (Some (2, width, c, false), st)
    else Some (Some (if base =? 0 then 8 else base, width, c, true), st)
  else Some (Some (base, width, c, false), st).

(** The bytes behind the parenthesis of "(nil)", read until one differs. *)
Fixpoint match_nil (st : sc) (w : list Z) : option (bool * sc) :=
  match w with
  | [] => Some (true, st)
  | x :: w => '(c, st) ← inchar st; if lower c =? x then match_nil st w else Some (false, st)
  end.

(** The sign of a number: whether there is one, the value so far, the width left and the next byte. *)
Definition scan_sign (st : sc) (width c : Z) : option (bool * num * Z * Z * sc) :=
  if (c =? chr "-") || (c =? chr "+")
  then '(c', st) ← inchar st; Some (true, mkNum 0 (c =? chr "-") false, dec_width width, c', st)
  else Some (false, mkNum 0 false false, width, c, st).

(** No digits: a pointer may still be "(nil)". *)
Definition scan_nil (st : sc) (have_sign : bool) (flags : sflags) (width c : Z) (v : num) : option (result * num * sc) :=
  '(ok, st) ← (if negb have_sign && SC_READPTR flags && ((width <? 0) || (5 <=? width)) && (c =? chr "(")
               then match_nil st (str "nil)") else Some (false, st));
  if (ok : bool) then Some (R_OK, mkNum 0 (n_neg v) (n_over v), st)
  else st ← unget_any st (st_c st); Some (R_CONV, v, st).

Definition scan_int (n : nat) (st : sc) (base : Z) (flags : sflags) (width : Z) : option (result * num * sc) :=
  '(c, st) ← inchar st;
  if c =? -1 then Some (R_INPUT, mkNum 0 false false, st) else
  '(have_sign, v, width, c, st) ← scan_sign st width c;
  '(pre, st) ← scan_prefix st base width c;
  match pre with
  | None => Some (R_CONV, v, st)
  | Some (base, width, c, have) =>
      let base := if base =? 0 then 10 else base in
      '(width, c, have, v, st) ← digits_loop n st base width c have v;
      if (have : bool) then st ← unget_any st c; Some (R_OK, v, st)
      else scan_nil st have_sign flags width c v
  end.

(** *** Floating-point numbers *)

(** A word, each byte of it within the width and in either case; the flag is whether all of it is there. *)
Fixpoint match_rest (st : sc) (w : list Z) (width : Z) (b : cbuf) : option (bool * Z * cbuf * sc) :=
  match w with
  | [] => Some (true, width, b, st)
  | x :: w =>
      if width =? 0 then Some (false, width, b, st) else
      '(c, st) ← inchar st;
      if (c =? -1) || negb (lower (st_c st) =? x) then Some (false, width, b, st) else
      let '(b, st) := cb_add st b (st_c st) in
      match_rest st w (dec_width width) b
  end.

(** The bytes of nan(...), up to the closing parenthesis. *)
Fixpoint nan_loop (n : nat) (st : sc) (width : Z) (b : cbuf) : option (bool * cbuf * sc) :=
  match n with
  | 0%nat => None
  | S n =>
      if width =? 0 then Some (false, b, st) else
      '(c, st) ← inchar st;
      if (c =? -1) || negb (is_nchar (st_c st) || (st_c st =? chr ")")) then Some (false, b, st) else
      let '(b, st) := cb_add st b (st_c st) in
      if st_c st =? chr ")" then Some (true, b, st) else nan_loop n st (dec_width width) b
  end.

(** [b->failed ? R_NOMEM : R_OK], or R_CONV. *)
Definition cb_result (ok : bool) (b : cbuf) : result := if ok then if cb_failed b then R_NOMEM else R_OK else R_CONV.

Definition scan_nan (n : nat) (st : sc) (c width : Z) (b : cbuf) : option (result * cbuf * sc) :=
  let '(b, st) := cb_add st b c in
  '(ok, width, b, st) ← match_rest st (str "an") width b;
  if negb ok || (width =? 0) then Some (cb_result ok b, b, st) else
  '(c, st) ← inchar st;
  if c =? -1 then Some (cb_result true b, b, st)
  else if st_c st =? chr "(" then
    let '(b, st) := cb_add st b (chr "(") in
    '(ok, b, st) ← nan_loop n st (dec_width width) b;
    Some (cb_result ok b, b, st)
  else st ← unget_any st (st_c st); Some (cb_result true b, b, st).

Definition scan_inf (st : sc) (c width : Z) (b : cbuf) : option (result * cbuf * sc) :=
  let '(b, st) := cb_add st b c in
  '(ok, width, b, st) ← match_rest st (str "nf") width b;
  if negb ok || (width =? 0) then Some (cb_result ok b, b, st) else
  '(c, st) ← inchar st;
  if c =? -1 then Some (cb_result true b, b, st)
  else if lower (st_c st) =? chr "i" then
    let '(b, st) := cb_add st b (st_c st) in
    '(ok, _, b, st) ← match_rest st (str "nity") (dec_width width) b;
    Some (cb_result ok b, b, st)
  else st ← unget_any st (st_c st); Some (cb_result true b, b, st).

(** What the loop over the bytes of a number has seen. *)
Record fseen := mkSeen { got_digit : bool; got_dot : bool; got_e : bool }.

(** The byte a number goes on with, and what has then been seen. *)
Definition float_step (hex : bool) (exp_char c : Z) (text : list Z) (g : fseen) : option (Z * fseen) :=
  if is_digit c then Some (c, mkSeen true (got_dot g) (got_e g))
  else if negb (got_e g) && hex && is_xdigit c then Some (c, mkSeen true (got_dot g) (got_e g))
  else if got_e g && bool_decide (last text = Some exp_char) && ((c =? chr "-") || (c =? chr "+")) then Some (c, g)
  else if got_digit g && negb (got_e g) && (lower c =? exp_char) then Some (exp_char, mkSeen false true true)
  else if negb (got_dot g) && (c =? chr ".") then Some (chr ".", mkSeen (got_digit g) true (got_e g))
  else None.

Fixpoint float_loop (n : nat) (st : sc) (hex : bool) (exp_char c width : Z) (b : cbuf) (g : fseen) : option (cbuf * fseen * sc) :=
  if cb_failed b then Some (b, g, st) else
  match float_step hex exp_char c (cb_text b) g with
  | None => st ← unget_any st c; Some (b, g, st)
  | Some (ch, g) =>
      let '(b, st) := cb_add st b ch in
      if width =? 0 then Some (b, g, st) else
      '(c, st) ← inchar st;
      if c =? -1 then Some (b, g, st) else
      match n with
      | 0%nat => None
      | S n => float_loop n st hex exp_char (st_c st) (dec_width width) b g
      end
  end.

(** The prefix 0x; [None] inside is R_CONV. *)
Definition float_prefix (st : sc) (c width : Z) (b : cbuf) : option (cbuf * option (bool * Z * Z * bool) * sc) :=
  if negb (width =? 0) && (c =? chr "0") then
    let '(b, st) := cb_add st b c in
    '(c, st) ← inchar st;
    let width := dec_width width in
    if lower c =? chr "x" then
      if width =? 0 then Some (b, None, st) else
      let '(b, st) := cb_add st b c in
      '(c, st) ← inchar st;
      Some (b, Some (true, c, dec_width width, false), st)
    else Some (b, Some (false, c, width, true), st)
  else Some (b, Some (false, c, width, false), st).

Definition scan_number (n : nat) (st : sc) (c width : Z) (b : cbuf) : option (result * cbuf * sc) :=
  '(b, pre, st) ← float_prefix st c width b;
  match pre with
  | None => Some (R_CONV, b, st)
  | Some (hex, c, width, digit) =>
      let exp_char := if (hex : bool) then chr "p" else chr "e" in
      '(b, g, st) ← float_loop n st hex exp_char c width b (mkSeen digit false false);
      Some (if cb_failed b then R_NOMEM else if negb (got_digit g) then R_CONV else R_OK, b, st)
  end.

(** The sign of a number: whether there is more, the next byte and the width left. *)
Definition float_sign (st : sc) (c width : Z) (b : cbuf) : option (bool * Z * Z * cbuf * sc) :=
  if (c =? chr "-") || (c =? chr "+") then
    let '(b, st) := cb_add st b c in
    if width =? 0 then Some (false, c, width, b, st) else
    '(c, st) ← inchar st;
    if c =? -1 then Some (false, c, width, b, st) else Some (true, st_c st, dec_width width, b, st)
  else Some (true, c, width, b, st).

Definition scan_float (n : nat) (st : sc) (width : Z) (b : cbuf) : option (result * cbuf * sc) :=
  '(c, st) ← inchar st;
  let width := dec_width width in
  if c =? -1 then Some (R_INPUT, b, st) else
  '(ok, c, width, b, st) ← float_sign st c width b;
  if negb ok then Some (R_CONV, b, st)
  else if lower c =? chr "n" then scan_nan n st c width b
  else if lower c =? chr "i" then scan_inf st c width b
  else scan_number n st c width b.

(** *** String destinations *)

(** [sd_slot] is 0 when the result is not allocated. *)
Record sd := mkSd { sd_base : Z; sd_len : Z; sd_cap : Z; sd_esz : Z; sd_slot : Z; sd_limit : Z; sd_exact : bool; sd_suppressed : bool }.

Definition set_block (d : sd) (p cap : Z) : sd := mkSd p (sd_len d) cap (sd_esz d) (sd_slot d) (sd_limit d) (sd_exact d) (sd_suppressed d).
Definition set_len (d : sd) (n : Z) : sd := mkSd (sd_base d) n (sd_cap d) (sd_esz d) (sd_slot d) (sd_limit d) (sd_exact d) (sd_suppressed d).

Definition st_store (st : sc) (a : Z) (n : nat) (v : Z) : option sc := m ← store_le (st_mem st) a n v; Some (set_mem st m).

(** 0, or -1 when there is no memory. *)
Definition sd_grow (st : sc) (d : sd) : option (Z * sd * sc) :=
  let want := u64 (sd_cap d * 2) in
  let want := if negb (sd_limit d =? 0) && (sd_limit d <? want) then sd_limit d else want in
  let '(p, st) := alloc st (sd_base d) (u64 (want * sd_esz d)) in
  let '(p, want, st) :=
    if p =? 0 then
      let want := u64 (sd_len d + 1) in
      let '(p, st) := alloc st (sd_base d) (u64 (want * sd_esz d)) in (p, want, st)
    else (p, want, st) in
  if p =? 0 then Some (-1, d, st) else
  st ← st_store st (sd_slot d) 8 p;
  Some (0, set_block d p want, st).

(** [d->slot && d->len == d->cap && sd_grow(src, d) != 0] gives -1. *)
Definition sd_room (st : sc) (d : sd) : option (Z * sd * sc) :=
  if negb (sd_slot d =? 0) && (sd_len d =? sd_cap d) then sd_grow st d else Some (0, d, st).

Definition sd_elem (st : sc) (d : sd) (value : Z) : option sc :=
  if sd_esz d =? 1 then st_store st (sd_base d + sd_len d) 1 value else st_store st (sd_base d + sd_len d * 4) 4 value.

Definition sd_put (st : sc) (d : sd) (value : Z) : option (Z * sd * sc) :=
  if sd_suppressed d then Some (0, d, st) else
  '(r, d, st) ← sd_room st d;
  if negb (r =? 0) then Some (-1, d, st) else
  st ← (if 0 <=? value then sd_elem st d value else Some st);
  let d := set_len d (sd_len d + 1) in
  if negb (sd_exact d) then sd_room st d else Some (0, d, st).

Definition sd_finish (st : sc) (d : sd) (terminate : bool) : option sc :=
  if sd_suppressed d then Some st else
  '(d, st) ← (if terminate then st ← sd_elem st d 0; Some (set_len d (sd_len d + 1), st) else Some (d, st));
  if negb (sd_slot d =? 0) && negb (sd_len d =? sd_cap d) then
    let '(p, st) := alloc st (sd_base d) (u64 (sd_len d * sd_esz d)) in
    if negb (p =? 0) then st_store st (sd_slot d) 8 p else Some st
  else Some st.

(** 1 and the character, 0 for NUL, -1 and EILSEQ. *)
Definition wide_of (st : sc) (c : Z) : Z * Z * sc :=
  if c =? 0 then (0, 0, st) else if c <? 0x80 then (1, c, st) else (-1, 0, set_errno st EILSEQ).

Definition sd_poke (st : sc) (d : sd) (value : Z) : option (Z * sd * sc) :=
  if sd_suppressed d then Some (0, d, st) else
  '(r, d, st) ← sd_room st d;
  if negb (r =? 0) then Some (-1, d, st) else
  st ← st_store st (sd_base d + sd_len d * 4) 4 value;
  Some (0, d, st).

Definition put_wide_strict (st : sc) (d : sd) (c : Z) : option (Z * sd * sc) :=
  let '(n, w, st) := wide_of st c in
  if n =? 1 then '(r, d, st) ← sd_put st d w; Some (if negb (r =? 0) then -1 else 0, d, st) else
  '(r, d, st) ← (if n =? 0 then sd_poke st d 0 else Some (0, d, st));
  if negb (r =? 0) then Some (-1, d, st) else Some (1, d, set_errno st EILSEQ).

(** One byte of %c or %s: 0 stored, 1 not a character, -1 no memory. *)
Definition put_char (st : sc) (wide : bool) (d : sd) (c : Z) : option (Z * sd * sc) :=
  if wide then put_wide_strict st d c
  else '(r, d, st) ← sd_put st d c; Some (if negb (r =? 0) then -1 else 0, d, st).

(** One byte of %[. *)
Definition put_set (st : sc) (wide : bool) (d : sd) (c : Z) : option (Z * sd * sc) :=
  if wide then
    let '(n, w, st) := if sd_suppressed d then (1, 0, st) else wide_of st c in
    sd_put st d (if 0 <=? n then w else -1)
  else sd_put st d c.

(** The loops over the bytes of a field: how it ended (0 the field is complete), and the width left. *)
Fixpoint char_loop (n : nat) (st : sc) (wide : bool) (d : sd) (width c : Z) : option (Z * Z * sd * sc) :=
  match n with
  | 0%nat => None
  | S n =>
      '(r, d, st) ← put_char st wide d c;
      if negb (r =? 0) then Some (r, width, d, st) else
      let width := width - 1 in
      if width <=? 0 then Some (0, width, d, st) else
      '(c, st) ← inchar st;
      if c =? -1 then Some (0, width, d, st) else char_loop n st wide d width (st_c st)
  end.

Fixpoint string_loop (n : nat) (st : sc) (wide : bool) (d : sd) (width c : Z) : option (Z * sd * sc) :=
  match n with
  | 0%nat => None
  | S n =>
      if is_space c then st ← unget_any st c; Some (0, d, st) else
      '(r, d, st) ← put_char st wide d c;
      if negb (r =? 0) then Some (r, d, st) else
      let '(go, width) := if width <=? 0 then (true, width) else (0 <? width - 1, width - 1) in
      if negb go then Some (0, d, st) else
      '(c, st) ← inchar st;
      if c =? -1 then Some (0, d, st) else string_loop n st wide d width (st_c st)
  end.

Fixpoint set_loop (n : nat) (st : sc) (wide : bool) (map : gset Z) (not_in : bool) (d : sd) (width c : Z) : option (Z * sd * sc) :=
  match n with
  | 0%nat => None
  | S n =>
      if Bool.eqb (bool_decide (c ∈ map)) not_in then st ← unget_any st c; Some (0, d, st) else
      '(r, d, st) ← put_set st wide d c;
      if negb (r =? 0) then Some (r, d, st) else
      let '(stop, width) := if 0 <=? width then (width - 1 <=? 0, width - 1) else (false, width) in
      if (stop : bool) then Some (0, d, st) else
      '(c, st) ← inchar st;
      if c =? -1 then Some (0, d, st) else set_loop n st wide map not_in d width (st_c st)
  end.

(** The bytes of a set, [prev] the byte of the format in front of [f]; [None] when the format ends inside it. *)
Fixpoint set_bytes_of (f : list Z) (prev : Z) (map : gset Z) : option (gset Z * list Z) :=
  match f with
  | [] => None
  | sch :: f =>
      if sch =? chr "]" then Some (map, f)
      else if (sch =? chr "-") && negb (peek f =? 0) && negb (peek f =? chr "]") && (prev <=? peek f)
      then set_bytes_of f sch (list_to_set (seqZ prev (peek f - prev)) ∪ map)
      else set_bytes_of f sch ({[ sch ]} ∪ map)
  end.

Definition read_set (f : list Z) : bool * option (gset Z * list Z) :=
  let '(not_in, prev, f) := if peek f =? chr "^" then (true, chr "^", tail f) else (false, chr "[", f) in
  (not_in,
   if (peek f =? chr "]") || (peek f =? chr "-") then set_bytes_of (tail f) (peek f) {[ peek f ]}
   else set_bytes_of f prev ∅).

(** *** The call *)

(** What the call carries from one directive to the next: the blocks of
    [ptrlist], the current one first (address 0 is the one on the stack), and
    the slot of the %m result in progress. *)
Record vst := mkVst { v_sc : sc; v_ap : list Z; v_done : Z; v_skip : bool; v_plist : list (Z * list Z); v_strptr : Z }.

Definition with_sc (v : vst) (st : sc) : vst := mkVst st (v_ap v) (v_done v) (v_skip v) (v_plist v) (v_strptr v).
Definition with_ap (v : vst) (ap : list Z) : vst := mkVst (v_sc v) ap (v_done v) (v_skip v) (v_plist v) (v_strptr v).
Definition with_done (v : vst) (done : Z) : vst := mkVst (v_sc v) (v_ap v) done (v_skip v) (v_plist v) (v_strptr v).
Definition with_skip (v : vst) (b : bool) : vst := mkVst (v_sc v) (v_ap v) (v_done v) b (v_plist v) (v_strptr v).
Definition with_slots (v : vst) (pl : list (Z * list Z)) (p : Z) : vst := mkVst (v_sc v) (v_ap v) (v_done v) (v_skip v) pl p.

(** On with the next directive, or [goto errout]. *)
Inductive flow := Next (v : vst) | Stop (v : vst).

Definition input_error (v : vst) : flow := Stop (if v_done v =? 0 then with_done v (-1) else v).
Definition no_memory (v : vst) : flow := Stop (with_done v (-1)).

(** The [ARG] macro: the next argument, or the one with the number of the directive. *)
Definition arg_of (ap0 : list Z) (argpos : Z) (v : vst) : option (Z * vst) :=
  if argpos =? 0 then match v_ap v with [] => None | p :: ap => Some (p, with_ap v ap) end
  else p ← ap0 !! Z.to_nat (argpos - 1); Some (p, v).

(** The store of an integer result, and its count. *)
Definition int_size (fl : sflags) : nat := if SC_LONG fl then 8 else if SC_SHORT fl then 2 else if negb (SC_CHAR fl) then 4 else 1.

Definition store_arg (ap0 : list Z) (sp : sspec) (v : vst) (size : nat) (value : Z) : option vst :=
  '(p, v) ← arg_of ap0 (sp_argpos sp) v;
  st ← st_store (v_sc v) p size value;
  Some (with_sc v st).

(** White space up to the next byte that is none; the flag is an EINTR. *)
Fixpoint skip_loop (n : nat) (st : sc) : option (bool * sc) :=
  match n with
  | 0%nat => None
  | S n =>
      '(ended, st) ← (if st_c st =? -1 then Some (true, st) else '(c, st) ← inchar st; Some (c =? -1, st));
      if (ended : bool) && (st_errno st =? EINTR) then Some (true, st)
      else if is_space (st_c st) then skip_loop n st
      else Some (false, st)
  end.

(** The white space in front of a conversion; the flag is an input failure. *)
Definition skip_spaces (n : nat) (v : vst) : option (bool * vst) :=
  let st := v_sc v in
  '(intr, st') ← skip_loop n (set_errno st 0);
  if (intr : bool) then Some (true, with_sc v st') else
  st' ← unget_any (set_errno st' (st_errno st)) (st_c st');
  Some (false, with_skip (with_sc v st') false).

(** The white space in front of a literal. *)
Fixpoint literal_spaces (n : nat) (st : sc) (c : Z) : option (option Z * sc) :=
  if negb (is_space c) then Some (Some c, st) else
  match n with
  | 0%nat => None
  | S n => '(c, st) ← inchar st; if c =? -1 then Some (None, st) else literal_spaces n st (st_c st)
  end.

Definition literal (n : nat) (v : vst) (fc : Z) : option flow :=
  if is_space fc then Some (Next (with_skip v true)) else
  '(c, st) ← inchar (v_sc v);
  if c =? -1 then Some (input_error (with_sc v st)) else
  '(r, st) ← (if v_skip v then literal_spaces n st c else Some (Some c, st));
  match r with
  | None => Some (input_error (with_sc v st))
  | Some c =>
      if negb (c =? fc) then st ← unget_any st c; Some (Stop (with_sc v st))
      else Some (Next (with_skip (with_sc v st) false))
  end.

(** %% *)
Definition percent (v : vst) : option flow :=
  '(c, st) ← inchar (v_sc v);
  let v := with_sc v st in
  if c =? -1 then Some (input_error v)
  else if negb (c =? chr "%") then st ← unget_any st c; Some (Stop (with_sc v st))
  else Some (Next v).

Definition count (ap0 : list Z) (sp : sspec) (v : vst) : option flow :=
  if SC_SUPPRESS (sp_flags sp) then Some (Next v) else
  v ← store_arg ap0 sp v (int_size (sp_flags sp)) (st_nread (v_sc v)); Some (Next v).

(** The block of [ptrlist] for the next slot: [None] inside is no memory. *)
Definition ptrlist_room (v : vst) : vst * bool :=
  match v_plist v with
  | (_, slots) :: _ =>
      if len slots =? 32 then
        let '(nl, st) := alloc (v_sc v) 0 272 in
        if nl =? 0 then (with_slots (with_sc v st) (v_plist v) 0, false)
        else (with_slots (with_sc v st) ((nl, []) :: v_plist v) (v_strptr v), true)
      else (v, true)
  | [] => (v, true)
  end.

Definition add_slot (pl : list (Z * list Z)) (p : Z) : list (Z * list Z) :=
  match pl with (a, slots) :: pl => (a, slots ++ [p]) :: pl | [] => [] end.

(** The destination of %c, %s and %[. *)
Definition open_dest (ap0 : list Z) (sp : sspec) (wide is_char : bool) (width : Z) (v : vst) : option (flow + sd * vst) :=
  let fl := sp_flags sp in
  let d := mkSd 0 0 0 (if wide then 4 else 1) 0 (if is_char then u64 width else 0) is_char (SC_SUPPRESS fl) in
  if SC_SUPPRESS fl then Some (inr (d, v)) else
  '(p, v) ← arg_of ap0 (sp_argpos sp) v;
  if SC_MALLOC fl then
    let v := with_slots v (v_plist v) p in
    if p =? 0 then Some (inl (Stop v)) else
    let '(v, ok) := ptrlist_room v in
    if negb ok then Some (inl (no_memory v)) else
    let initial := if is_char then (if 1024 <? width then 1024 else width) else 100 in
    let '(b, st) := alloc (v_sc v) 0 (u64 (initial * sd_esz d)) in
    st ← st_store st p 8 b;
    if b =? 0 then Some (inl (no_memory (with_slots (with_sc v st) (v_plist v) 0)))
    else Some (inr (mkSd b 0 initial (sd_esz d) p (sd_limit d) is_char false, with_slots (with_sc v st) (add_slot (v_plist v) p) p))
  else
    if p =? 0 then Some (inl (Stop v))
    else Some (inr (mkSd p 0 0 (sd_esz d) 0 (sd_limit d) is_char false, v)).

(** The end of a field: counted unless it is suppressed. *)
Definition text_done (v : vst) (d : sd) (st : sc) (terminate : bool) : option flow :=
  st ← sd_finish st d terminate;
  let v := with_sc v st in
  Some (Next (if sd_suppressed d then v else with_done (with_slots v (v_plist v) 0) (v_done v + 1))).

(** A field that did not end well: no memory, or a byte that is no character. *)
Definition text_failed (v : vst) (r : Z) : flow := if r <? 0 then no_memory v else Stop v.

Definition text (n : nat) (ap0 : list Z) (sp : sspec) (fc : Z) (f : list Z) (v : vst) : option (flow * list Z) :=
  let wide := (fc =? chr "C") || (fc =? chr "S") || SC_LONG (sp_flags sp) in
  let is_char := (fc =? chr "c") || (fc =? chr "C") in
  let width := if is_char && (sp_width sp =? -1) then 1 else sp_width sp in
  r ← open_dest ap0 sp wide is_char width v;
  match r with
  | inl fl => Some (fl, f)
  | inr (d, v) =>
      let '(not_in, set) := if fc =? chr "[" then read_set f else (false, Some (∅, f)) in
      match set with
      | None => Some (Stop v, f)
      | Some (map, f) =>
          let now := st_nread (v_sc v) in
          '(c, st) ← inchar (v_sc v);
          if c =? -1 then Some (input_error (with_sc v st), f) else
          fl ← (if is_char then
              '(r, width, d, st) ← char_loop n st wide d width c;
              if negb (r =? 0) then Some (text_failed (with_sc v st) r)
              else if 0 <? width then Some (input_error (with_sc v st))
              else text_done v d st false
            else if negb (fc =? chr "[") then
              '(r, d, st) ← string_loop n st wide d width c;
              if negb (r =? 0) then Some (text_failed (with_sc v st) r) else text_done v d st true
            else
              '(r, d, st) ← set_loop n st wide map not_in d width c;
              if negb (r =? 0) then Some (no_memory (with_sc v st))
              else if now =? st_nread st then Some (Stop (with_sc v st))
              else text_done v d st true);
          Some (fl, f)
      end
  end.

(** The value of an integer field, and whether it is out of range. *)
Definition signed_value (v : num) : Z * bool :=
  if n_over v || (negb (n_neg v) && (2 ^ 63 - 1 <? n_mag v)) || (n_neg v && (2 ^ 63 <? n_mag v))
  then (if n_neg v then - 2 ^ 63 else 2 ^ 63 - 1, true)
  else (i64 (if n_neg v then u64 (0 - n_mag v) else n_mag v), false).
Definition unsigned_value (v : num) : Z * bool :=
  if n_over v then (2 ^ 64 - 1, true) else (if n_neg v then u64 (0 - n_mag v) else n_mag v, false).

Definition number (n : nat) (ap0 : list Z) (sp : sspec) (base : Z) (v : vst) : option flow :=
  let fl := sp_flags sp in
  '(r, x, st) ← scan_int n (v_sc v) base fl (sp_width sp);
  let v := with_sc v st in
  match r with
  | R_INPUT => Some (input_error v)
  | R_OK =>
      let '(value, erange) := if SC_SIGNED fl then signed_value x else unsigned_value x in
      let v := if (erange : bool) then with_sc v (set_errno st ERANGE) else v in
      if SC_SUPPRESS fl then Some (Next v) else
      v ← store_arg ap0 sp v (int_size fl) value;
      Some (Next (with_done v (v_done v + 1)))
  | _ => Some (Stop v)
  end.

Definition float (n : nat) (ap0 : list Z) (sp : sspec) (v : vst) : option flow :=
  let fl := sp_flags sp in
  '(r, b, st) ← scan_float n (v_sc v) (sp_width sp) cb_init;
  match r with
  | R_NOMEM => Some (no_memory (with_sc v (set_errno (cb_free st b) ENOMEM)))
  | R_INPUT => Some (input_error (with_sc v (cb_free st b)))
  | R_CONV => Some (Stop (with_sc v (cb_free st b)))
  | R_OK =>
      if SC_LONGDBL fl then Some (Stop (with_sc v (set_errno (cb_free st b) EINVAL))) else
      let txt := cb_text b in
      let '(b, st) := cb_add st b 0 in
      if cb_failed b then Some (no_memory (with_sc v (set_errno (cb_free st b) ENOMEM))) else
      let '(bits, rest, errno) := if SC_LONG fl then strtod (st_errno st) txt else strtof (st_errno st) txt in
      let none := len rest =? len txt in
      let v := with_sc v (set_errno st errno) in
      v ← (if negb none && negb (SC_SUPPRESS fl) then store_arg ap0 sp v (if SC_LONG fl then 8 else 4) bits else Some v);
      let v := with_sc v (cb_free (v_sc v) b) in
      if none then Some (Stop v)
      else Some (Next (if SC_SUPPRESS fl then v else with_done v (v_done v + 1)))
  end.

Definition with_flags (sp : sspec) (g : sflags -> sflags) : sspec := mkSspec (sp_argpos sp) (g (sp_flags sp)) (sp_width sp).

(** The conversion [fc]; [f] is the format behind it. *)
Definition conversion (n : nat) (ap0 : list Z) (sp : sspec) (fc : Z) (f : list Z) (v : vst) : option (flow * list Z) :=
  let plain r := fl ← r; Some (fl, f) in
  if fc =? chr "%" then plain (percent v)
  else if fc =? chr "n" then plain (count ap0 sp v)
  else if one_of fc "cCsS[" then text n ap0 sp fc f v
  else if one_of fc "xX" then plain (number n ap0 sp 16 v)
  else if fc =? chr "o" then plain (number n ap0 sp 8 v)
  else if fc =? chr "b" then plain (number n ap0 sp 2 v)
  else if fc =? chr "u" then plain (number n ap0 sp 10 v)
  else if fc =? chr "d" then plain (number n ap0 (with_flags sp or_signed) 10 v)
  else if fc =? chr "i" then plain (number n ap0 (with_flags sp or_signed) 0 v)
  else if fc =? chr "p" then plain (number n ap0 (with_flags sp or_pointer) 16 v)
  else if one_of fc "eEfFgGaA" then plain (float n ap0 sp v)
  else Some (Stop v, f).

(** A directive that starts with a percent sign. *)
Definition directive (n : nat) (ap0 : list Z) (f : list Z) (v : vst) : option (flow * list Z) :=
  let '(sp, f) := read_spec f in
  match sp with
  | None => Some (Stop (with_sc v (set_errno (v_sc v) EINVAL)), f)
  | Some sp =>
      match f with
      | [] => Some (Stop v, f)
      | fc :: f =>
          '(failed, v) ← (if v_skip v || negb (one_of fc "[cCn") then skip_spaces n v else Some (false, v));
          if (failed : bool) then Some (input_error v, f) else conversion n ap0 sp fc f v
      end
  end.

(** [Next] at the end of the format, [Stop] at [errout]. *)
Fixpoint format_dirs (m n : nat) (ap0 : list Z) (f : list Z) (v : vst) : option flow :=
  match m, f with
  | _, [] => Some (Next v)
  | 0%nat, _ => None
  | S m, fc :: f =>
      let v := if 0x80 <=? fc then with_sc v (set_errno (v_sc v) EILSEQ) else v in
      '(r, f) ← (if negb (fc =? chr "%") then r ← literal n v fc; Some (r, f) else directive n ap0 f v);
      match r with Next v => format_dirs m n ap0 f v | Stop v => Some (Stop v) end
  end.

(** The white space at the end of the format. *)
Fixpoint trailing_loop (n : nat) (st : sc) : option sc :=
  match n with
  | 0%nat => None
  | S n => '(_, st) ← inchar st; if is_space (st_c st) then trailing_loop n st else unget_any st (st_c st)
  end.

(** [release( *slot); *slot = NULL] *)
Definition drop_slot (st : sc) (slot : Z) : option sc :=
  p ← load_le (st_mem st) slot 8;
  st_store (release st p) slot 8 0.

Fixpoint drop_slots (st : sc) (slots : list Z) : option sc :=
  match slots with [] => Some st | s :: slots => st ← drop_slot st s; drop_slots st slots end.

Fixpoint drop_all (st : sc) (pl : list (Z * list Z)) : option sc :=
  match pl with [] => Some st | (_, slots) :: pl => st ← drop_slots st slots; drop_all st pl end.

(** The blocks of [ptrlist] that were allocated. *)
Fixpoint release_blocks (st : sc) (pl : list (Z * list Z)) : sc :=
  match pl with [] => st | (a, _) :: pl => release_blocks (if a =? 0 then st else release st a) pl end.

Definition errout (v : vst) : option (Z * sc) :=
  let st := v_sc v in
  st ← (if v_done v =? -1 then drop_all st (v_plist v)
        else if negb (v_strptr v =? 0) then drop_slot st (v_strptr v) else Some st);
  Some (v_done v, release_blocks st (v_plist v)).

(** The result, and the world, errno and memory behind the call. *)
Definition moqi_vscan (n : nat) (w : W) (errno : Z) (m : mem) (fmt : option (list Z)) (ap : list Z) : option (Z * W * Z * mem) :=
  match fmt with
  | None => Some (-1, w, EINVAL, m)
  | Some f =>
      r ← format_dirs (S (length f)) n ap f (mkVst (mkSc w errno 0 0 0 m) ap 0 false [(0, [])] 0);
      v ← (match r with
           | Next v => if v_skip v then st ← trailing_loop n (v_sc v); Some (with_sc v st) else Some v
           | Stop v => Some v
           end);
      '(done, st) ← errout v;
      Some (done, st_w st, st_errno st, st_mem st)
  end.

End Engine.

Arguments sc W : clear implicits.
Arguments vst W : clear implicits.
Arguments flow W : clear implicits.

(** ** Scanning a string (scanf.c) *)

(** realloc and free behind [str_alloc] and [str_free]. *)
Class ScanHeap (H : Type) := {
  heap_realloc : H -> mem -> Z -> Z -> Z * H * mem;
  heap_free : H -> mem -> Z -> H * mem }.

(** The text, the position in it and the heap. *)
Record str_src (H : Type) := mkStr { ss_s : list Z; ss_i : Z; ss_heap : H }.
Arguments mkStr {H} ss_s ss_i ss_heap.
Arguments ss_s {H} s. Arguments ss_i {H} s. Arguments ss_heap {H} s.

Definition str_get {H} (p : str_src H) (errno : Z) : option (Z * str_src H * Z) :=
  if len (ss_s p) =? ss_i p then Some (-1, p, errno) else
  c ← at_index (ss_s p) (ss_i p); Some (c, mkStr (ss_s p) (ss_i p + 1) (ss_heap p), errno).

Definition str_unget {H} (p : str_src H) (c : Z) : option (str_src H) := Some (mkStr (ss_s p) (ss_i p - 1) (ss_heap p)).

#[export] Instance str_source {H} `{ScanHeap H} : ScanSource (str_src H) := {
  src_get := str_get;
  src_unget := str_unget;
  src_alloc p m old n := let '(a, h, m) := heap_realloc (ss_heap p) m old n in (a, mkStr (ss_s p) (ss_i p) h, m);
  src_release p m a := let '(h, m) := heap_free (ss_heap p) m a in (mkStr (ss_s p) (ss_i p) h, m) }.

(** The fuel: one round for each byte of the text, and two at its end. *)
Definition vsscanf {H} `{ScanHeap H} (h : H) (errno : Z) (m : mem) (s fmt : option (list Z)) (ap : list Z) : option (Z * H * Z * mem) :=
  match s, fmt with
  | Some s, Some fmt => '(r, p, errno, m) ← moqi_vscan (length s + 2) (mkStr s 0 h) errno m (Some fmt) ap; Some (r, ss_heap p, errno, m)
  | _, _ => Some (-1, h, EINVAL, m)
  end.

(** ** Scanning a stream (stdio_file.c) *)

(** A stream, and the heap it takes blocks from. *)
Record file_src (W H : Type) := mkFsrc { fs_file : FILE_s; fs_world : W; fs_heap : H }.
Arguments mkFsrc {W H} fs_file fs_world fs_heap.
Arguments fs_file {W H} f. Arguments fs_world {W H} f. Arguments fs_heap {W H} f.

Section Stream.
Context {W H : Type} `{Kernel W} `{ScanHeap H}.

Definition of_stream (s : Stdio.st W) (h : H) : file_src W H := mkFsrc (st_f s) (Stdio.st_w s) h.

Definition scan_get (p : file_src W H) (errno : Z) : option (Z * file_src W H * Z) :=
  '(n, s) ← more (mkSt (fs_file p) errno (fs_world p));
  if n <=? 0 then Some (-1, of_stream s (fs_heap p), Stdio.st_errno s) else
  '(c, s) ← next_byte s;
  Some (c, of_stream s (fs_heap p), Stdio.st_errno s).

Definition scan_unget (p : file_src W H) (c : Z) : option (file_src W H) :=
  let f := fs_file p in
  Some (mkFsrc (set_window (f_rpos f - 1) (f_rend f) f) (fs_world p) (fs_heap p)).

#[export] Instance file_source : ScanSource (file_src W H) := {
  src_get := scan_get;
  src_unget := scan_unget;
  src_alloc p m old n := let '(a, h, m) := heap_realloc (fs_heap p) m old n in (a, mkFsrc (fs_file p) (fs_world p) h, m);
  src_release p m a := let '(h, m) := heap_free (fs_heap p) m a in (mkFsrc (fs_file p) (fs_world p) h, m) }.

(** [n] bounds the bytes read by one loop. *)
Definition vfscanf (n : nat) (h : H) (m : mem) (fmt : option (list Z)) (ap : list Z) (s : Stdio.st W) : option (Z * H * mem * (Stdio.st W)) :=
  if negb (F_READ (f_flags (st_f s))) then Some (-1, h, m, with_errno EBADF s) else
  match fmt with
  | None => Some (-1, h, m, with_errno EINVAL s)
  | Some fmt =>
      '(rc, s) ← flush_pending s;
      if negb (rc =? 0) then Some (-1, h, m, s) else
      '(r, p, errno, m) ← moqi_vscan n (of_stream s h) (Stdio.st_errno s) m (Some fmt) ap;
      Some (r, fs_heap p, m, mkSt (fs_file p) errno (fs_world p))
  end.

End Stream.
