(* ===== verification/ScanSim.v ===== *)
(** * The scanf engine on two sources

    A tape is the list of the bytes that are still to be read; taking a byte
    back puts it in front.  A run of the engine on any source that gives the
    bytes of a tape follows the run on the tape: the same result, errno and
    memory, and the source is left where the tape is left. *)

From S2P Require Import Prelude Mem Digits FpFmtSpec NumConv Format FormatSim Stdio Strtod Scan.

Record tape (H : Type) := mkTape { tp_rest : list Z; tp_heap : H }.
Arguments mkTape {H} tp_rest tp_heap.
Arguments tp_rest {H} t. Arguments tp_heap {H} t.

Definition tape_get {H} (t : tape H) : Z * tape H :=
  match tp_rest t with [] => (-1, t) | c :: l => (c, mkTape l (tp_heap t)) end.

#[export] Instance tape_source {H} `{ScanHeap H} : ScanSource (tape H) := {
  src_get t e := let '(c, t) := tape_get t in Some (c, t, e);
  src_unget t c := Some (mkTape (c :: tp_rest t) (tp_heap t));
  src_alloc t m old n := let '(a, h, m) := heap_realloc (tp_heap t) m old n in (a, mkTape (tp_rest t) h, m);
  src_release t m a := let '(h, m) := heap_free (tp_heap t) m a in (mkTape (tp_rest t) h, m) }.

(** [holds o w t]: the source [w] will give the bytes of [t], and can take back the byte [o]. *)
Class TextSource {W H} `{ScanSource W, ScanHeap H} (holds : option Z -> W -> tape H -> Prop) : Prop := {
  holds_get o w t e c t' : holds o w t -> tape_get t = (c, t') ->
    exists w', src_get w e = Some (c, w', e) /\ holds (if c =? -1 then None else Some c) w' t';
  holds_unget c w t : holds (Some c) w t -> exists w', src_unget w c = Some w' /\ holds None w' (mkTape (c :: tp_rest t) (tp_heap t));
  holds_alloc o w t m old n p t' m' : holds o w t -> src_alloc t m old n = (p, t', m') -> exists w', src_alloc w m old n = (p, w', m') /\ holds o w' t';
  holds_release o w t m p t' m' : holds o w t -> src_release t m p = (t', m') -> exists w', src_release w m p = (w', m') /\ holds o w' t' }.

Section Sim.
Context {W H : Type} `{ScanSource W, ScanHeap H} (holds : option Z -> W -> tape H -> Prop) `{!TextSource holds}.

Abbreviation scw := (sc W).
Abbreviation sct := (sc (tape H)).

Definition same (a : scw) (b : sct) : Prop :=
  st_errno a = st_errno b /\ st_c a = st_c b /\ st_inchar_errno a = st_inchar_errno b /\ st_nread a = st_nread b /\ st_mem a = st_mem b.

(** Related states, and related states that have just read their byte. *)
Definition J (a : scw) (b : sct) : Prop := (exists o, holds o (st_w a) (st_w b)) /\ same a b.
Definition F (a : scw) (b : sct) : Prop := J a b /\ (st_c b <> -1 -> holds (Some (st_c b)) (st_w a) (st_w b)).

Definition JP {X} (a : X * scw) (b : X * sct) : Prop := a.1 = b.1 /\ J a.2 b.2.
Definition FP {X} (a : X * scw) (b : X * sct) : Prop := a.1 = b.1 /\ F a.2 b.2.
(** A byte and the state behind it. *)
Definition CP (a : Z * scw) (b : Z * sct) : Prop := a.1 = b.1 /\ b.1 = st_c b.2 /\ F a.2 b.2.

Lemma F_J a b : F a b -> J a b.
Proof. by intros [Hj _]. Qed.

Lemma FP_JP {X} (a : X * scw) b : FP a b -> JP a b.
Proof. intros [He Hf]. split; [done|by apply F_J]. Qed.

Lemma J_c a b : J a b -> st_c a = st_c b.
Proof. by intros (_ & _ & Hc & _). Qed.
Lemma J_errno a b : J a b -> st_errno a = st_errno b.
Proof. by intros (_ & He & _). Qed.
Lemma J_nread a b : J a b -> st_nread a = st_nread b.
Proof. by intros (_ & _ & _ & _ & Hn & _). Qed.
Lemma J_mem a b : J a b -> st_mem a = st_mem b.
Proof. by intros (_ & _ & _ & _ & _ & Hm). Qed.

Lemma J_set_errno a b e : J a b -> J (set_errno a e) (set_errno b e).
Proof. by intros (Hh & He & Hs). Qed.
Lemma F_set_errno a b e : F a b -> F (set_errno a e) (set_errno b e).
Proof. intros [Hj Hf]. split; [by apply J_set_errno|done]. Qed.
Lemma J_set_mem a b m : J a b -> J (set_mem a m) (set_mem b m).
Proof. by intros (Hh & He & Hc & Hi & Hn & _). Qed.
Lemma F_set_mem a b m : F a b -> F (set_mem a m) (set_mem b m).
Proof. intros [Hj Hf]. split; [by apply J_set_mem|done]. Qed.

Lemma sim_inchar a b : J a b -> simulated CP (inchar a) (inchar b).
Proof.
  intros [[o Hh] (He & Hc & Hi & Hn & Hm)]. unfold inchar. rewrite Hc. destruct (st_c b =? -1) eqn:E.
  - apply simulated_ret. split; [done|]. split; [cbn; lia|]. split; [|cbn; lia]. split; [by exists o|]. rewrite Hi. done.
  - cbn [src_get tape_source]. destruct (tape_get (st_w b)) as [c t] eqn:Eg. destruct (holds_get o _ _ (st_errno a) c t Hh Eg) as (w & Hw & Hh'). rewrite Hw, He. cbn [mbind option_bind].
    apply simulated_ret. split; [done|]. destruct (c =? -1) eqn:Ec; cbn [negb]; (split; [done|]); (split; [split; [by eexists|]|cbn; intros ?; first [lia | done]]).
    + by rewrite <- He in *.
    + unfold same. cbn. rewrite Hn. done.
Qed.

Lemma sim_unget a b : F a b -> simulated J (unget_any a (st_c b)) (unget_any b (st_c b)).
Proof.
  intros [([o Hh] & He & Hc & Hi & Hn & Hm) Hf]. unfold unget_any. destruct (st_c b =? -1) eqn:E; [apply simulated_ret; split; [by exists o|done]|].
  destruct (holds_unget _ _ _ (Hf ltac:(lia))) as (w & Hw & Hh'). rewrite Hw. cbn [src_unget tape_source mbind option_bind]. apply simulated_ret.
  split; [by eexists|]. unfold same. cbn. by rewrite Hn.
Qed.

Lemma sim_alloc a b old n : J a b -> (alloc a old n).1 = (alloc b old n).1 /\ J (alloc a old n).2 (alloc b old n).2 /\
  (F a b -> F (alloc a old n).2 (alloc b old n).2).
Proof.
  intros ([o Hh] & He & Hc & Hi & Hn & Hm). unfold alloc. rewrite Hm.
  destruct (src_alloc (st_w b) (st_mem b) old n) as [[p t] m] eqn:Et. destruct (holds_alloc o _ _ _ _ _ _ _ _ Hh Et) as (w & Hw & Hh'). rewrite Hw. cbn.
  split; [done|]. assert (HJ : J (set_heap a w m) (set_heap b t m)) by (split; [by exists o|by rewrite <- Hm in *]). split; [done|].
  intros [_ Hf]. split; [done|]. cbn. intros Hne. destruct (holds_alloc _ _ _ _ _ _ _ _ _ (Hf Hne) Et) as (w' & Hw' & Hh2). congruence.
Qed.

Lemma sim_release a b p : J a b -> J (release a p) (release b p) /\ (F a b -> F (release a p) (release b p)).
Proof.
  intros ([o Hh] & He & Hc & Hi & Hn & Hm). unfold release. rewrite Hm.
  destruct (src_release (st_w b) (st_mem b) p) as [t m] eqn:Et. destruct (holds_release o _ _ _ _ _ _ Hh Et) as (w & Hw & Hh'). rewrite Hw. cbn.
  assert (HJ : J (set_heap a w m) (set_heap b t m)) by (split; [by exists o|by rewrite <- Hm in *]). split; [done|].
  intros [_ Hf]. split; [done|]. cbn. intros Hne. destruct (holds_release _ _ _ _ _ _ _ (Hf Hne) Et) as (w' & Hw' & Hh2). congruence.
Qed.

Lemma sim_store a b p n v : J a b -> simulated J (st_store a p n v) (st_store b p n v).
Proof. intros Hj. unfold st_store. rewrite (J_mem _ _ Hj). apply simulated_bind_eq. intros m. apply simulated_ret. by apply J_set_mem. Qed.
Lemma sim_store_F a b p n v : F a b -> simulated F (st_store a p n v) (st_store b p n v).
Proof. intros Hf. unfold st_store. rewrite (J_mem _ _ (F_J _ _ Hf)). apply simulated_bind_eq. intros m. apply simulated_ret. by apply F_set_mem. Qed.

(** A result that mentions the byte just read. *)
Definition RP {X} (g : X -> option Z) (a : X * scw) (b : X * sct) : Prop :=
  a.1 = b.1 /\ F a.2 b.2 /\ (forall c, g b.1 = Some c -> c = st_c b.2).

Lemma sim_cb_add a b cb ch : F a b -> FP (cb_add a cb ch) (cb_add b cb ch).
Proof.
  intros Hf. unfold cb_add. destruct (cb_failed cb); [by split|]. destruct (_ =? cb_cap cb); [|by split].
  destruct (sim_alloc a b (cb_p cb) (u64 (cb_cap cb * 2)) (F_J _ _ Hf)) as (He & _ & Hf'). specialize (Hf' Hf).
  destruct (alloc a _ _) as [p a'], (alloc b _ _) as [p' b']. cbn in He, Hf'. subst p'. destruct (p =? 0); by split.
Qed.

Lemma sim_cb_free a b cb : J a b -> J (cb_free a cb) (cb_free b cb).
Proof. intros Hj. unfold cb_free. destruct (negb _); [exact (proj1 (sim_release _ _ _ Hj))|exact Hj]. Qed.

#[local] Hint Resolve F_J J_set_errno F_set_errno sim_inchar sim_unget sim_store sim_store_F sim_cb_free : scan.

(** What is known of a state, said of the state on the tape. *)
Ltac scan_norm :=
  repeat match goal with
  | Hf : F ?a ?b |- context [st_c ?a] => rewrite (J_c a b (F_J a b Hf))
  | Hf : F ?a ?b |- context [st_errno ?a] => rewrite (J_errno a b (F_J a b Hf))
  | Hf : F ?a ?b |- context [st_nread ?a] => rewrite (J_nread a b (F_J a b Hf))
  | Hj : J ?a ?b |- context [st_c ?a] => rewrite (J_c a b Hj)
  | Hj : J ?a ?b |- context [st_errno ?a] => rewrite (J_errno a b Hj)
  | Hj : J ?a ?b |- context [st_nread ?a] => rewrite (J_nread a b Hj)
  | Hj : J ?a ?b |- context [st_mem ?a] => rewrite (J_mem a b Hj)
  end.

(** The byte of a result is the one just read. *)
Ltac scan_byte :=
  repeat match goal with
  | Hc : forall c, ?e = Some c -> c = st_c _ |- _ =>
      let e' := eval cbn in e in
      lazymatch e' with
      | Some ?z => specialize (Hc z eq_refl); try subst z
      | None => clear Hc
      end
  end.

(** The relation of two results, taken apart. *)
Ltac scan_split :=
  repeat match goal with
  | x : (_ * _)%type |- _ => destruct x
  | Hc : CP _ _ |- _ => destruct Hc as (? & ? & ?)
  | Hc : FP _ _ |- _ => destruct Hc as (? & ?)
  | Hc : JP _ _ |- _ => destruct Hc as (? & ?)
  | Hc : RP _ _ _ |- _ => destruct Hc as (? & ? & ?)
  end; cbn [fst snd] in *; simplify_eq; scan_byte.

(** One step along the two runs. *)
Ltac scan_step :=
  scan_norm;
  lazymatch goal with
  | |- simulated _ (Some _) (Some _) => apply simulated_ret
  | |- simulated _ None _ => intros ? [=]
  | |- simulated _ _ None => apply simulated_none
  | |- simulated _ (if ?c then _ else _) (if ?c then _ else _) => destruct c eqn:?
  | |- simulated _ (match ?c with Some _ => _ | None => _ end) (match ?c with Some _ => _ | None => _ end) => destruct c eqn:?; scan_split
  | |- simulated _ (match ?r with R_OK => _ | R_CONV => _ | R_INPUT => _ | R_NOMEM => _ end) _ => destruct r
  | |- simulated _ (let '(_, _) := cb_add ?a ?cb ?ch in _) (let '(_, _) := cb_add ?b ?cb ?ch in _) =>
      let Hc := fresh "Hc" in
      assert (Hc : FP (cb_add a cb ch) (cb_add b cb ch)) by (apply sim_cb_add; eauto with scan);
      destruct (cb_add a cb ch), (cb_add b cb ch); scan_split
  | |- simulated _ (_ ≫= _) (_ ≫= _) => eapply simulated_bind; [solve [eauto with scan]|intros ? ? ?; scan_split]
  end.
Ltac scan_done :=
  lazymatch goal with
  | |- RP _ _ _ => split; cbn [fst snd]; [done|split; [by eauto with scan|first [done | by intros ? [= <-]]]]
  | |- CP _ _ => split; cbn [fst snd]; [done|split; [done|by eauto with scan]]
  | |- JP _ _ => split; cbn [fst snd]; [done|by eauto with scan]
  | |- FP _ _ => split; cbn [fst snd]; [done|by eauto with scan]
  | |- _ => solve [eauto with scan]
  end.
Ltac scan_run := repeat scan_step; try scan_done.

Lemma sim_digits n : forall a b base width have v, F a b ->
  simulated (RP (fun x => Some x.1.1.2)) (digits_loop n a base width (st_c b) have v) (digits_loop n b base width (st_c b) have v).
Proof. induction n as [|n IH]; intros a b base width have v Hf; cbn [digits_loop]; scan_run. Qed.

Lemma sim_sign a b width : F a b -> simulated (RP (fun x => Some x.2)) (scan_sign a width (st_c b)) (scan_sign b width (st_c b)).
Proof. intros Hf. unfold scan_sign. scan_run. Qed.

Lemma sim_prefix a b base width : F a b ->
  simulated (RP (fun x => match x with Some (_, _, c, _) => Some c | None => None end)) (scan_prefix a base width (st_c b)) (scan_prefix b base width (st_c b)).
Proof. intros Hf. unfold scan_prefix. cbv zeta. scan_run. Qed.

Lemma sim_match_nil w : forall a b, F a b -> simulated FP (match_nil a w) (match_nil b w).
Proof. induction w as [|x w IH]; intros a b Hf; cbn [match_nil]; scan_run. Qed.
#[local] Hint Resolve sim_digits sim_sign sim_prefix sim_match_nil : scan.

Lemma sim_nil a b hs fl width c v : F a b -> simulated JP (scan_nil a hs fl width c v) (scan_nil b hs fl width c v).
Proof.
  intros Hf. unfold scan_nil. eapply (simulated_bind FP); [destruct (_ && _); [auto with scan|apply simulated_ret; by split]|]. intros ? ? ?. scan_split. scan_run.
Qed.
#[local] Hint Resolve sim_nil : scan.

Lemma sim_int n a b base fl width : J a b -> simulated JP (scan_int n a base fl width) (scan_int n b base fl width).
Proof. intros Hj. unfold scan_int. scan_run. Qed.
#[local] Hint Resolve sim_int : scan.

(** *** Floating-point numbers *)

Lemma sim_match_rest w : forall a b width cb, F a b -> simulated FP (match_rest a w width cb) (match_rest b w width cb).
Proof. induction w as [|x w IH]; intros a b width cb Hf; cbn [match_rest]; scan_run. Qed.

Lemma sim_nan_loop n : forall a b width cb, F a b -> simulated FP (nan_loop n a width cb) (nan_loop n b width cb).
Proof. induction n as [|n IH]; intros a b width cb Hf; cbn [nan_loop]; scan_run. Qed.
#[local] Hint Resolve sim_match_rest sim_nan_loop : scan.

Lemma sim_nan n a b c width cb : F a b -> simulated JP (scan_nan n a c width cb) (scan_nan n b c width cb).
Proof. intros Hf. unfold scan_nan. scan_run. Qed.

Lemma sim_inf a b c width cb : F a b -> simulated JP (scan_inf a c width cb) (scan_inf b c width cb).
Proof. intros Hf. unfold scan_inf. scan_run. Qed.

Lemma sim_float_loop n : forall a b hex ec width cb g, F a b ->
  simulated JP (float_loop n a hex ec (st_c b) width cb g) (float_loop n b hex ec (st_c b) width cb g).
Proof. induction n as [|n IH]; intros a b hex ec width cb g Hf; cbn [float_loop]; scan_run. Qed.

Lemma sim_float_prefix a b width cb : F a b ->
  simulated (RP (fun x => match x.2 with Some (_, c, _, _) => Some c | None => None end)) (float_prefix a (st_c b) width cb) (float_prefix b (st_c b) width cb).
Proof. intros Hf. unfold float_prefix. cbv zeta. scan_run. Qed.
#[local] Hint Resolve sim_nan sim_inf sim_float_loop sim_float_prefix : scan.

Lemma sim_scan_number a b n width cb : F a b -> simulated JP (scan_number n a (st_c b) width cb) (scan_number n b (st_c b) width cb).
Proof. intros Hf. unfold scan_number. scan_run. Qed.

Lemma sim_float_sign a b width cb : F a b ->
  simulated (RP (fun x : bool * Z * Z * cbuf => if x.1.1.1 then Some x.1.1.2 else None)) (float_sign a (st_c b) width cb) (float_sign b (st_c b) width cb).
Proof. intros Hf. unfold float_sign. scan_run. Qed.
#[local] Hint Resolve sim_scan_number sim_float_sign : scan.

Lemma sim_float n a b width cb : J a b -> simulated JP (scan_float n a width cb) (scan_float n b width cb).
Proof. intros Hj. unfold scan_float. cbv zeta. scan_run. destruct b0; [|done]. scan_byte. scan_done. Qed.
#[local] Hint Resolve sim_float : scan.

(** *** String destinations *)

Lemma sim_grow a b d : F a b -> simulated FP (sd_grow a d) (sd_grow b d).
Proof.
  intros Hf. unfold sd_grow. cbv zeta. set (want := if _ && _ then sd_limit d else _).
  destruct (sim_alloc a b (sd_base d) (u64 (want * sd_esz d)) (F_J _ _ Hf)) as (He & _ & Hf'). specialize (Hf' Hf). destruct (alloc a _ _) as [p a'], (alloc b _ _) as [p' b']. cbn in He, Hf'. subst p'.
  destruct (p =? 0) eqn:Ep; [|rewrite Ep; scan_run].
  destruct (sim_alloc a' b' (sd_base d) (u64 (u64 (sd_len d + 1) * sd_esz d)) (F_J _ _ Hf')) as (He2 & _ & Hf2). specialize (Hf2 Hf'). destruct (alloc a' _ _) as [q a''], (alloc b' _ _) as [q' b'']. cbn in He2, Hf2. subst q'.
  scan_run.
Qed.

Lemma sim_room a b d : F a b -> simulated FP (sd_room a d) (sd_room b d).
Proof. intros Hf. unfold sd_room. destruct (_ && _); [by apply sim_grow|apply simulated_ret; by split]. Qed.

Lemma sim_elem a b d v : F a b -> simulated F (sd_elem a d v) (sd_elem b d v).
Proof. intros Hf. unfold sd_elem. destruct (_ =? _); by apply sim_store_F. Qed.
#[local] Hint Resolve sim_room sim_elem : scan.

Lemma sim_put a b d v : F a b -> simulated FP (sd_put a d v) (sd_put b d v).
Proof.
  intros Hf. unfold sd_put. scan_run.
  eapply (simulated_bind F); [destruct (0 <=? v); [auto with scan|by apply simulated_ret]|]. intros ? ? ?. cbv zeta. scan_run.
Qed.

Lemma sim_poke a b d v : F a b -> simulated FP (sd_poke a d v) (sd_poke b d v).
Proof. intros Hf. unfold sd_poke. scan_run. Qed.
#[local] Hint Resolve sim_put sim_poke : scan.

Lemma sim_wide_of a b c : F a b -> FP (wide_of a c) (wide_of b c).
Proof. intros Hf. unfold wide_of. destruct (c =? 0); [by split|]. destruct (c <? 128); [by split|]. split; [done|by apply F_set_errno]. Qed.

Lemma sim_wide_strict a b d c : F a b -> simulated FP (put_wide_strict a d c) (put_wide_strict b d c).
Proof.
  intros Hf. unfold put_wide_strict. pose proof (sim_wide_of a b c Hf) as Hw. destruct (wide_of a c), (wide_of b c). scan_split. scan_run.
  eapply (simulated_bind FP); [destruct (z =? 0); [auto with scan|apply simulated_ret; by split]|]. intros ? ? ?. scan_split. scan_run.
Qed.
#[local] Hint Resolve sim_wide_strict : scan.

Lemma sim_put_char a b wide d c : F a b -> simulated FP (put_char a wide d c) (put_char b wide d c).
Proof. intros Hf. unfold put_char. scan_run. Qed.

Lemma sim_put_set a b wide d c : F a b -> simulated FP (put_set a wide d c) (put_set b wide d c).
Proof.
  intros Hf. unfold put_set. destruct wide; [|auto with scan]. destruct (sd_suppressed d); [auto with scan|].
  pose proof (sim_wide_of a b c Hf) as Hw. destruct (wide_of a c), (wide_of b c). scan_split. auto with scan.
Qed.
#[local] Hint Resolve sim_put_char sim_put_set : scan.

Lemma sim_char_loop n : forall a b wide d width, F a b -> simulated JP (char_loop n a wide d width (st_c b)) (char_loop n b wide d width (st_c b)).
Proof. induction n as [|n IH]; intros a b wide d width Hf; cbn [char_loop]; cbv zeta; scan_run. Qed.

Lemma sim_string_loop n : forall a b wide d width, F a b -> simulated JP (string_loop n a wide d width (st_c b)) (string_loop n b wide d width (st_c b)).
Proof. induction n as [|n IH]; intros a b wide d width Hf; cbn [string_loop]; scan_run. destruct (if width <=? 0 then _ else _) as [go width']. scan_run. Qed.

Lemma sim_set_loop n : forall a b wide map ni d width, F a b -> simulated JP (set_loop n a wide map ni d width (st_c b)) (set_loop n b wide map ni d width (st_c b)).
Proof. induction n as [|n IH]; intros a b wide map ni d width Hf; cbn [set_loop]; scan_run. destruct (if 0 <=? width then _ else _) as [stop width']. scan_run. Qed.
#[local] Hint Resolve sim_char_loop sim_string_loop sim_set_loop : scan.

Lemma sim_elem_J a b d v : J a b -> simulated J (sd_elem a d v) (sd_elem b d v).
Proof. intros Hj. unfold sd_elem. destruct (_ =? _); by apply sim_store. Qed.

Lemma sim_finish a b d term : J a b -> simulated J (sd_finish a d term) (sd_finish b d term).
Proof.
  intros Hj. unfold sd_finish. destruct (sd_suppressed d); [by apply simulated_ret|].
  eapply (simulated_bind JP); [destruct term; [|apply simulated_ret; by split]; eapply simulated_bind; [by apply sim_elem_J|]; intros ? ? ?; apply simulated_ret; by split|].
  intros ? ? ?. scan_split. destruct (_ && _); [|by apply simulated_ret].
  match goal with Hj' : J ?x ?y |- context [alloc ?x (sd_base ?e) ?k] => destruct (sim_alloc x y (sd_base e) k Hj') as (He & Hj2 & _); destruct (alloc x (sd_base e) k), (alloc y (sd_base e) k) end.
  cbn in He, Hj2. subst. destruct (negb _); [by apply sim_store|by apply simulated_ret].
Qed.

(** *** The call *)

Definition VJ (v : vst W) (u : vst (tape H)) : Prop :=
  J (v_sc v) (v_sc u) /\ v_ap v = v_ap u /\ v_done v = v_done u /\ v_skip v = v_skip u /\ v_plist v = v_plist u /\ v_strptr v = v_strptr u.

Definition FL (x : flow W) (y : flow (tape H)) : Prop :=
  match x, y with Next v, Next u => VJ v u | Stop v, Stop u => VJ v u | _, _ => False end.
Definition FLP {X} (x : flow W * X) (y : flow (tape H) * X) : Prop := FL x.1 y.1 /\ x.2 = y.2.
Definition VP {X} (x : X * vst W) (y : X * vst (tape H)) : Prop := x.1 = y.1 /\ VJ x.2 y.2.

Lemma VJ_J v u : VJ v u -> J (v_sc v) (v_sc u).
Proof. by intros [Hj _]. Qed.
Lemma VJ_sc v u a b : VJ v u -> J a b -> VJ (with_sc v a) (with_sc u b).
Proof. by intros (_ & Hv) Hj. Qed.
Lemma VJ_ap v u ap : VJ v u -> VJ (with_ap v ap) (with_ap u ap).
Proof. by intros (Hj & _ & Hv). Qed.
Lemma VJ_done v u n : VJ v u -> VJ (with_done v n) (with_done u n).
Proof. by intros (Hj & Ha & _ & Hv). Qed.
Lemma VJ_skip v u b : VJ v u -> VJ (with_skip v b) (with_skip u b).
Proof. by intros (Hj & Ha & Hd & _ & Hv). Qed.
Lemma VJ_slots v u pl p : VJ v u -> VJ (with_slots v pl p) (with_slots u pl p).
Proof. by intros (Hj & Ha & Hd & Hs & _). Qed.
Lemma VJ_fields v u : VJ v u -> v_ap v = v_ap u /\ v_done v = v_done u /\ v_skip v = v_skip u /\ v_plist v = v_plist u /\ v_strptr v = v_strptr u.
Proof. by intros [_ Hv]. Qed.

Lemma FL_next v u : VJ v u -> FL (Next v) (Next u).
Proof. done. Qed.
Lemma FL_stop v u : VJ v u -> FL (Stop v) (Stop u).
Proof. done. Qed.
Lemma FL_input v u : VJ v u -> FL (input_error v) (input_error u).
Proof. intros Hv. unfold input_error. destruct (VJ_fields _ _ Hv) as (_ & -> & _). destruct (_ =? 0); [by apply VJ_done|done]. Qed.
Lemma FL_nomem v u : VJ v u -> FL (no_memory v) (no_memory u).
Proof. intros Hv. by apply VJ_done. Qed.
Lemma FL_failed v u r : VJ v u -> FL (text_failed v r) (text_failed u r).
Proof. intros Hv. unfold text_failed. destruct (r <? 0); [by apply FL_nomem|done]. Qed.

#[local] Hint Resolve sim_finish VJ_J VJ_sc VJ_ap VJ_done VJ_skip VJ_slots FL_next FL_stop FL_input FL_nomem FL_failed : scan.

Lemma sim_arg_of ap0 pos v u : VJ v u -> simulated VP (arg_of ap0 pos v) (arg_of ap0 pos u).
Proof.
  intros Hv. unfold arg_of. destruct (VJ_fields _ _ Hv) as (-> & _). destruct (pos =? 0).
  - destruct (v_ap u); [done|]. apply simulated_ret. split; [done|by apply VJ_ap].
  - apply simulated_bind_eq. intros p. apply simulated_ret. by split.
Qed.

Lemma sim_store_arg ap0 sp v u size x : VJ v u -> simulated VJ (store_arg ap0 sp v size x) (store_arg ap0 sp u size x).
Proof.
  intros Hv. unfold store_arg. eapply simulated_bind; [by apply sim_arg_of|]. intros [p v'] [p' u'] [He Hv']. cbn in He, Hv'. subst p'.
  eapply simulated_bind; [apply sim_store; by apply VJ_J|]. intros a b Hj. apply simulated_ret. by apply VJ_sc.
Qed.
#[local] Hint Resolve sim_arg_of sim_store_arg : scan.

Lemma J_end a b : J a b -> st_c b = -1 -> F a b.
Proof. intros Hj Hc. split; [done|]. by rewrite Hc. Qed.

Lemma sim_skip_loop n : forall a b, J a b -> simulated FP (skip_loop n a) (skip_loop n b).
Proof.
  induction n as [|n IH]; intros a b Hj; cbn [skip_loop]; [done|]. eapply (simulated_bind FP).
  - scan_norm. destruct (st_c b =? -1) eqn:E; [apply simulated_ret; split; [done|]; apply J_end; [done|cbn; lia]|]. scan_run.
  - intros ? ? ?. scan_split. scan_run.
Qed.
#[local] Hint Resolve sim_skip_loop : scan.

Lemma sim_skip_spaces n v u : VJ v u -> simulated VP (skip_spaces n v) (skip_spaces n u).
Proof.
  intros Hv. unfold skip_spaces. cbv zeta. rewrite (J_errno _ _ (VJ_J _ _ Hv)). eapply simulated_bind; [apply sim_skip_loop; eauto with scan|].
  intros ? ? ?. scan_split. destruct b; [apply simulated_ret; split; cbn [fst snd]; eauto with scan|]. scan_norm.
  eapply simulated_bind; [|intros ? ? ?; apply simulated_ret; split; cbn [fst snd]; eauto with scan].
  match goal with Hf : F ?x ?y |- context [set_errno ?y ?e] => exact (sim_unget (set_errno x e) (set_errno y e) (F_set_errno _ _ _ Hf)) end.
Qed.

Lemma sim_literal_spaces n : forall a b, F a b -> simulated (RP (fun x => x)) (literal_spaces n a (st_c b)) (literal_spaces n b (st_c b)).
Proof. induction n as [|n IH]; intros a b Hf; cbn [literal_spaces]; scan_run. Qed.
#[local] Hint Resolve sim_skip_spaces sim_literal_spaces : scan.

Lemma sim_literal n v u fc : VJ v u -> simulated FL (literal n v fc) (literal n u fc).
Proof.
  intros Hv. unfold literal. destruct (is_space fc); [apply simulated_ret; eauto with scan|].
  eapply simulated_bind; [apply sim_inchar; eauto with scan|]. intros ? ? ?. scan_split. destruct (_ =? -1) eqn:Ec; [apply simulated_ret; eauto with scan|].
  eapply (simulated_bind (RP (fun x => x))).
  { destruct (VJ_fields _ _ Hv) as (_ & _ & -> & _). destruct (v_skip u); [eauto with scan|]. apply simulated_ret. scan_done. }
  intros ? ? ?. scan_split. destruct o as [c|]; scan_byte; [|apply simulated_ret; eauto with scan].
  destruct (negb _); [|apply simulated_ret; eauto with scan]. eapply simulated_bind; [eauto with scan|]. intros ? ? ?. apply simulated_ret; eauto with scan.
Qed.

Lemma sim_percent v u : VJ v u -> simulated FL (percent v) (percent u).
Proof.
  intros Hv. unfold percent. eapply simulated_bind; [apply sim_inchar; eauto with scan|]. intros ? ? ?. scan_split. cbv zeta. destruct (_ =? -1) eqn:Ec; [apply simulated_ret; eauto with scan|].
  destruct (negb _); [|apply simulated_ret; eauto with scan]. eapply simulated_bind; [eauto with scan|]. intros ? ? ?. apply simulated_ret; eauto with scan.
Qed.

Lemma sim_scan_count ap0 sp v u : VJ v u -> simulated FL (count ap0 sp v) (count ap0 sp u).
Proof.
  intros Hv. unfold count. destruct (SC_SUPPRESS _); [by apply simulated_ret|]. rewrite (J_nread _ _ (VJ_J _ _ Hv)).
  eapply simulated_bind; [eauto with scan|]. intros ? ? ?. by apply simulated_ret.
Qed.

(** An allocation for the call. *)
Ltac scan_alloc :=
  match goal with
  | Hj : J ?x ?y |- context [alloc ?x ?o ?k] =>
      let He := fresh "He" in let Hj2 := fresh "Hj" in
      destruct (sim_alloc x y o k Hj) as (He & Hj2 & _); destruct (alloc x o k), (alloc y o k); cbn in He, Hj2; subst
  end.

Lemma sim_ptrlist_room v u : VJ v u -> VJ (ptrlist_room v).1 (ptrlist_room u).1 /\ (ptrlist_room v).2 = (ptrlist_room u).2.
Proof.
  intros Hv. unfold ptrlist_room. destruct (VJ_fields _ _ Hv) as (_ & _ & _ & -> & ->). destruct (v_plist u) as [|[q slots] pl]; [done|].
  destruct (_ =? 32); [|done]. pose proof (VJ_J _ _ Hv) as Hj. scan_alloc. destruct (_ =? 0); cbn; split; eauto with scan.
Qed.

(** What [open_dest] gives on the two sides. *)
Definition OD (x : flow W + sd * vst W) (y : flow (tape H) + sd * vst (tape H)) : Prop :=
  match x, y with inl f, inl g => FL f g | inr (d, v), inr (e, u) => d = e /\ VJ v u | _, _ => False end.

Lemma sim_open_dest ap0 sp wide ic width v u : VJ v u -> simulated OD (open_dest ap0 sp wide ic width v) (open_dest ap0 sp wide ic width u).
Proof.
  intros Hv. unfold open_dest. cbv zeta. destruct (SC_SUPPRESS _); [by apply simulated_ret|].
  eapply simulated_bind; [by apply sim_arg_of|]. intros [p v1] [p' u1] [He Hv1]. cbn in He, Hv1. subst p'.
  destruct (SC_MALLOC _); [|destruct (p =? 0); by apply simulated_ret]. destruct (VJ_fields _ _ Hv1) as (_ & _ & _ & -> & _).
  destruct (p =? 0); [apply simulated_ret; cbn [OD]; eauto with scan|].
  destruct (sim_ptrlist_room _ _ (VJ_slots _ _ (v_plist u1) p Hv1)) as [Hv2 Hok]. destruct (ptrlist_room (with_slots v1 _ _)) as [v2 ok], (ptrlist_room (with_slots u1 _ _)) as [u2 ok']. cbn in Hv2, Hok. subst ok'.
  destruct (negb ok); [apply simulated_ret; cbn [OD]; eauto with scan|]. destruct (VJ_fields _ _ Hv2) as (_ & _ & _ & -> & _). pose proof (VJ_J _ _ Hv2) as Hj. cbn [sd_esz sd_limit]. scan_alloc.
  eapply simulated_bind; [by apply sim_store|]. intros a b Hab. destruct (_ =? 0); apply simulated_ret; [apply FL_nomem|split; [done|]]; eauto with scan.
Qed.

Lemma sim_text_done v u d a b term : VJ v u -> J a b -> simulated FL (text_done v d a term) (text_done u d b term).
Proof.
  intros Hv Hj. unfold text_done. eapply simulated_bind; [by apply sim_finish|]. intros a' b' Hj'. cbv zeta. apply simulated_ret.
  destruct (VJ_fields _ _ Hv) as (_ & Hd & _ & Hp & _). destruct (sd_suppressed d); cbn; [eauto with scan|]. rewrite Hd, Hp. eauto with scan.
Qed.
#[local] Hint Resolve sim_text_done : scan.

Lemma sim_scan_text n ap0 sp fc f v u : VJ v u -> simulated FLP (text n ap0 sp fc f v) (text n ap0 sp fc f u).
Proof.
  intros Hv. unfold text. cbv zeta. eapply simulated_bind; [by apply sim_open_dest|]. intros [x|[d v1]] [y|[e u1]] Ho; try done; [apply simulated_ret; by split|].
  destruct Ho as [<- Hv1]. destruct (if fc =? 91 then _ else _) as [ni [[map f']|]]; [|apply simulated_ret; by split].
  rewrite (J_nread _ _ (VJ_J _ _ Hv1)). eapply simulated_bind; [apply sim_inchar; eauto with scan|]. intros ? ? ?. scan_split. destruct (_ =? -1) eqn:Ec; [apply simulated_ret; split; cbn [fst snd]; eauto with scan|].
  eapply (simulated_bind FL); [|intros ? ? ?; apply simulated_ret; by split]. destruct ((fc =? 99) || (fc =? 67)).
  - eapply simulated_bind; [eauto with scan|]. intros ? ? ?. scan_split. destruct (negb _); [apply simulated_ret; eauto with scan|]. destruct (0 <? _); [apply simulated_ret|]; eauto with scan.
  - destruct (negb (fc =? 91)).
    + eapply simulated_bind; [eauto with scan|]. intros ? ? ?. scan_split. destruct (negb _); [apply simulated_ret|]; eauto with scan.
    + eapply simulated_bind; [eauto with scan|]. intros ? ? ?. scan_split. destruct (negb _); [apply simulated_ret; eauto with scan|]. scan_norm. destruct (st_nread (v_sc u1) =? _); [apply simulated_ret|]; eauto with scan.
Qed.

Lemma sim_number_dir n ap0 sp base v u : VJ v u -> simulated FL (number n ap0 sp base v) (number n ap0 sp base u).
Proof.
  intros Hv. unfold number. cbv zeta. eapply simulated_bind; [apply sim_int; eauto with scan|]. intros ? ? ?. scan_split. destruct r; try (apply simulated_ret; eauto with scan).
  destruct (if SC_SIGNED _ then _ else _) as [x er]. destruct (SC_SUPPRESS _); [apply simulated_ret; destruct er; eauto with scan|].
  eapply simulated_bind; [apply sim_store_arg; destruct er; eauto with scan|]. intros v' u' Hv'. apply simulated_ret. destruct (VJ_fields _ _ Hv') as (_ & -> & _). eauto with scan.
Qed.

Lemma sim_float_dir n ap0 sp v u : VJ v u -> simulated FL (float n ap0 sp v) (float n ap0 sp u).
Proof.
  intros Hv. unfold float. cbv zeta. eapply simulated_bind; [apply sim_float; eauto with scan|]. intros [[r cb] a] [[r' cb'] b] [He Hj]. cbn in He, Hj. simplify_eq.
  destruct r'; try (apply simulated_ret; eauto 8 with scan). destruct (SC_LONGDBL _); [apply simulated_ret; eauto 8 with scan|].
  assert (Hc : JP (cb_add a cb' 0) (cb_add b cb' 0)).
  { unfold cb_add. destruct (cb_failed cb'); [by split|]. destruct (_ =? cb_cap cb'); [|by split]. scan_alloc. destruct (_ =? 0); by split. }
  destruct (cb_add a cb' 0) as [cb2 a2], (cb_add b cb' 0) as [cb3 b2]. destruct Hc as [He Hj2]. cbn in He, Hj2. subst cb3.
  destruct (cb_failed cb2); [apply simulated_ret; eauto 8 with scan|]. scan_norm. destruct (if SC_LONG _ then strtod _ _ else _) as [[bits rest] errno].
  eapply (simulated_bind VJ); [destruct (_ && _); [|apply simulated_ret]; eauto with scan|]. intros v' u' Hv'.
  destruct (len rest =? _); [apply simulated_ret; eauto 8 with scan|]. apply simulated_ret. destruct (VJ_fields _ _ Hv') as (_ & Hd & _). destruct (SC_SUPPRESS _); cbn; [|rewrite Hd]; eauto 8 with scan.
Qed.
#[local] Hint Resolve sim_literal sim_percent sim_scan_count sim_number_dir sim_float_dir : scan.

Lemma sim_conversion n ap0 sp fc f v u : VJ v u -> simulated FLP (conversion n ap0 sp fc f v) (conversion n ap0 sp fc f u).
Proof.
  intros Hv. unfold conversion. cbv zeta.
  assert (Hp : forall ra rb, simulated FL ra rb -> simulated FLP (fl ← ra; Some (fl, f)) (fl ← rb; Some (fl, f))).
  { intros ra rb Hr. eapply simulated_bind; [exact Hr|]. intros ? ? ?. by apply simulated_ret. }
  repeat lazymatch goal with
  | |- simulated _ (if ?c then _ else _) _ => destruct c
  | |- simulated _ (text _ _ _ _ _ _) _ => by apply sim_scan_text
  | |- simulated _ (_ ≫= _) _ => apply Hp; eauto with scan
  | |- simulated _ (Some _) _ => by apply simulated_ret
  end.
Qed.

Lemma sim_directive n ap0 f v u : VJ v u -> simulated FLP (directive n ap0 f v) (directive n ap0 f u).
Proof.
  intros Hv. unfold directive. destruct (read_spec f) as [[sp|] f']; [|apply simulated_ret; split; cbn [fst snd]; eauto with scan].
  destruct f' as [|fc f']; [by apply simulated_ret|]. eapply (simulated_bind VP).
  - destruct (VJ_fields _ _ Hv) as (_ & _ & -> & _). destruct (_ || _); [by apply sim_skip_spaces|apply simulated_ret; by split].
  - intros [x v'] [y u'] [He Hv']. cbn in He, Hv'. subst y. destruct x; [apply simulated_ret; split; cbn [fst snd]; eauto with scan|]. by apply sim_conversion.
Qed.

Lemma sim_dirs m n ap0 : forall f v u, VJ v u -> simulated FL (format_dirs m n ap0 f v) (format_dirs m n ap0 f u).
Proof.
  induction m as [|m IH]; intros [|fc f] v u Hv; cbn [format_dirs]; try (by apply simulated_ret); [done|]. cbv zeta.
  assert (Hv' : VJ (if 128 <=? fc then with_sc v (set_errno (v_sc v) EILSEQ) else v) (if 128 <=? fc then with_sc u (set_errno (v_sc u) EILSEQ) else u)) by (destruct (128 <=? fc); eauto with scan).
  eapply (simulated_bind FLP).
  - destruct (negb _); [|by apply sim_directive]. eapply simulated_bind; [by apply sim_literal|]. intros ? ? ?. by apply simulated_ret.
  - intros [x f1] [y f2] [Hxy He]. cbn in Hxy, He. subst f2. destruct x, y; try done; [by apply IH|by apply simulated_ret].
Qed.

Lemma sim_trailing n : forall a b, J a b -> simulated J (trailing_loop n a) (trailing_loop n b).
Proof. induction n as [|n IH]; intros a b Hj; cbn [trailing_loop]; scan_run. Qed.

Lemma sim_drop_slot a b s : J a b -> simulated J (drop_slot a s) (drop_slot b s).
Proof.
  intros Hj. unfold drop_slot. rewrite (J_mem _ _ Hj). apply simulated_bind_eq. intros p. apply sim_store. exact (proj1 (sim_release _ _ _ Hj)).
Qed.

Lemma sim_drop_slots l : forall a b, J a b -> simulated J (drop_slots a l) (drop_slots b l).
Proof. induction l as [|s l IH]; intros a b Hj; cbn [drop_slots]; [by apply simulated_ret|]. eapply simulated_bind; [by apply sim_drop_slot|]. auto. Qed.

Lemma sim_drop_all l : forall a b, J a b -> simulated J (drop_all a l) (drop_all b l).
Proof. induction l as [|[q s] l IH]; intros a b Hj; cbn [drop_all]; [by apply simulated_ret|]. eapply simulated_bind; [by apply sim_drop_slots|]. auto. Qed.

Lemma sim_release_blocks l : forall a b, J a b -> J (release_blocks a l) (release_blocks b l).
Proof. induction l as [|[q s] l IH]; intros a b Hj; cbn [release_blocks]; [done|]. apply IH. destruct (q =? 0); [done|exact (proj1 (sim_release _ _ _ Hj))]. Qed.

Lemma sim_errout v u : VJ v u -> simulated JP (errout v) (errout u).
Proof.
  intros Hv. unfold errout. cbv zeta. destruct (VJ_fields _ _ Hv) as (_ & -> & _ & -> & ->). pose proof (VJ_J _ _ Hv) as Hj. eapply (simulated_bind J).
  - destruct (_ =? -1); [by apply sim_drop_all|]. destruct (negb _); [by apply sim_drop_slot|by apply simulated_ret].
  - intros a b Hab. apply simulated_ret. split; [done|by apply sim_release_blocks].
Qed.

(** What the two runs leave. *)
Definition left_as (x : Z * W * Z * mem) (y : Z * tape H * Z * mem) : Prop :=
  let '(r, w, e, m) := x in let '(r', t, e', m') := y in r = r' /\ e = e' /\ m = m' /\ exists o, holds o w t.

Theorem sim_vscan n o w t errno m fmt ap : holds o w t -> simulated left_as (moqi_vscan n w errno m fmt ap) (moqi_vscan n t errno m fmt ap).
Proof.
  intros Hh. unfold moqi_vscan. destruct fmt as [f|]; [|apply simulated_ret; cbn; eauto].
  set (v0 := mkVst (mkSc w errno 0 0 0 m) ap 0 false [(0, [])] 0). set (u0 := mkVst (mkSc t errno 0 0 0 m) ap 0 false [(0, [])] 0).
  assert (Hv0 : VJ v0 u0) by (split; [split; [by exists o|done]|done]). eapply simulated_bind; [by apply sim_dirs|]. intros x y Hxy.
  eapply (simulated_bind VJ).
  - destruct x, y; try done; [|by apply simulated_ret]. destruct (VJ_fields _ _ Hxy) as (_ & _ & -> & _). destruct (v_skip _); [|by apply simulated_ret].
    eapply simulated_bind; [apply sim_trailing; by apply VJ_J|]. intros a b Hab. apply simulated_ret. by apply VJ_sc.
  - intros v u Hv. eapply simulated_bind; [by apply sim_errout|]. intros [r a] [r' b] [He Hj]. cbn in He, Hj. subst r'. apply simulated_ret. cbn.
    destruct Hj as (Ho & He & _ & _ & _ & Hm). split_and!; done.
Qed.

End Sim.

(** ** A string as a source *)

(** The bytes of a text. *)
Definition text_bytes_ok (l : list Z) : Prop := Forall (fun c => 0 <= c < 256) l.

Definition str_holds {H} (o : option Z) (p : str_src H) (t : tape H) : Prop :=
  exists pre, ss_s p = pre ++ tp_rest t /\ ss_i p = len pre /\ ss_heap p = tp_heap t /\ text_bytes_ok (ss_s p) /\ (forall c, o = Some c -> exists q, pre = q ++ [c]).

#[export] Instance str_text {H} `{ScanHeap H} : TextSource (W := str_src H) str_holds.
Proof.
  split.
  - intros o [s i h] [l h'] e c t' (pre & Hs & Hi & Hh & Hb & Ho) Hg. cbn in *. subst. unfold tape_get in Hg. cbn [tp_rest tp_heap] in Hg. unfold str_get. cbn [ss_s ss_i ss_heap]. rewrite length_app. destruct l as [|x l]; simplify_eq.
    + replace (_ =? _) with true by (cbn [length]; lia). eexists. split; [reflexivity|]. exists pre. cbn. done.
    + replace (_ =? _) with false by (cbn [length]; lia). rewrite at_index_app. cbn [mbind option_bind]. eexists. split; [reflexivity|].
      apply Forall_app in Hb as Hb'. destruct Hb' as [_ Hb']. inversion Hb' as [|? ? Hx _]; subst. replace (c =? -1) with false by lia. exists (pre ++ [c]). cbn. rewrite <- app_assoc, length_app. cbn [length app].
      split_and!; [done|lia|done|done|]. intros ? [= <-]. by eexists.
  - intros c [s i h] [l h'] (pre & Hs & Hi & Hh & Hb & Ho). cbn in *. subst. destruct (Ho c eq_refl) as [q ->]. eexists. split; [reflexivity|]. exists q. cbn. rewrite <- app_assoc, length_app. cbn [length app].
    split_and!; [done|lia|done|by rewrite <- app_assoc in Hb|done].
  - intros o [s i h] [l h'] m old n p t' m' (pre & Hs & Hi & Hh & Hb & Ho) Ha. cbn in *. subst. destruct (heap_realloc h' m old n) as [[q h2] m2]. simplify_eq. eexists. split; [reflexivity|]. by exists pre.
  - intros o [s i h] [l h'] m p t' m' (pre & Hs & Hi & Hh & Hb & Ho) Ha. cbn in *. subst. destruct (heap_free h' m p) as [h2 m2]. simplify_eq. eexists. split; [reflexivity|]. by exists pre.
Qed.

(** [vsscanf] is the run on the tape of its text. *)
Lemma vsscanf_tape {H} `{ScanHeap H} (h : H) errno m s fmt ap r t e m' : text_bytes_ok s ->
  moqi_vscan (length s + 2) (mkTape s h) errno m (Some fmt) ap = Some (r, t, e, m') -> vsscanf h errno m (Some s) (Some fmt) ap = Some (r, tp_heap t, e, m').
Proof.
  intros Hs Hr. assert (Hh : str_holds None (mkStr s 0 h) (mkTape s h)) by (by exists []).
  destruct (sim_vscan str_holds (length s + 2) None (mkStr s 0 h) (mkTape s h) errno m (Some fmt) ap Hh _ Hr) as ([[[r' p] e'] m2] & Hrun & -> & -> & -> & o & pre & _ & _ & Hheap & _).
  unfold vsscanf. rewrite Hrun. cbn. by rewrite Hheap.
Qed.
