(* ===== verification/ScanFile.v ===== *)
(** * fscanf reads the bytes of the file

    A stream that stands for a file is a source of the bytes behind its
    position. *)

From S2P Require Import Prelude Mem Digits NumConv Format FormatSim Stdio StdioSpec Strtod Scan ScanSim.

Lemma ensure_buf_errno {W} `{Kernel W} (s s' : Stdio.st W) : ensure_buf s = (0, s') -> Stdio.st_errno s' = Stdio.st_errno s.
Proof.
  unfold ensure_buf. intros E. repeat case_match; simplify_eq; done.
Qed.

Lemma read_loop_errno {W} `{Kernel W} k : forall (s s' : Stdio.st W) r d, read_loop k s = Some (r, d, s') -> Stdio.st_errno s' = Stdio.st_errno s.
Proof.
  induction k as [|k IH]; intros s s' r d E; cbn [read_loop] in E; [done|]. repeat case_match; simplify_eq; [|done]. by apply IH in E.
Qed.

Lemma more_errno {W} `{Kernel W} (s s' : Stdio.st W) n : more s = Some (n, s') -> 0 <= n -> Stdio.st_errno s' = Stdio.st_errno s.
Proof.
  unfold more, fill. intros E Hn. destruct (_ <=? _); [|by simplify_eq]. destruct (ensure_buf s) as [rc s1] eqn:Eb. destruct (negb (rc =? 0)) eqn:Erc; [simplify_eq; lia|].
  assert (rc = 0) by lia. subst rc. pose proof (ensure_buf_errno s s1 Eb) as He. destruct (F_EOF _); [by simplify_eq|]. cbv zeta in E.
  destruct (read_loop _ _) as [[[r d] s2]|] eqn:Er; [|done]. apply read_loop_errno in Er. cbn in Er, E. destruct (r <? 0) eqn:Elt; [unfold set_err in E; simplify_eq; lia|].
  destruct (r =? 0); [simplify_eq; cbn in *; congruence|]. destruct (f_buf _); [|done]. cbn in E. destruct (array_write _ _ _); [|done]. cbn in E. simplify_eq. cbn in *. congruence.
Qed.

Section Stream.
Context {W H : Type} `{K : Kernel W} (fd : Z) {appends : bool} `{R : !RegularFile W fd appends} `{S : ScanHeap H} (rd wr : bool).

(** The bytes a reader still gets. *)
Definition unread (a : afile) : list Z := if af_eof a then [] else drop (af_pos a) (af_data a).

(** The source gives the bytes of [a]; the byte it can take back is the one in front of the window. *)
Definition file_holds (d : list Z) (o : option Z) (p : file_src W H) (t : tape H) : Prop :=
  exists a, stands fd rd wr (fs_file p) (fs_world p) a /\ f_wpos (fs_file p) = 0 /\ fs_heap p = tp_heap t /\ tp_rest t = unread a /\ af_data a = d /\ text_bytes_ok d /\
    forall c, o = Some c -> af_eof a = false /\
      exists a0, stands fd rd wr (set_window (f_rpos (fs_file p) - 1) (f_rend (fs_file p)) (fs_file p)) (fs_world p) a0 /\
        unread a0 = c :: unread a /\ af_data a0 = d.

#[export] Instance file_text d : TextSource (W := file_src W H) (file_holds d).
Proof.
  split.
  - intros o [f w h] [l h'] e c t' (a & Hs & Hw & Hh & Hl & Hd & Hb & _) Hg. cbn in *. subst h'. unfold scan_get. cbn [fs_file fs_world fs_heap]. subst l.
    destruct (more_spec fd rd wr (mkSt f e w) a Hs Hw) as (n & s1 & Hmore & Hw1 & Hcase). rewrite Hmore. cbn [mbind option_bind].
    destruct Hcase as [(Hn & Heof & Hs1 & Hr1)|(-> & Hend & Hs1)].
    + replace (n <=? 0) with false by lia. destruct (next_byte_spec fd rd wr s1 a Hs1 Hw1 Hr1) as (x & rest & s2 & Hnb & Hdrop & Hs2 & Hw2). rewrite Hnb. cbn [mbind option_bind].
      unfold tape_get, unread in Hg. cbn [tp_rest tp_heap] in Hg. rewrite Heof, Hdrop in Hg. simplify_eq.
      assert (Hc : 0 <= c < 256) by (pose proof (Forall_drop _ (af_pos a) _ Hb) as Hb'; rewrite Hdrop in Hb'; by inversion Hb').
      replace (c =? -1) with false by lia. unfold next_byte in Hnb. destruct (f_buf (st_f s1)) as [b|] eqn:Eb; [|done]. cbn in Hnb. destruct (at_index b _); [|done]. cbn in Hnb. simplify_eq.
      eexists. split; [cbn; rewrite (more_errno _ _ _ Hmore) by lia; reflexivity|]. exists (a_skip 1 a). cbn [of_stream fs_file fs_world fs_heap st_f Stdio.st_w upd tp_heap tp_rest] in *.
      split; [exact Hs2|]. split; [exact Hw2|]. split; [done|].
      assert (Hrest : rest = unread (a_skip 1 a)). { unfold unread, a_skip. cbn. rewrite Heof, <- drop_drop, Hdrop. done. }
      split; [exact Hrest|]. split; [done|]. split; [exact Hb|]. intros ? [= <-]. split; [exact Heof|]. exists a. split_and!; [|unfold unread at 1; by rewrite Heof, Hdrop, Hrest|done].
      replace (set_window _ _ _) with (st_f s1); [exact Hs1|]. destruct s1 as [f1 ? ?]. cbn. unfold set_window. cbn. destruct f1; cbn. f_equal; lia.
    + replace (0 <=? 0) with true by lia. assert (Hu : unread a = []) by (unfold unread; destruct (af_eof a); [done|]; destruct Hend; [done|]; by apply drop_ge).
      unfold tape_get in Hg. cbn [tp_rest tp_heap] in Hg. rewrite Hu in Hg. simplify_eq. eexists. split; [rewrite (more_errno _ _ _ Hmore) by lia; reflexivity|].
      exists (a_flags true (af_err a) a). cbn [of_stream fs_file fs_world fs_heap tp_heap tp_rest]. split; [exact Hs1|]. split; [exact Hw1|]. done.
  - intros c [f w h] [l h'] (a & Hs & Hw & Hh & Hl & Hd & Hb & Ho). cbn in *. destruct (Ho c eq_refl) as (Heof & a0 & Hs0 & Hu0 & Hd0). eexists. split; [reflexivity|]. exists a0. cbn.
    split; [exact Hs0|]. split; [exact Hw|]. split; [done|]. split; [by rewrite Hu0, Hl|]. done.
  - intros o [f w h] [l h'] m old n p t' m' (a & Hs & Hw & Hh & Hr) Ha. cbn in *. subst h'. destruct (heap_realloc h m old n) as [[q h2] m2]. simplify_eq. eexists. split; [reflexivity|]. exists a. cbn. done.
  - intros o [f w h] [l h'] m p t' m' (a & Hs & Hw & Hh & Hr) Ha. cbn in *. subst h'. destruct (heap_free h m p) as [h2 m2]. simplify_eq. eexists. split; [reflexivity|]. exists a. cbn. done.
Qed.

End Stream.
