(* ===== verification/ScanSafe.v ===== *)
(** * A call of scanf returns and stays within its arguments

    For every text and every format without [m] and [N$]: when there is an
    argument for each percent sign, and each argument points to enough memory
    for the longest result the text can give, the call returns, and of the
    memory of the program it changes only what the arguments point to. *)

From S2P Require Import Prelude Mem Words Digits NumConv Format Stdio Strtod Scan ScanSim.

(** The computation returns, and its result has the property. *)
Definition total {A} (Q : A -> Prop) (r : option A) : Prop := exists x, r = Some x /\ Q x.

Lemma total_ret {A} (Q : A -> Prop) x : Q x -> total Q (Some x).
Proof. intros Hq. by exists x. Qed.

Lemma total_bind {A B} (P : A -> Prop) (Q : B -> Prop) r k : total P r -> (forall x, P x -> total Q (k x)) -> total Q (r ≫= k).
Proof. intros (x & -> & Hx) Hk. by apply Hk. Qed.

Lemma total_mono {A} (P Q : A -> Prop) r : total P r -> (forall x, P x -> Q x) -> total Q r.
Proof. intros (x & -> & Hx) Hq. exists x. auto. Qed.

Section Safe.
Context {H : Type} `{ScanHeap H} (m0 : mem) (args : list Z) (R : Z) (N : nat).

(** What the heap does never touches the memory of the program. *)
Definition heap_apart : Prop :=
  (forall h m old n p h' m', heap_realloc h m old n = (p, h', m') -> forall a, is_Some (m0 !! a) -> m' !! a = m !! a) /\
  (forall h m p h' m', heap_free h m p = (h', m') -> forall a, is_Some (m0 !! a) -> m' !! a = m !! a).

Hypothesis apart : heap_apart.

(** What the arguments point to. *)
Definition in_args (a : Z) : Prop := exists p, p ∈ args /\ p <= a < p + R.

Hypothesis args_mapped : forall a, in_args a -> is_Some (m0 !! a).
Hypothesis args_scalar : 8 <= R.
Hypothesis args_room : 4 * (Z.of_nat N + 1) <= R.

Definition safe_mem (m : mem) : Prop := forall a, is_Some (m0 !! a) -> is_Some (m !! a) /\ (~ in_args a -> m !! a = m0 !! a).

Abbreviation st := (sc (tape H)).
Abbreviation left s := (length (tp_rest (st_w s))).

(** A state between two reads, and one that has just read its byte. *)
Definition G (s : st) : Prop := safe_mem (st_mem s) /\ (left s <= N)%nat /\ text_bytes_ok (tp_rest (st_w s)).
Definition Fr (s : st) : Prop := G s /\ (st_c s <> -1 -> (left s < N)%nat /\ 0 <= st_c s < 256).

Lemma Fr_G s : Fr s -> G s.
Proof. by intros [Hg _]. Qed.

Lemma G_set_errno s e : G s -> G (set_errno s e).
Proof. done. Qed.
Lemma Fr_set_errno s e : Fr s -> Fr (set_errno s e).
Proof. done. Qed.

Lemma total_inchar s : G s -> total (fun x => x.1 = st_c x.2 /\ Fr x.2 /\ (x.1 <> -1 -> (left x.2 < left s)%nat) /\ st_mem x.2 = st_mem s) (inchar s).
Proof.
  intros (Hm & Hl & Hb). unfold inchar. destruct (st_c s =? -1) eqn:E.
  - apply total_ret. cbn. split; [lia|]. split; [|done]. split; [done|]. cbn. lia.
  - cbn [src_get tape_source]. unfold tape_get. destruct (tp_rest (st_w s)) as [|c l] eqn:El; cbn.
    + apply total_ret. cbn. split; [done|]. split; [|done]. split; [|done]. split; [done|]. cbn. rewrite ?El. cbn. split; [lia|constructor].
    + inversion Hb as [|? ? Hc Hb']; subst. replace (c =? -1) with false by lia. apply total_ret. cbn. cbn in Hl. split; [done|]. split; [|split; [lia|done]].
      split; [split; [done|cbn; split; [lia|done]]|]. cbn. intros _. lia.
Qed.

Lemma total_unget s : Fr s -> total (fun x => G x /\ st_mem x = st_mem s) (unget_any s (st_c s)).
Proof.
  intros [(Hm & Hl & Hb) Hc]. unfold unget_any. destruct (st_c s =? -1) eqn:E; [by apply total_ret|]. destruct Hc as [Hlt Hr]; [lia|]. cbn. apply total_ret. split; [|done]. split; [done|]. cbn.
  split; [lia|]. by constructor.
Qed.

Lemma safe_alloc s old n : (G s -> G (alloc s old n).2) /\ (Fr s -> Fr (alloc s old n).2) /\ left (alloc s old n).2 = left s /\ st_c (alloc s old n).2 = st_c s.
Proof.
  assert (Hall : left (alloc s old n).2 = left s /\ st_c (alloc s old n).2 = st_c s /\ (G s -> G (alloc s old n).2)).
  { unfold alloc. cbn [src_alloc tape_source]. destruct (heap_realloc _ _ _ _) as [[p h] m] eqn:Ea. cbn. split; [done|]. split; [done|]. intros (Hm & Hl & Hb). split; [|done].
    intros a Ha. cbn. rewrite (proj1 apart _ _ _ _ _ _ _ Ea a Ha). by apply Hm. }
  destruct Hall as (Hl & Hc & Hg). split_and!; [done| |done..]. intros [Hs Hf]. split; [auto|]. by rewrite Hl, Hc.
Qed.

Lemma safe_release s p : (G s -> G (release s p)) /\ left (release s p) = left s.
Proof.
  unfold release. cbn [src_release tape_source]. destruct (heap_free _ _ _) as [h m] eqn:Ea. cbn. split; [|done]. intros (Hm & Hl & Hb). split; [|done].
  intros a Ha. cbn. rewrite (proj2 apart _ _ _ _ _ Ea a Ha). by apply Hm.
Qed.

Lemma safe_store m a v : safe_mem m -> in_args a -> exists m', store m a v = Some m' /\ safe_mem m'.
Proof.
  intros Hm Ha. destruct (Hm a (args_mapped a Ha)) as [[x Hx] _]. exists (<[a := v]> m). split; [by apply store_mapped; eexists|]. intros b Hb. destruct (decide (a = b)) as [<-|Hne].
  - rewrite lookup_insert_eq. split; [by eexists|done].
  - rewrite lookup_insert_ne by done. by apply Hm.
Qed.

Lemma safe_store_le n : forall m a v, safe_mem m -> (forall i, 0 <= i < Z.of_nat n -> in_args (a + i)) -> exists m', store_le m a n v = Some m' /\ safe_mem m'.
Proof.
  induction n as [|n IH]; intros m a v Hm Hi; cbn [store_le]; [by exists m|].
  destruct (safe_store m a (u8 v) Hm) as (m' & -> & Hm'); [replace a with (a + 0) by lia; apply Hi; lia|]. cbn. apply IH; [done|]. intros i Hii. replace (a + 1 + i) with (a + (1 + i)) by lia. apply Hi. lia.
Qed.

(** A store of at most [R - off] bytes at offset [off] of an argument. *)
Lemma total_store s p off n v : G s -> p ∈ args -> 0 <= off -> off + Z.of_nat n <= R ->
  total (fun x => G x /\ left x = left s /\ st_c x = st_c s) (st_store s (p + off) n v).
Proof.
  intros (Hm & Hl & Hb) Hp Ho Hn. unfold st_store. destruct (safe_store_le n (st_mem s) (p + off) v Hm) as (m' & -> & Hm').
  { intros i Hi. exists p. split; [done|lia]. }
  cbn. by apply total_ret.
Qed.

#[local] Hint Resolve Fr_G G_set_errno Fr_set_errno : tot.

Lemma safe_cb_add s b ch : Fr s -> Fr (cb_add s b ch).2 /\ left (cb_add s b ch).2 = left s /\ st_c (cb_add s b ch).2 = st_c s.
Proof.
  intros Hs. unfold cb_add. destruct (cb_failed b); [done|]. destruct (_ =? cb_cap b); [|done].
  destruct (safe_alloc s (cb_p b) (u64 (cb_cap b * 2))) as (_ & Hf & Hl & Hc). destruct (alloc s _ _) as [p s']. cbn in Hf, Hl, Hc. destruct (p =? 0); cbn; auto.
Qed.

Lemma safe_cb_free s b : G s -> G (cb_free s b).
Proof. intros Hs. unfold cb_free. destruct (negb _); [by apply safe_release|done]. Qed.
#[local] Hint Resolve safe_cb_free : tot.

(** A pair taken apart, the byte of a result named by the state that read it. *)
Ltac tot_split :=
  cbv beta in *; repeat match goal with
  | x : (_ * _)%type |- _ => destruct x
  | Hc : _ /\ _ |- _ => destruct Hc
  end; cbn [fst snd] in *; simplify_eq.

Ltac tot_step :=
  lazymatch goal with
  | |- total _ (Some _) => apply total_ret
  | |- total _ (if ?c then _ else _) => destruct c eqn:?
  | |- total _ (match ?c with Some _ => _ | None => _ end) => destruct c eqn:?; tot_split
  | |- total _ (let '(_, _) := cb_add ?s ?cb ?ch in _) =>
      let Hc := fresh "Hc" in
      pose proof (safe_cb_add s cb ch ltac:(eauto with tot)) as Hc; destruct (cb_add s cb ch); tot_split
  | |- total _ (inchar _ ≫= _) => eapply total_bind; [apply total_inchar; eauto with tot|intros ? ?; tot_split]
  | |- total _ (unget_any _ _ ≫= _) => eapply total_bind; [apply total_unget; eauto with tot|intros ? ?; tot_split]
  | |- total _ (_ ≫= _) => eapply total_bind; [solve [eauto with tot]|intros ? ?; tot_split]
  end.
Ltac tot_done := cbn [fst snd] in *; first [done | by eauto with tot | by split_and!; eauto with tot].
Ltac tot_run := repeat tot_step; try tot_done.

Lemma total_digits k : forall s base width have v, Fr s -> st_c s = -1 \/ (left s < k)%nat ->
  total (fun x => x.1.1.1.2 = st_c x.2 /\ Fr x.2) (digits_loop k s base width (st_c s) have v).
Proof.
  induction k as [|k IH]; intros s base width have v Hs Hk; cbn [digits_loop]; tot_run.
  - lia.
  - apply IH; [done|]. destruct (Z.eq_dec (st_c s0) (-1)); [by left|right]. specialize (H3 n). lia.
Qed.

Lemma total_sign s width : Fr s -> total (fun x => x.1.2 = st_c x.2 /\ Fr x.2) (scan_sign s width (st_c s)).
Proof. intros Hs. unfold scan_sign. tot_run. Qed.

Lemma total_prefix s base width : Fr s ->
  total (fun x => Fr x.2 /\ match x.1 with Some (_, _, c, _) => c = st_c x.2 | None => True end) (scan_prefix s base width (st_c s)).
Proof. intros Hs. unfold scan_prefix. cbv zeta. tot_run. Qed.

Lemma total_match_nil w : forall s, Fr s -> total (fun x => Fr x.2) (match_nil s w).
Proof. induction w as [|x w IH]; intros s Hs; cbn [match_nil]; tot_run. Qed.

Lemma total_nil s hs fl width c v : Fr s -> total (fun x => G x.2) (scan_nil s hs fl width c v).
Proof.
  intros Hs. unfold scan_nil. eapply (total_bind (fun x => Fr x.2)); [destruct (_ && _); [by apply total_match_nil|by apply total_ret]|]. intros ? ?. tot_split. tot_run.
Qed.

(** More rounds than bytes. *)
Context (n : nat) (Hn : (N < n)%nat).

Lemma left_fuel s : G s -> (left s < n)%nat.
Proof. intros (_ & Hl & _). lia. Qed.

Lemma total_int s base fl width : G s -> total (fun x => G x.2) (scan_int n s base fl width).
Proof.
  intros Hs. unfold scan_int. do 2 tot_step; [tot_run|]. eapply total_bind; [by apply total_sign|]. intros ? ?. tot_split.
  eapply total_bind; [by apply total_prefix|]. intros [[[[[? ?] ?] ?]|] ?] [? ?]; cbn [fst snd] in *; subst; [|tot_run].
  eapply total_bind; [apply total_digits; [done|right; by apply left_fuel, Fr_G]|]. intros ? ?. tot_split. destruct b1; [tot_run|by apply total_nil].
Qed.

(** *** Floating-point numbers *)

Lemma total_match_rest w : forall s width b, Fr s -> total (fun x => Fr x.2) (match_rest s w width b).
Proof. induction w as [|x w IH]; intros s width b Hs; cbn [match_rest]; tot_run. Qed.

Lemma total_nan_loop k : forall s width b, Fr s -> (left s < k)%nat -> total (fun x => Fr x.2) (nan_loop k s width b).
Proof.
  induction k as [|k IH]; intros s width b Hs Hk; cbn [nan_loop]; [lia|]. tot_run. apply IH; [done|].
  match goal with Hd : _ <> -1 -> (_ < left s)%nat |- _ => assert (Hlt := Hd ltac:(lia)); lia end.
Qed.

Lemma total_nan s c width b : Fr s -> total (fun x => G x.2) (scan_nan n s c width b).
Proof.
  intros Hs. unfold scan_nan. tot_step. eapply total_bind; [by apply total_match_rest|]. intros ? ?. tot_split. tot_run.
  eapply total_bind; [apply total_nan_loop; [done|by apply left_fuel, Fr_G]|]. intros ? ?. tot_split. tot_run.
Qed.

Lemma total_inf s c width b : Fr s -> total (fun x => G x.2) (scan_inf s c width b).
Proof.
  intros Hs. unfold scan_inf. tot_step. eapply total_bind; [by apply total_match_rest|]. intros ? ?. tot_split. tot_run.
  eapply total_bind; [by apply total_match_rest|]. intros ? ?. tot_split. tot_run.
Qed.

Lemma total_float_loop k : forall s hex ec width b g, Fr s -> (left s < k)%nat -> total (fun x => G x.2) (float_loop k s hex ec (st_c s) width b g).
Proof.
  induction k as [|k IH]; intros s hex ec width b g Hs Hk; [lia|]; cbn [float_loop]; tot_run. apply IH; [done|].
  match goal with Hd : _ <> -1 -> (_ < _)%nat |- _ => assert (Hlt := Hd ltac:(lia)); lia end.
Qed.

Lemma total_float_prefix s width b : Fr s ->
  total (fun x => Fr x.2 /\ match x.1.2 with Some (_, c, _, _) => c = st_c x.2 | None => True end) (float_prefix s (st_c s) width b).
Proof. intros Hs. unfold float_prefix. cbv zeta. tot_run. Qed.

Lemma total_number s width b : Fr s -> total (fun x => G x.2) (scan_number n s (st_c s) width b).
Proof.
  intros Hs. unfold scan_number. eapply total_bind; [by apply total_float_prefix|]. intros [[? [[[[? ?] ?] ?]|]] ?] [? ?]; cbn [fst snd] in *; subst; [|tot_run].
  eapply total_bind; [apply total_float_loop; [done|by apply left_fuel, Fr_G]|]. intros ? ?. tot_split. tot_run.
Qed.

Lemma total_float_sign s width b : Fr s -> total (fun x => Fr x.2 /\ (x.1.1.1.1 = true -> x.1.1.1.2 = st_c x.2)) (float_sign s (st_c s) width b).
Proof. intros Hs. unfold float_sign. tot_run. Qed.

Lemma total_float s width b : G s -> total (fun x => G x.2) (scan_float n s width b).
Proof.
  intros Hs. unfold scan_float. cbv zeta. do 2 tot_step; [tot_run|]. eapply total_bind; [by apply total_float_sign|]. intros [[[[ok c] w] b'] s'] [Hf Hc]; cbn [fst snd] in *.
  destruct ok; cbn [negb]; [|tot_run]. rewrite (Hc eq_refl). tot_step; [by apply total_nan|]. tot_step; [by apply total_inf|by apply total_number].
Qed.

(** *** String destinations *)

(** A destination, suppressed or with room for [j] more elements and the terminator. *)
Definition dest (sup : bool) (d : sd) (j : nat) : Prop :=
  (sup = true /\ sd_suppressed d = true) \/
  (sup = false /\ sd_suppressed d = false /\ sd_slot d = 0 /\ sd_base d ∈ args /\ (sd_esz d = 1 \/ sd_esz d = 4) /\ 0 <= sd_len d /\ sd_len d + Z.of_nat j <= Z.of_nat N).

Lemma dest_le sup d j j' : dest sup d j -> (j' <= j)%nat -> dest sup d j'.
Proof. intros [Hd|(Ha & Hb & Hc & Hd & He & Hf & Hg)] Hj; [by left|right]. split_and!; try done. lia. Qed.

Lemma total_elem s d v : G s -> sd_base d ∈ args -> sd_esz d = 1 \/ sd_esz d = 4 -> 0 <= sd_len d <= Z.of_nat N ->
  total (fun x => G x /\ left x = left s /\ st_c x = st_c s) (sd_elem s d v).
Proof. intros Hs Hb He Hl. unfold sd_elem. destruct (_ =? 1); apply total_store; lia || done. Qed.

Lemma Fr_same s s' : Fr s -> G s' -> left s' = left s -> st_c s' = st_c s -> Fr s'.
Proof. intros [_ Hf] Hg Hl Hc. split; [done|]. by rewrite Hl, Hc. Qed.

Lemma total_put sup s d v j : Fr s -> dest sup d (S j) -> total (fun x => x.1.1 = 0 /\ dest sup x.1.2 j /\ Fr x.2 /\ left x.2 = left s /\ st_c x.2 = st_c s) (sd_put s d v).
Proof.
  intros Hs Hd. unfold sd_put. destruct Hd as [[Hs0 Hsup]|(Hs0 & Hsup & Hslot & Hb & He & Hl & Hj)]; rewrite Hsup; [apply total_ret; cbn; by split_and!; [|left|..]|].
  unfold sd_room. rewrite Hslot. cbn [Z.eqb negb andb mbind option_bind].
  eapply (total_bind (fun x => Fr x /\ left x = left s /\ st_c x = st_c s)).
  - destruct (0 <=? v); [|by apply total_ret]. eapply total_mono; [apply total_elem; [by apply Fr_G|done..|lia]|]. intros x (Hg & Hl' & Hc'). split; [by apply (Fr_same s)|done].
  - intros x (Hf & Hl' & Hc'). cbv zeta. cbn [set_len sd_slot]. rewrite Hslot. cbn [Z.eqb negb andb].
    assert (Hd' : dest sup (set_len d (sd_len d + 1)) j) by (right; cbn; split_and!; done || lia). destruct (negb _); by apply total_ret.
Qed.

Lemma total_wide_strict sup s d c j : Fr s -> dest sup d (S j) ->
  total (fun x => (x.1.1 = 0 \/ x.1.1 = 1) /\ dest sup x.1.2 j /\ Fr x.2 /\ left x.2 = left s /\ st_c x.2 = st_c s) (put_wide_strict s d c).
Proof.
  intros Hs Hd. unfold put_wide_strict, wide_of. destruct (c =? 0); [|destruct (c <? 128)]; cbn [Z.eqb Pos.eqb].
  - unfold sd_poke. destruct Hd as [[Hs0 Hsup]|(Hs0 & Hsup & Hslot & Hb & He & Hl & Hj)]; rewrite Hsup; [cbn; apply total_ret; cbn; split_and!; auto; by left|].
    unfold sd_room. rewrite Hslot. cbn [Z.eqb negb andb mbind option_bind].
    destruct (total_store s (sd_base d) (sd_len d * 4) 4 0 (Fr_G _ Hs) Hb ltac:(lia) ltac:(lia)) as (s' & -> & Hg & Hl' & Hc'). cbn. apply total_ret. cbn.
    split; [by right|]. split; [right; split_and!; done || lia|]. split; [by apply Fr_set_errno, (Fr_same s)|done].
  - eapply total_bind; [by apply (total_put sup s d c j)|]. intros [[r d'] s'] (Hr & Hd' & Hf & Hl). cbn in *. subst r. apply total_ret. cbn. auto.
  - cbn. apply total_ret. cbn. split; [by right|]. split; [eapply dest_le; [done|lia]|done].
Qed.

Lemma total_put_char sup s wide d c j : Fr s -> dest sup d (S j) ->
  total (fun x => (x.1.1 = 0 \/ x.1.1 = 1) /\ dest sup x.1.2 j /\ Fr x.2 /\ left x.2 = left s /\ st_c x.2 = st_c s) (put_char s wide d c).
Proof.
  intros Hs Hd. unfold put_char. destruct wide; [by apply total_wide_strict|]. eapply total_bind; [by apply (total_put sup s d c j)|].
  intros [[r d'] s'] (Hr & Hd' & Hf & Hl). cbn in *. subst r. apply total_ret. cbn. auto.
Qed.

Lemma total_put_set sup s wide d c j : Fr s -> dest sup d (S j) -> total (fun x => x.1.1 = 0 /\ dest sup x.1.2 j /\ Fr x.2 /\ left x.2 = left s /\ st_c x.2 = st_c s) (put_set s wide d c).
Proof.
  intros Hs Hd. unfold put_set. destruct wide; [|by apply total_put]. unfold wide_of. destruct (sd_suppressed d), (c =? 0), (c <? 128); try (by apply total_put).
  exact (total_put sup (set_errno s EILSEQ) d (-1) j Hs Hd).
Qed.

(** One more byte: the room that is left is enough for the rest. *)
Lemma dest_next sup d (s s' : st) : dest sup d (left s) -> st_c s' <> -1 -> (st_c s' <> -1 -> (left s' < left s)%nat) -> dest sup d (S (left s')).
Proof. intros Hd Hc Hl. eapply dest_le; [exact Hd|]. specialize (Hl Hc). lia. Qed.

Lemma total_char_loop sup k : forall s wide d width, Fr s -> dest sup d (S (left s)) -> (left s < k)%nat ->
  total (fun x => (x.1.1.1 = 0 \/ x.1.1.1 = 1) /\ dest sup x.1.2 0 /\ G x.2) (char_loop k s wide d width (st_c s)).
Proof.
  induction k as [|k IH]; intros s wide d width Hs Hd Hk; [lia|]. cbn [char_loop].
  eapply total_bind; [by apply total_put_char|]. intros [[r d1] s1] (Hr & Hd1 & Hf1 & Hl1 & _). cbn [fst snd] in *. cbv zeta.
  assert (Hd0 : dest sup d1 0) by (eapply dest_le; [done|lia]). destruct (negb (r =? 0)); [apply total_ret; cbn; eauto with tot|]. destruct (_ <=? 0); [apply total_ret; cbn; eauto with tot|].
  eapply total_bind; [by apply total_inchar, Fr_G|]. intros [c s2] (Hc & Hf2 & Hl2 & _). cbn [fst snd] in *. subst c. destruct (_ =? -1) eqn:Ec; [apply total_ret; cbn; eauto with tot|].
  rewrite <- Hl1 in Hd1. apply IH; [done|by apply (dest_next sup d1 s1); [|lia|]|]. specialize (Hl2 ltac:(lia)). lia.
Qed.

Lemma total_string_loop sup k : forall s wide d width, Fr s -> dest sup d (S (left s)) -> (left s < k)%nat ->
  total (fun x => (x.1.1 = 0 \/ x.1.1 = 1) /\ dest sup x.1.2 0 /\ G x.2) (string_loop k s wide d width (st_c s)).
Proof.
  induction k as [|k IH]; intros s wide d width Hs Hd Hk; [lia|]. cbn [string_loop]. assert (Hd00 : dest sup d 0) by (eapply dest_le; [done|lia]).
  destruct (is_space _); [eapply total_bind; [by apply total_unget|]; intros x [Hx _]; apply total_ret; cbn; auto|].
  eapply total_bind; [by apply total_put_char|]. intros [[r d1] s1] (Hr & Hd1 & Hf1 & Hl1 & _). cbn [fst snd] in *.
  assert (Hd0 : dest sup d1 0) by (eapply dest_le; [done|lia]). destruct (negb (r =? 0)); [apply total_ret; cbn; eauto with tot|].
  destruct (if width <=? 0 then _ else _) as [go w']. destruct (negb go); [apply total_ret; cbn; eauto with tot|].
  eapply total_bind; [by apply total_inchar, Fr_G|]. intros [c s2] (Hc & Hf2 & Hl2 & _). cbn [fst snd] in *. subst c. destruct (_ =? -1) eqn:Ec; [apply total_ret; cbn; eauto with tot|].
  rewrite <- Hl1 in Hd1. apply IH; [done|by apply (dest_next sup d1 s1); [|lia|]|]. specialize (Hl2 ltac:(lia)). lia.
Qed.

Lemma total_set_loop sup k : forall s wide map ni d width, Fr s -> dest sup d (S (left s)) -> (left s < k)%nat ->
  total (fun x => x.1.1 = 0 /\ dest sup x.1.2 0 /\ G x.2) (set_loop k s wide map ni d width (st_c s)).
Proof.
  induction k as [|k IH]; intros s wide map ni d width Hs Hd Hk; [lia|]. cbn [set_loop]. assert (Hd00 : dest sup d 0) by (eapply dest_le; [done|lia]).
  destruct (Bool.eqb _ _); [eapply total_bind; [by apply total_unget|]; intros x [Hx _]; apply total_ret; cbn; auto|].
  eapply total_bind; [by apply total_put_set|]. intros [[r d1] s1] (Hr & Hd1 & Hf1 & Hl1 & _). cbn [fst snd] in *. subst r. cbn [Z.eqb negb].
  assert (Hd0 : dest sup d1 0) by (eapply dest_le; [done|lia]). destruct (if 0 <=? width then _ else _) as [stop w']. destruct stop; [apply total_ret; cbn; eauto with tot|].
  eapply total_bind; [by apply total_inchar, Fr_G|]. intros [c s2] (Hc & Hf2 & Hl2 & _). cbn [fst snd] in *. subst c. destruct (_ =? -1) eqn:Ec; [apply total_ret; cbn; eauto with tot|].
  rewrite <- Hl1 in Hd1. apply IH; [done|by apply (dest_next sup d1 s1); [|lia|]|]. specialize (Hl2 ltac:(lia)). lia.
Qed.

Lemma total_finish sup s d term : G s -> dest sup d 0 -> total G (sd_finish s d term).
Proof.
  intros Hs Hd. unfold sd_finish. destruct Hd as [[Hs0 Hsup]|(Hs0 & Hsup & Hslot & Hb & He & Hl & Hj)]; rewrite Hsup; [by apply total_ret|].
  eapply (total_bind (fun x => sd_slot x.1 = 0 /\ G x.2)).
  - destruct term; [|by apply total_ret]. eapply total_bind; [apply total_elem; done || lia|]. intros x (Hg & _). by apply total_ret.
  - intros [d' s'] [Hs' Hg]. cbn in *. rewrite Hs'. cbn. by apply total_ret.
Qed.

(** *** The call *)

(** What is left of the arguments is enough for [j] conversions. *)
Definition V (v : vst (tape H)) (j : nat) : Prop :=
  G (v_sc v) /\ (forall p, p ∈ v_ap v -> p ∈ args) /\ (j <= length (v_ap v))%nat /\ v_plist v = [(0, [])] /\ v_strptr v = 0 /\
  -1 <= v_done v /\ v_done v + Z.of_nat (length (v_ap v)) <= Z.of_nat (length args).

(** The next directive, or the end of the call. *)
Definition VF (x : flow (tape H)) (j : nat) : Prop := match x with Next v => V v j /\ 0 <= v_done v | Stop v => exists i, V v i end.

Lemma V_sc v j s : V v j -> G s -> V (with_sc v s) j.
Proof. by intros (_ & Hv) Hg. Qed.
Lemma V_skip v j b : V v j -> V (with_skip v b) j.
Proof. by intros (Hg & Hv). Qed.
Lemma V_le v j j' : V v j -> (j' <= j)%nat -> V v j'.
Proof. intros (Hg & Ha & Hj & Hv) Hle. split; [done|]. split; [done|]. split; [lia|done]. Qed.
Lemma V_fail v j : V v j -> V (with_done v (-1)) j.
Proof. intros (Hg & Ha & Hj & Hp & Hs & Hd & Hl). repeat (split; [done|]). cbn. lia. Qed.
Lemma VF_input v j j' : V v j -> VF (input_error v) j'.
Proof. intros Hv. exists j. destruct (_ =? 0); [by apply V_fail|done]. Qed.
Lemma VF_stop v j j' : V v j -> VF (Stop v) j'.
Proof. intros Hv. by exists j. Qed.

Lemma total_arg v j : V v (S j) -> total (fun x => x.1 ∈ args /\ V x.2 j /\ v_done x.2 + 1 + Z.of_nat (length (v_ap x.2)) <= Z.of_nat (length args) /\ v_done x.2 = v_done v /\ st_nread (v_sc x.2) = st_nread (v_sc v)) (arg_of args 0 v).
Proof.
  intros (Hg & Ha & Hj & Hp & Hs & Hd & Hl). unfold arg_of. cbn [Z.eqb]. destruct (v_ap v) as [|p ap] eqn:E; [cbn in Hj; lia|]. apply total_ret. cbn in *. split; [apply Ha; left|].
  split; [split; [done|]; split_and!; cbn; try done; [intros q Hq; apply Ha; by right|lia..]|]. split; [lia|done].
Qed.

Lemma total_store_arg sp v j size x : V v (S j) -> 0 <= v_done v -> sp_argpos sp = 0 -> (size <= 8)%nat ->
  total (fun y => V y j /\ V (with_done y (v_done y + 1)) j /\ 0 <= v_done y) (store_arg args sp v size x).
Proof.
  intros Hv Hd0 Hsp Hsize. unfold store_arg. rewrite Hsp. eapply total_bind; [by apply total_arg|]. intros [p v'] (Hp & Hv' & Hd & Hde & _). cbn in Hp, Hv', Hd, Hde.
  pose proof Hv' as (Hg & _). replace p with (p + 0) by lia. eapply total_bind; [apply (total_store (v_sc v') p 0 size x Hg Hp); lia|]. intros s (Hgs & _). apply total_ret.
  destruct Hv' as (_ & Ha & Hj & Hpl & Hs & Hdd & Hl). split; [done|]. split; [|cbn; lia]. split; [done|]. cbn. split_and!; try done; lia.
Qed.

#[local] Hint Resolve V_sc V_skip VF_input VF_stop : tot.

Lemma total_skip_loop k : forall s, G s -> (left s < k)%nat -> total (fun x => Fr x.2) (skip_loop k s).
Proof.
  induction k as [|k IH]; intros s Hs Hk; [lia|]. cbn [skip_loop]. eapply (total_bind (fun x => Fr x.2 /\ (st_c x.2 <> -1 -> (left x.2 < left s)%nat))).
  - destruct (st_c s =? -1) eqn:E; [apply total_ret; cbn; split; [split; [done|lia]|lia]|]. eapply total_bind; [by apply total_inchar|]. intros [c s'] (Hc & Hf & Hl & _). cbn in *. subst c. by apply total_ret.
  - intros [ended s'] [Hf Hl]. cbn [fst snd] in *. destruct (_ && _); [by apply total_ret|]. destruct (is_space (st_c s')) eqn:Es; [|by apply total_ret]. apply IH; [by apply Fr_G|].
    assert (st_c s' <> -1) by (intros E; by rewrite E in Es). specialize (Hl ltac:(done)). lia.
Qed.

Lemma total_skip_spaces v j : V v j -> total (fun x => V x.2 j /\ v_done x.2 = v_done v) (skip_spaces n v).
Proof.
  intros Hv. unfold skip_spaces. cbv zeta. pose proof Hv as (Hg & _). eapply total_bind; [apply total_skip_loop; [by apply G_set_errno|by apply left_fuel]|]. intros [b s'] Hf. cbn [snd] in Hf.
  destruct b; [apply total_ret; cbn; split; [|done]; apply V_sc; eauto with tot|]. change (st_c s') with (st_c (set_errno s' (st_errno (v_sc v)))). eapply total_bind; [by apply total_unget, Fr_set_errno|].
  intros x [Hx _]. apply total_ret. cbn. split; [|done]. by apply V_skip, V_sc.
Qed.

Lemma total_literal_spaces k : forall s, Fr s -> (left s < k)%nat -> total (fun x => Fr x.2 /\ forall c, x.1 = Some c -> c = st_c x.2) (literal_spaces k s (st_c s)).
Proof.
  induction k as [|k IH]; intros s Hs Hk; [lia|]. cbn [literal_spaces]. destruct (negb _); [apply total_ret; cbn; split; [done|by intros ? [= <-]]|].
  eapply total_bind; [by apply total_inchar, Fr_G|]. intros [c s'] (Hc & Hf & Hl & _). cbn in *. subst c. destruct (_ =? -1) eqn:E; [by apply total_ret|]. apply IH; [done|]. specialize (Hl ltac:(lia)). lia.
Qed.

Lemma total_literal v j fc : V v j -> 0 <= v_done v -> total (fun x => VF x j) (literal n v fc).
Proof.
  intros Hv Hd. unfold literal. destruct (is_space fc); [apply total_ret; split; [by apply V_skip|done]|]. pose proof Hv as (Hg & _).
  eapply total_bind; [by apply total_inchar|]. intros [c s] (Hc & Hf & Hl & _). cbn [fst snd] in *. subst c. destruct (_ =? -1) eqn:Ec; [apply total_ret; eapply VF_input; eauto with tot|].
  eapply (total_bind (fun x => Fr x.2 /\ forall c, x.1 = Some c -> c = st_c x.2)).
  { destruct (v_skip v); [apply total_literal_spaces; [done|by apply left_fuel, Fr_G]|]. apply total_ret. split; [done|by intros ? [= <-]]. }
  intros [r s'] [Hf' Hr]. cbn [fst snd] in *. destruct r as [c|]; [|apply total_ret; eapply VF_input; eauto with tot]. rewrite (Hr c eq_refl).
  destruct (negb _); [|apply total_ret; split; [eauto with tot|done]]. eapply total_bind; [by apply total_unget|]. intros x [Hx _]. apply total_ret. eapply VF_stop; eauto with tot.
Qed.

Lemma total_percent v j : V v j -> 0 <= v_done v -> total (fun x => VF x j) (percent v).
Proof.
  intros Hv Hd. unfold percent. pose proof Hv as (Hg & _). eapply total_bind; [by apply total_inchar|]. intros [c s] (Hc & Hf & Hl & _). cbn [fst snd] in *. subst c. cbv zeta.
  destruct (_ =? -1) eqn:Ec; [apply total_ret; eapply VF_input; eauto with tot|]. destruct (negb _); [|apply total_ret; split; [eauto with tot|done]].
  eapply total_bind; [by apply total_unget|]. intros x [Hx _]. apply total_ret. eapply VF_stop; eauto with tot.
Qed.

Lemma int_size_le fl : (int_size fl <= 8)%nat.
Proof. unfold int_size. repeat case_match; lia. Qed.

Lemma total_count sp v j : V v (S j) -> 0 <= v_done v -> sp_argpos sp = 0 -> total (fun x => VF x j) (count args sp v).
Proof.
  intros Hv Hd Hsp. unfold count. destruct (SC_SUPPRESS _); [apply total_ret; split; [eapply V_le; [done|lia]|done]|].
  eapply total_bind; [apply (total_store_arg sp v j); try done; apply int_size_le|]. intros y (Hy & _ & Hd'). by apply total_ret.
Qed.

Lemma total_number_dir sp base v j : V v (S j) -> 0 <= v_done v -> sp_argpos sp = 0 -> total (fun x => VF x j) (number n args sp base v).
Proof.
  intros Hv Hd Hsp. unfold number. cbv zeta. pose proof Hv as (Hg & _). eapply total_bind; [by apply total_int|]. intros [[r x] s] Hs. cbn [snd] in Hs.
  assert (Hvs : V (with_sc v s) (S j)) by eauto with tot. destruct r; try (apply total_ret; eauto with tot).
  destruct (if SC_SIGNED _ then _ else _) as [val er]. set (v' := if er then _ else _). assert (Hv' : V v' (S j) /\ v_done v' = v_done v) by (subst v'; destruct er; split; eauto with tot). destruct Hv' as [Hv' Hdv].
  destruct (SC_SUPPRESS _); [apply total_ret; split; [eapply V_le; [done|lia]|lia]|].
  eapply total_bind; [apply (total_store_arg sp v' j); [done|lia|done|apply int_size_le]|]. intros y (Hy & Hy1 & Hd'). apply total_ret. split; [done|cbn; lia].
Qed.

Lemma safe_cb_add_G s b ch : G s -> G (cb_add s b ch).2.
Proof.
  intros Hs. unfold cb_add. destruct (cb_failed b); [done|]. destruct (_ =? cb_cap b); [|done].
  destruct (safe_alloc s (cb_p b) (u64 (cb_cap b * 2))) as (Hg & _). destruct (alloc s _ _) as [p s']. cbn in Hg. destruct (p =? 0); cbn; auto.
Qed.

Lemma total_float_dir sp v j : V v (S j) -> 0 <= v_done v -> sp_argpos sp = 0 -> total (fun x => VF x j) (float n args sp v).
Proof.
  intros Hv Hd Hsp. unfold float. cbv zeta. pose proof Hv as (Hg & _). eapply total_bind; [by apply total_float|]. intros [[r b] s] Hs. cbn [snd] in Hs.
  assert (Hfree : forall s' b', G s' -> V (with_sc v (cb_free s' b')) (S j)) by (intros; eauto with tot).
  destruct r; try (apply total_ret; first [exists (S j); apply V_fail, V_sc | eapply VF_input | eapply VF_stop]; eauto with tot).
  destruct (SC_LONGDBL _); [apply total_ret; exists (S j); apply V_sc; eauto with tot|]. pose proof (safe_cb_add_G s b 0 Hs) as Hs2. destruct (cb_add s b 0) as [b2 s2]. cbn [snd] in Hs2.
  destruct (cb_failed b2); [apply total_ret; exists (S j); apply V_fail, V_sc; eauto with tot|]. destruct (if SC_LONG _ then strtod _ _ else _) as [[bits rest] e].
  eapply (total_bind (fun y => V y j /\ V (with_done y (v_done y + (if SC_SUPPRESS (sp_flags sp) || (len rest =? len (cb_text b)) then 0 else 1))) j /\ 0 <= v_done y)).
  - set (v' := with_sc v _). assert (Hv' : V v' (S j)) by (subst v'; eauto with tot). destruct (len rest =? _), (SC_SUPPRESS _); cbn [negb andb orb];
      try (apply total_ret; split; [eapply V_le; [done|lia]|]; split; [|done]; rewrite Z.add_0_r; apply (V_le _ (S j)); [destruct Hv' as (? & ? & ? & ? & ? & ? & ?); split_and!; done|lia]).
    apply (total_store_arg sp v' j); [done..|]. destruct (SC_LONG _); lia.
  - intros y (Hy & Hy1 & Hdy). pose proof Hy as (Hgy & _). assert (Hf : V (with_sc y (cb_free (v_sc y) b2)) j) by eauto with tot. destruct (len rest =? _); [apply total_ret; eauto with tot|]. rewrite orb_false_r in Hy1. apply total_ret.
    destruct (SC_SUPPRESS _); [by split|]. split; [|cbn; lia]. exact (V_sc _ _ _ Hy1 (safe_cb_free _ _ Hgy)).
Qed.

(** *** Formats *)

Definition conversions (f : list Z) : nat := length (filter (fun c => c = chr "%") f).
Definition plain (f : list Z) : Prop := ~ chr "m" ∈ f /\ ~ chr "$" ∈ f.

Lemma conversions_suffix f g : g `suffix_of` f -> (conversions g <= conversions f)%nat.
Proof. intros [k ->]. unfold conversions. rewrite filter_app, length_app. lia. Qed.

Lemma plain_suffix f g : g `suffix_of` f -> plain f -> plain g.
Proof. intros [k ->] [H1 H2]. split; intros Hin; [apply H1|apply H2]; apply elem_of_app; by right. Qed.

Lemma tail_suffix {A} (l : list A) : tail l `suffix_of` l.
Proof. destruct l; [done|]. by apply suffix_cons_r. Qed.

Lemma read_digits_suffix f : forall v, (read_digits f v).2 `suffix_of` f.
Proof. induction f as [|c f IH]; intros v; cbn [read_digits]; [done|]. destruct (is_digit c); [by apply suffix_cons_r|done]. Qed.

Lemma read_int_suffix f : (read_int f).2 `suffix_of` f.
Proof. unfold read_int. etransitivity; [apply read_digits_suffix|apply tail_suffix]. Qed.

Lemma read_flags_spec f : forall fl, (read_flags f fl).2 `suffix_of` f /\ SC_MALLOC (read_flags f fl).1 = SC_MALLOC fl.
Proof.
  induction f as [|c f IH]; intros fl; cbn [read_flags]; [done|]. destruct (_ || _ || _); [|done].
  destruct (IH (if c =? 42 then or_suppress fl else fl)) as [Hs Hm]. split; [by apply suffix_cons_r|]. rewrite Hm. by destruct (c =? 42).
Qed.

Lemma digits_suffix f g : (if is_digit (peek f) then read_int f else (0, f)) = g -> g.2 `suffix_of` f.
Proof. intros <-. destruct (is_digit _); [apply read_int_suffix|done]. Qed.

Lemma read_bits_spec f fl : (read_bits f fl).2 `suffix_of` f /\ (forall g, (read_bits f fl).1 = Some g -> SC_MALLOC g = SC_MALLOC fl).
Proof.
  unfold read_bits. destruct (if peek f =? 102 then (true, tail f) else (false, f)) as [fast f1] eqn:E1. assert (H1 : f1 `suffix_of` f) by (case_match; simplify_eq; [apply tail_suffix|done]).
  destruct (if is_digit (peek f1) then read_int f1 else (0, f1)) as [bw f2] eqn:E2. apply digits_suffix in E2. cbn [snd] in E2. cbn [fst snd]. split; [by etransitivity|].
  intros g Hg. repeat case_match; simplify_eq; done.
Qed.

Lemma read_modifier_spec f fl : ~ chr "m" ∈ f -> (read_modifier f fl).2 `suffix_of` f /\ (forall g, (read_modifier f fl).1 = Some g -> SC_MALLOC g = SC_MALLOC fl).
Proof.
  intros Hm. assert (Ht : tail (tail f) `suffix_of` f) by (etransitivity; apply tail_suffix). pose proof (tail_suffix f) as Ht1.
  assert (Hp : peek f =? chr "m" = false). { destruct f as [|c f]; [done|]. cbn. apply Z.eqb_neq. intros ->. apply Hm. left. }
  unfold read_modifier. cbv zeta. rewrite Hp. destruct (_ =? 104); [case_match; (split; [done|]); by intros ? [= <-]|]. destruct (_ =? 108); [case_match; (split; [done|]); by intros ? [= <-]|].
  destruct (_ || _); [split; [done|]; by intros ? [= <-]|]. destruct (_ || _); [split; [done|]; by intros ? [= <-]|].
  destruct (_ =? 119); [|split; [done|]; by intros ? [= <-]]. destruct (read_bits_spec (tail f) fl) as [Hs Hg]. split; [by etransitivity|done].
Qed.

Lemma read_head_spec f : plain f -> (read_head f).2 `suffix_of` f /\ sp_argpos (read_head f).1 = 0 /\ SC_MALLOC (sp_flags (read_head f).1) = false.
Proof.
  intros [_ Hd]. unfold read_head. cbv zeta. destruct (is_digit (peek f)).
  - pose proof (read_int_suffix f) as Hs. destruct (read_int f) as [v f1]. cbn [snd] in Hs. replace (peek f1 =? chr "$") with false; [done|].
    symmetry. destruct f1 as [|c f1]; [done|]. cbn. apply Z.eqb_neq. intros ->. apply Hd. destruct Hs as [k ->]. apply elem_of_app. right. left.
  - destruct (read_flags_spec f sflags0) as [Hs Hm]. destruct (read_flags f sflags0) as [fl f1]. cbn [fst snd] in *.
    destruct (if is_digit (peek f1) then read_int f1 else (0, f1)) as [w f2] eqn:E2. apply digits_suffix in E2. cbn [snd] in E2. cbn. split; [by etransitivity|]. by rewrite Hm.
Qed.

Lemma read_spec_spec f : plain f -> (read_spec f).2 `suffix_of` f /\ (forall sp, (read_spec f).1 = Some sp -> sp_argpos sp = 0 /\ SC_MALLOC (sp_flags sp) = false).
Proof.
  intros Hp. unfold read_spec. destruct (read_head_spec f Hp) as (Hs & Ha & Hm). destruct (read_head f) as [s f1]. cbn [fst snd] in *. destruct (plain_suffix _ _ Hs Hp) as [Hm1 _].
  destruct (read_modifier_spec f1 (sp_flags s) Hm1) as [Hs2 Hg]. destruct (read_modifier f1 (sp_flags s)) as [[g|] f2]; cbn [fst snd] in *; (split; [by etransitivity|]); [|done].
  intros sp [= <-]. cbn. split; [done|]. rewrite (Hg g eq_refl). done.
Qed.

Lemma set_bytes_suffix f : forall prev map r, set_bytes_of f prev map = Some r -> r.2 `suffix_of` f.
Proof.
  induction f as [|c f IH]; intros prev map r Hr; cbn [set_bytes_of] in Hr; [done|]. destruct (c =? 93); [simplify_eq; by apply suffix_cons_r|].
  destruct (_ && _); apply IH in Hr; by apply suffix_cons_r.
Qed.

Lemma read_set_suffix f map f' : (read_set f).2 = Some (map, f') -> f' `suffix_of` f.
Proof.
  unfold read_set. destruct (if peek f =? 94 then _ else _) as [[ni prev] f1] eqn:E. assert (H1 : f1 `suffix_of` f) by (case_match; simplify_eq; [apply tail_suffix|done]). cbn [snd].
  intros Hr. destruct (_ || _); apply set_bytes_suffix in Hr; cbn [snd] in Hr; [etransitivity; [exact Hr|]; etransitivity; [apply tail_suffix|done]|by etransitivity].
Qed.

(** *** Directives *)

Lemma total_open sp wide ic width v j : V v (S j) -> 0 <= v_done v -> sp_argpos sp = 0 -> SC_MALLOC (sp_flags sp) = false ->
  total (fun x => match x with
                  | inl fl => VF fl j
                  | inr (d, v') => exists sup, dest sup d N /\ V v' j /\ 0 <= v_done v' /\ (sup = false -> V (with_done v' (v_done v' + 1)) j)
                  end) (open_dest args sp wide ic width v).
Proof.
  intros Hv Hd Hsp Hm. unfold open_dest. cbv zeta. destruct (SC_SUPPRESS _) eqn:Es.
  { apply total_ret. exists true. split; [by left|]. split; [eapply V_le; [done|lia]|]. done. }
  rewrite Hsp, Hm. eapply total_bind; [by apply total_arg|]. intros [p v'] (Hp & Hv' & Hdl & Hde & _). cbn in Hp, Hv', Hdl, Hde. destruct (p =? 0); apply total_ret; [by exists j|].
  exists false. split; [right; cbn; split_and!; first [done | lia | by destruct wide; auto]|]. split; [done|]. split; [lia|]. intros _. destruct Hv' as (Hg & Ha & Hj & Hpl & Hs & Hdd & Hl). split_and!; try done; cbn; lia.
Qed.

Lemma total_text_done sup v j d s term : V v j -> 0 <= v_done v -> G s -> dest sup d 0 -> (sup = false -> V (with_done v (v_done v + 1)) j) ->
  total (fun x => VF x j) (text_done v d s term).
Proof.
  intros Hv Hd Hs Hdest H1. unfold text_done. eapply total_bind; [by apply (total_finish sup)|]. intros s' Hs'. apply total_ret. destruct Hdest as [[_ ->]|(Hsup & -> & _)]; [split; [by apply V_sc|done]|].
  specialize (H1 Hsup). split; [|cbn; lia]. destruct H1 as (_ & Ha & Hj & Hpl & Hst & Hdd & Hl). split; [done|]. split_and!; done.
Qed.

(** A byte that is no character ends the call. *)
Lemma VF_failed v i j r : V v i -> VF (text_failed v r) j.
Proof. intros Hv. unfold text_failed. destruct (r <? 0); exists i; [by apply V_fail|done]. Qed.

Lemma total_text sp fc f v j : V v (S j) -> 0 <= v_done v -> sp_argpos sp = 0 -> SC_MALLOC (sp_flags sp) = false ->
  total (fun x => VF x.1 j /\ x.2 `suffix_of` f) (text n args sp fc f v).
Proof.
  intros Hv Hd Hsp Hm. unfold text. cbv zeta. eapply total_bind; [by apply total_open|]. intros [fl|[d v1]] Ho; [by apply total_ret|]. destruct Ho as (sup & Hdest & Hv1 & Hd1 & Hdone).
  destruct (if fc =? 91 then read_set f else _) as [ni set] eqn:Eset. destruct set as [[map f']|]; [|apply total_ret; split; [by eapply VF_stop|done]].
  assert (Hf' : f' `suffix_of` f). { case_match; simplify_eq; [|done]. apply (read_set_suffix f map). by rewrite Eset. }
  pose proof Hv1 as (Hg & _). eapply total_bind; [by apply total_inchar|]. intros [c s] (Hc & Hf & Hl & _). cbn [fst snd] in *. subst c. destruct (_ =? -1) eqn:Ec; [apply total_ret; split; [eapply VF_input; eauto with tot|done]|].
  assert (Hds : dest sup d (S (left s))). { eapply dest_le; [exact Hdest|]. destruct Hf as [_ Hf]. specialize (Hf ltac:(lia)). lia. }
  pose proof (left_fuel s (Fr_G _ Hf)) as Hfuel. eapply (total_bind (fun x => VF x j)); [|intros fl Hfl; by apply total_ret]. destruct ((fc =? 99) || (fc =? 67)).
  - eapply total_bind; [by apply (total_char_loop sup)|]. intros [[[r w] d2] s2] (_ & Hd2 & Hg2). cbn [fst snd] in *. destruct (negb _); [apply total_ret; eapply VF_failed; eauto with tot|].
    destruct (0 <? w); [apply total_ret; eapply VF_input; eauto with tot|]. by apply (total_text_done sup).
  - destruct (negb (fc =? 91)).
    + eapply total_bind; [by apply (total_string_loop sup)|]. intros [[r d2] s2] (_ & Hd2 & Hg2). cbn [fst snd] in *. destruct (negb _); [apply total_ret; eapply VF_failed; eauto with tot|]. by apply (total_text_done sup).
    + eapply total_bind; [by apply (total_set_loop sup)|]. intros [[r d2] s2] (Hr & Hd2 & Hg2). cbn [fst snd] in *. subst r. cbn [Z.eqb negb]. destruct (_ =? st_nread s2); [apply total_ret; eapply VF_stop; eauto with tot|]. by apply (total_text_done sup).
Qed.

Lemma total_conversion sp fc f v j : V v (S j) -> 0 <= v_done v -> sp_argpos sp = 0 -> SC_MALLOC (sp_flags sp) = false ->
  total (fun x => VF x.1 j /\ x.2 `suffix_of` f) (conversion n args sp fc f v).
Proof.
  intros Hv Hd Hsp Hm. unfold conversion. cbv zeta. assert (Hv0 : V v j) by (eapply V_le; [done|lia]).
  assert (Hp : forall r, total (fun x => VF x j) r -> total (fun x => VF x.1 j /\ x.2 `suffix_of` f) (fl ← r; Some (fl, f))).
  { intros r Hr. eapply total_bind; [exact Hr|]. intros x Hx. by apply total_ret. }
  repeat lazymatch goal with
  | |- total _ (if ?c then _ else _) => destruct c
  | |- total _ (text _ _ _ _ _ _) => by apply total_text
  | |- total _ (percent _ ≫= _) => apply Hp; by apply total_percent
  | |- total _ (count _ _ _ ≫= _) => apply Hp; by apply total_count
  | |- total _ (number _ _ _ _ _ ≫= _) => apply Hp; by apply total_number_dir
  | |- total _ (float _ _ _ _ ≫= _) => apply Hp; by apply total_float_dir
  | |- total _ (Some _) => apply total_ret; split; [by exists j|done]
  end.
Qed.

Lemma total_directive f v j : plain f -> V v (S j) -> 0 <= v_done v -> total (fun x => VF x.1 j /\ x.2 `suffix_of` f) (directive n args f v).
Proof.
  intros Hp Hv Hd. unfold directive. destruct (read_spec_spec f Hp) as [Hs Hsp]. destruct (read_spec f) as [[sp|] f1]; cbn [fst snd] in *; [|apply total_ret; split; [eapply VF_stop; apply V_sc; eauto with tot; apply G_set_errno, Hv|done]].
  destruct (Hsp sp eq_refl) as [Ha Hm]. destruct f1 as [|fc f1]; [apply total_ret; split; [by eapply VF_stop|done]|]. assert (Hs1 : f1 `suffix_of` f) by (etransitivity; [|exact Hs]; by apply suffix_cons_r).
  eapply (total_bind (fun x => V x.2 (S j) /\ 0 <= v_done x.2)).
  - destruct (_ || _); [|by apply total_ret]. eapply total_mono; [by apply total_skip_spaces|]. intros [b v'] [Hv' Hd']. cbn in *. split; [done|lia].
  - intros [b v'] [Hv' Hd']. cbn [snd] in *. destruct b; [apply total_ret; split; [by eapply VF_input|done]|].
    eapply total_mono; [by apply total_conversion|]. intros [fl f2] [Hfl Hs2]. split; [done|]. cbn in *. by etransitivity.
Qed.

Lemma total_dirs m : forall f v, (length f <= m)%nat -> plain f -> V v (conversions f) -> 0 <= v_done v -> total (fun x => VF x 0) (format_dirs m n args f v).
Proof.
  induction m as [|m IH]; intros [|fc f] v Hm Hp Hv Hd; cbn [format_dirs]; try (apply total_ret; split; [eapply V_le; [done|lia]|done]); [cbn in Hm; lia|]. cbv zeta.
  assert (Hpf : plain f) by (eapply plain_suffix; [|exact Hp]; by apply suffix_cons_r).
  set (v' := if 128 <=? fc then _ else v). assert (Hv' : V v' (conversions (fc :: f)) /\ 0 <= v_done v').
  { subst v'. destruct (128 <=? fc); [|done]. split; [|done]. apply V_sc; [done|]. apply G_set_errno, Hv. }
  destruct Hv' as [Hv' Hd']. clearbody v'. clear Hv Hd v. eapply (total_bind (fun x => VF x.1 (conversions f) /\ x.2 `suffix_of` f)).
  - destruct (fc =? 37) eqn:E; cbn [negb].
    + apply total_directive; [done| |done]. replace (S (conversions f)) with (conversions (fc :: f)); [done|]. unfold conversions. assert (fc = chr "%") as -> by lia. by rewrite filter_cons_True.
    + eapply total_bind; [apply (total_literal v' (conversions f)); [eapply V_le; [exact Hv'|]; apply conversions_suffix; by apply suffix_cons_r|done]|]. intros x Hx. by apply total_ret.
  - intros [x f1] [Hx Hs]. cbn [fst snd] in *. destruct x as [v1|v1]; [|apply total_ret; destruct Hx as [i Hi]; by exists i]. destruct Hx as [Hx Hd1]. apply IH; [|by eapply plain_suffix| |done].
    + destruct Hs as [k ->]. cbn in Hm. rewrite length_app in Hm. lia.
    + eapply V_le; [exact Hx|]. by apply conversions_suffix.
Qed.

Lemma total_trailing k : forall s, G s -> (left s < k)%nat -> total G (trailing_loop k s).
Proof.
  induction k as [|k IH]; intros s Hs Hk; [lia|]. cbn [trailing_loop]. eapply total_bind; [by apply total_inchar|]. intros [c s'] (Hc & Hf & Hl & _). cbn [fst snd] in *. subst c.
  destruct (is_space _) eqn:E; [|eapply total_mono; [by apply total_unget|]; by intros ? [? _]]. apply IH; [by apply Fr_G|]. assert (st_c s' <> -1) by (intros E1; by rewrite E1 in E). specialize (Hl ltac:(done)). lia.
Qed.

Lemma total_errout v i : V v i -> total (fun x => -1 <= x.1 <= Z.of_nat (length args) /\ G x.2) (errout v).
Proof.
  intros (Hg & Ha & Hj & Hpl & Hs & Hd & Hl). unfold errout. cbv zeta. rewrite Hpl, Hs. cbn [drop_all drop_slots release_blocks Z.eqb negb mbind option_bind].
  destruct (_ =? -1); cbn; apply total_ret; cbn; (split; [lia|done]).
Qed.

Lemma total_vscan text h errno f : text_bytes_ok text -> (length text <= N)%nat -> plain f -> (conversions f <= length args)%nat ->
  total (fun x => let '(r, t, e, m) := x in -1 <= r <= Z.of_nat (length args) /\ safe_mem m) (moqi_vscan n (mkTape text h) errno m0 (Some f) args).
Proof.
  intros Ht Hl Hp Hc. unfold moqi_vscan. set (v0 := mkVst _ _ _ _ _ _).
  assert (Hv0 : V v0 (conversions f)) by (split_and!; cbn; try done; lia). eapply total_bind; [apply total_dirs; [lia|done..]|]. intros x Hx.
  eapply (total_bind (fun v => exists i, V v i)).
  - destruct x as [v|v]; [|by apply total_ret]. destruct Hx as [Hx _]. destruct (v_skip v); [|apply total_ret; by exists 0%nat]. pose proof Hx as (Hg & _).
    eapply total_bind; [apply total_trailing; [done|by apply left_fuel]|]. intros s Hs. apply total_ret. exists 0%nat. by apply V_sc.
  - intros v [i Hv]. eapply total_bind; [by apply (total_errout v i)|]. intros [r s] [Hr (Hm & _)]. cbn in *. by apply total_ret.
Qed.

End Safe.
