(* ===== verification/ScanTape.v ===== *)
(** * Runs on a tape

    A state of the engine described by the byte it has read and the text in
    front of it: the lemmas with which a conversion is followed byte by byte. *)

From S2P Require Import Prelude Mem Words Digits NumConv Format Stdio Strtod Scan ScanSim.

Section Tape.
Context {H : Type} `{ScanHeap H}.

Abbreviation st := (sc (tape H)).

(** The byte in front of [l], -1 at the end, and a byte put back. *)
Definition hd (l : list Z) : Z := match l with [] => -1 | c :: _ => c end.
Definition back (c : Z) (l : list Z) : list Z := if c =? -1 then l else c :: l.

(** The state has read [c] and has [l] in front of it. *)
Record at_ (s : st) (c : Z) (l : list Z) (h : H) (e : Z) (m : mem) : Prop := {
  at_w : st_w s = mkTape l h;
  at_c : st_c s = c;
  at_errno : st_errno s = e;
  at_mem : st_mem s = m }.

Lemma back_hd l : text_bytes_ok l -> back (hd l) (tail l) = l.
Proof. intros Hl. destruct Hl as [|c l Hc _]; [done|]. unfold back. cbn. by replace (c =? -1) with false by lia. Qed.

Lemma inchar_at s c l h e m : at_ s c l h e m -> text_bytes_ok l -> c <> -1 -> exists s', inchar s = Some (hd l, s') /\ at_ s' (hd l) (tail l) h e m.
Proof.
  intros [Hw Hc He Hm] Hl Hne. unfold inchar. rewrite Hc. replace (c =? -1) with false by lia. cbn [src_get tape_source]. rewrite Hw. unfold tape_get. cbn [tp_rest tp_heap].
  destruct Hl as [|x l Hx _]; cbn; eexists; (split; [reflexivity|]); [by split|]. replace (x =? -1) with false by lia. by split.
Qed.

Lemma unget_at s c l h e m : at_ s c l h e m -> exists s', unget_any s c = Some s' /\ at_ s' c (back c l) h e m.
Proof.
  intros [Hw Hc He Hm]. unfold unget_any, back. destruct (c =? -1); [by exists s|]. cbn. eexists. split; [reflexivity|]. rewrite Hw. by split.
Qed.

Lemma at_set_errno s c l h e m e' : at_ s c l h e m -> at_ (set_errno s e') c l h e' m.
Proof. intros [Hw Hc He Hm]. by split. Qed.

(** *** White space *)

Lemma is_space_same c : is_space c = is_space_c c.
Proof. unfold is_space, is_space_c. lia. Qed.

Lemma skip_loop_at ws : Forall (fun c => is_space_c c = true) ws -> forall k s c l h m, at_ s c (ws ++ l) h 0 m -> text_bytes_ok (ws ++ l) -> c <> -1 ->
  is_space (hd l) = false -> (length ws < k)%nat -> exists s', skip_loop k s = Some (false, s') /\ at_ s' (hd l) (tail l) h 0 m.
Proof.
  induction 1 as [|w ws Hw _ IH]; intros k s c l h m Hs Hb Hc Hl Hk; (destruct k as [|k]; [cbn in Hk; lia|]); cbn [skip_loop].
  - rewrite (at_c _ _ _ _ _ _ Hs). replace (c =? -1) with false by lia. cbn [app] in *. destruct (inchar_at _ _ _ _ _ _ Hs Hb Hc) as (s' & -> & Hs'). cbn.
    rewrite (at_errno _ _ _ _ _ _ Hs'). change (0 =? EINTR) with false. rewrite andb_false_r, (at_c _ _ _ _ _ _ Hs'), Hl. by exists s'.
  - rewrite (at_c _ _ _ _ _ _ Hs). replace (c =? -1) with false by lia. destruct (inchar_at _ _ _ _ _ _ Hs Hb Hc) as (s' & -> & Hs'). cbn [mbind option_bind app hd tail] in *.
    rewrite (at_errno _ _ _ _ _ _ Hs'). change (0 =? EINTR) with false. rewrite andb_false_r, (at_c _ _ _ _ _ _ Hs'), is_space_same, Hw. inversion Hb as [|? ? Hwb Hb']; subst.
    apply (IH k s' w l h m); [done|done|lia|done|cbn in Hk; lia].
Qed.

Lemma skip_spaces_at n (v : vst (tape H)) c ws l h e m : at_ (v_sc v) c (ws ++ l) h e m -> text_bytes_ok (ws ++ l) -> c <> -1 -> Forall (fun c => is_space_c c = true) ws ->
  is_space (hd l) = false -> (length ws < n)%nat ->
  exists s', Scan.skip_spaces n v = Some (false, with_skip (with_sc v s') false) /\ at_ s' (hd l) l h e m.
Proof.
  intros Hs Hb Hc Hws Hl Hn. unfold Scan.skip_spaces. cbv zeta. destruct (skip_loop_at ws Hws n (set_errno (v_sc v) 0) c l h m (at_set_errno _ _ _ _ _ _ _ Hs) Hb Hc Hl Hn) as (s' & -> & Hs'). cbn [mbind option_bind].
  rewrite (at_errno _ _ _ _ _ _ Hs). rewrite (at_c _ _ _ _ _ _ Hs'). destruct (unget_at _ _ _ _ _ _ (at_set_errno _ _ _ _ _ _ e Hs')) as (s2 & -> & Hs2). cbn.
  rewrite back_hd in Hs2 by (by apply Forall_app in Hb as [_ ?]). by exists s2.
Qed.

(** The state has just read the first byte of [l]. *)
Definition on (s : st) (l : list Z) (h : H) (e : Z) (m : mem) : Prop := at_ s (hd l) (tail l) h e m.

Lemma inchar_on s c l h e m : on s (c :: l) h e m -> text_bytes_ok (c :: l) -> exists s', inchar s = Some (hd l, s') /\ on s' l h e m.
Proof. intros Hs Hb. inversion Hb as [|? ? Hc Hl]; subst. cbn in *. by apply (inchar_at s c); [|done|cbn in Hc; lia]. Qed.

Lemma hd_digit l : digit_value (hd l) = digit_value (peek l).
Proof. by destruct l. Qed.

Lemma st_store_at s c l h e m p size v m' : at_ s c l h e m -> store_le m p size v = Some m' -> exists s', st_store s p size v = Some s' /\ at_ s' c l h e m'.
Proof. intros [Hw Hc He Hm] Hst. unfold st_store. rewrite Hm, Hst. eexists. split; [reflexivity|]. by split. Qed.

End Tape.
