(* ===== verification/ScanNum.v ===== *)
(** * sscanf reads integers as strtoll does

    The integer conversions on the tape of a text that starts with a numeral:
    the value and errno are those of strtoll or strtoull, and the bytes taken
    are those in front of the end pointer these give back. *)

From S2P Require Import Prelude Mem Words Digits NumConv Format Stdio Strtod Scan ScanSim ScanTape.

Section Read.
Context {H : Type} `{ScanHeap H}.

Abbreviation st := (sc (tape H)).

(** *** Digits *)

Lemma digit_val_some base c : 2 <= base <= 16 -> is_digit_of base c -> digit_val c = Some (digit_value c) /\ (base <=? digit_value c) = false /\ (c =? -1) = false.
Proof.
  unfold is_digit_of, digit_value, digit_val, is_digit. intros Hb Hd. repeat (bcase_in Hd; try lia); repeat (bcase; try lia); split_and!; f_equal; lia.
Qed.

Lemma digit_val_none base c : 2 <= base <= 16 -> base <= digit_value c -> digit_val c = None \/ exists d, digit_val c = Some d /\ (base <=? d) = true.
Proof.
  unfold digit_value, digit_val, is_digit. intros Hb Hd. repeat (bcase_in Hd; try lia); repeat (bcase; try lia); first [by left | right; eexists; split; [reflexivity|lia]].
Qed.

(** The digits [ds] added to a number. *)
Definition add_digits (base : Z) (v : num) (ds : list Z) : num := foldl (fun v c => add_num base (digit_value c) v) v ds.

Lemma digits_loop_on base ds : 2 <= base <= 16 -> Forall (is_digit_of base) ds -> forall k s rest h e m v have,
  on s (ds ++ rest) h e m -> text_bytes_ok (ds ++ rest) -> base <= digit_value (peek rest) -> (length ds <= k)%nat ->
  exists s', digits_loop k s base (-1) (hd (ds ++ rest)) have v = Some (-1, hd rest, have || negb (bool_decide (ds = [])), add_digits base v ds, s') /\ on s' rest h e m.
Proof.
  intros Hbase. induction 1 as [|d ds Hd _ IH]; intros k s rest h e m v have Hs Hb Hrest Hk; cbn [app] in *.
  - exists s. split; [|done]. rewrite <- hd_digit in Hrest. rewrite orb_false_r. destruct k; cbn [digits_loop]; (destruct (_ || _); [done|]);
      by destruct (digit_val_none base (hd rest) Hbase Hrest) as [->|(d & -> & ->)].
  - destruct k as [|k]; [cbn in Hk; lia|]. cbn [digits_loop hd]. destruct (digit_val_some base d Hbase Hd) as (-> & -> & ->). cbn [orb Z.eqb].
    destruct (inchar_on _ _ _ _ _ _ Hs Hb) as (s' & -> & Hs'). cbn [mbind option_bind]. inversion Hb; subst.
    destruct (IH k s' rest h e m (add_num base (digit_value d) v) true Hs' ltac:(done) Hrest ltac:(cbn in Hk; lia)) as (s2 & Hrun & Hs2).
    exists s2. split; [|done]. rewrite orb_true_r. cbn [orb] in Hrun. exact Hrun.
Qed.

(** The number is the value of the digits as long as that fits 64 bits. *)
Lemma add_digits_spec base ds : 2 <= base <= 36 -> Forall (is_digit_of base) ds -> forall acc neg over, 0 <= acc < 2 ^ 64 ->
  exists acc', add_digits base (mkNum acc neg over) ds = mkNum acc' neg (over || negb (value_from base acc ds <? 2 ^ 64)) /\
    0 <= acc' < 2 ^ 64 /\ (value_from base acc ds < 2 ^ 64 -> acc' = value_from base acc ds).
Proof.
  intros Hb. induction 1 as [|d ds Hd _ IH]; intros acc neg over Ha; cbn [add_digits foldl].
  - exists acc. change (value_from base acc []) with acc. replace (acc <? 2 ^ 64) with true by lia. by rewrite orb_false_r.
  - change (value_from base acc (d :: ds)) with (value_from base (acc * base + digit_value d) ds). unfold is_digit_of in Hd. unfold add_num at 2. cbn [n_mag n_neg n_over]. change (2 ^ 64 - 1) with (u64 (-1)). rewrite overflow_test by done.
    pose proof (value_from_ge base ds (acc * base + digit_value d) ltac:(lia) ltac:(nia)) as Hge.
    destruct (acc * base + digit_value d <? 2 ^ 64) eqn:E; cbn [negb].
    + rewrite u64_small by nia. apply IH. nia.
    + destruct (IH acc neg true Ha) as (acc' & Hrun & Ha' & _). exists acc'. unfold add_digits in Hrun. rewrite Hrun.
      replace (value_from base (acc * base + digit_value d) ds <? 2 ^ 64) with false by lia. rewrite orb_true_r. split; [done|]. split; [done|]. lia.
Qed.

(** *** The number *)

(** A letter that scan_int takes for the second byte of a prefix. *)
Definition prefix_letter (base c : Z) (eff : Z) : Prop := (base = 0 \/ base = 16) /\ lower c = chr "x" /\ eff = 16 \/ (base = 0 \/ base = 2) /\ lower c = chr "b" /\ eff = 2.

(** The text starts with a 0 and such a letter, but no digit follows. *)
Definition false_prefix (base : Z) (text rest : list Z) : Prop := exists ws sg neg c eff,
  text = ws ++ sg ++ chr "0" :: c :: rest /\ Forall (fun c => is_space_c c = true) ws /\ sign sg neg /\ prefix_letter base c eff /\ eff <= digit_value (peek rest).

(** The letter behind a lone 0 is none of a prefix. *)
Definition no_prefix (base : Z) (pre ds rest : list Z) : Prop := pre = [] -> ds = [chr "0"] -> forall eff, ~ prefix_letter base (peek rest) eff.

Lemma hd_lower l k : 0 < k -> lower (peek l) <> k -> lower (hd l) <> k.
Proof. intros Hk. destruct l; [|done]. cbn. lia. Qed.

Lemma lower_letter c k : chr "a" <= k <= chr "z" -> lower c = k -> digit_value c = k - chr "a" + 10.
Proof. unfold lower, digit_value. intros Hk Hc. bcase_in Hc; repeat bcase; lia. Qed.

(** After a 0 that is a digit. *)
Lemma hd_not_letter base ds rest k : Forall (is_digit_of base) ds -> chr "a" <= k <= chr "z" -> base <= k - chr "a" + 10 -> (ds = [] -> lower (peek rest) <> k) -> lower (hd (ds ++ rest)) <> k.
Proof.
  intros Hds Hk Hb Hr. destruct Hds as [|d ds Hd _]; [by apply hd_lower; [lia|apply Hr]|]. cbn. intros E. apply (lower_letter _ _ Hk) in E. unfold is_digit_of in Hd. lia.
Qed.

(** The base 0 of %i means 10 unless there is a prefix. *)
Definition prefixed (base eff : Z) (ds rest : list Z) (s : st) (h : H) (e : Z) (m : mem) (t : list Z) : Prop :=
  exists b ds' have s', scan_prefix s base (-1) (hd t) = Some (Some (b, -1, hd (ds' ++ rest), have), s') /\ on s' (ds' ++ rest) h e m /\
    (if b =? 0 then 10 else b) = eff /\ Forall (is_digit_of eff) ds' /\ value_from eff 0 ds' = value_from eff 0 ds /\ have || negb (bool_decide (ds' = [])) = true /\ ds' `suffix_of` ds.

Lemma prefix_marked base eff c ds rest s h e m : on s (chr "0" :: c :: ds ++ rest) h e m -> text_bytes_ok (chr "0" :: c :: ds ++ rest) -> ds <> [] -> Forall (is_digit_of eff) ds ->
  (lower c = chr "x" /\ (base = 0 \/ base = 16) /\ eff = 16) \/ (lower c = chr "b" /\ (base = 0 \/ base = 2) /\ eff = 2) ->
  prefixed base eff ds rest s h e m (chr "0" :: c :: ds ++ rest).
Proof.
  intros Hs Hb Hne Hds Hc. destruct (inchar_on _ _ _ _ _ _ Hs Hb) as (s1 & E1 & Hs1). inversion Hb as [|? ? _ Hb1]; subst. destruct (inchar_on _ _ _ _ _ _ Hs1 Hb1) as (s2 & E2 & Hs2).
  exists eff, ds, false, s2. split; [|split_and!; try done; [destruct Hc as [(_ & _ & ->)|(_ & _ & ->)]; done|by rewrite (bool_decide_eq_false_2 _ Hne)]].
  unfold scan_prefix. cbn [hd Z.eqb negb andb dec_width Z.ltb]. rewrite E1. cbn [mbind option_bind hd]. change (dec_width (-1)) with (-1). cbn [Z.eqb negb andb].
  destruct Hc as [(-> & Hbase & ->)|(-> & Hbase & ->)]; cbn [Z.eqb Pos.eqb andb].
  - replace ((base =? 0) || (base =? 16)) with true by lia. change (dec_width (-1)) with (-1). cbn [Z.eqb]. by rewrite E2.
  - replace ((base =? 2) || (base =? 0)) with true by lia. change (dec_width (-1)) with (-1). cbn [Z.eqb]. by rewrite E2.
Qed.

Lemma prefix_zero base eff ds rest s h e m : on s (chr "0" :: ds ++ rest) h e m -> text_bytes_ok (chr "0" :: ds ++ rest) -> Forall (is_digit_of eff) ds -> eff = (if base =? 0 then 8 else base) ->
  2 <= eff <= 16 -> (base = 0 \/ base = 16 -> lower (hd (ds ++ rest)) <> chr "x") -> (base = 0 \/ base = 2 -> lower (hd (ds ++ rest)) <> chr "b") ->
  prefixed base eff (chr "0" :: ds) rest s h e m (chr "0" :: ds ++ rest).
Proof.
  intros Hs Hb Hds He Hr Hx Hbin. destruct (inchar_on _ _ _ _ _ _ Hs Hb) as (s1 & E1 & Hs1). exists eff, ds, true, s1. split; [|split_and!; try done; [by replace (eff =? 0) with false by lia|by apply suffix_cons_r]].
  unfold scan_prefix. cbn [hd Z.eqb negb andb Pos.eqb]. rewrite E1. cbn [mbind option_bind]. change (dec_width (-1)) with (-1). cbn [Z.eqb negb andb].
  rewrite <- He. destruct (lower (hd (ds ++ rest)) =? 120) eqn:Ex; cbn [andb].
  - replace ((base =? 0) || (base =? 16)) with false by lia. by replace (_ =? 98) with false by lia.
  - destruct (lower (hd (ds ++ rest)) =? 98) eqn:Eb; cbn [andb]; [|done]. by replace ((base =? 2) || (base =? 0)) with false by lia.
Qed.

Lemma prefix_none base eff ds rest s h e m : on s (ds ++ rest) h e m -> hd (ds ++ rest) <> chr "0" -> ds <> [] -> Forall (is_digit_of eff) ds -> eff = (if base =? 0 then 10 else base) ->
  prefixed base eff ds rest s h e m (ds ++ rest).
Proof.
  intros Hs Hz Hne Hds He. exists base, ds, false, s. split; [|split_and!; try done; by rewrite (bool_decide_eq_false_2 _ Hne)].
  unfold scan_prefix. replace (hd (ds ++ rest) =? 48) with false by lia. by rewrite andb_false_r.
Qed.

Lemma prefix_radix base pre ds rest eff s h e m : 0 <= base <= 16 -> radix base pre (ds ++ rest) eff -> ds <> [] -> Forall (is_digit_of eff) ds -> on s (pre ++ ds ++ rest) h e m ->
  text_bytes_ok (pre ++ ds ++ rest) -> no_prefix base pre ds rest -> prefixed base eff ds rest s h e m (pre ++ ds ++ rest).
Proof.
  intros Hbase Hr Hne Hds Hs Hb Hnp.
  assert (Hplain : forall d ds', ds = d :: ds' -> pre = [] -> 2 <= eff <= 16 -> eff = (if base =? 0 then if d =? chr "0" then 8 else 10 else base) -> prefixed base eff ds rest s h e m (ds ++ rest)).
  { intros d ds' -> -> He Hd. cbn [app] in *. apply Forall_cons in Hds as Hds'. destruct Hds' as [_ Hds']. destruct (decide (d = chr "0")) as [->|Hz].
    - apply prefix_zero; try done; intros Hc; (apply (hd_not_letter eff); [done|lia| |intros -> Hl; eapply Hnp; [done..|unfold prefix_letter; tauto]]); destruct (base =? 0) eqn:E; cbn in Hd; lia.
    - apply prefix_none; try done. by replace (d =? chr "0") with false in Hd by lia. }
  inversion Hr as [c p Hh|c p Hbi|p -> Hz Hh Hbi|p -> Hz|p Hg Hh Hbi]; subst.
  - cbn [app] in *. apply prefix_marked; try done. left. destruct Hh as ([?|?] & _ & [?|?] & _); cbn in *; subst; auto.
  - cbn [app] in *. apply prefix_marked; try done. right. destruct Hbi as ([?|?] & _ & [?|?] & _); cbn in *; subst; auto.
  - destruct ds as [|d ds]; [done|]. cbn in Hz. subst d. by apply (Hplain (chr "0") ds).
  - destruct ds as [|d ds]; [done|]. cbn in Hz. apply (Hplain d ds); try done. cbn. by replace (d =? 48) with false by lia.
  - destruct ds as [|d ds]; [done|]. apply (Hplain d ds); try done; [lia|]. by replace (eff =? 0) with false by lia.
Qed.

Lemma sign_on sg neg l s h e m : sign sg neg -> on s (sg ++ l) h e m -> text_bytes_ok (sg ++ l) -> digit_value (peek l) < 99 ->
  exists hs s', scan_sign s (-1) (hd (sg ++ l)) = Some (hs, mkNum 0 neg false, -1, hd l, s') /\ on s' l h e m.
Proof.
  intros Hsg Hs Hb Hl. unfold scan_sign. destruct Hsg; cbn [app hd] in *.
  - rewrite <- hd_digit in Hl. apply digit_not_special in Hl as (_ & H1 & H2). replace (_ || _) with false by lia. by exists false, s.
  - destruct (inchar_on _ _ _ _ _ _ Hs Hb) as (s' & -> & Hs'). by exists true, s'.
  - destruct (inchar_on _ _ _ _ _ _ Hs Hb) as (s' & -> & Hs'). by exists true, s'.
Qed.

Lemma scan_int_at n base fl sg neg pre ds rest eff s c h e m : 0 <= base <= 16 -> sign sg neg -> radix base pre (ds ++ rest) eff -> ds <> [] -> Forall (is_digit_of eff) ds ->
  eff <= digit_value (peek rest) -> no_prefix base pre ds rest -> (length ds <= n)%nat ->
  at_ s c (sg ++ pre ++ ds ++ rest) h e m -> c <> -1 -> text_bytes_ok (sg ++ pre ++ ds ++ rest) ->
  exists acc s', scan_int n s base fl (-1) = Some (R_OK, mkNum acc neg (negb (value_from eff 0 ds <? 2 ^ 64)), s') /\ at_ s' (hd rest) rest h e m /\
    0 <= acc < 2 ^ 64 /\ (value_from eff 0 ds < 2 ^ 64 -> acc = value_from eff 0 ds).
Proof.
  intros Hbase Hsg Hr Hne Hds Hrest Hnp Hn Hs Hc Hb. pose proof (numeral_head _ _ _ _ _ Hr Hne Hds) as Hhd.
  assert (Heff : 2 <= eff <= 16) by (inversion Hr; subst; lia). unfold scan_int. destruct (inchar_at _ _ _ _ _ _ Hs Hb Hc) as (s1 & -> & Hs1). cbn [mbind option_bind].
  assert (Hne1 : hd (sg ++ pre ++ ds ++ rest) =? -1 = false).
  { destruct Hsg; [|done..]. cbn [app]. rewrite <- hd_digit in Hhd. destruct (_ =? -1) eqn:E; [|done]. by replace (hd (pre ++ ds ++ rest)) with (-1) in Hhd by lia. }
  rewrite Hne1. destruct (sign_on sg neg _ s1 h e m Hsg Hs1 Hb Hhd) as (hs & s2 & -> & Hs2). cbn [mbind option_bind]. apply Forall_app in Hb as [_ Hb].
  destruct (prefix_radix base pre ds rest eff s2 h e m Hbase Hr Hne Hds Hs2 Hb Hnp) as (b & ds' & have & s3 & -> & Hs3 & Heb & Hds' & Hval & Hhave & [k ->]). cbn [mbind option_bind].
  cbv zeta. rewrite Heb. apply Forall_app in Hb as [_ Hb]. assert (Hb' : text_bytes_ok (ds' ++ rest)) by (rewrite <- app_assoc in Hb; by apply Forall_app in Hb as [_ ?]). rewrite length_app in Hn.
  destruct (digits_loop_on eff ds' Heff Hds' n s3 rest h e m (mkNum 0 neg false) have Hs3 Hb' Hrest ltac:(lia)) as (s4 & -> & Hs4). cbn [mbind option_bind]. rewrite Hhave.
  destruct (unget_at _ _ _ _ _ _ Hs4) as (s5 & -> & Hs5). cbn [mbind option_bind]. destruct (add_digits_spec eff ds' ltac:(lia) Hds' 0 neg false ltac:(lia)) as (acc & -> & Ha & Hv).
  rewrite Hval in *. exists acc, s5. split; [done|]. split; [|done]. by rewrite back_hd in Hs5 by (by apply Forall_app in Hb as [_ ?]).
Qed.

(** *** The conversion *)

(** The modifiers of an integer conversion with the bytes it stores. *)
Definition int_modifiers : list (list Z * nat) :=
  [([], 4%nat); (str "h", 2%nat); (str "hh", 1%nat); (str "l", 8%nat); (str "ll", 8%nat); (str "j", 8%nat); (str "z", 8%nat); (str "t", 8%nat); (str "q", 8%nat); (str "L", 8%nat);
   (str "w8", 1%nat); (str "w16", 2%nat); (str "w32", 4%nat); (str "w64", 8%nat); (str "wf8", 1%nat); (str "wf16", 8%nat); (str "wf32", 8%nat); (str "wf64", 8%nat)].

(** The base that strtoll is given, and whether the conversion is signed. *)
Definition scan_base (c : Z) : Z := if one_of c "xX" then 16 else if c =? chr "o" then 8 else if c =? chr "b" then 2 else if c =? chr "i" then 0 else 10.
Definition is_signed (c : Z) : bool := one_of c "di".
Definition int_convs : list Z := str "diuxXob".

Definition spec_ok (mods : list Z) (size : nat) (c : Z) : Prop := exists fl, read_spec (mods ++ [c]) = (Some (mkSspec 0 fl (-1)), [c]) /\
  int_size fl = size /\ SC_SUPPRESS fl = false /\ SC_SIGNED fl = false /\ SC_READPTR fl = false.

Lemma int_specs : Forall (fun x => Forall (spec_ok x.1 x.2) int_convs) int_modifiers.
Proof. repeat constructor; cbn [fst snd]; (eexists; split; [vm_compute; reflexivity|done]). Qed.

Lemma int_conversion n ap sp c (v : vst (tape H)) : c ∈ int_convs ->
  conversion n ap sp c [] v = (fl ← number n ap (if is_signed c then with_flags sp or_signed else sp) (scan_base c) v; Some (fl, [])) /\ negb (one_of c "[cCn") = true.
Proof. intros Hc. change int_convs with [100; 105; 117; 120; 88; 111; 98] in Hc. repeat (apply elem_of_cons in Hc as [->|Hc]; [by split|]). by apply not_elem_of_nil in Hc. Qed.

Lemma scan_base_range c : 0 <= scan_base c <= 16.
Proof. unfold scan_base. repeat bcase; lia. Qed.

(** The value that strtoll or strtoull gives, and errno behind it. *)
Definition converted (c e : Z) (text : list Z) : Z * Z :=
  let '(v, _, e) := if is_signed c then strtoll e text (scan_base c) else strtoull e text (scan_base c) in (v, e).

Lemma value_converted c e text neg eff ds n acc : numeral (scan_base c) text neg eff ds n -> 0 <= acc < 2 ^ 64 -> (value_from eff 0 ds < 2 ^ 64 -> acc = value_from eff 0 ds) ->
  let x := mkNum acc neg (negb (value_from eff 0 ds <? 2 ^ 64)) in let r := if is_signed c then signed_value x else unsigned_value x in
  converted c e text = (r.1, if r.2 then ERANGE else e).
Proof.
  intros Hn Ha Hv x r. assert (Hge : 0 <= value_from eff 0 ds). { destruct Hn as (? & ? & ? & ? & _ & _ & _ & _ & Hr & _). apply radix_bounds in Hr. apply value_from_ge; lia. }
  unfold converted. subst x r. destruct (is_signed c).
  - rewrite (strtoll_spec e _ _ _ _ _ _ Hn). unfold signed_value, in_i64, LLONG_MIN, LLONG_MAX. cbn [n_mag n_neg n_over]. destruct (value_from eff 0 ds <? 2 ^ 64) eqn:E; cbn [negb orb].
    + rewrite (Hv ltac:(lia)). destruct neg; cbn [negb andb orb].
      * destruct (2 ^ 63 <? value_from eff 0 ds) eqn:E2; [by replace (_ && _) with false by lia|]. replace (_ && _) with true by lia. cbn. by rewrite i64_u64_neg by lia.
      * rewrite orb_false_r. destruct (2 ^ 63 - 1 <? value_from eff 0 ds) eqn:E2; [by replace (_ && _) with false by lia|]. replace (_ && _) with true by lia. cbn. by rewrite i64_small by (unfold is_i64; lia).
    + by destruct neg; replace (_ && _) with false by lia.
  - rewrite (strtoull_spec e _ _ _ _ _ _ Hn). unfold unsigned_value. cbn [n_mag n_neg n_over]. destruct (value_from eff 0 ds <? 2 ^ 64) eqn:E; cbn [negb]; [|done].
    rewrite (Hv ltac:(lia)). destruct neg; cbn; [done|]. by rewrite u64_small by lia.
Qed.

(** A lone 0 that no false prefix makes of. *)
Lemma numeral_no_prefix base text ws sg neg pre ds rest eff : text = ws ++ sg ++ pre ++ ds ++ rest -> Forall (fun c => is_space_c c = true) ws -> sign sg neg ->
  radix base pre (ds ++ rest) eff -> (forall r, ~ false_prefix base text r) -> no_prefix base pre ds rest.
Proof.
  intros Htext Hws Hsg Hr Hf -> -> e' Hl. destruct rest as [|c rest]; [destruct Hl as [(_ & ? & _)|(_ & ? & _)]; done|]. cbn [peek app] in *. apply (Hf rest). exists ws, sg, neg, c, e'. split_and!; try done.
  assert (Hx : forall k, lower c = k -> chr "a" <= k <= chr "z" -> c = k \/ c = k - 32) by (unfold lower; intros k; repeat bcase; lia).
  destruct (Z.le_gt_cases e' (digit_value (peek rest))) as [|Hgt]; [done|exfalso].
  assert (Hp : peek_at (chr "0" :: c :: rest) 2 = peek rest) by (by destruct rest).
  assert (Hh : hex_prefix base (chr "0" :: c :: rest) \/ bin_prefix base (chr "0" :: c :: rest)).
  { destruct Hl as [(Hb & Hc & ->)|(Hb & Hc & ->)]; [left|right]; (split; [done|]); (split; [done|]); rewrite Hp; (split; [|done]); cbn; apply (Hx _ Hc); lia. }
  inversion Hr; subst; tauto.
Qed.

(** No number behind a false prefix. *)
Lemma scan_int_false n base fl sg neg c rest eff s x h e m : SC_READPTR fl = false -> sign sg neg -> prefix_letter base c eff -> eff <= digit_value (peek rest) ->
  at_ s x (sg ++ chr "0" :: c :: rest) h e m -> x <> -1 -> text_bytes_ok (sg ++ chr "0" :: c :: rest) ->
  exists v s', scan_int n s base fl (-1) = Some (R_CONV, v, s') /\ at_ s' (hd rest) rest h e m.
Proof.
  intros Hfl Hsg Hl Hrest Hs Hx Hb. unfold scan_int. destruct (inchar_at _ _ _ _ _ _ Hs Hb Hx) as (s1 & -> & Hs1). cbn [mbind option_bind].
  replace (hd (sg ++ chr "0" :: c :: rest) =? -1) with false by (by destruct Hsg). destruct (sign_on sg neg _ s1 h e m Hsg Hs1 Hb ltac:(done)) as (hs & s2 & -> & Hs2). cbn [mbind option_bind hd]. apply Forall_app in Hb as [_ Hb].
  destruct (inchar_on _ _ _ _ _ _ Hs2 Hb) as (s3 & E3 & Hs3). inversion Hb as [|? ? _ Hb1]; subst. destruct (inchar_on _ _ _ _ _ _ Hs3 Hb1) as (s4 & E4 & Hs4). inversion Hb1 as [|? ? _ Hb2]; subst.
  assert (Hpre : scan_prefix s2 base (-1) (chr "0") = Some (Some (eff, -1, hd rest, false), s4)).
  { unfold scan_prefix. cbn [Z.eqb negb andb Pos.eqb]. rewrite E3. cbn [mbind option_bind hd]. change (dec_width (-1)) with (-1). cbn [Z.eqb negb andb].
    destruct Hl as [(Hbase & -> & ->)|(Hbase & -> & ->)]; cbn [Z.eqb Pos.eqb andb]; [replace ((base =? 0) || (base =? 16)) with true by lia|replace ((base =? 2) || (base =? 0)) with true by lia]; cbn [Z.eqb]; by rewrite E4. }
  rewrite Hpre. cbn [mbind option_bind]. cbv zeta. assert (He : 2 <= eff <= 16) by (destruct Hl as [(_ & _ & ->)|(_ & _ & ->)]; lia). replace (eff =? 0) with false by lia.
  destruct (digits_loop_on eff [] He (Forall_nil_2 _) n s4 rest h e m (mkNum 0 neg false) false Hs4 Hb2 Hrest ltac:(cbn; lia)) as (s5 & Hd & Hs5). cbn [app] in Hd. rewrite Hd. cbn [mbind option_bind]. change (false || negb (bool_decide (@nil Z = []))) with false. cbv match.
  unfold scan_nil. rewrite Hfl, andb_false_r. cbn [andb mbind option_bind]. rewrite (at_c _ _ _ _ _ _ Hs5). destruct (unget_at _ _ _ _ _ _ Hs5) as (s6 & -> & Hs6). cbn [mbind option_bind]. rewrite back_hd in Hs6 by done. by eexists _, s6.
Qed.

(** An integer conversion in front of a numeral that [s] has not read yet. *)
Lemma number_at c n sp text neg eff ds k (v : vst (tape H)) h e m m' p : numeral (scan_base c) text neg eff ds k -> (forall rest, ~ false_prefix (scan_base c) text rest) -> text_bytes_ok text ->
  (length text < n)%nat -> sp_argpos sp = 0 -> sp_width sp = -1 -> SC_SUPPRESS (sp_flags sp) = false -> SC_SIGNED (sp_flags sp) = false ->
  at_ (v_sc v) 0 text h e m -> v_ap v = [p] -> v_done v = 0 -> v_plist v = [(0, [])] -> v_strptr v = 0 ->
  store_le m p (int_size (sp_flags sp)) (converted c e text).1 = Some m' ->
  exists v1 v2, Scan.skip_spaces n v = Some (false, v1) /\ v_skip v2 = false /\
    number n [p] (if is_signed c then with_flags sp or_signed else sp) (scan_base c) v1 = Some (Next v2) /\
    errout v2 = Some (1, v_sc v2) /\ st_w (v_sc v2) = mkTape (drop (Z.to_nat k) text) h /\ st_errno (v_sc v2) = (converted c e text).2 /\ st_mem (v_sc v2) = m'.
Proof.
  intros Hn Hnp Hb Hlen Hpos Hw Hsup Hsig Hs Hap Hdone Hpl Hsp Hst. pose proof Hn as (ws & sg & pre & rest & Htext & Hk & Hws & Hsg & Hr & Hne & Hds & Hrest).
  assert (Hdrop : drop (Z.to_nat k) text = rest) by (rewrite Htext, Hk, Nat2Z.id; by rewrite !app_assoc, drop_app_length). rewrite Hdrop in *. clear Hdrop.
  pose proof (numeral_no_prefix _ _ _ _ _ _ _ _ _ Htext Hws Hsg Hr Hnp) as Hnp'.
  pose proof (numeral_head _ _ _ _ _ Hr Hne Hds) as Hhd. set (l := sg ++ pre ++ ds ++ rest) in *.
  assert (Hl : is_space (hd l) = false /\ hd l <> -1). { subst l. destruct Hsg; [|done..]. cbn [app]. rewrite <- hd_digit in Hhd. destruct (digit_not_special _ Hhd) as [Hsp1 _]. rewrite is_space_same. split; [done|]. by intros E; rewrite E in Hhd. }
  assert (Hlens : (length ws < n /\ length ds <= n)%nat) by (rewrite Htext in Hlen; subst l; rewrite !length_app in Hlen; lia).
  rewrite Htext in Hs, Hb. destruct (skip_spaces_at n v 0 ws l h e m Hs Hb ltac:(lia) Hws (proj1 Hl) (proj1 Hlens)) as (s1 & Hskip & Hs1).
  eexists. pose proof (proj2 (proj1 (Forall_app _ _ _) Hb)) as Hbl.
  set (sp' := if is_signed c then with_flags sp or_signed else sp).
  assert (Hsp' : sp_argpos sp' = 0 /\ sp_width sp' = -1 /\ SC_SUPPRESS (sp_flags sp') = false /\ SC_SIGNED (sp_flags sp') = is_signed c /\ int_size (sp_flags sp') = int_size (sp_flags sp)) by (subst sp'; by destruct (is_signed c)).
  destruct Hsp' as (Hp1 & Hp2 & Hp3 & Hp4 & Hp5).
  destruct (scan_int_at n (scan_base c) (sp_flags sp') sg neg pre ds rest eff s1 (hd l) h e m (scan_base_range c) Hsg Hr Hne Hds Hrest Hnp' (proj2 Hlens) Hs1 (proj2 Hl) Hbl) as (acc & s2 & Hint & Hs2 & Ha & Hv).
  pose proof (value_converted c e text neg eff ds k acc Hn Ha Hv) as Hconv. cbv zeta in Hconv. set (x := mkNum acc neg _) in *. set (r := if is_signed c then signed_value x else unsigned_value x) in *.
  rewrite Hconv in *. cbn [fst snd] in *. set (s3 := if r.2 then set_errno s2 ERANGE else s2).
  assert (Hs3 : at_ s3 (hd rest) rest h (if r.2 then ERANGE else e) m) by (subst s3; destruct r.2; [by eapply at_set_errno|done]).
  destruct (st_store_at _ _ _ _ _ _ p _ _ _ Hs3 Hst) as (s4 & Hstore & [Hw4 _ He4 Hm4]).
  exists (mkVst s4 [] 1 false [(0, [])] 0). split; [exact Hskip|]. split; [done|]. split; [|done].
  unfold number. cbv zeta. cbn [v_sc with_skip with_sc]. rewrite Hp2, Hint. cbn [mbind option_bind]. rewrite Hp3, Hp4, Hp5. fold r. destruct r as [value er]. cbn [fst snd] in *.
  unfold store_arg, arg_of. rewrite Hp1. destruct er; cbn; rewrite Hap; cbn; subst s3; rewrite Hstore; unfold with_done; cbn; by rewrite Hdone, ?Hpl, ?Hsp.
Qed.

Lemma scan_numeral h e m text mods size c neg eff ds k p m' : (mods, size) ∈ int_modifiers -> c ∈ int_convs -> text_bytes_ok text ->
  numeral (scan_base c) text neg eff ds k -> (forall rest, ~ false_prefix (scan_base c) text rest) -> store_le m p size (converted c e text).1 = Some m' ->
  moqi_vscan (length text + 2) (mkTape text h) e m (Some (chr "%" :: mods ++ [c])) [p] = Some (1, mkTape (drop (Z.to_nat k) text) h, (converted c e text).2, m').
Proof.
  intros Hmod Hc Hb Hn Hnp Hst. pose proof (proj1 (Forall_forall _ _) int_specs _ Hmod) as Hspec. destruct (proj1 (Forall_forall _ _) Hspec _ Hc) as (fl & Hread & Hsize & Hsup & Hsig & _). cbn [fst snd] in *. subst size.
  unfold moqi_vscan. cbn [length format_dirs]. change (128 <=? chr "%") with false. change (negb (chr "%" =? chr "%")) with false. cbv zeta. cbv match.
  set (v0 := mkVst _ _ _ _ _ _). set (n := (length text + 2)%nat). unfold directive. rewrite Hread. destruct (int_conversion n [p] (mkSspec 0 fl (-1)) c v0 Hc) as [_ Hcc]. rewrite Hcc, orb_true_r.
  destruct (number_at c n (mkSspec 0 fl (-1)) text neg eff ds k v0 h e m m' p Hn Hnp Hb ltac:(lia) eq_refl eq_refl Hsup Hsig ltac:(by split) eq_refl eq_refl eq_refl eq_refl Hst) as (v1 & v2 & -> & Hskip & Hnum & Herr & Hw & He & Hm).
  cbn [mbind option_bind]. rewrite (proj1 (int_conversion n [p] (mkSspec 0 fl (-1)) c v1 Hc)), Hnum. cbn [mbind option_bind]. cbn [format_dirs mbind option_bind].
  rewrite Hskip. cbn [mbind option_bind]. rewrite Herr. cbn [mbind option_bind]. by rewrite Hw, He, Hm.
Qed.

(** The conversion fails: what looked like a prefix is taken, nothing is stored. *)
Lemma scan_false_prefix h e m text mods size c rest p : (mods, size) ∈ int_modifiers -> c ∈ int_convs -> text_bytes_ok text -> false_prefix (scan_base c) text rest ->
  moqi_vscan (length text + 2) (mkTape text h) e m (Some (chr "%" :: mods ++ [c])) [p] = Some (0, mkTape rest h, e, m).
Proof.
  intros Hmod Hc Hb (ws & sg & neg & x & eff & Htext & Hws & Hsg & Hl & Hrest). pose proof (proj1 (Forall_forall _ _) int_specs _ Hmod) as Hspec. destruct (proj1 (Forall_forall _ _) Hspec _ Hc) as (fl & Hread & Hsize & Hsup & Hsig & Hptr). cbn [fst snd] in *.
  unfold moqi_vscan. cbn [length format_dirs]. change (128 <=? chr "%") with false. change (negb (chr "%" =? chr "%")) with false. cbv zeta. cbv match.
  set (v0 := mkVst _ _ _ _ _ _). set (n := (length text + 2)%nat). unfold directive. rewrite Hread. destruct (int_conversion n [p] (mkSspec 0 fl (-1)) c v0 Hc) as [_ Hcc]. rewrite Hcc, orb_true_r.
  assert (Hs0 : at_ (v_sc v0) 0 (ws ++ sg ++ chr "0" :: x :: rest) h e m) by (by rewrite <- Htext; split). rewrite Htext in Hb. assert (Hhd : is_space (hd (sg ++ chr "0" :: x :: rest)) = false /\ hd (sg ++ chr "0" :: x :: rest) <> -1) by (by destruct Hsg).
  destruct (skip_spaces_at n v0 0 ws _ h e m Hs0 Hb ltac:(lia) Hws (proj1 Hhd) ltac:(unfold n; rewrite Htext, length_app; lia)) as (s1 & -> & Hs1). cbn [mbind option_bind]. rewrite (proj1 (int_conversion n [p] (mkSspec 0 fl (-1)) c _ Hc)). apply Forall_app in Hb as [_ Hb].
  set (sp := if is_signed c then _ else _). assert (Hsp : sp_width sp = -1 /\ SC_READPTR (sp_flags sp) = false) by (subst sp; by destruct (is_signed c)). destruct Hsp as [Hw Hp].
  unfold number. cbv zeta. cbn [v_sc with_skip with_sc]. destruct (scan_int_false n (scan_base c) (sp_flags sp) sg neg x rest eff s1 _ h e m Hp Hsg Hl Hrest Hs1 (proj2 Hhd) Hb) as (y & s2 & Hint & [Hw2 _ He2 Hm2]). rewrite Hw, Hint. cbn. by rewrite Hw2, He2, Hm2.
Qed.

End Read.
