(* ===== verification/ScanFloat.v ===== *)
(** * sscanf reads decimal numbers correctly rounded

    The floating-point conversions on the tape of a text that starts with a
    decimal number: the bytes they collect are the number as [strtod] reads
    it. *)

From S2P Require Import Prelude Mem Words Digits NumConv Format Stdio Strtod StrtodParse StrtodThms Scan ScanSim ScanTape.

(** ** The bytes of a number *)

(** The bytes that the loop of [scan_float] takes from [l], added to [tx], and what is then left. *)
Fixpoint float_take (tx : list Z) (g : fseen) (l : list Z) : list Z * fseen * list Z :=
  match l with
  | [] => (tx, g, [])
  | c :: l' =>
      match float_step false (chr "e") c tx g with
      | Some (ch, g) => float_take (tx ++ [ch]) g l'
      | None => (tx, g, l)
      end
  end.

Lemma step_digit c tx g : is_digit_c c = true -> float_step false (chr "e") c tx g = Some (c, mkSeen true (got_dot g) (got_e g)).
Proof. intros Hc. unfold float_step. by replace (is_digit c) with true. Qed.

Lemma take_digits ds : digit_chars ds -> forall tx g l,
  float_take tx g (ds ++ l) = float_take (tx ++ ds) (mkSeen (got_digit g || negb (bool_decide (ds = []))) (got_dot g) (got_e g)) l.
Proof.
  induction 1 as [|c ds Hc _ IH]; intros tx g l; cbn [app float_take].
  - rewrite app_nil_r, orb_false_r. by destruct g.
  - rewrite step_digit by done. rewrite IH, <- app_assoc. cbn [app got_digit got_dot got_e orb]. by rewrite orb_true_r.
Qed.

Lemma take_point tx d l : float_take tx (mkSeen d false false) (chr "." :: l) = float_take (tx ++ [chr "."]) (mkSeen d true false) l.
Proof. cbn [float_take]. unfold float_step. cbn. by rewrite andb_false_r. Qed.

(** The end of a number without an exponent. *)
Lemma take_stop tx dot rest : is_digit_c (peek rest) = false -> ~ peek rest ∈ [chr "e"; chr "E"; chr "x"; chr "X"] -> dot = true \/ peek rest <> chr "." ->
  float_take tx (mkSeen true dot false) rest = (tx, mkSeen true dot false, rest).
Proof.
  intros Hd He Hdot. destruct rest as [|c rest]; [done|]. cbn [peek float_take] in *. unfold float_step. replace (is_digit c) with false by done. cbn [got_digit got_dot got_e negb andb].
  assert (Hc : c <> chr "e" /\ c <> chr "E") by (split; intros ->; apply He; set_solver). replace (lower c =? chr "e") with false by (unfold lower; bcase; lia).
  destruct dot; [done|]. cbn [negb andb]. by replace (c =? chr ".") with false by lia.
Qed.

Definition lower_exp (ex : list Z) : list Z := match ex with [] => [] | _ :: ex => chr "e" :: ex end.

Lemma take_exponent ex e rest tx dot : exp_text ex e -> is_digit_c (peek rest) = false -> (ex = [] -> ~ peek rest ∈ [chr "e"; chr "E"; chr "x"; chr "X"] /\ (dot = true \/ peek rest <> chr ".")) ->
  exists g, float_take tx (mkSeen true dot false) (ex ++ rest) = (tx ++ lower_exp ex, g, rest) /\ got_digit g = true.
Proof.
  intros Hex Hd Hstop. destruct Hex as [|c sg neg es Hc Hsg Hes Hne].
  { destruct (Hstop eq_refl) as [H1 H2]. exists (mkSeen true dot false). split; [|done]. cbn [app lower_exp]. rewrite app_nil_r. by apply take_stop. }
  exists (mkSeen true true true). split; [|done]. cbn [app lower_exp float_take].
  replace (float_step false (chr "e") c tx (mkSeen true dot false)) with (Some (chr "e", mkSeen false true true)) by (destruct Hc as [-> | ->]; done).
  assert (Hsign : float_take (tx ++ [chr "e"]) (mkSeen false true true) ((sg ++ es) ++ rest) = float_take (tx ++ chr "e" :: sg) (mkSeen false true true) (es ++ rest)).
  { destruct Hsg; cbn [app]; [done|..]; cbn [float_take]; unfold float_step; cbn [got_e got_digit got_dot negb andb]; rewrite last_snoc, bool_decide_eq_true_2 by done; cbn; by rewrite <- app_assoc. }
  rewrite Hsign, take_digits by done. cbn [got_digit got_dot got_e orb]. rewrite bool_decide_eq_false_2 by done. rewrite <- app_assoc. cbn [app negb].
  destruct rest as [|x rest]; [done|]. cbn [float_take peek] in *. unfold float_step. replace (is_digit x) with false by done. cbn [got_digit got_dot got_e negb andb].
  rewrite bool_decide_eq_false_2; [done|]. destruct (exists_last Hne) as (es' & d & ->). rewrite app_comm_cons, !app_assoc, last_snoc. intros [= ->]. apply Forall_app in Hes as [_ Hes]. by inversion Hes.
Qed.

Lemma take_decimal tx ds1 pt ds2 ex e rest : digit_chars ds1 -> digit_chars ds2 -> ds1 ++ ds2 <> [] -> (pt = [] /\ ds2 = []) \/ pt = [chr "."] -> exp_text ex e -> stops pt ex rest ->
  exists g, float_take tx (mkSeen false false false) (ds1 ++ pt ++ ds2 ++ ex ++ rest) = (tx ++ ds1 ++ pt ++ ds2 ++ lower_exp ex, g, rest) /\ got_digit g = true.
Proof.
  intros H1 H2 Hne Hpt Hex (Hd & He & Hp). rewrite take_digits by done. cbn [got_digit got_dot got_e orb]. destruct Hpt as [[-> ->]| ->].
  - rewrite app_nil_r in Hne. rewrite bool_decide_eq_false_2 by done. cbn [app negb].
    destruct (take_exponent ex e rest (tx ++ ds1) false Hex Hd) as (g & -> & Hg); [auto|]. exists g. by rewrite <- app_assoc.
  - cbn [app]. rewrite take_point, take_digits by done. cbn [got_digit got_dot got_e].
    replace (negb (bool_decide (ds1 = [])) || negb (bool_decide (ds2 = []))) with true by (destruct ds1, ds2; done).
    destruct (take_exponent ex e rest ((tx ++ ds1) ++ [chr "."] ++ ds2) true Hex Hd) as (g & Hrun & Hg); [auto|]. exists g. split; [|done]. rewrite <- !app_assoc in *. exact Hrun.
Qed.

Lemma take_length l : forall tx g tx' g' rest, float_take tx g l = (tx', g', rest) -> (length tx' + length rest = length tx + length l)%nat.
Proof.
  induction l as [|c l IH]; intros tx g tx' g' rest Ht; cbn [float_take] in Ht; [by simplify_eq|]. destruct (float_step _ _ _ _ _) as [[ch g1]|]; [|by simplify_eq].
  apply IH in Ht. rewrite length_app in Ht. cbn [length] in *. lia.
Qed.

Lemma take_suffix l : forall tx g tx' g' rest, float_take tx g l = (tx', g', rest) -> rest `suffix_of` l.
Proof.
  induction l as [|c l IH]; intros tx g tx' g' rest Ht; cbn [float_take] in Ht; [by simplify_eq|]. destruct (float_step _ _ _ _ _) as [[ch g1]|]; [|by simplify_eq].
  apply IH in Ht. by apply suffix_cons_r.
Qed.

(** ** The run on the tape *)

Section Read.
Context {H : Type} `{ScanHeap H}.

Abbreviation st := (sc (tape H)).

(** A text that still fits the buffer on the stack. *)
Definition small (tx : list Z) : cbuf := mkCbuf 0 tx 96 false.

Lemma cb_add_small (s : st) tx ch : len tx < 96 -> cb_add s (small tx) ch = (small (tx ++ [ch]), s).
Proof. intros Hl. unfold cb_add. cbn [small cb_failed cb_text cb_cap]. by replace (len tx =? 96) with false by lia. Qed.

Lemma float_loop_on l : text_bytes_ok l -> forall k (s : st) h e m tx g tx' g' rest, on s l h e m -> float_take tx g l = (tx', g', rest) -> len tx' <= 95 -> (length l <= k)%nat ->
  exists s', float_loop k s false (chr "e") (hd l) (-1) (small tx) g = Some (small tx', g', s') /\ at_ s' (hd rest) rest h e m.
Proof.
  assert (Hstop : forall l k (s : st) h e m tx g, text_bytes_ok l -> on s l h e m -> float_step false (chr "e") (hd l) tx g = None ->
    exists s', float_loop k s false (chr "e") (hd l) (-1) (small tx) g = Some (small tx, g, s') /\ at_ s' (hd l) l h e m).
  { intros l0 k s h e m tx g Hb Hs Hst. destruct (unget_at _ _ _ _ _ _ Hs) as (s' & Hu & Hs'). exists s'. rewrite back_hd in Hs' by done. split; [|done]. destruct k; cbn [float_loop small cb_failed cb_text]; by rewrite Hst, Hu. }
  induction 1 as [|c l Hc Hb IH]; intros k s h e m tx g tx' g' rest Hs Ht Hlen Hk; pose proof (take_length _ _ _ _ _ _ Ht) as Htl; cbn [float_take] in Ht.
  - simplify_eq. apply Hstop; [constructor|done|]. unfold float_step. cbn. by rewrite !andb_false_r.
  - assert (Hcl : text_bytes_ok (c :: l)) by (by constructor). destruct (float_step _ _ c tx g) as [[ch g1]|] eqn:Est; [|simplify_eq; by apply Hstop].
    destruct k as [|k]; [cbn in Hk; lia|]. cbn [float_loop hd]. cbn [small cb_failed cb_text]. rewrite Est. pose proof (take_length _ _ _ _ _ _ Ht) as Htl2. pose proof (suffix_length _ _ (take_suffix _ _ _ _ _ _ Ht)) as Hsl. rewrite length_app in Htl2. cbn [length] in *.
    change (mkCbuf 0 tx 96 false) with (small tx). rewrite cb_add_small by lia. cbn [Z.eqb]. destruct (inchar_on _ _ _ _ _ _ Hs Hcl) as (s1 & -> & Hs1). cbn [mbind option_bind].
    destruct (hd l =? -1) eqn:Ee.
    + exists s1. destruct Hb as [|x l Hx _]; [|cbn in Ee; lia]. cbn [float_take] in Ht. simplify_eq. done.
    + rewrite (at_c _ _ _ _ _ _ Hs1). change (dec_width (-1)) with (-1). by apply (IH k s1 h e m (tx ++ [ch]) g1); [..|lia].
Qed.

Lemma scan_number_on n p (s : st) h e m tx tx' g' rest : on s p h e m -> text_bytes_ok p -> (peek p = chr "0" -> lower (peek_at p 1) <> chr "x") ->
  float_take tx (mkSeen false false false) p = (tx', g', rest) -> got_digit g' = true -> len tx' <= 95 -> (length p <= n)%nat ->
  exists s', scan_number n s (hd p) (-1) (small tx) = Some (R_OK, small tx', s') /\ at_ s' (hd rest) rest h e m.
Proof.
  intros Hs Hb Hx Ht Hg Hlen Hn. pose proof (take_length _ _ _ _ _ _ Ht) as Htl. pose proof (suffix_length _ _ (take_suffix _ _ _ _ _ _ Ht)) as Hsl.
  assert (Hpre : exists p' tx0 d s1, float_prefix s (hd p) (-1) (small tx) = Some (small tx0, Some (false, hd p', -1, d), s1) /\ on s1 p' h e m /\ text_bytes_ok p' /\
    float_take tx0 (mkSeen d false false) p' = (tx', g', rest) /\ (length p' <= length p)%nat).
  { unfold float_prefix. cbn [Z.eqb negb andb]. destruct (hd p =? 48) eqn:E; [|by exists p, tx, false, s]. destruct p as [|c p]; [done|]. cbn in E. assert (c = chr "0") as -> by lia.
    cbn [length] in Htl. rewrite cb_add_small by (cbn in Hsl; lia). destruct (inchar_on _ _ _ _ _ _ Hs Hb) as (s1 & -> & Hs1). cbn [mbind option_bind]. change (dec_width (-1)) with (-1).
    assert (Hx1 : lower (hd p) =? chr "x" = false). { specialize (Hx eq_refl). destruct p as [|x p]; [done|]. cbn in *. lia. }
    rewrite Hx1. exists p, (tx ++ [chr "0"]), true, s1. inversion Hb; subst. split; [done|]. split; [done|]. split; [done|]. split; [|cbn; lia].
    cbn [float_take] in Ht. by rewrite step_digit in Ht. }
  destruct Hpre as (p' & tx0 & d & s1 & Hp1 & Hs1 & Hb1 & Ht1 & Hl1). unfold scan_number. rewrite Hp1. cbn [mbind option_bind]. cbv zeta.
  destruct (float_loop_on p' Hb1 n s1 h e m tx0 (mkSeen d false false) tx' g' rest Hs1 Ht1 Hlen ltac:(lia)) as (s2 & -> & Hs2). cbn [mbind option_bind small cb_failed]. rewrite Hg. by exists s2.
Qed.

Lemma scan_float_at n sg neg p (s : st) c h e m tx' g' rest : at_ s c (sg ++ p) h e m -> c <> -1 -> text_bytes_ok (sg ++ p) -> sign sg neg ->
  is_digit_c (peek p) = true \/ peek p = chr "." -> (peek p = chr "0" -> lower (peek_at p 1) <> chr "x") ->
  float_take sg (mkSeen false false false) p = (tx', g', rest) -> got_digit g' = true -> len tx' <= 95 -> (length p <= n)%nat ->
  exists s', scan_float n s (-1) cb_init = Some (R_OK, small tx', s') /\ at_ s' (hd rest) rest h e m.
Proof.
  intros Hs Hc Hb Hsg Hp Hx Ht Hg Hlen Hn. pose proof (take_length _ _ _ _ _ _ Ht) as Htl. assert (Hpe : exists x p', p = x :: p' /\ (is_digit_c x = true \/ x = chr ".")).
  { destruct p as [|x p']; [by destruct Hp|]. by exists x, p'. }
  destruct Hpe as (x & p' & Hpe & Hxd). assert (Hxr : 46 <= x <= 57) by (unfold is_digit_c in Hxd; lia).
  unfold scan_float. destruct (inchar_at _ _ _ _ _ _ Hs Hb Hc) as (s1 & -> & Hs1). cbn [mbind option_bind]. change (dec_width (-1)) with (-1).
  replace (hd (sg ++ p) =? -1) with false by (rewrite Hpe; destruct Hsg; cbn [app hd]; lia).
  assert (Hsign : exists s2, float_sign s1 (hd (sg ++ p)) (-1) cb_init = Some (true, x, -1, small sg, s2) /\ on s2 p h e m).
  { unfold float_sign. change cb_init with (small []). assert (Hone : forall k, k = chr "-" \/ k = chr "+" -> sg = [k] -> exists s2,
      (let '(b, s0) := cb_add s1 (small []) (chr "-") in '(c0, s2) ← inchar s1; if c0 =? -1 then Some (false, c0, -1, small sg, s2) else Some (true, st_c s2, -1, small sg, s2)) = Some (true, x, -1, small sg, s2) /\ on s2 p h e m).
    { intros k Hk ->. cbn [app] in *. destruct (inchar_on s1 k p h e m Hs1 Hb) as (s2 & -> & Hs2). exists s2. subst p. cbn [mbind option_bind hd]. replace (x =? -1) with false by lia. split; [|done].
      by rewrite (at_c _ _ _ _ _ _ Hs2). }
    destruct Hsg; cbn [app hd] in *.
    - subst p. cbn [hd]. replace (_ || _) with false by lia. by exists s1.
    - by apply (Hone (chr "+")); [right|].
    - by apply (Hone (chr "-")); [left|]. }
  destruct Hsign as (s2 & -> & Hs2). cbn [mbind option_bind negb]. replace (lower x =? chr "n") with false by (unfold lower; bcase; lia). replace (lower x =? chr "i") with false by (unfold lower; bcase; lia).
  apply Forall_app in Hb as [_ Hb]. replace x with (hd p) by (by subst p). by apply (scan_number_on n p s2 h e m sg tx' g' rest).
Qed.

(** *** The conversion *)

Definition float_convs : list Z := str "eEfFgGaA".

(** The modifiers, with the format and the bytes they store. *)
Definition float_modifiers : list (list Z * (fmt * nat)) := [([], (FLOAT_FMT, 4%nat)); (str "l", (DOUBLE_FMT, 8%nat))].

Lemma float_specs mods f size c : (mods, (f, size)) ∈ float_modifiers -> c ∈ float_convs ->
  exists fl asm, read_spec (mods ++ [c]) = (Some (mkSspec 0 fl (-1)), [c]) /\ SC_LONGDBL fl = false /\ SC_SUPPRESS fl = false /\ assembles f asm /\
    (forall e s, (if SC_LONG fl then strtod e s else strtof e s) = finish f asm e s (parse s)) /\ (if SC_LONG fl then 8 else 4)%nat = size /\
    (forall n ap sp (v : vst (tape H)), conversion n ap sp c [] v = (x ← float n ap sp v; Some (x, []))) /\ negb (one_of c "[cCn") = true.
Proof.
  intros Hm Hc. change float_convs with [101; 69; 102; 70; 103; 71; 97; 65] in Hc. unfold float_modifiers in Hm. apply elem_of_cons in Hm as [[= -> -> ->]|Hm]; [|apply list_elem_of_singleton in Hm as [= -> -> ->]].
  - exists sflags0, assemble_float. repeat (apply elem_of_cons in Hc as [->|Hc]; [split_and!; try done; apply assembles_float|]). by apply not_elem_of_nil in Hc.
  - exists (or_long sflags0), assemble_double. repeat (apply elem_of_cons in Hc as [->|Hc]; [split_and!; try done; apply assembles_double|]). by apply not_elem_of_nil in Hc.
Qed.

(** The bytes collected are a decimal number with nothing behind it. *)
Lemma token_decimal sg neg ds1 pt ds2 ex e : sign sg neg -> digit_chars ds1 -> digit_chars ds2 -> ds1 ++ ds2 <> [] -> (pt = [] /\ ds2 = []) \/ pt = [chr "."] -> exp_text ex e -> len (ds1 ++ ds2) <= 10 ^ 7 ->
  decimal_text (sg ++ ds1 ++ pt ++ ds2 ++ lower_exp ex) neg (value 10 (digit_values (ds1 ++ ds2))) (e - len ds2) [].
Proof.
  intros Hsg H1 H2 Hne Hpt Hex Hlen. assert (Hex' : exp_text (lower_exp ex) e) by (destruct Hex; [constructor|by apply exp_some; [left|..]]).
  replace (sg ++ _) with ([] ++ sg ++ ds1 ++ pt ++ ds2 ++ lower_exp ex ++ []) by (by rewrite app_nil_r). apply decimal_intro; try done.
  split_and!; [done|intros _; by apply (bool_decide_unpack _)|done].
Qed.

Lemma float_at f asm n sp text neg c10 e10 rest (v : vst (tape H)) h e m p size : decimal_text text neg c10 e10 rest -> len text - len rest <= 95 -> text_bytes_ok text ->
  (length text < n)%nat -> sp_argpos sp = 0 -> sp_width sp = -1 -> SC_SUPPRESS (sp_flags sp) = false -> SC_LONGDBL (sp_flags sp) = false -> assembles f asm ->
  (forall e s, (if SC_LONG (sp_flags sp) then strtod e s else strtof e s) = finish f asm e s (parse s)) -> (if SC_LONG (sp_flags sp) then 8 else 4)%nat = size ->
  at_ (v_sc v) 0 text h e m -> v_ap v = [p] -> v_done v = 0 -> v_plist v = [(0, [])] -> v_strptr v = 0 ->
  exists bits e' v1, correctly_rounded f neg c10 e10 rest e (bits, rest, e') /\ Scan.skip_spaces n v = Some (false, v1) /\
    forall m', store_le m p size bits = Some m' -> exists v2, float n [p] sp v1 = Some (Next v2) /\ v_skip v2 = false /\
      errout v2 = Some (1, v_sc v2) /\ st_w (v_sc v2) = mkTape rest h /\ st_errno (v_sc v2) = e' /\ st_mem (v_sc v2) = m'.
Proof.
  intros Ht Hlen Hb Hn Hpos Hw Hsup Hld Hasm Hstr Hsize Hs Hap Hdone Hpl Hsp. destruct Ht as [ws sg neg ds1 pt ds2 ex e10 rest Hws Hsg H1 H2 Hne Hpt Hex Hstop Hbig].
  destruct (decimal_head ds1 pt ds2 ex e10 rest H1 H2 Hne Hpt Hex Hstop) as [Hhead Hx]. cbv zeta in Hhead, Hx. destruct (take_decimal sg ds1 pt ds2 ex e10 rest H1 H2 Hne Hpt Hex Hstop) as (g & Htake & Hg).
  pose proof (token_decimal sg neg ds1 pt ds2 ex e10 Hsg H1 H2 Hne Hpt Hex Hbig) as Htok. set (tok := sg ++ ds1 ++ pt ++ ds2 ++ lower_exp ex) in *. set (q := ds1 ++ pt ++ ds2 ++ ex ++ rest) in *.
  pose proof (take_length _ _ _ _ _ _ Htake) as Htl. assert (Hlens : len tok <= 95 /\ (length ws < n)%nat /\ (length q <= n)%nat) by (rewrite !length_app in Hlen, Hn; lia).
  destruct Hlens as (Hl1 & Hl2 & Hl3).
  assert (Hhd : is_space (hd (sg ++ q)) = false /\ hd (sg ++ q) <> -1). { destruct Hsg; [|done..]. cbn [app]. destruct q as [|x q']; [by destruct Hhead|]. cbn [hd peek] in *. unfold is_digit_c, is_space in *. lia. }
  destruct (skip_spaces_at n v 0 ws (sg ++ q) h e m Hs Hb ltac:(lia) Hws (proj1 Hhd) Hl2) as (s1 & Hskip & Hs1). pose proof (proj2 (proj1 (Forall_app _ _ _) Hb)) as Hbl.
  destruct (scan_float_at n sg neg q s1 (hd (sg ++ q)) h e m tok g rest Hs1 (proj2 Hhd) Hbl Hsg Hhead) as (s2 & Hrun & Hs2); [|done..|].
  { intros E. destruct (Hx E) as [Hx1 Hx2]. unfold lower. bcase; lia. }
  destruct (finish_rounded f asm tok neg _ _ [] e Hasm Htok) as (v0 & b & e' & Hfin & Hnear & Henc & He1 & He2).
  exists (sign_bit f neg + b), e', (with_skip (with_sc v s1) false). split; [by exists v0, b, e'|]. split; [exact Hskip|]. intros m' Hst.
  destruct (st_store_at _ _ _ _ _ _ p _ _ _ (at_set_errno _ _ _ _ _ _ e' Hs2) Hst) as (s4 & Hstore & [Hw4 _ He4 Hm4]).
  exists (mkVst s4 [] 1 false [(0, [])] 0). split; [|done]. assert (Htok0 : 0 <> len tok) by (subst tok; rewrite !length_app; destruct ds1, ds2; try done; cbn [length]; lia).
  unfold float. cbv zeta. cbn [v_sc with_skip with_sc]. rewrite Hw, Hrun. cbn [mbind option_bind]. rewrite Hld, cb_add_small by lia. cbn [small cb_failed cb_text]. rewrite Hstr, (at_errno _ _ _ _ _ _ Hs2), Hfin, Hsup.
  replace (len [] =? len tok) with false by (cbn [length]; lia). cbn [negb andb]. unfold store_arg, arg_of. rewrite Hpos. cbn [Z.eqb with_sc with_skip v_ap]. rewrite Hap. cbn [mbind option_bind with_ap v_sc with_sc with_skip].
  rewrite Hsize, Hstore. cbn [mbind option_bind]. unfold with_done. cbn. by rewrite Hdone, Hpl, Hsp.
Qed.

Lemma scan_decimal h e m text mods f size c neg c10 e10 rest p : (mods, (f, size)) ∈ float_modifiers -> c ∈ float_convs -> text_bytes_ok text ->
  decimal_text text neg c10 e10 rest -> len text - len rest <= 95 ->
  exists bits e', correctly_rounded f neg c10 e10 rest e (bits, rest, e') /\ forall m', store_le m p size bits = Some m' ->
    moqi_vscan (length text + 2) (mkTape text h) e m (Some (chr "%" :: mods ++ [c])) [p] = Some (1, mkTape rest h, e', m').
Proof.
  intros Hmod Hc Hb Ht Hlen. destruct (float_specs mods f size c Hmod Hc) as (fl & asm & Hread & Hld & Hsup & Hasm & Hstr & Hsize & Hconv & Hcc).
  set (v0 := mkVst (mkSc (mkTape text h) e 0 0 0 m) [p] 0 false [(0, [])] 0). set (n := (length text + 2)%nat).
  destruct (float_at f asm n (mkSspec 0 fl (-1)) text neg c10 e10 rest v0 h e m p size Ht Hlen Hb ltac:(lia) eq_refl eq_refl Hsup Hld Hasm Hstr Hsize ltac:(by split) eq_refl eq_refl eq_refl eq_refl)
    as (bits & e' & v1 & Hround & Hskip & Hrun). exists bits, e'. split; [done|]. intros m' Hst. destruct (Hrun m' Hst) as (v2 & Hfl & Hsk & Herr & Hw & He & Hm).
  unfold moqi_vscan. cbn [length format_dirs]. change (128 <=? chr "%") with false. change (negb (chr "%" =? chr "%")) with false. cbv zeta. cbv match. fold v0. fold n.
  unfold directive. rewrite Hread, Hcc, orb_true_r, Hskip. cbn [mbind option_bind]. rewrite Hconv, Hfl. cbn [mbind option_bind format_dirs]. rewrite Hsk. cbn [mbind option_bind]. rewrite Herr. cbn [mbind option_bind]. by rewrite Hw, He, Hm.
Qed.

End Read.
