(* ===== verification/ScanThms.v ===== *)
(** * The scanf family

    fscanf on a stream reads what sscanf reads from the bytes of the file, and
    sscanf always returns and writes only what its arguments point to; the
    integer conversions read numbers as strtoll and strtoull do, and the
    floating-point conversions round decimal numbers correctly. *)

From S2P Require Import Prelude Mem Words Digits NumConv Format FormatSim Stdio StdioSpec StdioThms Strtod StrtodParse StrtodThms Scan ScanSim ScanFile ScanSafe ScanTape ScanNum ScanFloat.

(** A heap that is always full. *)
#[export] Instance full_heap : ScanHeap unit := { heap_realloc h m _ _ := (0, h, m); heap_free h m _ := (h, m) }.

(** [k] bytes of memory from address [p] on. *)
Definition room (p : Z) (k : nat) : mem := write_bytes ∅ p (replicate k 0).

(** C15. On a stream that stands for a file without NUL bytes, vfscanf gives
    what vsscanf gives on the bytes behind the position of the file, whenever
    the engine returns on these bytes: the result, errno and every byte stored
    are the same, and the position moves to the first byte that the engine did
    not take. *)
Theorem fscanf_reads_file {W H} `{K : Kernel W} (fd : Z) {appends : bool} `{R : !RegularFile W fd appends} `{S : ScanHeap H} wr (s : Stdio.st W) a (h : H) m fmt ap r t e m' :
  stands fd true wr (st_f s) (Stdio.st_w s) a -> Forall (fun c => 0 < c < 256) (af_data a) ->
  moqi_vscan (length (unread a) + 2) (mkTape (unread a) h) (Stdio.st_errno s) m (Some fmt) ap = Some (r, t, e, m') ->
  vsscanf h (Stdio.st_errno s) m (Some (unread a)) (Some fmt) ap = Some (r, tp_heap t, e, m') /\
  exists s' a', vfscanf (length (unread a) + 2) h m (Some fmt) ap s = Some (r, tp_heap t, m', s') /\
    Stdio.st_errno s' = e /\ stands fd true wr (st_f s') (Stdio.st_w s') a' /\
    af_data a' = af_data a /\ unread a' = tp_rest t.
Proof.
  intros Hs Hd Hrun. assert (Hb : text_bytes_ok (af_data a)) by (eapply Forall_impl; [exact Hd|]; cbn; lia).
  split. { apply vsscanf_tape; [|done]. unfold unread. destruct (af_eof a); [by constructor|by apply Forall_drop]. }
  unfold vfscanf. rewrite (h_read _ _ _ _ _ _ Hs). cbn [negb]. destruct (flush_pending_spec fd true wr s a Hs) as (w & -> & Hs1). cbn [mbind option_bind Z.eqb negb].
  set (f := set_wpos 0 (st_f s)) in *. assert (Hh : file_holds fd true wr (af_data a) None (mkFsrc f w h) (mkTape (unread a) h)) by (by exists a).
  destruct (sim_vscan (file_holds fd true wr (af_data a)) _ _ _ _ _ m (Some fmt) ap Hh _ Hrun) as ([[[r' p] e'] m2] & Hfile & -> & -> & -> & o & a' & Hs' & _ & Hheap & Hrest & Hdata & _).
  unfold of_stream. cbn [st_f Stdio.st_w Stdio.st_errno]. rewrite Hfile. cbn [mbind option_bind]. rewrite Hheap. by exists (mkSt (fs_file p) e (fs_world p)), a'.
Qed.

Lemma fscanf_reads_file_witness :
  let s := mkSt (fresh_stream 3 (mkFlags true false false false false false false false)) 0 (mkRam (str "x=12 34") 2 1 1) in
  let m' := write_bytes ∅ 64 [12; 0; 0; 0] in
  vsscanf tt 0 (room 64 4) (Some (str "12 34")) (Some (str "%d")) [64] = Some (1, tt, 0, m') /\
  exists s' a', vfscanf 7 tt (room 64 4) (Some (str "%d")) [64] s = Some (1, tt, m', s') /\
    Stdio.st_errno s' = 0 /\ stands 3 true false (st_f s') (Stdio.st_w s') a' /\ af_data a' = str "x=12 34" /\ unread a' = str " 34".
Proof.
  intros s m'. apply (fscanf_reads_file (R := ram_file 3) 3 false s (mkAfile (str "x=12 34") 2 false false true) tt (room 64 4) (str "%d") [64] 1 (mkTape (str " 34") tt) 0 m').
  - by apply (fresh_stands (R := ram_file 3) 3 true false _ (Stdio.st_w s)).
  - repeat constructor; by vm_compute.
  - by vm_compute.
Defined.

(** C16. sscanf with a format in which neither m (for %m) nor $ (for positional
    arguments) occurs, each conversion with an argument that points to at least
    eight bytes and to four for each byte of the text and a terminator, always
    returns: between -1 and the number of arguments, with every byte that was
    mapped still mapped and changed only where an argument points. *)
Theorem vsscanf_safe {H} `{ScanHeap H} (h : H) errno m text fmt args R :
  heap_apart m -> (forall a, in_args args R a -> is_Some (m !! a)) -> 8 <= R -> 4 * (len text + 1) <= R ->
  text_bytes_ok text -> plain fmt -> (conversions fmt <= length args)%nat ->
  exists r t e m', moqi_vscan (length text + 2) (mkTape text h) errno m (Some fmt) args = Some (r, t, e, m') /\
    vsscanf h errno m (Some text) (Some fmt) args = Some (r, tp_heap t, e, m') /\
    -1 <= r <= len args /\ safe_mem m args R m'.
Proof.
  intros Hap Hm H8 HR Ht Hp Hc.
  destruct (total_vscan m args R (length text) Hap Hm H8 HR (length text + 2) ltac:(lia) text h errno fmt Ht ltac:(lia) Hp Hc) as ([[[r t] e] m'] & Hrun & Hr & Hs).
  exists r, t, e, m'. split; [done|]. split; [by apply vsscanf_tape|done].
Qed.

Lemma vsscanf_safe_witness :
  exists r t e m', moqi_vscan 9 (mkTape (str "-7 abc!") tt) 0 (room 64 64) (Some (str "%hd %[a-z]")) [64; 96] = Some (r, t, e, m') /\
    vsscanf tt 0 (room 64 64) (Some (str "-7 abc!")) (Some (str "%hd %[a-z]")) [64; 96] = Some (r, tp_heap t, e, m') /\
    -1 <= r <= 2 /\ safe_mem (room 64 64) [64; 96] 32 m'.
Proof.
  apply (vsscanf_safe tt 0 (room 64 64) (str "-7 abc!") (str "%hd %[a-z]") [64; 96] 32).
  - split; intros; cbn in *; congruence.
  - intros a (p & Hp & Ha). assert (Hin : 64 <= a < 128) by (set_unfold in Hp; lia).
    unfold room. rewrite write_bytes_lookup, length_replicate. replace ((64 <=? a) && (a <? 64 + Z.of_nat 64)) with true by lia. apply lookup_lt_is_Some. rewrite length_replicate. lia.
  - lia.
  - cbn. lia.
  - repeat constructor; by vm_compute.
  - split; vm_compute; set_solver.
  - vm_compute. lia.
Defined.

(** C17. An integer conversion (%d, %i, %u, %x, %X, %o or %b) with any length
    modifier (hh, h, l, ll, q, L, j, z, t, w8 to w64, wf8 to wf64, or none) reads
    a numeral as strtoll (%d, %i) or strtoull (the others) does in the base of
    the conversion: sscanf stores the low bytes of the value these return,
    leaves the errno they leave, and takes the bytes in front of the end pointer
    they give back.  The exception is a 0 with an x (base 16 or %i) or a b (base
    2 or %i) behind it and no digit after that: strtoll reads the 0, and the
    conversion fails without storing anything once it has taken both bytes. *)
Theorem sscanf_like_strtoll {H} `{ScanHeap H} (h : H) errno m text mods size c p :
  (mods, size) ∈ int_modifiers -> c ∈ int_convs -> text_bytes_ok text ->
  (forall neg eff ds k m' v o e, numeral (scan_base c) text neg eff ds k -> (forall rest, ~ false_prefix (scan_base c) text rest) ->
     (if is_signed c then strtoll errno text (scan_base c) else strtoull errno text (scan_base c)) = (v, o, e) ->
     store_le m p size v = Some m' ->
     moqi_vscan (length text + 2) (mkTape text h) errno m (Some (chr "%" :: mods ++ [c])) [p] = Some (1, mkTape (drop (Z.to_nat k) text) h, e, m') /\
     vsscanf h errno m (Some text) (Some (chr "%" :: mods ++ [c])) [p] = Some (1, h, e, m')) /\
  (forall rest, false_prefix (scan_base c) text rest ->
     moqi_vscan (length text + 2) (mkTape text h) errno m (Some (chr "%" :: mods ++ [c])) [p] = Some (0, mkTape rest h, errno, m) /\
     vsscanf h errno m (Some text) (Some (chr "%" :: mods ++ [c])) [p] = Some (0, h, errno, m)).
Proof.
  intros Hm Hc Hb. split.
  - intros neg eff ds k m' v o e Hn Hp Hv Hst. assert (Hconv : converted c errno text = (v, e)) by (unfold converted; by rewrite Hv).
    assert (Hrun := scan_numeral h errno m text mods size c neg eff ds k p m' Hm Hc Hb Hn Hp). rewrite Hconv in Hrun. specialize (Hrun Hst).
    split; [exact Hrun|]. by apply (vsscanf_tape _ _ _ _ _ _ _ _ _ _ Hb Hrun).
  - intros rest Hf. pose proof (scan_false_prefix h errno m text mods size c rest p Hm Hc Hb Hf) as Hrun. split; [exact Hrun|]. by apply (vsscanf_tape _ _ _ _ _ _ _ _ _ _ Hb Hrun).
Qed.

(** " -0x1234z+" read with %hi, and "0xg" with %i. *)
Lemma sscanf_like_strtoll_witness :
  (moqi_vscan 12 (mkTape (str " -0x1234z+") tt) 7 (room 64 2) (Some (str "%hi")) [64] = Some (1, mkTape (str "z+") tt, 7, write_bytes ∅ 64 [0xcc; 0xed]) /\
   vsscanf tt 7 (room 64 2) (Some (str " -0x1234z+")) (Some (str "%hi")) [64] = Some (1, tt, 7, write_bytes ∅ 64 [0xcc; 0xed])) /\
  (moqi_vscan 5 (mkTape (str "0xg") tt) 7 (room 64 4) (Some (str "%i")) [64] = Some (0, mkTape (str "g") tt, 7, room 64 4) /\
   vsscanf tt 7 (room 64 4) (Some (str "0xg")) (Some (str "%i")) [64] = Some (0, tt, 7, room 64 4)).
Proof.
  split.
  - apply (proj1 (sscanf_like_strtoll tt 7 (room 64 2) (str " -0x1234z+") (str "h") 2 (chr "i") 64 ltac:(right; left) ltac:(right; left) ltac:(repeat constructor; by vm_compute)) true 16 (str "1234") 8 _ (-0x1234) (Some 8) 7).
    + exists [chr " "], [chr "-"], (str "0x"), (str "z+"). split_and!; try by vm_compute.
      * repeat constructor.
      * constructor.
      * apply radix_hex. split_and!; [by left|done|by left|by vm_compute].
      * repeat constructor; by vm_compute.
    + intros rest (ws & sg & neg & c & eff & Htext & Hws & Hsg & Hl & Hd). destruct ws as [|w ws].
      { destruct Hsg; discriminate Htext. }
      injection Htext as <- Htext. destruct ws as [|w ws].
      { destruct Hsg; try discriminate Htext. injection Htext as <- <-. destruct Hl as [(_ & _ & ->)|(_ & Hl & _)]; [vm_compute in Hd; by apply Hd|discriminate Hl]. }
      injection Htext as <- _. apply Forall_cons in Hws as [_ Hws]. apply Forall_cons in Hws as [Hw _]. discriminate Hw.
    + by vm_compute.
    + by vm_compute.
  - apply (proj2 (sscanf_like_strtoll tt 7 (room 64 4) (str "0xg") [] 4 (chr "i") 64 ltac:(left) ltac:(right; left) ltac:(repeat constructor; by vm_compute)) (str "g")).
    exists [], [], false, (chr "x"), 16. split_and!; [done|constructor|constructor|left; split_and!; [by left|done..]|by vm_compute].
Defined.

(** C18. sscanf reads decimal numbers correctly rounded: for a text that starts
    with a decimal number of at most 95 bytes, %lf stores the bits of the nearest
    double and %f those of the nearest float, ties to even, and likewise the
    other floating-point conversions; errno is what [correctly_rounded] asks of
    strtod (ERANGE for an overflow and for a nonzero number that rounds to zero,
    unchanged for zero and above the smallest normal number), and what follows
    the number is not taken. *)
Theorem sscanf_correctly_rounded {H} `{ScanHeap H} (h : H) errno m text mods f size conv neg c e rest p :
  (mods, (f, size)) ∈ float_modifiers -> conv ∈ float_convs -> text_bytes_ok text -> decimal_text text neg c e rest -> len text - len rest <= 95 ->
  exists bits err, correctly_rounded f neg c e rest errno (bits, rest, err) /\ forall m', store_le m p size bits = Some m' ->
    moqi_vscan (length text + 2) (mkTape text h) errno m (Some (chr "%" :: mods ++ [conv])) [p] = Some (1, mkTape rest h, err, m') /\
    vsscanf h errno m (Some text) (Some (chr "%" :: mods ++ [conv])) [p] = Some (1, h, err, m').
Proof.
  intros Hm Hc Hb Ht Hlen. destruct (scan_decimal h errno m text mods f size conv neg c e rest p Hm Hc Hb Ht Hlen) as (bits & err & Hround & Hrun).
  exists bits, err. split; [done|]. intros m' Hst. specialize (Hrun m' Hst). split; [done|]. by apply (vsscanf_tape _ _ _ _ _ _ _ _ _ _ Hb Hrun).
Qed.

Lemma sscanf_correctly_rounded_witness :
  exists bits err, correctly_rounded DOUBLE_FMT true 125 0 (str ";") 0 (bits, str ";", err) /\ forall m', store_le (room 64 8) 64 8 bits = Some m' ->
    moqi_vscan 12 (mkTape (str " -1.25e+2;") tt) 0 (room 64 8) (Some (str "%lf")) [64] = Some (1, mkTape (str ";") tt, err, m') /\
    vsscanf tt 0 (room 64 8) (Some (str " -1.25e+2;")) (Some (str "%lf")) [64] = Some (1, tt, err, m').
Proof.
  apply (sscanf_correctly_rounded tt 0 (room 64 8) (str " -1.25e+2;") (str "l") DOUBLE_FMT 8 (chr "f") true 125 0 (str ";") 64).
  - right. left.
  - right. right. left.
  - repeat constructor; by vm_compute.
  - exact sample_text.
  - cbn. lia.
Defined.
