(* ===== verification/Getopt.v ===== *)
(** * getopt (lib/moqi_libc/src/getopt.c)

    The variables of the module, those the program sees and those it does not,
    are the fields of [go]; the strings of [argv] are lists of bytes, and a
    pointer into one of them ([optarg], [nextchar]) is the rest of it.  The
    [int]s that the table of long options and [longind] point to are kept in
    [g_ints], the lines written to standard error in [g_err].  A read outside
    [argv] is a fault ([None]). *)

From S2P Require Import Prelude Mem.

Inductive ordering_t := REQUIRE_ORDER | PERMUTE | RETURN_IN_ORDER.

(** [struct option]; a [flag] of 0 is NULL. *)
Record long_option := mkLong { o_name : list Z; o_has_arg : Z; o_flag : Z; o_val : Z }.

Record go := mkGo {
  g_argv : list (list Z);
  g_optarg : option (list Z);
  g_optind : Z;
  g_opterr : Z;
  g_optopt : Z;
  g_initialized : bool;
  g_first_nonopt : Z;
  g_last_nonopt : Z;
  g_ordering : ordering_t;
  g_nextchar : option (list Z);
  g_st_optopt : Z;
  g_ints : gmap Z Z;
  g_err : list (list Z) }.

Definition set_argv (a : list (list Z)) (g : go) : go := mkGo a (g_optarg g) (g_optind g) (g_opterr g) (g_optopt g) (g_initialized g) (g_first_nonopt g) (g_last_nonopt g) (g_ordering g) (g_nextchar g) (g_st_optopt g) (g_ints g) (g_err g).
Definition set_optarg (a : option (list Z)) (g : go) : go := mkGo (g_argv g) a (g_optind g) (g_opterr g) (g_optopt g) (g_initialized g) (g_first_nonopt g) (g_last_nonopt g) (g_ordering g) (g_nextchar g) (g_st_optopt g) (g_ints g) (g_err g).
Definition set_optind (i : Z) (g : go) : go := mkGo (g_argv g) (g_optarg g) i (g_opterr g) (g_optopt g) (g_initialized g) (g_first_nonopt g) (g_last_nonopt g) (g_ordering g) (g_nextchar g) (g_st_optopt g) (g_ints g) (g_err g).
Definition set_optopt (c : Z) (g : go) : go := mkGo (g_argv g) (g_optarg g) (g_optind g) (g_opterr g) c (g_initialized g) (g_first_nonopt g) (g_last_nonopt g) (g_ordering g) (g_nextchar g) (g_st_optopt g) (g_ints g) (g_err g).
Definition set_st_optopt (c : Z) (g : go) : go := mkGo (g_argv g) (g_optarg g) (g_optind g) (g_opterr g) (g_optopt g) (g_initialized g) (g_first_nonopt g) (g_last_nonopt g) (g_ordering g) (g_nextchar g) c (g_ints g) (g_err g).
Definition set_nonopts (first last : Z) (g : go) : go := mkGo (g_argv g) (g_optarg g) (g_optind g) (g_opterr g) (g_optopt g) (g_initialized g) first last (g_ordering g) (g_nextchar g) (g_st_optopt g) (g_ints g) (g_err g).
Definition set_nextchar (n : option (list Z)) (g : go) : go := mkGo (g_argv g) (g_optarg g) (g_optind g) (g_opterr g) (g_optopt g) (g_initialized g) (g_first_nonopt g) (g_last_nonopt g) (g_ordering g) n (g_st_optopt g) (g_ints g) (g_err g).
(** [ordering = o; initialized = 1] *)
Definition set_ordering (o : ordering_t) (g : go) : go := mkGo (g_argv g) (g_optarg g) (g_optind g) (g_opterr g) (g_optopt g) true (g_first_nonopt g) (g_last_nonopt g) o (g_nextchar g) (g_st_optopt g) (g_ints g) (g_err g).
Definition set_int (a v : Z) (g : go) : go := mkGo (g_argv g) (g_optarg g) (g_optind g) (g_opterr g) (g_optopt g) (g_initialized g) (g_first_nonopt g) (g_last_nonopt g) (g_ordering g) (g_nextchar g) (g_st_optopt g) (<[a := v]> (g_ints g)) (g_err g).
Definition add_err (l : list Z) (g : go) : go := mkGo (g_argv g) (g_optarg g) (g_optind g) (g_opterr g) (g_optopt g) (g_initialized g) (g_first_nonopt g) (g_last_nonopt g) (g_ordering g) (g_nextchar g) (g_st_optopt g) (g_ints g) (g_err g ++ [l]).

(** [optopt = st_optopt = c] *)
Definition fail_with (c : Z) (g : go) : go := set_optopt c (set_st_optopt c g).

Definition arg_at (argv : list (list Z)) (i : Z) : option (list Z) := if i <? 0 then None else argv !! Z.to_nat i.

(** [NONOPTION_P] *)
Definition nonoption (a : list Z) : bool := negb (peek a =? chr "-") || (peek_at a 1 =? 0).

(** ** Moving the non-options behind the options *)

Definition swap (argv : list (list Z)) (i j : Z) : option (list (list Z)) :=
  tem ← arg_at argv i; x ← arg_at argv j; Some (<[Z.to_nat j := tem]> (<[Z.to_nat i := x]> argv)).

(** [for (int i = 0; i < n; i++)], the elements at [a + i] and [b + i]. *)
Fixpoint swap_loop (n : nat) (argv : list (list Z)) (a b : Z) : option (list (list Z)) :=
  match n with
  | 0%nat => Some argv
  | S n => argv ← swap argv a b; swap_loop n argv (a + 1) (b + 1)
  end.

Fixpoint exchange_loop (fuel : nat) (argv : list (list Z)) (bottom middle top : Z) : option (list (list Z)) :=
  if (middle <? top) && (bottom <? middle) then
    match fuel with
    | 0%nat => None
    | S fuel =>
        if middle - bottom <? top - middle then
          let n := middle - bottom in
          argv ← swap_loop (Z.to_nat n) argv bottom (top - (middle - bottom));
          exchange_loop fuel argv bottom middle (top - n)
        else
          let n := top - middle in
          argv ← swap_loop (Z.to_nat n) argv bottom middle;
          exchange_loop fuel argv (bottom + n) middle top
    end
  else Some argv.

(** Every round shortens the range. *)
Definition go_exchange (g : go) : option go :=
  argv ← exchange_loop (Z.to_nat (g_optind g - g_first_nonopt g)) (g_argv g) (g_first_nonopt g) (g_last_nonopt g) (g_optind g);
  Some (set_nonopts (g_first_nonopt g + (g_optind g - g_last_nonopt g)) (g_optind g) (set_argv argv g)).

(** The rest of [s] from the first [c] on. *)
Fixpoint go_strchr (s : list Z) (c : Z) : option (list Z) :=
  match s with
  | [] => None
  | x :: s' => if x =? c then Some s else go_strchr s' c
  end.

(** ** Diagnostics *)

(** The room of [struct go_msg], less the newline. *)
Definition MSG_ROOM : Z := 510.

Fixpoint msg_add (m s : list Z) : list Z :=
  match s with
  | [] => m
  | c :: s => if len m <? MSG_ROOM then msg_add (m ++ [c]) s else m
  end.

Definition msg_addc (m : list Z) (c : Z) : list Z := if len m <? MSG_ROOM then m ++ [c] else m.

(** The newline and the write; the message is faulty when it does not fit its buffer. *)
Definition msg_flush (m : list Z) (g : go) : option go := if len m <? 512 then Some (add_err (m ++ [10]) g) else None.

Definition go_report (prog : list Z) (what : string) (c : Z) (g : go) : option go :=
  let m := msg_add [] prog in
  let m := msg_add m (str ": ") in
  let m := msg_add m (str what) in
  let m := msg_add m (str " -- '") in
  let m := msg_addc m c in
  let m := msg_addc m 39 in
  msg_flush m g.

Definition go_report_long (prog prefix name : list Z) (what : string) (g : go) : option go :=
  let m := msg_add [] prog in
  let m := msg_add m (str ": ") in
  let m :=
    if peek (str what) =? chr "u" then
      let m := msg_add m (str what) in
      let m := msg_add m (str " '") in
      let m := msg_add m prefix in
      let m := msg_add m name in
      msg_addc m 39
    else
      let m := msg_add m (str "option '") in
      let m := msg_add m prefix in
      let m := msg_add m name in
      let m := msg_add m (str "' ") in
      msg_add m (str what) in
  msg_flush m g.

(** ** Long options *)

Fixpoint go_strncmp (a b : list Z) (n : nat) : Z :=
  match n with
  | 0%nat => 0
  | S n => if negb (peek a =? peek b) then peek a - peek b else if peek a =? 0 then 0 else go_strncmp (tail a) (tail b) n
  end.

Definition go_strlen (s : list Z) : Z := len s.

Definition is_prefix_match (p : long_option) (text : list Z) (n : nat) : bool := go_strncmp (o_name p) text n =? 0.

(** The text from the first [=] on. *)
Fixpoint name_end (text : list Z) : list Z :=
  match text with
  | [] => []
  | c :: text' => if c =? chr "=" then text else name_end text'
  end.

Fixpoint find_exact (lo : list long_option) (text : list Z) (namelen : nat) (i : Z) : option (Z * long_option) :=
  match lo with
  | [] => None
  | p :: lo =>
      if is_prefix_match p text namelen && (Z.of_nat namelen =? go_strlen (o_name p)) then Some (i, p)
      else find_exact lo text namelen (i + 1)
  end.

(** [pfound->has_arg != p->has_arg || pfound->flag != p->flag || pfound->val != p->val] *)
Definition differ (p q : long_option) : bool := negb (o_has_arg p =? o_has_arg q) || negb (o_flag p =? o_flag q) || negb (o_val p =? o_val q).

(** The first abbreviation, and whether there is another that differs from it. *)
Fixpoint find_abbrev (lo : list long_option) (text : list Z) (namelen : nat) (long_only : bool) (i : Z) (found : option (Z * long_option)) (amb : bool) : option (Z * long_option) * bool :=
  match lo with
  | [] => (found, amb)
  | p :: lo =>
      let '(found, amb) :=
        if negb (is_prefix_match p text namelen) then (found, amb)
        else match found with
             | None => (Some (i, p), amb)
             | Some (_, q) => (found, amb || long_only || differ q p)
             end in
      find_abbrev lo text namelen long_only (i + 1) found amb
  end.

Fixpoint possibilities (lo : list long_option) (text prefix : list Z) (namelen : nat) (long_only : bool) (first : option long_option) (m : list Z) : list Z :=
  match lo with
  | [] => m
  | p :: lo =>
      if negb (is_prefix_match p text namelen) then possibilities lo text prefix namelen long_only first m
      else
        let show := match first with None => true | Some q => long_only || differ q p end in
        let m := if show then msg_addc (msg_add (msg_add (msg_add m (str " '")) prefix) (o_name p)) 39 else m in
        possibilities lo text prefix namelen long_only (match first with None => Some p | Some _ => first end) m
  end.

Definition report_ambiguous (prog prefix text : list Z) (lo : list long_option) (namelen : nat) (long_only : bool) (g : go) : option go :=
  let m := msg_add [] prog in
  let m := msg_add m (str ": option '") in
  let m := msg_add m prefix in
  let m := msg_add m text in
  let m := msg_add m (str "' is ambiguous; possibilities:") in
  msg_flush (possibilities lo text prefix namelen long_only None m) g.

(** [if (print_errors) ...] *)
Definition when (b : bool) (f : go -> option go) (g : go) : option go := if b then f g else Some g.

(** The missing argument of an option: ':' when the option string starts with it. *)
Definition missing (os : list Z) : Z := if peek os =? chr ":" then chr ":" else chr "?".

(** A long option that was found, at index [i] of the table. *)
Definition take_long (argc : Z) (os : list Z) (prog prefix nameend : list Z) (i : Z) (p : long_option) (longind : Z) (print_errors : bool) (g : go) : option (Z * go) :=
  let g := set_nextchar None (set_optind (g_optind g + 1) g) in
  let found g := Some (if negb (o_flag p =? 0) then (0, set_int (o_flag p) (o_val p) (if longind =? 0 then g else set_int longind i g))
                       else (o_val p, if longind =? 0 then g else set_int longind i g)) in
  if negb (peek nameend =? 0) then
    if negb (o_has_arg p =? 0) then found (set_optarg (Some (tail nameend)) g)
    else g ← when print_errors (go_report_long prog prefix (o_name p) "doesn't allow an argument") g; Some (chr "?", fail_with (o_val p) g)
  else if o_has_arg p =? 1 then
    if g_optind g <? argc then a ← arg_at (g_argv g) (g_optind g); found (set_optind (g_optind g + 1) (set_optarg (Some a) g))
    else g ← when print_errors (go_report_long prog prefix (o_name p) "requires an argument") g; Some (missing os, fail_with (o_val p) g)
  else found g.

(** The result, -1 when the text is a cluster of short options after all. *)
Definition process_long_option (argc : Z) (os : list Z) (lo : list long_option) (longind : Z) (long_only print_errors : bool) (prefix : list Z) (g : go) : option (Z * go) :=
  text ← g_nextchar g;
  prog ← arg_at (g_argv g) 0;
  let nameend := name_end text in
  let namelen := (length text - length nameend)%nat in
  match find_exact lo text namelen 0 with
  | Some (i, p) => take_long argc os prog prefix nameend i p longind print_errors g
  | None =>
      let '(found, amb) := find_abbrev lo text namelen long_only 0 None false in
      if amb then
        g ← when print_errors (report_ambiguous prog prefix text lo namelen long_only) g;
        Some (chr "?", fail_with 0 (set_optind (g_optind g + 1) (set_nextchar (Some []) g)))
      else match found with
      | Some (i, p) => take_long argc os prog prefix nameend i p longind print_errors g
      | None =>
          short ← (if negb long_only then Some false
                   else a ← arg_at (g_argv g) (g_optind g);
                        Some (negb (peek_at a 1 =? chr "-") && match go_strchr os (peek text) with Some _ => true | None => false end));
          if negb short then
            g ← when print_errors (go_report_long prog prefix text "unrecognized option") g;
            Some (chr "?", fail_with 0 (set_optind (g_optind g + 1) (set_nextchar None g)))
          else Some (-1, g)
      end
  end.

(** ** The scan *)

(** The first call, or the first one after the program set [optind] to 0; the option string without its leading sign. *)
Definition start_scan (posix : bool) (os : list Z) (g : go) : list Z * go :=
  let signed := (peek os =? chr "-") || (peek os =? chr "+") in
  let os' := if signed then tail os else os in
  if (g_optind g =? 0) || negb (g_initialized g) then
    let g := if g_optind g =? 0 then set_optind 1 g else g in
    let g := set_nextchar None (set_nonopts (g_optind g) (g_optind g) g) in
    let o := if peek os =? chr "-" then RETURN_IN_ORDER else if peek os =? chr "+" then REQUIRE_ORDER
             else if posix then REQUIRE_ORDER else PERMUTE in
    (os', set_ordering o g)
  else (os', g).

(** [while (optind < argc && NONOPTION_P(argv, optind)) optind++] *)
Fixpoint skip_nonoptions (fuel : nat) (argc : Z) (argv : list (list Z)) (i : Z) : option Z :=
  if i <? argc then
    a ← arg_at argv i;
    if nonoption a then match fuel with 0%nat => None | S fuel => skip_nonoptions fuel argc argv (i + 1) end else Some i
  else Some i.

Definition permute (argc : Z) (g : go) : option go :=
  g ← (if negb (g_first_nonopt g =? g_last_nonopt g) && negb (g_last_nonopt g =? g_optind g) then go_exchange g
       else Some (if negb (g_last_nonopt g =? g_optind g) then set_nonopts (g_optind g) (g_last_nonopt g) g else g));
  i ← skip_nonoptions (length (g_argv g)) argc (g_argv g) (g_optind g);
  Some (set_nonopts (g_first_nonopt g) i (set_optind i g)).

(** The element "--" at [optind]. *)
Definition end_marker (argc : Z) (g : go) : option bool :=
  if g_optind g =? argc then Some false
  else a ← arg_at (g_argv g) (g_optind g); Some ((peek a =? chr "-") && (peek_at a 1 =? chr "-") && (peek_at a 2 =? 0)).

Definition skip_marker (argc : Z) (g : go) : option go :=
  let g := set_optind (g_optind g + 1) g in
  g ← (if negb (g_first_nonopt g =? g_last_nonopt g) && negb (g_last_nonopt g =? g_optind g) then go_exchange g
       else Some (if g_first_nonopt g =? g_last_nonopt g then set_nonopts (g_optind g) (g_last_nonopt g) g else g));
  Some (set_optind argc (set_nonopts (g_first_nonopt g) argc g)).

(** The element at [optind]: a result, or a cluster of short options to go on with. *)
Definition element_at (argc : Z) (os : list Z) (lo : option (list long_option)) (longind : Z) (long_only print_errors : bool) (g : go) : option (Z * go + go) :=
  marker ← end_marker argc g;
  g ← (if (marker : bool) then skip_marker argc g else Some g);
  if g_optind g =? argc then
    let g := if negb (g_first_nonopt g =? g_last_nonopt g) then set_optind (g_first_nonopt g) g else g in
    Some (inl (-1, set_optopt (g_st_optopt g) g))
  else
  a ← arg_at (g_argv g) (g_optind g);
  if nonoption a then
    match g_ordering g with
    | REQUIRE_ORDER => Some (inl (-1, set_optopt (g_st_optopt g) g))
    | _ => Some (inl (1, set_optopt (g_st_optopt g) (set_optind (g_optind g + 1) (set_optarg (Some a) g))))
    end
  else
  let cluster := set_nextchar (Some (tail a)) in
  match lo with
  | None => Some (inr (cluster g))
  | Some lo =>
      if peek_at a 1 =? chr "-" then
        r ← process_long_option argc os lo longind long_only print_errors (str "--") (set_nextchar (Some (drop 2 a)) g); Some (inl r)
      else if long_only && (negb (peek_at a 2 =? 0) || match go_strchr os (peek_at a 1) with None => true | Some _ => false end) then
        '(code, g) ← process_long_option argc os lo longind long_only print_errors (str "-") (set_nextchar (Some (tail a)) g);
        Some (if negb (code =? -1) then inl (code, g) else inr (cluster g))
      else Some (inr (cluster g))
  end.

Definition next_element (argc : Z) (os : list Z) (lo : option (list long_option)) (longind : Z) (long_only print_errors : bool) (g : go) : option (Z * go + go) :=
  let g := if g_optind g <? g_last_nonopt g then set_nonopts (g_first_nonopt g) (g_optind g) g else g in
  let g := if g_optind g <? g_first_nonopt g then set_nonopts (g_optind g) (g_last_nonopt g) g else g in
  g ← (match g_ordering g with PERMUTE => permute argc g | _ => Some g end);
  element_at argc os lo longind long_only print_errors g.

(** The argument of a short option: the rest of the element, the next element, or none. *)
Definition short_argument (argc : Z) (os : list Z) (prog : list Z) (c : Z) (optional print_errors : bool) (rest : list Z) (g : go) : option (Z * go) :=
  '(ret, g) ←
    (if negb (peek rest =? 0) then Some (c, set_optind (g_optind g + 1) (set_optarg (Some rest) g))
     else if optional then Some (c, set_optarg None g)
     else if g_optind g =? argc then
       g ← when print_errors (go_report prog "option requires an argument" c) g; Some (missing os, set_st_optopt c g)
     else a ← arg_at (g_argv g) (g_optind g); Some (c, set_optind (g_optind g + 1) (set_optarg (Some a) g)));
  Some (ret, set_nextchar None g).

(** The next character of a cluster. *)
Definition short_option (argc : Z) (os : list Z) (lo : option (list long_option)) (longind : Z) (print_errors : bool) (g : go) : option (Z * go) :=
  prog ← arg_at (g_argv g) 0;
  match g_nextchar g with
  | None | Some [] => None
  | Some (c :: rest) =>
      let temp := go_strchr os c in
      let g := set_nextchar (Some rest) g in
      let g := if peek rest =? 0 then set_optind (g_optind g + 1) g else g in
      match (if (c =? chr ":") || (c =? chr ";") then None else temp) with
      | None => g ← when print_errors (go_report prog "invalid option" c) g; Some (chr "?", fail_with c g)
      | Some temp =>
          match (if (peek temp =? chr "W") && (peek_at temp 1 =? chr ";") then lo else None) with
          | Some lo =>
              if (peek rest =? 0) && (g_optind g =? argc) then
                g ← when print_errors (go_report prog "option requires an argument" c) g; Some (missing os, fail_with c g)
              else
                text ← (if negb (peek rest =? 0) then Some rest else arg_at (g_argv g) (g_optind g));
                process_long_option argc os lo longind false print_errors (str "-W ") (set_optarg None (set_nextchar (Some text) g))
          | None =>
              if peek_at temp 1 =? chr ":" then
                '(ret, g) ← short_argument argc os prog c (peek_at temp 2 =? chr ":") print_errors rest g;
                Some (ret, set_optopt (g_st_optopt g) g)
              else Some (c, set_optopt (g_st_optopt g) g)
          end
      end
  end.

Definition getopt_scan (posix : bool) (argc : Z) (os : list Z) (lo : option (list long_option)) (longind : Z) (long_only : bool) (g : go) : option (Z * go) :=
  let g := set_optarg None g in
  if argc <? 1 then Some (-1, g) else
  let print_errors := negb (g_opterr g =? 0) in
  let '(os, g) := start_scan posix os g in
  let print_errors := print_errors && negb (peek os =? chr ":") in
  r ← (match g_nextchar g with
       | None | Some [] => next_element argc os lo longind long_only print_errors g
       | Some _ => Some (inr g)
       end);
  match r with
  | inl r => Some r
  | inr g => short_option argc os lo longind print_errors g
  end.

(** [posix]: whether POSIXLY_CORRECT is in the environment. *)
Definition getopt_internal (posix : bool) (argc : Z) (os : list Z) (lo : option (list long_option)) (longind : Z) (long_only : bool) (g : go) : option (Z * go) :=
  '(r, g) ← getopt_scan posix argc os lo longind long_only g;
  Some (r, set_optopt (g_st_optopt g) g).

Definition getopt (posix : bool) (argc : Z) (os : list Z) (g : go) : option (Z * go) := getopt_internal posix argc os None 0 false g.
Definition getopt_long (posix : bool) (argc : Z) (os : list Z) (lo : list long_option) (longind : Z) (g : go) : option (Z * go) := getopt_internal posix argc os (Some lo) longind false g.
Definition getopt_long_only (posix : bool) (argc : Z) (os : list Z) (lo : list long_option) (longind : Z) (g : go) : option (Z * go) := getopt_internal posix argc os (Some lo) longind true g.
