(* ===== verification/GetoptSpec.v ===== *)
(** * What getopt does to argv, and its messages

    [go_exchange] rotates a segment of [argv]; a message is its text cut to the
    room of its buffer; a long option is chosen by its name or by a prefix of
    it. *)

From S2P Require Import Prelude Mem Getopt.

(** ** The exchange *)

Lemma arg_at_app (A B : list (list Z)) x i : i = len A -> arg_at (A ++ x :: B) i = Some x.
Proof. intros ->. unfold arg_at. replace (_ <? 0) with false by lia. rewrite Nat2Z.id. by apply list_lookup_middle. Qed.

Lemma insert_app (A B : list (list Z)) x y i : i = len A -> <[Z.to_nat i := y]> (A ++ x :: B) = A ++ y :: B.
Proof. intros ->. rewrite Nat2Z.id, insert_app_r_alt, Nat.sub_diag by lia. done. Qed.

Lemma swap_loop_spec P : forall A M Q B, length P = length Q ->
  swap_loop (length P) (A ++ P ++ M ++ Q ++ B) (len A) (len A + len P + len M) = Some (A ++ Q ++ M ++ P ++ B).
Proof.
  induction P as [|p P IH]; intros A M [|q Q] B Hl; try done. cbn [length swap_loop]. unfold swap. cbn [app]. rewrite (arg_at_app A _ p (len A)) by done. cbn [mbind option_bind].
  replace (A ++ p :: P ++ M ++ q :: Q ++ B) with ((A ++ p :: P ++ M) ++ q :: Q ++ B) by (by rewrite <- !app_assoc; cbn [app]; rewrite <- app_assoc).
  rewrite arg_at_app by (rewrite !length_app; cbn [length]; rewrite length_app; lia). cbn [mbind option_bind]. rewrite <- app_assoc. cbn [app]. rewrite insert_app by done.
  replace (A ++ q :: (P ++ M) ++ q :: Q ++ B) with ((A ++ q :: P ++ M) ++ q :: Q ++ B) by (by rewrite <- !app_assoc; cbn [app]; rewrite <- app_assoc).
  rewrite insert_app by (rewrite !length_app; cbn [length]; rewrite length_app; lia).
  specialize (IH (A ++ [q]) (M ++ [p]) Q B ltac:(cbn in Hl; lia)).
  etransitivity; [|etransitivity; [exact IH|]].
  - f_equal; [|rewrite ?length_app; cbn [length]; lia..]. rewrite <- !app_assoc. cbn [app]. by rewrite <- !app_assoc.
  - f_equal. rewrite <- !app_assoc. by cbn [app].
Qed.

(** The two segments change places, each in its order. *)
Lemma exchange_loop_spec k : forall A X Y B, (length X + length Y <= k)%nat ->
  exchange_loop k (A ++ X ++ Y ++ B) (len A) (len A + len X) (len A + len X + len Y) = Some (A ++ Y ++ X ++ B).
Proof.
  induction k as [|k IH]; intros A X Y B Hk; cbn [exchange_loop].
  { destruct X, Y; cbn in Hk; try lia. by replace (_ && _) with false by (cbn; lia). }
  destruct (_ && _) eqn:E; [|destruct X; [done|destruct Y; [done|cbn [length] in E; lia]]]. cbv zeta. destruct (_ <? _ - _) eqn:E2.
  - set (n := (length Y - length X)%nat). rewrite <- (take_drop n Y). set (Y1 := take n Y). set (Y2 := drop n Y).
    assert (H2 : length X = length Y2) by (subst Y2; rewrite length_drop; lia). assert (H1 : length Y = (length Y1 + length Y2)%nat) by (by rewrite <- length_app; subst Y1 Y2; rewrite take_drop).
    rewrite <- !app_assoc. replace (Z.to_nat (len A + len X - len A)) with (length X) by lia.
    replace (len A + len X + len (Y1 ++ Y2) - (len A + len X - len A)) with (len A + len X + len Y1) by (rewrite length_app; lia).
    rewrite (swap_loop_spec X A Y1 Y2 B H2). cbn [mbind option_bind]. rewrite H2.
    specialize (IH A Y2 Y1 (X ++ B) ltac:(cbn in E; lia)). rewrite <- IH. do 2 f_equal; rewrite ?length_app; lia.
  - rewrite <- (take_drop (length Y) X). set (X1 := take (length Y) X). set (X2 := drop (length Y) X).
    assert (H2 : length X1 = length Y) by (subst X1; rewrite length_take; lia). assert (H1 : length X = (length X1 + length X2)%nat) by (by rewrite <- length_app; subst X1 X2; rewrite take_drop).
    rewrite <- !app_assoc. replace (Z.to_nat (len A + len (X1 ++ X2) + len Y - (len A + len (X1 ++ X2)))) with (length X1) by lia.
    replace (len A + len (X1 ++ X2)) with (len A + len X1 + len X2) by (rewrite length_app; lia).
    rewrite (swap_loop_spec X1 A X2 Y B H2). cbn [mbind option_bind].
    specialize (IH (A ++ Y) X2 X1 B ltac:(cbn in E; lia)). rewrite <- !app_assoc in IH. rewrite <- IH. f_equal; rewrite ?length_app; lia.
Qed.

(** ** Messages *)

(** A message of the library: the text, cut to the room there is, and a newline. *)
Definition clip (t : list Z) : list Z := take (Z.to_nat MSG_ROOM) t.
Definition message (t : list Z) : list Z := clip t ++ [10].

Lemma clip_length t : len (clip t) <= MSG_ROOM.
Proof. unfold clip, MSG_ROOM. rewrite length_take. lia. Qed.

Lemma clip_full t s : MSG_ROOM <= len (clip t) -> clip (t ++ s) = clip t.
Proof. unfold clip, MSG_ROOM. rewrite length_take. intros H. by rewrite take_app_le by lia. Qed.

Lemma clip_room t c : len (clip t) < MSG_ROOM -> clip t ++ [c] = clip (t ++ [c]).
Proof. unfold clip, MSG_ROOM. rewrite length_take. intros H. rewrite !take_ge by (rewrite ?length_app; cbn; lia). done. Qed.

Lemma msg_add_clip s : forall t, msg_add (clip t) s = clip (t ++ s).
Proof.
  induction s as [|c s IH]; intros t; cbn [msg_add]; [by rewrite app_nil_r|]. destruct (_ <? _) eqn:E.
  - rewrite clip_room, IH, <- app_assoc by lia. done.
  - rewrite clip_full by lia. done.
Qed.

Lemma msg_addc_clip t c : msg_addc (clip t) c = clip (t ++ [c]).
Proof. unfold msg_addc. destruct (_ <? _) eqn:E; [by apply clip_room; lia|by rewrite clip_full by lia]. Qed.

Lemma msg_flush_clip t g : msg_flush (clip t) g = Some (add_err (message t) g).
Proof. unfold msg_flush. pose proof (clip_length t). unfold MSG_ROOM in *. by replace (_ <? 512) with true by lia. Qed.

(** From the empty message on. *)
Ltac clips := change (msg_add [] ?p) with (msg_add (clip []) p); repeat first [rewrite msg_add_clip | rewrite msg_addc_clip | rewrite msg_flush_clip]; rewrite <- ?app_assoc; cbn [app].

Definition short_text (prog : list Z) (what : string) (c : Z) : list Z := prog ++ str ": " ++ str what ++ str " -- '" ++ [c; 39].

Lemma go_report_spec prog what c g : go_report prog what c g = Some (add_err (message (short_text prog what c)) g).
Proof. unfold go_report, short_text. cbv zeta. clips. done. Qed.

Definition unknown_text (prog prefix name : list Z) : list Z := prog ++ str ": unrecognized option '" ++ prefix ++ name ++ [39].
Definition long_text (prog prefix name : list Z) (what : string) : list Z := prog ++ str ": option '" ++ prefix ++ name ++ str "' " ++ str what.

Lemma report_unknown_spec prog prefix name g : go_report_long prog prefix name "unrecognized option" g = Some (add_err (message (unknown_text prog prefix name)) g).
Proof. unfold go_report_long, unknown_text. cbv zeta. change (peek (str "unrecognized option") =? chr "u") with true. clips. reflexivity. Qed.

Lemma report_long_spec prog prefix name what g : peek (str what) <> chr "u" -> go_report_long prog prefix name what g = Some (add_err (message (long_text prog prefix name what)) g).
Proof. intros Hu. unfold go_report_long, long_text. cbv zeta. replace (_ =? chr "u") with false by lia. clips. done. Qed.

(** ** Long options *)

(** The names given in full or cut. *)
Definition has_name (name : list Z) (p : long_option) : bool := bool_decide (o_name p = name).
Definition abbreviates (name : list Z) (p : long_option) : bool := bool_decide (name `prefix_of` o_name p).

(** The options that [name] abbreviates, with their indices from [i] on. *)
Fixpoint abbreviated (name : list Z) (lo : list long_option) (i : Z) : list (Z * long_option) :=
  match lo with
  | [] => []
  | p :: lo => (if abbreviates name p then [(i, p)] else []) ++ abbreviated name lo (i + 1)
  end.

Inductive choice := Chosen (i : Z) (p : long_option) | Ambiguous | NoSuch.

(** The option with that name, or the one it abbreviates; several that mean the same are as good as one. *)
Definition choose (lo : list long_option) (name : list Z) : choice :=
  match list_find (fun p => has_name name p = true) lo with
  | Some (i, p) => Chosen (Z.of_nat i) p
  | None =>
      match abbreviated name lo 0 with
      | [] => NoSuch
      | (i, p) :: l => if existsb (fun q => differ p q.2) l then Ambiguous else Chosen i p
      end
  end.

(** Bytes of a C string. *)
Abbreviation cstring := (Forall (fun c : Z => 0 < c < 256)).

Lemma go_strncmp_prefix n : forall a t, cstring a -> cstring (take n t) -> (n <= length t)%nat -> (go_strncmp a t n =? 0) = bool_decide (take n t `prefix_of` a).
Proof.
  induction n as [|n IH]; intros a t Ha Ht Hn; cbn [go_strncmp take]; [by rewrite bool_decide_eq_true_2 by apply prefix_nil|].
  destruct t as [|c t]; [cbn in Hn; lia|]. cbn [firstn] in *. apply Forall_cons in Ht as [Hc Ht]. cbn [peek tail]. destruct a as [|x a].
  - cbn [peek]. replace (0 =? c) with false by lia. cbn [negb]. replace (0 - c =? 0) with false by lia. symmetry. apply bool_decide_eq_false_2. by intros [k Hk].
  - apply Forall_cons in Ha as [Hx Ha]. cbn [peek tail]. destruct (x =? c) eqn:E; cbn [negb].
    + assert (x = c) as -> by lia. replace (c =? 0) with false by lia. rewrite IH by (done || cbn in Hn; lia). apply bool_decide_ext. split; [by apply prefix_cons|by apply prefix_cons_inv_2].
    + replace (x - c =? 0) with false by lia. symmetry. apply bool_decide_eq_false_2. intros Hp. apply prefix_cons_inv_1 in Hp. lia.
Qed.

Lemma name_end_suffix text : name_end text `suffix_of` text.
Proof. induction text as [|c text IH]; [done|]. cbn [name_end]. destruct (_ =? _); [done|by apply suffix_cons_r]. Qed.

Section Names.
Context (text : list Z) (n : nat) (Htext : cstring text) (Hn : (n <= length text)%nat).

Abbreviation name := (take n text).
Abbreviation table lo := (Forall (fun p => cstring (o_name p)) lo).

Lemma prefix_match_spec p : cstring (o_name p) -> is_prefix_match p text n = abbreviates name p.
Proof. intros Hp. apply go_strncmp_prefix; [done|by apply Forall_take|done]. Qed.

Lemma exact_match_spec p : cstring (o_name p) -> is_prefix_match p text n && (Z.of_nat n =? go_strlen (o_name p)) = has_name name p.
Proof.
  intros Hp. rewrite prefix_match_spec by done. unfold abbreviates, has_name, go_strlen. case_bool_decide as Hpre; cbn [andb].
  - destruct (Z.of_nat n =? len (o_name p)) eqn:E; symmetry; [apply bool_decide_eq_true_2|apply bool_decide_eq_false_2].
    + destruct Hpre as [k Hk]. rewrite Hk in E |- *. rewrite length_app, length_take in E. destruct k; [by rewrite app_nil_r|cbn in E; lia].
    + intros Heq. rewrite Heq, length_take in E. lia.
  - symmetry. apply bool_decide_eq_false_2. intros Heq. apply Hpre. by rewrite Heq.
Qed.

Lemma find_exact_spec lo : table lo -> forall i, find_exact lo text n i = (fun x => (i + Z.of_nat x.1, x.2)) <$> list_find (fun p => has_name name p = true) lo.
Proof.
  induction 1 as [|p lo Hp _ IH]; intros i; cbn [find_exact list_find]; [done|]. rewrite exact_match_spec by done. case_decide as E.
  - rewrite E. cbn. do 2 f_equal. lia.
  - rewrite (not_true_is_false _ E), IH. destruct (list_find _ lo) as [[j q]|]; [|done]. cbn. do 2 f_equal. lia.
Qed.

Lemma find_abbrev_more lo : table lo -> forall i j q amb,
  find_abbrev lo text n false i (Some (j, q)) amb = (Some (j, q), amb || existsb (fun x => differ q x.2) (abbreviated name lo i)).
Proof.
  induction 1 as [|p lo Hp _ IH]; intros i j q amb; cbn [find_abbrev abbreviated existsb]; [by rewrite orb_false_r|]. rewrite prefix_match_spec by done.
  destruct (abbreviates name p); cbn [negb app existsb snd]; rewrite IH; [|done]. by rewrite orb_false_r, orb_assoc.
Qed.

Lemma find_abbrev_spec lo : table lo -> forall i, find_abbrev lo text n false i None false =
  match abbreviated name lo i with [] => (None, false) | (j, p) :: l => (Some (j, p), existsb (fun x => differ p x.2) l) end.
Proof.
  induction 1 as [|p lo Hp Hlo IH]; intros i; cbn [find_abbrev abbreviated]; [done|]. rewrite prefix_match_spec by done.
  destruct (abbreviates name p); cbn [negb app]; [|by rewrite IH]. by rewrite find_abbrev_more by done.
Qed.

(** The options that an ambiguous name may stand for: the first one and those that differ from it. *)
Definition listed (lo : list long_option) : list long_option :=
  match filter (fun p => abbreviates name p = true) lo with [] => [] | p :: l => p :: filter (fun q => differ p q = true) l end.
Definition listing (prefix : list Z) (l : list long_option) : list Z := concat (map (fun p => str " '" ++ prefix ++ o_name p ++ [39]) l).

Lemma possibilities_more prefix lo : table lo -> forall q t,
  possibilities lo text prefix n false (Some q) (clip t) = clip (t ++ listing prefix (filter (fun p => differ q p = true) (filter (fun p => abbreviates name p = true) lo))).
Proof.
  induction 1 as [|p lo Hp _ IH]; intros q t; cbn [possibilities]; [by rewrite app_nil_r|]. rewrite prefix_match_spec by done.
  destruct (abbreviates name p) eqn:Ea; cbn [negb]; [|rewrite filter_cons_False by (by rewrite Ea); by rewrite IH]. rewrite filter_cons_True by done.
  cbn [orb]. destruct (differ q p) eqn:Ed; [|rewrite filter_cons_False by (by rewrite Ed); by rewrite IH]. rewrite filter_cons_True by done. repeat first [rewrite msg_add_clip | rewrite msg_addc_clip]. rewrite IH. f_equal. unfold listing. cbn [map concat]. by rewrite <- !app_assoc.
Qed.

Lemma possibilities_spec prefix lo : table lo -> forall t, possibilities lo text prefix n false None (clip t) = clip (t ++ listing prefix (listed lo)).
Proof.
  induction 1 as [|p lo Hp Hlo IH]; intros t; cbn [possibilities]; [by rewrite app_nil_r|]. rewrite prefix_match_spec by done. unfold listed.
  destruct (abbreviates name p) eqn:Ea; cbn [negb]; [|rewrite filter_cons_False by (by rewrite Ea); by rewrite IH]. rewrite filter_cons_True by done.
  repeat first [rewrite msg_add_clip | rewrite msg_addc_clip]. rewrite possibilities_more by done. f_equal. unfold listing. cbn [map concat]. by rewrite <- !app_assoc.
Qed.

Definition ambiguous_text (prog prefix : list Z) (lo : list long_option) : list Z :=
  prog ++ str ": option '" ++ prefix ++ text ++ str "' is ambiguous; possibilities:" ++ listing prefix (listed lo).

Lemma report_ambiguous_spec prog prefix lo g : table lo -> report_ambiguous prog prefix text lo n false g = Some (add_err (message (ambiguous_text prog prefix lo)) g).
Proof.
  intros Hlo. unfold report_ambiguous, ambiguous_text. cbv zeta. change (msg_add [] prog) with (msg_add (clip []) prog). rewrite !msg_add_clip, possibilities_spec, msg_flush_clip by done. do 3 f_equal. rewrite <- !app_assoc. done.
Qed.
End Names.
