(* ===== verification/GetoptThms.v ===== *)
(** * getopt against a reference

    A program that calls [getopt] or [getopt_long] until it returns -1 gets the
    options of its command line one by one, and finds [argv] rearranged: the
    options with their arguments first, then the operands.  The reference reads
    the command line once, from left to right, and has no state between calls;
    the theorem says that the calls give what it gives. *)

From S2P Require Import Prelude Mem Getopt GetoptSpec.

(** ** The reference *)

(** What a call returns, [optarg] and [optopt]. *)
Abbreviation event := (Z * option (list Z) * Z)%type.

(** The last faulty option, the lines on standard error, and the integers that the table points to. *)
Record out := mkOut { out_bad : Z; out_err : list (list Z); out_ints : gmap Z Z }.

Definition say (loud : bool) (t : list Z) (o : out) : out := if loud then mkOut (out_bad o) (out_err o ++ [message t]) (out_ints o) else o.
Definition blame (c : Z) (o : out) : out := mkOut c (out_err o) (out_ints o).
Definition put_int (a v : Z) (o : out) : out := if a =? 0 then o else mkOut (out_bad o) (out_err o) (<[a := v]> (out_ints o)).

(** What the option string says of a character. *)
Inductive kind := Unknown | Plain | Required | Optional.

Definition kind_of (os : list Z) (c : Z) : kind :=
  if (c =? chr ":") || (c =? chr ";") then Unknown
  else match go_strchr os c with
       | None => Unknown
       | Some t => if negb (peek_at t 1 =? chr ":") then Plain else if peek_at t 2 =? chr ":" then Optional else Required
       end.

Section Reference.
Context (prog os : list Z) (loud : bool) (lo : option (list long_option)) (longind : Z).

(** The characters of an element such as -abc, in front of the element [next]; the flag is whether that is an argument. *)
Fixpoint cluster (next : option (list Z)) (cl : list Z) (o : out) : list event * bool * out :=
  match cl with
  | [] => ([], false, o)
  | c :: cl' =>
      match kind_of os c with
      | Unknown =>
          let o := blame c (say loud (short_text prog "invalid option" c) o) in
          let '(l, took, o) := cluster next cl' o in ((chr "?", None, c) :: l, took, o)
      | Plain => let '(l, took, o') := cluster next cl' o in ((c, None, out_bad o) :: l, took, o')
      | Optional => ([(c, match cl' with [] => None | _ => Some cl' end, out_bad o)], false, o)
      | Required =>
          match cl', next with
          | _ :: _, _ => ([(c, Some cl', out_bad o)], false, o)
          | [], Some a => ([(c, Some a, out_bad o)], true, o)
          | [], None => ([(missing os, None, c)], false, blame c (say loud (short_text prog "option requires an argument" c) o))
          end
      end
  end.

(** The element --text. *)
Definition long_element (table : list long_option) (next : option (list Z)) (text : list Z) (o : out) : event * bool * out :=
  let rest := name_end text in
  let n := (length text - length rest)%nat in
  match choose table (take n text) with
  | NoSuch => ((chr "?", None, 0), false, blame 0 (say loud (unknown_text prog (str "--") text) o))
  | Ambiguous => ((chr "?", None, 0), false, blame 0 (say loud (ambiguous_text text n prog (str "--") table) o))
  | Chosen i p =>
      let taken := put_int (o_flag p) (o_val p) (put_int longind i o) in
      let ret := if o_flag p =? 0 then o_val p else 0 in
      let fault r what := ((r, None, o_val p), false, blame (o_val p) (say loud (long_text prog (str "--") (o_name p) what) o)) in
      match rest with
      | _ :: value => if o_has_arg p =? 0 then fault (chr "?") "doesn't allow an argument"%string else ((ret, Some value, out_bad o), false, taken)
      | [] =>
          if o_has_arg p =? 1 then
            match next with Some a => ((ret, Some a, out_bad o), true, taken) | None => fault (missing os) "requires an argument"%string end
          else ((ret, None, out_bad o), false, taken)
      end
  end.

Definition element (a : list Z) (next : option (list Z)) (o : out) : list event * bool * out :=
  match lo with
  | Some table =>
      if peek_at a 1 =? chr "-" then let '(e, took, o) := long_element table next (drop 2 a) o in ([e], took, o)
      else cluster next (tail a) o
  | None => cluster next (tail a) o
  end.

(** A command line: the events, the options with their arguments, the operands, and the output. *)
Fixpoint parse (args : list (list Z)) (o : out) : list event * list (list Z) * list (list Z) * out :=
  match args with
  | [] => ([], [], [], o)
  | a :: r =>
      if nonoption a then let '(l, opts, ops, o) := parse r o in (l, opts, a :: ops, o)
      else if bool_decide (a = str "--") then ([], [a], r, o)
      else
        let '(l1, took, o) := element a (head r) o in
        match r with
        | b :: r' =>
            if (took : bool) then let '(l, opts, ops, o) := parse r' o in (l1 ++ l, a :: b :: opts, ops, o)
            else let '(l, opts, ops, o) := parse r o in (l1 ++ l, a :: opts, ops, o)
        | [] => (l1, [a], [], o)
        end
  end.

End Reference.

(** The calls of a program until -1 is returned: at most [n] of them. *)
Fixpoint run_getopt (f : go -> option (Z * go)) (n : nat) (g : go) : option (list event * go) :=
  match n with
  | 0%nat => None
  | S n =>
      '(r, g) ← f g;
      if r =? -1 then Some ([], g)
      else '(l, g') ← run_getopt f n g; Some ((r, g_optarg g, g_optopt g) :: l, g')
  end.

(** The variables before the first call. *)
Definition go_start (argv : list (list Z)) (opterr : Z) (o : out) : go := mkGo argv None 1 opterr 0 false 0 0 PERMUTE None (out_bad o) (out_ints o) (out_err o).

(** ** The simulation *)

Section Simulation.
Context (prog os : list Z) (opterr : Z) (lo : option (list long_option)) (longind : Z) (argc : Z).

Abbreviation loud := (negb (opterr =? 0) && negb (peek os =? chr ":")).
Abbreviation call := (getopt_internal false argc os lo longind false).

Hypothesis os_plain : peek os <> chr "-" /\ peek os <> chr "+".

Definition out_of (g : go) : out := mkOut (g_st_optopt g) (g_err g) (g_ints g).

(** [argv] is the options [D] in their final place, the operands [S] that were
    passed, the options [P] read since, and the rest [R]. *)
Record shape (g : go) (D S P R : list (list Z)) (o : out) : Prop := {
  sh_argv : g_argv g = prog :: D ++ S ++ P ++ R;
  sh_first : g_first_nonopt g = 1 + len D;
  sh_last : g_last_nonopt g = 1 + len D + len S;
  sh_ind : g_optind g = 1 + len D + len S + len P;
  sh_argc : argc = 1 + len D + len S + len P + len R;
  sh_ord : g_ordering g = PERMUTE;
  sh_init : g_initialized g = true;
  sh_opterr : g_opterr g = opterr;
  sh_out : out_of g = o }.

(** Between two elements, and inside a cluster of the element [cur]. *)
Definition between (g : go) (D S P R : list (list Z)) (o : out) : Prop := shape g D S P R o /\ (g_nextchar g = None \/ g_nextchar g = Some []).
Definition inside (g : go) (D S P : list (list Z)) (cur : list Z) (R : list (list Z)) (cl : list Z) (o : out) : Prop := shape g D S P (cur :: R) o /\ g_nextchar g = Some cl /\ cl <> [].

Lemma at_optind g D S P a R o : shape g D S P (a :: R) o -> arg_at (g_argv g) (g_optind g) = Some a.
Proof.
  intros Hs. rewrite (sh_argv _ _ _ _ _ _ Hs), (sh_ind _ _ _ _ _ _ Hs). rewrite app_comm_cons, !app_assoc. apply arg_at_app. rewrite !length_app. cbn [length]. lia.
Qed.

(** *** Passing the operands *)

Fixpoint operands (R : list (list Z)) : list (list Z) * list (list Z) :=
  match R with
  | [] => ([], [])
  | a :: R' => if nonoption a then let '(s, r) := operands R' in (a :: s, r) else ([], R)
  end.

Lemma operands_app R : R = (operands R).1 ++ (operands R).2.
Proof. induction R as [|a R IH]; [done|]. cbn [operands]. destruct (nonoption a); [|done]. destruct (operands R). cbn in *. by rewrite IH at 1. Qed.

Lemma skip_nonoptions_spec R : forall k A, (length R <= k)%nat -> argc = len A + len R -> skip_nonoptions k argc (A ++ R) (len A) = Some (len A + len (operands R).1).
Proof.
  induction R as [|a R IH]; intros k A Hk Ha; cbn [length] in *.
  - destruct k; cbn [skip_nonoptions operands fst length]; replace (_ <? _) with false by lia; f_equal; lia.
  - destruct k as [|k]; [lia|]. cbn [skip_nonoptions operands]. replace (_ <? _) with true by lia. rewrite arg_at_app by done. cbn [mbind option_bind].
    destruct (nonoption a); [|cbn [fst length]; f_equal; lia]. specialize (IH k (A ++ [a]) ltac:(lia) ltac:(rewrite length_app; cbn; lia)). rewrite <- app_assoc in IH. cbn [app] in IH.
    rewrite length_app in IH. cbn [length] in IH. replace (len A + 1) with (Z.of_nat (length A + 1)) by lia. rewrite IH. destruct (operands R). cbn [fst length]. f_equal. lia.
Qed.

Lemma permute_shape g D S P R o : shape g D S P R o ->
  exists g', permute argc g = Some g' /\ shape g' (D ++ P) (S ++ (operands R).1) [] (operands R).2 o /\ g_nextchar g' = g_nextchar g /\ g_optarg g' = g_optarg g.
Proof.
  intros Hs. assert (Hex : exists g1, (if negb (g_first_nonopt g =? g_last_nonopt g) && negb (g_last_nonopt g =? g_optind g) then go_exchange g
       else Some (if negb (g_last_nonopt g =? g_optind g) then set_nonopts (g_optind g) (g_last_nonopt g) g else g)) = Some g1 /\
       g_argv g1 = prog :: (D ++ P) ++ S ++ R /\ g_first_nonopt g1 = 1 + len (D ++ P) /\ g_optind g1 = g_optind g /\ g_ordering g1 = PERMUTE /\ g_initialized g1 = true /\ g_opterr g1 = opterr /\ out_of g1 = o /\
       g_nextchar g1 = g_nextchar g /\ g_optarg g1 = g_optarg g).
  { destruct Hs as [Hargv Hf Hl Hi Hc Ho Hin He Hou]. rewrite Hf, Hl, Hi. rewrite length_app. destruct S as [|s S]; [|destruct P as [|p P]].
    - replace (_ =? 1 + len D + len []) with true by (cbn; lia). cbn [negb andb]. eexists. split; [reflexivity|]. destruct (negb _) eqn:E; cbn [set_nonopts g_argv g_first_nonopt g_optind g_ordering g_initialized g_opterr g_nextchar g_optarg];
        split_and!; try done; first [rewrite Hargv; cbn [app]; by rewrite <- !app_assoc | rewrite ?Hf, ?Hi; cbn [length] in *; lia].
    - replace (1 + len D + len (s :: S) =? _) with true by (cbn; lia). rewrite andb_false_r. cbn [negb]. eexists. split; [reflexivity|]. rewrite app_nil_r. cbn in *. split_and!; done || lia.
    - replace (_ && _) with true by (cbn [length]; lia). unfold go_exchange. rewrite Hargv, Hf, Hl, Hi. change (prog :: D ++ (s :: S) ++ (p :: P) ++ R) with ((prog :: D) ++ (s :: S) ++ (p :: P) ++ R).
      replace (1 + len D) with (len (prog :: D)) by (cbn [length]; lia). rewrite exchange_loop_spec by lia. cbn [mbind option_bind]. eexists. split; [reflexivity|]. cbn [g_argv g_first_nonopt g_optind g_ordering g_initialized g_opterr g_nextchar g_optarg set_nonopts set_argv].
      split_and!; try done; [cbn [app]; by rewrite <- app_assoc|cbn [length]; lia|rewrite Hi; cbn [length]; lia]. }
  destruct Hex as (g1 & Hg1 & Ha1 & Hf1 & Hi1 & Ho1 & Hin1 & He1 & Hou1 & Hn1 & Hoa1). unfold permute. rewrite Hg1. cbn [mbind option_bind]. rewrite Ha1, Hi1, (sh_ind _ _ _ _ _ _ Hs).
  pose proof (sh_argc _ _ _ _ _ _ Hs) as Hc. set (A := prog :: (D ++ P) ++ S). assert (HA : 1 + len D + len S + len P = len A) by (subst A; cbn [length]; rewrite !length_app; lia).
  replace (prog :: (D ++ P) ++ S ++ R) with (A ++ R) by (subst A; cbn [app]; by rewrite <- !app_assoc). rewrite HA, skip_nonoptions_spec by (rewrite ?length_app; lia). cbn [mbind option_bind].
  pose proof (operands_app R) as HR. assert (HlR : len R = len (operands R).1 + len (operands R).2) by (rewrite HR at 1; rewrite length_app; lia).
  eexists. split; [reflexivity|]. split; [|by cbn]. constructor; cbn; rewrite ?length_app in *; try done; try lia. rewrite Ha1. by rewrite HR at 1; rewrite <- !app_assoc.
Qed.

(** *** A call *)

Lemma start_scan_shape g D S P R o : shape g D S P R o -> start_scan false os g = (os, g).
Proof.
  intros Hs. unfold start_scan. rewrite (sh_init _ _ _ _ _ _ Hs), (sh_ind _ _ _ _ _ _ Hs). replace (_ =? 0) with false by lia. destruct os_plain. by replace ((peek os =? 45) || (peek os =? 43)) with false by lia.
Qed.

Lemma shape_optarg g D S P R o a : shape g D S P R o -> shape (set_optarg a g) D S P R o.
Proof. intros []. by constructor. Qed.
Lemma shape_nextchar g D S P R o n : shape g D S P R o -> shape (set_nextchar n g) D S P R o.
Proof. intros []. by constructor. Qed.
Lemma shape_optopt g D S P R o c : shape g D S P R o -> shape (set_optopt c g) D S P R o.
Proof. intros []. by constructor. Qed.

(** The element at hand is done. *)
Lemma shape_next g D S P a R o : shape g D S P (a :: R) o -> shape (set_optind (g_optind g + 1) g) D S (P ++ [a]) R o.
Proof. intros [Ha Hf Hl Hi Hc Ho Hin He Hou]. constructor; cbn; rewrite ?length_app; cbn [length] in *; try done; try lia. by rewrite Ha, <- app_assoc. Qed.

Lemma argc_pos g D S P R o : shape g D S P R o -> 1 <= argc.
Proof. intros Hs. rewrite (sh_argc _ _ _ _ _ _ Hs). lia. Qed.

(** [publish]: what [getopt_internal] does at the end. *)
Definition publish (r : Z * go) : option (Z * go) := Some (r.1, set_optopt (g_st_optopt r.2) r.2).

Lemma call_between g D S P R o : between g D S P R o -> exists g1, shape g1 (D ++ P) (S ++ (operands R).1) [] (operands R).2 o /\ g_optarg g1 = None /\
  call g = (x ← element_at argc os lo longind false loud g1; r ← (match x with inl r => Some r | inr g => short_option argc os lo longind loud g end); publish r).
Proof.
  intros [Hs Hn]. pose proof (shape_optarg _ _ _ _ _ _ None Hs) as Hs0. pose proof (argc_pos _ _ _ _ _ _ Hs). destruct (permute_shape _ _ _ _ _ _ Hs0) as (g1 & Hp & Hs1 & Hn1 & Ha1). exists g1. split; [done|]. split; [done|].
  unfold getopt_internal, getopt_scan. cbv zeta. replace (argc <? 1) with false by lia. rewrite (start_scan_shape _ _ _ _ _ _ Hs0), (sh_opterr _ _ _ _ _ _ Hs0).
  assert (Hnc : g_nextchar (set_optarg None g) = None \/ g_nextchar (set_optarg None g) = Some []) by done.
  assert (Hne : next_element argc os lo longind false loud (set_optarg None g) = element_at argc os lo longind false loud g1).
  { unfold next_element. set (g0 := set_optarg None g) in *. cbv zeta.
    replace (g_optind g0 <? g_last_nonopt g0) with false by (rewrite (sh_ind _ _ _ _ _ _ Hs0), (sh_last _ _ _ _ _ _ Hs0); lia).
    replace (g_optind g0 <? g_first_nonopt g0) with false by (rewrite (sh_ind _ _ _ _ _ _ Hs0), (sh_first _ _ _ _ _ _ Hs0); lia).
    rewrite (sh_ord _ _ _ _ _ _ Hs0), Hp. done. }
  destruct Hnc as [-> | ->]; rewrite Hne; (destruct (element_at _ _ _ _ _ _ _) as [[[r g2]|g2]|]; [done| |done]); cbn [mbind option_bind]; (destruct (short_option _ _ _ _ _ _) as [[r g3]|]; done).
Qed.

Lemma call_inside g D S P cur R cl o : inside g D S P cur R cl o ->
  call g = (r ← short_option argc os lo longind loud (set_optarg None g); publish r).
Proof.
  intros (Hs & Hn & Hcl). pose proof (shape_optarg _ _ _ _ _ _ None Hs) as Hs0. pose proof (argc_pos _ _ _ _ _ _ Hs). unfold getopt_internal, getopt_scan. cbv zeta. replace (argc <? 1) with false by lia.
  rewrite (start_scan_shape _ _ _ _ _ _ Hs0), (sh_opterr _ _ _ _ _ _ Hs0). cbn [set_optarg g_nextchar]. rewrite Hn. destruct cl; [done|]. cbn [mbind option_bind]. destruct (short_option _ _ _ _ _ _) as [[r g3]|]; done.
Qed.

(** *** Short options *)

Hypothesis no_W : lo = None \/ forall t, go_strchr os (chr "W") = Some t -> peek_at t 1 <> chr ";".

Lemma go_strchr_peek s c t : go_strchr s c = Some t -> peek t = c.
Proof. induction s as [|x s IH]; cbn [go_strchr]; [done|]. destruct (x =? c) eqn:E; [intros [= <-]; cbn; lia|done]. Qed.

Lemma no_W_here c t : go_strchr os c = Some t -> (if (peek t =? chr "W") && (peek_at t 1 =? chr ";") then lo else None) = None.
Proof.
  intros Ht. destruct no_W as [->|Hw]; [by destruct (_ && _)|]. destruct (_ && _) eqn:E; [|done]. pose proof (go_strchr_peek _ _ _ Ht) as Hp. assert (c = chr "W") as -> by lia. specialize (Hw t Ht). lia.
Qed.

Lemma prog_at g D S P R o : shape g D S P R o -> arg_at (g_argv g) 0 = Some prog.
Proof. intros Hs. by rewrite (sh_argv _ _ _ _ _ _ Hs). Qed.

Lemma peek_cstring l : cstring l -> (peek l =? 0) = bool_decide (l = []).
Proof. intros Hl. destruct Hl as [|c l Hc _]; [done|]. rewrite bool_decide_eq_false_2 by done. cbn. lia. Qed.

(** The rest of a cluster is still to come, or the element is done. *)
Definition onward (g : go) (D S P : list (list Z)) (cur : list Z) (R : list (list Z)) (rest : list Z) (o : out) : Prop :=
  match rest with [] => between g D S (P ++ [cur]) R o | _ => inside g D S P cur R rest o end.

Lemma when_report (b : bool) f t g : (forall g, f g = Some (add_err (message t) g)) -> when b f g = Some (if b then add_err (message t) g else g).
Proof. intros Hf. unfold when. destruct b; [apply Hf|done]. Qed.

Lemma shape_say g D S P R o (b : bool) t : shape g D S P R o -> shape (if b then add_err (message t) g else g) D S P R (say b t o).
Proof. intros []. destruct b; [|by constructor]. constructor; try done. cbn. subst o. done. Qed.

Lemma shape_blame g D S P R o c : shape g D S P R o -> shape (set_st_optopt c g) D S P R (blame c o).
Proof. intros []. constructor; try done. cbn. by subst o. Qed.

Lemma shape_fail g D S P R o c : shape g D S P R o -> shape (fail_with c g) D S P R (blame c o).
Proof. intros Hs. by apply shape_optopt, shape_blame. Qed.

(** The state behind the next character of a cluster. *)
Definition advance (rest : list Z) (g : go) : go := if peek rest =? 0 then set_optind (g_optind (set_nextchar (Some rest) g) + 1) (set_nextchar (Some rest) g) else set_nextchar (Some rest) g.

Lemma advance_shape g D S P cur R rest o : shape g D S P (cur :: R) o -> cstring rest ->
  match rest with [] => shape (advance rest g) D S (P ++ [cur]) R o | _ => shape (advance rest g) D S P (cur :: R) o end /\ g_nextchar (advance rest g) = Some rest /\ g_optarg (advance rest g) = g_optarg g.
Proof.
  intros Hs Hr. unfold advance. rewrite peek_cstring by done. destruct rest as [|x rest].
  - rewrite bool_decide_eq_true_2 by done. split; [|done]. by apply shape_next, shape_nextchar.
  - rewrite bool_decide_eq_false_2 by done. split; [|done]. by apply shape_nextchar.
Qed.

(** A state that only adds output to [g1] goes on as [g1] does. *)
Lemma onward_intro g2 D S P cur R rest o : (match rest with [] => shape g2 D S (P ++ [cur]) R o | _ => shape g2 D S P (cur :: R) o end) -> g_nextchar g2 = Some rest -> onward g2 D S P cur R rest o.
Proof. destruct rest; intros Hs Hn; [split; [done|by right]|by split]. Qed.

(** An option without argument, known or not. *)
Lemma short_plain g D S P cur R c rest o : inside g D S P cur R (c :: rest) o -> cstring (c :: rest) ->
  (kind_of os c = Unknown -> exists g2, call g = Some (chr "?", g2) /\ g_optarg g2 = None /\ g_optopt g2 = c /\ onward g2 D S P cur R rest (blame c (say loud (short_text prog "invalid option" c) o))) /\
  (kind_of os c = Plain -> exists g2, call g = Some (c, g2) /\ g_optarg g2 = None /\ g_optopt g2 = out_bad o /\ onward g2 D S P cur R rest o).
Proof.
  intros Hi Hc. rewrite (call_inside _ _ _ _ _ _ _ _ Hi). destruct Hi as (Hs & Hn & _). apply Forall_cons in Hc as [Hc Hr]. apply (shape_optarg _ _ _ _ _ _ None) in Hs. set (g0 := set_optarg None g) in *.
  destruct (advance_shape g0 D S P cur R rest o Hs Hr) as (Ha & Hna & Hoa). unfold short_option. rewrite (prog_at _ _ _ _ _ _ Hs). cbn [mbind option_bind]. replace (g_nextchar g0) with (Some (c :: rest)) by done. cbv zeta.
  change (if peek rest =? 0 then _ else _) with (advance rest g0). unfold kind_of. destruct ((c =? 58) || (c =? 59)) eqn:Ecol; [|destruct (go_strchr os c) as [t|] eqn:Et].
  1, 3: split; [intros _|done]; rewrite (when_report _ _ (short_text prog "invalid option" c)) by (intros; apply go_report_spec); cbn [mbind option_bind]; eexists; split; [reflexivity|]; cbn [fst snd];
    (split; [by destruct loud|]); (split; [done|]); apply onward_intro; [destruct rest; by apply shape_optopt, shape_fail, shape_say|destruct loud; exact Hna].
  split; [by repeat case_match|]. destruct (peek_at t 1 =? chr ":") eqn:Ecolon; cbn [negb]; [by destruct (peek_at t 2 =? chr ":")|]. intros _. rewrite (no_W_here c t Et). cbn [mbind option_bind].
  eexists. split; [reflexivity|]. cbn [fst snd]. split; [done|]. split; [|apply onward_intro; [destruct rest; by apply shape_optopt, shape_optopt|done]].
  assert (Ho : out_of (advance rest g0) = o) by (destruct rest; apply (sh_out _ _ _ _ _ _ Ha)). by rewrite <- Ho.
Qed.

(** The element next to the one at hand. *)
Lemma next_arg g D S P R o : shape g D S P R o ->
  (g_optind g =? argc) = bool_decide (R = []) /\ forall b R', R = b :: R' -> arg_at (g_argv g) (g_optind g) = Some b.
Proof.
  intros Hs. split; [|intros b R' ->; by eapply at_optind]. rewrite (sh_ind _ _ _ _ _ _ Hs), (sh_argc _ _ _ _ _ _ Hs). destruct R; [rewrite bool_decide_eq_true_2 by done; cbn; lia|rewrite bool_decide_eq_false_2 by done; cbn [length]; lia].
Qed.

(** An option with an argument. *)
Lemma short_with_arg g D S P cur R c rest o : inside g D S P cur R (c :: rest) o -> cstring (c :: rest) -> kind_of os c = Required \/ kind_of os c = Optional ->
  exists r g2, call g = Some (r, g2) /\
    match rest, kind_of os c, R with
    | _ :: _, _, _ => r = c /\ g_optarg g2 = Some rest /\ g_optopt g2 = out_bad o /\ between g2 D S (P ++ [cur]) R o
    | [], Optional, _ => r = c /\ g_optarg g2 = None /\ g_optopt g2 = out_bad o /\ between g2 D S (P ++ [cur]) R o
    | [], _, b :: R' => r = c /\ g_optarg g2 = Some b /\ g_optopt g2 = out_bad o /\ between g2 D S (P ++ [cur; b]) R' o
    | [], _, [] => r = missing os /\ g_optarg g2 = None /\ g_optopt g2 = c /\ between g2 D S (P ++ [cur]) R (blame c (say loud (short_text prog "option requires an argument" c) o))
    end.
Proof.
  intros Hi Hc Hk. rewrite (call_inside _ _ _ _ _ _ _ _ Hi). destruct Hi as (Hs & Hn & _). apply Forall_cons in Hc as [Hc Hr]. apply (shape_optarg _ _ _ _ _ _ None) in Hs. set (g0 := set_optarg None g) in *.
  destruct (advance_shape g0 D S P cur R rest o Hs Hr) as (Ha & Hna & Hoa). unfold short_option. rewrite (prog_at _ _ _ _ _ _ Hs). cbn [mbind option_bind]. replace (g_nextchar g0) with (Some (c :: rest)) by done. cbv zeta.
  change (if peek rest =? 0 then _ else _) with (advance rest g0). unfold kind_of in *. destruct ((c =? 58) || (c =? 59)) eqn:Ecol; [by destruct Hk|]. destruct (go_strchr os c) as [t|] eqn:Et; [|by destruct Hk].
  rewrite (no_W_here c t Et). destruct (peek_at t 1 =? chr ":") eqn:Ecolon; cbn [negb] in *; [|by destruct Hk]. unfold short_argument. rewrite peek_cstring by done. clear Hk.
  assert (Ho : out_of (advance rest g0) = o) by (destruct rest; apply (sh_out _ _ _ _ _ _ Ha)). destruct rest as [|x rest].
  - rewrite bool_decide_eq_true_2 by done. cbn [negb]. destruct (peek_at t 2 =? chr ":").
    + eexists _, _. split; [reflexivity|]. cbn [fst snd]. split_and!; [done|done|by rewrite <- Ho|]. split; [|by left]. by apply shape_optopt, shape_optopt, shape_nextchar, shape_optarg.
    + destruct (next_arg _ _ _ _ _ _ Ha) as [Hend Hnext]. rewrite Hend. destruct R as [|b R'].
      * rewrite bool_decide_eq_true_2 by done. rewrite (when_report _ _ (short_text prog "option requires an argument" c)) by (intros; apply go_report_spec). cbn [mbind option_bind]. eexists _, _. split; [reflexivity|]. cbn [fst snd].
        split; [done|]. split; [by destruct loud|]. split; [done|]. split; [|by left]. by apply shape_optopt, shape_optopt, shape_nextchar, shape_blame, shape_say.
      * rewrite bool_decide_eq_false_2 by done. rewrite (Hnext b R' eq_refl). cbn [mbind option_bind]. eexists _, _. split; [reflexivity|]. cbn [fst snd]. split_and!; [done|done|by rewrite <- Ho|]. split; [|by left].
        replace (P ++ [cur; b]) with ((P ++ [cur]) ++ [b]) by (by rewrite <- app_assoc). by apply shape_optopt, shape_optopt, shape_nextchar, (shape_next (set_optarg _ _)), shape_optarg.
  - rewrite bool_decide_eq_false_2 by done. cbn [negb mbind option_bind]. eexists _, _. split; [reflexivity|]. cbn [fst snd]. split_and!; [done|done|by rewrite <- Ho|]. split; [|by left].
    by apply shape_optopt, shape_optopt, shape_nextchar, (shape_next (set_optarg _ _)), shape_optarg.
Qed.

(** ** Sequences of calls *)

Inductive yields : go -> list event -> go -> Prop :=
  | yields_nil g : yields g [] g
  | yields_cons g r g1 l g2 : call g = Some (r, g1) -> r <> -1 -> yields g1 l g2 -> yields g ((r, g_optarg g1, g_optopt g1) :: l) g2.

Lemma yields_app g l1 g1 l2 g2 : yields g l1 g1 -> yields g1 l2 g2 -> yields g (l1 ++ l2) g2.
Proof. induction 1; intros H2; [done|]. cbn [app]. eapply yields_cons; eauto. Qed.

Lemma yields_one g r g1 a b : call g = Some (r, g1) -> r <> -1 -> g_optarg g1 = a -> g_optopt g1 = b -> yields g [(r, a, b)] g1.
Proof. intros Hc Hr <- <-. eapply yields_cons; [done..|constructor]. Qed.

(** The arguments that an element takes from the rest. *)
Definition taken (took : bool) (R : list (list Z)) : list (list Z) := if took then take 1 R else [].
Definition left (took : bool) (R : list (list Z)) : list (list Z) := if took then drop 1 R else R.

Lemma missing_ret : missing os <> -1.
Proof. unfold missing. by destruct (_ =? _). Qed.

(** The events of an element, and the state behind it. *)
Definition delivers (g : go) (D S P : list (list Z)) (cur : list Z) (R : list (list Z)) (res : list event * bool * out) : Prop :=
  let '(l, took, o) := res in exists g', yields g l g' /\ between g' D S (P ++ cur :: taken took R) (left took R) o.

Lemma delivers_cons g r g1 a b D S P cur R l took o : call g = Some (r, g1) -> r <> -1 -> g_optarg g1 = a -> g_optopt g1 = b ->
  delivers g1 D S P cur R (l, took, o) -> delivers g D S P cur R ((r, a, b) :: l, took, o).
Proof. intros Hc Hr Ha Hb (g' & Hy & Hg'). exists g'. split; [|done]. by apply (yields_app g [(r, a, b)] g1); [apply yields_one|]. Qed.

Lemma cluster_delivers cl : forall g D S P cur R o, cstring cl -> inside g D S P cur R cl o -> delivers g D S P cur R (cluster prog os loud (head R) cl o).
Proof.
  induction cl as [|c cl IH]; intros g D S P cur R o Hc Hi; [by destruct Hi as (_ & _ & ?)|]. pose proof Hc as Hc'. apply Forall_cons in Hc' as [Hcc Hcl].
  assert (Honward : forall g1 o1, onward g1 D S P cur R cl o1 -> delivers g1 D S P cur R (cluster prog os loud (head R) cl o1)).
  { intros g1 o1 Ho. destruct cl as [|x cl]; [|by apply IH]. cbn [cluster]. exists g1. split; [constructor|]. exact Ho. }
  destruct (short_plain _ _ _ _ _ _ _ _ _ Hi Hc) as [Hun Hpl]. pose proof (short_with_arg _ _ _ _ _ _ _ _ _ Hi Hc) as Harg. cbn [cluster]. destruct (kind_of os c) eqn:Ek.
  - destruct (Hun eq_refl) as (g1 & Hcall & Ha & Hb & Ho). apply Honward in Ho. destruct (cluster _ _ _ _ cl _) as [[l took] o1]. by apply (delivers_cons g _ g1).
  - destruct (Hpl eq_refl) as (g1 & Hcall & Ha & Hb & Ho). apply Honward in Ho. destruct (cluster _ _ _ _ cl _) as [[l took] o1]. apply (delivers_cons g _ g1); [done|lia|done..].
  - destruct (Harg (or_introl eq_refl)) as (r & g2 & Hcall & Hres). destruct cl as [|x cl]; [destruct R as [|b R']|]; destruct Hres as (-> & Ha & Hb & Hg2); cbn [head];
      (exists g2; split; [apply yields_one; try done; (apply missing_ret || lia)|done]).
  - destruct (Harg (or_intror eq_refl)) as (r & g2 & Hcall & Hres). destruct cl as [|x cl]; destruct Hres as (-> & Ha & Hb & Hg2); (exists g2; split; [apply yields_one; try done; lia|done]).
Qed.

(** ** Long options *)

Lemma shape_int g D S P R o a v : shape g D S P R o -> shape (set_int a v g) D S P R (mkOut (out_bad o) (out_err o) (<[a := v]> (out_ints o))).
Proof. intros []. constructor; try done. cbn. by subst o. Qed.

(** One event, and the state behind it. *)
Definition returns (D S P : list (list Z)) (cur : list Z) (R : list (list Z)) (x : Z * go) (res : event * bool * out) : Prop :=
  let '((r, a, b), took, o) := res in x.1 = r /\ r <> -1 /\ g_optarg x.2 = a /\ out_bad o = b /\ between x.2 D S (P ++ cur :: taken took R) (left took R) o.

Section Long.
Context (table : list long_option).
Hypothesis table_names : Forall (fun p => cstring (o_name p)) table.
Hypothesis table_vals : Forall (fun p => o_val p <> -1) table.

(** The stores of a long option that was found. *)
Lemma found_returns g D S P cur R R' i p took o : shape g D S P R' o -> o_val p <> -1 -> P = cur :: taken took R -> R' = left took R -> g_nextchar g = None ->
  let ret := if o_flag p =? 0 then o_val p else 0 in
  exists x, Some (if negb (o_flag p =? 0) then (0, set_int (o_flag p) (o_val p) (if longind =? 0 then g else set_int longind i g)) else (o_val p, if longind =? 0 then g else set_int longind i g)) = Some x /\
    returns D S [] cur R x ((ret, g_optarg g, out_bad o), took, put_int (o_flag p) (o_val p) (put_int longind i o)).
Proof.
  intros Hs Hv -> -> Hn ret. eexists. split; [reflexivity|].
  assert (Hi : shape (if longind =? 0 then g else set_int longind i g) D S (cur :: taken took R) (left took R) (put_int longind i o)) by (unfold put_int; destruct (longind =? 0); [done|by apply shape_int]).
  assert (Hb : out_bad (put_int longind i o) = out_bad o) by (unfold put_int; by destruct (longind =? 0)). set (o1 := put_int longind i o) in *. clearbody o1.
  unfold returns, put_int. subst ret. destruct (o_flag p =? 0); cbn [negb fst snd].
  - split_and!; try done; [by destruct (longind =? 0)|]. split; [done|left; by destruct (longind =? 0)].
  - split_and!; try done; [by destruct (longind =? 0)|]. split; [by apply shape_int|left; by destruct (longind =? 0)].
Qed.

Lemma fault_returns g D S cur R c r t o : shape g D S [cur] R o -> r <> -1 -> g_nextchar g = None \/ g_nextchar g = Some [] -> g_optarg g = None ->
  returns D S [] cur R (r, fail_with c (if loud then add_err (message t) g else g)) ((r, None, c), false, blame c (say loud t o)).
Proof. intros Hs Hr Hn Ha. unfold returns. cbn [fst snd]. split_and!; try done; [by destruct loud|]. split; [by apply shape_fail, shape_say|by destruct loud]. Qed.

Lemma take_long_returns g D S cur R text i p o : shape g D S [] (cur :: R) o -> g_optarg g = None -> o_val p <> -1 -> cstring text ->
  exists x, take_long argc os prog (str "--") (name_end text) i p longind loud g = Some x /\
    returns D S [] cur R x
      (let taken := put_int (o_flag p) (o_val p) (put_int longind i o) in
       let ret := if o_flag p =? 0 then o_val p else 0 in
       let fault r what := ((r, None, o_val p), false, blame (o_val p) (say loud (long_text prog (str "--") (o_name p) what) o)) in
       match name_end text with
       | _ :: value => if o_has_arg p =? 0 then fault (chr "?") "doesn't allow an argument"%string else ((ret, Some value, out_bad o), false, taken)
       | [] =>
           if o_has_arg p =? 1 then
             match head R with Some a => ((ret, Some a, out_bad o), true, taken) | None => fault (missing os) "requires an argument"%string end
           else ((ret, None, out_bad o), false, taken)
       end).
Proof.
  intros Hs Ha Hv Ht. unfold take_long. cbv zeta. set (g1 := set_nextchar None (set_optind (g_optind g + 1) g)).
  assert (Hs1 : shape g1 D S [cur] R o) by (subst g1; by apply shape_nextchar, (shape_next g D S [])). assert (Hrest : cstring (name_end text)) by (destruct (name_end_suffix text) as [k Hk]; rewrite Hk in Ht; by apply Forall_app in Ht as [_ ?]).
  rewrite peek_cstring by done. destruct (name_end text) as [|x value].
  - rewrite bool_decide_eq_true_2 by done. cbn [negb]. destruct (o_has_arg p =? 1); [|rewrite <- Ha; by apply (found_returns g1 D S [cur] cur R R i p false)].
    destruct (next_arg _ _ _ _ _ _ Hs1) as [Hend Hnext]. assert (Hlt : (g_optind g1 <? argc) = negb (g_optind g1 =? argc)) by (rewrite (sh_ind _ _ _ _ _ _ Hs1), (sh_argc _ _ _ _ _ _ Hs1); lia). rewrite Hlt, Hend. destruct R as [|b R'].
    + rewrite bool_decide_eq_true_2 by done. cbn [negb head]. rewrite (when_report _ _ (long_text prog (str "--") (o_name p) "requires an argument")) by (intros; by apply report_long_spec). cbn [mbind option_bind].
      eexists. split; [reflexivity|]. apply fault_returns; [done|apply missing_ret|by left|done].
    + rewrite bool_decide_eq_false_2 by done. cbn [negb head]. rewrite (Hnext b R' eq_refl). cbn [mbind option_bind]. set (g2 := set_optind (g_optind g1 + 1) (set_optarg (Some b) g1)).
      apply (found_returns g2 D S [cur; b] cur (b :: R') R' i p true); try done. subst g2. by apply (shape_next (set_optarg (Some b) g1) D S [cur]), shape_optarg.
  - rewrite bool_decide_eq_false_2 by done. cbn [negb tail]. destruct (o_has_arg p =? 0) eqn:Eh; cbn [negb].
    + rewrite (when_report _ _ (long_text prog (str "--") (o_name p) "doesn't allow an argument")) by (intros; by apply report_long_spec). cbn [mbind option_bind]. eexists. split; [reflexivity|]. apply fault_returns; [done|done|by left|done].
    + apply (found_returns (set_optarg (Some value) g1) D S [cur] cur R R i p false); try done. by apply shape_optarg.
Qed.

Lemma abbreviated_in name lo' i x : x ∈ abbreviated name lo' i -> x.2 ∈ lo'.
Proof.
  revert i. induction lo' as [|p lo' IH]; intros i; cbn [abbreviated]; [by intros ?%not_elem_of_nil|]. rewrite elem_of_app. intros [Hx|Hx]; [|right; by eapply IH].
  destruct (abbreviates name p); [apply list_elem_of_singleton in Hx as ->; left|by apply not_elem_of_nil in Hx].
Qed.

Lemma process_long_returns g D S a R text o : shape g D S [] (a :: R) o -> g_optarg g = None -> g_nextchar g = Some text -> cstring text ->
  exists x, process_long_option argc os table longind false loud (str "--") g = Some x /\ returns D S [] a R x (long_element prog os loud longind table (head R) text o).
Proof.
  intros Hs Ha Hn Ht. unfold process_long_option, long_element. rewrite Hn. cbn [mbind option_bind]. rewrite (prog_at _ _ _ _ _ _ Hs). cbn [mbind option_bind]. cbv zeta.
  set (n := (length text - length (name_end text))%nat). assert (Hle : (n <= length text)%nat) by lia. rewrite (find_exact_spec text n Ht Hle table table_names 0). unfold choose.
  destruct (list_find _ table) as [[j p]|] eqn:Ef; cbn [fmap option_fmap option_map fst snd].
  { apply list_find_Some in Ef as (Hj & _). rewrite Z.add_0_l. apply take_long_returns; [done..| |done]. by apply (Forall_lookup_1 _ _ _ _ table_vals Hj). }
  rewrite (find_abbrev_spec text n Ht Hle table table_names 0). pose proof (abbreviated_in (take n text) table 0) as Hin. destruct (abbreviated (take n text) table 0) as [|[i p] l].
  - cbn [negb mbind option_bind]. rewrite (when_report _ _ (unknown_text prog (str "--") text)) by (intros; apply report_unknown_spec). cbn [mbind option_bind]. eexists. split; [reflexivity|].
    set (gg := if loud then add_err (message (unknown_text prog (str "--") text)) g else g).
    replace (set_optind (g_optind gg + 1) (set_nextchar None gg)) with (if loud then add_err (message (unknown_text prog (str "--") text)) (set_optind (g_optind g + 1) (set_nextchar None g)) else set_optind (g_optind g + 1) (set_nextchar None g)) by (subst gg; by destruct loud).
    apply fault_returns; [|done|by left|done]. by apply (shape_next (set_nextchar None g) D S []), shape_nextchar.
  - destruct (existsb _ l).
    + rewrite (when_report _ _ (ambiguous_text text n prog (str "--") table)) by (intros; by apply report_ambiguous_spec). cbn [mbind option_bind]. eexists. split; [reflexivity|].
      set (gg := if loud then add_err (message (ambiguous_text text n prog (str "--") table)) g else g).
      replace (set_optind (g_optind gg + 1) (set_nextchar (Some []) gg)) with (if loud then add_err (message (ambiguous_text text n prog (str "--") table)) (set_optind (g_optind g + 1) (set_nextchar (Some []) g)) else set_optind (g_optind g + 1) (set_nextchar (Some []) g)) by (subst gg; by destruct loud).
      apply fault_returns; [|done|by right|done]. by apply (shape_next (set_nextchar (Some []) g) D S []), shape_nextchar.
    + apply take_long_returns; [done..| |done]. apply (proj1 (Forall_forall _ _) table_vals). apply (Hin (i, p)). left.
Qed.

End Long.

(** ** Elements *)

Lemma nonoption_false a : cstring a -> nonoption a = false -> exists c rest, a = chr "-" :: c :: rest /\ cstring (c :: rest).
Proof.
  intros Ha Hn. unfold nonoption in Hn. destruct Ha as [|x a Hx Ha]; [done|]. destruct a as [|c rest]; [by destruct (peek _ =? _) in Hn|]. exists c, rest. split; [|done]. cbn in Hn. f_equal. lia.
Qed.

Lemma end_marker_spec g D S P a R o : shape g D S P (a :: R) o -> cstring a -> end_marker argc g = Some (bool_decide (a = str "--")).
Proof.
  intros Hs Ha. unfold end_marker. destruct (next_arg _ _ _ _ _ _ Hs) as [-> ->%(fun H => H a R eq_refl)]. rewrite bool_decide_eq_false_2 by done. cbn [mbind option_bind]. f_equal.
  destruct Ha as [|x [|y [|z a]] Hx Ha]; try (rewrite bool_decide_eq_false_2 by done; cbn; lia).
  - cbn. destruct (decide (x = 45 /\ y = 45)) as [[-> ->]|Hne]; [done|]. rewrite bool_decide_eq_false_2 by (intros E; apply Hne; by injection E). destruct (x =? 45) eqn:E1, (y =? 45) eqn:E2; try done. lia.
  - rewrite bool_decide_eq_false_2 by done. apply Forall_cons in Ha as [_ Ha]. apply Forall_cons in Ha as [Hz _]. change (peek_at (x :: y :: z :: a) 2) with z. replace (z =? 0) with false by lia. by rewrite andb_false_r.
Qed.

(** What holds when -1 was returned. *)
Definition finished (g : go) (opts ops : list (list Z)) (o : out) : Prop :=
  g_argv g = prog :: opts ++ ops /\ g_optind g = 1 + len opts /\ out_of g = o /\ g_optarg g = None /\ g_optopt g = out_bad o.

Lemma ends_without_marker g D S P R o : between g D S P R o -> (operands R).2 = [] -> exists g2, call g = Some (-1, g2) /\ finished g2 (D ++ P) (S ++ (operands R).1) o.
Proof.
  intros Hb Hend. destruct (call_between _ _ _ _ _ _ Hb) as (g1 & Hs1 & Ha1 & ->). rewrite Hend in Hs1. unfold element_at, end_marker. destruct (next_arg _ _ _ _ _ _ Hs1) as [He _]. rewrite He, bool_decide_eq_true_2 by done. cbn [mbind option_bind].
  rewrite He, bool_decide_eq_true_2 by done. cbn [mbind option_bind]. eexists. split; [reflexivity|]. destruct Hs1 as [Hargv Hf Hl Hi Hc _ _ _ Ho]. rewrite !app_nil_r in *. cbn [length] in *.
  destruct (g_first_nonopt g1 =? g_last_nonopt g1) eqn:E; cbn [negb snd]; subst o; unfold finished; cbn; split_and!; try done; lia.
Qed.

Lemma skip_marker_spec g D S m R o : shape g D S [] (m :: R) o ->
  exists g', skip_marker argc g = Some g' /\ g_argv g' = prog :: (D ++ [m]) ++ S ++ R /\ g_first_nonopt g' = 1 + len (D ++ [m]) /\ g_last_nonopt g' = argc /\ g_optind g' = argc /\ out_of g' = o /\ g_optarg g' = g_optarg g.
Proof.
  intros Hs. apply shape_next in Hs. unfold skip_marker. cbv zeta. set (g1 := set_optind (g_optind g + 1) g) in *. change (g_optarg g) with (g_optarg g1). clearbody g1. destruct Hs as [Hargv Hf Hl Hi Hc _ _ _ Ho]. cbn [app length] in *. destruct S as [|s S].
  - replace (g_first_nonopt g1 =? g_last_nonopt g1) with true by (cbn [length] in *; lia). cbn [negb andb mbind option_bind]. eexists. split; [reflexivity|]. cbn. split_and!; try done; rewrite ?length_app; cbn [length] in *; try lia. rewrite Hargv. by rewrite <- app_assoc.
  - replace (negb (g_first_nonopt g1 =? g_last_nonopt g1) && negb (g_last_nonopt g1 =? g_optind g1)) with true by (cbn [length] in *; lia). unfold go_exchange. rewrite Hargv, Hf, Hl, Hi.
    change (prog :: D ++ (s :: S) ++ m :: R) with ((prog :: D) ++ (s :: S) ++ [m] ++ R). replace (1 + len D) with (len (prog :: D)) by (cbn [length]; lia). change 1%nat with (length [m]). rewrite exchange_loop_spec by lia. cbn [mbind option_bind]. eexists. split; [reflexivity|]. cbn.
    split_and!; try done; [by rewrite <- app_assoc|rewrite length_app; cbn [length]; lia].
Qed.

Lemma ends_at_marker g D S P R R2 o : between g D S P R o -> (operands R).2 = str "--" :: R2 ->
  exists g2, call g = Some (-1, g2) /\ finished g2 (D ++ P ++ [str "--"]) (S ++ (operands R).1 ++ R2) o.
Proof.
  intros Hb Hend. destruct (call_between _ _ _ _ _ _ Hb) as (g1 & Hs1 & Ha1 & ->). rewrite Hend in Hs1. unfold element_at. rewrite (end_marker_spec _ _ _ _ _ _ _ Hs1) by (repeat constructor; done). rewrite bool_decide_eq_true_2 by done. cbn [mbind option_bind].
  destruct (skip_marker_spec _ _ _ _ _ _ Hs1) as (g2 & -> & Hargv & Hf & Hl & Hi & Ho & Ha). cbn [mbind option_bind]. replace (g_optind g2 =? argc) with true by lia. cbn [mbind option_bind]. eexists. split; [reflexivity|].
  rewrite <- !app_assoc in *. destruct (g_first_nonopt g2 =? g_last_nonopt g2) eqn:E; cbn [negb snd]; subst o; unfold finished; cbn; split_and!; try done; try lia; first [by rewrite Ha | rewrite Hargv; by rewrite <- ?app_assoc | rewrite ?length_app in *; cbn [length] in *; lia].
Qed.

(** A call that goes on with a cluster gives what the call inside the cluster gives. *)
Lemma delivers_same g gi D S P cur R cl res : call g = call gi -> g_nextchar gi = Some cl -> cl <> [] -> delivers gi D S P cur R res -> delivers g D S P cur R res.
Proof.
  intros He Hn Hcl. destruct res as [[l took] o]. intros (g' & Hy & Hb). exists g'. split; [|done]. inversion Hy; subst; [destruct Hb as [_ [?|?]]; congruence|]. eapply yields_cons; [by rewrite He|done..].
Qed.

Hypothesis table_ok : forall table, lo = Some table -> Forall (fun p => cstring (o_name p)) table /\ Forall (fun p => o_val p <> -1) table.

Lemma element_delivers g D S P R a R2 o : between g D S P R o -> (operands R).2 = a :: R2 -> cstring a -> nonoption a = false -> a <> str "--" ->
  delivers g (D ++ P) (S ++ (operands R).1) [] a R2 (element prog os loud lo longind a (head R2) o).
Proof.
  intros Hb Hend Hc Hno Hm. destruct (call_between _ _ _ _ _ _ Hb) as (g1 & Hs1 & Ha1 & Hcall). rewrite Hend in Hs1. unfold element_at in Hcall. rewrite (end_marker_spec _ _ _ _ _ _ _ Hs1) in Hcall by done. rewrite bool_decide_eq_false_2 in Hcall by done.
  cbn [mbind option_bind] in Hcall. destruct (next_arg _ _ _ _ _ _ Hs1) as [He Hat]. rewrite He, bool_decide_eq_false_2, (Hat a R2 eq_refl) in Hcall by done. cbn [mbind option_bind] in Hcall. rewrite Hno in Hcall. cbv zeta in Hcall.
  destruct (nonoption_false a Hc Hno) as (c & rest & -> & Hcr). set (gi := set_nextchar (Some (tail (chr "-" :: c :: rest))) g1) in *.
  assert (Hin : inside gi (D ++ P) (S ++ (operands R).1) [] (chr "-" :: c :: rest) R2 (c :: rest) o) by (split; [by apply shape_nextchar|done]).
  assert (Hcl : call g = (r ← short_option argc os lo longind loud gi; publish r) -> delivers g (D ++ P) (S ++ (operands R).1) [] (chr "-" :: c :: rest) R2 (cluster prog os loud (head R2) (c :: rest) o)).
  { intros Hg. apply (delivers_same g gi _ _ _ _ _ (c :: rest)); [|done|done|by apply cluster_delivers]. rewrite Hg, (call_inside _ _ _ _ _ _ _ _ Hin). f_equal. f_equal. subst gi. destruct g1. cbn in *. by subst. }
  unfold element. destruct lo as [table|] eqn:Elo; [|by apply Hcl]. destruct (peek_at (chr "-" :: c :: rest) 1 =? chr "-") eqn:Ed; [|by apply Hcl]. destruct (table_ok table eq_refl) as [Hnames Hvals].
  change (drop 2 (chr "-" :: c :: rest)) with rest in *. assert (Hr : cstring rest) by (by apply Forall_cons in Hcr as [_ ?]).
  destruct (process_long_returns table Hnames Hvals (set_nextchar (Some rest) g1) (D ++ P) (S ++ (operands R).1) (chr "-" :: c :: rest) R2 rest o) as (x & Hx & Hres); [by apply shape_nextchar|done..|].
  rewrite Hx in Hcall. cbn [mbind option_bind] in Hcall. destruct (long_element _ _ _ _ _ _ _ _) as [[[[r av] bv] took] o1]. destruct Hres as (Hr1 & Hr2 & Hav & Hbv & Hb1). exists (set_optopt (g_st_optopt x.2) x.2). split.
  - apply yields_one; [rewrite Elo, Hcall; unfold publish; by rewrite Hr1|done|done|]. cbn. destruct Hb1 as [Hb1 _]. rewrite <- Hbv, <- (sh_out _ _ _ _ _ _ Hb1). done.
  - destruct Hb1 as [Hb1 Hn]. split; [by apply shape_optopt|done].
Qed.

(** ** Command lines *)

Abbreviation reference := (parse prog os loud lo longind).

Lemma parse_operands R o : reference R o = let '(l, opts, ops, o') := reference (operands R).2 o in (l, opts, (operands R).1 ++ ops, o').
Proof.
  induction R as [|a R IH]; [done|]. cbn [operands]. destruct (nonoption a) eqn:En.
  - cbn [parse]. rewrite En, IH. destruct (operands R) as [s r]. cbn [fst snd]. by destruct (reference r o) as [[[l opts] ops] o'].
  - cbn [fst snd app]. by destruct (reference (a :: R) o) as [[[l opts] ops] o'].
Qed.

Lemma parse_element a R o : nonoption a = false -> a <> str "--" ->
  reference (a :: R) o = let '(l1, took, o1) := element prog os loud lo longind a (head R) o in let '(l, opts, ops, o') := reference (left took R) o1 in (l1 ++ l, a :: taken took R ++ opts, ops, o').
Proof.
  intros Hn Hm. cbn [parse]. rewrite Hn, bool_decide_eq_false_2 by done. destruct (element _ _ _ _ _ _ _ _) as [[l1 took] o1]. destruct R as [|b R].
  - destruct took; cbn [left taken drop take parse app]; by rewrite app_nil_r.
  - by destruct took.
Qed.

Lemma operands_head R a R2 : (operands R).2 = a :: R2 -> nonoption a = false.
Proof. induction R as [|b R IH]; [done|]. cbn [operands]. destruct (nonoption b) eqn:E; [destruct (operands R); apply IH|by intros [= -> ->]]. Qed.

Lemma parse_runs k : forall R g D S P o l opts ops o', (length R <= k)%nat -> Forall (fun a => cstring a) R -> between g D S P R o -> reference R o = (l, opts, ops, o') ->
  exists g1 g2, yields g l g1 /\ call g1 = Some (-1, g2) /\ finished g2 (D ++ P ++ opts) (S ++ ops) o'.
Proof.
  induction k as [|k IH]; intros R g D S P o l opts ops o' Hk Hc Hb Hp; pose proof (operands_app R) as HR; rewrite parse_operands in Hp; pose proof (operands_head R) as Hhead; destruct (operands R).2 as [|a R2] eqn:Er.
  1, 3: injection Hp as <- <- <- <-; rewrite !app_nil_r; destruct (ends_without_marker _ _ _ _ _ _ Hb Er) as (g2 & Hg2 & Hf); exists g, g2; split; [constructor|done].
  { rewrite HR, length_app in Hk. cbn in Hk. lia. }
  specialize (Hhead a R2 eq_refl). rewrite HR in Hc. apply Forall_app in Hc as [_ Hc]. apply Forall_cons in Hc as [Hca Hc2]. destruct (decide (a = str "--")) as [->|Hm].
  - injection Hp as <- <- <- <-. destruct (ends_at_marker _ _ _ _ _ _ _ Hb Er) as (g2 & Hg2 & Hf). exists g, g2. split; [constructor|done].
  - rewrite parse_element in Hp by done. pose proof (element_delivers _ _ _ _ _ _ _ _ Hb Er Hca Hhead Hm) as Hd. destruct (element _ _ _ _ _ _ _ _) as [[l1 took] o1]. destruct Hd as (g' & Hy & Hb'). cbn [app] in Hb'.
    destruct (reference (left took R2) o1) as [[[l2 opts2] ops2] o2] eqn:E2. injection Hp as <- <- <- <-. assert (Hlen : (length (left took R2) <= k)%nat) by (rewrite HR, length_app in Hk; cbn [length] in Hk; destruct took; cbn [left]; rewrite ?length_drop; lia).
    assert (Hcl : Forall (fun a => cstring a) (left took R2)) by (destruct took; [by apply Forall_drop|done]). destruct (IH _ _ _ _ _ _ _ _ _ _ Hlen Hcl Hb' E2) as (g1 & g2 & Hy2 & Hc2' & Hf).
    exists g1, g2. split; [by eapply yields_app|]. split; [done|]. by rewrite <- !app_assoc in Hf.
Qed.

Lemma yields_run g l g1 g2 : yields g l g1 -> call g1 = Some (-1, g2) -> run_getopt call (S (length l)) g = Some (l, g2).
Proof.
  induction 1 as [g|g r g1 l g3 Hcall Hr Hy IH]; intros Hend.
  - cbn [run_getopt length]. by rewrite Hend.
  - specialize (IH Hend). cbn [length]. set (n := S (length l)) in *. clearbody n. cbn [run_getopt]. rewrite Hcall. cbn [mbind option_bind]. apply Z.eqb_neq in Hr as ->. by rewrite IH.
Qed.

(** The first call starts the scan at [optind] 1. *)
Lemma first_call args o : argc = 1 + len args ->
  exists g, between g [] [] [] args o /\ call (go_start (prog :: args) opterr o) = call g.
Proof.
  intros Hc. set (g0 := go_start (prog :: args) opterr o). set (g := set_ordering PERMUTE (set_nextchar None (set_nonopts 1 1 g0))). assert (Hb : between g [] [] [] args o) by (split; [destruct o; constructor; done || (cbn; lia)|by left]).
  exists g. split; [done|]. assert (Hg0 : start_scan false os (set_optarg None g0) = (os, set_optarg None g)) by (unfold start_scan; destruct os_plain as [Hm Hp]; apply Z.eqb_neq in Hm, Hp; by rewrite Hm, Hp).
  destruct Hb as [Hs _]. apply (shape_optarg _ _ _ _ _ _ None) in Hs. unfold getopt_internal, getopt_scan. cbv zeta. replace (argc <? 1) with false by lia. by rewrite (start_scan_shape _ _ _ _ _ _ Hs), Hg0.
Qed.

End Simulation.

(** Every element is an option, the argument of one, or an operand. *)
Lemma parse_permutes prog os loud lo longind k : forall args o l opts ops o', (length args <= k)%nat -> parse prog os loud lo longind args o = (l, opts, ops, o') -> opts ++ ops ≡ₚ args.
Proof.
  induction k as [|k IH]; intros [|a r] o l opts ops o' Hk Hp; cbn [length] in Hk; try lia; [by injection Hp as <- <- <- <-..|]. cbn [parse] in Hp. destruct (nonoption a).
  { destruct (parse _ _ _ _ _ r o) as [[[l2 opts2] ops2] o2] eqn:E. injection Hp as <- <- <- <-. apply IH in E; [|lia]. by rewrite <- Permutation_middle, E. }
  destruct (bool_decide _); [by injection Hp as <- <- <- <-|]. destruct (element _ _ _ _ _ a _ o) as [[l1 took] o1]. destruct r as [|b r]; [by injection Hp as <- <- <- <-|]. cbn [length] in Hk.
  destruct took; (destruct (parse _ _ _ _ _ _ o1) as [[[l2 opts2] ops2] o2] eqn:E); injection Hp as <- <- <- <-; (apply IH in E; [|cbn [length]; lia]); cbn [app]; by rewrite E.
Qed.

(** A call of [getopt], or of [getopt_long] with a table. *)
Definition calls (argc : Z) (os : list Z) (lo : option (list long_option)) (longind : Z) : go -> option (Z * go) :=
  match lo with None => getopt false argc os | Some table => getopt_long false argc os table longind end.

(** C19. The calls of [getopt] (or, with a table, [getopt_long]) on a command
    line, up to the one that returns -1, give exactly the events of the
    reference: the options in order, each with its argument and [optopt], and
    the diagnostics, flag stores and index stores that go with them.  Then
    [argv] is the program name, the options with their arguments, and the
    operands in their order, [optind] is the index of the first operand, and no
    element was lost.  Clusters, abbreviations, "--", faults and
    arguments attached or not are all covered; what is asked is that the option
    string has no ordering prefix and no "W;", and that no value of the table
    is -1. *)
Theorem getopt_run_reference prog os opterr lo longind args o l opts ops o' :
  peek os <> chr "-" -> peek os <> chr "+" ->
  lo = None \/ (forall t, go_strchr os (chr "W") = Some t -> peek_at t 1 <> chr ";") ->
  (forall table, lo = Some table -> Forall (fun p => cstring (o_name p)) table /\ Forall (fun p => o_val p <> -1) table) ->
  Forall (fun a => cstring a) args ->
  parse prog os (negb (opterr =? 0) && negb (peek os =? chr ":")) lo longind args o = (l, opts, ops, o') ->
  exists g, run_getopt (calls (1 + len args) os lo longind) (S (length l)) (go_start (prog :: args) opterr o) = Some (l, g) /\
    g_argv g = prog :: opts ++ ops /\ g_argv g ≡ₚ prog :: args /\ g_optind g = 1 + len opts /\ out_of g = o'.
Proof.
  intros Hminus Hplus Hw Htab Hargs Hp. set (argc := 1 + len args). set (next := calls argc os lo longind). pose proof (parse_permutes _ _ _ _ _ _ _ _ _ _ _ _ (le_n _) Hp) as Hperm.
  assert (Hnext : exists li, next = getopt_internal false argc os lo li false /\ parse prog os (negb (opterr =? 0) && negb (peek os =? chr ":")) lo li args o = (l, opts, ops, o')).
  { subst next. destruct lo as [table|]; [by exists longind|]. exists 0. split; [done|]. rewrite <- Hp. reflexivity. }
  destruct Hnext as (li & -> & Hp'). destruct (first_call prog os opterr lo li argc (conj Hminus Hplus) args o eq_refl) as (g & Hb & Hcall).
  destruct (parse_runs prog os opterr lo li argc (conj Hminus Hplus) Hw Htab (length args) args g [] [] [] o l opts ops o' (le_n _) Hargs Hb Hp') as (g1 & g2 & Hy & Hend & Hargv & Hi & Ho & _).
  exists g2. apply (yields_run _ _ _ _ _ _ _ _ Hy) in Hend. split; [cbn [run_getopt] in *; by rewrite Hcall|]. cbn [app] in *. rewrite Hargv. split_and!; try done. by apply Permutation_skip.
Qed.

(** A command line with operands between the options, a cluster, an abbreviated long option, an unknown option and "--". *)
Definition sample_table : list long_option := [mkLong (str "color") 1 0 67; mkLong (str "count") 0 9 5; mkLong (str "verbose") 0 0 86].
Definition sample_args : list (list Z) := [str "in"; str "-ab"; str "v"; str "--col=7"; str "--count"; str "out"; str "-q"; str "--"; str "-a"].
Definition sample_events : list event := [(97, None, 0); (98, Some (str "v"), 0); (67, Some (str "7"), 0); (0, None, 0); (chr "?", None, chr "q")].
Definition sample_options : list (list Z) := [str "-ab"; str "v"; str "--col=7"; str "--count"; str "-q"; str "--"].
Definition sample_operands : list (list Z) := [str "in"; str "out"; str "-a"].
Definition sample_out : out := mkOut (chr "q") [str "ls: invalid option -- 'q'" ++ [10]] (<[9 := 5]> ∅).

Lemma getopt_run_reference_witness :
  exists g, run_getopt (calls (1 + len sample_args) (str "ab:") (Some sample_table) 0) (S (length sample_events)) (go_start (str "ls" :: sample_args) 1 (mkOut 0 [] ∅)) = Some (sample_events, g) /\
    g_argv g = str "ls" :: sample_options ++ sample_operands /\ g_argv g ≡ₚ str "ls" :: sample_args /\ g_optind g = 1 + len sample_options /\ out_of g = sample_out.
Proof.
  apply (getopt_run_reference (str "ls") (str "ab:") 1 (Some sample_table) 0 sample_args (mkOut 0 [] ∅) sample_events sample_options sample_operands sample_out).
  - done.
  - done.
  - right. done.
  - intros table [= <-]. split; apply (bool_decide_unpack _); vm_compute; exact I.
  - apply (bool_decide_unpack _). vm_compute. exact I.
  - vm_compute. reflexivity.
Defined.
