(* ===== verification/Env.v ===== *)
(** * The environment (lib/moqi_libc/src/env.c, getenv of stdlib.c)

    [environ] is an array of pointers in memory, ended by NULL, to strings of
    the form name=value.  The array and the strings are bytes of the memory
    that the program shares with the allocator, so the caller's strings, the
    array a process starts with and the arrays of this file are told apart by
    their addresses alone. *)

From S2P Require Import Prelude Mem CString Alloc Words.

Section Operations.
Context {H : Type} `{!Allocator H}.

(** The heap with the program's memory, the variables of the file, and errno. *)
Record env := mkEnv {
  e_heap : H;
  e_environ : Z;
  e_own_array : Z;
  e_own_cap : Z;
  e_locked : bool;
  e_errno : Z }.

Definition e_mem (st : env) : mem := hmem (e_heap st).
Definition set_heap (h : H) (st : env) : env := mkEnv h (e_environ st) (e_own_array st) (e_own_cap st) (e_locked st) (e_errno st).
Definition set_mem (m : mem) (st : env) : env := set_heap (hwrite (e_heap st) m) st.
Definition set_environ (p : Z) (st : env) : env := mkEnv (e_heap st) p (e_own_array st) (e_own_cap st) (e_locked st) (e_errno st).
Definition set_own (p cap : Z) (st : env) : env := mkEnv (e_heap st) (e_environ st) p cap (e_locked st) (e_errno st).
Definition set_locked (b : bool) (st : env) : env := mkEnv (e_heap st) (e_environ st) (e_own_array st) (e_own_cap st) b (e_errno st).
Definition set_errno (e : Z) (st : env) : env := mkEnv (e_heap st) (e_environ st) (e_own_array st) (e_own_cap st) (e_locked st) e.

(** A lock that is held by the caller itself is never released: no result. *)
Definition env_lock (st : env) : option env := if e_locked st then None else Some (set_locked true st).
Definition env_unlock (st : env) : env := set_locked false st.

Fixpoint count_loop (fuel : nat) (m : mem) (arr n : Z) : option Z :=
  match fuel with
  | 0%nat => None
  | S fuel => p ← load_ptr m (arr + 8 * n); if p =? 0 then Some n else count_loop fuel m arr (n + 1)
  end.

Definition env_count (st : env) : option Z := if e_environ st =? 0 then Some 0 else count_loop (mem_fuel (e_mem st)) (e_mem st) (e_environ st) 0.

Definition entry_is (m : mem) (entry name nlen : Z) : option bool :=
  r ← strncmp m entry name nlen;
  if r =? 0 then c ← load m (entry + nlen); Some (c =? chr "=") else Some false.

Fixpoint find_loop (fuel : nat) (m : mem) (e name nlen : Z) : option Z :=
  match fuel with
  | 0%nat => None
  | S fuel =>
      p ← load_ptr m e;
      if p =? 0 then Some 0 else b ← entry_is m p name nlen; if (b : bool) then Some e else find_loop fuel m (e + 8) name nlen
  end.

(** The address of the slot, or NULL. *)
Definition find_entry (st : env) (name nlen : Z) : option Z :=
  if e_environ st =? 0 then Some 0 else find_loop (mem_fuel (e_mem st)) (e_mem st) (e_environ st) name nlen.

(** [for (size_t i = 0; i < count; i++) arr[i] = environ[i]] *)
Fixpoint copy_slots (count : nat) (m : mem) (arr src : Z) : option mem :=
  match count with
  | 0%nat => Some m
  | S count => p ← load_ptr m src; m ← store_ptr m arr p; copy_slots count m (arr + 8) (src + 8)
  end.

Definition ensure_room (count : Z) (st : env) : option (Z * env) :=
  let need := u64 (count + 2) in
  if negb (e_environ st =? 0) && (e_environ st =? e_own_array st) && (need <=? e_own_cap st) then Some (0, st)
  else if (e_environ st =? 0) && negb (e_own_array st =? 0) && (need <=? e_own_cap st) then Some (0, set_environ (e_own_array st) st)
  else
    let cap := u64 (need * 2) in
    let cap := if cap <? 16 then 16 else cap in
    if SIZE_MAX / 8 <? cap then Some (-1, set_errno ENOMEM st)
    else
      let '(arr, h) := hmalloc (e_heap st) (u64 (cap * 8)) in
      let st := set_heap h st in
      if arr =? 0 then Some (-1, set_errno ENOMEM st)
      else
        m ← copy_slots (Z.to_nat count) (e_mem st) arr (e_environ st);
        Some (0, set_environ arr (set_own arr cap (set_mem m st))).

Definition append_entry (entry : Z) (st : env) : option (Z * env) :=
  count ← env_count st;
  '(r, st) ← ensure_room count st;
  if negb (r =? 0) then Some (-1, st)
  else
    m ← store_ptr (e_mem st) (e_environ st + 8 * count) entry;
    m ← store_ptr m (e_environ st + 8 * (count + 1)) 0;
    Some (0, set_mem m st).

Fixpoint name_loop (fuel : nat) (m : mem) (name n : Z) : option (option Z) :=
  match fuel with
  | 0%nat => None
  | S fuel =>
      c ← load m (name + n);
      if c =? 0 then Some (Some n) else if c =? chr "=" then Some None else name_loop fuel m name (n + 1)
  end.

(** The length of a valid name. *)
Definition valid_name (m : mem) (name : Z) : option (option Z) :=
  if name =? 0 then Some None
  else c ← load m name; if c =? 0 then Some None else name_loop (mem_fuel m) m name 0.

(** [memcpy(entry, name, nlen); entry[nlen] = '='; memcpy(entry + nlen + 1, value, vlen + 1)] *)
Definition write_entry (m : mem) (entry name nlen value vlen : Z) : option mem :=
  '(_, m) ← memcpy m entry name nlen;
  m ← store m (entry + nlen) (chr "=");
  '(_, m) ← memcpy m (entry + nlen + 1) value (u64 (vlen + 1));
  Some m.

(** The new string of [setenv], put into the slot or behind the last one. *)
Definition set_entry (slot name nlen value vlen : Z) (st : env) : option (Z * env) :=
  if u64 (u64 (SIZE_MAX - nlen) - 2) <? vlen then Some (-1, set_errno ENOMEM st)
  else
    let '(entry, h) := hmalloc (e_heap st) (u64 (nlen + 1 + vlen + 1)) in
    let st := set_heap h st in
    if entry =? 0 then Some (-1, set_errno ENOMEM st)
    else
      m ← write_entry (e_mem st) entry name nlen value vlen;
      let st := set_mem m st in
      if negb (slot =? 0) then m ← store_ptr m slot entry; Some (0, set_mem m st)
      else
        '(r, st) ← append_entry entry st;
        if negb (r =? 0) then Some (-1, set_heap (hfree (e_heap st) entry) st) else Some (0, st).

Definition setenv (name value overwrite : Z) (st : env) : option (Z * env) :=
  v ← valid_name (e_mem st) name;
  match (if value =? 0 then None else v) with
  | None => Some (-1, set_errno EINVAL st)
  | Some nlen =>
      vlen ← strlen (e_mem st) value;
      st ← env_lock st;
      slot ← find_entry st name nlen;
      '(rc, st) ←
        (if negb (slot =? 0) && (overwrite =? 0) then Some (0, st)
         else
           same ← (if slot =? 0 then Some false
                   else p ← load_ptr (e_mem st) slot; r ← strncmp (e_mem st) (p + nlen + 1) value (u64 (vlen + 1)); Some (r =? 0));
           if (same : bool) then Some (0, st) else set_entry slot name nlen value vlen st);
      Some (rc, env_unlock st)
  end.

(** The entries with another name are moved up, from [src] to [dst]. *)
Fixpoint unset_loop (fuel : nat) (m : mem) (dst src name nlen : Z) : option mem :=
  match fuel with
  | 0%nat => None
  | S fuel =>
      p ← load_ptr m src;
      if p =? 0 then store_ptr m dst 0
      else
        b ← entry_is m p name nlen;
        if (b : bool) then unset_loop fuel m dst (src + 8) name nlen
        else m ← store_ptr m dst p; unset_loop fuel m (dst + 8) (src + 8) name nlen
  end.

Definition unsetenv (name : Z) (st : env) : option (Z * env) :=
  v ← valid_name (e_mem st) name;
  match v with
  | None => Some (-1, set_errno EINVAL st)
  | Some nlen =>
      st ← env_lock st;
      st ← (if e_environ st =? 0 then Some st
            else m ← unset_loop (mem_fuel (e_mem st)) (e_mem st) (e_environ st) (e_environ st) name nlen; Some (set_mem m st));
      Some (0, env_unlock st)
  end.

Definition putenv (string : Z) (st : env) : option (Z * env) :=
  if string =? 0 then Some (-1, set_errno EINVAL st)
  else
    eq ← strchr (e_mem st) string (chr "=");
    if eq =? 0 then '(_, st) ← unsetenv string st; Some (0, st)
    else
      let nlen := eq - string in
      st ← env_lock st;
      slot ← find_entry st string nlen;
      '(rc, st) ←
        (if negb (slot =? 0) then m ← store_ptr (e_mem st) slot string; Some (0, set_mem m st)
         else '(r, st) ← append_entry string st; Some (if negb (r =? 0) then -1 else 0, st));
      Some (rc, env_unlock st)
  .

Definition clearenv (st : env) : option (Z * env) :=
  st ← env_lock st; Some (0, env_unlock (set_environ 0 st)).

(** [while (i < nlen && entry[i] == name[i]) i++] *)
Fixpoint same_loop (k : nat) (m : mem) (entry name i : Z) : option Z :=
  match k with
  | 0%nat => Some i
  | S k => a ← load m (entry + i); b ← load m (name + i); if a =? b then same_loop k m entry name (i + 1) else Some i
  end.

Fixpoint get_loop (fuel : nat) (m : mem) (e name nlen : Z) : option Z :=
  match fuel with
  | 0%nat => None
  | S fuel =>
      entry ← load_ptr m e;
      if entry =? 0 then Some 0
      else
        i ← same_loop (Z.to_nat nlen) m entry name 0;
        hit ← (if i =? nlen then c ← load m (entry + i); Some (c =? chr "=") else Some false);
        if (hit : bool) then Some (entry + nlen + 1) else get_loop fuel m (e + 8) name nlen
  end.

Definition getenv (name : Z) (st : env) : option Z :=
  if (name =? 0) || (e_environ st =? 0) then Some 0
  else
    nlen ← strlen_loop (mem_fuel (e_mem st)) (e_mem st) name 0;
    if nlen =? 0 then Some 0 else get_loop (mem_fuel (e_mem st)) (e_mem st) (e_environ st) name nlen.
End Operations.
Arguments env : clear implicits.
