(* ===== verification/EnvSpec.v ===== *)
(** * The loops of the environment

    What each loop of env.c does to an array of entries.  An entry is the
    address of a string and the string. *)

From S2P Require Import Prelude Mem CString Alloc Words Env.

(** The entry is of the form name=value. *)
Definition named (nm : list Z) (x : Z * list Z) : Prop := nm ++ [chr "="] `prefix_of` x.2.
#[export] Instance named_dec nm x : Decision (named nm x).
Proof. unfold named. apply _. Defined.

(** Addresses of user space. *)
Definition in_user (a n : Z) : Prop := 0 < a /\ a + n <= 2 ^ 47.

(** A string that has no byte in [base, base + size). *)
Definition string_ok (m : mem) (base size : Z) (x : Z * list Z) : Prop :=
  in_user x.1 (len x.2 + 1) /\ cstr_at m x.1 x.2 /\ (x.1 + len x.2 + 1 <= base \/ base + size <= x.1).

(** ** Comparisons *)

Lemma entry_is_spec m x name full (n : nat) : cstr_at m x.1 x.2 -> cstr_at m name full -> (n <= length full)%nat ->
  entry_is m x.1 name (Z.of_nat n) = Some (bool_decide (named (take n full) x)).
Proof.
  intros Hx Hn Hle. unfold entry_is. rewrite (strncmp_spec _ _ _ _ _ _ Hx Hn), Nat2Z.id. obind. destruct x as [p t]. cbn [fst snd] in *. unfold named. cbn [snd].
  assert (Hz : first_diff (take n t) (take n full) = 0 <-> take n t = take n full) by (apply first_diff_zero; apply Forall_take; [apply Hx|apply Hn]).
  destruct (first_diff _ _ =? 0) eqn:E.
  - assert (Ht : take n t = take n full) by (apply Hz; lia). assert (Hlt : (n <= length t)%nat) by (apply (f_equal length) in Ht; rewrite !length_take in Ht; lia).
    assert (Hb : bytes_at m p (take n t ++ drop n t ++ [0])) by (rewrite app_assoc, take_drop; apply Hx). apply bytes_at_app in Hb as [_ Hb]. rewrite length_take_le in Hb by done. unfold load.
    assert (Hpre : take n full ++ [61] `prefix_of` t <-> exists d, drop n t = 61 :: d).
    { rewrite <- Ht. split; intros [d Hd]; exists d.
      - rewrite <- app_assoc in Hd. apply (app_inv_head (take n t)). by rewrite take_drop.
      - rewrite <- app_assoc. cbn [app]. rewrite <- Hd. by rewrite take_drop. }
    destruct (drop n t) as [|c d]; cbn [app bytes_at] in Hb; destruct Hb as [-> _]; obind; f_equal.
    + rewrite bool_decide_eq_false_2; [done|]. rewrite Hpre. by intros [d Hd].
    + destruct (c =? 61) eqn:Ec; [rewrite bool_decide_eq_true_2; [done|]|rewrite bool_decide_eq_false_2; [done|]]; rewrite Hpre; [apply Z.eqb_eq in Ec as ->; by exists d|]. intros [d' [= -> ->]]. lia.
  - rewrite bool_decide_eq_false_2; [done|]. intros [k Hk]. apply Z.eqb_neq in E. apply E, Hz. rewrite Hk, <- app_assoc. rewrite take_app_le by (rewrite length_take; lia). by rewrite take_take, Nat.min_id.
Qed.

(** ** Loops over the array *)

Lemma count_loop_spec m a l2 : forall l1 fuel, bytes_at m a (words (l1 ++ l2 ++ [0])) -> Forall is_ptr l2 -> (length l2 < fuel)%nat ->
  count_loop fuel m a (len l1) = Some (len l1 + len l2).
Proof.
  induction l2 as [|p l2 IH]; intros l1 [|fuel] Hb Hp Hf; cbn [length] in Hf; try lia; cbn [count_loop].
  - rewrite (load_word _ _ _ _ _ Hb) by lia. obind. cbn. f_equal. lia.
  - apply Forall_cons in Hp as [Hp Hl]. unfold is_ptr in Hp. rewrite (load_word _ _ _ _ _ Hb) by lia. obind. bool_if.
    replace (len l1 + 1) with (len (l1 ++ [p])) by (rewrite length_app; cbn [length]; lia). rewrite IH; [|by rewrite <- app_assoc|done|lia]. rewrite length_app. cbn [length]. f_equal. lia.
Qed.

Section Find.
Context (m : mem) (a name : Z) (full : list Z) (n : nat).
Hypotheses (Hname : cstr_at m name full) (Hn : (n <= length full)%nat).
Abbreviation nm := (take n full).

Lemma find_loop_spec E2 : forall E1 fuel, bytes_at m a (words ((E1 ++ E2).*1 ++ [0])) -> Forall (fun x => is_ptr x.1 /\ cstr_at m x.1 x.2) E2 -> (length E2 < fuel)%nat ->
  find_loop fuel m (a + 8 * len E1) name (Z.of_nat n) = Some (match list_find (named nm) E2 with Some (i, _) => a + 8 * (len E1 + Z.of_nat i) | None => 0 end).
Proof.
  induction E2 as [|x E2 IH]; intros E1 [|fuel] Hb Hp Hf; cbn [length] in Hf; try lia; cbn [find_loop]; rewrite fmap_app, <- app_assoc in Hb; replace (len E1) with (len E1.*1) by (by rewrite length_fmap).
  - rewrite (load_word _ _ _ _ _ Hb) by lia. done.
  - apply Forall_cons in Hp as [[Hp Hx] Hl]. unfold is_ptr in Hp. rewrite (load_word _ _ _ _ _ Hb) by lia. obind. bool_if. rewrite entry_is_spec with (full := full) by done. obind. cbn [list_find].
    destruct (decide (named nm x)) as [Hm|Hm]; [rewrite bool_decide_eq_true_2 by done; cbn; f_equal; lia|rewrite bool_decide_eq_false_2 by done].
    replace (a + 8 * len E1.*1 + 8) with (a + 8 * len (E1 ++ [x])) by (rewrite length_app, length_fmap; cbn [length]; lia). rewrite IH; [|by rewrite <- app_assoc; rewrite fmap_app, <- app_assoc|done|lia].
    destruct (list_find _ E2) as [[i y]|]; cbn [fmap option_fmap option_map prod_map fst snd]; [|done]. rewrite length_app, length_fmap. cbn [length]. f_equal. lia.
Qed.

(** The comparison of [getenv]. *)
Lemma same_loop_spec t : forall k p i f, cstr_at m (p + i) t -> bytes_at m (name + i) f -> (k <= length f)%nat -> Forall nonzero_byte f ->
  exists j, same_loop k m p name i = Some (i + Z.of_nat j) /\ (j <= k)%nat /\ (j = k <-> take k f `prefix_of` t).
Proof.
  induction t as [|c t IH]; intros k p i f Ht Hf Hk Hnz; (destruct k as [|k]; [exists 0%nat; cbn; split; [f_equal; lia|]; split; [lia|]; split; [intros _; rewrite take_0; apply prefix_nil|done]|]); (destruct f as [|d f]; [cbn in Hk; lia|]); cbn [length] in Hk;
    cbn [same_loop bytes_at] in *; destruct Hf as [Hd Hf]; apply Forall_cons in Hnz as [Hdz Hnz]; unfold load, nonzero_byte in *; rewrite Hd.
  - apply cstr_at_nil in Ht as ->. obind. replace (0 =? d) with false by lia. exists 0%nat. split; [f_equal; lia|]. split; [lia|]. split; [lia|]. cbn [take]. intros Hpre. by apply prefix_nil_not in Hpre.
  - apply cstr_at_cons in Ht as (-> & Hc & Ht). obind. destruct (c =? d) eqn:E.
    + apply Z.eqb_eq in E as <-. rewrite <- Z.add_assoc in Ht, Hf. destruct (IH k p (i + 1) f Ht Hf ltac:(lia) Hnz) as (j & -> & Hj & Hiff). exists (S j). split; [f_equal; lia|]. split; [lia|]. cbn [take]. split.
      * intros [= ->]. apply prefix_cons. by apply Hiff.
      * intros Hpre. apply prefix_cons_inv_2 in Hpre. f_equal. by apply Hiff.
    + exists 0%nat. split; [f_equal; lia|]. split; [lia|]. split; [lia|]. cbn [take]. intros Hpre. apply prefix_cons_inv_1 in Hpre. lia.
Qed.

Lemma hit_spec p t : n = length full -> cstr_at m p t ->
  (i ← same_loop n m p name 0; if i =? Z.of_nat n then c ← load m (p + i); Some (c =? chr "=") else Some false) = Some (bool_decide (named full (p, t))).
Proof.
  intros Hlen Ht. pose proof Hname as [Hnb Hnz]. apply bytes_at_app in Hnb as [Hnb _]. rewrite <- (Z.add_0_r p) in Ht. rewrite <- (Z.add_0_r name) in Hnb.
  destruct (same_loop_spec t n p 0 full Ht Hnb ltac:(lia) Hnz) as (j & -> & Hj & Hiff). obind. rewrite Z.add_0_r in Ht. rewrite take_ge in Hiff by lia. unfold named. cbn [snd]. destruct (0 + Z.of_nat j =? Z.of_nat n) eqn:E.
  - apply Z.eqb_eq in E. rewrite E. destruct Hiff as [[d ->] _]; [lia|]. destruct Ht as [Ht Htz]. rewrite <- app_assoc in Ht. apply bytes_at_app in Ht as [_ Ht]. unfold load. rewrite Hlen.
    destruct d as [|c d]; cbn [app bytes_at] in Ht; destruct Ht as [-> _]; obind; f_equal.
    + rewrite bool_decide_eq_false_2; [done|]. intros [k Hk]. apply (f_equal length) in Hk. rewrite !length_app in Hk. cbn in Hk. lia.
    + destruct (c =? 61) eqn:Ec; [rewrite bool_decide_eq_true_2; [done|]; apply Z.eqb_eq in Ec as ->; by exists d; rewrite <- app_assoc|rewrite bool_decide_eq_false_2; [done|]].
      intros [k Hk]. rewrite <- app_assoc in Hk. apply app_inv_head in Hk. injection Hk. lia.
  - rewrite bool_decide_eq_false_2; [done|]. intros Hpre. apply Z.eqb_neq in E. apply E. assert (j = n); [|lia]. apply Hiff. etrans; [|done]. by apply prefix_app_r.
Qed.

Lemma get_loop_spec E2 : n = length full -> forall E1 fuel, bytes_at m a (words ((E1 ++ E2).*1 ++ [0])) -> Forall (fun x => is_ptr x.1 /\ cstr_at m x.1 x.2) E2 -> (length E2 < fuel)%nat ->
  get_loop fuel m (a + 8 * len E1) name (Z.of_nat n) = Some (match list_find (named full) E2 with Some (_, x) => x.1 + len full + 1 | None => 0 end).
Proof.
  intros Hlen. induction E2 as [|x E2 IH]; intros E1 [|fuel] Hb Hp Hf; cbn [length] in Hf; try lia; cbn [get_loop]; rewrite fmap_app, <- app_assoc in Hb; replace (len E1) with (len E1.*1) by (by rewrite length_fmap).
  - rewrite (load_word _ _ _ _ _ Hb) by lia. done.
  - apply Forall_cons in Hp as [[Hp Hx] Hl]. unfold is_ptr in Hp. rewrite (load_word _ _ _ _ _ Hb) by lia. obind. bool_if. rewrite Nat2Z.id. pose proof (hit_spec x.1 x.2 Hlen Hx) as Hh. rewrite <- surjective_pairing in Hh.
    destruct (same_loop n m x.1 name 0) as [i|]; [|done]. cbn [mbind option_bind] in Hh |- *. rewrite Hh. obind. cbn [list_find].
    destruct (decide (named full x)) as [Hm|Hm]; [rewrite bool_decide_eq_true_2 by done; cbn [fst snd]; by rewrite Hlen|rewrite bool_decide_eq_false_2 by done].
    replace (a + 8 * len E1.*1 + 8) with (a + 8 * len (E1 ++ [x])) by (rewrite length_app, length_fmap; cbn [length]; lia). rewrite IH; [|by rewrite <- app_assoc; rewrite fmap_app, <- app_assoc|done|lia].
    by destruct (list_find _ E2) as [[i' y]|].
Qed.
End Find.

Lemma copy_slots_spec l : forall m dst src tail, bytes_at m src (words (l ++ tail)) -> Forall is_ptr l -> mapped m dst (8 * len l) -> dst + 8 * len l <= src \/ src + 8 * len l <= dst ->
  exists m', copy_slots (length l) m dst src = Some m' /\ bytes_at m' dst (words l) /\ changes m m' dst (8 * len l).
Proof.
  induction l as [|p l IH]; intros m dst src tail Hb Hp Hm Hd; cbn [copy_slots length] in *; [by exists m|]. apply Forall_cons in Hp as [Hp Hl]. unfold is_ptr in Hp.
  pose proof (load_word m src [] p (l ++ tail) Hb ltac:(lia)) as Hload. cbn [length] in Hload. rewrite Z.mul_0_r, Z.add_0_r in Hload. rewrite Hload. obind.
  unfold store_ptr. rewrite store_le_spec by (eapply mapped_le; [done|lia]). obind. set (m1 := write_bytes m dst (le_bytes 8 p)).
  assert (Hc1 : changes m m1 dst 8) by (apply changes_write; rewrite le_bytes_length; [eapply mapped_le; [done|lia]|lia]).
  change (words ((p :: l) ++ tail)) with (le_bytes 8 p ++ words (l ++ tail)) in Hb. apply bytes_at_app in Hb as [_ Hb]. rewrite le_bytes_length in Hb. rewrite words_app in Hb. apply bytes_at_app in Hb as [Hb Htail].
  destruct (IH m1 (dst + 8) (src + 8) []) as (m' & -> & Hb' & Hc'); [|done|eapply changes_mapped; [done|]; eapply mapped_sub; [done|lia..]|lia|].
  { rewrite app_nil_r. eapply changes_bytes; [done|rewrite words_length; lia|done]. }
  exists m'. split; [done|]. split.
  - change (words (p :: l)) with (le_bytes 8 p ++ words l). apply bytes_at_app. rewrite le_bytes_length. split; [|done]. eapply changes_bytes; [done|rewrite le_bytes_length; lia|apply bytes_at_write].
  - eapply changes_trans; [eapply changes_sub; [done|lia..]|eapply changes_sub; [done|lia..]].
Qed.

Lemma unset_loop_spec a size name full (n : nat) E2 : forall m done gap fuel,
  bytes_at m a (words (done ++ gap ++ E2.*1 ++ [0])) -> string_ok m a size (name, full) -> (n <= length full)%nat -> Forall (string_ok m a size) E2 ->
  8 * (len done + len gap + len E2 + 1) <= size -> (length E2 < fuel)%nat ->
  exists m', unset_loop fuel m (a + 8 * len done) (a + 8 * (len done + len gap)) name (Z.of_nat n) = Some m' /\
    bytes_at m' a (words ((done ++ (filter (fun x => ~ named (take n full) x) E2).*1) ++ [0])) /\ changes m m' a size.
Proof.
  induction E2 as [|x E2 IH]; intros m done gap [|fuel] Hb Hname Hn HE Hsz Hf; cbn [length] in Hf, Hsz; try lia; cbn [unset_loop].
  - pose proof (load_word m a (done ++ gap) 0 [] ltac:(by rewrite <- app_assoc) ltac:(lia)) as Hl. rewrite length_app, Nat2Z.inj_add in Hl. rewrite Hl. obind. cbn [Z.eqb].
    assert (Hb' : exists y r, bytes_at m a (words (done ++ y :: r))) by (destruct gap as [|g gap]; [by exists 0, []|by exists g, (gap ++ [0])]). destruct Hb' as (y & r & Hb').
    destruct (store_word _ _ _ _ _ 0 Hb') as (m' & -> & Hbm & Hc). exists m'. split; [done|]. cbn [filter list_filter fmap list_fmap]. rewrite app_nil_r. split; [|eapply changes_sub; [done|lia..]].
    replace (done ++ 0 :: r) with ((done ++ [0]) ++ r) in Hbm by (by rewrite <- app_assoc). rewrite words_app in Hbm. by apply bytes_at_app in Hbm as [? _].
  - apply Forall_cons in HE as [Hx HE]. pose proof Hx as (Hu & Hxs & _). destruct Hu as [Hu1 Hu2].
    pose proof (load_word m a (done ++ gap) x.1 (E2.*1 ++ [0]) ltac:(by rewrite <- app_assoc) ltac:(lia)) as Hl. rewrite length_app, Nat2Z.inj_add in Hl. rewrite Hl. obind. replace (x.1 =? 0) with false by lia.
    rewrite (entry_is_spec m x name full n Hxs (proj1 (proj2 Hname)) Hn). obind. destruct (decide (named (take n full) x)) as [Hm|Hm].
    + rewrite bool_decide_eq_true_2 by done. rewrite filter_cons_False by (by intros []). destruct (IH m done (gap ++ [x.1]) fuel) as (m' & Hr & Hbm & Hc); [by rewrite <- app_assoc|done..|rewrite length_app; cbn [length]; lia|lia|].
      exists m'. split; [|done]. rewrite <- Hr. f_equal. rewrite length_app. cbn [length]. lia.
    + rewrite bool_decide_eq_false_2 by done. rewrite filter_cons_True by done.
      assert (Hst : exists m1 gap', store_ptr m (a + 8 * len done) x.1 = Some m1 /\ bytes_at m1 a (words ((done ++ [x.1]) ++ gap' ++ E2.*1 ++ [0])) /\ changes m m1 (a + 8 * len done) 8 /\ length gap' = length gap).
      { destruct gap as [|g gap].
        - destruct (store_word m a done x.1 (E2.*1 ++ [0]) x.1 Hb) as (m1 & -> & Hb1 & Hc1). exists m1, []. by rewrite <- app_assoc.
        - destruct (store_word m a done g (gap ++ x.1 :: E2.*1 ++ [0]) x.1 Hb) as (m1 & -> & Hb1 & Hc1). exists m1, (gap ++ [x.1]). rewrite <- !app_assoc. split; [done|]. split; [done|]. split; [done|]. rewrite length_app. cbn. lia. }
      destruct Hst as (m1 & gap' & -> & Hb1 & Hc1 & Hg). obind. assert (Hca : changes m m1 a size) by (eapply changes_sub; [done|lia..]).
      assert (Hkeep : forall y, string_ok m a size y -> string_ok m1 a size y) by (intros y (Hy1 & Hy2 & Hy3); split; [done|]; split; [by eapply changes_cstr|done]).
      destruct (IH m1 (done ++ [x.1]) gap' fuel) as (m' & Hr & Hbm & Hc); [done|by apply Hkeep|done|eapply Forall_impl; [done|apply Hkeep]|rewrite length_app; cbn [length]; lia|lia|].
      exists m'. rewrite length_app in Hr. cbn [length] in Hr. split; [rewrite <- Hr; f_equal; lia|]. split; [rewrite <- !app_assoc in Hbm |- *; by rewrite <- (app_assoc done) in Hbm|]. by eapply changes_trans.
Qed.

(** ** Names *)

Definition good_name (n : list Z) : Prop := n <> [] /\ chr "=" ∉ n.
#[export] Instance good_name_dec n : Decision (good_name n).
Proof. unfold good_name. apply _. Defined.

Lemma env_name_loop_spec m name s2 : forall (s1 : list Z) fuel, cstr_at m (name + len s1) s2 -> (length s2 < fuel)%nat ->
  name_loop fuel m name (len s1) = Some (if bool_decide (chr "=" ∉ s2) then Some (len s1 + len s2) else None).
Proof.
  induction s2 as [|c s2 IH]; intros s1 [|fuel] Hs Hf; cbn [length] in Hf; try lia; cbn [name_loop]; unfold load.
  - apply cstr_at_nil in Hs as ->. obind. cbn. by rewrite Z.add_0_r.
  - apply cstr_at_cons in Hs as (-> & Hc & Hs). unfold nonzero_byte in Hc. obind. replace (c =? 0) with false by lia. destruct (c =? 61) eqn:E.
    + rewrite bool_decide_eq_false_2; [done|]. apply Z.eqb_eq in E as ->. intros Hno. apply Hno. left.
    + replace (len s1 + 1) with (len (s1 ++ [c])) by (rewrite length_app; cbn [length]; lia). rewrite IH; [|rewrite length_app; cbn [length]; by replace (name + Z.of_nat (length s1 + 1)) with (name + len s1 + 1) by lia|lia].
      assert (Heq : chr "=" ∉ c :: s2 <-> chr "=" ∉ s2) by (rewrite elem_of_cons; split; [tauto|intros H1 [H2|H2]; [lia|tauto]]). rewrite (bool_decide_ext _ _ Heq). destruct (bool_decide _); [|done]. rewrite length_app. cbn [length]. do 2 f_equal. lia.
Qed.

Lemma valid_name_spec m name s : name <> 0 -> cstr_at m name s -> valid_name m name = Some (if bool_decide (good_name s) then Some (len s) else None).
Proof.
  intros Hnz Hs. unfold valid_name. bool_if. destruct s as [|c s].
  - pose proof Hs as H0. apply cstr_at_nil in H0. unfold load. by rewrite H0.
  - pose proof Hs as H0. apply cstr_at_cons in H0 as (Hc & Hcz & _). unfold nonzero_byte in Hcz. unfold load. rewrite Hc. obind. replace (c =? 0) with false by lia.
    rewrite (env_name_loop_spec m name (c :: s) []); [|by cbn; rewrite Z.add_0_r|apply cstr_at_fuel in Hs; lia].
    assert (Heq : good_name (c :: s) <-> chr "=" ∉ c :: s) by (unfold good_name; split; [tauto|done]). by rewrite (bool_decide_ext _ _ Heq).
Qed.

Lemma write_entry_spec m entry name nm value v : let size := len nm + 1 + len v + 1 in
  cstr_at m name nm -> cstr_at m value v -> mapped m entry size -> len v + 1 < 2 ^ 64 ->
  (name + len nm + 1 <= entry \/ entry + size <= name) -> (value + len v + 1 <= entry \/ entry + size <= value) ->
  exists m', write_entry m entry name (len nm) value (len v) = Some m' /\ cstr_at m' entry (nm ++ chr "=" :: v) /\ changes m m' entry size.
Proof.
  intros size Hn Hv Hm Hsm Hdn Hdv. subst size. unfold write_entry. destruct Hn as [Hnb Hnz]. apply bytes_at_app in Hnb as [Hnb _].
  rewrite memcpy_spec; [|done|eapply mapped_le; [done|lia]|lia]. obind. set (m1 := write_bytes m entry nm). assert (Hc1 : changes m m1 entry (len nm)) by (apply changes_write; [eapply mapped_le; [done|lia]|lia]).
  assert (Hm1 : mapped m1 entry (len nm + 1 + len v + 1)) by (by eapply changes_mapped). rewrite (store_at _ _ _ _ _ Hm1) by lia. obind. change (<[entry + len nm := 61]> m1) with (write_bytes m1 (entry + len nm) [61]). set (m2 := write_bytes m1 _ [61]).
  assert (Hc2 : changes m1 m2 (entry + len nm) 1) by (apply changes_write; [eapply mapped_sub; [exact Hm1|cbn; lia..]|cbn; lia]). assert (Hm2 : mapped m2 entry (len nm + 1 + len v + 1)) by (by eapply changes_mapped).
  assert (Hc12 : changes m m2 entry (len nm + 1 + len v + 1)) by (eapply changes_trans; eapply changes_sub; try done; lia). apply (changes_cstr _ _ _ _ _ _ Hc12 Hdv) in Hv as [Hvb Hvz].
  rewrite u64_small by lia. replace (len v + 1) with (len (v ++ [0])) by (rewrite length_app; cbn [length]; lia). assert (Hl : len (v ++ [0]) = len v + 1) by (rewrite length_app; cbn [length]; lia).
  rewrite memcpy_spec; [|done|rewrite Hl; eapply mapped_sub; [exact Hm2|lia..]|rewrite Hl; lia]. obind. set (m3 := write_bytes m2 _ (v ++ [0])).
  assert (Hc3 : changes m2 m3 (entry + len nm + 1) (len v + 1)) by (apply changes_write; [rewrite Hl; eapply mapped_sub; [exact Hm2|lia..]|lia]). exists m3. split; [done|]. split.
  - split; [|apply Forall_app; split; [done|apply Forall_cons; split; [unfold nonzero_byte; lia|done]]]. rewrite <- app_assoc. apply bytes_at_app. split.
    + apply (changes_bytes _ _ _ _ _ _ Hc3); [lia|]. apply (changes_bytes _ _ _ _ _ _ Hc2); [lia|]. apply bytes_at_write.
    + apply (bytes_at_app _ _ [61]). split; [|apply bytes_at_write]. apply (changes_bytes _ _ _ _ _ _ Hc3); [cbn; lia|]. apply bytes_at_write.
  - eapply changes_trans; [done|]. eapply changes_sub; [done|lia..].
Qed.
