(* ===== verification/EnvThms.v ===== *)
(** * The environment as a map

    A program that calls setenv, unsetenv, putenv, clearenv and getenv sees a
    map from names to values, whatever the layout of [environ] in memory.  The
    proofs use the allocator through its interface only. *)

From S2P Require Import Prelude Mem CString Alloc Words Env EnvSpec.

Section Environment.
Context {H : Type} {AH : Allocator H} {LH : AllocatorLaws H}.

(** ** The representation *)

(** The bytes that the calls may write: the array at hand, or the one that env.c owns. *)
Definition base (st : env H) : Z := if e_own_array st =? 0 then e_environ st else e_own_array st.
Definition size_of (st : env H) (n : Z) : Z := if e_own_array st =? 0 then (if e_environ st =? 0 then 0 else 8 * (n + 1)) else 8 * e_own_cap st.
Abbreviation kept st n := (string_ok (e_mem st) (base st) (size_of st n)).

Definition owned (st : env H) : Prop := exists n, (e_own_array st, n) ∈ hblocks (e_heap st) /\ 1 <= e_own_cap st /\ 8 * e_own_cap st <= n.

(** [environ] lists the entries [E]; the strings [C] of the program are where the calls do not write. *)
Record holds (st : env H) (E C : list (Z * list Z)) : Prop := {
  h_inv : hinv (e_heap st);
  h_own : e_own_array st <> 0 -> owned st /\ (e_environ st = 0 \/ e_environ st = e_own_array st /\ len E + 1 <= e_own_cap st);
  h_null : e_environ st = 0 -> E = [];
  h_array : e_environ st <> 0 -> in_user (e_environ st) (8 * (len E + 1)) /\ bytes_at (e_mem st) (e_environ st) (words (E.*1 ++ [0]));
  h_entries : Forall (kept st (len E)) E;
  h_strings : Forall (kept st (len E)) C }.

Lemma string_ok_sub m m' b n x : m ⊆ m' -> string_ok m b n x -> string_ok m' b n x.
Proof. intros Hm (H1 & H2 & H3). split; [done|]. split; [by eapply cstr_at_subseteq|done]. Qed.
Lemma strings_sub m m' b n l : m ⊆ m' -> Forall (string_ok m b n) l -> Forall (string_ok m' b n) l.
Proof. intros Hm Hl. eapply Forall_impl; [done|]. intros x. by apply string_ok_sub. Qed.
Lemma strings_changes m m' b n l : changes m m' b n -> Forall (string_ok m b n) l -> Forall (string_ok m' b n) l.
Proof. intros Hc Hl. eapply Forall_impl; [done|]. intros x (H1 & H2 & H3). split; [done|]. split; [by eapply changes_cstr|done]. Qed.

Lemma e_mem_set m st : hinv (e_heap st) -> dom m = dom (e_mem st) -> e_mem (set_mem m st) = m.
Proof. apply hwrite_mem. Qed.

(** A heap with more blocks. *)
Lemma holds_heap st E C h : holds st E C -> hinv h -> e_mem st ⊆ hmem h -> (forall b, b ∈ hblocks (e_heap st) -> b ∈ hblocks h) -> holds (set_heap h st) E C.
Proof.
  intros [Hi Ho Hn Ha HE HC] Hh Hm Hb. constructor; try done.
  - intros Hz. destruct (Ho Hz) as ((n & Hin & Hle) & Henv). split; [|done]. exists n. split; [by apply Hb|done].
  - intros Hz. destruct (Ha Hz) as [Hu Hw]. split; [done|]. by eapply bytes_at_subseteq.
  - by eapply strings_sub.
  - by eapply strings_sub.
Qed.

Lemma holds_errno st E C e : holds st E C -> holds (set_errno e st) E C.
Proof. intros []. by constructor. Qed.
Lemma holds_locked st E C b : holds st E C -> holds (set_locked b st) E C.
Proof. intros []. by constructor. Qed.
Lemma holds_forget st E x C : holds st E (x :: C) -> holds st E C.
Proof. intros []. constructor; try done. by eapply Forall_inv_tail. Qed.

Lemma kept_entries st n l : Forall (kept st n) l -> Forall (fun x => is_ptr x.1 /\ cstr_at (e_mem st) x.1 x.2) l.
Proof. intros Hl. eapply Forall_impl; [done|]. intros x ([H1 H2] & H3 & _). split; [|done]. unfold is_ptr. lia. Qed.
Lemma kept_ptrs st n l : Forall (kept st n) l -> Forall is_ptr l.*1.
Proof. intros Hl. apply Forall_fmap. eapply Forall_impl; [by eapply kept_entries|]. by intros x []. Qed.

(** The loops have fuel enough. *)
Lemma array_fuel m a (l : list Z) : bytes_at m a (words l) -> (length l < mem_fuel m)%nat.
Proof. intros Hb. apply bytes_at_fuel in Hb. pose proof (words_length l). lia. Qed.

Lemma entries_fuel st E C : holds st E C -> e_environ st <> 0 -> (length E < mem_fuel (e_mem st))%nat.
Proof. intros Hh Hz. destruct (h_array _ _ _ Hh Hz) as [_ Hb]. apply array_fuel in Hb. rewrite length_app, length_fmap in Hb. cbn [length] in Hb. lia. Qed.

Lemma env_count_spec st E C : holds st E C -> env_count st = Some (len E).
Proof.
  intros Hh. unfold env_count. destruct (e_environ st =? 0) eqn:Ez; [by rewrite (h_null _ _ _ Hh) by lia|]. assert (Hz : e_environ st <> 0) by lia. destruct (h_array _ _ _ Hh Hz) as [_ Hb].
  rewrite (count_loop_spec _ _ E.*1 []); [by rewrite length_fmap|done|eapply kept_ptrs, Hh|]. rewrite length_fmap. by eapply entries_fuel.
Qed.

Lemma find_entry_spec st E C name full (n : nat) : holds st E C -> (name, full) ∈ C -> (n <= length full)%nat ->
  find_entry st name (Z.of_nat n) = Some (match list_find (named (take n full)) E with Some (i, _) => e_environ st + 8 * Z.of_nat i | None => 0 end).
Proof.
  intros Hh Hin Hn. unfold find_entry. destruct (e_environ st =? 0) eqn:Ez; [by rewrite (h_null _ _ _ Hh) by lia|]. assert (Hz : e_environ st <> 0) by lia. destruct (h_array _ _ _ Hh Hz) as [_ Hb].
  pose proof (proj1 (Forall_forall _ _) (h_strings _ _ _ Hh) _ Hin) as (_ & Hname & _). cbn [fst snd] in Hname.
  pose proof (find_loop_spec (e_mem st) (e_environ st) name full n Hname Hn E [] (mem_fuel (e_mem st)) Hb (kept_entries _ _ _ (h_entries _ _ _ Hh)) (entries_fuel _ _ _ Hh Hz)) as Hf. cbn [length] in Hf.
  replace (e_environ st + 8 * Z.of_nat 0) with (e_environ st) in Hf by lia. rewrite Hf. destruct (list_find _ E) as [[i x]|]; [f_equal; lia|reflexivity].
Qed.

(** ** Writing a slot *)

(** The slot of an entry gets another string. *)
Lemma store_slot st E1 x E2 y C : holds st (E1 ++ x :: E2) C -> kept st (len (E1 ++ x :: E2)) y ->
  exists m, store_ptr (e_mem st) (e_environ st + 8 * len E1) y.1 = Some m /\ holds (set_mem m st) (E1 ++ y :: E2) C.
Proof.
  intros Hh Hy. assert (Hz : e_environ st <> 0) by (intros Hz; pose proof (h_null _ _ _ Hh Hz); by destruct E1). destruct (h_array _ _ _ Hh Hz) as [Hu Hb]. rewrite fmap_app, <- app_assoc in Hb.
  destruct (store_word _ _ _ _ _ y.1 Hb) as (m & Hst & Hbm & Hc). rewrite length_fmap in Hst, Hc. exists m. split; [done|].
  assert (Hlen : len (E1 ++ y :: E2) = len (E1 ++ x :: E2)) by (rewrite !length_app; cbn [length]; lia).
  assert (Hcs : changes (e_mem st) m (base st) (size_of st (len (E1 ++ x :: E2)))).
  { eapply changes_sub; [done| |]; unfold base, size_of; destruct (e_own_array st =? 0) eqn:Eo.
    - lia.
    - destruct (h_own _ _ _ Hh) as [_ [?|[-> _]]]; lia.
    - replace (e_environ st =? 0) with false by lia. rewrite length_app. cbn [length]. lia.
    - destruct (h_own _ _ _ Hh) as [_ [?|[-> Hcap]]]; [lia..|]. rewrite length_app in Hcap. cbn [length] in Hcap. lia. }
  assert (Hdom : dom m = dom (e_mem st)) by apply Hcs. pose proof (h_inv _ _ _ Hh) as Hi. constructor; rewrite ?(e_mem_set m st Hi Hdom); rewrite ?Hlen; try done.
  - by apply hwrite_inv.
  - intros Hoz. destruct (h_own _ _ _ Hh Hoz) as [(n & Hin & Hle) He]. split; [|done]. exists n. cbn. by rewrite hwrite_blocks.
  - intros _. split; [done|]. rewrite fmap_app, <- app_assoc. exact Hbm.
  - eapply strings_changes; [exact Hcs|]. pose proof (h_entries _ _ _ Hh) as HE. rewrite !Forall_app, !Forall_cons in *. tauto.
  - eapply strings_changes; [exact Hcs|]. apply Hh.
Qed.

(** ** Room for another entry *)

(** The array is owned, has two slots to spare, and starts with the entries [E]. *)
Record roomy (st : env H) (E C : list (Z * list Z)) : Prop := {
  r_inv : hinv (e_heap st);
  r_env : e_environ st = e_own_array st;
  r_nz : e_own_array st <> 0;
  r_own : owned st;
  r_cap : len E + 2 <= e_own_cap st;
  r_array : bytes_at (e_mem st) (e_own_array st) (words E.*1);
  r_entries : Forall (string_ok (e_mem st) (e_own_array st) (8 * e_own_cap st)) E;
  r_strings : Forall (string_ok (e_mem st) (e_own_array st) (8 * e_own_cap st)) C }.

Lemma owned_facts st : hinv (e_heap st) -> owned st -> in_user (e_own_array st) (8 * e_own_cap st) /\ mapped (e_mem st) (e_own_array st) (8 * e_own_cap st).
Proof.
  intros Hi (n & Hin & Hcap & Hle). destruct (hblocks_range _ _ _ Hi Hin). split; [split; lia|]. destruct (hblocks_mapped _ _ _ Hi Hin) as [_ Hm]. by eapply mapped_le.
Qed.

Lemma store_two m a (l : list Z) cap p : mapped m a (8 * cap) -> bytes_at m a (words l) -> len l + 2 <= cap ->
  exists m1 m2, store_ptr m (a + 8 * len l) p = Some m1 /\ store_ptr m1 (a + 8 * (len l + 1)) 0 = Some m2 /\ bytes_at m2 a (words (l ++ [p; 0])) /\ changes m m2 a (8 * cap).
Proof.
  intros Hm Hb Hc. set (m1 := write_bytes m (a + 8 * len l) (le_bytes 8 p)). set (m2 := write_bytes m1 (a + 8 * (len l + 1)) (le_bytes 8 0)). exists m1, m2.
  assert (Hm0 : mapped m (a + 8 * len l) 8) by (eapply mapped_sub; [done|lia..]). assert (Hc1 : changes m m1 (a + 8 * len l) 8) by (apply changes_write; rewrite le_bytes_length; [done|lia]).
  assert (Hm1 : mapped m1 (a + 8 * (len l + 1)) 8) by (eapply changes_mapped; [done|]; eapply mapped_sub; [exact Hm|lia..]). assert (Hc2 : changes m1 m2 (a + 8 * (len l + 1)) 8) by (apply changes_write; rewrite le_bytes_length; [done|lia]).
  split; [by apply store_le_spec|]. split; [by apply store_le_spec|]. split.
  - change [p; 0] with ([p] ++ [0]). rewrite !words_app. apply bytes_at_app. rewrite words_length. split; [apply (changes_bytes _ _ _ _ _ _ Hc2); [rewrite words_length; lia|]; apply (changes_bytes _ _ _ _ _ _ Hc1); [rewrite words_length; lia|done]|].
    apply bytes_at_app. change (words [p]) with (le_bytes 8 p ++ []). change (words [0]) with (le_bytes 8 0 ++ []). rewrite !app_nil_r, le_bytes_length. split; [apply (changes_bytes _ _ _ _ _ _ Hc2); [rewrite le_bytes_length; lia|]; apply bytes_at_write|].
    replace (a + 8 * len l + Z.of_nat 8) with (a + 8 * (len l + 1)) by lia. apply bytes_at_write.
  - eapply changes_trans; eapply changes_sub; try done; lia.
Qed.

(** The allocator refuses a request of at most [b] bytes, with at most [k] blocks more than there are. *)
Definition starved (st : env H) (k : nat) (b : Z) : Prop :=
  exists h n l, hinv h /\ n <= b /\ hblocks h ≡ₚ l ++ hblocks (e_heap st) /\ (length l <= k)%nat /\ (hmalloc h n).1 = 0.

(** Nothing but errno and the state of the allocator differs. *)
Definition gave_up (st st' : env H) : Prop :=
  exists h, st' = set_errno ENOMEM (set_heap h st) /\ hinv h /\ hmem h = e_mem st /\ hblocks h ≡ₚ hblocks (e_heap st).

Lemma fresh_string m p n x b k : (forall j, p <= j < p + n -> m !! j = None) -> 0 < n -> string_ok m b k x -> x.1 + len x.2 + 1 <= p \/ p + n <= x.1.
Proof. intros Hf Hn (_ & Hc & _). apply cstr_at_mapped in Hc. pose proof (fresh_disjoint _ _ _ _ _ Hf Hc Hn). lia. Qed.

Lemma ensure_room_spec st E C : holds st E C ->
  exists r st', ensure_room (len E) st = Some (r, st') /\ (r = 0 /\ roomy st' E C /\ e_errno st' = e_errno st /\ e_locked st' = e_locked st \/ r = -1 /\ gave_up st st' /\ starved st 0 (16 * len E + 128)).
Proof.
  intros Hh. pose proof (h_inv _ _ _ Hh) as Hi. unfold ensure_room. cbv zeta.
  assert (Hbound : 8 * (len E + 1) <= 2 ^ 47). { destruct (decide (e_environ st = 0)) as [Hz|Hz]; [rewrite (h_null _ _ _ Hh Hz); cbn; lia|]. destruct (h_array _ _ _ Hh Hz) as [[??] _]. lia. }
  rewrite u64_small by lia. destruct (negb (e_environ st =? 0) && (e_environ st =? e_own_array st) && (len E + 2 <=? e_own_cap st)) eqn:E1.
  { exists 0, st. split; [done|]. left. split; [done|]. split; [|done]. assert (Hz : e_environ st <> 0) by lia. assert (Hoz : e_own_array st <> 0) by lia. destruct (h_array _ _ _ Hh Hz) as [_ Hb]. destruct (h_own _ _ _ Hh Hoz) as [How _].
    pose proof (h_entries _ _ _ Hh) as HE. pose proof (h_strings _ _ _ Hh) as HC. unfold base, size_of in HE, HC. replace (e_own_array st =? 0) with false in HE, HC by lia. constructor; try done; try lia.
    rewrite words_app in Hb. replace (e_own_array st) with (e_environ st) by lia. by apply bytes_at_app in Hb as [? _]. }
  destruct ((e_environ st =? 0) && negb (e_own_array st =? 0) && (len E + 2 <=? e_own_cap st)) eqn:E2.
  { exists 0, (set_environ (e_own_array st) st). split; [done|]. left. split; [done|]. split; [|done]. assert (Hz : e_environ st = 0) by lia. assert (Hoz : e_own_array st <> 0) by lia. destruct (h_own _ _ _ Hh Hoz) as [How _].
    pose proof (h_strings _ _ _ Hh) as HC. unfold base, size_of in HC. replace (e_own_array st =? 0) with false in HC by lia. rewrite (h_null _ _ _ Hh Hz) in *. constructor; try done. cbn. lia. }
  rewrite u64_small by lia. set (cap := if (len E + 2) * 2 <? 16 then 16 else (len E + 2) * 2). assert (Hcap : (len E + 2 <= cap /\ 16 <= cap <= 2 ^ 46) /\ (cap = 16 \/ cap = (len E + 2) * 2)) by (subst cap; destruct (_ <? 16) eqn:Ec; lia). clearbody cap.
  replace (SIZE_MAX / 8 <? cap) with false by (change (SIZE_MAX / 8) with 2305843009213693951; lia). rewrite u64_small by lia. destruct (hmalloc (e_heap st) (cap * 8)) as [arr h] eqn:Em.
  assert (Hrq : request (cap * 8)) by (split; lia). pose proof (hmalloc_inv _ _ _ _ Hi Hrq Em) as Hih. pose proof (hmalloc_effect _ _ _ _ Hi Hrq Em) as Heff. destruct (arr =? 0) eqn:Ez.
  { exists (-1), (set_errno ENOMEM (set_heap h st)). split; [done|]. right. split; [done|]. split; [exists h; split; [done|]; split; [done|]; destruct Heff as [(_ & ? & Hq)|[? _]]; [by rewrite Hq|lia]|].
    exists (e_heap st), (cap * 8), []. split; [done|]. split; [|split; [done|]; split; [done|]; rewrite Em; cbn; lia]. destruct Hcap as [[??] [->| ->]]; lia. }
  assert (Hp : arr <> 0) by lia. destruct (alloc_effect_block _ _ _ _ Heff Hp) as (Hsub & Hmap & Hfresh). destruct Heff as [[? _]|(_ & n & Hn & Hbl & _)]; [done|].
  assert (Hblock : (arr, n) ∈ hblocks h) by (rewrite Hbl; left). replace (cap * 8) with (8 * cap) in * by lia. destruct (hblocks_range _ _ _ Hih Hblock) as [Hr1 Hr2].
  assert (Hcopy : exists m, copy_slots (length E) (hmem h) arr (e_environ st) = Some m /\ bytes_at m arr (words E.*1) /\ changes (hmem h) m arr (8 * cap)).
  { destruct (decide (e_environ st = 0)) as [Hz|Hz]; [rewrite (h_null _ _ _ Hh Hz); by exists (hmem h)|]. destruct (h_array _ _ _ Hh Hz) as [_ Hb]. pose proof (bytes_at_mapped _ _ _ Hb) as Hma. rewrite words_length, length_app, length_fmap in Hma. cbn [length] in Hma.
    pose proof (fresh_disjoint _ _ _ _ _ Hfresh Hma ltac:(lia) ltac:(lia)) as Hdis. destruct (copy_slots_spec E.*1 (hmem h) arr (e_environ st) [0]) as (m & Hm & Hbm & Hc); [by eapply bytes_at_subseteq|eapply kept_ptrs, Hh|rewrite length_fmap; eapply mapped_le; [done|lia]|rewrite length_fmap; lia|].
    rewrite length_fmap in Hm, Hc. exists m. split; [done|]. split; [done|]. eapply changes_sub; [done|lia..]. }
  destruct Hcopy as (m & Hm & Hbm & Hc). unfold e_mem at 1. cbn [set_heap e_heap e_environ]. rewrite Nat2Z.id, Hm. obind. eexists 0, _. split; [done|]. left. split; [done|]. split; [|done].
  assert (Hkeep : forall l, Forall (kept st (len E)) l -> Forall (string_ok m arr (8 * cap)) l).
  { intros l Hl. eapply strings_changes; [done|]. eapply strings_sub; [done|]. eapply Forall_impl; [done|]. intros x Hx. pose proof (fresh_string _ _ _ _ _ _ Hfresh ltac:(lia) Hx) as Hd. destruct Hx as (Hx1 & Hx2 & _). by split. }
  assert (Hmem : e_mem (set_environ arr (set_own arr cap (set_mem m (set_heap h st)))) = m) by (apply (hwrite_mem h m); [done|apply Hc]).
  constructor; rewrite ?Hmem; try done; [apply hwrite_inv; [done|apply Hc]|exists n; cbn; rewrite hwrite_blocks by (done || apply Hc); split; [done|split; lia]|cbn; lia|apply Hkeep, Hh|apply Hkeep, Hh].
Qed.

Lemma append_entry_spec st E C x : holds st E C -> x ∈ C ->
  exists r st', append_entry x.1 st = Some (r, st') /\ (r = 0 /\ holds st' (E ++ [x]) C /\ e_errno st' = e_errno st /\ e_locked st' = e_locked st \/ r = -1 /\ gave_up st st' /\ starved st 0 (16 * len E + 128)).
Proof.
  intros Hh Hx. unfold append_entry. rewrite (env_count_spec _ _ _ Hh). obind. destruct (ensure_room_spec _ _ _ Hh) as (r & st1 & -> & [(-> & Hr & He & Hl)|(-> & Hg)]); obind; [|exists (-1), st1; split; [done|by right]]. cbn [Z.eqb negb].
  destruct Hr as [Hi Henv Hnz Hown Hcap Harr HE HC]. destruct (owned_facts _ Hi Hown) as [[Hu1 Hu2] Hm]. replace (len E) with (len E.*1) by (by rewrite length_fmap). rewrite Henv.
  destruct (store_two (e_mem st1) (e_own_array st1) E.*1 (e_own_cap st1) x.1 Hm Harr) as (m1 & m2 & -> & Hs2 & Hb & Hc); [by rewrite length_fmap|]. obind. rewrite Hs2. obind. eexists 0, _. split; [done|]. left. split; [done|]. split; [|done].
  assert (Hmem : e_mem (set_mem m2 st1) = m2) by (apply e_mem_set; [done|apply Hc]). assert (Hb0 : base (set_mem m2 st1) = e_own_array st1 /\ forall k, size_of (set_mem m2 st1) k = 8 * e_own_cap st1) by (unfold base, size_of; cbn; by replace (e_own_array st1 =? 0) with false by lia).
  destruct Hb0 as [Hb0 Hsz]. constructor; rewrite ?Hmem, ?Hb0, ?Hsz; cbn [set_mem set_heap e_heap e_own_array e_environ e_own_cap].
  - apply hwrite_inv; [done|apply Hc].
  - intros _. split; [|right; split; [done|rewrite length_app; cbn [length]; lia]]. destruct Hown as (n & Hin & Hle). exists n. cbn. by rewrite hwrite_blocks by (done || apply Hc).
  - intros Hz. congruence.
  - intros _. rewrite Henv. split; [split; [done|rewrite length_app; cbn [length]; lia]|]. rewrite fmap_app, <- app_assoc. exact Hb.
  - eapply strings_changes; [done|]. apply Forall_app. split; [done|]. apply Forall_cons. split; [|done]. by apply (proj1 (Forall_forall _ _) HC).
  - by eapply strings_changes.
Qed.

(** ** A new string *)

(** The first entry with the name is replaced, or the string is added at the end. *)
Definition put_entry (nm : list Z) (y : Z * list Z) (E : list (Z * list Z)) : list (Z * list Z) :=
  match list_find (named nm) E with Some (i, _) => <[i := y]> E | None => E ++ [y] end.

Lemma region_mapped st E C : holds st E C -> size_of st (len E) = 0 /\ base st = 0 \/ 0 < size_of st (len E) /\ mapped (e_mem st) (base st) (size_of st (len E)).
Proof.
  intros Hh. unfold base, size_of. destruct (e_own_array st =? 0) eqn:Eo.
  - destruct (e_environ st =? 0) eqn:Ez; [left; lia|right]. assert (Hz : e_environ st <> 0) by lia. destruct (h_array _ _ _ Hh Hz) as [_ Hb]. apply bytes_at_mapped in Hb. rewrite words_length, length_app, length_fmap in Hb. split; [lia|]. eapply mapped_le; [done|cbn [length]; lia].
  - right. assert (Hoz : e_own_array st <> 0) by lia. destruct (h_own _ _ _ Hh Hoz) as [How _]. destruct (owned_facts _ (h_inv _ _ _ Hh) How) as [_ Hm]. destruct How as (n & _ & Hc & _). split; [lia|done].
Qed.

(** A fresh block that holds a string. *)
Lemma holds_fresh st E C p n h m t : holds st E C -> hinv h -> (p, n) ∈ hblocks h -> hblocks h ≡ₚ (p, n) :: hblocks (e_heap st) -> e_mem st ⊆ hmem h -> len t + 1 <= n ->
  (forall k, p <= k < p + (len t + 1) -> e_mem st !! k = None) -> changes (hmem h) m p (len t + 1) -> cstr_at m p t -> holds (set_mem m (set_heap h st)) E ((p, t) :: C).
Proof.
  intros Hh Hi Hin Hbl Hsub Hn Hfresh Hc Ht. destruct (hblocks_range _ _ _ Hi Hin) as [Hr1 Hr2]. assert (Hdom : dom m = dom (hmem h)) by apply Hc. assert (Hmem : hmem (hwrite h m) = m) by (by apply hwrite_mem).
  assert (Hhold : holds (set_mem m (set_heap h st)) E C).
  { apply (holds_heap st E C (hwrite h m)); [done|by apply hwrite_inv| |].
    - rewrite Hmem. apply map_subseteq_spec. intros k v Hk. destruct (decide (p <= k < p + (len t + 1))) as [Hin'|Hout]; [by rewrite Hfresh in Hk|]. destruct Hc as [_ Hc]. rewrite Hc by lia. by eapply lookup_weaken.
    - intros b Hb. rewrite hwrite_blocks by done. rewrite Hbl. by right. }
  destruct Hhold as [H1 H2 H3 H4 H5 H6]. constructor; try done. apply Forall_cons. split; [|done]. split; [split; cbn; lia|]. split; [unfold e_mem; cbn [set_mem set_heap e_heap fst snd]; by rewrite Hmem|]. cbn [fst snd].
  change (base (set_mem m (set_heap h st))) with (base st). change (size_of (set_mem m (set_heap h st)) (len E)) with (size_of st (len E)).
  destruct (region_mapped _ _ _ Hh) as [[-> ->]|[Hpos Hm]]; [lia|]. pose proof (fresh_disjoint _ _ _ _ _ Hfresh Hm ltac:(lia) Hpos). lia.
Qed.

Lemma list_find_split {A} (P : A -> Prop) `{!forall x, Decision (P x)} (E : list A) i x y : list_find P E = Some (i, x) -> exists E1 E2, E = E1 ++ x :: E2 /\ i = length E1 /\ <[i := y]> E = E1 ++ y :: E2.
Proof.
  intros Hf. apply list_find_Some in Hf as (Hi & _). exists (take i E), (drop (S i) E). pose proof (lookup_lt_Some _ _ _ Hi). split; [by rewrite take_drop_middle|]. split; [rewrite length_take; lia|]. by apply insert_take_drop.
Qed.

Lemma put_slot st E x C nm i y : holds st E (x :: C) -> list_find (named nm) E = Some (i, y) ->
  exists m, store_ptr (e_mem st) (e_environ st + 8 * Z.of_nat i) x.1 = Some m /\ holds (set_mem m st) (put_entry nm x E) C.
Proof.
  intros Hh Hf. unfold put_entry. rewrite Hf. destruct (list_find_split _ _ _ _ x Hf) as (E1 & E2 & -> & -> & ->). pose proof (h_strings _ _ _ Hh) as HC. apply Forall_cons in HC as [Hx _]. apply holds_forget in Hh. by apply (store_slot st E1 y E2 x C).
Qed.

(** A call that may run out of memory: the entries are as [E'] says for some address, or unchanged. *)
Definition attempt (st : env H) (E C : list (Z * list Z)) (E' : Z -> list (Z * list Z)) (r : Z) (st' : env H) : Prop :=
  e_locked st' = e_locked st /\ (r = 0 /\ e_errno st' = e_errno st /\ (exists p, holds st' (E' p) C) \/ r = -1 /\ e_errno st' = ENOMEM /\ holds st' E C /\ starved st 1 (2 * Z.of_nat (size (e_mem st)) + 256)).

Lemma gave_up_attempt st st' E C E' : holds st E C -> gave_up st st' -> starved st 1 (2 * Z.of_nat (size (e_mem st)) + 256) -> attempt st E C E' (-1) st'.
Proof. intros Hh (h & -> & Hi & Hm & Hb) Hst. split; [done|]. right. split; [done|]. split; [done|]. split; [|done]. apply holds_errno, holds_heap; [done..|by rewrite Hm|intros b; by rewrite Hb]. Qed.

(** Giving a fresh block back restores the memory. *)
Lemma free_restores (h h1 : H) p n : hinv h1 -> hblocks h1 ≡ₚ (p, n) :: hblocks h -> (forall k, p <= k < p + n -> hmem h !! k = None) -> (forall k, k < p \/ p + n <= k -> hmem h1 !! k = hmem h !! k) ->
  hinv (hfree h1 p) /\ hmem (hfree h1 p) = hmem h /\ hblocks (hfree h1 p) ≡ₚ hblocks h.
Proof.
  intros Hi Hbl Hf Hs. assert (Hin : (p, n) ∈ hblocks h1) by (rewrite Hbl; left). destruct (hfree_effect _ _ _ Hi Hin) as (Hb & Hn & Ho). split; [by eapply hfree_inv|]. split.
  - apply map_eq. intros k. destruct (decide (p <= k < p + n)) as [Hk|Hk]; [by rewrite Hn, Hf|]. by rewrite Ho, Hs by lia.
  - apply (Permutation_cons_inv (a := (p, n))). by rewrite <- Hb, Hbl.
Qed.

Lemma entries_size st E C : holds st E C -> 8 * len E <= Z.of_nat (size (e_mem st)).
Proof.
  intros Hh. destruct (decide (e_environ st = 0)) as [Hz|Hz]; [rewrite (h_null _ _ _ Hh Hz); cbn; lia|]. destruct (h_array _ _ _ Hh Hz) as [_ Hb]. apply bytes_at_mapped, mapped_size in Hb. pose proof (words_length (E.*1 ++ [0])) as Hwl. rewrite length_app, length_fmap in Hwl. cbn [length] in Hwl. lia.
Qed.

Lemma starved_weak st E C : holds st E C -> starved st 0 (16 * len E + 128) -> starved st 1 (2 * Z.of_nat (size (e_mem st)) + 256).
Proof. intros Hh (h & n & l & Hi & Hn & Hb & Hl & Hm). pose proof (entries_size _ _ _ Hh). exists h, n, l. split_and!; try done; lia. Qed.

Lemma starved_fresh st E C st1 p n : holds st E C -> starved st1 0 (16 * len E + 128) -> hblocks (e_heap st1) ≡ₚ (p, n) :: hblocks (e_heap st) -> starved st 1 (2 * Z.of_nat (size (e_mem st)) + 256).
Proof.
  intros Hh (h & k & l & Hi & Hn & Hb & Hl & Hm) Hb1. pose proof (entries_size _ _ _ Hh). destruct l; [|cbn in Hl; lia]. exists h, k, [(p, n)]. split_and!; try done; [lia|]. by rewrite Hb, Hb1.
Qed.

Lemma set_entry_spec st E C name nm value v : holds st E C -> (name, nm) ∈ C -> (value, v) ∈ C ->
  let slot := match list_find (named nm) E with Some (i, _) => e_environ st + 8 * Z.of_nat i | None => 0 end in
  exists r st', set_entry slot name (len nm) value (len v) st = Some (r, st') /\ attempt st E C (fun p => put_entry nm (p, nm ++ chr "=" :: v) E) r st'.
Proof.
  intros Hh Hn Hv slot. pose proof (h_inv _ _ _ Hh) as Hi. pose proof (proj1 (Forall_forall _ _) (h_strings _ _ _ Hh)) as HC. pose proof (HC _ Hn) as Hsn. pose proof (HC _ Hv) as Hsv.
  pose proof Hsn as ([Hn1 Hn2] & Hnc & _). pose proof Hsv as ([Hv1 Hv2] & Hvc & _). cbn [fst snd] in *. unfold set_entry. rewrite (u64_small (SIZE_MAX - len nm)) by (unfold SIZE_MAX; lia). rewrite u64_small by (unfold SIZE_MAX; lia).
  replace (SIZE_MAX - len nm - 2 <? len v) with false by (unfold SIZE_MAX; lia). rewrite u64_small by lia. set (t := nm ++ chr "=" :: v). assert (Hsize : len nm + 1 + len v + 1 = len t + 1) by (subst t; rewrite length_app; cbn [length]; lia). rewrite Hsize.
  destruct (hmalloc (e_heap st) (len t + 1)) as [p h] eqn:Em. assert (Hrq : request (len t + 1)) by (split; lia). pose proof (hmalloc_inv _ _ _ _ Hi Hrq Em) as Hih. pose proof (hmalloc_effect _ _ _ _ Hi Hrq Em) as Heff. destruct (p =? 0) eqn:Ez.
  { eexists (-1), _. split; [done|]. apply gave_up_attempt; [done| |].
    - exists h. split; [done|]. split; [done|]. destruct Heff as [(_ & ? & Hq)|[? _]]; [by rewrite Hq|lia].
    - exists (e_heap st), (len t + 1), []. split; [done|]. split; [|split; [done|]; split; [cbn; lia|]; rewrite Em; cbn; lia]. apply cstr_at_fuel in Hnc, Hvc. unfold mem_fuel in *. lia. }
  assert (Hp : p <> 0) by lia. destruct (alloc_effect_block _ _ _ _ Heff Hp) as (Hsub & Hmap & Hfresh). destruct Heff as [[? _]|(_ & n & Hle & Hbl & _ & Hfull & Hsame)]; [done|]. assert (Hin : (p, n) ∈ hblocks h) by (rewrite Hbl; left).
  destruct (write_entry_spec (hmem h) p name nm value v) as (m & Hw & Ht & Hc); [by eapply cstr_at_subseteq|by eapply cstr_at_subseteq|by rewrite Hsize|lia|rewrite Hsize; apply (fresh_string _ _ _ (name, nm) _ _ Hfresh ltac:(lia) Hsn)|rewrite Hsize; apply (fresh_string _ _ _ (value, v) _ _ Hfresh ltac:(lia) Hsv)|].
  rewrite Hsize in Hc. change (e_mem (set_heap h st)) with (hmem h). rewrite Hw. obind. set (st1 := set_mem m (set_heap h st)). assert (Hh1 : holds st1 E ((p, t) :: C)) by (by eapply holds_fresh). assert (Hm1 : e_mem st1 = m) by (apply (hwrite_mem h m); [done|apply Hc]).
  subst slot. destruct (list_find (named nm) E) as [[i y]|] eqn:Ef.
  - replace (negb _) with true. 2: { destruct (decide (e_environ st = 0)) as [Hz|Hz]; [by rewrite (h_null _ _ _ Hh Hz) in Ef|]. destruct (h_array _ _ _ Hh Hz) as [[? _] _]. lia. }
    destruct (put_slot st1 E (p, t) C nm i y Hh1 Ef) as (m' & Hst & Hh2). rewrite Hm1 in Hst. cbn [fst] in Hst. change (e_environ st1) with (e_environ st) in Hst. rewrite Hst. obind. eexists 0, _. split; [done|]. split; [done|]. left. split; [done|]. split; [done|]. by exists p.
  - cbn [Z.eqb negb]. destruct (append_entry_spec st1 E ((p, t) :: C) (p, t) Hh1 ltac:(left)) as (r & st2 & Happ & [(-> & Hh2 & He & Hl)|(-> & Hg)]); cbn [fst] in Happ; rewrite Happ; obind; cbn [Z.eqb negb].
    + eexists 0, _. split; [done|]. split; [done|]. left. split; [done|]. split; [done|]. exists p. unfold put_entry. rewrite Ef. by apply holds_forget in Hh2.
    + destruct Hg as ((h2 & -> & Hi2 & Hm2 & Hb2) & Hst). eexists (-1), _. split; [done|]. apply gave_up_attempt; [done| |apply starved_fresh with E C st1 p n; [done|done|by change (e_heap st1) with (hwrite h m); rewrite hwrite_blocks by (done || apply Hc)]]. exists (hfree h2 p). cbn [set_errno set_heap e_heap]. split; [done|].
      change (e_heap st1) with (hwrite h m) in Hb2. rewrite hwrite_blocks in Hb2 by (done || apply Hc). apply free_restores with n; [done|by rewrite Hb2|done|]. intros k Hk. rewrite Hm2, Hm1. destruct Hc as [_ Hc]. rewrite Hc by lia. by apply Hsame.
Qed.

(** ** The calls *)

Lemma first_diff_zero_take (w v : list Z) : Forall nonzero_byte w -> Forall nonzero_byte v -> (first_diff (take (Z.to_nat (len v + 1)) w) (take (Z.to_nat (len v + 1)) v) =? 0) = bool_decide (w = v).
Proof.
  intros Hw Hv. rewrite (take_ge v) by lia. destruct (decide (w = v)) as [->|Hne].
  - rewrite bool_decide_eq_true_2, take_ge by (done || lia). apply Z.eqb_eq. by apply first_diff_zero.
  - rewrite bool_decide_eq_false_2 by done. apply Z.eqb_neq. intros Hz. apply first_diff_zero in Hz; [|by apply Forall_take|done]. apply Hne. rewrite <- Hz. symmetry. apply take_ge. apply (f_equal length) in Hz. rewrite length_take in Hz. lia.
Qed.

Lemma setenv_spec st E C name nm value v ow : holds st E C -> e_locked st = false -> (name, nm) ∈ C -> (value, v) ∈ C -> good_name nm ->
  exists r st', setenv name value ow st = Some (r, st') /\
    attempt st E C (fun p => match list_find (named nm) E with Some (_, x) => if bool_decide (ow = 0 \/ x.2 = nm ++ chr "=" :: v) then E else put_entry nm (p, nm ++ chr "=" :: v) E | None => put_entry nm (p, nm ++ chr "=" :: v) E end) r st'.
Proof.
  intros Hh Hlk Hn Hv Hg. pose proof (proj1 (Forall_forall _ _) (h_strings _ _ _ Hh)) as HC. pose proof (HC _ Hn) as ([Hn1 Hn2] & Hnc & _). pose proof (HC _ Hv) as ([Hv1 Hv2] & Hvc & _). cbn [fst snd] in *.
  unfold setenv. rewrite (valid_name_spec _ _ nm) by (done || lia). obind. rewrite bool_decide_eq_true_2 by done. replace (value =? 0) with false by lia. rewrite (strlen_spec _ _ _ Hvc). obind. unfold env_lock. rewrite Hlk. obind.
  set (st1 := set_locked true st). assert (Hh1 : holds st1 E C) by (by apply holds_locked). rewrite (find_entry_spec _ _ _ _ nm _ Hh1 Hn) by lia. obind. rewrite take_ge by lia.
  pose proof (set_entry_spec st1 E C name nm value v Hh1 Hn Hv) as Hset. cbv zeta in Hset. destruct (list_find (named nm) E) as [[i x]|] eqn:Ef.
  2: { cbn [Z.eqb negb andb mbind option_bind]. destruct Hset as (r & st2 & -> & Hl & Hres). obind. eexists _, _. split; [done|]. split; [done|]. destruct Hres as [(-> & He & p & Hp)|(-> & He & Hp & Hst)]; [left|right]; split; try done; split; try done; [exists p|split; [|done]]; by apply holds_locked. }
  assert (Hz : e_environ st <> 0) by (intros Hz; by rewrite (h_null _ _ _ Hh Hz) in Ef). pose proof (h_array _ _ _ Hh1 Hz) as [[Hu1 _] Hb]. change (e_environ st1) with (e_environ st) in *. replace (e_environ st + 8 * Z.of_nat i =? 0) with false by lia. cbn [negb andb].
  destruct (ow =? 0) eqn:Eo.
  { obind. eexists _, _. split; [done|]. split; [done|]. left. split; [done|]. split; [done|]. exists 0. rewrite bool_decide_eq_true_2 by lia. by apply holds_locked. }
  pose proof (list_find_split _ _ _ _ x Ef) as (E1 & E2 & HE & Hi & _). rewrite HE, fmap_app, <- app_assoc in Hb. pose proof (h_entries _ _ _ Hh1) as Hents. assert (Hx : kept st1 (len E) x) by (apply (proj1 (Forall_forall _ _) Hents); rewrite HE; apply elem_of_app; right; left).
  destruct Hx as ([Hx1 Hx2] & Hxc & _). replace (8 * Z.of_nat i) with (8 * len E1.*1) by (rewrite length_fmap; lia). rewrite (load_word _ _ _ _ _ Hb) by lia. obind. apply list_find_Some in Ef as (_ & [w Hw] & _). rewrite Hw, <- app_assoc in Hxc.
  assert (Hwc : cstr_at (e_mem st1) (x.1 + len nm + 1) w) by (apply cstr_at_app in Hxc as [_ Hxc]; by apply cstr_at_cons in Hxc as (_ & _ & ?)).
  rewrite (strncmp_spec _ _ _ _ _ _ Hwc Hvc), u64_small by lia. obind. rewrite (first_diff_zero_take w v) by (apply Hwc || apply Hvc). rewrite Hw, <- app_assoc. cbn [app].
  assert (Hiff : ow = 0 \/ nm ++ chr "=" :: w = nm ++ chr "=" :: v <-> w = v) by (split; [intros [?|Heq]; [lia|]; apply app_inv_head in Heq; by injection Heq|intros ->; by right]). rewrite (bool_decide_ext _ _ Hiff).
  destruct (bool_decide (w = v)).
  - obind. eexists _, _. split; [done|]. split; [done|]. left. split; [done|]. split; [done|]. exists 0. by apply holds_locked.
  - replace (8 * len E1.*1) with (8 * Z.of_nat i) by (rewrite length_fmap; lia). destruct Hset as (r & st2 & -> & Hl & Hres). obind. eexists _, _. split; [done|]. split; [done|].
    destruct Hres as [(-> & He & p & Hp)|(-> & He & Hp & Hst)]; [left|right]; split; try done; split; try done; [exists p|split; [|done]]; by apply holds_locked.
Qed.

Lemma string_ok_le m b n n' x : n' <= n -> string_ok m b n x -> string_ok m b n' x.
Proof. intros Hle (H1 & H2 & H3). split; [done|]. split; [done|lia]. Qed.

Lemma size_of_le st n n' : n' <= n -> size_of st n' <= size_of st n.
Proof. unfold size_of. destruct (_ =? 0); [|lia]. destruct (_ =? 0); lia. Qed.

(** The array has lost entries. *)
Lemma holds_shrink st E E' C m : holds st E C -> e_environ st <> 0 -> changes (e_mem st) m (base st) (size_of st (len E)) -> bytes_at m (e_environ st) (words (E'.*1 ++ [0])) ->
  (length E' <= length E)%nat -> (forall x, x ∈ E' -> x ∈ E) -> holds (set_mem m st) E' C.
Proof.
  intros Hh Hz Hc Hb Hle Hin. pose proof (h_inv _ _ _ Hh) as Hi. assert (Hdom : dom m = dom (e_mem st)) by apply Hc.
  assert (Hkeep : forall l, Forall (kept st (len E)) l -> Forall (string_ok m (base st) (size_of st (len E'))) l).
  { intros l Hl. eapply Forall_impl; [by eapply strings_changes|]. intros x. apply string_ok_le, size_of_le. lia. }
  constructor; rewrite ?(e_mem_set m st Hi Hdom).
  - by apply hwrite_inv.
  - intros Hoz. destruct (h_own _ _ _ Hh Hoz) as [(n & Hb' & Hcap) He]. split; [exists n; cbn; by rewrite hwrite_blocks|]. destruct He as [?|[??]]; [by left|right]. split; [done|]. cbn. lia.
  - done.
  - intros _. destruct (h_array _ _ _ Hh Hz) as [[??] _]. split; [split; cbn; lia|done].
  - apply Hkeep. apply Forall_forall. intros x Hx. by apply (proj1 (Forall_forall _ _) (h_entries _ _ _ Hh)), Hin.
  - apply Hkeep, Hh.
Qed.

Lemma base_environ st E C : holds st E C -> e_environ st <> 0 -> base st = e_environ st /\ 8 * (len E + 1) <= size_of st (len E).
Proof.
  intros Hh Hz. unfold base, size_of. destruct (e_own_array st =? 0) eqn:Eo; [replace (e_environ st =? 0) with false by lia; lia|]. destruct (h_own _ _ _ Hh) as [_ [?|[??]]]; lia.
Qed.

Lemma unsetenv_spec st E C name nm : holds st E C -> e_locked st = false -> (name, nm) ∈ C -> good_name nm ->
  exists st', unsetenv name st = Some (0, st') /\ e_locked st' = false /\ e_errno st' = e_errno st /\ holds st' (filter (fun x => ~ named nm x) E) C.
Proof.
  intros Hh Hlk Hn Hg. pose proof (proj1 (Forall_forall _ _) (h_strings _ _ _ Hh) _ Hn) as Hs. pose proof Hs as ([Hn1 Hn2] & Hnc & _). cbn [fst snd] in *.
  unfold unsetenv. rewrite (valid_name_spec _ _ nm) by (done || lia). obind. rewrite bool_decide_eq_true_2 by done. unfold env_lock. rewrite Hlk. obind. set (st1 := set_locked true st). assert (Hh1 : holds st1 E C) by (by apply holds_locked).
  change (e_environ st1) with (e_environ st). destruct (e_environ st =? 0) eqn:Ez; obind.
  { eexists. split; [done|]. split; [done|]. split; [done|]. rewrite (h_null _ _ _ Hh) by lia. apply holds_locked. rewrite (h_null _ _ _ Hh) in Hh1 by lia. done. }
  assert (Hz : e_environ st <> 0) by lia. destruct (h_array _ _ _ Hh1 Hz) as [_ Hb]. destruct (base_environ _ _ _ Hh1 Hz) as [Hbase Hsize]. change (e_environ st1) with (e_environ st) in *. pose proof (entries_fuel _ _ _ Hh1 Hz) as Hfuel.
  change (base st1) with (base st) in *. pose proof (h_entries _ _ _ Hh1) as HE. change (base st1) with (base st) in HE. rewrite Hbase in Hs, HE.
  destruct (unset_loop_spec (e_environ st) (size_of st1 (len E)) name nm (length nm) E (e_mem st1) [] [] (mem_fuel (e_mem st1)) Hb Hs (le_n _) HE Hsize Hfuel) as (m & Hm & Hbm & Hc).
  cbn [length] in Hm. change (8 * (Z.of_nat 0 + Z.of_nat 0)) with 0 in Hm. change (8 * Z.of_nat 0) with 0 in Hm. rewrite !Z.add_0_r in Hm. rewrite Hm. obind. rewrite take_ge in Hbm by lia.
  eexists. split; [done|]. split; [done|]. split; [done|]. apply holds_locked. eapply holds_shrink; [done|done|change (base st1) with (base st); by rewrite Hbase|done| |].
  - apply length_filter.
  - intros x Hx. by apply list_elem_of_filter in Hx as [_ ?].
Qed.

Lemma clearenv_spec st E C : holds st E C -> e_locked st = false ->
  exists st', clearenv st = Some (0, st') /\ e_locked st' = false /\ e_errno st' = e_errno st /\ holds st' [] C.
Proof.
  intros Hh Hlk. unfold clearenv, env_lock. rewrite Hlk. obind. eexists. split; [done|]. split; [done|]. split; [done|]. constructor; try done; [apply Hh| |].
  - intros Hoz. destruct (h_own _ _ _ Hh Hoz) as [How _]. split; [done|by left].
  - eapply Forall_impl; [apply Hh|]. intros x (Hx1 & Hx2 & Hx3). split; [done|]. split; [done|]. revert Hx3. unfold base, size_of. cbn. destruct (e_own_array st =? 0); [|done]. destruct Hx1. cbn. lia.
Qed.

Lemma getenv_spec st E C name nm : holds st E C -> (name, nm) ∈ C -> nm <> [] ->
  getenv name st = Some (match list_find (named nm) E with Some (_, x) => x.1 + len nm + 1 | None => 0 end).
Proof.
  intros Hh Hn Hne. pose proof (proj1 (Forall_forall _ _) (h_strings _ _ _ Hh) _ Hn) as ([Hn1 Hn2] & Hnc & _). cbn [fst snd] in *. unfold getenv. replace (name =? 0) with false by lia. cbn [orb].
  destruct (e_environ st =? 0) eqn:Ez; [by rewrite (h_null _ _ _ Hh) by lia|]. assert (Hz : e_environ st <> 0) by lia. destruct (h_array _ _ _ Hh Hz) as [_ Hb]. change (strlen_loop _ _ name 0) with (strlen (e_mem st) name). rewrite (strlen_spec _ _ _ Hnc). obind.
  replace (len nm =? 0) with false by (destruct nm; [done|cbn [length]; lia]).
  pose proof (get_loop_spec (e_mem st) (e_environ st) name nm (length nm) Hnc (le_n _) E eq_refl [] (mem_fuel (e_mem st)) Hb (kept_entries _ _ _ (h_entries _ _ _ Hh)) (entries_fuel _ _ _ Hh Hz)) as Hf. cbn [length] in Hf.
  replace (e_environ st + 8 * Z.of_nat 0) with (e_environ st) in Hf by lia. by rewrite Hf.
Qed.

(** ** Entries as names and values *)

Fixpoint split_entry (t : list Z) : option (list Z * list Z) :=
  match t with
  | [] => None
  | c :: t => if c =? chr "=" then Some ([], t) else '(n, v) ← split_entry t; Some (c :: n, v)
  end.

Lemma split_entry_some t n v : split_entry t = Some (n, v) <-> t = n ++ chr "=" :: v /\ chr "=" ∉ n.
Proof.
  revert n v. induction t as [|c t IH]; intros n v; cbn [split_entry]; [split; [done|intros [Heq _]; by destruct n]|]. destruct (c =? 61) eqn:Ec.
  - apply Z.eqb_eq in Ec as ->. split; [intros [= <- <-]; split; [done|apply not_elem_of_nil]|]. intros [Heq Hn]. destruct n as [|d n]; [by injection Heq as ->|]. injection Heq as <- _. exfalso. apply Hn. left.
  - destruct (split_entry t) as [[n' v']|] eqn:Es; cbn [mbind option_bind].
    + split.
      * intros [= <- <-]. destruct (proj1 (IH n' v') eq_refl) as [-> Hn]. split; [done|]. rewrite elem_of_cons. intros [?|?]; [lia|done].
      * intros [Heq Hn]. destruct n as [|d n]; [injection Heq; lia|]. injection Heq as <- Heq. rewrite elem_of_cons in Hn. assert (Hs : Some (n', v') = Some (n, v)) by (apply IH; tauto). by injection Hs as -> ->.
    + split; [done|]. intros [Heq Hn]. destruct n as [|d n]; [injection Heq; lia|]. injection Heq as <- Heq. rewrite elem_of_cons in Hn. assert (Hs : None = Some (n, v)) by (apply IH; tauto). done.
Qed.

Lemma split_entry_none t : split_entry t = None <-> chr "=" ∉ t.
Proof.
  induction t as [|c t IH]; cbn [split_entry]; [split; [intros _; apply not_elem_of_nil|done]|]. rewrite elem_of_cons. destruct (c =? 61) eqn:Ec; [split; [done|]; intros Hn; exfalso; apply Hn; left; lia|].
  destruct (split_entry t) as [[n v]|]; cbn [mbind option_bind]; [split; [done|]; intros Hn; assert (@None (list Z * list Z) = None -> False) by (intros _; destruct IH as [_ IH]; assert (Some (n, v) = None) by (apply IH; tauto); done); tauto|]. split; [|done]. intros _ [?|?]; [lia|]. by apply IH.
Qed.

(** The variables: the first entry with a name counts. *)
Fixpoint vars (l : list (list Z)) : gmap (list Z) (list Z) :=
  match l with
  | [] => ∅
  | t :: l => match split_entry t with Some (n, v) => <[n := v]> (vars l) | None => vars l end
  end.

Lemma named_split nm x : chr "=" ∉ nm -> named nm x <-> exists v, split_entry x.2 = Some (nm, v).
Proof.
  intros Hn. unfold named. split; intros [v Hv]; exists v.
  - apply split_entry_some. by rewrite <- app_assoc in Hv.
  - apply split_entry_some in Hv as [-> _]. by rewrite <- app_assoc.
Qed.

Lemma vars_lookup nm (E : list (Z * list Z)) : chr "=" ∉ nm -> vars E.*2 !! nm = (fun y => drop (S (length nm)) y.2.2) <$> list_find (named nm) E.
Proof.
  intros Hn. induction E as [|x E IH]; [apply lookup_empty|]. cbn [list_find fmap list_fmap vars]. destruct (decide (named nm x)) as [Hx|Hx].
  - apply named_split in Hx as [v Hv]; [|done]. rewrite Hv, lookup_insert_eq. apply split_entry_some in Hv as [Ht _]. cbn [fmap option_fmap option_map snd]. rewrite Ht. f_equal. clear. induction nm as [|c nm IH]; [done|exact IH].
  - assert (Hrest : vars E.*2 !! nm = (fun y => drop (S (length nm)) y.2.2) <$> (prod_map S id <$> list_find (named nm) E)) by (rewrite IH; by destruct (list_find (named nm) E) as [[i y]|]).
    destruct (split_entry x.2) as [[n v]|] eqn:Es; [|done]. rewrite lookup_insert_ne; [done|]. intros ->. apply Hx. apply named_split; [done|]. by exists v.
Qed.

Lemma put_entry_cons nm y x E : put_entry nm y (x :: E) = if decide (named nm x) then y :: E else x :: put_entry nm y E.
Proof. unfold put_entry. cbn [list_find]. destruct (decide (named nm x)); [done|]. by destruct (list_find (named nm) E) as [[i z]|]. Qed.

Lemma vars_put nm p v E : chr "=" ∉ nm -> vars (put_entry nm (p, nm ++ chr "=" :: v) E).*2 = <[nm := v]> (vars E.*2).
Proof.
  intros Hn. assert (Hnew : split_entry (nm ++ chr "=" :: v) = Some (nm, v)) by (by apply split_entry_some). induction E as [|x E IH]; [cbn; by rewrite Hnew|]. rewrite put_entry_cons. destruct (decide (named nm x)) as [Hx|Hx]; cbn [fmap list_fmap vars snd].
  - apply named_split in Hx as [w Hw]; [|done]. rewrite Hnew, Hw. by rewrite insert_insert_eq.
  - rewrite IH. destruct (split_entry x.2) as [[n w]|] eqn:Es; [|done]. apply insert_insert_ne. intros ->. apply Hx. apply named_split; [done|]. by exists w.
Qed.

Lemma vars_unset nm (E : list (Z * list Z)) : chr "=" ∉ nm -> vars (filter (fun x => ~ named nm x) E).*2 = delete nm (vars E.*2).
Proof.
  intros Hn. induction E as [|x E IH]; [symmetry; apply delete_empty|]. destruct (decide (named nm x)) as [Hx|Hx].
  - rewrite filter_cons_False by (by intros []). rewrite IH. apply named_split in Hx as [w Hw]; [|done]. cbn [fmap list_fmap vars]. rewrite Hw. by rewrite delete_insert_eq.
  - rewrite filter_cons_True by done. cbn [fmap list_fmap vars]. rewrite IH. destruct (split_entry x.2) as [[n w]|] eqn:Es; [|done]. rewrite delete_insert_ne; [done|]. intros ->. apply Hx. apply named_split; [done|]. by exists w.
Qed.

Lemma index_of_split t : index_of (fun x => x =? u8 (chr "=")) (t ++ [0]) = (fun y => length y.1) <$> split_entry t.
Proof.
  induction t as [|c t IH]; [done|]. cbn [app index_of split_entry]. change (u8 61) with 61 in *. destruct (c =? 61); [done|]. rewrite IH. by destruct (split_entry t) as [[n v]|].
Qed.

Lemma putenv_spec st E C p t nm v : holds st E C -> e_locked st = false -> (p, t) ∈ C -> split_entry t = Some (nm, v) ->
  exists r st', putenv p st = Some (r, st') /\ attempt st E C (fun _ => put_entry nm (p, t) E) r st'.
Proof.
  intros Hh Hlk Hp Hs. pose proof (proj1 (Forall_forall _ _) (h_strings _ _ _ Hh) _ Hp) as ([Hp1 Hp2] & Hpc & _). cbn [fst snd] in *. unfold putenv. replace (p =? 0) with false by lia. rewrite (strchr_first _ _ _ _ Hpc), index_of_split, Hs. obind. cbn [fmap option_fmap option_map fst ptr_at].
  replace (p + len nm =? 0) with false by lia. replace (p + len nm - p) with (len nm) by lia. unfold env_lock. rewrite Hlk. obind. set (st1 := set_locked true st). assert (Hh1 : holds st1 E C) by (by apply holds_locked).
  apply split_entry_some in Hs as [Ht _]. rewrite (find_entry_spec _ _ _ _ t _ Hh1 Hp) by (rewrite Ht, length_app; lia). obind. replace (take (length nm) t) with nm by (rewrite Ht; by rewrite take_app_length). destruct (list_find (named nm) E) as [[i x]|] eqn:Ef.
  - replace (negb _) with true. 2: { destruct (decide (e_environ st = 0)) as [Hz|Hz]; [by rewrite (h_null _ _ _ Hh Hz) in Ef|]. destruct (h_array _ _ _ Hh Hz) as [[? _] _]. change (e_environ st1) with (e_environ st). lia. }
    assert (Hh2 : holds st1 E ((p, t) :: C)). { pose proof (h_strings _ _ _ Hh1) as HC. destruct Hh1 as [H1 H2 H3 H4 H5 H6]. constructor; try done. apply Forall_cons. split; [|done]. by apply (proj1 (Forall_forall _ _) HC). }
    destruct (put_slot st1 E (p, t) C nm i x Hh2 Ef) as (m & Hst & Hh3). cbn [fst] in Hst. rewrite Hst. obind. eexists 0, _. split; [done|]. split; [done|]. left. split; [done|]. split; [done|]. exists 0. by apply holds_locked.
  - cbn [Z.eqb negb]. destruct (append_entry_spec st1 E C (p, t) Hh1 Hp) as (r & st2 & Happ & Hres). cbn [fst] in Happ. rewrite Happ. obind. destruct Hres as [(-> & Hh2 & He & Hl)|(-> & (h & -> & Hi & Hm & Hb) & Hst)]; cbn [Z.eqb negb].
    + eexists 0, _. split; [done|]. split; [done|]. left. split; [done|]. split; [done|]. exists 0. apply holds_locked. unfold put_entry. by rewrite Ef.
    + eexists (-1), _. split; [done|]. split; [done|]. right. split; [done|]. split; [done|]. split; [apply holds_locked, holds_errno, holds_heap; [done..|by rewrite Hm|intros b; by rewrite Hb]|]. by apply (starved_weak st1 E C).
Qed.

Lemma putenv_unset st E C p t : holds st E C -> e_locked st = false -> (p, t) ∈ C -> split_entry t = None -> t <> [] ->
  exists st', putenv p st = Some (0, st') /\ e_locked st' = false /\ e_errno st' = e_errno st /\ holds st' (filter (fun x => ~ named t x) E) C.
Proof.
  intros Hh Hlk Hp Hs Hne. pose proof (proj1 (Forall_forall _ _) (h_strings _ _ _ Hh) _ Hp) as ([Hp1 Hp2] & Hpc & _). cbn [fst snd] in *. unfold putenv. replace (p =? 0) with false by lia. rewrite (strchr_first _ _ _ _ Hpc), index_of_split, Hs. obind. cbn [fmap option_fmap option_map ptr_at Z.eqb].
  apply split_entry_none in Hs. destruct (unsetenv_spec _ _ _ _ _ Hh Hlk Hp (conj Hne Hs)) as (st' & -> & Hst). obind. by exists st'.
Qed.

Lemma putenv_empty st E C p : holds st E C -> (p, []) ∈ C -> putenv p st = Some (0, set_errno EINVAL st).
Proof.
  intros Hh Hp. pose proof (proj1 (Forall_forall _ _) (h_strings _ _ _ Hh) _ Hp) as ([Hp1 Hp2] & Hpc & _). cbn [fst snd] in *. unfold putenv. replace (p =? 0) with false by lia. rewrite (strchr_first _ _ _ _ Hpc). obind. cbn [app index_of fmap option_fmap option_map ptr_at].
  unfold unsetenv. rewrite (valid_name_spec _ _ []) by (done || lia). obind. by rewrite bool_decide_eq_false_2 by (by intros []).
Qed.

(** ** The environment as a map *)

Inductive call := Setenv (name value overwrite : Z) | Unsetenv (name : Z) | Putenv (string : Z) | Clearenv | Getenv (name : Z).

Definition run_call (c : call) (st : env H) : option (Z * env H) :=
  match c with
  | Setenv name value ow => setenv name value ow st
  | Unsetenv name => unsetenv name st
  | Putenv string => putenv string st
  | Clearenv => clearenv st
  | Getenv name => p ← getenv name st; Some (p, st)
  end.

(** The strings a call is given are NULL or among [C]; a name that is looked up has no = in it. *)
Definition known (C : list (Z * list Z)) (p : Z) : Prop := p = 0 \/ exists t, (p, t) ∈ C.
Definition call_ok (C : list (Z * list Z)) (c : call) : Prop :=
  match c with
  | Setenv name value _ => known C name /\ known C value
  | Unsetenv name => known C name
  | Putenv string => known C string
  | Clearenv => True
  | Getenv name => name = 0 \/ exists t, (name, t) ∈ C /\ chr "=" ∉ t
  end.

Definition bad_name (C : list (Z * list Z)) (p : Z) : Prop := p = 0 \/ exists t, (p, t) ∈ C /\ ~ good_name t.

(** What a call does to the variables and to errno, and what it returns; [m] is
    the memory behind the call, [full] says that the allocator refused. *)
Inductive answers (C : list (Z * list Z)) (m : mem) (full : Prop) : call -> gmap (list Z) (list Z) * Z -> Z -> gmap (list Z) (list Z) * Z -> Prop :=
  | setenv_sets name nm value v ow M e : (name, nm) ∈ C -> (value, v) ∈ C -> good_name nm ->
      answers C m full (Setenv name value ow) (M, e) 0 (if bool_decide (ow = 0 /\ is_Some (M !! nm)) then M else <[nm := v]> M, e)
  | setenv_full name nm value v ow M e : (name, nm) ∈ C -> (value, v) ∈ C -> good_name nm -> full ->
      answers C m full (Setenv name value ow) (M, e) (-1) (M, ENOMEM)
  | setenv_bad name value ow M e : bad_name C name \/ value = 0 -> answers C m full (Setenv name value ow) (M, e) (-1) (M, EINVAL)
  | unsetenv_unsets name nm M e : (name, nm) ∈ C -> good_name nm -> answers C m full (Unsetenv name) (M, e) 0 (delete nm M, e)
  | unsetenv_bad name M e : bad_name C name -> answers C m full (Unsetenv name) (M, e) (-1) (M, EINVAL)
  | putenv_sets p t nm v M e : (p, t) ∈ C -> split_entry t = Some (nm, v) -> answers C m full (Putenv p) (M, e) 0 (<[nm := v]> M, e)
  | putenv_full p t nm v M e : (p, t) ∈ C -> split_entry t = Some (nm, v) -> full -> answers C m full (Putenv p) (M, e) (-1) (M, ENOMEM)
  | putenv_unsets p t M e : (p, t) ∈ C -> split_entry t = None -> t <> [] -> answers C m full (Putenv p) (M, e) 0 (delete t M, e)
  | putenv_nothing p M e : (p, []) ∈ C -> answers C m full (Putenv p) (M, e) 0 (M, EINVAL)
  | putenv_null M e : answers C m full (Putenv 0) (M, e) (-1) (M, EINVAL)
  | clearenv_clears M e : answers C m full Clearenv (M, e) 0 (∅, e)
  | getenv_finds name nm v p M e : (name, nm) ∈ C -> nm <> [] -> M !! nm = Some v -> p <> 0 -> cstr_at m p v -> answers C m full (Getenv name) (M, e) p (M, e)
  | getenv_misses name nm M e : (name, nm) ∈ C -> nm = [] \/ M !! nm = None -> answers C m full (Getenv name) (M, e) 0 (M, e)
  | getenv_null M e : answers C m full (Getenv 0) (M, e) 0 (M, e).

Definition models (st : env H) (C : list (Z * list Z)) (M : gmap (list Z) (list Z)) : Prop := e_locked st = false /\ exists E, holds st E C /\ vars E.*2 = M.

(** What is to be shown of a call. *)
Definition correct (C : list (Z * list Z)) (M : gmap (list Z) (list Z)) (st : env H) (c : call) : Prop :=
  exists r st' M', run_call c st = Some (r, st') /\ models st' C M' /\
    answers C (e_mem st') (starved st 1 (2 * Z.of_nat (size (e_mem st)) + 256)) c (M, e_errno st) r (M', e_errno st').

Lemma valid_name_bad st E C p : holds st E C -> bad_name C p -> valid_name (e_mem st) p = Some None.
Proof.
  intros Hh [->|(t & Hin & Hb)]; [done|]. pose proof (proj1 (Forall_forall _ _) (h_strings _ _ _ Hh) _ Hin) as ([Hp1 _] & Hpc & _). rewrite (valid_name_spec _ _ t) by (done || (cbn in *; lia)). by rewrite bool_decide_eq_false_2.
Qed.

Lemma name_cases C p : known C p -> bad_name C p \/ exists t, (p, t) ∈ C /\ good_name t.
Proof. intros [->|(t & Hin)]; [by left; left|]. destruct (decide (good_name t)) as [Hg|Hg]; [right; by exists t|left; right; by exists t]. Qed.

Lemma setenv_correct st E C name value ow : holds st E C -> e_locked st = false -> known C name -> known C value -> correct C (vars E.*2) st (Setenv name value ow).
Proof.
  intros Hh Hlk Hkn Hkv. destruct (name_cases C name Hkn) as [Hbad|(nm & Hn & Hg)].
  { eexists (-1), _, (vars E.*2). cbn [run_call]. unfold setenv. rewrite (valid_name_bad _ _ _ _ Hh Hbad). obind. replace (if value =? 0 then None else None) with (@None Z) by (by destruct (value =? 0)). split; [done|].
    split; [|apply setenv_bad; by left]. split; [done|]. exists E. split; [by apply holds_errno|done]. }
  pose proof (proj1 (Forall_forall _ _) (h_strings _ _ _ Hh) _ Hn) as ([Hp1 _] & Hpc & _). cbn [fst snd] in *. destruct Hkv as [->|(v & Hv)].
  { eexists (-1), _, (vars E.*2). cbn [run_call]. unfold setenv. rewrite (valid_name_spec _ _ nm) by (done || lia). obind. cbn [Z.eqb]. split; [done|]. split; [|apply setenv_bad; by right]. split; [done|]. exists E. split; [by apply holds_errno|done]. }
  destruct (setenv_spec _ _ _ _ _ _ _ ow Hh Hlk Hn Hv Hg) as (r & st' & Hrun & Hl & Hres). rewrite Hlk in Hl. destruct Hres as [(-> & He & p & Hp)|(-> & He & Hp & Hst)].
  2: { exists (-1), st', (vars E.*2). split; [done|]. split; [split; [done|]; by exists E|]. rewrite He. by apply setenv_full with nm v. }
  exists 0, st', (if bool_decide (ow = 0 /\ is_Some (vars E.*2 !! nm)) then vars E.*2 else <[nm := v]> (vars E.*2)). split; [done|]. split; [|rewrite He; by apply setenv_sets]. split; [done|]. eexists. split; [exact Hp|].
  destruct Hg as [_ Hno]. rewrite (vars_lookup _ _ Hno). destruct (list_find (named nm) E) as [[i x]|] eqn:Ef; cbn [fmap option_fmap option_map].
  - destruct (decide (ow = 0)) as [->|How]; [rewrite !bool_decide_eq_true_2; [done|by split|by left]|]. rewrite (bool_decide_eq_false_2 (ow = 0 /\ _)) by (by intros []).
    destruct (decide (x.2 = nm ++ chr "=" :: v)) as [Heq|Hne]; [|rewrite bool_decide_eq_false_2 by (by intros [?|?]); by apply vars_put]. rewrite bool_decide_eq_true_2 by (by right). symmetry. apply insert_id. rewrite (vars_lookup _ _ Hno), Ef. cbn [fmap option_fmap option_map snd]. rewrite Heq. f_equal. clear. induction nm as [|c nm IH]; [done|exact IH].
  - rewrite bool_decide_eq_false_2 by (intros [_ [? ?]]; done). by apply vars_put.
Qed.

Lemma putenv_correct st E C p : holds st E C -> e_locked st = false -> known C p -> correct C (vars E.*2) st (Putenv p).
Proof.
  intros Hh Hlk [->|(t & Hin)].
  { eexists (-1), _, (vars E.*2). split; [done|]. split; [|apply putenv_null]. split; [done|]. exists E. split; [by apply holds_errno|done]. }
  destruct (split_entry t) as [[nm v]|] eqn:Es.
  - destruct (putenv_spec _ _ _ _ _ _ _ Hh Hlk Hin Es) as (r & st' & Hrun & Hl & Hres). rewrite Hlk in Hl. destruct Hres as [(-> & He & q & Hp)|(-> & He & Hp & Hst)].
    + exists 0, st', (<[nm := v]> (vars E.*2)). split; [done|]. split; [|rewrite He; by eapply putenv_sets]. split; [done|]. eexists. split; [exact Hp|]. apply split_entry_some in Es as [-> Hno]. by apply vars_put.
    + exists (-1), st', (vars E.*2). split; [done|]. split; [split; [done|]; by exists E|]. rewrite He. by eapply putenv_full.
  - destruct (decide (t = [])) as [->|Hne].
    + eexists 0, _, (vars E.*2). split; [by apply (putenv_empty _ E C)|]. split; [|by apply putenv_nothing]. split; [done|]. exists E. split; [by apply holds_errno|done].
    + destruct (putenv_unset _ _ _ _ _ Hh Hlk Hin Es Hne) as (st' & Hrun & Hl & He & Hp). exists 0, st', (delete t (vars E.*2)). split; [done|]. split; [|rewrite He; by apply putenv_unsets]. split; [done|]. eexists. split; [exact Hp|]. apply vars_unset. by apply split_entry_none.
Qed.

Lemma unsetenv_correct st E C name : holds st E C -> e_locked st = false -> known C name -> correct C (vars E.*2) st (Unsetenv name).
Proof.
  intros Hh Hlk Hk. destruct (name_cases C name Hk) as [Hbad|(nm & Hn & Hg)].
  - eexists (-1), _, (vars E.*2). cbn [run_call]. unfold unsetenv. rewrite (valid_name_bad _ _ _ _ Hh Hbad). obind. split; [done|]. split; [|by apply unsetenv_bad]. split; [done|]. exists E. split; [by apply holds_errno|done].
  - destruct (unsetenv_spec _ _ _ _ _ Hh Hlk Hn Hg) as (st' & Hrun & Hl & He & Hp). exists 0, st', (delete nm (vars E.*2)). split; [done|]. split; [|rewrite He; by apply unsetenv_unsets]. split; [done|]. eexists. split; [exact Hp|]. apply vars_unset, Hg.
Qed.

Lemma getenv_correct st E C name : holds st E C -> e_locked st = false -> call_ok C (Getenv name) -> correct C (vars E.*2) st (Getenv name).
Proof.
  intros Hh Hlk [->|(nm & Hn & Hno)].
  { exists 0, st, (vars E.*2). split; [done|]. split; [|apply getenv_null]. split; [done|]. by exists E. }
  assert (Hm : models st C (vars E.*2)) by (split; [done|]; by exists E). unfold correct. cbn [run_call]. destruct (decide (nm = [])) as [->|Hne].
  { exists 0, st, (vars E.*2). split; [|split; [done|apply getenv_misses with []; [done|by left]]]. pose proof (proj1 (Forall_forall _ _) (h_strings _ _ _ Hh) _ Hn) as ([Hp1 _] & Hpc & _). cbn [fst snd] in Hpc. unfold getenv. destruct (_ || _); [done|]. change (strlen_loop _ _ name 0) with (strlen (e_mem st) name). by rewrite (strlen_spec _ _ _ Hpc). }
  rewrite (getenv_spec _ _ _ _ _ Hh Hn Hne). obind. pose proof (vars_lookup nm E Hno) as Hl. destruct (list_find (named nm) E) as [[i x]|] eqn:Ef; eexists _, st, (vars E.*2); (split; [done|]; split; [done|]).
  - apply list_find_Some in Ef as (Hi & [w Hw] & _). pose proof (proj1 (Forall_lookup _ _) (h_entries _ _ _ Hh) _ _ Hi) as ([Hx1 Hx2] & Hxc & _). rewrite Hw, <- app_assoc in Hxc. apply cstr_at_app in Hxc as [_ Hxc]. apply cstr_at_cons in Hxc as (_ & _ & Hxc).
    apply getenv_finds with nm w; try done; [|lia]. rewrite Hl. cbn [fmap option_fmap option_map snd]. rewrite Hw. f_equal. rewrite <- app_assoc. clear. induction nm as [|c nm IH]; [done|exact IH].
  - apply getenv_misses with nm; [done|by right].
Qed.

(** C20. The environment is a map from names to values.  From any state in which
    [environ] stands for the map [M] (an array that the process started with,
    one that env.c allocated, or NULL), every call returns, leaves the lock
    free and the program's own strings intact, and answers as the map has it:
    setenv and putenv insert, unsetenv and a putenv without = delete, clearenv
    empties, and getenv gives the address of the value or NULL.  A call fails
    with EINVAL for a bad name, and with ENOMEM, the map unchanged, only when
    the allocator refuses a block in proportion to the memory in use.
    ([call_ok] leaves out names with an = in getenv.) *)
Theorem env_call_refines st C M c : models st C M -> call_ok C c -> correct C M st c.
Proof.
  intros (Hlk & E & Hh & <-) Hc. destruct c as [name value ow|name|p| |name]; cbn [call_ok] in Hc.
  - destruct Hc. by apply setenv_correct.
  - by apply unsetenv_correct.
  - by apply putenv_correct.
  - destruct (clearenv_spec _ _ _ Hh Hlk) as (st' & Hrun & Hl & He & Hp). exists 0, st', ∅. split; [done|]. split; [|rewrite He; apply clearenv_clears]. split; [done|]. by exists [].
  - by apply getenv_correct.
Qed.
End Environment.
