(* ===== verification/Exit.v ===== *)
(** * exit and atexit (lib/moqi_libc/src/exit.c)

    The registered functions are a stack of blocks, the first one static, the
    others from malloc.  A function that exit calls may itself register
    functions and call exit; it is given as a program that does so. *)

From S2P Require Import Prelude Mem Alloc.

Section Operations.
Context {H : Type} `{!Allocator H}.

Definition EX_CHUNK : Z := 32.
(** [sizeof(struct ex_block)]: a pointer, an int, 32 pointers, aligned. *)
Definition EX_SIZE : Z := 272.

Record ex_block := mkExBlock { b_prev : Z; b_used : Z; b_fn : list Z }.

(** The blocks by address, [ex_top], the lock, the heap and errno. *)
Record exs := mkExs {
  x_blocks : gmap Z ex_block;
  x_top : Z;
  x_locked : bool;
  x_heap : H;
  x_errno : Z }.

Definition put_block (a : Z) (b : ex_block) (st : exs) : exs := mkExs (<[a := b]> (x_blocks st)) (x_top st) (x_locked st) (x_heap st) (x_errno st).
Definition drop_block (a : Z) (st : exs) : exs := mkExs (delete a (x_blocks st)) (x_top st) (x_locked st) (hfree (x_heap st) a) (x_errno st).
Definition set_top (a : Z) (st : exs) : exs := mkExs (x_blocks st) a (x_locked st) (x_heap st) (x_errno st).
Definition set_heap (h : H) (st : exs) : exs := mkExs (x_blocks st) (x_top st) (x_locked st) h (x_errno st).
Definition set_errno (e : Z) (st : exs) : exs := mkExs (x_blocks st) (x_top st) (x_locked st) (x_heap st) e.

(** A lock that is held by the caller itself is never released: no result. *)
Definition ex_lock (st : exs) : option exs := if x_locked st then None else Some (mkExs (x_blocks st) (x_top st) true (x_heap st) (x_errno st)).
Definition ex_unlock (st : exs) : exs := mkExs (x_blocks st) (x_top st) false (x_heap st) (x_errno st).

(** [fn[i] = f]; a slot outside the array is a fault. *)
Definition set_fn (l : list Z) (i f : Z) : option (list Z) := if (0 <=? i) && (i <? len l) then Some (<[Z.to_nat i := f]> l) else None.
Definition get_fn (l : list Z) (i : Z) : option Z := if (0 <=? i) && (i <? len l) then l !! Z.to_nat i else None.

(** The contents of a new block are not known. *)
Context (garbage : list Z).

Definition atexit (fn : Z) (st : exs) : option (Z * exs) :=
  if fn =? 0 then Some (-1, set_errno EINVAL st)
  else
    st ← ex_lock st;
    top ← x_blocks st !! x_top st;
    let push st :=
      b ← x_blocks st !! x_top st;
      l ← set_fn (b_fn b) (b_used b) fn;
      Some (0, ex_unlock (put_block (x_top st) (mkExBlock (b_prev b) (b_used b + 1) l) st)) in
    if b_used top =? EX_CHUNK then
      let st := ex_unlock st in
      let '(b, h) := hmalloc (x_heap st) EX_SIZE in
      let st := set_heap h st in
      if b =? 0 then Some (-1, set_errno ENOMEM st)
      else
        let st := put_block b (mkExBlock 0 0 garbage) st in
        st ← ex_lock st;
        push (set_top b (put_block b (mkExBlock (x_top st) 0 garbage) st))
    else push st.

(** The empty blocks on top go back to malloc. *)
Fixpoint pop_loop (fuel : nat) (st : exs) : option exs :=
  top ← x_blocks st !! x_top st;
  if (b_used top =? 0) && negb (b_prev top =? 0) then
    match fuel with
    | 0%nat => None
    | S fuel => let dead := x_top st in st ← ex_lock (drop_block dead (ex_unlock (set_top (b_prev top) st))); pop_loop fuel st
    end
  else Some st.

Definition ex_pop (st : exs) : option (Z * exs) :=
  st ← ex_lock st;
  st ← pop_loop (size (x_blocks st)) st;
  top ← x_blocks st !! x_top st;
  if 0 <? b_used top then
    let used := b_used top - 1 in
    fn ← get_fn (b_fn top) used;
    Some (fn, ex_unlock (put_block (x_top st) (mkExBlock (b_prev top) used (b_fn top)) st))
  else Some (0, ex_unlock st).

(** ** Programs *)

(** What a function does: return, register a function, do something else, or exit. *)
Inductive prog :=
  | Return
  | Atexit (fn : Z) (k : Z -> prog)
  | Act (e : Z) (k : prog)
  | Exit (code : Z).

Inductive event :=
  | Registered (fn r : Z)
  | Acted (e : Z)
  | Exiting (code : Z)
  | Ran (fn : Z)
  | Flushed
  | Ended (code : Z).

(** The functions behind the pointers, and whether stdio is linked. *)
Context (body : Z -> prog) (fflush_all : bool).

(** What [exit] does when its loop finds no function. *)
Definition finish (code : Z) : list event := (if fflush_all then [Flushed] else []) ++ [Ended code].

(** A function called by [exit(code)] (a program called by it ends with Exit).
    The events and whether the process has ended; [fuel] bounds the functions
    that are called. *)
Fixpoint run (fuel : nat) : prog -> Z -> exs -> option (list event * bool * exs) :=
  fix go (p : prog) (code : Z) (st : exs) {struct p} : option (list event * bool * exs) :=
    let next code :=
      match fuel with
      | 0%nat => Some ([], false, st)
      | S fuel =>
          '(fn, st) ← ex_pop st;
          if fn =? 0 then Some (finish code, true, st)
          else '(l, b, st) ← run fuel (body fn) code st; Some (Ran fn :: l, b, st)
      end in
    match p with
    | Return => next code
    | Atexit fn k => '(r, st) ← atexit fn st; '(l, b, st) ← go (k r) code st; Some (Registered fn r :: l, b, st)
    | Act e k => '(l, b, st) ← go k code st; Some (Acted e :: l, b, st)
    | Exit code => '(l, b, st) ← next code; Some (Exiting code :: l, b, st)
    end.
End Operations.
Arguments exs : clear implicits.
