(* ===== verification/ExitThms.v ===== *)
(** * exit runs the registered functions in reverse

    The events of a process, whatever its functions do, follow a stack: a
    function runs when it is the last one registered that has not run, the
    streams are flushed when none is left, and the process ends with the code
    of the last call of exit.  The blocks that atexit allocated are given back. *)

From S2P Require Import Prelude Mem Alloc Exit.

Section Exiting.
Context {H : Type} {AH : Allocator H} {LH : AllocatorLaws H}.
Context (garbage : list Z) (body : Z -> prog) (fflush_all : bool).
Hypothesis garbage_length : length garbage = 32%nat.

(** ** The stack in the blocks *)

(** The blocks from the address [a] on: addresses and registered functions, oldest first. *)
Inductive chain (B : gmap Z ex_block) : Z -> list (Z * list Z) -> Prop :=
  | chain_nil : chain B 0 []
  | chain_cons a prev fns l ks : a <> 0 -> B !! a = Some (mkExBlock prev (len l) fns) -> length fns = 32%nat -> take (length l) fns = l -> Forall (fun f => f <> 0) l -> chain B prev ks -> chain B a ((a, l) :: ks).

Definition stacked (ks : list (Z * list Z)) : list Z := concat ((fun k => rev k.2) <$> ks).

(** [dyn] are the allocated blocks, [l0] is in the static one at [first]; [B0] are the other live blocks. *)
Record rep (first : Z) (B0 : list (Z * Z)) (st : exs H) (dyn : list (Z * list Z)) (l0 : list Z) : Prop := {
  rp_inv : hinv (x_heap st);
  rp_chain : chain (x_blocks st) (x_top st) (dyn ++ [(first, l0)]);
  rp_nodup : NoDup (dyn ++ [(first, l0)]).*1;
  rp_full : Forall (fun k => length k.2 = 32%nat) (tail (dyn ++ [(first, l0)]));
  rp_first : is_Some (hmem (x_heap st) !! first);
  rp_live : exists D, D.*1 = dyn.*1 /\ hblocks (x_heap st) ≡ₚ D ++ B0 /\ Forall (fun d => 0 < d.2 /\ (first < d.1 \/ d.1 + d.2 <= first)) D }.

Lemma chain_agree B B' a ks : (forall x, x ∈ ks.*1 -> B' !! x = B !! x) -> chain B a ks -> chain B' a ks.
Proof.
  intros Hag Hc. induction Hc as [|a prev fns l ks Ha Hb Hf Ht Hz Hc IH]; [constructor|]. eapply chain_cons; try done; [rewrite Hag; [done|left]|]. apply IH. intros x Hx. apply Hag. by right.
Qed.

Lemma stacked_cons a l ks : stacked ((a, l) :: ks) = rev l ++ stacked ks.
Proof. done. Qed.

(** ** atexit *)

(** Another function on the block on top. *)
Lemma push_top B a l ks f : chain B a ((a, l) :: ks) -> NoDup (((a, l) :: ks).*1) -> (length l < 32)%nat -> f <> 0 ->
  exists prev fns, B !! a = Some (mkExBlock prev (len l) fns) /\ set_fn fns (len l) f = Some (<[length l := f]> fns) /\ chain (<[a := mkExBlock prev (len l + 1) (<[length l := f]> fns)]> B) a ((a, l ++ [f]) :: ks).
Proof.
  intros Hc Hnd Hlt Hf. inversion Hc as [|? prev fns ? ? Ha Hb Hlen Ht Hz Hk]; subst. exists prev, fns. split; [done|]. unfold set_fn. rewrite Hlen, Nat2Z.id. replace ((0 <=? len l) && (len l <? Z.of_nat 32)) with true by lia. split; [done|].
  cbn in Hnd. apply NoDup_cons in Hnd as [Hni Hnd]. replace (len l + 1) with (len (l ++ [f])) by (rewrite length_app; cbn [length]; lia). apply chain_cons with prev (<[length l := f]> fns); try done.
  - apply lookup_insert_eq.
  - by rewrite length_insert.
  - rewrite length_app, Nat.add_1_r. rewrite (take_S_r _ _ f) by (apply list_lookup_insert_eq; lia). by rewrite take_insert_ge, Ht by lia.
  - apply Forall_app. split; [done|]. by apply Forall_cons.
  - eapply chain_agree; [|done]. intros x Hx. apply lookup_insert_ne. by intros ->.
Qed.

(** ** ex_pop *)

Lemma pop_top B a l f ks : chain B a ((a, l ++ [f]) :: ks) -> NoDup (((a, l ++ [f]) :: ks).*1) ->
  f <> 0 /\ exists prev fns, B !! a = Some (mkExBlock prev (len l + 1) fns) /\ get_fn fns (len l) = Some f /\ chain (<[a := mkExBlock prev (len l) fns]> B) a ((a, l) :: ks).
Proof.
  intros Hc Hnd. inversion Hc as [|? prev fns ? ? Ha Hb Hlen Ht Hz Hk]; subst. rewrite length_app in *. cbn [length] in *. apply Forall_app in Hz as [Hz Hf]. apply Forall_cons in Hf as [Hf _]. split; [done|].
  assert (Hle : (length l + 1 <= 32)%nat) by (rewrite <- Hlen; apply (f_equal length) in Ht; rewrite length_take, length_app in Ht; cbn in Ht; lia).
  exists prev, fns. split; [rewrite Hb; do 2 f_equal; lia|]. unfold get_fn. rewrite Hlen, Nat2Z.id. replace ((0 <=? len l) && (len l <? Z.of_nat 32)) with true by lia. split.
  - rewrite <- (lookup_take_lt fns (length l + 1)) by lia. rewrite Ht. by apply list_lookup_middle.
  - cbn in Hnd. apply NoDup_cons in Hnd as [Hni Hnd]. apply chain_cons with prev fns; try done; [apply lookup_insert_eq| |].
    + apply (f_equal (take (length l))) in Ht. rewrite take_take, Nat.min_l in Ht by lia. rewrite Ht. by rewrite take_app_length.
    + eapply chain_agree; [|done]. intros x Hx. apply lookup_insert_ne. by intros ->.
Qed.

(** ** The calls *)

Section Calls.
Context (first : Z) (B0 : list (Z * Z)).
Abbreviation all dyn l0 := (dyn ++ [(first, l0)]).

Lemma rep_top st dyn l0 : rep first B0 st dyn l0 -> exists a l ks, all dyn l0 = (a, l) :: ks /\ x_top st = a /\ chain (x_blocks st) a ((a, l) :: ks) /\ NoDup (((a, l) :: ks).*1) /\ Forall (fun k => length k.2 = 32%nat) ks.
Proof.
  intros [_ Hc Hn Hf _ _]. destruct (all dyn l0) as [|[a l] ks] eqn:E; [by destruct dyn|]. exists a, l, ks. split; [done|]. assert (x_top st = a) as <- by (by inversion Hc). by split_and!.
Qed.

(** The block on top has changed. *)
Lemma rep_retop st st' dyn l0 a l l' ks : rep first B0 st dyn l0 -> all dyn l0 = (a, l) :: ks -> x_heap st' = x_heap st -> x_top st' = a -> chain (x_blocks st') a ((a, l') :: ks) ->
  exists dyn' l0', rep first B0 st' dyn' l0' /\ all dyn' l0' = (a, l') :: ks.
Proof.
  intros [Hi Hc Hn Hf Hm (D & HD & Hb & Hs)] Hall Hh Ht Hc'. rewrite Hall in *. destruct dyn as [|[b lb] dyn].
  - injection Hall as -> -> <-. exists [], l'. split; [|done]. constructor; try done; rewrite ?Hh, ?Ht; try done. exists D. by rewrite HD.
  - injection Hall as -> -> <-. exists ((a, l') :: dyn), l0. split; [|done]. constructor; try done; rewrite ?Hh, ?Ht; try done. exists D. by rewrite HD.
Qed.

Definition refused : Prop := exists h, hinv h /\ (hmalloc h EX_SIZE).1 = 0.

Lemma stacked_full ks : Forall (fun k => length k.2 = 32%nat) ks -> (length (stacked ks) mod 32 = 0)%nat.
Proof.
  intros Hf. induction Hf as [|[a l] ks Hl Hf IH]; [done|]. rewrite stacked_cons, length_app, length_rev. cbn in Hl. rewrite Hl. rewrite Nat.add_comm, Nat.Div0.add_mod, IH. done.
Qed.

Lemma rep_fresh st dyn l0 p n h : rep first B0 st dyn l0 -> alloc_effect n p (x_heap st) h -> p <> 0 -> 0 < n -> p ∉ (all dyn l0).*1.
Proof.
  intros [Hi _ _ _ [v Hv] (D & HD & Hb & Hs)] [[? _]|(_ & n' & Hn' & _ & _ & Hfresh & _)] Hp Hn; [done|]. rewrite fmap_app, elem_of_app. intros [Hin|Hin].
  - rewrite <- HD in Hin. apply list_elem_of_fmap in Hin as ([q k] & -> & Hin). pose proof (proj1 (Forall_forall _ _) Hs _ Hin) as [Hk _]. cbn in *. assert (Hl : (q, k) ∈ hblocks (x_heap st)) by (rewrite Hb; apply elem_of_app; by left).
    destruct (hblocks_mapped _ _ _ Hi Hl) as [_ Hm]. destruct (Hm q ltac:(lia)) as [w Hw]. rewrite Hfresh in Hw by lia. done.
  - apply list_elem_of_singleton in Hin as ->. cbn in *. rewrite Hfresh in Hv by lia. done.
Qed.

(** A block added on top. *)
Lemma rep_grow st dyn l0 p h : rep first B0 st dyn l0 -> Forall (fun k => length k.2 = 32%nat) (all dyn l0) -> hinv h -> alloc_effect EX_SIZE p (x_heap st) h -> p <> 0 ->
  rep first B0 (mkExs (<[p := mkExBlock (x_top st) 0 garbage]> (x_blocks st)) p true h (x_errno st)) ((p, []) :: dyn) l0.
Proof.
  intros Hr Hfull Hih Heff Hp. pose proof (rep_fresh _ _ _ _ _ _ Hr Heff Hp eq_refl) as Hni. destruct Hr as [Hi Hc Hn Hf [v Hv] (D & HD & Hb & Hs)]. destruct Heff as [[? _]|(_ & n & Hle & Hbl & _ & Hfresh & Hsame)]; [done|]. unfold EX_SIZE in *.
  assert (Hout : first < p \/ p + n <= first) by (destruct (decide (first < p \/ p + n <= first)) as [|Hin]; [done|]; rewrite Hfresh in Hv by lia; done).
  constructor; cbn [x_heap x_blocks x_top app fmap list_fmap tail fst].
  - done.
  - apply chain_cons with (x_top st) garbage; try done; [apply lookup_insert_eq|]. eapply chain_agree; [|done]. intros x Hx. apply lookup_insert_ne. by intros ->.
  - apply NoDup_cons. by split.
  - done.
  - exists v. by rewrite Hsame by lia.
  - exists ((p, n) :: D). split; [cbn; by rewrite HD|]. split; [by rewrite Hbl, Hb|]. apply Forall_cons. cbn. split; [lia|done].
Qed.

Lemma rep_locked st dyn l0 b e : rep first B0 st dyn l0 -> rep first B0 (mkExs (x_blocks st) (x_top st) b (x_heap st) e) dyn l0.
Proof. intros []. by constructor. Qed.

Definition pushed (st' : exs H) (f : Z) (stack : list Z) : Prop := exists dyn' l0', rep first B0 st' dyn' l0' /\ stacked (all dyn' l0') = f :: stack.

Lemma push_spec st dyn l0 a l ks f : rep first B0 st dyn l0 -> all dyn l0 = (a, l) :: ks -> x_top st = a -> (length l < 32)%nat -> f <> 0 ->
  exists st', (b ← x_blocks st !! x_top st; fns ← set_fn (b_fn b) (b_used b) f; Some (0, ex_unlock (put_block (x_top st) (mkExBlock (b_prev b) (b_used b + 1) fns) st))) = Some (0, st') /\
    x_locked st' = false /\ x_errno st' = x_errno st /\ pushed st' f (stacked (all dyn l0)).
Proof.
  intros Hr Hall Ht Hlt Hf. destruct (rep_top _ _ _ Hr) as (a' & l' & ks' & Hall' & _ & Hc & Hnd & _). rewrite Hall in Hall'. injection Hall' as <- <- <-. destruct (push_top _ _ _ _ f Hc Hnd Hlt Hf) as (prev & fns & Hb & Hset & Hc'). rewrite Ht, Hb. obind. cbn [b_fn b_used b_prev]. rewrite Hset. obind.
  eexists. split; [done|]. split; [done|]. split; [done|]. set (st1 := ex_unlock _). destruct (rep_retop st st1 _ _ _ _ (l ++ [f]) _ Hr Hall eq_refl Ht Hc') as (dyn' & l0' & Hr' & Hall'). exists dyn', l0'. split; [done|]. rewrite Hall', Hall, !stacked_cons, rev_app_distr. done.
Qed.

Lemma ex_lock_free (st : exs H) : x_locked st = false -> ex_lock st = Some (mkExs (x_blocks st) (x_top st) true (x_heap st) (x_errno st)).
Proof. intros Hl. unfold ex_lock. by rewrite Hl. Qed.

Lemma atexit_spec st dyn l0 f : rep first B0 st dyn l0 -> x_locked st = false -> f <> 0 ->
  exists r st', atexit garbage f st = Some (r, st') /\ x_locked st' = false /\
    (r = 0 /\ pushed st' f (stacked (all dyn l0)) \/
     r = -1 /\ refused /\ rep first B0 st' dyn l0 /\ stacked (all dyn l0) <> [] /\ (length (stacked (all dyn l0)) mod 32 = 0)%nat).
Proof.
  intros Hr Hlk Hf. destruct (rep_top _ _ _ Hr) as (a & l & ks & Hall & Ht & Hc & Hnd & Hfull). unfold atexit. replace (f =? 0) with false by lia. rewrite (ex_lock_free st Hlk). obind. cbn [x_blocks x_top]. rewrite Ht.
  inversion Hc as [|? prev fns ? ? Ha Hb Hlen Htk Hz Hk]; subst. rewrite Hb. obind. cbn [b_used]. cbv zeta. destruct (len l =? EX_CHUNK) eqn:Eu; unfold EX_CHUNK in *.
  2: { assert (Hlt : (length l < 32)%nat) by (apply (f_equal length) in Htk; rewrite length_take, Hlen in Htk; lia). destruct (push_spec (mkExs (x_blocks st) (x_top st) true (x_heap st) (x_errno st)) dyn l0 (x_top st) l ks f) as (st' & Hp & Hl & _ & Hpu); [by apply rep_locked|done..|].
       exists 0, st'. cbn [x_blocks x_top] in Hp. rewrite Hb in Hp. split; [exact Hp|]. split; [done|]. by left. }
  assert (Hall32 : Forall (fun k => length k.2 = 32%nat) (all dyn l0)) by (rewrite Hall; apply Forall_cons; split; [cbn; lia|done]). cbn [ex_unlock x_heap]. destruct (hmalloc (x_heap st) EX_SIZE) as [p h] eqn:Em. pose proof (rp_inv _ _ _ _ _ Hr) as Hi.
  assert (Hrq : request EX_SIZE) by (split; done). pose proof (hmalloc_inv _ _ _ _ Hi Hrq Em) as Hih. pose proof (hmalloc_effect _ _ _ _ Hi Hrq Em) as Heff. destruct (p =? 0) eqn:Ep.
  - eexists (-1), _. split; [done|]. split; [done|]. right. split; [done|]. split; [exists (x_heap st); split; [done|]; rewrite Em; cbn; lia|]. destruct Heff as [(_ & Hm & Hbl)|[? _]]; [|lia]. split.
    + destruct Hr as [Hr1 Hr2 Hr3 Hr4 Hr5 Hr6]. constructor; cbn [set_errno set_heap ex_unlock x_heap x_blocks x_top]; rewrite ?Hm, ?Hbl; done.
    + split; [|by apply stacked_full]. rewrite Hall, stacked_cons. destruct l as [|z l]; [done|]. cbn [rev]. by destruct (rev l).
  - assert (Hp : p <> 0) by lia. destruct (push_spec _ _ _ p [] (all dyn l0) f (rep_grow st dyn l0 p h Hr Hall32 Hih Heff Hp)) as (st' & Hpush & Hl & _ & Hpu); [done|done|cbn; lia|done|].
    exists 0, st'. split; [|split; [done|]; left; split; [done|]; exact Hpu]. rewrite <- Hpush, ex_lock_free by done. obind. cbn [ex_unlock set_heap put_block set_top x_locked x_blocks x_top x_heap x_errno].
    rewrite !lookup_insert_eq. obind. cbn [b_fn b_used b_prev]. destruct (set_fn garbage 0 f); [|done]. obind. unfold ex_unlock, put_block, set_top. cbn. by rewrite !insert_insert_eq.
Qed.

(** The stack without its top. *)
Definition popped (st' : exs H) (f : Z) (stack : list Z) : Prop :=
  match stack with
  | [] => f = 0 /\ exists l0', rep first B0 st' [] l0' /\ l0' = []
  | g :: s => f = g /\ g <> 0 /\ exists dyn' l0', rep first B0 st' dyn' l0' /\ stacked (all dyn' l0') = s
  end.

(** The empty block on top is gone. *)
Lemma drop_top st dyn l0 a : rep first B0 st ((a, []) :: dyn) l0 -> exists b, x_blocks st !! a = Some b /\ b_used b = 0 /\ b_prev b <> 0 /\
  rep first B0 (mkExs (delete a (x_blocks st)) (b_prev b) true (hfree (x_heap st) a) (x_errno st)) dyn l0.
Proof.
  intros Hr. assert (Hta : x_top st = a) by (destruct Hr as [_ Hc _ _ _ _]; by inversion Hc). destruct Hr as [Hi Hc Hn Hf [v Hv] (D & HD & Hb & Hs)]. cbn [app] in Hc, Hn, Hf. rewrite Hta in Hc. inversion Hc as [|? prev fns ? ? Ha Hb' Hlen Htk Hz Hk]; subst. eexists. split; [exact Hb'|]. cbn [b_used b_prev]. split; [done|].
  split; [destruct dyn; by inversion Hk|]. destruct D as [|[q n] D]; [done|]. cbn in HD. injection HD as -> HD. apply Forall_cons in Hs as [[Hn0 Hout] Hs]. cbn [fst snd] in *. assert (Hin : (x_top st, n) ∈ hblocks (x_heap st)) by (rewrite Hb; left). destruct (hfree_effect _ _ _ Hi Hin) as (Hbl & _ & Hsame).
  cbn in Hn. apply NoDup_cons in Hn as [Hni Hn]. constructor; cbn [x_heap x_blocks x_top].
  - by eapply hfree_inv.
  - eapply chain_agree; [|done]. intros x Hx. apply lookup_delete_ne. intros Heq. apply Hni. by rewrite Heq.
  - done.
  - cbn in Hf. destruct dyn; [done|]. cbn in *. by apply Forall_cons in Hf as [_ ?].
  - exists v. by rewrite Hsame by lia.
  - exists D. split; [done|]. split; [|done]. apply (Permutation_cons_inv (a := (x_top st, n))). by rewrite <- Hbl, Hb.
Qed.

(** The part of [ex_pop] behind its loop, on a block that is not empty. *)
Lemma pop_last st dyn l0 a l f ks : rep first B0 st dyn l0 -> all dyn l0 = (a, l ++ [f]) :: ks ->
  (forall n, pop_loop n st = Some st) /\
  exists st', (top ← x_blocks st !! x_top st;
     if 0 <? b_used top then fn ← get_fn (b_fn top) (b_used top - 1); Some (fn, ex_unlock (put_block (x_top st) (mkExBlock (b_prev top) (b_used top - 1) (b_fn top)) st))
     else Some (0, ex_unlock st)) = Some (f, st') /\ x_locked st' = false /\ f <> 0 /\ exists dyn' l0', rep first B0 st' dyn' l0' /\ stacked (all dyn' l0') = rev l ++ stacked ks.
Proof.
  intros Hr Hall. destruct (rep_top _ _ _ Hr) as (a' & l' & ks' & Hall' & Ht & Hc & Hnd & _). rewrite Hall in Hall'. injection Hall' as <- <- <-. destruct (pop_top _ _ _ _ _ Hc Hnd) as (Hf & prev & fns & Hb & Hget & Hc'). split.
  - intros n. destruct n; cbn [pop_loop]; rewrite Ht, Hb; obind; cbn [b_used]; by replace (len l + 1 =? 0) with false by lia.
  - rewrite Ht, Hb. obind. cbn [b_used b_fn b_prev]. replace (0 <? len l + 1) with true by lia. replace (len l + 1 - 1) with (len l) by lia. rewrite Hget. obind. eexists. split; [done|]. split; [done|]. split; [done|]. set (st1 := ex_unlock _).
    destruct (rep_retop st st1 _ _ _ _ l _ Hr Hall eq_refl Ht Hc') as (dyn' & l0' & Hr' & Hall'). exists dyn', l0'. split; [done|]. by rewrite Hall', stacked_cons.
Qed.

Lemma ex_pop_spec st dyn l0 : rep first B0 st dyn l0 -> x_locked st = false -> exists f st', ex_pop st = Some (f, st') /\ x_locked st' = false /\ popped st' f (stacked (all dyn l0)).
Proof.
  intros Hr Hlk. unfold ex_pop. rewrite (ex_lock_free _ Hlk). obind. set (st1 := mkExs _ _ true _ _). assert (Hr1 : rep first B0 st1 dyn l0) by (by apply rep_locked). clearbody st1. cbv zeta.
  assert (Hlast : forall st dyn l0 a l f ks n, rep first B0 st dyn l0 -> all dyn l0 = (a, l ++ [f]) :: ks -> exists st', (st ← pop_loop n st; top ← x_blocks st !! x_top st;
     if 0 <? b_used top then fn ← get_fn (b_fn top) (b_used top - 1); Some (fn, ex_unlock (put_block (x_top st) (mkExBlock (b_prev top) (b_used top - 1) (b_fn top)) st)) else Some (0, ex_unlock st)) = Some (f, st') /\
     x_locked st' = false /\ popped st' f (rev (l ++ [f]) ++ stacked ks)).
  { intros st2 dyn2 l2 a l f ks n Hr2 Hall2. destruct (pop_last _ _ _ _ _ _ _ Hr2 Hall2) as (Hloop & st' & Hres & Hl & Hf & Hrep). exists st'. rewrite Hloop. obind. split; [exact Hres|]. split; [done|]. rewrite rev_app_distr. cbn. by split_and!. }
  destruct dyn as [|[a l] dyn].
  - destruct (rep_top _ _ _ Hr1) as (a & l & ks & Hall & Ht & Hc & _). injection Hall as <- <- <-. change (stacked (all [] l0)) with (stacked [(first, l0)]). rewrite stacked_cons. destruct l0 as [|z l0] using rev_ind; [|exists z; by eapply Hlast].
    inversion Hc as [|? prev fns ? ? Ha Hb Hlen Htk Hz Hk]; subst. assert (prev = 0) as -> by (by inversion Hk). assert (Hloop : pop_loop (size (x_blocks st1)) st1 = Some st1) by (destruct (size _); cbn [pop_loop]; rewrite Ht, Hb; done). rewrite Hloop. obind. rewrite Ht, Hb. obind.
    eexists 0, _. split; [done|]. split; [done|]. split; [done|]. exists []. split; [|done]. by apply rep_locked.
  - cbn [app]. rewrite stacked_cons. destruct l as [|f l] using rev_ind; [|exists f; by eapply Hlast]. destruct (drop_top _ _ _ _ Hr1) as (b & Hb & Hu & Hp & Hr2).
    destruct (rep_top _ _ _ Hr1) as (a' & l' & ks & Hall & Ht & _ & _ & Hfull). injection Hall as <- <- <-. destruct (rep_top _ _ _ Hr2) as (a2 & l2 & ks2 & Hall2 & _). rewrite Hall2 in Hfull |- *. apply Forall_cons in Hfull as [Hl2 _]. cbn in Hl2.
    destruct l2 as [|f l2] using rev_ind; [done|]. destruct (size (x_blocks st1)) as [|n] eqn:Es; [apply map_size_empty_inv in Es; rewrite Es in Hb; by rewrite lookup_empty in Hb|]. cbn [pop_loop]. rewrite Ht, Hb. obind. rewrite Hu. replace (b_prev b =? 0) with false by lia. cbn [negb andb Z.eqb].
    rewrite ex_lock_free by done. obind. cbn [rev app]. exists f. rewrite stacked_cons. by eapply Hlast.
Qed.

(** ** Processes *)

(** The events that follow, with the functions [stack] to be run, the last one
    registered first, and the code of the last call of exit. *)
Fixpoint lifo (stack : list Z) (code : Z) (l : list event) : Prop :=
  match l with
  | [] => True
  | Registered f r :: l =>
      f <> 0 /\ r = 0 /\ lifo (f :: stack) code l \/
      r = -1 /\ (f = 0 \/ refused /\ stack <> [] /\ (length stack mod 32 = 0)%nat) /\ lifo stack code l
  | Acted _ :: l => lifo stack code l
  | Exiting c :: l => lifo stack c l
  | Ran f :: l => exists s, stack = f :: s /\ lifo s code l
  | Flushed :: l => fflush_all = true /\ stack = [] /\ l = [Ended code]
  | Ended c :: l => fflush_all = false /\ stack = [] /\ c = code /\ l = []
  end.

Fixpoint ran (l : list event) : nat :=
  match l with
  | [] => 0
  | Ran _ :: l => S (ran l)
  | _ :: l => ran l
  end.

Definition ends (l : list event) : Prop := exists l' c, l = l' ++ [Ended c].

Definition well_run (stack : list Z) (code : Z) (fuel : nat) (res : option (list event * bool * exs H)) : Prop :=
  exists l (b : bool) st', res = Some (l, b, st') /\ lifo stack code l /\ if b then ends l /\ hblocks (x_heap st') ≡ₚ B0 else ran l = fuel.

Lemma ends_cons e l : ends l -> ends (e :: l).
Proof. intros (l' & c & ->). by exists (e :: l'), c. Qed.

(** An event in front. *)
Lemma well_run_cons e stack code stack' code' fuel res : well_run stack code fuel res -> (forall l, lifo stack code l -> lifo stack' code' (e :: l)) -> (forall f, e <> Ran f) ->
  well_run stack' code' fuel ('(l, b, st) ← res; Some (e :: l, b, st)).
Proof.
  intros (l & b & st' & -> & Hl & Hb) He Hr. obind. exists (e :: l), b, st'. split; [done|]. split; [by apply He|]. destruct b; [split; [apply ends_cons, Hb|apply Hb]|]. cbn. destruct e; try done. by destruct (Hr fn).
Qed.

Lemma finish_run st dyn l0 stack code fuel :
  (forall n p code st dyn l0, (n < fuel)%nat -> rep first B0 st dyn l0 -> x_locked st = false -> well_run (stacked (all dyn l0)) code n (run garbage body fflush_all n p code st)) ->
  rep first B0 st dyn l0 -> x_locked st = false -> stack = stacked (all dyn l0) ->
  well_run stack code fuel
    (match fuel with
     | 0%nat => Some ([], false, st)
     | S fuel => '(fn, st) ← ex_pop st; if fn =? 0 then Some (finish fflush_all code, true, st) else '(l, b, st) ← run garbage body fflush_all fuel (body fn) code st; Some (Ran fn :: l, b, st)
     end).
Proof.
  intros IH Hr Hlk ->. destruct fuel as [|fuel]; [by exists [], false, st|]. destruct (ex_pop_spec _ _ _ Hr Hlk) as (f & st1 & -> & Hl1 & Hpop). obind. unfold popped in Hpop. destruct (stacked (all dyn l0)) as [|g s].
  - destruct Hpop as (-> & l0' & Hr1 & _). cbn [Z.eqb]. exists (finish fflush_all code), true, st1. split; [done|]. unfold finish. split; [by destruct fflush_all eqn:Eflush|]. split; [by exists (if fflush_all then [Flushed] else []), code|]. destruct (rp_live _ _ _ _ _ Hr1) as (D & HD & Hb & _). apply fmap_nil_inv in HD as ->. done.
  - destruct Hpop as (-> & Hg & dyn' & l0' & Hr1 & <-). replace (g =? 0) with false by lia. destruct (IH fuel (body g) code st1 dyn' l0' ltac:(lia) Hr1 Hl1) as (l & b & st' & -> & Hl & Hb). obind. exists (Ran g :: l), b, st'. split; [done|]. split; [by eexists|]. destruct b; [split; [apply ends_cons, Hb|apply Hb]|]. cbn. by f_equal.
Qed.

Lemma run_spec fuel : forall p code st dyn l0, rep first B0 st dyn l0 -> x_locked st = false -> well_run (stacked (all dyn l0)) code fuel (run garbage body fflush_all fuel p code st).
Proof.
  induction fuel as [fuel IHf] using lt_wf_ind. assert (IH : forall n p code st dyn l0, (n < fuel)%nat -> rep first B0 st dyn l0 -> x_locked st = false -> well_run (stacked (all dyn l0)) code n (run garbage body fflush_all n p code st)) by (intros; by apply IHf). clear IHf.
  induction p as [|f k IHp|e p IHp|c]; intros code st dyn l0 Hr Hlk.
  - destruct fuel; by eapply (finish_run st dyn l0).
  - assert (Hat : exists r st1 dyn1 l1, atexit garbage f st = Some (r, st1) /\ rep first B0 st1 dyn1 l1 /\ x_locked st1 = false /\ forall l, lifo (stacked (all dyn1 l1)) code l -> lifo (stacked (all dyn l0)) code (Registered f r :: l)).
    { destruct (decide (f = 0)) as [->|Hf].
      - eexists (-1), _, dyn, l0. split; [done|]. split; [by apply rep_locked|]. split; [done|]. intros l Hl. right. split; [done|]. split; [by left|done].
      - destruct (atexit_spec _ _ _ f Hr Hlk Hf) as (r & st1 & Hat & Hl1 & [(-> & dyn1 & l1 & Hr1 & Hst)|(-> & Hre & Hr1 & Hne & Hmod)]).
        + exists 0, st1, dyn1, l1. split; [done|]. split; [done|]. split; [done|]. intros l Hl. left. by rewrite <- Hst.
        + exists (-1), st1, dyn, l0. split; [done|]. split; [done|]. split; [done|]. intros l Hl. right. split; [done|]. split; [by right|done]. }
    destruct Hat as (r & st1 & dyn1 & l1 & Hat & Hr1 & Hl1 & Hlifo). pose proof (IHp r code st1 dyn1 l1 Hr1 Hl1) as Hrun. destruct fuel; cbn [run]; rewrite Hat; obind; by apply (well_run_cons _ _ _ _ _ _ _ Hrun).
  - pose proof (IHp code st dyn l0 Hr Hlk) as Hrun. destruct fuel; by apply (well_run_cons (Acted e) _ _ _ _ _ _ Hrun).
  - pose proof (finish_run st dyn l0 _ c fuel IH Hr Hlk eq_refl) as Hrun. destruct fuel; by apply (well_run_cons (Exiting c) _ _ _ _ _ _ Hrun).
Qed.
End Calls.
End Exiting.

(** The variables of exit.c when the process starts. *)
Definition ex_start {H} (first : Z) (fns : list Z) (h : H) : exs H := mkExs {[first := mkExBlock 0 0 fns]} first false h 0.

(** C21. exit and atexit, for any program and any functions, which may register
    functions and call exit themselves.  The process never faults and never
    waits for its own lock.  Its events follow the stack: atexit adds a
    function unless it is NULL, or all slots are taken and malloc refuses; the
    function that runs is always the last one registered that has not run; the
    streams are flushed once, when none is left, and then the process ends
    with the code of the last call of exit.  It ends unless the bound on the
    functions called is reached, and then every block that atexit allocated
    has been freed. *)
Theorem exit_runs_lifo {H} `{AllocatorLaws H} (garbage fns : list Z) body fflush_all first (h : H) fuel p code :
  length garbage = 32%nat -> length fns = 32%nat -> hinv h -> first <> 0 -> is_Some (hmem h !! first) ->
  exists l (b : bool) st', run garbage body fflush_all fuel p code (ex_start first fns h) = Some (l, b, st') /\ lifo fflush_all [] code l /\
    if b then ends l /\ hblocks (x_heap st') ≡ₚ hblocks h else ran l = fuel.
Proof.
  intros Hg Hf Hi Hz Hm. apply (run_spec garbage body fflush_all Hg first (hblocks h) fuel p code (ex_start first fns h) [] []); [|done]. constructor; try done.
  - cbn. apply chain_cons with 0 fns; try done; [apply lookup_singleton_eq|constructor].
  - cbn. apply NoDup_singleton.
  - by exists [].
Qed.
