(* ===== verification/Clients.v ===== *)
(** * The environment and exit over malloc.c

    The theorems of EnvThms and ExitThms are about any allocator that keeps
    its laws; here the allocator is malloc.c on the kernel's brk, and the
    program's data lie below its heap. *)

From S2P Require Import Prelude Mem Alloc Words Malloc MallocSpec MallocHeap MallocThms.
From S2P Require Env EnvSpec EnvThms Exit ExitThms.

#[local] Abbreviation alloc := (Malloc_Allocator always 4096 (2 ^ 46) 1).
#[local] Abbreviation laws := (Malloc_Laws always 4096 (2 ^ 46) 1 layout_4096).

(** Data below the heap. *)
Definition low_heap (a : Z) (l : list Z) : heap := init_heap 4096 (mem_of a l).

Lemma low_heap_ready a l : a + len l <= 4096 -> ready 4096 (2 ^ 46) (low_heap a l) [].
Proof. intros Hl. apply (init_ready 4096 (2 ^ 46) 1 layout_4096). intros k Hk. unfold mem_of. rewrite write_bytes_out by lia. apply lookup_empty. Qed.

(** A process that starts with A=1, and has the strings B and two. *)
Definition env_data : list Z := words [224; 0] ++ replicate 8 0 ++ str "A=1" ++ [0] ++ str "B" ++ [0] ++ str "two" ++ [0].
Definition env_process : Env.env heap := Env.mkEnv (low_heap 200 env_data) 200 0 0 false 0.
Definition env_strings : list (Z * list Z) := [(228, str "B"); (230, str "two")].

Lemma env_process_models : EnvThms.models (AH := alloc) (LH := laws) env_process env_strings {[str "A" := str "1"]}.
Proof.
  split; [done|]. exists [(224, str "A=1")]. split; [|done].
  assert (Hs : forall x, x ∈ [(224, str "A=1"); (228, str "B"); (230, str "two")] -> EnvSpec.string_ok (Env.e_mem (Allocator0 := alloc) env_process) 200 16 x).
  { intros x Hx. repeat (apply elem_of_cons in Hx as [->|Hx]; [split; [split; vm_compute; [reflexivity|discriminate]|]; split; [apply cstr_atb_sound; vm_compute; reflexivity|right; vm_compute; discriminate]|]). by apply not_elem_of_nil in Hx. }
  constructor.
  - exists []. apply low_heap_ready. vm_compute. discriminate.
  - done.
  - done.
  - intros _. split; [split; vm_compute; [reflexivity|discriminate]|apply bytes_atb_sound; vm_compute; reflexivity].
  - apply Forall_forall. intros x Hx. apply Hs. apply list_elem_of_singleton in Hx as ->. left.
  - apply Forall_forall. intros x Hx. apply Hs. by right.
Qed.

(** setenv("B", "two", 1) in that process. *)
Lemma env_call_refines_witness : EnvThms.correct (AH := alloc) (LH := laws) env_strings {[str "A" := str "1"]} env_process (EnvThms.Setenv 228 230 1).
Proof.
  apply (EnvThms.env_call_refines (AH := alloc) (LH := laws) env_process env_strings {[str "A" := str "1"]} (EnvThms.Setenv 228 230 1)).
  - exact env_process_models.
  - split; right; [exists (str "B"); left|exists (str "two"); right; left].
Defined.

(** A program that registers 1 and 2 and exits with 7; the function 2 registers 3 and exits with 9. *)
Definition exit_main : Exit.prog := Exit.Atexit 1 (fun _ => Exit.Atexit 2 (fun _ => Exit.Exit 7)).
Definition exit_body (f : Z) : Exit.prog := if f =? 2 then Exit.Atexit 3 (fun _ => Exit.Exit 9) else Exit.Act f Exit.Return.
Definition zeros : list Z := replicate 32 0.

Lemma exit_runs_lifo_witness :
  exists l (b : bool) st', Exit.run (Allocator0 := alloc) zeros exit_body true 5 exit_main 0 (ExitThms.ex_start 200 zeros (low_heap 200 [0])) = Some (l, b, st') /\
    ExitThms.lifo (LH := laws) true [] 0 l /\ if b then ExitThms.ends l /\ hblocks (Allocator := alloc) (Exit.x_heap st') ≡ₚ hblocks (Allocator := alloc) (low_heap 200 [0]) else ExitThms.ran l = 5%nat.
Proof.
  apply (ExitThms.exit_runs_lifo (Allocator0 := alloc) (H0 := laws) zeros zeros exit_body true 200 (low_heap 200 [0]) 5 exit_main 0).
  - reflexivity.
  - reflexivity.
  - exists []. apply low_heap_ready. vm_compute. discriminate.
  - discriminate.
  - exists 0. vm_compute. reflexivity.
Defined.
